(* ===== verification/_CoqProject ===== *)
-Q . S2P
Prelude.v
Bytes.v
Undo.v
Crypto.v
GroupOrder.v
Curve.v
Pedersen.v
RingSig.v
Stealth.v
Bulletproof.v
LPoD.v
Vesting.v
Avm.v
StakePayload.v
Transaction.v
Block.v
Chain.v
Reward.v
Sale.v
Utxo.v
UtxoRollback.v
TxVerifier.v
CryptoImpl.v
Mempool.v
MempoolInvariant.v
Builder.v
Staking.v
StakingAtomic.v
StakingBlock.v
StakingEpoch.v
StakingReplay.v
KeyValue.v
BlockStore.v
BlockStoreProofs.v
OutputStore.v
OutputStoreProofs.v
Quorum.v
FinalityStore.v
Finality.v
FinalityRestore.v
FinalitySafety.v
FinalityLive.v
Scanner.v
LPoDCheckpoint.v
GenesisVesting.v
LPoDPositions.v
LPoDPositionsProofs.v
LPoDExample.v
Economics.v
Wasm.v
AvmState.v
AvmEngine.v
AvmBlock.v
AvmCheckpoint.v
AvmRecovery.v
Engine.v
EngineSafety.v
EngineLive.v
EngineExample.v
