(* ===== verification/Prelude.v ===== *)
(** * Aperod node: verification library

    Aperod is a proof-of-authority chain with confidential (ring-signature)
    transactions, on-chain validator staking, a settlement protocol for locked
    principal (LPoD), a contract machine (AVM) and a token sale.  The development
    models the deterministic core of the Go node: the cryptographic protocols, the data
    that is hashed and signed, the rules a transaction and a block obey, every state
    transition a block causes, the pool it is built from, the votes that finalize it,
    the records it leaves on disk, and the engine that drives all of these.

    ** Parts of the program and how they interact

    A block ([core/block.go]) carries transactions ([core/transaction.go] and the
    protocol kinds in [lpod.go], [lpod_position.go], [sale.go], [guardian_fund.go],
    [mint.go], [reward.go], [avm.go]).  The pool ([mempool.go]) admits transactions the
    verifier ([tx_verifier.go], over the [crypto] package) accepts and selects those of
    the next block.  The engine ([consensus/poa.go]) builds a block or receives one; the
    block verifier ([block_verifier.go]) checks header, links, times and structure, and
    the engine its rewards, fees and policies.  It then applies the block: the UTXO set
    ([utxo.go]) records key images and outputs and keeps a journal for rollback; the
    validator registry ([staking.go]) dry-runs the staking transactions before it
    applies them, burns their collateral in the UTXO set and rotates the active set at
    epoch boundaries; the chain ([chain.go]) indexes the block; the contract executor
    ([avm/block_executor.go]) yields a write set; the stores ([store/]) commit it all in
    one batch; the pool drops what the block spends.  When a stage fails the earlier ones
    are rolled back, which is why the rollback theorems below ask for exact restoration.
    Validators then vote for the block, and a quorum of votes finalizes it.

    ** Files

    Shared:
    - [Prelude.v]: machine integers with their wrap-around, the result type and the
      notations for early returns, tactics, the hint database, folds and sums.
    - [Bytes.v]: byte slices, arrays of fixed length, the encoders of
      [encoding/binary], hexadecimal.
    - [Undo.v]: bulk updates of finite maps and when one undoes another.

    Cryptography, the [crypto] package:
    - [Crypto.v]: the types the other packages use, [HashBytes], and the class [Crypto] of
      primitives as the rest of the node sees them.  The class states no law.
    - [GroupOrder.v]: the order of the base point is prime.
    - [Curve.v]: points, scalars and their encodings over the class [Edwards] of the
      edwards25519 library; hash to point; key images; wallets.
    - [Pedersen.v]: commitments, value authorizations, key-image proofs.
    - [RingSig.v]: MLSAG and CLSAG ring signatures.
    - [Stealth.v]: one-time addresses, address strings, burn addresses.
    - [Bulletproof.v]: range proofs.
    - [CryptoImpl.v]: these functions as an instance of [Crypto] and [RingCrypto].

    Transactions, blocks and the state a block changes:
    - [LPoD.v]: [lpod/accounting.go]: tiers, checkpoint validation, [Settle].
    - [LPoDCheckpoint.v]: the data of deposits, allocations and checkpoints
      ([store/lpod*.go], [store/genesis_vesting*.go]) and the commitment [Digest].
    - [GenesisVesting.v]: the development reserve: tranches, funding, validation, and
      the preview of a block with its schedule.
    - [LPoDPositions.v], [LPoDPositionsProofs.v]: [store/lpod_positions.go],
      [lpod_vault_rank.go] and the reward debit: the transition of a block over the
      positions, the settlement, the payout; [LPoDExample.v] is a worked block.
    - [Scanner.v]: [core/wallet_scanner.go] and the payout output of
      [core/lpod_position.go].
    - [Vesting.v]: [core/vesting.go], [GenesisConfig.Validate], the vesting lock.
    - [Avm.v]: contract payloads of [core/avm.go].
    - [StakePayload.v]: the payload codecs of [core/staking.go] (versions 1 to 4 of a
      deposit, version 2 of a withdrawal).
    - [Transaction.v]: transactions, their hash, [Validate] and the version policy; the
      class [Json] stands for [encoding/json] on the two payloads that use it.
    - [Block.v]: headers, Merkle trees and proofs, [VerifyBlock].
    - [Chain.v]: [core/chain.go]: indexes, window, rollback, fast-forward, [Reorg],
      header synchronisation.
    - [Reward.v]: [core/reward.go]: authorized validator rewards.
    - [Sale.v]: the [sale] package: checkpoints, ledger, persisted state, reconciliation.
    - [Utxo.v], [UtxoRollback.v]: [core/utxo.go]: the tiered key-image store, the
      indexes, [ApplyBlock], replay, [RollbackBlock], staking burns.
    - [TxVerifier.v]: [core/tx_verifier.go]: one transaction, and those of a block.
    - [Mempool.v], [MempoolInvariant.v]: [core/mempool.go]: admission, replacement,
      eviction, selection, removal.
    - [Builder.v]: the assembly of one ring input in [core/tx_builder.go].
    - [Staking.v]: [core/staking.go]: registry, deposits, withdrawals, one staking
      transaction, [ProcessStakeTx] and [ApplyBlockStakeTxs].
    - [StakingAtomic.v], [StakingBlock.v], [StakingEpoch.v], [StakingReplay.v]: atomicity
      of a block, the dry run [ValidateBlockStakeTxs], epochs, start-up replay and replay
      protection.

    Storage, the [store] package:
    - [KeyValue.v]: the key layout, batches and ordered scans of [leveldb.go].
    - [BlockStore.v], [BlockStoreProofs.v]: blocks, tip, metadata, the chain indexes with
      their repair and audit.
    - [OutputStore.v], [OutputStoreProofs.v]: outputs and the ring-member sampling index.
    - [FinalityStore.v]: the durable finality records.

    Contracts, the [avm] package:
    - [Wasm.v]: the static checks of a module ([validate.go]).
    - [AvmState.v]: the interface [Store] with its laws, and its three implementations.
    - [AvmEngine.v]: deployment, calls, the host functions, metering.
    - [AvmBlock.v]: the contract transactions of a block, in an overlay.
    - [AvmCheckpoint.v], [AvmRecovery.v]: checkpoints of the contract state, and its
      recovery at start-up.

    Consensus, [consensus/poa.go]:
    - [Quorum.v]: thresholds in [float64] and committee lookups.
    - [Finality.v]: the vote handlers.  [FinalityRestore.v]: the restores of a restart
      and the committee migration.  [FinalitySafety.v]: the life of a node over votes,
      blocks and restarts, and its safety.  [FinalityLive.v]: liveness and restarts.
    - [Economics.v]: rewards, fees, the policies of a block.
    - [Engine.v]: the transition of the whole node for a received or produced block.
      [EngineSafety.v]: what a refused or accepted block leaves behind.  [EngineLive.v]:
      produced blocks and the peers that take them.  [EngineExample.v]: two nodes of a
      small network, for the witnesses and for produced blocks that are refused.

    ** How the code is represented

    A Go integer is a [Z]; the operations that can wrap are written [+w], [-w], [*w].  A
    function with an error result returns [result]; a nil check is [need .. from ..
    else ..].  A method on a pointer takes the record and returns the new one; an
    operation that leaves a changed state behind on an error returns state and result
    ([Reorg], [ApplyBlockStakeTxs], the handlers of [Finality] and [Engine]).  A nilable
    pointer is an [option].  Maps are [gmap], sets of keys [gset]; where the source
    iterates a map the order is either irrelevant and stated as such or a parameter: the
    argument [ord] of the epoch transition is any sort of the entries by stake that
    [sort.Slice] may produce.  [float64] is the binary64 of [SpecFloat].  Locks are not
    modelled: each operation is one critical section of its component.  Time, the chain
    lookup and the transaction verifier are arguments of [VerifyBlock], the durable store
    of consumed identities is an argument of [Advance], as in the source.

    What comes from other code is a class: [Edwards], [Hashes] and [Base58] under the
    cryptography, with their documented laws in classes of their own; [Json],
    [BlockJson] and [UtxoJson] for [encoding/json]; [WasmDecoder] and [WasmRuntime] for
    the two WebAssembly libraries; the record [World] holds what a call of the engine
    reaches outside the node.

    ** Fuel

    Recursion that is not structural has fuel.  [merkleReduce] and [proof_path] take the
    number of hashes (each level at least halves a list of two or more); the binary search
    of the key-image store the length of its range; the recursion of [ipaProve] the
    logarithm of the vector length, six rounds for 64 bits; the eviction loop of the pool
    the number of its entries, each round removing one; the walk over a function body its
    length in bytes, each instruction taking at least one; the drawing of ring members the
    number asked for plus the number of exclusions; the ancestry walk of a vote the height
    of the tip plus one.  In each case the theorems are about the value for that fuel, so
    it is proved to be enough, or the model returns the error that running out would be
    and the theorem excludes it.  The one loop without a bound in the source, hashing to a
    point, has 256 rounds; where it fails the operation returns no point.

    The instances named [toy] make the model executable; they only serve the examples,
    which show that the hypotheses of the theorems can hold.

    ** What the theorems show

    The hypotheses are in the statements and in the comment of each theorem; the main
    ones are named here.

    - Engine: a block that is refused, at whatever stage, leaves chain, registry, pool,
      output indexes and spent key images as they were, if it is new to the chain and the
      sets can undo it ([rejected_block_restores]; the pool of decoys and the log of recent
      outputs are outside it); an accepted block is the new tip and was durable before
      ([accepted_block_extends]); outside the LPoD era and the collateral exclusion, the
      block a node produces is accepted by a ready peer in the same state
      ([produced_block_accepted]); a failing durable commit undoes the block and stops
      the node ([persistence_failure_stops]).
    - Finality: a finalized block has a quorum of authentic votes; two conflicting
      finalized blocks expose more than a third of a constant committee; a node with a
      store never sends two votes for one height, also across a restart; a quorum of votes
      finalizes while no newer certificate is stored and the store works.
    - Money: no key image is spent twice over any sequence of blocks, the inputs of stake
      transactions apart (see the findings); what a verified transaction spends it creates,
      fees included; [Settle] conserves the balances of an LPoD checkpoint and fixes every
      counter; the settlement of a block over the deposits completes and its payout pays
      exactly what the checkpoints say is owed; the tranches of the development reserve
      are paid in order and once; the sale never exceeds its allocation and consumes no
      order or payment twice; vested amounts are bounded and monotone; the fees outside
      coinbases and stake transactions split exactly into burn and tips.
    - Cryptography: signers and provers are complete (ring signatures, range proofs,
      value authorizations); an accepted key image is the only accepted encoding of its
      prime-order part; two accepted answers give the secret; a stealth output and an LPoD
      payout are found and spent by their owner; address strings round trip.
    - Rollback: the indexes of the UTXO set and the spent key images, the registry and the
      chain index return to the state before a block that can be undone (for the UTXO set
      the conditions of [undoable], for the registry collateral filed under both indexes),
      and the staking burns undo.
    - Refinement: the tiered key-image store is a set; the staking dry run predicts the
      application of a block; the constant-size sale state implements the ledger; the
      overlay and the database implement the contract store; the replay of canonical
      blocks rebuilds the contract state a node had.
    - Invariants over reachable states: the chain index (for blocks new to it), the
      indexes of the pool, the bijection of the sampling index, replay protection of
      withdrawals.
    - Contracts: validated code has no loops and pays for every instruction up front; a
      call commits all of its writes or none; the writes of a block are those of running
      its transactions in order.  Protection of code, storage and nonces needs contract
      ids that do not begin with the metadata prefix of the executor.
    - Storage: what a commit leaves on disk; the repair of the height index meets its
      specification and its audit is exact.
    - Formats: round trips and injectivity of the payloads, what a hash binds, Merkle
      proofs complete and sound up to an exhibited collision, quorums of checkpoints.
    - Behaviour that differs from the comments or the intent of the code, each with a
      theorem or an example next to the definition: among them the dry run with seeded
      entries, ties in the epoch order, elapsed unbondings, decoys revived by a rollback,
      duplicated Merkle leaves, an unlinked reorganization, blocks a producer commits that
      its peers refuse, and transactions that stop block production.

    ** Not modelled

    Of LPoD: the migration that creates the first allocation, [PreviewLPoD] with its check
    of sales, the commit of a checkpoint into the database, the audits and the wallet
    indexes; the engine asks the stores to accept a block through [World], and the files
    above take the parent block and the stored checkpoint as arguments.  The commit of sale
    records.  Read and write errors of
    LevelDB and the file system, beyond the outcome of a commit; JSON and YAML text;
    snapshots of the UTXO set and the registry; game assets.  Networking, the HTTP API,
    the wallet, commands and the relayer (input and output).  Of the engine: timers,
    goroutines and channels, gossip, the HTTP price oracle and the admin mint queue; the float oracle price of [UpdateMinStake] and
    [UnlockPercent].  Decoy selection in the wallet (random). *)

From Stdlib Require Export Lia ZArith.
From stdpp Require Export base gmap strings list sorting numbers countable option.

(** ** Machine integers

    Go's [uint64], [uint32] and [int64] values are integers [Z]; an operation
    that can wrap is written with [wrap64] (unsigned) or [wrapS64] (signed). *)

Declare Scope go_scope.
Delimit Scope go_scope with go.
Open Scope Z_scope.
Open Scope go_scope.

Abbreviation U64 := 18446744073709551616 (only parsing).
Abbreviation U32 := 4294967296 (only parsing).
Abbreviation I63 := 9223372036854775808 (only parsing).

(** [math.MaxUint64], also written [^uint64(0)] in the source. *)
Definition MaxUint64 : Z := 18446744073709551615.

Definition wrap64 (x : Z) : Z := x mod U64.
Definition wrap32 (x : Z) : Z := x mod U32.
Definition wrapS64 (x : Z) : Z := (x + I63) mod U64 - I63.

Notation "a +w b" := (wrap64 (a + b)) (at level 50, left associativity) : go_scope.
Notation "a -w b" := (wrap64 (a - b)) (at level 50, left associativity) : go_scope.
Notation "a *w b" := (wrap64 (a * b)) (at level 40, left associativity) : go_scope.

Definition is_u64 (x : Z) : Prop := 0 <= x < U64.
Definition is_u32 (x : Z) : Prop := 0 <= x < U32.
Definition is_i64 (x : Z) : Prop := - I63 <= x < I63.

Definition is_u64b (x : Z) : bool := (0 <=? x) && (x <? U64).

#[export] Instance is_u64_dec x : Decision (is_u64 x).
Proof. unfold is_u64. apply _. Defined.
#[export] Instance is_i64_dec x : Decision (is_i64 x).
Proof. unfold is_i64. apply _. Defined.

(** ** Results of fallible operations

    A Go function that returns [(T, error)] returns a [result T] here; the
    error value is the leading text of the message the source formats. *)

Inductive result (A : Type) : Type :=
| Ok (a : A)
| Err (e : string).
Arguments Ok {_} _.
Arguments Err {_} _.

#[export] Instance result_ret : MRet result := fun A a => Ok a.
#[export] Instance result_bind : MBind result := fun A B f m =>
  match m with Ok a => f a | Err e => Err e end.
#[export] Instance result_fmap : FMap result := fun A B f m =>
  match m with Ok a => Ok (f a) | Err e => Err e end.

Definition is_ok {A} (m : result A) : bool :=
  match m with Ok _ => true | Err _ => false end.

(** An early [return fmt.Errorf(..)] under a condition. *)
Notation "'reject' c 'with' e ;; k" := (if c then Err e else k)
  (at level 100, c at next level, e at next level, k at level 200, right associativity) : go_scope.

(** A nil check that returns an error. *)
Notation "'need' x 'from' o 'else' e ;; k" :=
  (match o with Some x => k | None => Err e end)
  (at level 100, x binder, o at next level, e at next level, k at level 200, right associativity) : go_scope.

#[export] Instance result_eq_dec `{EqDecision A} : EqDecision (result A).
Proof. solve_decision. Defined.

(** ** Hint databases and tactics *)

Create HintDb aperod.
#[export] Hint Unfold is_u64 is_u32 is_i64 MaxUint64 : aperod.

(** Turn boolean tests in the context into propositions. *)
Ltac zbool :=
  repeat match goal with
  | H : (_ <? _) = true |- _ => apply Z.ltb_lt in H
  | H : (_ <? _) = false |- _ => apply Z.ltb_ge in H
  | H : (_ <=? _) = true |- _ => apply Z.leb_le in H
  | H : (_ <=? _) = false |- _ => apply Z.leb_gt in H
  | H : (_ =? _) = true |- _ => apply Z.eqb_eq in H
  | H : (_ =? _) = false |- _ => apply Z.eqb_neq in H
  | H : (_ && _) = true |- _ => apply andb_true_iff in H as [? ?]
  | H : (_ || _) = false |- _ => apply orb_false_iff in H as [? ?]
  | H : negb _ = true |- _ => apply negb_true_iff in H
  | H : negb _ = false |- _ => apply negb_false_iff in H
  | H : bool_decide _ = true |- _ => apply bool_decide_eq_true in H
  | H : bool_decide _ = false |- _ => apply bool_decide_eq_false in H
  end.

(** Linear arithmetic after unfolding the machine-integer predicates. *)
Ltac u64lia := unfold is_u64, is_u32, is_i64, MaxUint64 in *; lia.

(** Peel the early returns of a computation known to have succeeded. *)
Ltac peel_step H :=
  lazymatch type of H with
  | (if ?c then Err _ else _) = Ok _ =>
      let E := fresh "Hc" in destruct c eqn:E; [discriminate H|]
  | (if ?c then _ else Err _) = Ok _ =>
      let E := fresh "Hc" in destruct c eqn:E; [|discriminate H]
  | (match ?o with Some _ => _ | None => Err _ end) = Ok _ =>
      let E := fresh "Ho" in destruct o eqn:E; [|discriminate H]
  | mbind _ ?m = Ok _ =>
      let E := fresh "Hm" in destruct m eqn:E; [simpl in H|discriminate H]
  end.
Ltac peel H := repeat (peel_step H; cbv beta in H).

(** Evaluate the decisions between closed values in the goal. *)
Ltac eval_decide :=
  repeat match goal with
  | |- context [bool_decide ?P] =>
      let r := eval vm_compute in (bool_decide P) in
      lazymatch r with
      | true => change (bool_decide P) with true
      | false => change (bool_decide P) with false
      end
  end.

(** ** Lemmas on machine integers *)

Lemma wrap64_small (x : Z) : is_u64 x -> wrap64 x = x.
Proof. intros. apply Z.mod_small. assumption. Qed.

Lemma wrap64_range (x : Z) : is_u64 (wrap64 x).
Proof. apply Z.mod_pos_bound. lia. Qed.

Lemma wrap32_small (x : Z) : is_u32 x -> wrap32 x = x.
Proof. intros. apply Z.mod_small. assumption. Qed.

Lemma wrapS64_small (x : Z) : is_i64 x -> wrapS64 x = x.
Proof. intros. unfold wrapS64. rewrite Z.mod_small; u64lia. Qed.

Lemma is_u64b_spec (x : Z) : is_u64b x = true <-> is_u64 x.
Proof. unfold is_u64b. rewrite andb_true_iff, Z.leb_le, Z.ltb_lt. reflexivity. Qed.

#[export] Hint Resolve wrap64_range : aperod.

(** ** Lemmas on results *)

Lemma Ok_inj {A} (a b : A) : Ok a = Ok b -> a = b.
Proof. intros H. inversion H. reflexivity. Qed.

(** The value of a computation that is seen to succeed by evaluation. *)
Lemma ok_value {A} (m : result A) (d : A) :
  is_ok m = true -> m = Ok (match m with Ok a => a | Err _ => d end).
Proof. by destruct m. Qed.

Lemma reject_no_ok {A} (c : bool) (e : string) (k : result A) :
  c = false -> (if c then Err e else k) = k.
Proof. by intros ->. Qed.

Lemma bind_ok {A B} (m : result A) (f : A -> result B) (b : B) :
  m ≫= f = Ok b <-> exists a, m = Ok a /\ f a = Ok b.
Proof. destruct m; simpl; [naive_solver|split; [done|naive_solver]]. Qed.

Lemma reject_ok {A} (c : bool) (e : string) (k : result A) (a : A) :
  (if c then Err e else k) = Ok a <-> c = false /\ k = Ok a.
Proof. destruct c; naive_solver. Qed.

(** Left fold of a fallible step over a list, the shape of a Go [for] loop
    whose body can return an error. *)
Fixpoint foldM {S A} (f : S -> A -> result S) (s : S) (l : list A) : result S :=
  match l with
  | [] => Ok s
  | a :: l' => s' ← f s a; foldM f s' l'
  end.

Lemma foldM_app {S A} (f : S -> A -> result S) (s : S) (l1 l2 : list A) :
  foldM f s (l1 ++ l2) = s' ← foldM f s l1; foldM f s' l2.
Proof.
  revert s. induction l1 as [|a l1 IH]; intros s; [done|].
  simpl. destruct (f s a); simpl; [apply IH|done].
Qed.

(** Invariant rule for [foldM]. *)
Lemma foldM_inv {S A} (f : S -> A -> result S) (P : S -> Prop) (s s' : S) (l : list A) :
  (forall s a s', P s -> f s a = Ok s' -> P s') ->
  P s -> foldM f s l = Ok s' -> P s'.
Proof.
  intros Hstep. revert s. induction l as [|a l IH]; intros s HP H; simpl in H.
  - by injection H as <-.
  - apply bind_ok in H as (s1 & H1 & H2). eauto.
Qed.

(** ** Sums *)

Fixpoint sumZ {A} (f : A -> Z) (l : list A) : Z :=
  match l with
  | [] => 0
  | a :: l' => f a + sumZ f l'
  end.

Lemma sumZ_app {A} (f : A -> Z) (l1 l2 : list A) :
  sumZ f (l1 ++ l2) = sumZ f l1 + sumZ f l2.
Proof. induction l1; simpl; lia. Qed.

Lemma sumZ_Permutation {A} (f : A -> Z) (l1 l2 : list A) :
  l1 ≡ₚ l2 -> sumZ f l1 = sumZ f l2.
Proof. induction 1; simpl; lia. Qed.

Lemma sumZ_nonneg {A} (f : A -> Z) (l : list A) :
  (forall a, a ∈ l -> 0 <= f a) -> 0 <= sumZ f l.
Proof.
  induction l as [|a l IH]; intros H; simpl; [lia|].
  assert (0 <= f a) by (apply H; left).
  assert (0 <= sumZ f l) by (apply IH; intros; apply H; by right). lia.
Qed.

Lemma sumZ_ext {A} (f g : A -> Z) (l : list A) : (forall a, a ∈ l -> f a = g a) -> sumZ f l = sumZ g l.
Proof.
  induction l as [|a l IH]; intros Hfg; simpl; [done|]. rewrite (Hfg a) by left. f_equal.
  apply IH. intros b Hb. apply Hfg. by right.
Qed.

Lemma sumZ_fmap {A B} (f : B -> Z) (g : A -> B) (l : list A) : sumZ f (g <$> l) = sumZ (fun a => f (g a)) l.
Proof. induction l as [|a l IH]; [done|]. simpl. by rewrite <- IH. Qed.
