(* ===== verification/Bytes.v ===== *)
(** Byte strings, fixed-size arrays, slices, big- and little-endian integer
    codecs and hexadecimal text: what the node uses of Go's [[]byte], [[n]byte],
    [encoding/binary], [encoding/hex] and [bytes]. *)

From stdpp Require Import base list countable strings.
From Stdlib.Strings Require Export Byte.
From S2P Require Import Prelude.

#[export] Instance byte_eq_dec : EqDecision byte := Byte.byte_eq_dec.
#[export] Program Instance byte_countable : Countable byte :=
  inj_countable Byte.to_N Byte.of_N _.
Next Obligation. intros b. apply Byte.of_to_N. Qed.

Definition byte_to_Z (b : byte) : Z := Z.of_N (Byte.to_N b).
Definition byte_of_Z (z : Z) : byte :=
  match Byte.of_N (Z.to_N (z mod 256)) with Some b => b | None => x00 end.

(** ** Fixed-size arrays *)

Definition arr (n : nat) : Type := { l : list byte | length l = n }.

Definition arr_list {n} (a : arr n) : list byte := proj1_sig a.

#[export] Instance arr_eq_dec n : EqDecision (arr n) := _.
#[export] Instance arr_countable n : Countable (arr n) := _.

(** The zero value of a Go array. *)
Definition zero_arr (n : nat) : arr n :=
  exist _ (replicate n x00) (length_replicate n x00).

Lemma copy_arr_length (n : nat) (src : list byte) :
  length (take n src ++ replicate (n - length src) x00) = n.
Proof. rewrite length_app, length_take, length_replicate. lia. Qed.

(** [copy(a[:], src)] into a zero array. *)
Definition copy_arr (n : nat) (src : list byte) : arr n :=
  exist _ (take n src ++ replicate (n - length src) x00) (copy_arr_length n src).

Lemma arr_length {n} (a : arr n) : length (arr_list a) = n.
Proof. destruct a. assumption. Qed.

Lemma arr_ext {n} (a b : arr n) : arr_list a = arr_list b -> a = b.
Proof.
  destruct a as [x Hx], b as [y Hy]. simpl. intros ->.
  f_equal. apply proof_irrel.
Qed.

Lemma copy_arr_list {n} (a : arr n) : copy_arr n (arr_list a) = a.
Proof.
  apply arr_ext. simpl. rewrite arr_length, Nat.sub_diag, app_nil_r.
  apply take_ge. rewrite arr_length. lia.
Qed.

Lemma arr_list_copy (n : nat) (l : list byte) :
  length l = n -> arr_list (copy_arr n l) = l.
Proof.
  intros <-. simpl. rewrite Nat.sub_diag, app_nil_r. by apply take_ge.
Qed.

(** ** Slices *)

(** [l[a:b]] *)
Definition slice (l : list byte) (a b : nat) : list byte := take (b - a) (drop a l).

Lemma slice_length (l : list byte) (a b : nat) :
  (b <= length l)%nat -> length (slice l a b) = (b - a)%nat.
Proof. intros. unfold slice. rewrite length_take, length_drop. lia. Qed.

Lemma slice_here (x y : list byte) (b : nat) :
  length x = b -> slice (x ++ y) 0 b = x.
Proof. intros <-. unfold slice. rewrite drop_0, Nat.sub_0_r. apply take_app_length. Qed.

Lemma slice_last (x : list byte) (b : nat) : length x = b -> slice x 0 b = x.
Proof. intros <-. unfold slice. rewrite drop_0, Nat.sub_0_r. apply take_ge. lia. Qed.

Lemma slice_skip (n : nat) (x y : list byte) (a b : nat) :
  length x = n -> (n <= a)%nat -> slice (x ++ y) a b = slice y (a - n) (b - n).
Proof.
  intros <- Ha. unfold slice. rewrite drop_app_ge by lia. f_equal; lia.
Qed.

Lemma slice_cat (l : list byte) (a b c : nat) :
  (a <= b)%nat -> (b <= c)%nat -> slice l a b ++ slice l b c = slice l a c.
Proof.
  intros Hab Hbc. unfold slice.
  replace (c - a)%nat with ((b - a) + (c - b))%nat by lia.
  rewrite <- (take_take_drop (drop a l) (b - a) (c - b)), drop_drop.
  do 3 f_equal; lia.
Qed.

Lemma slice_all (l : list byte) : slice l 0 (length l) = l.
Proof. by apply slice_last. Qed.

(** ** Integer codecs *)

Fixpoint le_encode (n : nat) (v : Z) : list byte :=
  match n with
  | O => []
  | S n' => byte_of_Z v :: le_encode n' (v / 256)
  end.

Fixpoint le_decode (l : list byte) : Z :=
  match l with
  | [] => 0
  | b :: l' => byte_to_Z b + 256 * le_decode l'
  end.

(** [binary.BigEndian.PutUint64] and friends. *)
Definition be_encode (n : nat) (v : Z) : list byte := rev (le_encode n v).
Definition be_decode (l : list byte) : Z := le_decode (rev l).

Lemma byte_to_Z_range (b : byte) : 0 <= byte_to_Z b < 256.
Proof.
  unfold byte_to_Z. assert (Byte.to_N b <= 255)%N by apply Byte.to_N_bounded. lia.
Qed.

Lemma byte_to_of_Z (z : Z) : byte_to_Z (byte_of_Z z) = z mod 256.
Proof.
  unfold byte_to_Z, byte_of_Z.
  assert (0 <= z mod 256 < 256) by (apply Z.mod_pos_bound; lia).
  destruct (Byte.of_N (Z.to_N (z mod 256))) as [b|] eqn:E.
  - apply Byte.to_of_N in E. rewrite E. lia.
  - apply Byte.of_N_None_iff in E. lia.
Qed.

Lemma byte_of_to_Z (b : byte) (v : Z) : byte_of_Z (byte_to_Z b + 256 * v) = b.
Proof.
  assert (Hb := byte_to_Z_range b).
  unfold byte_of_Z.
  replace ((byte_to_Z b + 256 * v) mod 256) with (byte_to_Z b)
    by (rewrite Z.mul_comm, Z_mod_plus_full, Z.mod_small; lia).
  unfold byte_to_Z. rewrite N2Z.id, Byte.of_to_N. reflexivity.
Qed.

Lemma length_le_encode (n : nat) (v : Z) : length (le_encode n v) = n.
Proof. revert v; induction n; intros; simpl; auto. Qed.

Lemma length_be_encode (n : nat) (v : Z) : length (be_encode n v) = n.
Proof. unfold be_encode. rewrite length_rev. apply length_le_encode. Qed.

Lemma le_decode_range (l : list byte) : 0 <= le_decode l < 256 ^ Z.of_nat (length l).
Proof.
  induction l as [|b l IH]; simpl length; [simpl; lia|].
  rewrite Nat2Z.inj_succ, Z.pow_succ_r by lia. cbn [le_decode].
  assert (Hb := byte_to_Z_range b). nia.
Qed.

Lemma be_decode_range (l : list byte) : 0 <= be_decode l < 256 ^ Z.of_nat (length l).
Proof. unfold be_decode. rewrite <- (length_rev l). apply le_decode_range. Qed.

Lemma le_decode_encode (n : nat) (v : Z) :
  0 <= v < 256 ^ Z.of_nat n -> le_decode (le_encode n v) = v.
Proof.
  revert v. induction n as [|n IH]; intros v Hv; [simpl in *; lia|].
  rewrite Nat2Z.inj_succ, Z.pow_succ_r in Hv by lia. cbn [le_encode le_decode].
  rewrite byte_to_of_Z, IH.
  - assert (Hd := Z.div_mod v 256). lia.
  - split; [apply Z.div_pos; lia|apply Z.div_lt_upper_bound; lia].
Qed.

Lemma be_decode_encode (n : nat) (v : Z) :
  0 <= v < 256 ^ Z.of_nat n -> be_decode (be_encode n v) = v.
Proof. intros. unfold be_decode, be_encode. rewrite rev_involutive. by apply le_decode_encode. Qed.

Lemma le_encode_decode (l : list byte) : le_encode (length l) (le_decode l) = l.
Proof.
  induction l as [|b l IH]; [done|]. cbn [length le_encode le_decode].
  rewrite byte_of_to_Z. f_equal.
  replace ((byte_to_Z b + 256 * le_decode l) / 256) with (le_decode l); [apply IH|].
  rewrite Z.mul_comm, Z.div_add by lia.
  rewrite Z.div_small; [lia|apply byte_to_Z_range].
Qed.

Lemma be_encode_decode (n : nat) (l : list byte) :
  length l = n -> be_encode n (be_decode l) = l.
Proof.
  intros <-. unfold be_encode, be_decode.
  rewrite <- (length_rev l), le_encode_decode. apply rev_involutive.
Qed.

Lemma be_decode_encode8 (v : Z) : is_u64 v -> be_decode (be_encode 8 v) = v.
Proof. intros. apply be_decode_encode. u64lia. Qed.

Lemma be_decode_encode4 (v : Z) : is_u32 v -> be_decode (be_encode 4 v) = v.
Proof. intros. apply be_decode_encode. u64lia. Qed.

Lemma be_decode8_u64 (l : list byte) : length l = 8%nat -> is_u64 (be_decode l).
Proof. intros H. assert (Hr := be_decode_range l). rewrite H in Hr. u64lia. Qed.

Lemma be_decode4_u32 (l : list byte) : length l = 4%nat -> is_u32 (be_decode l).
Proof. intros H. assert (Hr := be_decode_range l). rewrite H in Hr. u64lia. Qed.

Lemma byte_of_to_Z0 (b : byte) : byte_of_Z (byte_to_Z b) = b.
Proof. rewrite <- (Z.add_0_r (byte_to_Z b)). apply (byte_of_to_Z b 0). Qed.

(** ** Hexadecimal text: [hex.EncodeToString] *)

Definition hex_digit (n : Z) : Ascii.ascii :=
  Ascii.ascii_of_N (Z.to_N (if n <? 10 then 48 + n else 87 + n)).

Definition hex_byte (b : byte) : list Ascii.ascii :=
  [hex_digit (byte_to_Z b / 16); hex_digit (byte_to_Z b mod 16)].

Fixpoint hex_encode (l : list byte) : string :=
  match l with
  | [] => EmptyString
  | b :: l' => String (hex_digit (byte_to_Z b / 16))
                 (String (hex_digit (byte_to_Z b mod 16)) (hex_encode l'))
  end.

Lemma hex_digit_inj (a b : Z) :
  0 <= a < 16 -> 0 <= b < 16 -> hex_digit a = hex_digit b -> a = b.
Proof.
  unfold hex_digit. intros Ha Hb H.
  apply (f_equal Ascii.N_of_ascii) in H.
  destruct (Z.ltb_spec a 10), (Z.ltb_spec b 10);
    rewrite !Ascii.N_ascii_embedding in H by lia; lia.
Qed.

#[export] Instance hex_encode_inj : Inj (=) (=) hex_encode.
Proof.
  intros l. induction l as [|b l IH]; intros [|c k]; simpl; try discriminate; [done|].
  intros H. injection H as H1 H2 H3.
  assert (Hb := byte_to_Z_range b). assert (Hc := byte_to_Z_range c).
  apply hex_digit_inj in H1; [|split; [apply Z.div_pos|apply Z.div_lt_upper_bound]; lia..].
  apply hex_digit_inj in H2; [|apply Z.mod_pos_bound; lia..].
  assert (byte_to_Z b = byte_to_Z c) as Hbc.
  { rewrite (Z.div_mod (byte_to_Z b) 16), (Z.div_mod (byte_to_Z c) 16) by lia. lia. }
  rewrite <- (byte_of_to_Z0 b), Hbc, byte_of_to_Z0, (IH _ H3). done.
Qed.

(** [hex.DecodeString]: an even number of hexadecimal digits of either case. *)
Definition unhex_digit (c : Ascii.ascii) : option Z :=
  let n := Z.of_N (Ascii.N_of_ascii c) in
  if (48 <=? n) && (n <=? 57) then Some (n - 48)
  else if (97 <=? n) && (n <=? 102) then Some (n - 87)
  else if (65 <=? n) && (n <=? 70) then Some (n - 55)
  else None.

Fixpoint hex_decode (s : string) : option (list byte) :=
  match s with
  | EmptyString => Some []
  | String _ EmptyString => None
  | String a (String b s') =>
      match unhex_digit a, unhex_digit b, hex_decode s' with
      | Some x, Some y, Some l => Some (byte_of_Z (16 * x + y) :: l)
      | _, _, _ => None
      end
  end.

Lemma unhex_hex_digit (n : Z) : 0 <= n < 16 -> unhex_digit (hex_digit n) = Some n.
Proof.
  intros Hn. unfold unhex_digit, hex_digit.
  destruct (Z.ltb_spec n 10); rewrite Ascii.N_ascii_embedding, Z2N.id by lia.
  - rewrite (proj2 (Z.leb_le _ _)), (proj2 (Z.leb_le _ 57)) by lia. cbn [andb]. f_equal. lia.
  - rewrite (proj2 (Z.leb_gt _ 57)), andb_false_r by lia.
    rewrite (proj2 (Z.leb_le _ _)), (proj2 (Z.leb_le _ 102)) by lia. cbn [andb]. f_equal. lia.
Qed.

Lemma hex_decode_encode (l : list byte) : hex_decode (hex_encode l) = Some l.
Proof.
  induction l as [|b l IH]; [done|]. cbn [hex_encode hex_decode]. assert (Hb := byte_to_Z_range b).
  rewrite !unhex_hex_digit, IH
    by (split; [apply Z.div_pos || apply Z.mod_pos_bound|apply Z.div_lt_upper_bound || apply Z.mod_pos_bound]; lia).
  rewrite <- Z.div_mod, byte_of_to_Z0 by lia. done.
Qed.

(** The bytes of a Go string literal. *)
Definition bytes_of_string (s : string) : list byte := String.list_byte_of_string s.

(** Length bookkeeping for the payload codecs. *)
Ltac lens := cbn [length]; rewrite ?length_app, ?arr_length, ?length_be_encode, ?length_le_encode;
  cbn [length]; try assumption; try lia.

(** The length of one field. *)
Ltac field_len :=
  first [ eassumption | apply arr_length | apply length_be_encode | apply length_le_encode
        | cbn [length]; reflexivity ].

(** Evaluate the slices of a concatenation of fields. *)
Ltac slices :=
  repeat match goal with
  | |- context [slice (?x ++ ?y) 0 ?b] => rewrite (slice_here x y b) by field_len
  | |- context [slice (?x ++ ?y) ?a ?b] =>
      let n := fresh in let Hn := fresh in
      evar (n : nat);
      assert (Hn : length x = n) by (subst n; field_len);
      subst n; rewrite (slice_skip _ x y a b Hn) by lia; clear Hn; cbn [Nat.sub]
  | |- context [slice ?x 0 ?b] => rewrite (slice_last x b) by field_len
  end.
