(* ===== verification/Undo.v ===== *)
(** Undo logs on finite maps: re-inserting a list of bindings, deleting a list of
    keys, and what it means that doing both returns a map to an earlier state.  The
    chain index, the UTXO rollback and the staking burns share these lemmas. *)

From stdpp Require Import base gmap list.
From S2P Require Import Prelude.

Module Undo.

Section Undo.
Context `{Countable K} {A : Type}.

(** Re-insert a list of bindings, delete a list of keys. *)
Definition put_all (l : list (K * A)) (m : gmap K A) : gmap K A :=
  foldl (fun m '(k, a) => <[k := a]> m) m l.
Definition del_all (l : list K) (m : gmap K A) : gmap K A := foldl (fun m k => delete k m) m l.

Lemma del_all_app (l1 l2 : list K) (m : gmap K A) : del_all (l1 ++ l2) m = del_all l2 (del_all l1 m).
Proof. apply foldl_app. Qed.

Lemma put_all_snoc (l : list (K * A)) (m : gmap K A) (k : K) (a : A) :
  put_all (l ++ [(k, a)]) m = <[k := a]> (put_all l m).
Proof. unfold put_all. by rewrite foldl_app. Qed.

Lemma put_all_ne (l : list (K * A)) (m : gmap K A) (k : K) :
  k ∉ l.*1 -> put_all l m !! k = m !! k.
Proof.
  revert m. induction l as [|[k' a] l IH]; intros m Hk; [done|]. simpl in *.
  unfold put_all in *. simpl. rewrite IH by set_solver. apply lookup_insert_ne. set_solver.
Qed.

Lemma put_all_insert (l : list (K * A)) (m : gmap K A) (k : K) (a : A) :
  k ∉ l.*1 -> put_all l (<[k := a]> m) = <[k := a]> (put_all l m).
Proof.
  revert m. induction l as [|[k' a'] l IH]; intros m Hk; [done|]. unfold put_all in *. simpl in *.
  rewrite insert_insert_ne by set_solver. rewrite IH by set_solver. done.
Qed.

Lemma put_all_delete (l : list (K * A)) (m : gmap K A) (k : K) :
  k ∉ l.*1 -> put_all l (delete k m) = delete k (put_all l m).
Proof.
  revert m. induction l as [|[k' a'] l IH]; intros m Hk; [done|]. unfold put_all in *. simpl in *.
  rewrite <- delete_insert_ne by set_solver. rewrite IH by set_solver. done.
Qed.

Lemma del_all_delete (l : list K) (m : gmap K A) (k : K) :
  del_all l (delete k m) = delete k (del_all l m).
Proof.
  revert m. induction l as [|k' l IH]; intros m; [done|]. unfold del_all in *. simpl.
  rewrite <- IH. f_equal. apply delete_delete.
Qed.

Lemma del_all_lookup (l : list K) (m : gmap K A) (k : K) : k ∉ l -> del_all l m !! k = m !! k.
Proof.
  revert m. induction l as [|k' l IH]; intros m Hk; [done|]. unfold del_all in *. simpl.
  rewrite IH by set_solver. apply lookup_delete_ne. set_solver.
Qed.

Lemma del_all_in (l : list K) (m : gmap K A) (k : K) : k ∈ l -> del_all l m !! k = None.
Proof.
  revert m. induction l as [|k' l IH]; intros m Hk; [by apply elem_of_nil in Hk|].
  change (del_all (k' :: l) m) with (del_all l (delete k' m)).
  destruct (decide (k ∈ l)) as [Hin|Hn]; [by apply IH|].
  assert (k = k') as -> by set_solver. rewrite del_all_lookup by done. apply lookup_delete_eq.
Qed.

Lemma put_all_in (l : list (K * A)) (m : gmap K A) (k : K) : k ∈ l.*1 -> is_Some (put_all l m !! k).
Proof.
  revert m. induction l as [|[k' a] l IH]; intros m Hk; [by apply elem_of_nil in Hk|].
  change (put_all ((k', a) :: l) m) with (put_all l (<[k' := a]> m)). simpl in Hk.
  destruct (decide (k ∈ l.*1)) as [Hin|Hn]; [by apply IH|].
  assert (k = k') as -> by set_solver. rewrite (put_all_ne l) by done. rewrite lookup_insert_eq. by eexists.
Qed.

(** What the undo maps to the original [m0]: the bindings [l] put back in [m],
    the keys [ks] deleted; and none of [l] is bound in [m]. *)
Definition undoes (m0 : gmap K A) (l : list (K * A)) (ks : list K) (m : gmap K A) : Prop :=
  del_all ks (put_all l m) = m0 /\ (forall k, k ∈ l.*1 -> m !! k = None).

Lemma undoes_init (m : gmap K A) : undoes m [] [] m.
Proof. split; [done|set_solver]. Qed.

Lemma undoes_spend (m0 m : gmap K A) l ks k a :
  undoes m0 l ks m -> m !! k = Some a -> undoes m0 (l ++ [(k, a)]) ks (delete k m).
Proof.
  intros [Hu Hd] Hk. assert (Hn : k ∉ l.*1) by (intros Hin; apply Hd in Hin; congruence). split.
  - rewrite <- Hu. f_equal. rewrite put_all_snoc, put_all_delete by done.
    rewrite insert_delete_eq. apply insert_id. by rewrite put_all_ne.
  - intros k' Hk'. rewrite fmap_app in Hk'. apply elem_of_app in Hk' as [Hk'|Hk'].
    + destruct (decide (k = k')) as [->|]; [by rewrite lookup_delete_eq|].
      rewrite lookup_delete_ne by done. by apply Hd.
    + apply list_elem_of_singleton in Hk' as ->. apply lookup_delete_eq.
Qed.

Lemma undoes_fresh (m0 m : gmap K A) l ks k :
  undoes m0 l ks m -> m0 !! k = None -> k ∉ ks -> m !! k = None /\ k ∉ l.*1.
Proof.
  intros [Hu Hd] Hk Hks. rewrite <- Hu, del_all_lookup in Hk by done.
  assert (k ∉ l.*1) as Hn.
  { intros Hin. destruct (put_all_in l m k Hin) as [x Hx]. congruence. }
  split; [|done]. by rewrite put_all_ne in Hk.
Qed.

Lemma undoes_del (m0 m : gmap K A) l ks k :
  undoes m0 l ks m -> m0 !! k = None -> undoes m0 l (ks ++ [k]) m.
Proof.
  intros [Hu Hd] Hk. split; [|done]. rewrite del_all_app, Hu. by apply delete_id.
Qed.

Lemma undoes_add (m0 m : gmap K A) l ks k a :
  undoes m0 l ks m -> m0 !! k = None -> k ∉ ks -> undoes m0 l (ks ++ [k]) (<[k := a]> m).
Proof.
  intros Hun Hk Hks. destruct (undoes_fresh _ _ _ _ _ Hun Hk Hks) as [Hm Hl]. destruct Hun as [Hu Hd]. split.
  - rewrite del_all_app, put_all_insert by done. change (del_all [k] ?x) with (delete k x).
    rewrite <- del_all_delete, delete_insert_id by by rewrite put_all_ne. done.
  - intros k' Hk'. rewrite lookup_insert_ne by (intros ->; done). by apply Hd.
Qed.

Lemma put_all_lookup (l : list (K * A)) (m : gmap K A) (k : K) (a : A) :
  NoDup l.*1 -> (k, a) ∈ l -> put_all l m !! k = Some a.
Proof.
  revert m. induction l as [|[k' a'] l IH]; intros m Hnd Hin; [by apply elem_of_nil in Hin|].
  rewrite fmap_cons in Hnd. apply list.NoDup_cons in Hnd as [Hn Hnd].
  change (put_all ((k', a') :: l) m) with (put_all l (<[k' := a']> m)).
  apply elem_of_cons in Hin as [Hin|Hin]; [|by apply IH].
  injection Hin as -> ->. rewrite put_all_ne by done. apply lookup_insert_eq.
Qed.

End Undo.

End Undo.
