(* ===== verification/Crypto.v ===== *)
(** The [crypto] package as the rest of the node uses it: the 32-byte array
    types, [HashBytes], validator public keys, and the interface [Crypto] of the
    primitives that come from Go's [crypto/sha256] and [crypto/ed25519] and from
    the edwards25519 library.  The interface fixes no algebraic law: a theorem
    that needs one names it as a hypothesis. *)

From stdpp Require Import base list strings.
From S2P Require Import Prelude Bytes.

(** ** Array types *)

Abbreviation Hash32 := (arr 32) (only parsing).
Abbreviation Point32 := (arr 32) (only parsing).
Abbreviation Commitment := (arr 32) (only parsing).
Abbreviation BlindFactor := (arr 32) (only parsing).
Abbreviation KeyImage := (arr 32) (only parsing).
Abbreviation RingMember := (arr 32) (only parsing).

(** [ed25519.PublicKey] is a byte slice of any length. *)
Abbreviation ValidatorPubKey := (list byte) (only parsing).

Definition zeroHash : Hash32 := zero_arr 32.

(** [crypto.NetworkByte] *)
Abbreviation NetworkByte := byte (only parsing).
Definition MainnetByte : NetworkByte := x41.
Definition TestnetByte : NetworkByte := x54.
Definition DevnetByte : NetworkByte := x44.

(** [crypto.RingSize] *)
Definition RingSize : nat := 16.

Record KeyImageDLEQProof := {
  CommitmentG : Point32;
  CommitmentHp : Point32;
  Response : arr 32
}.

#[export] Instance KeyImageDLEQProof_eq_dec : EqDecision KeyImageDLEQProof.
Proof. solve_decision. Defined.

(** [crypto.MLSAGSignature], [crypto.CLSAGSignature] and [crypto.RangeProof]. *)
Record MLSAGSignature := {
  C0 : arr 32; SS : list (arr 32); MLSAGKeyImage : KeyImage;
  BlindSS : list (arr 32); ValueSS : list (arr 32); LinkR : Point32; LinkS : arr 32
}.

Record CLSAGSignature := {
  C1 : arr 32; S_ : list (arr 32); CLSAGKeyImage : KeyImage; D_ : Point32
}.

Record RangeProof := {
  rp_V : arr 32; rp_A : arr 32; rp_S : arr 32; rp_T1 : arr 32; rp_T2 : arr 32;
  rp_Taux : arr 32; rp_Mu : arr 32; rp_Tx : arr 32; rp_Ls : list (arr 32);
  rp_Rs : list (arr 32); rp_AFin : arr 32; rp_BFin : arr 32; ValueCommit : Commitment
}.

#[export] Instance MLSAGSignature_eq_dec : EqDecision MLSAGSignature.
Proof. solve_decision. Defined.
#[export] Instance CLSAGSignature_eq_dec : EqDecision CLSAGSignature.
Proof. solve_decision. Defined.
#[export] Instance RangeProof_eq_dec : EqDecision RangeProof.
Proof. solve_decision. Defined.

(** ** Interface of the primitives *)

Class Crypto := {
  (** [crypto/sha256] over the whole input. *)
  sha256 : list byte -> Hash32;
  (** [ed25519.Verify(pub, message, sig)]. *)
  ed25519_verify : list byte -> list byte -> list byte -> bool;
  (** [crypto.Commit(value, blind)]; [None] is the error result. *)
  Commit : Z -> BlindFactor -> option Commitment;
  (** [crypto.CanonicalKeyImage]; [None] is the error result. *)
  CanonicalKeyImage : KeyImage -> option KeyImage;
  (** [crypto.VerifyKeyImageProof(P, ki, context, proof) == nil]. *)
  VerifyKeyImageProof : Point32 -> KeyImage -> list byte -> KeyImageDLEQProof -> bool;
  (** [crypto.DecodeAddress]; [None] is the error result. *)
  DecodeAddress : string -> option (NetworkByte * Point32 * Point32);
  (** [crypto.ValidateAuthorizedOutputPoints(..) == nil]. *)
  ValidateAuthorizedOutputPoints : Point32 -> Point32 -> bool;
  (** [crypto.VerifyValueAuthorization(..) == nil]. *)
  VerifyValueAuthorization : Z -> Commitment -> arr 64 -> bool;
  (** [crypto.MLSAGVerifyV4] returned [(true, nil)]. *)
  MLSAGVerifyV4 : Hash32 -> list RingMember -> Commitment -> nat -> option MLSAGSignature -> bool;
  (** [crypto.HashToCurvePoint(data).Bytes()]. *)
  HashToCurvePoint : list byte -> Point32;
  (** [(ValidatorPrivKey).Sign]; [None] is the error result. *)
  ed25519_sign : list byte -> Hash32 -> option (list byte);
  (** [crypto.DeterministicMintBlind] and [crypto.DeterministicMintBlindV2]. *)
  DeterministicMintBlind : Point32 -> Z -> option BlindFactor;
  DeterministicMintBlindV2 : Point32 -> Z -> Z -> option BlindFactor;
  (** [crypto.ScalarMulBase(crypto.ScalarFromUint64(n))]. *)
  ScalarMulBaseUint64 : Z -> option Point32;
  (** [crypto.AddPoints]. *)
  AddPoints : Point32 -> Point32 -> option Point32
}.

Section Crypto.
Context `{Crypto}.

(** [crypto.HashBytes(data...)]: the digest of the concatenation. *)
Definition HashBytes (data : list (list byte)) : Hash32 := sha256 (concat data).

(** [(ValidatorPubKey).Verify]. *)
Definition pub_verify (k : ValidatorPubKey) (hash : Hash32) (sig : list byte) : bool :=
  if negb (bool_decide (length sig = 64%nat)) then false
  else ed25519_verify k (arr_list hash) sig.

(** [crypto.ValidatorPubKeyFromBytes]. *)
Definition ValidatorPubKeyFromBytes (b : list byte) : result ValidatorPubKey :=
  if bool_decide (length b = 32%nat) then Ok b
  else Err "invalid validator public key length".

End Crypto.

(** [(ValidatorPubKey).Hex]. *)
Definition pub_hex (k : ValidatorPubKey) : string := hex_encode k.

(** [(ValidatorPubKey).Equals]. *)
Definition pub_equals (k other : ValidatorPubKey) : bool := bool_decide (k = other).

(** ** A concrete instance, used by the witnesses to evaluate the model. *)

(** A small additive checksum in the place of SHA-256. *)
Definition toy_sha256 (l : list byte) : Hash32 :=
  copy_arr 32 (be_encode 8 (fold_left (fun a b => (a * 131 + byte_to_Z b + 7) mod U64) l 5)).

Definition toy_crypto : Crypto := {|
  sha256 := toy_sha256;
  ed25519_verify := fun pub msg sig => bool_decide (take 1 sig = take 1 pub);
  Commit := fun v r => Some (copy_arr 32 (be_encode 8 v ++ arr_list r));
  CanonicalKeyImage := fun ki => Some ki;
  VerifyKeyImageProof := fun P ki ctx proof => bool_decide (CommitmentG proof = P);
  DecodeAddress := fun s =>
    match s with
    | EmptyString => None
    | _ => Some (MainnetByte, copy_arr 32 (bytes_of_string s), zero_arr 32)
    end;
  ValidateAuthorizedOutputPoints := fun _ _ => true;
  VerifyValueAuthorization := fun _ _ _ => true;
  MLSAGVerifyV4 := fun _ _ _ _ sig => match sig with Some _ => true | None => false end;
  HashToCurvePoint := toy_sha256;
  ed25519_sign := fun priv _ => Some (take 1 priv ++ replicate 63 x00);
  DeterministicMintBlind := fun P v => Some P;
  DeterministicMintBlindV2 := fun P v h => Some P;
  ScalarMulBaseUint64 := fun n => Some (copy_arr 32 (be_encode 8 n));
  AddPoints := fun P Q => Some (copy_arr 32 (arr_list Q))
|}.
