(* ===== verification/GroupOrder.v ===== *)
(** The order [l] of the base point of edwards25519 is prime.

    The proof is a chain of Pocklington certificates: a number [N] is prime when a
    divisor [F] of [N - 1] with [N <= F * F] and known prime factors comes with a
    base [a] such that [a ^ (N - 1)] is one modulo [N] and no
    [a ^ ((N - 1) / r) - 1], for [r] a prime factor of [F], shares a factor with [N]. *)

From Stdlib Require Import Zpow_facts Zwf.
From stdpp Require Import base list.
From S2P Require Import Prelude.

Module GroupOrder.

(** [l = 2^252 + 27742317777372353535851937790883648493] *)
Definition ell : Z := 7237005577332262213973186563042994240857116359379907606001950938285454250989.

(** ** Powers modulo a divisor *)

Section Powers.
Variables (d b F : Z).
Hypothesis Hd : 1 < d.
Hypothesis HF : 1 < F.
Hypothesis b_F : (b ^ F) mod d = 1.

Lemma pow_mod_add (i j : Z) : 0 <= i -> 0 <= j -> (b ^ (i + j)) mod d = ((b ^ i) mod d * ((b ^ j) mod d)) mod d.
Proof. intros Hi Hj. by rewrite Z.pow_add_r, <- Zmult_mod by done. Qed.

Lemma pow_mod_mul (i k : Z) : 0 <= i -> 0 <= k -> (b ^ i) mod d = 1 -> (b ^ (i * k)) mod d = 1.
Proof.
  intros Hi Hk E. rewrite Z.pow_mul_r, Zpower_mod, E, Z.pow_1_l by lia. apply Z.mod_small. lia.
Qed.

Lemma pow_mod_sub (i j : Z) : 0 <= i <= j -> (b ^ i) mod d = 1 -> (b ^ j) mod d = 1 -> (b ^ (j - i)) mod d = 1.
Proof.
  intros Hij Ei Ej. replace j with (i + (j - i)) in Ej by lia.
  rewrite pow_mod_add, Ei, Z.mul_1_l, Zmod_mod in Ej by lia. done.
Qed.

(** Equal powers below [F] give a smaller exponent of one. *)
Lemma pow_mod_cancel (i j : Z) : 0 <= i <= j -> j <= F -> (b ^ i) mod d = (b ^ j) mod d -> (b ^ (j - i)) mod d = 1.
Proof.
  intros Hij HjF E.
  assert (E' : (b ^ (j + (F - i))) mod d = 1).
  { rewrite pow_mod_add, <- E, <- pow_mod_add by lia. replace (i + (F - i)) with F by lia. done. }
  replace (j - i) with ((j + (F - i)) - F) by lia. apply pow_mod_sub; [lia|done|done].
Qed.

(** An exponent of one below [F] makes some [F / r] one, for a prime [r] dividing [F]. *)
Lemma small_exponent (k : Z) : 0 < k < F -> (b ^ k) mod d = 1 ->
  exists c, 1 < c /\ (c | F) /\ (b ^ (F / c)) mod d = 1.
Proof.
  revert k. refine (well_founded_induction (Zwf_well_founded 0) _ _). intros k IH Hk E.
  destruct (decide (F mod k = 0)) as [Hm|Hm].
  - apply Z.mod_divide in Hm as [c Hc]; [|lia]. exists c. assert (1 < c) by nia.
    split; [done|]. split; [exists k; lia|]. rewrite Hc, Z.mul_comm, Z.div_mul by lia. done.
  - pose proof (Z.mod_pos_bound F k ltac:(lia)). apply (IH (F mod k)); [unfold Zwf; lia|lia|].
    rewrite (Z.mod_eq F k) by lia. apply pow_mod_sub; [|by apply pow_mod_mul; [lia|apply Z.div_pos; lia|]|done].
    split; [|apply Z.mul_div_le; lia]. apply Z.mul_nonneg_nonneg; [lia|apply Z.div_pos; lia].
Qed.

(** If no power below [F] is one, the powers are [F] distinct residues other than zero. *)
Lemma residues_bound : (forall k, 0 < k < F -> (b ^ k) mod d <> 1) -> F < d.
Proof.
  intros Hone.
  set (f i := Z.to_nat ((b ^ Z.of_nat i) mod d - 1)).
  assert (Hpos : forall i, 0 <= i <= F -> 1 <= (b ^ i) mod d < d).
  { intros i Hi. pose proof (Z.mod_pos_bound (b ^ i) d ltac:(lia)).
    destruct (decide ((b ^ i) mod d = 0)) as [E|]; [|lia].
    assert (E' := b_F). replace F with (i + (F - i)) in E' by lia.
    rewrite pow_mod_add, E, Z.mul_0_l, Z.mod_0_l in E' by lia. done. }
  assert (Hnd : NoDup (f <$> seq 0 (Z.to_nat F))).
  { apply NoDup_fmap_2_strong; [|apply NoDup_seq]. intros i j Hi Hj E.
    apply elem_of_seq in Hi, Hj. unfold f in E.
    pose proof (Hpos (Z.of_nat i) ltac:(lia)). pose proof (Hpos (Z.of_nat j) ltac:(lia)).
    assert (Ez : (b ^ Z.of_nat i) mod d = (b ^ Z.of_nat j) mod d) by lia.
    destruct (Nat.lt_trichotomy i j) as [Hij|[Hij|Hij]]; [|done|]; exfalso.
    - apply (Hone (Z.of_nat j - Z.of_nat i)); [lia|]. apply pow_mod_cancel; [lia|lia|done].
    - apply (Hone (Z.of_nat i - Z.of_nat j)); [lia|]. apply pow_mod_cancel; [lia|lia|done]. }
  assert (Hsub : f <$> seq 0 (Z.to_nat F) ⊆+ seq 0 (Z.to_nat (d - 1))).
  { apply NoDup_submseteq; [done|]. intros x Hx. apply list_elem_of_fmap in Hx as (i & -> & Hi).
    apply elem_of_seq in Hi. apply elem_of_seq. unfold f. pose proof (Hpos (Z.of_nat i) ltac:(lia)). lia. }
  apply submseteq_length in Hsub. rewrite length_fmap, !length_seq in Hsub. lia.
Qed.

End Powers.

(** ** The criterion *)

Lemma divisor_of_product (rs : list Z) (c : Z) :
  Forall Z.prime rs -> 1 < c -> (c | foldr Z.mul 1 rs) -> exists r, r ∈ rs /\ Z.prime r /\ (r | c).
Proof.
  intros Hrs Hc. induction Hrs as [|x rs Hx _ IH]; simpl; intros Hdiv.
  - exfalso. apply Z.divide_1_r_nonneg in Hdiv; lia.
  - destruct (decide (c mod x = 0)) as [E|E].
    + exists x. split; [left|]. split; [done|]. apply Z.mod_divide; [|done]. apply Z.prime_ge_2 in Hx. lia.
    + assert (Hg : Z.coprime x c).
      { apply Z.coprime_prime_l; [done|]. intros Hd. apply E, Z.mod_divide; [|done]. apply Z.prime_ge_2 in Hx. lia. }
      destruct IH as (r & Hin & Hr); [|exists r; split; [by right|done]].
      apply (Z.gauss _ x); [done|]. by rewrite Z.gcd_comm.
Qed.

Definition certificate (N a : Z) (rs : list Z) : bool :=
  let F := foldr Z.mul 1 rs in
  (1 <? N) && (1 <? F) && (N <=? F * F) && ((N - 1) mod F =? 0) && (Zpow_mod a (N - 1) N =? 1)
  && forallb (fun r => Z.gcd (Zpow_mod a ((N - 1) / r) N - 1) N =? 1) rs.

Lemma gcd_pow_mod (a e N d : Z) : 1 < N -> 1 < d -> (d | N) -> 0 <= e ->
  Z.gcd ((a ^ e) mod N - 1) N = 1 -> (a ^ e) mod d <> 1.
Proof.
  intros HN Hd Hdiv He Hg E.
  assert (Hd1 : (d | Z.gcd ((a ^ e) mod N - 1) N)).
  { apply Z.gcd_greatest; [|done]. apply Z.mod_divide; [lia|].
    rewrite Zminus_mod, Z.mod_mod_divide, E by done. rewrite (Z.mod_small 1) by lia. apply Z.mod_0_l. lia. }
  rewrite Hg in Hd1. apply Z.divide_1_r_nonneg in Hd1; lia.
Qed.

Theorem pocklington (N a : Z) (rs : list Z) : Forall Z.prime rs -> certificate N a rs = true -> Z.prime N.
Proof.
  intros Hrs Hc. unfold certificate in Hc. set (F := foldr Z.mul 1 rs) in *. zbool.
  rename select (_ mod F = 0) into HFN. rename select (Zpow_mod _ _ _ = 1) into HN1.
  rename select (forallb _ _ = true) into Hall. rename select (N <= F * F) into HNF.
  rewrite Zpow_mod_correct in HN1 by lia.
  split; [done|]. intros n Hn [m Hm].
  (* a divisor d with d * d <= N *)
  assert (exists d, 1 < d /\ (d | N) /\ d * d <= N) as (d & Hd & HdN & Hdd).
  { destruct (Z.le_ge_cases n m); [exists n|exists m].
    - split; [lia|]. split; [by exists m|nia].
    - split; [nia|]. split; [exists n; lia|nia]. }
  set (e := (N - 1) / F). assert (HeF : N - 1 = e * F) by (apply Z.mod_divide in HFN as [q Hq]; [|lia]; unfold e; rewrite Hq, Z.div_mul; lia).
  assert (He : 0 < e) by nia.
  assert (Hpow : forall c k, 0 <= k -> ((a ^ e) ^ k) mod c = (a ^ (e * k)) mod c) by (intros; by rewrite <- Z.pow_mul_r by lia).
  assert (HbF : ((a ^ e) ^ F) mod d = 1).
  { rewrite Hpow, <- HeF by lia. rewrite <- (Z.mod_mod_divide _ N d) by done. rewrite HN1. apply Z.mod_small. lia. }
  assert (Hone : forall k, 0 < k < F -> ((a ^ e) ^ k) mod d <> 1).
  { intros k Hk E.
    destruct (small_exponent d (a ^ e) F Hd ltac:(lia) HbF k Hk E) as (c & Hc1 & HcF & Ec).
    destruct (divisor_of_product rs c Hrs Hc1 HcF) as (r & Hin & Hr & Hrc).
    pose proof (Z.prime_ge_2 _ Hr) as Hr2.
    rewrite forallb_forall in Hall. apply list_elem_of_In in Hin. specialize (Hall r Hin). zbool.
    destruct HcF as [q Hq], Hrc as [s Hs].
    assert (Hqs : 0 < q /\ 0 < s) by nia.
    assert (Hexp : (N - 1) / r = e * (F / c) * s).
    { rewrite HeF, Hq, Hs. rewrite Z.div_mul by lia.
      replace (e * (q * (s * r))) with (e * q * s * r) by ring. rewrite Z.div_mul; lia. }
    assert (HFc : 0 <= F / c) by (apply Z.div_pos; lia).
    rewrite Zpow_mod_correct in Hall by lia.
    apply (gcd_pow_mod a ((N - 1) / r) N d) in Hall; [|lia|done|done|apply Z.div_pos; lia].
    apply Hall. rewrite Hexp, Z.pow_mul_r; [|apply Z.mul_nonneg_nonneg; lia|lia].
    rewrite Zpower_mod by lia. rewrite <- Hpow, Ec by done. rewrite Z.pow_1_l by lia. apply Z.mod_small. lia. }
  pose proof (residues_bound d (a ^ e) F Hd ltac:(lia) HbF Hone). nia.
Qed.

(** ** The chain of certificates *)

(** Trial division, for the two smallest primes of the chain. *)
Definition trial (p : Z) : bool :=
  (1 <? p) && forallb (fun n => negb (p mod n =? 0)) (seqZ 2 (Z.sqrt p)).

Lemma trial_prime (p : Z) : trial p = true -> Z.prime p.
Proof.
  unfold trial. intros Ht. zbool. rename select (forallb _ _ = true) into Ha. rewrite forallb_forall in Ha.
  assert (Hno : forall n, 1 < n -> n * n <= p -> ~ (n | p)).
  { intros n Hn Hnn Hdiv. apply Z.mod_divide in Hdiv; [|lia].
    pose proof (Z.sqrt_le_square p n ltac:(lia) ltac:(lia)) as Hs.
    assert (Hin : In n (seqZ 2 (Z.sqrt p))) by (apply list_elem_of_In, elem_of_seqZ; lia).
    specialize (Ha n Hin). zbool. done. }
  split; [done|]. intros n Hn [m Hm]. destruct (Z.le_ge_cases n m).
  - apply (Hno n); [lia|nia|by exists m].
  - apply (Hno m); [nia|nia|exists n; lia].
Qed.

(** The factor 1257559732178653 of the third certificate from the end. *)
Lemma prime_51_bits : Z.prime 1257559732178653.
Proof.
  apply (pocklington _ 2 [531581; 1224481]); [|vm_compute; reflexivity].
  repeat constructor; apply trial_prime; vm_compute; reflexivity.
Qed.

Ltac certify a p := apply (pocklington _ a [p]); [constructor; [|constructor]|vm_compute; reflexivity].

Lemma prime_ell : Z.prime ell.
Proof.
  certify 2 276602624281642239937218680557139826668747.
  certify 2 19757330305831588566944191468367130476339.
  certify 2 172054593956031949258510691.
  certify 2 4434155615661930479.
  certify 2 1257559732178653.
  exact prime_51_bits.
Qed.

(** Every factor that is not a multiple of [l] is prime to it. *)
Lemma coprime_ell (a : Z) : a mod ell <> 0 -> Z.gcd a ell = 1.
Proof.
  intros Ha. rewrite Z.gcd_comm. apply Z.coprime_prime_l; [apply prime_ell|].
  intros Hd. apply Ha, Z.mod_divide; [discriminate|done].
Qed.

End GroupOrder.
