(* ===== verification/Curve.v ===== *)
(** The group the [crypto] package computes in, and the encodings of its
    elements: the part of [crypto/wallet.go], [crypto/keyimage.go],
    [crypto/stealth.go] and [crypto/bulletproof.go] that turns bytes into points
    and scalars and back.

    Points and scalars come from the library [filippo.io/edwards25519], which is
    the class [Edwards]; what its documentation promises is the class
    [EdwardsLaws]: an abelian group of exponent [8 l] with a base point of order
    [l], scalars that are the integers modulo [l], canonical scalar encodings,
    and point encodings that decode to the point they encode (but decoding
    accepts other, non-canonical encodings too).  SHA-256 and SHA-512 are the
    class [Hashes].  The random source is a tape of 64-byte reads.

    The loop of [hashToCurvePoint] and [hashToPoint] has no bound in the source;
    it runs here with the fuel [htc_fuel], and the theorems show that more fuel
    never changes a result. *)

From stdpp Require Import base list strings.
From S2P Require Import Prelude Bytes Crypto GroupOrder.
Export GroupOrder.

Module Curve.

(** ** The libraries *)

Class Hashes := {
  sha256_sum : list byte -> arr 32;
  sha512_sum : list byte -> arr 64
}.

Class Edwards := {
  point : Type;
  point_eq_dec :: EqDecision point;
  p_add : point -> point -> point;
  p_neg : point -> point;
  identity : point;
  base_point : point;
  MultByCofactor : point -> point;
  SetBytes : list byte -> option point;
  p_Bytes : point -> arr 32;
  scalar : Type;
  scalar_eq_dec :: EqDecision scalar;
  s_zero : scalar;
  s_add : scalar -> scalar -> scalar;
  s_mul : scalar -> scalar -> scalar;
  s_neg : scalar -> scalar;
  s_sub : scalar -> scalar -> scalar;
  s_Invert : scalar -> scalar;
  SetCanonicalBytes : list byte -> option scalar;
  SetUniformBytes : list byte -> scalar;
  s_Bytes : scalar -> arr 32;
  ScalarMult : scalar -> point -> point
}.

Declare Scope curve_scope.
Delimit Scope curve_scope with curve.
Open Scope curve_scope.
Notation "p ⊕ q" := (p_add p q) (at level 50, left associativity) : curve_scope.
Notation "s • p" := (ScalarMult s p) (at level 40, left associativity) : curve_scope.

(** [Point.ScalarBaseMult], [Point.Subtract], [Scalar.MultiplyAdd] and
    [Point.VarTimeMultiScalarMult]. *)
Definition ScalarBaseMult `{Edwards} (s : scalar) : point := s • base_point.
Definition p_sub `{Edwards} (p q : point) : point := p ⊕ p_neg q.
Definition MultiplyAdd `{Edwards} (x y z : scalar) : scalar := s_add (s_mul x y) z.
Definition VarTimeMultiScalarMult `{Edwards} (ss : list scalar) (ps : list point) : point :=
  foldl p_add identity (zip_with ScalarMult ss ps).

(** The integer multiples of a point. *)
Definition zsmul `{Edwards} (n : Z) (p : point) : point :=
  match n with
  | 0 => identity
  | Zpos k => Pos.iter (p_add p) identity k
  | Zneg k => p_neg (Pos.iter (p_add p) identity k)
  end.

(** Congruence of integers modulo the group order. *)
Definition cong (a b : Z) : Prop := a mod ell = b mod ell.
Infix "≡l" := cong (at level 70) : curve_scope.

(** Points form an abelian group. *)
Class GroupLaws `{Edwards} := {
  add_assoc : forall p q r, p ⊕ (q ⊕ r) = p ⊕ q ⊕ r;
  add_comm : forall p q, p ⊕ q = q ⊕ p;
  add_0_l : forall p, identity ⊕ p = p;
  add_neg_l : forall p, p_neg p ⊕ p = identity
}.

Class EdwardsLaws `{Edwards} := {
  edwards_group :: GroupLaws;
  (** Scalars are the integers modulo [l]. *)
  sval : scalar -> Z;
  sval_range : forall s, 0 <= sval s < ell;
  sval_inj : forall s t, sval s = sval t -> s = t;
  sval_zero : sval s_zero = 0;
  sval_add : forall s t, sval (s_add s t) ≡l sval s + sval t;
  sval_mul : forall s t, sval (s_mul s t) ≡l sval s * sval t;
  sval_sub : forall s t, sval (s_sub s t) ≡l sval s - sval t;
  sval_neg : forall s, sval (s_neg s) ≡l - sval s;
  sval_Invert : forall s, sval s <> 0 -> sval s * sval (s_Invert s) ≡l 1;
  (** Little-endian encodings; only the canonical one of a scalar is accepted. *)
  canonical_bytes : forall b s, SetCanonicalBytes b = Some s <-> length b = 32%nat /\ le_decode b = sval s;
  canonical_total : forall b, length b = 32%nat -> le_decode b < ell -> exists s, SetCanonicalBytes b = Some s;
  uniform_bytes : forall b, sval (SetUniformBytes b) ≡l le_decode b;
  scalar_bytes : forall s, arr_list (s_Bytes s) = le_encode 32 (sval s);
  (** A decoded point need not have the given encoding, but an encoded one decodes. *)
  point_bytes : forall p, SetBytes (arr_list (p_Bytes p)) = Some p;
  scalar_mult : forall s p, s • p = zsmul (sval s) p;
  cofactor_mult : forall p, MultByCofactor p = zsmul 8 p;
  base_order : zsmul ell base_point = identity;
  base_nonzero : base_point <> identity;
  curve_order : forall p, zsmul (8 * ell) p = identity
}.

(** ** The package's decoding functions *)

(** [fmt.Errorf("..: %w", err)]: the error text is replaced by its leading part. *)
Definition errorf {A} (e : string) (m : result A) : result A :=
  match m with Ok a => Ok a | Err _ => Err e end.

Lemma errorf_ok {A} (e : string) (m : result A) (a : A) : errorf e m = Ok a <-> m = Ok a.
Proof. destruct m; simpl; naive_solver. Qed.

Section Curve.
Context `{Hashes} `{Edwards}.

(** [crypto.PointFromBytes] and [crypto.ScalarFromBytes] *)
Definition PointFromBytes (b : list byte) : result point :=
  reject negb (bool_decide (length b = 32%nat)) with "point must be 32 bytes" ;;
  match SetBytes b with Some p => Ok p | None => Err "invalid curve point" end.

Definition ScalarFromBytes (b : list byte) : result scalar :=
  reject negb (bool_decide (length b = 32%nat)) with "scalar must be 32 bytes" ;;
  match SetCanonicalBytes b with Some s => Ok s | None => Err "invalid scalar" end.

(** [crypto.ScalarFromUint64]: the eight little-endian bytes, zero padded. *)
Definition ScalarFromUint64 (n : Z) : arr 32 := copy_arr 32 (le_encode 8 n).

(** [scalarFromUint64] (pedersen.go); the error is dropped, and never occurs. *)
Definition scalarFromUint64 (v : Z) : scalar :=
  default s_zero (SetCanonicalBytes (arr_list (ScalarFromUint64 v))).

(** [deriveScalar] and [hashToScalar]: SHA-512 of the data and a tag, reduced. *)
Definition hashToScalar (data : list byte) (tag : string) : scalar :=
  SetUniformBytes (arr_list (sha512_sum (data ++ bytes_of_string tag))).
Definition deriveScalar (data : list byte) (tag : string) : arr 32 := s_Bytes (hashToScalar data tag).

(** [scalarMulBase], exported as [ScalarMulBase] and [PublicKeyFromPrivate]. *)
Definition scalarMulBase (s : arr 32) : result Point32 :=
  match SetCanonicalBytes (arr_list s) with
  | Some sc => Ok (p_Bytes (ScalarBaseMult sc))
  | None => Err "invalid scalar"
  end.

(** [AddScalars] and [AddPoints]. *)
Definition AddScalars (a b : arr 32) : result (arr 32) :=
  sa ← ScalarFromBytes (arr_list a);
  sb ← ScalarFromBytes (arr_list b);
  Ok (s_Bytes (s_add sa sb)).

Definition AddPoints (a b : Point32) : result Point32 :=
  pa ← PointFromBytes (arr_list a);
  pb ← PointFromBytes (arr_list b);
  Ok (p_Bytes (pa ⊕ pb)).

(** [WalletKeysFromSeed] *)
Record KeyPair := mkKey { Private : arr 32; Public : Point32 }.
Record WalletKeyPair := mkWallet { Spend : KeyPair; View : KeyPair }.

Definition WalletKeysFromSeed (seed : list byte) : result WalletKeyPair :=
  reject bool_decide (length seed < 32)%nat with "seed must be at least 32 bytes" ;;
  let spendScalar := deriveScalar seed "aperod-spend" in
  spendPub ← scalarMulBase spendScalar;
  let viewScalar := deriveScalar (arr_list spendScalar) "aperod-view" in
  viewPub ← scalarMulBase viewScalar;
  Ok (mkWallet (mkKey spendScalar spendPub) (mkKey viewScalar viewPub)).

(** ** The random source *)

(** A read that finds the tape empty is a failure of [rand.Read]. *)
Abbreviation tape := (list (arr 64)) (only parsing).

Definition randomScalar (t : tape) : result (scalar * tape) :=
  match t with
  | [] => Err "rand"
  | buf :: t' => Ok (SetUniformBytes (arr_list buf), t')
  end.

(** [NewBlindFactor] draws in the same way and returns the encoding. *)
Definition NewBlindFactor (t : tape) : result (BlindFactor * tape) :=
  '(s, t') ← randomScalar t; Ok (s_Bytes s, t').

(** ** Hashing to the curve *)

(** One sign bit: decode, clear the cofactor, refuse the identity. *)
Definition try_point (buf : list byte) : option point :=
  p ← SetBytes buf;
  let r := MultByCofactor p in
  if bool_decide (r = identity) then None else Some r.

(** [buf[31] &= 0x7f] and [buf[31] = digest[31] | 0x80]. *)
Definition clear_sign (digest : arr 32) : list byte :=
  alter (fun b => byte_of_Z (Z.land (byte_to_Z b) 127)) 31%nat (arr_list digest).
Definition set_sign (digest : arr 32) : list byte :=
  alter (fun b => byte_of_Z (Z.lor (byte_to_Z b) 128)) 31%nat (arr_list digest).

(** The two candidates of one counter value. *)
Definition candidate (domain : string) (data : list byte) (ctr : Z) : option point :=
  let digest := sha256_sum (bytes_of_string domain ++ data ++ le_encode 8 ctr) in
  match try_point (clear_sign digest) with
  | Some r => Some r
  | None => try_point (set_sign digest)
  end.

(** [for ctr := uint64(0); ; ctr++]. *)
Fixpoint try_increment (fuel : nat) (domain : string) (data : list byte) (ctr : Z) : result point :=
  match fuel with
  | O => Err "hash to curve: no point found"
  | S fuel' =>
      match candidate domain data ctr with
      | Some r => Ok r
      | None => try_increment fuel' domain data (ctr +w 1)
      end
  end.

(** About half of all digests decode; all of 256 counters miss with probability 2^-256. *)
Definition htc_fuel : nat := 256.
Definition hashToCurvePoint (data : list byte) : result point :=
  try_increment htc_fuel "Aperod/hash-to-curve/v2" data 0.
Definition hashToPoint (seed : list byte) : result point :=
  try_increment htc_fuel "Aperod/H2P/v1" seed 0.

(** ** Key images *)

Definition ComputeKeyImage (x : arr 32) (P : Point32) : result KeyImage :=
  xScalar ← ScalarFromBytes (arr_list x);
  hpP ← hashToCurvePoint (arr_list P);
  Ok (p_Bytes (xScalar • hpP)).

(** The constant [inv8ModL]. *)
Definition inv8ModL : list byte :=
  [x79; x2f; xdc; xe2; x29; xe5; x06; x61; xd0; xda; x1c; x7d; xb3; x9d; xd3; x07;
   x00; x00; x00; x00; x00; x00; x00; x00; x00; x00; x00; x00; x00; x00; x00; x06].

Definition CanonicalKeyImage (ki : KeyImage) : result KeyImage :=
  match SetBytes (arr_list ki) with
  | None => Err "key image not a valid curve point"
  | Some p =>
      let q := MultByCofactor p in
      reject bool_decide (q = identity) with "key image is a small-order (torsion) point" ;;
      let inv8 := default s_zero (SetCanonicalBytes inv8ModL) in
      Ok (p_Bytes (inv8 • q))
  end.

End Curve.

(** ** Congruence modulo the group order *)

#[export] Instance cong_equiv : Equivalence cong.
Proof. unfold cong. split; [intros x|intros x y|intros x y z]; congruence. Qed.

Lemma cong_eq (a b : Z) : a = b -> a ≡l b.
Proof. by intros ->. Qed.

Lemma cong_of_sub (a b k : Z) : a = b + k * ell -> a ≡l b.
Proof. intros ->. unfold cong. apply Z.mod_add. discriminate. Qed.

#[export] Instance cong_add : Proper (cong ==> cong ==> cong) Z.add.
Proof. intros a b E c d F. unfold cong in *. rewrite Zplus_mod, E, F. symmetry. apply Zplus_mod. Qed.
#[export] Instance cong_mul : Proper (cong ==> cong ==> cong) Z.mul.
Proof. intros a b E c d F. unfold cong in *. rewrite Zmult_mod, E, F. symmetry. apply Zmult_mod. Qed.
#[export] Instance cong_sub : Proper (cong ==> cong ==> cong) Z.sub.
Proof. intros a b E c d F. unfold cong in *. rewrite Zminus_mod, E, F. symmetry. apply Zminus_mod. Qed.
#[export] Instance cong_opp : Proper (cong ==> cong) Z.opp.
Proof. intros a b E. rewrite <- !Z.sub_0_l. by rewrite E. Qed.

Lemma cong_small (a b : Z) : 0 <= a < ell -> 0 <= b < ell -> a ≡l b -> a = b.
Proof. unfold cong. intros Ha Hb E. by rewrite !Z.mod_small in E. Qed.

(** ** The group *)

Section Group.
Context `{GroupLaws}.

Lemma add_0_r (p : point) : p ⊕ identity = p.
Proof. rewrite add_comm. apply add_0_l. Qed.

Lemma add_neg_r (p : point) : p ⊕ p_neg p = identity.
Proof. rewrite add_comm. apply add_neg_l. Qed.

Lemma add_cancel_l (p q r : point) : p ⊕ q = p ⊕ r -> q = r.
Proof.
  intros E. rewrite <- (add_0_l q), <- (add_0_l r), <- (add_neg_l p), <- !add_assoc. by rewrite E.
Qed.

Lemma add_swap (p q r s : point) : p ⊕ q ⊕ (r ⊕ s) = p ⊕ r ⊕ (q ⊕ s).
Proof. rewrite <- !add_assoc. f_equal. rewrite !add_assoc. f_equal. apply add_comm. Qed.

Lemma neg_unique (p q : point) : p ⊕ q = identity -> q = p_neg p.
Proof. intros E. apply (add_cancel_l p). by rewrite E, add_neg_r. Qed.

Lemma neg_add (p q : point) : p_neg (p ⊕ q) = p_neg p ⊕ p_neg q.
Proof. symmetry. apply neg_unique. by rewrite add_swap, !add_neg_r, add_0_l. Qed.

Lemma neg_neg (p : point) : p_neg (p_neg p) = p.
Proof. symmetry. apply neg_unique, add_neg_l. Qed.

Lemma neg_0 : p_neg identity = identity.
Proof. symmetry. apply neg_unique, add_0_l. Qed.

Lemma p_sub_diag (p q : point) : p_sub p q = identity <-> p = q.
Proof.
  unfold p_sub. split; [|intros ->; apply add_neg_r].
  intros E. rewrite <- (neg_neg p). symmetry. rewrite <- (neg_neg q). f_equal. by apply neg_unique.
Qed.

(** *** Integer multiples *)

Lemma iter_swap (p : point) (k : positive) : Pos.iter (p_add p) (p ⊕ identity) k = p ⊕ Pos.iter (p_add p) identity k.
Proof. symmetry. apply (Pos.iter_swap_gen _ _ (p_add p) (p_add p) (p_add p)). done. Qed.

Lemma zsmul_succ_nonneg (n : Z) (p : point) : 0 <= n -> zsmul (Z.succ n) p = p ⊕ zsmul n p.
Proof.
  intros Hn. destruct n as [|k|k]; [done| |lia]. simpl. rewrite Pos.add_1_r, Pos.iter_succ. done.
Qed.

Lemma zsmul_opp (n : Z) (p : point) : zsmul (- n) p = p_neg (zsmul n p).
Proof. destruct n; simpl; by rewrite ?neg_0, ?neg_neg. Qed.

Lemma zsmul_succ (n : Z) (p : point) : zsmul (Z.succ n) p = p ⊕ zsmul n p.
Proof.
  destruct (Z.le_gt_cases 0 n) as [Hn|Hn]; [by apply zsmul_succ_nonneg|].
  replace (Z.succ n) with (- (Z.pred (- n))) by lia. rewrite zsmul_opp.
  replace (zsmul n p) with (p_neg (zsmul (Z.succ (Z.pred (- n))) p))
    by (rewrite <- zsmul_opp; f_equal; lia).
  by rewrite zsmul_succ_nonneg, neg_add, add_assoc, add_neg_r, add_0_l by lia.
Qed.

Lemma zsmul_pred (n : Z) (p : point) : zsmul (Z.pred n) p = p_neg p ⊕ zsmul n p.
Proof.
  apply (add_cancel_l p). rewrite <- zsmul_succ, Z.succ_pred, add_assoc, add_neg_r. by rewrite add_0_l.
Qed.

Lemma zsmul_0 (p : point) : zsmul 0 p = identity.
Proof. done. Qed.

Lemma zsmul_1 (p : point) : zsmul 1 p = p.
Proof. apply add_0_r. Qed.

Lemma zsmul_add (a b : Z) (p : point) : zsmul (a + b) p = zsmul a p ⊕ zsmul b p.
Proof.
  induction a as [|a IH|a IH] using Z.peano_ind.
  - by rewrite zsmul_0, add_0_l.
  - by rewrite Z.add_succ_l, !zsmul_succ, IH, add_assoc.
  - by rewrite Z.add_pred_l, !zsmul_pred, IH, add_assoc.
Qed.

Lemma zsmul_sub (a b : Z) (p : point) : zsmul (a - b) p = p_sub (zsmul a p) (zsmul b p).
Proof. unfold p_sub. by rewrite <- zsmul_opp, <- zsmul_add. Qed.

Lemma zsmul_point_add (a : Z) (p q : point) : zsmul a (p ⊕ q) = zsmul a p ⊕ zsmul a q.
Proof.
  induction a as [|a IH|a IH] using Z.peano_ind.
  - by rewrite !zsmul_0, add_0_l.
  - by rewrite !zsmul_succ, IH, add_swap.
  - by rewrite !zsmul_pred, IH, neg_add, add_swap.
Qed.

Lemma zsmul_identity (a : Z) : zsmul a identity = identity.
Proof.
  induction a as [|a IH|a IH] using Z.peano_ind; [done| |].
  - by rewrite zsmul_succ, IH, add_0_l.
  - by rewrite zsmul_pred, IH, neg_0, add_0_l.
Qed.

Lemma zsmul_neg (a : Z) (p : point) : zsmul a (p_neg p) = p_neg (zsmul a p).
Proof. apply neg_unique. by rewrite <- zsmul_point_add, add_neg_r, zsmul_identity. Qed.

Lemma zsmul_point_sub (a : Z) (p q : point) : zsmul a (p_sub p q) = p_sub (zsmul a p) (zsmul a q).
Proof. unfold p_sub. by rewrite zsmul_point_add, zsmul_neg. Qed.

Lemma zsmul_mul (a b : Z) (p : point) : zsmul (a * b) p = zsmul a (zsmul b p).
Proof.
  induction a as [|a IH|a IH] using Z.peano_ind; [done| |].
  - by rewrite Z.mul_succ_l, zsmul_add, zsmul_succ, IH, add_comm.
  - by rewrite Z.mul_pred_l, zsmul_pred, <- IH, <- Z.add_opp_l, zsmul_add, zsmul_opp.
Qed.

End Group.

#[global] Opaque ell zsmul.

(** *** The prime-order subgroup *)

Section Subgroup.
Context `{EdwardsLaws}.


Record subgroup (p : point) : Prop := in_subgroup { order_of : zsmul ell p = identity }.

Lemma subgroup_identity : subgroup identity.
Proof. constructor. apply zsmul_identity. Qed.
Lemma subgroup_base : subgroup base_point.
Proof. constructor. exact base_order. Qed.
Lemma subgroup_add (p q : point) : subgroup p -> subgroup q -> subgroup (p ⊕ q).
Proof. intros [Hp] [Hq]. constructor. rewrite zsmul_point_add, Hp, Hq. apply add_0_l. Qed.
Lemma subgroup_zsmul (a : Z) (p : point) : subgroup p -> subgroup (zsmul a p).
Proof. intros [Hp]. constructor. rewrite <- zsmul_mul, Z.mul_comm, zsmul_mul, Hp. apply zsmul_identity. Qed.
Lemma subgroup_neg (p : point) : subgroup p -> subgroup (p_neg p).
Proof. intros [Hp]. constructor. rewrite zsmul_neg, Hp. apply neg_0. Qed.
Lemma subgroup_sub (p q : point) : subgroup p -> subgroup q -> subgroup (p_sub p q).
Proof. intros Hp Hq. apply subgroup_add; [done|]. by apply subgroup_neg. Qed.
Lemma subgroup_smult (s : scalar) (p : point) : subgroup p -> subgroup (s • p).
Proof. rewrite scalar_mult. apply subgroup_zsmul. Qed.
Lemma subgroup_cofactor (p : point) : subgroup (MultByCofactor p).
Proof. constructor. rewrite cofactor_mult, <- zsmul_mul, Z.mul_comm. apply curve_order. Qed.

(** On the subgroup a multiple depends on the factor modulo the order only. *)
Lemma zsmul_cong (a b : Z) (p : point) : subgroup p -> a ≡l b -> zsmul a p = zsmul b p.
Proof.
  intros [Hp] E. unfold cong in E.
  assert (Hmod : forall c, zsmul c p = zsmul (c mod ell) p).
  { intros c. rewrite (Z.div_mod c ell) at 1 by discriminate.
    rewrite (Z.mul_comm ell), zsmul_add, zsmul_mul, Hp, zsmul_identity. apply add_0_l. }
  by rewrite (Hmod a), (Hmod b), E.
Qed.

Lemma smult_cong (s : scalar) (a : Z) (p : point) : subgroup p -> sval s ≡l a -> s • p = zsmul a p.
Proof. intros Hp E. rewrite scalar_mult. by apply zsmul_cong. Qed.

(** The subgroup has prime order: only multiples of [l] annihilate a point of it. *)
Lemma zsmul_faithful (a : Z) (p : point) : subgroup p -> p <> identity -> zsmul a p = identity -> a ≡l 0.
Proof.
  intros Hp Hne E. unfold cong. rewrite Z.mod_0_l by (pose proof (Z.prime_ge_2 _ prime_ell); lia).
  destruct (decide (a mod ell = 0)) as [|Ha]; [done|]. exfalso. apply Hne.
  apply coprime_ell in Ha. destruct (Z.gcd_bezout a ell 1 Ha) as (u & v & Huv).
  rewrite <- (zsmul_1 p), <- Huv, zsmul_add, !zsmul_mul, E, (order_of p Hp), !zsmul_identity.
  apply add_0_l.
Qed.

Lemma smult_nonzero (s : scalar) (p : point) : subgroup p -> p <> identity -> sval s <> 0 -> s • p <> identity.
Proof.
  intros Hp Hne Hs E. rewrite scalar_mult in E. apply zsmul_faithful in E; [|done|done].
  apply Hs. apply cong_small; [apply sval_range| |done]. pose proof (sval_range s). lia.
Qed.

End Subgroup.

#[export] Hint Resolve subgroup_identity subgroup_base subgroup_add subgroup_zsmul subgroup_neg
  subgroup_sub subgroup_smult subgroup_cofactor : aperod.

(** ** Encodings *)

Section Encodings.
Context `{Hashes} `{EdwardsLaws}.

Lemma PointFromBytes_point (p : point) : PointFromBytes (arr_list (p_Bytes p)) = Ok p.
Proof. unfold PointFromBytes. by rewrite arr_length, bool_decide_eq_true_2, point_bytes. Qed.

Lemma PointFromBytes_arr (a : arr 32) (p : point) :
  PointFromBytes (arr_list a) = Ok p <-> SetBytes (arr_list a) = Some p.
Proof.
  unfold PointFromBytes. rewrite arr_length, bool_decide_eq_true_2 by done. simpl.
  destruct (SetBytes _); naive_solver.
Qed.

Lemma p_Bytes_inj (p q : point) : p_Bytes p = p_Bytes q -> p = q.
Proof. intros E. pose proof (point_bytes p) as Hp. rewrite E, point_bytes in Hp. congruence. Qed.

Lemma SetCanonicalBytes_scalar (s : scalar) : SetCanonicalBytes (arr_list (s_Bytes s)) = Some s.
Proof.
  apply canonical_bytes. rewrite scalar_bytes, length_le_encode. split; [done|].
  apply le_decode_encode. pose proof (sval_range s) as Hs.
  assert (ell < 256 ^ Z.of_nat 32) by (vm_compute; reflexivity). lia.
Qed.

Lemma ScalarFromBytes_scalar (s : scalar) : ScalarFromBytes (arr_list (s_Bytes s)) = Ok s.
Proof. unfold ScalarFromBytes. by rewrite arr_length, bool_decide_eq_true_2, SetCanonicalBytes_scalar. Qed.

Lemma ScalarFromBytes_arr (a : arr 32) (s : scalar) :
  ScalarFromBytes (arr_list a) = Ok s <-> SetCanonicalBytes (arr_list a) = Some s.
Proof.
  unfold ScalarFromBytes. rewrite arr_length, bool_decide_eq_true_2 by done. simpl.
  destruct (SetCanonicalBytes _); naive_solver.
Qed.

(** A canonical encoding is the encoding of what it decodes to. *)
Lemma canonical_encoding (a : arr 32) (s : scalar) : SetCanonicalBytes (arr_list a) = Some s -> s_Bytes s = a.
Proof.
  intros E. apply canonical_bytes in E as [Hl E]. apply arr_ext. rewrite scalar_bytes, <- E.
  pose proof (le_encode_decode (arr_list a)) as Ha. by rewrite Hl in Ha.
Qed.

Lemma s_Bytes_inj (s t : scalar) : s_Bytes s = s_Bytes t -> s = t.
Proof. intros E. pose proof (SetCanonicalBytes_scalar s) as Hs. rewrite E, SetCanonicalBytes_scalar in Hs. congruence. Qed.

Lemma le_decode_app (a b : list byte) : le_decode (a ++ b) = le_decode a + 256 ^ Z.of_nat (length a) * le_decode b.
Proof.
  induction a as [|x a IH]; [simpl; lia|]. cbn [app le_decode length]. rewrite IH, Nat2Z.inj_succ, Z.pow_succ_r by lia. ring.
Qed.

Lemma le_decode_zeros (n : nat) : le_decode (replicate n x00) = 0.
Proof. induction n as [|n IH]; [done|]. cbn [replicate le_decode]. rewrite IH. done. Qed.

Lemma ScalarFromUint64_decode (v : Z) : is_u64 v -> le_decode (arr_list (ScalarFromUint64 v)) = v.
Proof.
  intros Hv. unfold ScalarFromUint64, copy_arr, arr_list, proj1_sig. rewrite length_le_encode.
  rewrite take_ge by (rewrite length_le_encode; lia).
  rewrite le_decode_app, le_decode_zeros, Z.mul_0_r, Z.add_0_r. apply le_decode_encode. exact Hv.
Qed.

Lemma u64_lt_ell (v : Z) : is_u64 v -> 0 <= v < ell.
Proof. intros [Hv Hu]. assert (U64 < ell) by (vm_compute; reflexivity). lia. Qed.

Lemma scalarFromUint64_val (v : Z) : is_u64 v -> sval (scalarFromUint64 v) = v.
Proof.
  intros Hv. unfold scalarFromUint64. pose proof (ScalarFromUint64_decode v Hv) as Hd.
  destruct (canonical_total (arr_list (ScalarFromUint64 v))) as [s Hs]; [apply arr_length| |].
  - rewrite Hd. by apply u64_lt_ell.
  - rewrite Hs. simpl. apply canonical_bytes in Hs as [_ Hs]. by rewrite <- Hs, Hd.
Qed.

Lemma smult_base (s : scalar) : ScalarBaseMult s = zsmul (sval s) base_point.
Proof. apply scalar_mult. Qed.

(** ** Hashing to the curve *)

Lemma try_point_subgroup (buf : list byte) (r : point) : try_point buf = Some r -> subgroup r /\ r <> identity.
Proof.
  unfold try_point. intros E. apply bind_Some in E as (p & _ & E).
  case_bool_decide as Hr; [done|]. injection E as <-. auto with aperod.
Qed.

Lemma candidate_subgroup (domain : string) (data : list byte) (ctr : Z) (r : point) :
  candidate domain data ctr = Some r -> subgroup r /\ r <> identity.
Proof.
  unfold candidate. destruct (try_point (clear_sign _)) eqn:E; intros E'.
  - injection E' as <-. by eapply try_point_subgroup.
  - by eapply try_point_subgroup.
Qed.

Lemma try_increment_subgroup (fuel : nat) (domain : string) (data : list byte) (ctr : Z) (r : point) :
  try_increment fuel domain data ctr = Ok r -> subgroup r /\ r <> identity.
Proof.
  revert ctr. induction fuel as [|fuel IH]; intros ctr E; [done|]. simpl in E.
  destruct (candidate domain data ctr) eqn:Hc; [|by eapply IH].
  injection E as <-. by eapply candidate_subgroup.
Qed.

Lemma try_increment_finds (fuel : nat) (domain : string) (data : list byte) (ctr : Z) (n : nat) (r : point) :
  is_u64 ctr -> ctr + Z.of_nat n < U64 ->
  candidate domain data (ctr + Z.of_nat n) = Some r ->
  (forall m : nat, (m < n)%nat -> candidate domain data (ctr + Z.of_nat m) = None) ->
  (n < fuel)%nat -> try_increment fuel domain data ctr = Ok r.
Proof.
  revert ctr n. induction fuel as [|fuel IH]; intros ctr n Hc Hb Hr Hm Hf; [lia|]. simpl.
  destruct n as [|n].
  - rewrite Z.add_0_r in Hr. by rewrite Hr.
  - assert (E := Hm O ltac:(lia)). rewrite Z.add_0_r in E. rewrite E.
    rewrite wrap64_small by u64lia.
    apply (IH _ n); [u64lia|lia| | |lia].
    + rewrite <- Hr. f_equal. lia.
    + intros m Hmn. rewrite <- (Hm (S m)) by lia. f_equal. lia.
Qed.

Lemma hashToCurvePoint_subgroup (data : list byte) (r : point) : hashToCurvePoint data = Ok r -> subgroup r /\ r <> identity.
Proof. apply try_increment_subgroup. Qed.

(** The search for a curve point terminates with the first counter whose digest
    decodes to a point that is not of small order, whatever the fuel beyond it; the
    result lies in the prime-order subgroup and is not the identity. *)
Theorem hash_to_curve_terminates (domain : string) (data : list byte) (n : nat) (r : point) :
  Z.of_nat n < U64 -> candidate domain data (Z.of_nat n) = Some r ->
  (forall m : nat, (m < n)%nat -> candidate domain data (Z.of_nat m) = None) ->
  (forall fuel : nat, (n < fuel)%nat -> try_increment fuel domain data 0 = Ok r)
  /\ (forall fuel : nat, (fuel <= n)%nat -> is_ok (try_increment fuel domain data 0) = false)
  /\ subgroup r /\ r <> identity.
Proof.
  intros Hn Hr Hm. split; [|split].
  - intros fuel Hf. apply (try_increment_finds fuel domain data 0 n); [u64lia|lia|done|done|done].
  - intros fuel. assert (Hgen : forall (k : nat), (k + fuel <= n)%nat -> is_ok (try_increment fuel domain data (Z.of_nat k)) = false).
    { induction fuel as [|fuel IH]; intros k Hk; [done|]. simpl. rewrite (Hm k) by lia.
      rewrite wrap64_small by u64lia. replace (Z.of_nat k + 1) with (Z.of_nat (S k)) by lia. apply IH. lia. }
    intros Hf. apply (Hgen O). lia.
  - by eapply candidate_subgroup.
Qed.

(** ** Key images *)

Lemma inv8_val : exists s, SetCanonicalBytes inv8ModL = Some s /\ 8 * sval s ≡l 1.
Proof.
  destruct (canonical_total inv8ModL) as [s Hs]; [done|vm_compute; reflexivity|].
  exists s. split; [done|]. apply canonical_bytes in Hs as [_ <-]. unfold cong. vm_compute. reflexivity.
Qed.

(** The prime-order part of a point. *)
Definition prime_part (p : point) : point := default s_zero (SetCanonicalBytes inv8ModL) • MultByCofactor p.

Lemma prime_part_cofactor (p : point) : MultByCofactor (prime_part p) = MultByCofactor p.
Proof.
  unfold prime_part. destruct inv8_val as (s & -> & Hs). simpl.
  rewrite cofactor_mult, scalar_mult, <- zsmul_mul.
  rewrite (zsmul_cong _ 1) by auto with aperod. apply zsmul_1.
Qed.

Lemma prime_part_id (p : point) : subgroup p -> prime_part p = p.
Proof.
  intros Hp. unfold prime_part. destruct inv8_val as (s & -> & Hs). simpl.
  rewrite scalar_mult, cofactor_mult, <- zsmul_mul, Z.mul_comm, (zsmul_cong _ 1) by auto with aperod.
  apply zsmul_1.
Qed.

Lemma prime_part_subgroup (p : point) : subgroup (prime_part p).
Proof. unfold prime_part. auto with aperod. Qed.

Lemma canonical_unfold (ki out : KeyImage) :
  CanonicalKeyImage ki = Ok out <->
  exists p, SetBytes (arr_list ki) = Some p /\ MultByCofactor p <> identity /\ out = p_Bytes (prime_part p).
Proof.
  unfold CanonicalKeyImage. destruct (SetBytes (arr_list ki)) as [p|]; [|naive_solver].
  rewrite reject_ok, bool_decide_eq_false. fold (prime_part p). naive_solver.
Qed.

(** What a checked key image is: the encoding of a point of the subgroup other than the identity. *)
Lemma canonical_fixed (ki : KeyImage) :
  CanonicalKeyImage ki = Ok ki <-> exists p, subgroup p /\ p <> identity /\ ki = p_Bytes p.
Proof.
  rewrite canonical_unfold. split.
  - intros (p & Hp & Hc & E). exists (prime_part p). split; [apply prime_part_subgroup|]. split; [|done].
    intros E0. apply Hc. by rewrite <- prime_part_cofactor, E0, cofactor_mult, zsmul_identity.
  - intros (p & Hs & Hp & ->). exists p. rewrite point_bytes, prime_part_id by done. split; [done|]. split; [|done].
    intros E. apply Hp. rewrite <- (prime_part_id p Hs). unfold prime_part.
    by rewrite E, scalar_mult, zsmul_identity.
Qed.

(** C33: [CanonicalKeyImage] computes a canonical form of the key images of one secret:
    it succeeds on an encoding of a point exactly when the point is not of small
    order, ignores any small-order component, returns an encoding of a point of
    the prime-order subgroup, is the identity on such encodings, and is idempotent. *)
Theorem canonical_key_image_spec (p t : point) :
  MultByCofactor t = identity ->
  (MultByCofactor p = identity <-> is_ok (CanonicalKeyImage (p_Bytes p)) = false)
  /\ CanonicalKeyImage (p_Bytes (p ⊕ t)) = CanonicalKeyImage (p_Bytes p)
  /\ (subgroup p -> p <> identity -> CanonicalKeyImage (p_Bytes p) = Ok (p_Bytes p))
  /\ (forall out, CanonicalKeyImage (p_Bytes p) = Ok out ->
        CanonicalKeyImage out = Ok out /\ exists q, out = p_Bytes q /\ subgroup q /\ q <> identity).
Proof.
  intros Ht. split; [|split; [|split]].
  - unfold CanonicalKeyImage. rewrite point_bytes. case_bool_decide; simpl; naive_solver.
  - unfold CanonicalKeyImage. rewrite !point_bytes.
    replace (MultByCofactor (p ⊕ t)) with (MultByCofactor p); [done|].
    rewrite cofactor_mult in Ht. by rewrite !cofactor_mult, zsmul_point_add, Ht, add_0_r.
  - intros Hs Hp. apply canonical_fixed. eauto.
  - intros out Ho. assert (Hf : CanonicalKeyImage out = Ok out).
    { apply canonical_unfold in Ho as (p' & Hp' & Hc & ->). rewrite point_bytes in Hp'. injection Hp' as <-.
      apply canonical_unfold. exists (prime_part p). rewrite point_bytes, prime_part_cofactor.
      by rewrite (prime_part_id (prime_part p)) by apply prime_part_subgroup. }
    split; [done|]. apply canonical_fixed in Hf. naive_solver.
Qed.

End Encodings.

(** ** A concrete group, used by the witnesses to evaluate the model

    The integers modulo [8 l] with the multiples of [8] as prime-order subgroup:
    it satisfies every law of [EdwardsLaws] (discrete logarithms are easy in it). *)

Record zmod (N : Z) := mkMod { zv : Z; zv_ok : bool_decide (zv mod N = zv) = true }.
Arguments zv {_} _.

#[export] Instance zmod_eq_dec (N : Z) : EqDecision (zmod N).
Proof.
  intros [x Hx] [y Hy]. destruct (decide (x = y)) as [->|Hne].
  - left. f_equal. apply proof_irrel.
  - right. congruence.
Defined.

Lemma of_Z_ok (N z : Z) : bool_decide ((z mod N) mod N = z mod N) = true.
Proof. apply bool_decide_eq_true, Zmod_mod. Qed.

Definition of_Z (N z : Z) : zmod N := mkMod N (z mod N) (of_Z_ok N z).

Lemma zmod_ext (N : Z) (x y : zmod N) : zv x = zv y -> x = y.
Proof. destruct x, y. simpl. intros ->. f_equal. apply proof_irrel. Qed.

Lemma zv_mod (N : Z) (x : zmod N) : zv x mod N = zv x.
Proof. destruct x as [z Hz]. simpl. by apply bool_decide_eq_true in Hz. Qed.

Lemma of_Z_zv (N : Z) (x : zmod N) : of_Z N (zv x) = x.
Proof. apply zmod_ext. apply zv_mod. Qed.

Definition toy_hashes_from (seed : Z) : Hashes := {|
  sha256_sum := toy_sha256;
  sha512_sum := fun l => copy_arr 64 (le_encode 64
    ((1 + fold_left (fun a b => (a * 131 + byte_to_Z b + 7) mod 2305843009213693951) l seed) ^ 8))
|}.
Definition toy_hashes : Hashes := toy_hashes_from 5.

Definition toy_curve : Edwards := {|
  point := zmod (8 * ell);
  p_add := fun p q => of_Z (8 * ell) (zv p + zv q);
  p_neg := fun p => of_Z (8 * ell) (- zv p);
  identity := of_Z (8 * ell) 0;
  base_point := of_Z (8 * ell) 8;
  MultByCofactor := fun p => of_Z (8 * ell) (8 * zv p);
  SetBytes := fun b => if bool_decide (length b = 32%nat) then Some (of_Z (8 * ell) (le_decode b)) else None;
  p_Bytes := fun p => copy_arr 32 (le_encode 32 (zv p));
  scalar := zmod ell;
  s_zero := of_Z ell 0;
  s_add := fun s t => of_Z ell (zv s + zv t);
  s_mul := fun s t => of_Z ell (zv s * zv t);
  s_neg := fun s => of_Z ell (- zv s);
  s_sub := fun s t => of_Z ell (zv s - zv t);
  s_Invert := fun s => of_Z ell (fst (fst (Z.extgcd (zv s) ell)));
  SetCanonicalBytes := fun b =>
    if bool_decide (length b = 32%nat) && (le_decode b <? ell) then Some (of_Z ell (le_decode b)) else None;
  SetUniformBytes := fun b => of_Z ell (le_decode b);
  s_Bytes := fun s => copy_arr 32 (le_encode 32 (zv s));
  ScalarMult := fun s p => of_Z (8 * ell) (zv s * zv p)
|}.

Lemma ell_pos : 0 < ell < 2 ^ 253.
Proof. split; vm_compute; reflexivity. Qed.

Lemma zv_range (N : Z) (x : zmod N) : 0 < N -> 0 <= zv x < N.
Proof. intros HN. rewrite <- zv_mod. by apply Z.mod_pos_bound. Qed.

#[export] Instance toy_group : @GroupLaws toy_curve.
Proof.
  split; intros; apply zmod_ext; simpl; unfold Z.sub.
  - by rewrite Zplus_mod_idemp_l, Zplus_mod_idemp_r, Z.add_assoc.
  - by rewrite Z.add_comm.
  - rewrite Zplus_mod_idemp_l. simpl. apply zv_mod.
  - by rewrite Zplus_mod_idemp_l, Z.add_opp_diag_l.
Qed.

Lemma toy_zsmul (n : Z) (p : zmod (8 * ell)) : @zsmul toy_curve n p = of_Z (8 * ell) (n * zv p).
Proof.
  induction n as [|n IH|n IH] using Z.peano_ind.
  - rewrite (zsmul_0 (H := toy_curve)). done.
  - rewrite zsmul_succ, IH. apply zmod_ext. simpl. rewrite Zplus_mod_idemp_r. f_equal. lia.
  - rewrite zsmul_pred, IH. apply zmod_ext. simpl. rewrite Zplus_mod_idemp_r, Zplus_mod_idemp_l. f_equal. lia.
Qed.

Lemma toy_encode (z : Z) : 0 <= z < 256 ^ 32 -> le_decode (arr_list (copy_arr 32 (le_encode 32 z))) = z.
Proof. intros Hz. rewrite arr_list_copy by apply length_le_encode. by apply le_decode_encode. Qed.

#[export] Instance toy_laws : @EdwardsLaws toy_curve.
Proof.
  pose proof ell_pos as Hell.
  refine (@Build_EdwardsLaws toy_curve toy_group (@zv ell) _ _ _ _ _ _ _ _ _ _ _ _ _ _ _ _ _ _);
    try (intros; simpl; apply Zmod_mod).
  - intros s. apply zv_range. lia.
  - apply zmod_ext.
  - done.
  - intros s Hs. simpl. unfold cong. rewrite Zmult_mod_idemp_r.
    assert (Hg : Z.gcd (zv s) ell = 1) by (apply coprime_ell; by rewrite zv_mod).
    destruct (Z.extgcd (zv s) ell) as [[u v] g] eqn:E. apply Z.extgcd_correct in E as [E ->].
    simpl. rewrite Hg in E. replace (zv s * u) with (1 + (- v) * ell) by lia. apply Z.mod_add. lia.
  - intros b s. simpl. split.
    + intros E. case_bool_decide as Hl; [|done]. destruct (le_decode b <? ell) eqn:Hb; [|done]. zbool.
      injection E as <-. split; [done|]. simpl. symmetry. apply Z.mod_small. pose proof (le_decode_range b). lia.
    + intros [Hl E]. rewrite bool_decide_eq_true_2 by done. pose proof (zv_range ell s ltac:(lia)).
      assert ((le_decode b <? ell) = true) as -> by (apply Z.ltb_lt; lia). simpl. f_equal. rewrite E. apply of_Z_zv.
  - intros b Hl Hb. simpl. rewrite bool_decide_eq_true_2 by done. assert ((le_decode b <? ell) = true) as -> by (by apply Z.ltb_lt). eauto.
  - intros s. exact (arr_list_copy 32 _ (length_le_encode 32 (zv s))).
  - intros p. cbn [SetBytes p_Bytes toy_curve]. rewrite bool_decide_eq_true_2 by apply arr_length. f_equal.
    rewrite toy_encode; [apply of_Z_zv|]. pose proof (zv_range _ p ltac:(lia)). lia.
  - intros s p. symmetry. apply toy_zsmul.
  - intros p. symmetry. apply toy_zsmul.
  - rewrite toy_zsmul. apply zmod_ext. vm_compute. reflexivity.
  - intros E. apply (f_equal zv) in E. vm_compute in E. discriminate E.
  - intros p. rewrite toy_zsmul. apply zmod_ext. simpl. rewrite Z.mul_comm, Z.mod_mul by lia. done.
Defined.

Lemma some_value {A} (o : option A) (d : A) : bool_decide (is_Some o) = true -> o = Some (default d o).
Proof. destruct o; [done|]. intros E. apply bool_decide_eq_true in E. by apply is_Some_None in E. Qed.

Lemma hash_to_curve_terminates_witness :
  exists r, try_increment (H := toy_hashes) (H0 := toy_curve) 9 "d" [x01] 0 = Ok r.
Proof.
  exists (default (identity (Edwards := toy_curve)) (candidate (H := toy_hashes) (H0 := toy_curve) "d" [x01] 0)).
  apply (hash_to_curve_terminates (H := toy_hashes) (H0 := toy_curve) (H1 := toy_laws) "d" [x01] O).
  - lia.
  - apply (some_value (candidate (H := toy_hashes) (H0 := toy_curve) "d" [x01] 0)). vm_compute. reflexivity.
  - lia.
  - lia.
Defined.

(** The point of order 8 does not change the canonical key image. *)
Lemma canonical_key_image_spec_witness :
  CanonicalKeyImage (H0 := toy_curve) (p_Bytes (Edwards := toy_curve) (of_Z (8 * ell) (16 + ell)))
  = Ok (p_Bytes (Edwards := toy_curve) (of_Z (8 * ell) 16)).
Proof.
  destruct (canonical_key_image_spec (H0 := toy_curve) (H1 := toy_laws) (of_Z (8 * ell) 16) (of_Z (8 * ell) ell))
    as (_ & Ht & Hs & _).
  - apply zmod_ext. vm_compute. reflexivity.
  - transitivity (CanonicalKeyImage (H0 := toy_curve) (p_Bytes (Edwards := toy_curve) (of_Z (8 * ell) 16))).
    + rewrite <- Ht. apply (f_equal (fun p => CanonicalKeyImage (H0 := toy_curve) (p_Bytes (Edwards := toy_curve) p))).
      apply zmod_ext. vm_compute. reflexivity.
    + apply Hs.
      * constructor. rewrite toy_zsmul. apply zmod_ext. vm_compute. reflexivity.
      * intros E. apply (f_equal zv) in E. vm_compute in E. discriminate E.
Defined.

End Curve.
