(* ===== verification/Pedersen.v ===== *)
(** Pedersen commitments and the proofs of knowledge built on them:
    [crypto/pedersen.go], [crypto/value_authorization.go] and
    [crypto/keyimage_proof.go].

    The theorems show the balance check to be what it means for openings of the
    commitments (an accepted imbalance is an explicit linear relation between the
    two generators), the blinding factor of a change output to close the balance,
    and the two Schnorr-style proofs to be complete and to determine their secret:
    two accepting answers to different challenges for the same first message give
    the secret.  The challenge is changed by running the verifier with another
    SHA-512 and the same SHA-256. *)

From stdpp Require Import base list strings.
From S2P Require Import Prelude Bytes Crypto Curve.
Import Curve.

Module Pedersen.

Section Pedersen.
Context `{Hashes} `{Edwards}.

(** ** Commitments *)

(** [hGenerator], set to [BpH] of bulletproof.go. *)
Definition BpH : result point := hashToPoint (bytes_of_string "Aperod/BP/H/v2").
Definition hGenerator : point := match BpH with Ok p => p | Err _ => identity end.

Definition Commit (value : Z) (blind : BlindFactor) : result Commitment :=
  rScalar ← errorf "invalid blinding factor (non-canonical scalar)" (ScalarFromBytes (arr_list blind));
  let vScalar := scalarFromUint64 value in
  let rG := ScalarBaseMult rScalar in
  let vH := vScalar • hGenerator in
  Ok (p_Bytes (rG ⊕ vH)).

(** One loop of [CommitSum]. *)
Definition sum_points (e : string) (acc : point) (cs : list Commitment) : result point :=
  foldM (fun acc (c : Commitment) => pt ← errorf e (PointFromBytes (arr_list c)); Ok (acc ⊕ pt)) acc cs.

Definition CommitSum (inputs outputs : list Commitment) (feeCommit : Commitment) : result bool :=
  sumIn ← sum_points "invalid input commitment" identity inputs;
  sumOut ← sum_points "invalid output commitment" identity outputs;
  feePt ← errorf "invalid fee commitment" (PointFromBytes (arr_list feeCommit));
  Ok (bool_decide (sumIn = sumOut ⊕ feePt)).

(** [SetUniformBytes] of a SHA-512 digest, encoded. *)
Definition uniform_blind (data : list byte) : BlindFactor :=
  s_Bytes (SetUniformBytes (arr_list (sha512_sum data))).

Definition DeterministicMintBlind (spendPub : Point32) (amount : Z) : BlindFactor :=
  uniform_blind (bytes_of_string "aperod-mint-blind-v1" ++ arr_list spendPub ++ le_encode 8 amount).
Definition DeterministicMintBlindV2 (spendPub : Point32) (amount height : Z) : BlindFactor :=
  uniform_blind (bytes_of_string "aperod-mint-blind-v2" ++ arr_list spendPub ++ le_encode 8 amount ++ le_encode 8 height).
Definition DeterministicPaymentBlind (hs : arr 32) (amount : Z) : BlindFactor :=
  uniform_blind (bytes_of_string "aperod-pay-blind-v1" ++ arr_list hs ++ le_encode 8 amount).

(** The two loops of [BlindSum]. *)
Definition add_blinds (f : scalar -> scalar) (acc : scalar) (bs : list BlindFactor) : result scalar :=
  foldM (fun acc (b : BlindFactor) => s ← ScalarFromBytes (arr_list b); Ok (s_add acc (f s))) acc bs.

Definition BlindSum (ins outs : list BlindFactor) : result BlindFactor :=
  acc ← add_blinds (fun s => s) s_zero ins;
  acc' ← add_blinds s_neg acc outs;
  Ok (s_Bytes acc').

(** ** Checked points *)

(** [checkedCLSAGSubgroupPoint] *)
Definition checkedCLSAGSubgroupPoint (encoded : Point32) (name : string) (allowIdentity : bool) : result point :=
  p ← errorf name (PointFromBytes (arr_list encoded));
  if bool_decide (p = identity) then
    reject negb allowIdentity with (name +:+ " is the identity point") ;;
    reject bool_decide (encoded <> p_Bytes identity) with (name +:+ " identity is not canonically encoded") ;;
    Ok p
  else
    canonical ← errorf (name +:+ " subgroup check") (CanonicalKeyImage encoded);
    reject bool_decide (canonical <> encoded) with (name +:+ " is not in the prime-order subgroup") ;;
    Ok p.

Definition checkedCLSAGPrimePoint (encoded : Point32) (name : string) : result point :=
  checkedCLSAGSubgroupPoint encoded name false.

Definition checkedCLSAGDPoint (encoded : Point32) : result point := checkedCLSAGSubgroupPoint encoded "D" true.

(** [checkedDLEQPoint] *)
Definition checkedDLEQPoint (label : string) (encoded : Point32) : result point :=
  canonical ← errorf label (CanonicalKeyImage encoded);
  reject bool_decide (canonical <> encoded) with (label +:+ " is not in the prime-order subgroup") ;;
  errorf label (PointFromBytes (arr_list encoded)).

(** ** Value authorizations *)

Definition valueAuthorizationChallenge (amount : Z) (commit : Commitment) (nonce : list byte) : scalar :=
  SetUniformBytes (arr_list (sha512_sum
    (bytes_of_string "aperod/sale/known-value-opening/v1" ++ be_encode 8 amount ++ arr_list commit ++ nonce))).

Definition ProveValueAuthorization (amount : Z) (blind : BlindFactor) (t : list (arr 64))
  : result (Commitment * arr 64) :=
  commit ← Commit amount blind;
  r ← ScalarFromBytes (arr_list blind);
  '(nonce, _) ← NewBlindFactor t;
  k ← ScalarFromBytes (arr_list nonce);
  let R := ScalarBaseMult k in
  let challenge := valueAuthorizationChallenge amount commit (arr_list (p_Bytes R)) in
  let response := MultiplyAdd challenge r k in
  Ok (commit, copy_arr 64 (arr_list (p_Bytes R) ++ arr_list (s_Bytes response))).

Definition VerifyValueAuthorization (amount : Z) (commit : Commitment) (proof : arr 64) : result () :=
  C ← checkedCLSAGSubgroupPoint commit "sale commitment" true;
  let Rbytes := copy_arr 32 (slice (arr_list proof) 0 32) in
  R ← checkedCLSAGPrimePoint Rbytes "sale opening nonce";
  s ← ScalarFromBytes (slice (arr_list proof) 32 64);
  let difference := p_sub C (scalarFromUint64 amount • hGenerator) in
  let challenge := valueAuthorizationChallenge amount commit (slice (arr_list proof) 0 32) in
  let want := R ⊕ challenge • difference in
  reject bool_decide (ScalarBaseMult s <> want) with "sale: output value differs from authorized debit" ;;
  Ok ().

Definition ValidateAuthorizedOutputPoints (pub ephemeral : Point32) : result () :=
  _ ← checkedCLSAGPrimePoint pub "sale recipient output";
  _ ← checkedCLSAGPrimePoint ephemeral "sale ephemeral output";
  Ok ().

(** ** Key-image proofs *)

Definition keyImageDLEQChallenge (P : Point32) (ki : KeyImage) (A B : Point32) (context : list byte) : scalar :=
  hashToScalar (bytes_of_string "aperod/stake/key-image-dleq/v1" ++ be_encode 8 (Z.of_nat (length context))
    ++ context ++ arr_list P ++ arr_list ki ++ arr_list A ++ arr_list B) "aperod/stake/key-image-dleq/challenge/v1".

(** The nonce: one more draw when the first is zero. *)
Definition dleq_nonce (t : list (arr 64)) : result (scalar * list (arr 64)) :=
  '(w, t') ← errorf "key-image proof nonce" (randomScalar t);
  if bool_decide (w = s_zero) then
    '(w', t'') ← errorf "key-image proof nonce" (randomScalar t');
    reject bool_decide (w' = s_zero) with "key-image proof nonce is zero" ;;
    Ok (w', t'')
  else Ok (w, t').

Definition ProveKeyImage (secret : arr 32) (P : Point32) (context : list byte) (t : list (arr 64))
  : result (KeyImage * KeyImageDLEQProof) :=
  x ← errorf "key-image secret" (ScalarFromBytes (arr_list secret));
  _ ← checkedDLEQPoint "one-time public key" P;
  reject bool_decide (p_Bytes (ScalarBaseMult x) <> P) with "key-image secret does not match one-time public key" ;;
  ki ← errorf "compute key image" (ComputeKeyImage secret P);
  hp ← hashToCurvePoint (arr_list P);
  '(w, _) ← dleq_nonce t;
  let A := p_Bytes (ScalarBaseMult w) in
  let B := p_Bytes (w • hp) in
  let c := keyImageDLEQChallenge P ki A B context in
  let z := MultiplyAdd c x w in
  Ok (ki, Build_KeyImageDLEQProof A B (s_Bytes z)).

Definition VerifyKeyImageProof (P : Point32) (ki : KeyImage) (context : list byte) (proof : KeyImageDLEQProof) : result () :=
  p ← checkedDLEQPoint "one-time public key" P;
  imagePoint ← checkedDLEQPoint "key image" ki;
  A ← checkedDLEQPoint "proof commitment G" (CommitmentG proof);
  B ← checkedDLEQPoint "proof commitment Hp" (CommitmentHp proof);
  z ← errorf "key-image proof response" (ScalarFromBytes (arr_list (Response proof)));
  hp ← hashToCurvePoint (arr_list P);
  let c := keyImageDLEQChallenge P ki (CommitmentG proof) (CommitmentHp proof) context in
  let leftG := ScalarBaseMult z in
  let rightG := A ⊕ c • p in
  let leftHp := z • hp in
  let rightHp := B ⊕ c • imagePoint in
  reject bool_decide (leftG <> rightG) || bool_decide (leftHp <> rightHp)
    with "key-image DLEQ proof verification failed" ;;
  Ok ().

End Pedersen.

(** ** Balance *)

Section Balance.
Context `{Hashes} `{EdwardsLaws}.

Lemma hGenerator_subgroup : subgroup hGenerator.
Proof.
  unfold hGenerator, BpH, hashToPoint. destruct (try_increment _ _ _ _) eqn:E; [|apply subgroup_identity].
  by apply try_increment_subgroup in E as [E _].
Qed.

#[local] Hint Resolve hGenerator_subgroup : aperod.

(** The blinding factor as a number. *)
Definition bval (b : BlindFactor) : Z := le_decode (arr_list b).

Lemma bval_scalar (s : scalar) : bval (s_Bytes s) = sval s.
Proof. pose proof (SetCanonicalBytes_scalar s) as Hc. by apply canonical_bytes in Hc as [_ Hc]. Qed.

(** The commitment [r G + v H]. *)
Definition pedersen (r v : Z) : point := zsmul r base_point ⊕ zsmul v hGenerator.

Lemma pedersen_add (r v r' v' : Z) : pedersen r v ⊕ pedersen r' v' = pedersen (r + r') (v + v').
Proof. unfold pedersen. by rewrite !zsmul_add, add_swap. Qed.

Lemma pedersen_0 : pedersen 0 0 = identity.
Proof. unfold pedersen. rewrite !zsmul_0. apply add_0_l. Qed.

Lemma pedersen_sub (r v r' v' : Z) : pedersen r v = pedersen r' v' <-> pedersen (r - r') (v - v') = identity.
Proof.
  rewrite <- (p_sub_diag (pedersen r v)). unfold p_sub, pedersen.
  by rewrite neg_add, <- !zsmul_opp, add_swap, <- !zsmul_add.
Qed.

Lemma pedersen_cong (r v r' v' : Z) : r ≡l r' -> v ≡l v' -> pedersen r v = pedersen r' v'.
Proof. intros Er Ev. unfold pedersen. f_equal; apply zsmul_cong; auto with aperod. Qed.

Lemma Commit_ok (v : Z) (b : BlindFactor) (c : Commitment) : is_u64 v ->
  Commit v b = Ok c <-> (exists r, SetCanonicalBytes (arr_list b) = Some r) /\ c = p_Bytes (pedersen (bval b) v).
Proof.
  intros Hv. unfold Commit. rewrite bind_ok. split.
  - intros (r & Hr & E). apply errorf_ok, ScalarFromBytes_arr in Hr. injection E as <-. split; [eauto|].
    apply canonical_bytes in Hr as [_ Hr]. unfold pedersen, bval.
    by rewrite smult_base, scalar_mult, scalarFromUint64_val, Hr.
  - intros [(r & Hr) ->]. exists r. rewrite errorf_ok, ScalarFromBytes_arr. split; [done|].
    apply canonical_bytes in Hr as [_ Hr]. unfold pedersen, bval.
    by rewrite smult_base, scalar_mult, scalarFromUint64_val, Hr.
Qed.

(** [c] commits to a 64-bit value under a blinding factor. *)
Definition opens (c : Commitment) (o : Z * BlindFactor) : Prop := is_u64 o.1 /\ Commit o.1 o.2 = Ok c.

Definition values (l : list (Z * BlindFactor)) : Z := sumZ fst l.
Definition blinds (l : list (Z * BlindFactor)) : Z := sumZ (fun o => bval o.2) l.

Lemma sum_points_opens (e : string) (r v : Z) (cs : list Commitment) (os : list (Z * BlindFactor)) :
  Forall2 opens cs os -> sum_points e (pedersen r v) cs = Ok (pedersen (r + blinds os) (v + values os)).
Proof.
  intros Ho. revert r v. induction Ho as [|c o cs os [Hu Hc] _ IH]; intros r v.
  - unfold blinds, values. simpl. by rewrite !Z.add_0_r.
  - apply Commit_ok in Hc as [_ ->]; [|done]. unfold sum_points in *. simpl.
    rewrite PointFromBytes_point. simpl. rewrite pedersen_add, IH. unfold blinds, values. simpl.
    by rewrite !Z.add_assoc.
Qed.

Lemma zero_blind : bval (zero_arr 32) = 0.
Proof. apply le_decode_zeros. Qed.

Lemma CommitSum_opens (ins outs : list Commitment) (oi oo : list (Z * BlindFactor)) (fee : Z) (fc : Commitment) :
  Forall2 opens ins oi -> Forall2 opens outs oo -> opens fc (fee, zero_arr 32) ->
  CommitSum ins outs fc
  = Ok (bool_decide (pedersen (blinds oi - blinds oo) (values oi - values oo - fee) = identity)).
Proof.
  intros Hi Ho [Hu Hf]. apply Commit_ok in Hf as [_ ->]; [|done]. unfold CommitSum. rewrite <- pedersen_0.
  rewrite (sum_points_opens _ _ _ _ _ Hi). simpl. rewrite (sum_points_opens _ _ _ _ _ Ho). simpl.
  rewrite PointFromBytes_point. simpl. rewrite pedersen_add, zero_blind. f_equal. apply bool_decide_ext.
  rewrite pedersen_sub, pedersen_0.
  replace (0 + blinds oi - (0 + blinds oo + 0)) with (blinds oi - blinds oo) by lia.
  by replace (0 + values oi - (0 + values oo + fee)) with (values oi - values oo - fee) by lia.
Qed.

Lemma values_bound (cs : list Commitment) (os : list (Z * BlindFactor)) :
  Forall2 opens cs os -> 0 <= values os <= Z.of_nat (length cs) * U64.
Proof.
  intros Ho. induction Ho as [|c o cs os [Hu _] _ IH]; [done|]. unfold values in *. simpl sumZ.
  cbn [length]. unfold is_u64 in Hu. lia.
Qed.

Lemma CommitSum_spec (ins outs : list Commitment) (oi oo : list (Z * BlindFactor)) (fee : Z) (fc : Commitment) :
  Forall2 opens ins oi -> Forall2 opens outs oo -> opens fc (fee, zero_arr 32) ->
  Z.of_nat (length ins) < 2 ^ 128 -> Z.of_nat (length outs) < 2 ^ 128 ->
  let a := blinds oi - blinds oo in
  let b := values oi - values oo - fee in
  (CommitSum ins outs fc = Ok true <-> zsmul a base_point ⊕ zsmul b hGenerator = identity)
  /\ (values oi = values oo + fee -> a ≡l 0 -> CommitSum ins outs fc = Ok true)
  /\ (CommitSum ins outs fc = Ok true ->
      values oi = values oo + fee
      \/ ~ b ≡l 0 /\ zsmul a base_point ⊕ zsmul b hGenerator = identity).
Proof.
  intros Hi Ho Hf Hli Hlo a b. rewrite (CommitSum_opens _ _ _ _ _ _ Hi Ho Hf). fold a b (pedersen a b).
  assert (Hb : Ok (bool_decide (pedersen a b = identity)) = Ok true <-> pedersen a b = identity).
  { split; [intros E; apply Ok_inj in E; by apply bool_decide_eq_true in E|]. intros E. by rewrite bool_decide_eq_true_2. }
  split; [done|]. split.
  - intros Ev Ea. rewrite Hb, <- pedersen_0. apply pedersen_cong; [done|]. by replace b with 0 by lia.
  - rewrite Hb. intros E. destruct (decide (b mod ell = 0)) as [E0|E0].
    + left. apply values_bound in Hi, Ho. destruct Hf as [Hu _]. simpl in Hu.
      assert (Hbig : 2 ^ 200 < ell) by (vm_compute; reflexivity).
      assert (Hbb : - 2 ^ 200 < b < 2 ^ 200) by (unfold is_u64 in Hu; lia).
      enough (b = 0) by lia. destruct (Z.le_gt_cases 0 b).
      * rewrite Z.mod_small in E0; lia.
      * apply Z.mod_divide in E0 as [k Hk]; [|lia]. assert (k < 0) by nia. assert (k * ell <= -1 * ell) by (apply Z.mul_le_mono_nonneg_r; lia). lia.
    + right. split; [|done]. unfold cong. by rewrite Z.mod_0_l by (pose proof ell_pos; lia).
Qed.

(** The balance check on commitments with known openings: it accepts exactly when
    the difference of the blinding factors and of the values is a linear relation
    between the two generators; it accepts every honest balance; and an accepted
    transaction either preserves the value (outputs plus fee equal inputs, as
    integers) or hands over a relation [a G + b H = 0] with [b] not a multiple of
    the group order, that is, the discrete logarithm of [H]. *)
Theorem commit_sum_balance (ins outs : list Commitment) (oi oo : list (Z * BlindFactor)) (fee : Z) (fc : Commitment) :
  Forall2 opens ins oi -> Forall2 opens outs oo -> opens fc (fee, zero_arr 32) ->
  Z.of_nat (length ins) < 2 ^ 128 -> Z.of_nat (length outs) < 2 ^ 128 ->
  let a := blinds oi - blinds oo in
  let b := values oi - values oo - fee in
  (CommitSum ins outs fc = Ok true <-> zsmul a base_point ⊕ zsmul b hGenerator = identity)
  /\ (values oi = values oo + fee -> a ≡l 0 -> CommitSum ins outs fc = Ok true)
  /\ (CommitSum ins outs fc = Ok true ->
      values oi = values oo + fee
      \/ ~ b ≡l 0 /\ zsmul a base_point ⊕ zsmul b hGenerator = identity).
Proof. apply CommitSum_spec. Qed.

Lemma add_blinds_ok (f : scalar -> scalar) (g : Z -> Z) (acc : scalar) (cs : list Commitment) (os : list (Z * BlindFactor)) :
  (forall s, sval (f s) ≡l g (sval s)) -> Forall2 opens cs os ->
  exists s, add_blinds f acc (snd <$> os) = Ok s /\ sval s ≡l sval acc + sumZ (fun o => g (bval o.2)) os.
Proof.
  intros Hf Ho. revert acc. induction Ho as [|c o cs os [Hu Hc] _ IH]; intros acc.
  - exists acc. split; [done|]. simpl. by rewrite Z.add_0_r.
  - apply Commit_ok in Hc as [[r Hr] _]; [|done].
    destruct (IH (s_add acc (f r))) as (s & Hs & E). exists s. split.
    + unfold add_blinds in *. simpl. rewrite (proj2 (ScalarFromBytes_arr o.2 r) Hr). simpl. done.
    + rewrite E, sval_add, Hf. apply canonical_bytes in Hr as [_ Hr]. simpl. unfold bval. rewrite Hr.
      by rewrite Z.add_assoc.
Qed.

Lemma sumZ_opp {A} (f : A -> Z) (l : list A) : sumZ (fun a => - f a) l = - sumZ f l.
Proof. induction l as [|a l IH]; simpl; lia. Qed.

(** The change output a sender adds closes the balance: [BlindSum] of the input and
    output blinding factors succeeds, its result is a valid blinding factor, and
    with the change committed under it the sum check accepts. *)
Theorem change_output_balances (ins outs : list Commitment) (oi oo : list (Z * BlindFactor)) (change fee : Z) (fc : Commitment) :
  Forall2 opens ins oi -> Forall2 opens outs oo -> opens fc (fee, zero_arr 32) -> is_u64 change ->
  values oi = values oo + change + fee ->
  exists b c, BlindSum (snd <$> oi) (snd <$> oo) = Ok b /\ Commit change b = Ok c
    /\ CommitSum ins (outs ++ [c]) fc = Ok true.
Proof.
  intros Hi Ho Hf Hu Hbal.
  destruct (add_blinds_ok (fun s => s) (fun z => z) s_zero ins oi) as (s1 & Hs1 & E1); [done|done|].
  destruct (add_blinds_ok s_neg Z.opp s1 outs oo) as (s2 & Hs2 & E2); [apply sval_neg|done|].
  exists (s_Bytes s2), (p_Bytes (pedersen (bval (s_Bytes s2)) change)).
  assert (Hopen : opens (p_Bytes (pedersen (bval (s_Bytes s2)) change)) (change, s_Bytes s2)).
  { split; [done|]. apply Commit_ok; [done|]. split; [|done]. exists s2. apply SetCanonicalBytes_scalar. }
  split; [|split; [apply Hopen|]].
  - unfold BlindSum. rewrite Hs1. simpl. by rewrite Hs2.
  - rewrite (CommitSum_opens ins (outs ++ [_]) oi (oo ++ [(change, s_Bytes s2)]) fee fc);
      [|done|apply Forall2_app; [done|by constructor]|done].
    rewrite bool_decide_eq_true_2; [done|]. rewrite <- pedersen_0. unfold blinds, values in *.
    rewrite !sumZ_app. simpl. rewrite !Z.add_0_r. apply pedersen_cong; [|replace (sumZ fst oi - (sumZ fst oo + change) - fee) with 0 by lia; done].
    rewrite bval_scalar, E2, E1, sval_zero, sumZ_opp.
    match goal with |- ?x ≡l 0 => replace x with 0 by lia end. done.
Qed.

End Balance.

#[export] Hint Resolve hGenerator_subgroup : aperod.

(** ** Checked points *)

Section Checked.
Context `{Hashes} `{EdwardsLaws}.

Lemma checked_dleq (label : string) (e : Point32) (p : point) :
  checkedDLEQPoint label e = Ok p <-> subgroup p /\ p <> identity /\ e = p_Bytes p.
Proof.
  unfold checkedDLEQPoint. rewrite bind_ok. split.
  - intros (c & Hc & E). apply errorf_ok in Hc. apply reject_ok in E as [Ec E]. zbool.
    destruct (decide (c = e)) as [->|]; [|done]. apply canonical_fixed in Hc as (q & Hq & Hne & ->).
    apply errorf_ok in E. rewrite PointFromBytes_point in E. injection E as <-. done.
  - intros (Hp & Hne & ->). exists (p_Bytes p). rewrite errorf_ok. split; [apply canonical_fixed; eauto|].
    rewrite bool_decide_eq_false_2 by (intros []; done). by rewrite errorf_ok, PointFromBytes_point.
Qed.

Lemma checked_clsag (e : Point32) (name : string) (allow : bool) (p : point) :
  checkedCLSAGSubgroupPoint e name allow = Ok p
  <-> subgroup p /\ e = p_Bytes p /\ (allow = true \/ p <> identity).
Proof.
  unfold checkedCLSAGSubgroupPoint. rewrite bind_ok. split.
  - intros (q & Hq & E). apply errorf_ok in Hq. destruct (decide (q = identity)) as [->|Hne].
    + rewrite bool_decide_eq_true_2 in E by done. rewrite !reject_ok in E. destruct E as (Ha & He & E).
      injection E as <-. zbool. split; [apply subgroup_identity|]. split; [|by left].
      destruct (decide (e = p_Bytes identity)); [done|]. done.
    + rewrite bool_decide_eq_false_2 in E by done. apply bind_ok in E as (c & Hc & E).
      apply errorf_ok in Hc. apply reject_ok in E as [Ec E]. injection E as <-. zbool.
      destruct (decide (c = e)) as [->|]; [|done]. apply canonical_fixed in Hc as (p & Hp & Hpne & ->).
      rewrite PointFromBytes_point in Hq. injection Hq as <-. auto.
  - intros (Hp & -> & Ha). exists p. rewrite errorf_ok, PointFromBytes_point. split; [done|].
    destruct (decide (p = identity)) as [->|Hne].
    + rewrite bool_decide_eq_true_2 by done. destruct Ha as [->|]; [|done]. simpl.
      by rewrite bool_decide_eq_false_2 by (intros []; done).
    + rewrite bool_decide_eq_false_2 by done. rewrite bind_ok. exists (p_Bytes p).
      rewrite errorf_ok. split; [apply canonical_fixed; eauto|].
      by rewrite bool_decide_eq_false_2 by (intros []; done).
Qed.

Lemma checked_prime (e : Point32) (name : string) (p : point) :
  checkedCLSAGPrimePoint e name = Ok p <-> subgroup p /\ e = p_Bytes p /\ p <> identity.
Proof. unfold checkedCLSAGPrimePoint. rewrite checked_clsag. naive_solver. Qed.

(** [MultiplyAdd] as the response of a Schnorr proof. *)
Lemma response_mult (c x k : scalar) (p q : point) :
  subgroup p -> q = x • p -> MultiplyAdd c x k • p = k • p ⊕ c • q.
Proof.
  intros Hp ->. unfold MultiplyAdd. rewrite !scalar_mult, <- zsmul_mul, <- zsmul_add.
  apply zsmul_cong; [done|]. rewrite sval_add, sval_mul. by rewrite Z.add_comm.
Qed.

(** Two answers to different challenges give the secret. *)
Lemma extract_secret (z z' c c' : scalar) (a p q : point) :
  subgroup p -> subgroup q -> c <> c' -> z • p = a ⊕ c • q -> z' • p = a ⊕ c' • q ->
  q = s_mul (s_sub z z') (s_Invert (s_sub c c')) • p.
Proof.
  intros Hp Hq Hc E E'.
  assert (Hd : sval (s_sub c c') <> 0).
  { intros E0. apply Hc, sval_inj. apply cong_small; [apply sval_range|apply sval_range|].
    pose proof (sval_sub c c') as Hs. rewrite E0 in Hs.
    replace (sval c) with (sval c - sval c' + sval c') by lia. by rewrite <- Hs. }
  pose proof (sval_Invert _ Hd) as Hinv. rewrite sval_sub in Hinv.
  assert (Hz : zsmul (sval z - sval z') p = zsmul (sval c - sval c') q).
  { rewrite !zsmul_sub, <- !scalar_mult, E, E'. unfold p_sub.
    by rewrite neg_add, add_swap, add_neg_r, add_0_l. }
  rewrite scalar_mult. set (i := s_Invert (s_sub c c')) in *.
  transitivity (zsmul (sval i) (zsmul (sval z - sval z') p)).
  - rewrite Hz, <- zsmul_mul, <- (zsmul_1 q) at 1. apply zsmul_cong; [done|]. by rewrite Z.mul_comm, Hinv.
  - rewrite <- zsmul_mul. apply zsmul_cong; [done|]. by rewrite sval_mul, sval_sub, Z.mul_comm.
Qed.

Lemma subgroup_base_mult (s : scalar) : subgroup (ScalarBaseMult s).
Proof. apply subgroup_smult, subgroup_base. Qed.

End Checked.

#[export] Hint Resolve subgroup_base_mult : aperod.

(** ** Value authorizations *)

Section Value.
Context `{EdwardsLaws}.

(** Points found by hashing depend on SHA-256 alone. *)
Lemma try_increment_sha256 (h h' : Hashes) (fuel : nat) (domain : string) (data : list byte) (ctr : Z) :
  sha256_sum (Hashes := h) = sha256_sum (Hashes := h') ->
  try_increment (H := h) fuel domain data ctr = try_increment (H := h') fuel domain data ctr.
Proof.
  intros E. revert ctr. induction fuel as [|fuel IH]; intros ctr; [done|]. simpl.
  unfold candidate. rewrite E. destruct (try_point _); [done|]. by destruct (try_point _).
Qed.

Lemma hGenerator_sha256 (h h' : Hashes) :
  sha256_sum (Hashes := h) = sha256_sum (Hashes := h') -> hGenerator (H := h) = hGenerator (H := h').
Proof. intros E. unfold hGenerator, BpH, hashToPoint. by rewrite (try_increment_sha256 h h'). Qed.

Lemma proof_parts (a b : arr 32) :
  slice (arr_list (copy_arr 64 (arr_list a ++ arr_list b))) 0 32 = arr_list a
  /\ slice (arr_list (copy_arr 64 (arr_list a ++ arr_list b))) 32 64 = arr_list b.
Proof.
  rewrite arr_list_copy by (rewrite length_app, !arr_length; done). split.
  - apply slice_here, arr_length.
  - unfold slice. rewrite drop_app_length' by (by rewrite arr_length). apply take_ge. rewrite arr_length. lia.
Qed.

Lemma verify_value_ok (h : Hashes) (amount : Z) (commit : Commitment) (R s : arr 32) :
  VerifyValueAuthorization amount commit (copy_arr 64 (arr_list R ++ arr_list s)) = Ok () <->
  exists C R' z, subgroup C /\ commit = p_Bytes C /\ subgroup R' /\ R' <> identity /\ R = p_Bytes R' /\ s = s_Bytes z /\
    ScalarBaseMult z = R' ⊕ valueAuthorizationChallenge amount commit (arr_list R)
      • p_sub C (scalarFromUint64 amount • hGenerator).
Proof.
  unfold VerifyValueAuthorization. destruct (proof_parts R s) as [-> ->]. rewrite copy_arr_list. split.
  - intros E. apply bind_ok in E as (C & HC & E). apply bind_ok in E as (R' & HR & E). apply bind_ok in E as (z & Hz & E).
    apply reject_ok in E as [E _]. zbool. apply checked_clsag in HC as (HCs & HC & _).
    apply checked_prime in HR as (HRs & HR & HRne). apply ScalarFromBytes_arr, canonical_encoding in Hz.
    exists C, R', z. do 6 (split; [done|]).
    match type of E with ~ ?a <> ?b => by destruct (decide (a = b)) end.
  - intros (C & R' & z & HC & -> & HR & HRne & -> & -> & E).
    apply bind_ok. exists C. split; [apply checked_clsag; auto|].
    apply bind_ok. exists R'. split; [by apply checked_prime|].
    apply bind_ok. exists z. split; [apply ScalarFromBytes_scalar|].
    apply reject_ok. split; [|done]. apply bool_decide_eq_false. intros Hne. by apply Hne.
Qed.

(** The proof a holder of the blinding factor makes is accepted, for the commitment
    to that amount (unless the random nonce is zero). *)
Theorem value_authorization_complete (h : Hashes) (amount : Z) (blind : BlindFactor) (buf : arr 64) (t : list (arr 64))
    (commit : Commitment) (proof : arr 64) :
  is_u64 amount -> sval (SetUniformBytes (arr_list buf)) <> 0 ->
  ProveValueAuthorization amount blind (buf :: t) = Ok (commit, proof) ->
  VerifyValueAuthorization amount commit proof = Ok () /\ Commit amount blind = Ok commit.
Proof.
  intros Hu Hk E. unfold ProveValueAuthorization in E. apply bind_ok in E as (c & Hc & E).
  apply bind_ok in E as (r & Hr & E). simpl in E. rewrite ScalarFromBytes_scalar in E. simpl in E.
  injection E as <- <-. split; [|done]. set (k := SetUniformBytes (arr_list buf)) in *.
  apply Commit_ok in Hc as [_ ->]; [|done]. apply ScalarFromBytes_arr, canonical_bytes in Hr as [_ Hr].
  apply verify_value_ok. exists (pedersen (bval blind) amount), (ScalarBaseMult k), (MultiplyAdd
    (valueAuthorizationChallenge amount (p_Bytes (pedersen (bval blind) amount)) (arr_list (p_Bytes (ScalarBaseMult k)))) r k).
  split; [unfold pedersen; auto with aperod|]. split; [done|]. split; [auto with aperod|].
  split; [apply smult_nonzero; [apply subgroup_base|apply base_nonzero|done]|].
  do 2 (split; [done|]). apply response_mult; [apply subgroup_base|].
  unfold pedersen, p_sub. rewrite (scalar_mult (scalarFromUint64 amount)), scalarFromUint64_val by done.
  rewrite <- add_assoc, add_neg_r, add_0_r, scalar_mult. unfold bval. by rewrite Hr.
Qed.

(** Two proofs with the same first message accepted for two different challenges
    determine the blinding factor: the difference of the responses divided by that of
    the challenges opens the commitment to the authorized amount. *)
Theorem value_authorization_sound (h h' : Hashes) (amount : Z) (commit : Commitment) (R : arr 32) (z z' : scalar) :
  is_u64 amount ->
  sha256_sum (Hashes := h) = sha256_sum (Hashes := h') ->
  VerifyValueAuthorization (H := h) amount commit (copy_arr 64 (arr_list R ++ arr_list (s_Bytes z))) = Ok () ->
  VerifyValueAuthorization (H := h') amount commit (copy_arr 64 (arr_list R ++ arr_list (s_Bytes z'))) = Ok () ->
  let c := valueAuthorizationChallenge (H := h) amount commit (arr_list R) in
  let c' := valueAuthorizationChallenge (H := h') amount commit (arr_list R) in
  c <> c' -> Commit (H := h) amount (s_Bytes (s_mul (s_sub z z') (s_Invert (s_sub c c')))) = Ok commit.
Proof.
  intros Hu Hsha V V' c c' Hc. apply (verify_value_ok h) in V as (C & R1 & z1 & HC & HCe & _ & _ & HRe & Hz & E).
  apply (verify_value_ok h') in V' as (C' & R1' & z1' & _ & EC & _ & _ & HRe' & Hz' & E').
  apply s_Bytes_inj in Hz as <-, Hz' as <-. fold c in E. fold c' in E'. clearbody c c'.
  rewrite HCe in EC. apply p_Bytes_inj in EC as <-.
  rewrite <- (hGenerator_sha256 h h' Hsha) in E'.
  rewrite HRe in HRe'. apply p_Bytes_inj in HRe' as <-.
  assert (Hd : subgroup (p_sub C (scalarFromUint64 amount • hGenerator (H := h)))) by auto with aperod.
  pose proof (extract_secret _ _ _ _ _ _ _ subgroup_base Hd Hc E E') as Ed.
  rewrite HCe. apply Commit_ok; [done|]. split; [eexists; apply SetCanonicalBytes_scalar|]. f_equal. unfold pedersen.
  rewrite bval_scalar, <- scalar_mult, <- Ed. unfold p_sub.
  rewrite scalar_mult, scalarFromUint64_val by done. by rewrite <- add_assoc, add_neg_l, add_0_r.
Qed.

End Value.

(** ** Key-image proofs *)

Section KeyImageProof.
Context `{EdwardsLaws}.

Lemma dleq_nonce_nonzero (t t' : list (arr 64)) (w : scalar) : dleq_nonce t = Ok (w, t') -> sval w <> 0.
Proof.
  unfold dleq_nonce. intros E.
  assert (Hw : w <> s_zero).
  { apply bind_ok in E as ([w1 t1] & _ & E). case_bool_decide as Hz.
    - apply bind_ok in E as ([w2 t2] & _ & E). apply reject_ok in E as [E1 E]. injection E as <- <-. by zbool.
    - by injection E as <- <-. }
  intros E0. apply Hw, sval_inj. by rewrite sval_zero.
Qed.

Lemma verify_key_image_ok (h : Hashes) (P : Point32) (ki : KeyImage) (ctx : list byte) (pf : KeyImageDLEQProof) :
  VerifyKeyImageProof P ki ctx pf = Ok () <->
  exists p i a b z hp,
    (subgroup p /\ p <> identity /\ P = p_Bytes p) /\ (subgroup i /\ i <> identity /\ ki = p_Bytes i)
    /\ (subgroup a /\ a <> identity /\ CommitmentG pf = p_Bytes a)
    /\ (subgroup b /\ b <> identity /\ CommitmentHp pf = p_Bytes b)
    /\ Response pf = s_Bytes z /\ hashToCurvePoint (arr_list P) = Ok hp
    /\ let c := keyImageDLEQChallenge P ki (CommitmentG pf) (CommitmentHp pf) ctx in
       ScalarBaseMult z = a ⊕ c • p /\ z • hp = b ⊕ c • i.
Proof.
  unfold VerifyKeyImageProof. split.
  - intros E. apply bind_ok in E as (p & Hp & E). apply bind_ok in E as (i & Hi & E).
    apply bind_ok in E as (a & Ha & E). apply bind_ok in E as (b & Hb & E).
    apply bind_ok in E as (z & Hz & E). apply bind_ok in E as (hp & Hhp & E). apply reject_ok in E as [E _].
    apply errorf_ok, ScalarFromBytes_arr, canonical_encoding in Hz.
    apply orb_false_iff in E as [E1 E2]. zbool.
    apply checked_dleq in Hp, Hi, Ha, Hb.
    exists p, i, a, b, z, hp. do 6 (split; [done|]).
    split; [by destruct (decide (ScalarBaseMult z = a ⊕ keyImageDLEQChallenge P ki (CommitmentG pf) (CommitmentHp pf) ctx • p))|].
    by destruct (decide (z • hp = b ⊕ keyImageDLEQChallenge P ki (CommitmentG pf) (CommitmentHp pf) ctx • i)).
  - intros (p & i & a & b & z & hp & Hp & Hi & Ha & Hb & Hz & Hhp & Hg & Hh). rewrite Hz.
    apply bind_ok. exists p. split; [by apply checked_dleq|]. apply bind_ok. exists i. split; [by apply checked_dleq|].
    apply bind_ok. exists a. split; [by apply checked_dleq|]. apply bind_ok. exists b. split; [by apply checked_dleq|].
    apply bind_ok. exists z. split; [apply errorf_ok, ScalarFromBytes_scalar|].
    apply bind_ok. exists hp. split; [done|]. apply reject_ok. split; [|done].
    apply orb_false_iff. split; apply bool_decide_eq_false; intros Hne; by apply Hne.
Qed.

(** The proof the holder of a one-time key makes is accepted, for the key image of that key. *)
Theorem key_image_proof_complete (h : Hashes) (secret : arr 32) (P : Point32) (ctx : list byte) (t : list (arr 64))
    (ki : KeyImage) (pf : KeyImageDLEQProof) :
  ProveKeyImage secret P ctx t = Ok (ki, pf) ->
  VerifyKeyImageProof P ki ctx pf = Ok () /\ ComputeKeyImage secret P = Ok ki.
Proof.
  unfold ProveKeyImage. intros E. apply bind_ok in E as (x & Hx & E). apply bind_ok in E as (p & Hp & E).
  apply reject_ok in E as [EP E]. apply bind_ok in E as (ki' & Hki & E). apply bind_ok in E as (hp & Hhp & E).
  apply bind_ok in E as ([w t'] & Hw & E). injection E as <- <-.
  apply errorf_ok in Hki. split; [|done].
  apply checked_dleq in Hp as (Hps & Hpne & ->). zbool.
  destruct (decide (p_Bytes (ScalarBaseMult x) = p_Bytes p)) as [Ex|]; [|done]. apply p_Bytes_inj in Ex as <-.
  apply dleq_nonce_nonzero in Hw. apply errorf_ok in Hx. destruct (hashToCurvePoint_subgroup _ _ Hhp) as [Hhs Hhne].
  assert (Hx0 : sval x <> 0) by (intros E0; apply Hpne; by rewrite smult_base, E0, zsmul_0).
  unfold ComputeKeyImage in Hki. rewrite Hx, Hhp in Hki. injection Hki as <-.
  apply verify_key_image_ok.
  eexists (ScalarBaseMult x), (x • hp), (ScalarBaseMult w), (w • hp), _, hp.
  split; [done|]. split; [|split; [|split; [|split; [simpl; reflexivity|split; [done|split]]]]].
  - split; [auto with aperod|]. split; [by apply smult_nonzero|done].
  - split; [auto with aperod|]. split; [apply smult_nonzero; [apply subgroup_base|apply base_nonzero|done]|done].
  - split; [auto with aperod|]. split; [by apply smult_nonzero|done].
  - by apply response_mult; [apply subgroup_base|].
  - by apply response_mult.
Qed.

(** A key image accepted under two different challenges for the same first message
    is the key image of the one-time key: there is a secret [x] with [P = x G], and
    [ComputeKeyImage] of it returns the key image. *)
Theorem key_image_proof_sound (h h' : Hashes) (P : Point32) (ki : KeyImage) (ctx ctx' : list byte) (A B z z' : arr 32) :
  sha256_sum (Hashes := h) = sha256_sum (Hashes := h') ->
  VerifyKeyImageProof (H := h) P ki ctx (Build_KeyImageDLEQProof A B z) = Ok () ->
  VerifyKeyImageProof (H := h') P ki ctx' (Build_KeyImageDLEQProof A B z') = Ok () ->
  keyImageDLEQChallenge (H := h) P ki A B ctx <> keyImageDLEQChallenge (H := h') P ki A B ctx' ->
  exists x, P = p_Bytes (ScalarBaseMult x) /\ ComputeKeyImage (H := h) (s_Bytes x) P = Ok ki.
Proof.
  intros Hsha V V' Hc.
  apply (verify_key_image_ok h) in V as (p & i & a & b & s & hp & (Hp & _ & EP) & (Hi & _ & Ei) & (_ & _ & EA) & (_ & _ & EB) & _ & Hhp & Eg & Eh).
  apply (verify_key_image_ok h') in V' as (p' & i' & a' & b' & s' & hp' & (_ & _ & EP') & (_ & _ & Ei') & (_ & _ & EA') & (_ & _ & EB') & _ & Hhp' & Eg' & Eh').
  simpl in *. rewrite EP in EP'. rewrite Ei in Ei'. rewrite EA in EA'. rewrite EB in EB'.
  apply p_Bytes_inj in EP' as <-, Ei' as <-, EA' as <-, EB' as <-.
  unfold hashToCurvePoint in Hhp, Hhp'. rewrite <- (try_increment_sha256 h h') in Hhp' by done.
  rewrite Hhp in Hhp'. injection Hhp' as <-. destruct (try_increment_subgroup _ _ _ _ _ Hhp) as [Hhs _].
  pose proof (extract_secret _ _ _ _ _ _ _ subgroup_base Hp Hc Eg Eg') as Ep.
  pose proof (extract_secret _ _ _ _ _ _ _ Hhs Hi Hc Eh Eh') as Ekey.
  match type of Ep with _ = ?x • _ => exists x; set (sec := x) in * end.
  split; [by rewrite EP, Ep at 1|].
  unfold ComputeKeyImage. rewrite ScalarFromBytes_scalar. simpl. unfold hashToCurvePoint. rewrite Hhp. simpl.
  by rewrite <- Ekey, <- Ei.
Qed.

End KeyImageProof.

(** ** Witnesses, in the concrete group of [Curve] *)

#[local] Existing Instance toy_hashes | 0.
#[local] Existing Instance toy_curve | 0.

Definition ex_blind (n : Z) : BlindFactor := copy_arr 32 (le_encode 32 n).
Definition ex_commit (v n : Z) : Commitment := match Commit v (ex_blind n) with Ok c => c | Err _ => zero_arr 32 end.

Lemma ex_opens (v n : Z) : is_u64b v && is_ok (Commit v (ex_blind n)) = true -> opens (ex_commit v n) (v, ex_blind n).
Proof.
  intros E. apply andb_true_iff in E as [Hv E]. split; [by apply is_u64b_spec|]. simpl. unfold ex_commit.
  by destruct (Commit v (ex_blind n)).
Qed.

Lemma ex_zero_blind : ex_blind 0 = zero_arr 32.
Proof. apply (bool_decide_unpack _). vm_compute. exact I. Qed.

(** Inputs of 70 and 50, one output of 110 and a fee of 10. *)
Lemma commit_sum_balance_witness :
  CommitSum [ex_commit 70 11; ex_commit 50 22] [ex_commit 110 33] (ex_commit 10 0) = Ok true.
Proof.
  apply (commit_sum_balance [ex_commit 70 11; ex_commit 50 22] [ex_commit 110 33]
    [(70, ex_blind 11); (50, ex_blind 22)] [(110, ex_blind 33)] 10 (ex_commit 10 0)).
  - repeat constructor; apply ex_opens; vm_compute; reflexivity.
  - repeat constructor; apply ex_opens; vm_compute; reflexivity.
  - rewrite <- ex_zero_blind. apply ex_opens. vm_compute. reflexivity.
  - vm_compute. reflexivity.
  - vm_compute. reflexivity.
  - vm_compute. reflexivity.
  - vm_compute. reflexivity.
Defined.

Lemma change_output_balances_witness :
  exists b c, BlindSum [ex_blind 11; ex_blind 22] [ex_blind 99] = Ok b /\ Commit 60 b = Ok c
    /\ CommitSum [ex_commit 70 11; ex_commit 50 22] ([ex_commit 50 99] ++ [c]) (ex_commit 10 0) = Ok true.
Proof.
  apply (change_output_balances [ex_commit 70 11; ex_commit 50 22] [ex_commit 50 99]
    [(70, ex_blind 11); (50, ex_blind 22)] [(50, ex_blind 99)] 60 10 (ex_commit 10 0)).
  - repeat constructor; apply ex_opens; vm_compute; reflexivity.
  - repeat constructor; apply ex_opens; vm_compute; reflexivity.
  - rewrite <- ex_zero_blind. apply ex_opens. vm_compute. reflexivity.
  - u64lia.
  - reflexivity.
Defined.

Definition ex_buf : arr 64 := copy_arr 64 (le_encode 64 (7 ^ 150)).
Definition value_proof (h : Hashes) : Commitment * arr 64 :=
  match ProveValueAuthorization (H := h) 500 (ex_blind 77) [ex_buf] with Ok r => r | Err _ => (zero_arr 32, zero_arr 64) end.

Lemma value_authorization_complete_witness :
  VerifyValueAuthorization 500 (fst (value_proof toy_hashes)) (snd (value_proof toy_hashes)) = Ok ().
Proof.
  apply (value_authorization_complete toy_hashes 500 (ex_blind 77) ex_buf [] (fst (value_proof toy_hashes)) (snd (value_proof toy_hashes))).
  - u64lia.
  - change (zv (N := ell) (SetUniformBytes (arr_list ex_buf)) <> 0). vm_compute. discriminate.
  - apply (bool_decide_unpack _). vm_compute. exact I.
Defined.

(** The same nonce answered under two hash functions. *)
Definition other_hashes : Hashes := toy_hashes_from 3.
Definition half (n : nat) (proof : arr 64) : arr 32 := copy_arr 32 (take 32 (drop n (arr_list proof))).
Definition half_scalar (proof : arr 64) : scalar :=
  match ScalarFromBytes (arr_list (half 32 proof)) with Ok z => z | Err _ => s_zero end.
Definition ex_value : Commitment * arr 64 := Eval vm_compute in value_proof toy_hashes.
Definition ex_other_value : Commitment * arr 64 := Eval vm_compute in value_proof other_hashes.

Lemma value_authorization_sound_witness :
  exists r, Commit 500 (s_Bytes r) = Ok (fst ex_value) /\ r <> s_zero.
Proof.
  eexists. split.
  - apply (value_authorization_sound toy_hashes other_hashes 500 (fst ex_value)
      (half 0 (snd ex_value)) (half_scalar (snd ex_value)) (half_scalar (snd ex_other_value))).
    + u64lia.
    + reflexivity.
    + apply (bool_decide_unpack _). vm_compute. exact I.
    + apply (bool_decide_unpack _). vm_compute. exact I.
    + apply (bool_decide_unpack _). vm_compute. exact I.
  - apply (bool_decide_unpack _). vm_compute. exact I.
Defined.

Definition ex_secret : arr 32 := ex_blind 987654321.
Definition ex_pub : Point32 := match scalarMulBase ex_secret with Ok p => p | Err _ => zero_arr 32 end.
Definition ki_proof (h : Hashes) : KeyImage * KeyImageDLEQProof :=
  match ProveKeyImage (H := h) ex_secret ex_pub [x61] [ex_buf] with
  | Ok r => r
  | Err _ => (zero_arr 32, Build_KeyImageDLEQProof (zero_arr 32) (zero_arr 32) (zero_arr 32))
  end.

Lemma key_image_proof_complete_witness :
  VerifyKeyImageProof ex_pub (fst (ki_proof toy_hashes)) [x61] (snd (ki_proof toy_hashes)) = Ok ().
Proof.
  apply (key_image_proof_complete toy_hashes ex_secret ex_pub [x61] [ex_buf]).
  apply (bool_decide_unpack _). vm_compute. exact I.
Defined.

Definition ex_pub_bytes : Point32 := Eval vm_compute in ex_pub.
Definition ex_ki : KeyImage * KeyImageDLEQProof := Eval vm_compute in ki_proof toy_hashes.
Definition ex_other_ki : KeyImage * KeyImageDLEQProof := Eval vm_compute in ki_proof other_hashes.

Lemma key_image_proof_sound_witness :
  exists x, ex_pub_bytes = p_Bytes (ScalarBaseMult x) /\ ComputeKeyImage (s_Bytes x) ex_pub_bytes = Ok (fst ex_ki).
Proof.
  apply (key_image_proof_sound toy_hashes other_hashes ex_pub_bytes (fst ex_ki) [x61] [x61]
    (CommitmentG (snd ex_ki)) (CommitmentHp (snd ex_ki))
    (Response (snd ex_ki)) (Response (snd ex_other_ki))).
  - reflexivity.
  - apply (bool_decide_unpack _). vm_compute. exact I.
  - apply (bool_decide_unpack _). vm_compute. exact I.
  - apply (bool_decide_unpack _). vm_compute. exact I.
Defined.
End Pedersen.
