(* ===== verification/RingSig.v ===== *)
(** Ring signatures: [crypto/ringct.go] (MLSAG, versions 1 and 4) and
    [crypto/clsag.go] (CLSAG).

    The three signers share one loop, which walks the ring from the member after
    the real one and closes it there, and the three verifiers share one loop over
    the whole ring; [walk] and [ring_verify] are these loops, over the step that
    turns a response and a challenge into the next challenge.  A Go array of
    scalar pointers is a list of scalars with zero for the nil pointer; no entry
    is read before it is written.  The signers draw from the tape of [Curve].

    The theorems: what a signer with the right keys produces is accepted, for the
    key image of its key; an accepted key image is the only accepted encoding of
    its prime-order part. *)

From stdpp Require Import base list strings.
From S2P Require Import Prelude Bytes Crypto Curve Pedersen.
Import Curve Pedersen.

Module RingSig.

Section RingSig.
Context `{Hashes} `{Edwards}.

(** ** The loops *)

Definition nextIdx (i : nat) : nat := ((i + 1) mod RingSize)%nat.
Definition at_ (l : list scalar) (i : nat) : scalar := default s_zero (l !! i).
Definition member (ring : list RingMember) (i : nat) : list byte := arr_list (default (zero_arr 32) (ring !! i)).

(** One turn of a signing loop, [for i := 1; i < RingSize; i++]. *)
Definition walk_step {R} (draw : list (arr 64) -> result (R * list (arr 64)))
    (step : nat -> R -> scalar -> result scalar) (realIdx : nat)
    (st : list R * list scalar * list (arr 64)) (i : nat) : result (list R * list scalar * list (arr 64)) :=
  let '(ss, cc, t) := st in
  let idx := ((realIdx + i) mod RingSize)%nat in
  let nextI := ((realIdx + i + 1) mod RingSize)%nat in
  '(s, t') ← draw t;
  c ← step idx s (at_ cc idx);
  Ok (<[idx := s]> ss, <[nextI := c]> cc, t').

Definition walk {R} draw (step : nat -> R -> scalar -> result scalar) (realIdx : nat) st :=
  foldM (walk_step draw step realIdx) st (seq 1 (RingSize - 1)).

(** A verifying loop, [for i := 0; i < RingSize; i++]. *)
Definition ring_verify {R} (decode : nat -> result R) (step : nat -> R -> scalar -> result scalar) (c0 : scalar) : result scalar :=
  foldM (fun c i => s ← decode i; step i s c) c0 (seq 0 RingSize).

Definition duplicate_check (ring : list RingMember) (e : string) : result () :=
  reject negb (bool_decide (NoDup ring)) with e ;; Ok ().

Definition decode_at (l : list (arr 32)) (i : nat) : result scalar :=
  ScalarFromBytes (arr_list (default (zero_arr 32) (l !! i))).

(** ** MLSAG *)

Definition ringL (s c : scalar) (P : point) : point := ScalarBaseMult s ⊕ c • P.
Definition ringR (s c : scalar) (Hp I : point) : point := s • Hp ⊕ c • I.

Definition wide (data : list byte) : scalar := SetUniformBytes (arr_list (sha512_sum data)).

Definition ringChallenge (msg : Hash32) (L R : point) : scalar :=
  wide (bytes_of_string "Aperod/MLSAG/v1" ++ arr_list msg ++ arr_list (p_Bytes L) ++ arr_list (p_Bytes R)).

Definition mlsag_step (msg : Hash32) (ring : list RingMember) (I : point) (i : nat) (s c : scalar) : result scalar :=
  Pi ← PointFromBytes (member ring i);
  let L_i := ringL s c Pi in
  HpI ← hashToCurvePoint (member ring i);
  let R_i := ringR s c HpI I in
  Ok (ringChallenge msg L_i R_i).

Definition MLSAGSign (message : Hash32) (ring : list RingMember) (realIdx : Z) (privKey : arr 32) (t : list (arr 64))
  : result (MLSAGSignature * list (arr 64)) :=
  reject negb (bool_decide (length ring = RingSize)) with "ring size must be 16" ;;
  reject (realIdx <? 0) || (16 <=? realIdx) with "realIdx out of range" ;;
  _ ← duplicate_check ring "ring member is a duplicate";
  let r := Z.to_nat realIdx in
  x ← errorf "private key" (ScalarFromBytes (arr_list privKey));
  ki ← errorf "key image" (ComputeKeyImage privKey (default (zero_arr 32) (ring !! r)));
  I ← errorf "key image point" (PointFromBytes (arr_list ki));
  '(alpha, t1) ← errorf "random alpha" (randomScalar t);
  let L_real := ScalarBaseMult alpha in
  HpReal ← hashToCurvePoint (member ring r);
  let R_real := alpha • HpReal in
  let cc := <[nextIdx r := ringChallenge message L_real R_real]> (replicate (RingSize + 1) s_zero) in
  '(ss, cc', t2) ← walk randomScalar (mlsag_step message ring I) r (replicate RingSize s_zero, cc, t1);
  let cx := s_mul (at_ cc' r) x in
  let ss' := <[r := s_sub alpha cx]> ss in
  Ok ({| C0 := s_Bytes (at_ cc' 0); SS := s_Bytes <$> ss'; MLSAGKeyImage := ki;
         BlindSS := []; ValueSS := []; LinkR := zero_arr 32; LinkS := zero_arr 32 |}, t2).

(** The key image of a signature: decoded and of prime order. *)
Definition checked_image (ki : KeyImage) : result point :=
  I ← errorf "key image" (PointFromBytes (arr_list ki));
  canonicalKI ← errorf "key image subgroup check" (CanonicalKeyImage ki);
  reject bool_decide (canonicalKI <> ki) with "key image is not in the prime-order subgroup" ;;
  Ok I.

Definition MLSAGVerify (message : Hash32) (ring : list RingMember) (osig : option MLSAGSignature) : result bool :=
  need sig from osig else "nil signature" ;;
  reject negb (bool_decide (length ring = RingSize)) || negb (bool_decide (length (SS sig) = RingSize)) with "ring size mismatch" ;;
  _ ← duplicate_check ring "ring member is a duplicate";
  I ← checked_image (MLSAGKeyImage sig);
  c0 ← errorf "c0" (ScalarFromBytes (arr_list (C0 sig)));
  c ← ring_verify (decode_at (SS sig)) (mlsag_step message ring I) c0;
  Ok (bool_decide (s_Bytes c0 = s_Bytes c)).

(** ** MLSAG version 4: the commitment opening and the link to the real member *)

Definition validateRingForV4 (ring : list RingMember) (realIdx : Z) : result () :=
  reject negb (bool_decide (length ring = RingSize)) with "ring size must be 16" ;;
  reject (realIdx <? 0) || (16 <=? realIdx) with "realIdx out of range" ;;
  duplicate_check ring "ring member is a duplicate".

Definition ringCommitmentQ (sr sv c : scalar) (commitment : point) : point :=
  ScalarBaseMult sr ⊕ sv • hGenerator ⊕ c • commitment.

Definition ringChallengeV4 (msg : Hash32) (index : nat) (l r q : point) : scalar :=
  wide (bytes_of_string "Aperod/MLSAG/v4/commitment-binding" ++ arr_list msg ++ le_encode 4 (Z.of_nat index)
    ++ arr_list (p_Bytes l) ++ arr_list (p_Bytes r) ++ arr_list (p_Bytes q)).

Definition ringLinkChallenge (msg : Hash32) (index : nat) (pub : list byte) (commitment : Commitment)
    (keyImage : KeyImage) (linkR : point) : scalar :=
  wide (bytes_of_string "Aperod/RingCT/v4/real-input-link" ++ arr_list msg ++ le_encode 4 (Z.of_nat index)
    ++ pub ++ arr_list commitment ++ arr_list keyImage ++ arr_list (p_Bytes linkR)).

Definition amountCommitForV4 (r v : scalar) : Commitment := p_Bytes (ScalarBaseMult r ⊕ v • hGenerator).

Definition draw3 (t : list (arr 64)) : result (scalar * scalar * scalar * list (arr 64)) :=
  '(a, t1) ← randomScalar t; '(b, t2) ← randomScalar t1; '(c, t3) ← randomScalar t2; Ok (a, b, c, t3).

Definition v4_step (msg : Hash32) (ring : list RingMember) (I claimed : point) (i : nat) (s : scalar * scalar * scalar) (c : scalar)
  : result scalar :=
  let '(sx, sr, sv) := s in
  pi ← PointFromBytes (member ring i);
  let l := ringL sx c pi in
  hp ← hashToCurvePoint (member ring i);
  let ri := ringR sx c hp I in
  let qi := ringCommitmentQ sr sv c claimed in
  Ok (ringChallengeV4 msg i l ri qi).

Definition MLSAGSignV4 (message : Hash32) (ring : list RingMember) (realIdx : Z) (privKey : arr 32) (blind : BlindFactor)
    (value : Z) (t : list (arr 64)) : result (MLSAGSignature * list (arr 64)) :=
  _ ← validateRingForV4 ring realIdx;
  let n := Z.to_nat realIdx in
  x ← errorf "private key" (ScalarFromBytes (arr_list privKey));
  r ← errorf "blinding factor" (ScalarFromBytes (arr_list blind));
  let v := scalarFromUint64 value in
  let amountCommit := amountCommitForV4 r v in
  claimed ← errorf "amount commitment" (PointFromBytes (arr_list amountCommit));
  ki ← errorf "key image" (ComputeKeyImage privKey (default (zero_arr 32) (ring !! n)));
  I ← errorf "key image point" (PointFromBytes (arr_list ki));
  '(alphaX, alphaR, alphaV, t1) ← errorf "random alpha" (draw3 t);
  let lReal := ScalarBaseMult alphaX in
  hpReal ← hashToCurvePoint (member ring n);
  let rReal := alphaX • hpReal in
  let qReal := ScalarBaseMult alphaR ⊕ alphaV • hGenerator in
  let cc := <[nextIdx n := ringChallengeV4 message n lReal rReal qReal]> (replicate (RingSize + 1) s_zero) in
  '(ss, cc', t2) ← walk draw3 (v4_step message ring I claimed) n (replicate RingSize (s_zero, s_zero, s_zero), cc, t1);
  let c := at_ cc' n in
  let ss' := <[n := (s_sub alphaX (s_mul c x), s_sub alphaR (s_mul c r), s_sub alphaV (s_mul c v))]> ss in
  '(linkAlpha, t3) ← errorf "random link alpha" (randomScalar t2);
  let linkR := ScalarBaseMult linkAlpha in
  let linkC := ringLinkChallenge message n (member ring n) amountCommit ki linkR in
  let linkS := s_sub linkAlpha (s_mul linkC x) in
  Ok ({| C0 := s_Bytes (at_ cc' 0); SS := (fun s => s_Bytes s.1.1) <$> ss'; MLSAGKeyImage := ki;
         BlindSS := (fun s => s_Bytes s.1.2) <$> ss'; ValueSS := (fun s => s_Bytes s.2) <$> ss';
         LinkR := p_Bytes linkR; LinkS := s_Bytes linkS |}, t3).

Definition v4_decode (sig : MLSAGSignature) (i : nat) : result (scalar * scalar * scalar) :=
  sx ← decode_at (SS sig) i; sr ← decode_at (BlindSS sig) i; sv ← decode_at (ValueSS sig) i; Ok (sx, sr, sv).

(** The Schnorr proof under the real ring member. *)
Definition link_check (message : Hash32) (ring : list RingMember) (amountCommit : Commitment) (n : nat) (sig : MLSAGSignature) : result bool :=
  linkR ← errorf "link R" (PointFromBytes (arr_list (LinkR sig)));
  linkS ← errorf "link S" (ScalarFromBytes (arr_list (LinkS sig)));
  realPub ← errorf "real ring member" (PointFromBytes (member ring n));
  let linkC := ringLinkChallenge message n (member ring n) amountCommit (MLSAGKeyImage sig) linkR in
  let expectedR := ringL linkS linkC realPub in
  Ok (bool_decide (p_Bytes expectedR = p_Bytes linkR)).

Definition MLSAGVerifyV4 (message : Hash32) (ring : list RingMember) (amountCommit : Commitment) (realIdx : Z)
    (osig : option MLSAGSignature) : result bool :=
  need sig from osig else "nil signature" ;;
  reject negb (bool_decide (length (SS sig) = RingSize)) || negb (bool_decide (length (BlindSS sig) = RingSize))
    || negb (bool_decide (length (ValueSS sig) = RingSize)) with "v4 signature response length mismatch" ;;
  _ ← validateRingForV4 ring 0;
  reject (realIdx <? 0) || (16 <=? realIdx) with "realIdx out of range" ;;
  I ← checked_image (MLSAGKeyImage sig);
  c0 ← errorf "c0" (ScalarFromBytes (arr_list (C0 sig)));
  claimed ← errorf "amount commitment" (PointFromBytes (arr_list amountCommit));
  c ← ring_verify (v4_decode sig) (v4_step message ring I claimed) c0;
  if negb (bool_decide (s_Bytes c0 = s_Bytes c)) then Ok false
  else link_check message ring amountCommit (Z.to_nat realIdx) sig.

(** ** CLSAG *)

(** One turn of the loop of [validateCLSAGInputs]. *)
Definition clsag_input (st : list point * list point * list Point32) (kc : Point32 * Commitment)
  : result (list point * list point * list Point32) :=
  let '(keys, commitments, seen) := st in
  let '(key, commitment) := kc in
  reject bool_decide (key ∈ seen) with "ring key is a duplicate" ;;
  k ← checkedCLSAGSubgroupPoint key "ring key" false;
  c ← checkedCLSAGSubgroupPoint commitment "ring commitment" true;
  Ok (keys ++ [k], commitments ++ [c], seen ++ [key]).

Definition validateCLSAGInputs (ringKeys : list Point32) (ringCommitments : list Commitment) (pseudoOut : Commitment) (realIdx : Z)
  : result (list point * list point * point) :=
  reject negb (bool_decide (length ringKeys = RingSize)) || negb (bool_decide (length ringCommitments = RingSize))
    with "CLSAG requires exactly 16 ring keys and commitments" ;;
  reject (realIdx <? 0) || (16 <=? realIdx) with "realIdx out of range" ;;
  '(keys, commitments, _) ← foldM clsag_input ([], [], []) (zip ringKeys ringCommitments);
  pseudo ← checkedCLSAGSubgroupPoint pseudoOut "pseudo output" true;
  Ok (keys, commitments, pseudo).

Definition clsagAggregateW (muP muC : scalar) (keys commitments : list point) (pseudo : point) : list point :=
  zip_with (fun key commitment => muP • key ⊕ muC • p_sub commitment pseudo) keys commitments.

(** The index, [l] and [r] are hashed when the index is not negative. *)
Definition clsagHash (domain : string) (message : Hash32) (keys : list Point32) (commitments : list Commitment)
    (pseudo : Commitment) (image : KeyImage) (d : Point32) (turn : option (nat * point * point)) : scalar :=
  wide (bytes_of_string domain ++ arr_list message
    ++ concat (zip_with (fun k c : Point32 => arr_list k ++ arr_list c) keys commitments)
    ++ arr_list pseudo ++ arr_list image ++ arr_list d
    ++ match turn with
       | Some (index, l, r) => le_encode 4 (Z.of_nat index) ++ arr_list (p_Bytes l) ++ arr_list (p_Bytes r)
       | None => []
       end).

Definition clsagMus (message : Hash32) (keys : list Point32) (commitments : list Commitment) (pseudo : Commitment)
    (image : KeyImage) (d : Point32) : scalar * scalar :=
  (clsagHash "Aperod/CLSAG/v1/muP" message keys commitments pseudo image d None,
   clsagHash "Aperod/CLSAG/v1/muC" message keys commitments pseudo image d None).

Definition clsagChallenge (message : Hash32) (keys : list Point32) (commitments : list Commitment) (pseudo : Commitment)
    (image : KeyImage) (d : Point32) (index : nat) (l r : point) : scalar :=
  clsagHash "Aperod/CLSAG/v1/challenge" message keys commitments pseudo image d (Some (index, l, r)).

Definition clsag_step (message : Hash32) (ringKeys : list Point32) (ringCommitments : list Commitment) (pseudoOut : Commitment)
    (ki : KeyImage) (d : Point32) (w : list point) (J : point) (i : nat) (s c : scalar) : result scalar :=
  let l := ringL s c (default identity (w !! i)) in
  hp ← hashToCurvePoint (member ringKeys i);
  let r := ringR s c hp J in
  Ok (clsagChallenge message ringKeys ringCommitments pseudoOut ki d i l r).

Definition CLSAGSign (message : Hash32) (ringKeys : list Point32) (ringCommitments : list Commitment) (pseudoOut : Commitment)
    (realIdx : Z) (privateKey : arr 32) (inputBlind pseudoBlind : BlindFactor) (t : list (arr 64))
  : result (CLSAGSignature * list (arr 64)) :=
  '(keys, commitments, pseudo) ← validateCLSAGInputs ringKeys ringCommitments pseudoOut realIdx;
  let n := Z.to_nat realIdx in
  x ← errorf "private key" (ScalarFromBytes (arr_list privateKey));
  inBlind ← errorf "input blind" (ScalarFromBytes (arr_list inputBlind));
  outBlind ← errorf "pseudo blind" (ScalarFromBytes (arr_list pseudoBlind));
  reject bool_decide (ScalarBaseMult x <> default identity (keys !! n)) with "private key does not match ring key" ;;
  let z := s_sub inBlind outBlind in
  let expectedDiff := ScalarBaseMult z in
  let actualDiff := p_sub (default identity (commitments !! n)) pseudo in
  reject bool_decide (expectedDiff <> actualDiff)
    with "real commitment is not consistent with input and pseudo blinding factors" ;;
  ki ← errorf "key image" (ComputeKeyImage privateKey (default (zero_arr 32) (ringKeys !! n)));
  I ← checkedCLSAGPrimePoint ki "key image";
  hpReal ← hashToCurvePoint (member ringKeys n);
  let D := z • hpReal in
  let dBytes := p_Bytes D in
  _ ← checkedCLSAGDPoint dBytes;
  let '(muP, muC) := clsagMus message ringKeys ringCommitments pseudoOut ki dBytes in
  let witness := MultiplyAdd muC z (s_mul muP x) in
  let w := clsagAggregateW muP muC keys commitments pseudo in
  let J := muP • I ⊕ muC • D in
  '(alpha, t1) ← errorf "random alpha" (randomScalar t);
  let l := ScalarBaseMult alpha in
  let r := alpha • hpReal in
  let cc := <[nextIdx n := clsagChallenge message ringKeys ringCommitments pseudoOut ki dBytes n l r]> (replicate (RingSize + 1) s_zero) in
  '(ss, cc', t2) ← walk randomScalar (clsag_step message ringKeys ringCommitments pseudoOut ki dBytes w J) n
                     (replicate RingSize s_zero, cc, t1);
  let ss' := <[n := s_sub alpha (s_mul (at_ cc' n) witness)]> ss in
  Ok ({| C1 := s_Bytes (at_ cc' 0); S_ := s_Bytes <$> ss'; CLSAGKeyImage := ki; D_ := dBytes |}, t2).

Definition CLSAGVerify (message : Hash32) (ringKeys : list Point32) (ringCommitments : list Commitment) (pseudoOut : Commitment)
    (osig : option CLSAGSignature) : result bool :=
  need sig from osig else "nil signature" ;;
  reject negb (bool_decide (length (S_ sig) = RingSize)) with "CLSAG response length must be 16" ;;
  '(keys, commitments, pseudo) ← validateCLSAGInputs ringKeys ringCommitments pseudoOut 0;
  I ← checkedCLSAGPrimePoint (CLSAGKeyImage sig) "key image";
  D ← checkedCLSAGDPoint (D_ sig);
  c0 ← errorf "C1" (ScalarFromBytes (arr_list (C1 sig)));
  let '(muP, muC) := clsagMus message ringKeys ringCommitments pseudoOut (CLSAGKeyImage sig) (D_ sig) in
  let w := clsagAggregateW muP muC keys commitments pseudo in
  let J := muP • I ⊕ muC • D in
  c ← ring_verify (decode_at (S_ sig))
        (clsag_step message ringKeys ringCommitments pseudoOut (CLSAGKeyImage sig) (D_ sig) w J) c0;
  Ok (bool_decide (s_Bytes c0 = s_Bytes c)).

End RingSig.

(** ** The loops close the ring *)

Section Loops.
Context `{EdwardsLaws}.

Lemma foldM_seq_inv {S} (f : S -> nat -> result S) (P : nat -> S -> Prop) (a n : nat) (s s' : S) :
  (forall k s s', (k < n)%nat -> P k s -> f s (a + k)%nat = Ok s' -> P (1 + k)%nat s') ->
  P O s -> foldM f s (seq a n) = Ok s' -> P n s'.
Proof.
  intros Hstep H0'. revert s'. induction n as [|n IH]; intros s' E.
  - by injection E as <-.
  - rewrite seq_S, foldM_app in E. apply bind_ok in E as (s1 & E1 & E). simpl in E.
    apply bind_ok in E as (s2 & E2 & E). injection E as <-.
    apply (Hstep n s1); [lia| |done]. apply IH; [|done]. intros k u u' Hk. apply Hstep. lia.
Qed.

Lemma foldM_seq_total {S} (f : S -> nat -> result S) (P : nat -> S -> Prop) (a n : nat) (s : S) :
  (forall k s, (k < n)%nat -> P k s -> exists s', f s (a + k)%nat = Ok s' /\ P (1 + k)%nat s') ->
  P O s -> exists s', foldM f s (seq a n) = Ok s' /\ P n s'.
Proof.
  intros Hstep H0'. induction n as [|n IH]; [by exists s|].
  destruct IH as (s1 & E1 & H1'). { intros k u Hk. apply Hstep. lia. }
  destruct (Hstep n s1) as (s2 & E2 & H2'); [lia|done|]. exists s2. split; [|done].
  rewrite seq_S, foldM_app, E1. simpl. by rewrite E2.
Qed.

Lemma at_insert_ne (l : list scalar) (i j : nat) (s : scalar) : i <> j -> at_ (<[j := s]> l) i = at_ l i.
Proof. intros Hne. unfold at_. by rewrite list_lookup_insert_ne. Qed.

Lemma at_insert_eq (l : list scalar) (i : nat) (s : scalar) : (i < length l)%nat -> at_ (<[i := s]> l) i = s.
Proof. intros Hl. unfold at_. by rewrite list_lookup_insert_eq. Qed.

(** The index arithmetic of the loops. *)
Definition turn (r i : nat) : nat := ((r + i) mod RingSize)%nat.

Lemma turn_lt (r i : nat) : (turn r i < RingSize)%nat.
Proof. apply Nat.mod_upper_bound. unfold RingSize. lia. Qed.

Lemma turn_spec (r i : nat) : (r < RingSize)%nat -> (i <= RingSize)%nat ->
  turn r i = if decide (r + i < 16)%nat then (r + i)%nat else (r + i - 16)%nat.
Proof.
  unfold turn, RingSize. intros Hr Hi. destruct (decide _); [by apply Nat.mod_small|].
  replace (r + i)%nat with ((r + i - 16) + 1 * 16)%nat at 1 by lia. rewrite Nat.Div0.mod_add. apply Nat.mod_small. lia.
Qed.

(** Decide a statement on turns by cases on the wrap-around. *)
Ltac turns := rewrite ?turn_spec in * by (unfold RingSize in *; lia);
  unfold RingSize in *; repeat case_decide; lia.

Lemma turn_inj (r i j : nat) : (r < RingSize)%nat -> (i < RingSize)%nat -> (j < RingSize)%nat -> turn r i = turn r j -> i = j.
Proof. intros Hr Hi Hj E. turns. Qed.

Lemma turn_surj (r k : nat) : (r < RingSize)%nat -> (k < RingSize)%nat -> exists i, (i < RingSize)%nat /\ turn r i = k.
Proof.
  intros Hr Hk. destruct (decide (r <= k)%nat); [exists (k - r)%nat|exists (16 + k - r)%nat];
    (split; [unfold RingSize in *; lia|]); turns.
Qed.

Lemma nextIdx_spec (i : nat) : (i < RingSize)%nat -> nextIdx i = turn i 1.
Proof. done. Qed.

Lemma turn_next (r i : nat) : (r < RingSize)%nat -> (i < RingSize)%nat -> turn r (S i) = nextIdx (turn r i).
Proof. intros Hr Hi. pose proof (turn_lt r i). rewrite nextIdx_spec, (turn_spec (turn r i) 1) by (done || unfold RingSize; lia). turns. Qed.

Lemma turn_0 (r : nat) : (r < RingSize)%nat -> turn r 0 = r.
Proof. intros Hr. turns. Qed.

Lemma turn_full (r : nat) : (r < RingSize)%nat -> turn r RingSize = r.
Proof. intros Hr. rewrite turn_spec by (done || unfold RingSize; lia). turns. Qed.

Section Walk.
Context {R : Type} (draw : list (arr 64) -> result (R * list (arr 64))) (step : nat -> R -> scalar -> result scalar).
Variable r : nat.
Hypothesis Hr : (r < RingSize)%nat.

(** What the signing loop leaves behind after [k] turns. *)
Definition walked (c1 : scalar) (k : nat) (st : list R * list scalar * list (arr 64)) : Prop :=
  let '(ss, cc, _) := st in
  length ss = RingSize /\ length cc = (RingSize + 1)%nat /\ at_ cc (turn r 1) = c1
  /\ forall j, (1 <= j <= k)%nat ->
       exists s, ss !! turn r j = Some s /\ step (turn r j) s (at_ cc (turn r j)) = Ok (at_ cc (turn r (S j))).

Lemma walk_step_walked (c1 : scalar) (k : nat) st st' :
  (k < RingSize - 1)%nat -> walked c1 k st -> walk_step draw step r st (1 + k) = Ok st' -> walked c1 (1 + k) st'.
Proof.
  destruct st as [[ss cc] t], st' as [[ss' cc'] t']. intros Hk (Hls & Hlc & H1' & Hall) E. unfold walk_step in E.
  change ((r + (1 + k)) mod RingSize)%nat with (turn r (S k)) in E.
  replace ((r + (1 + k) + 1) mod RingSize)%nat with (turn r (S (S k))) in E by (unfold turn; f_equal; lia).
  apply bind_ok in E as ([s t1] & _ & E). apply bind_ok in E as (c & Hc & E). injection E as <- <- <-.
  unfold RingSize in Hk. pose proof (turn_lt r (S k)). pose proof (turn_lt r (S (S k))).
  assert (Hsep : forall j, (1 <= j <= S k)%nat -> turn r j <> turn r (S (S k))).
  { intros j Hj E. turns. }
  split; [by rewrite length_insert|]. split; [by rewrite length_insert|]. split.
  - rewrite at_insert_ne; [done|]. apply Hsep. lia.
  - intros j Hj. destruct (decide (j = S k)) as [->|Hne].
    + exists s. rewrite list_lookup_insert_eq by lia. split; [done|].
      rewrite at_insert_ne by (apply Hsep; lia). by rewrite at_insert_eq by lia.
    + destruct (Hall j ltac:(lia)) as (s' & Hs' & Hst). exists s'. split.
      * rewrite list_lookup_insert_ne; [done|]. intros E. turns.
      * rewrite (at_insert_ne _ (turn r j)) by (apply Hsep; lia).
        rewrite (at_insert_ne _ (turn r (S j))) by (apply Hsep; lia). done.
Qed.

Lemma walk_walked (c1 : scalar) (cc : list scalar) (ss : list R) (t : list (arr 64)) st' :
  length ss = RingSize -> length cc = (RingSize + 1)%nat -> at_ cc (turn r 1) = c1 ->
  walk draw step r (ss, cc, t) = Ok st' -> walked c1 (RingSize - 1) st'.
Proof.
  intros Hls Hlc H1' E. unfold walk in E. eapply (foldM_seq_inv _ (walked c1)); [| |exact E].
  - intros k st st'' Hk Hw. by apply walk_step_walked.
  - split; [done|]. split; [done|]. split; [done|]. intros j Hj. lia.
Qed.

(** Closing the ring with a response of the real member makes every turn a step. *)
Lemma walk_closes (c1 : scalar) (ss : list R) (cc : list scalar) (t : list (arr 64)) (s : R) :
  walked c1 (RingSize - 1) (ss, cc, t) -> step r s (at_ cc r) = Ok c1 ->
  length (<[r := s]> ss) = RingSize
  /\ forall i, (i < RingSize)%nat ->
     exists si, <[r := s]> ss !! i = Some si /\ step i si (at_ cc i) = Ok (at_ cc (nextIdx i)).
Proof.
  intros (Hls & Hlc & H1' & Hall) Hs. split; [by rewrite length_insert|]. intros i Hi.
  destruct (turn_surj r i Hr Hi) as (j & Hj & <-). destruct j as [|j].
  - rewrite turn_0 in * by done. exists s. rewrite list_lookup_insert_eq by lia. split; [done|].
    by rewrite Hs, <- H1'.
  - destruct (Hall (S j)) as (si & Hsi & Est); [unfold RingSize in *; lia|]. exists si. rewrite <- turn_next by (done || unfold RingSize in *; lia). split; [|done].
    rewrite list_lookup_insert_ne; [done|]. intros E. turns.
Qed.

End Walk.

(** The verifier follows the challenges of a closed ring back to the first. *)
Lemma ring_verify_closed {R} (decode : nat -> result R) (step : nat -> R -> scalar -> result scalar) (cc : list scalar) :
  (forall i, (i < RingSize)%nat -> exists s, decode i = Ok s /\ step i s (at_ cc i) = Ok (at_ cc (nextIdx i))) ->
  ring_verify decode step (at_ cc 0) = Ok (at_ cc 0).
Proof.
  intros Hall. unfold ring_verify.
  destruct (foldM_seq_total (fun c i => s ← decode i; step i s c)
    (fun k c => c = at_ cc (k mod RingSize)%nat) 0 RingSize (at_ cc 0)) as (c & -> & ->); [|done|done].
  intros k c Hk ->. rewrite Nat.mod_small by done. destruct (Hall k Hk) as (s & Hs & Hst).
  exists (at_ cc (nextIdx k)). simpl. rewrite Hs. simpl. rewrite Hst. split; [done|].
  unfold nextIdx. by rewrite Nat.add_comm.
Qed.

End Loops.

(** ** Completeness *)

(** Reduce the plumbing of results and nothing else. *)
Ltac run := cbn [mbind result_bind errorf negb orb from_option id randomScalar].

Section Complete.
Context `{Hashes} `{EdwardsLaws}.

Lemma walk_total {R} (draw : list (arr 64) -> result (R * list (arr 64))) (step : nat -> R -> scalar -> result scalar)
    (d r : nat) (ss : list R) (cc : list scalar) (t : list (arr 64)) :
  (forall t, (d <= length t)%nat -> exists s, draw t = Ok (s, drop d t)) ->
  (forall i s c, (i < RingSize)%nat -> exists c', step i s c = Ok c') ->
  ((RingSize - 1) * d <= length t)%nat ->
  exists ss' cc', walk draw step r (ss, cc, t) = Ok (ss', cc', drop ((RingSize - 1) * d) t).
Proof.
  intros Hdraw Hstep Hl. unfold walk.
  destruct (foldM_seq_total (walk_step draw step r) (fun k st => snd st = drop (k * d) t) 1 (RingSize - 1) (ss, cc, t))
    as ([[ss' cc'] t'] & E & Ht); [|done|simpl in Ht; subst t'; eauto].
  intros k [[s1 c1] t1] Hk Ht. simpl in Ht. subst t1. unfold walk_step.
  destruct (Hdraw (drop (k * d) t)) as (s & Hs). { rewrite length_drop. unfold RingSize in *. nia. }
  rewrite Hs. cbn [mbind result_bind].
  destruct (Hstep ((r + (1 + k)) mod RingSize)%nat s (at_ c1 ((r + (1 + k)) mod RingSize)%nat)) as (c' & Hc).
  { apply Nat.mod_upper_bound. unfold RingSize. lia. }
  rewrite Hc. eexists. split; [reflexivity|]. cbn [snd]. by rewrite drop_drop, Nat.add_comm.
Qed.

Lemma randomScalar_draw (t : list (arr 64)) : (1 <= length t)%nat -> exists s, randomScalar t = Ok (s, drop 1 t).
Proof. destruct t as [|b t]; simpl; [lia|eauto]. Qed.

Lemma draw3_draw (t : list (arr 64)) : (3 <= length t)%nat -> exists s, draw3 t = Ok (s, drop 3 t).
Proof. destruct t as [|a [|b [|c t]]]; simpl; try lia. intros _. eexists (_, _, _). done. Qed.

Lemma draw3_cons (a b c : arr 64) (t : list (arr 64)) :
  draw3 (a :: b :: c :: t)
  = Ok (SetUniformBytes (arr_list a), SetUniformBytes (arr_list b), SetUniformBytes (arr_list c), t).
Proof. done. Qed.

(** A response that subtracts the challenge times the secret. *)
Lemma close_mult (a c x : scalar) (p q : point) : subgroup p -> q = x • p -> s_sub a (s_mul c x) • p ⊕ c • q = a • p.
Proof.
  intros Hp ->. rewrite !scalar_mult, <- zsmul_mul, <- zsmul_add. apply zsmul_cong; [done|].
  rewrite sval_sub, sval_mul. by replace (sval a - sval c * sval x + sval c * sval x) with (sval a) by lia.
Qed.

Lemma checked_image_ok (ki : KeyImage) (I : point) :
  checked_image ki = Ok I <-> subgroup I /\ I <> identity /\ ki = p_Bytes I.
Proof.
  unfold checked_image. rewrite bind_ok. split.
  - intros (p & Hp & E). apply bind_ok in E as (c & Hc & E). apply reject_ok in E as [E1 E]. injection E as <-.
    apply errorf_ok in Hp, Hc. zbool. destruct (decide (c = ki)) as [->|]; [|done].
    apply canonical_fixed in Hc as (q & Hq & Hne & ->). rewrite PointFromBytes_point in Hp. by injection Hp as <-.
  - intros (HI & Hne & ->). exists I. rewrite errorf_ok, PointFromBytes_point. split; [done|].
    apply bind_ok. exists (p_Bytes I). rewrite errorf_ok. split; [apply canonical_fixed; eauto|].
    by rewrite bool_decide_eq_false_2 by (intros []; done).
Qed.

(** The signing loop run to its end and closed: every turn of the verifier is a step. *)
Lemma ring_closes {R} (draw : list (arr 64) -> result (R * list (arr 64))) (step : nat -> R -> scalar -> result scalar)
    (d r : nat) (z : R) (c1 : scalar) (close : scalar -> R) (t : list (arr 64)) :
  (r < RingSize)%nat ->
  (forall t, (d <= length t)%nat -> exists s, draw t = Ok (s, drop d t)) ->
  (forall i s c, (i < RingSize)%nat -> exists c', step i s c = Ok c') ->
  (forall c, step r (close c) c = Ok c1) ->
  ((RingSize - 1) * d <= length t)%nat ->
  exists ss cc,
    walk draw step r (replicate RingSize z, <[nextIdx r := c1]> (replicate (RingSize + 1) s_zero), t)
      = Ok (ss, cc, drop ((RingSize - 1) * d) t)
    /\ length (<[r := close (at_ cc r)]> ss) = RingSize
    /\ forall i, (i < RingSize)%nat ->
       exists si, <[r := close (at_ cc r)]> ss !! i = Some si /\ step i si (at_ cc i) = Ok (at_ cc (nextIdx i)).
Proof.
  intros Hr Hdraw Hstep Hclose Hl.
  destruct (walk_total draw step d r (replicate RingSize z) (<[nextIdx r := c1]> (replicate (RingSize + 1) s_zero)) t)
    as (ss & cc & Hw); [done|done|done|]. exists ss, cc. split; [done|].
  apply (walk_closes step r Hr c1 ss cc (drop ((RingSize - 1) * d) t)); [|apply Hclose].
  eapply (walk_walked draw step r Hr c1); [apply length_replicate| | |exact Hw].
  - by rewrite length_insert, length_replicate.
  - rewrite <- nextIdx_spec by done. apply at_insert_eq. rewrite length_replicate.
    pose proof (turn_lt r 1). unfold nextIdx, turn in *. lia.
Qed.

(** The members of a ring decode, hash to the curve and are distinct. *)
Definition good_ring (ring : list RingMember) : Prop :=
  length ring = RingSize /\ NoDup ring
  /\ Forall (fun m : RingMember => exists p hp, PointFromBytes (arr_list m) = Ok p /\ hashToCurvePoint (arr_list m) = Ok hp) ring.

Lemma good_member (ring : list RingMember) (i : nat) : good_ring ring -> (i < RingSize)%nat ->
  exists p hp, PointFromBytes (member ring i) = Ok p /\ hashToCurvePoint (member ring i) = Ok hp.
Proof.
  intros (Hl & _ & Hall) Hi. unfold member.
  destruct (ring !! i) as [m|] eqn:E; [|apply lookup_ge_None in E; lia].
  by apply (Forall_lookup_1 _ _ _ _ Hall E).
Qed.

Lemma mlsag_step_total (msg : Hash32) (ring : list RingMember) (I : point) (i : nat) (s c : scalar) :
  good_ring ring -> (i < RingSize)%nat -> exists c', mlsag_step msg ring I i s c = Ok c'.
Proof.
  intros Hg Hi. destruct (good_member ring i Hg Hi) as (p & hp & Hp & Hhp). unfold mlsag_step.
  rewrite Hp. simpl. rewrite Hhp. simpl. eauto.
Qed.

Lemma decode_at_fmap (l : list scalar) (i : nat) (s : scalar) : l !! i = Some s -> decode_at (s_Bytes <$> l) i = Ok s.
Proof. intros E. unfold decode_at. rewrite list_lookup_fmap, E. simpl. apply ScalarFromBytes_scalar. Qed.

Lemma real_in_range (realIdx : Z) : 0 <= realIdx < 16 -> (realIdx <? 0) || (16 <=? realIdx) = false /\ (Z.to_nat realIdx < RingSize)%nat.
Proof. intros Hr. split; [|unfold RingSize; lia]. apply orb_false_iff. split; [apply Z.ltb_ge|apply Z.leb_gt]; lia. Qed.

(** A signer who holds the key of a ring member gets a signature, and the verifier
    accepts it for the key image of that key. *)
Theorem mlsag_complete (msg : Hash32) (ring : list RingMember) (realIdx : Z) (x : scalar) (t : list (arr 64)) :
  good_ring ring -> 0 <= realIdx < 16 -> sval x <> 0 ->
  ring !! Z.to_nat realIdx = Some (p_Bytes (ScalarBaseMult x)) -> (16 <= length t)%nat ->
  exists sig t', MLSAGSign msg ring realIdx (s_Bytes x) t = Ok (sig, t')
    /\ MLSAGVerify msg ring (Some sig) = Ok true
    /\ ComputeKeyImage (s_Bytes x) (p_Bytes (ScalarBaseMult x)) = Ok (MLSAGKeyImage sig).
Proof.
  intros Hg Hreal Hx HP Ht. destruct (real_in_range _ Hreal) as [Hrange Hr]. set (r := Z.to_nat realIdx) in *.
  pose proof Hg as (Hl & Hnd & _). destruct (good_member ring r Hg Hr) as (P & hp & HPt & Hhp).
  assert (Hm : member ring r = arr_list (p_Bytes (ScalarBaseMult x))) by (unfold member; by rewrite HP).
  rewrite Hm, PointFromBytes_point in HPt. injection HPt as <-.
  destruct (hashToCurvePoint_subgroup _ _ Hhp) as [Hhs Hhne].
  assert (Hki : ComputeKeyImage (s_Bytes x) (p_Bytes (ScalarBaseMult x)) = Ok (p_Bytes (x • hp))).
  { unfold ComputeKeyImage. rewrite ScalarFromBytes_scalar. simpl. rewrite <- Hm, Hhp. done. }
  destruct t as [|buf t1]; [simpl in Ht; lia|]. set (alpha := SetUniformBytes (arr_list buf)).
  set (c1 := ringChallenge msg (ScalarBaseMult alpha) (alpha • hp)).
  set (step := mlsag_step msg ring (x • hp)).
  destruct (ring_closes randomScalar step 1 r s_zero c1 (fun c => s_sub alpha (s_mul c x)) t1)
    as (ss & cc & Hw & Hlen & Hclosed);
    [done|apply randomScalar_draw|intros; by apply mlsag_step_total| |unfold RingSize; simpl in Ht; lia|].
  { intros c. unfold step, mlsag_step. rewrite Hm, PointFromBytes_point. run. rewrite <- Hm, Hhp. run.
    unfold c1, ringL, ringR. f_equal. f_equal; [apply close_mult; [apply subgroup_base|done]|by apply close_mult]. }
  eexists _, _. split; [|split].
  - unfold MLSAGSign, duplicate_check. rewrite Hl, Hrange, !bool_decide_eq_true_2 by done. run.
    rewrite ScalarFromBytes_scalar. run. fold r. rewrite HP. run. rewrite Hki. run.
    rewrite PointFromBytes_point. run. rewrite Hhp. run. fold alpha c1 step. rewrite Hw. reflexivity.
  - unfold MLSAGVerify, duplicate_check. cbn [SS MLSAGKeyImage C0]. fold r alpha.
    rewrite Hl, length_fmap, Hlen, !bool_decide_eq_true_2 by done. simpl.
    assert (Hci : checked_image (p_Bytes (x • hp)) = Ok (x • hp)).
    { apply checked_image_ok. split; [auto with aperod|]. split; [by apply smult_nonzero|done]. }
    rewrite Hci. simpl. rewrite ScalarFromBytes_scalar. simpl. fold step.
    rewrite (ring_verify_closed _ step cc); [simpl; by rewrite bool_decide_eq_true_2|].
    intros i Hi. destruct (Hclosed i Hi) as (si & Hsi & Hst). exists si. split; [by apply decode_at_fmap|done].
  - done.
Qed.

(** *** Version 4 *)

Lemma v4_step_total (msg : Hash32) (ring : list RingMember) (I q : point) (i : nat) (s : scalar * scalar * scalar) (c : scalar) :
  good_ring ring -> (i < RingSize)%nat -> exists c', v4_step msg ring I q i s c = Ok c'.
Proof.
  intros Hg Hi. destruct (good_member ring i Hg Hi) as (p & hp & Hp & Hhp). destruct s as [[sx sr] sv].
  unfold v4_step. rewrite Hp. run. rewrite Hhp. run. eauto.
Qed.

Lemma v4_decode_fmap (sig : MLSAGSignature) (l : list (scalar * scalar * scalar)) (i : nat) (s : scalar * scalar * scalar) :
  SS sig = (fun s => s_Bytes s.1.1) <$> l -> BlindSS sig = (fun s => s_Bytes s.1.2) <$> l ->
  ValueSS sig = (fun s => s_Bytes s.2) <$> l -> l !! i = Some s -> v4_decode sig i = Ok s.
Proof.
  intros E1 E2 E3 E. unfold v4_decode, decode_at. rewrite E1, E2, E3, !list_lookup_fmap, E. simpl.
  rewrite !ScalarFromBytes_scalar. by destruct s as [[? ?] ?].
Qed.

(** The response to the commitment opening. *)
Lemma close_commitment (ar av c r v : scalar) :
  ringCommitmentQ (s_sub ar (s_mul c r)) (s_sub av (s_mul c v)) c (ScalarBaseMult r ⊕ v • hGenerator)
  = ScalarBaseMult ar ⊕ av • hGenerator.
Proof.
  unfold ringCommitmentQ. rewrite (scalar_mult c), zsmul_point_add, <- !(scalar_mult c), add_swap.
  f_equal; apply close_mult; auto with aperod.
Qed.

(** For version 4 the signature also opens the amount commitment and is bound to
    the real member: signing succeeds, and the verifier accepts the signature for
    the commitment to the value, the real index and the key image of the key. *)
Theorem mlsag_v4_complete (msg : Hash32) (ring : list RingMember) (realIdx : Z) (x r : scalar) (value : Z) (t : list (arr 64)) :
  good_ring ring -> 0 <= realIdx < 16 -> sval x <> 0 -> is_u64 value ->
  ring !! Z.to_nat realIdx = Some (p_Bytes (ScalarBaseMult x)) -> (49 <= length t)%nat ->
  exists sig t' C, MLSAGSignV4 msg ring realIdx (s_Bytes x) (s_Bytes r) value t = Ok (sig, t')
    /\ Commit value (s_Bytes r) = Ok C
    /\ MLSAGVerifyV4 msg ring C realIdx (Some sig) = Ok true
    /\ ComputeKeyImage (s_Bytes x) (p_Bytes (ScalarBaseMult x)) = Ok (MLSAGKeyImage sig).
Proof.
  intros Hg Hreal Hx Hu HP Ht. destruct (real_in_range _ Hreal) as [Hrange Hr]. set (n := Z.to_nat realIdx) in *.
  pose proof Hg as (Hl & Hnd & _). destruct (good_member ring n Hg Hr) as (P & hp & HPt & Hhp).
  assert (Hm : member ring n = arr_list (p_Bytes (ScalarBaseMult x))) by (unfold member; by rewrite HP).
  rewrite Hm, PointFromBytes_point in HPt. injection HPt as <-.
  destruct (hashToCurvePoint_subgroup _ _ Hhp) as [Hhs Hhne].
  assert (Hki : ComputeKeyImage (s_Bytes x) (p_Bytes (ScalarBaseMult x)) = Ok (p_Bytes (x • hp))).
  { unfold ComputeKeyImage. rewrite ScalarFromBytes_scalar. run. rewrite <- Hm, Hhp. done. }
  destruct t as [|b1 [|b2 [|b3 t1]]]; [simpl in Ht; lia..|].
  set (ax := SetUniformBytes (arr_list b1)). set (ar := SetUniformBytes (arr_list b2)). set (av := SetUniformBytes (arr_list b3)).
  set (v := scalarFromUint64 value). set (C := ScalarBaseMult r ⊕ v • hGenerator).
  set (c1 := ringChallengeV4 msg n (ScalarBaseMult ax) (ax • hp) (ScalarBaseMult ar ⊕ av • hGenerator)).
  set (step := v4_step msg ring (x • hp) C).
  destruct (ring_closes draw3 step 3 n (s_zero, s_zero, s_zero) c1
      (fun c => (s_sub ax (s_mul c x), s_sub ar (s_mul c r), s_sub av (s_mul c v))) t1)
    as (ss & cc & Hw & Hlen & Hclosed);
    [done|apply draw3_draw|intros; by apply v4_step_total| |unfold RingSize; simpl in Ht; lia|].
  { intros c. unfold step, v4_step. rewrite Hm, PointFromBytes_point. run. rewrite <- Hm, Hhp. run.
    unfold c1, ringL, ringR, C. f_equal.
    f_equal; [apply close_mult; [apply subgroup_base|done]|by apply close_mult|apply close_commitment]. }
  destruct (randomScalar_draw (drop ((RingSize - 1) * 3) t1)) as (la & Hla).
  { rewrite length_drop. unfold RingSize. simpl in Ht. lia. }
  eexists _, _, (p_Bytes C). split; [|split; [|split]].
  - unfold MLSAGSignV4, validateRingForV4, duplicate_check. rewrite Hl, Hrange, !bool_decide_eq_true_2 by done. run.
    rewrite !ScalarFromBytes_scalar. run. fold v. unfold amountCommitForV4. fold C. rewrite PointFromBytes_point. run.
    fold n. rewrite HP. run. rewrite Hki. run. rewrite PointFromBytes_point. rewrite draw3_cons. run. rewrite Hhp. run.
    fold ax ar av. fold c1 step. rewrite Hw. run. rewrite Hla. reflexivity.
  - unfold Commit. rewrite ScalarFromBytes_scalar. reflexivity.
  - unfold MLSAGVerifyV4, validateRingForV4, duplicate_check. cbn [SS BlindSS ValueSS MLSAGKeyImage C0].
    rewrite Hl, !length_fmap, Hlen, Hrange, !bool_decide_eq_true_2 by done. run. cbn [Z.ltb Z.leb Z.compare].
    assert (Hci : checked_image (p_Bytes (x • hp)) = Ok (x • hp)).
    { apply checked_image_ok. split; [auto with aperod|]. split; [by apply smult_nonzero|done]. }
    rewrite Hci. run. rewrite ScalarFromBytes_scalar. run. rewrite PointFromBytes_point. run. fold step.
    rewrite (ring_verify_closed _ step cc).
    2: { intros i Hi. destruct (Hclosed i Hi) as (si & Hsi & Hst). exists si. split; [by eapply v4_decode_fmap|done]. }
    run. rewrite bool_decide_eq_true_2 by done. run. unfold link_check. cbn [LinkR LinkS MLSAGKeyImage].
    rewrite PointFromBytes_point. run. rewrite ScalarFromBytes_scalar. run. fold n.
    rewrite Hm, PointFromBytes_point. run. rewrite bool_decide_eq_true_2; [done|]. f_equal.
    apply close_mult; [apply subgroup_base|done].
  - done.
Qed.

(** *** CLSAG *)

Lemma validate_clsag (ks cs : list point) (pseudo : point) (realIdx : Z) :
  length ks = RingSize -> length cs = RingSize -> NoDup ks -> 0 <= realIdx < 16 ->
  Forall (fun k => subgroup k /\ k <> identity) ks -> Forall subgroup cs -> subgroup pseudo ->
  validateCLSAGInputs (p_Bytes <$> ks) (p_Bytes <$> cs) (p_Bytes pseudo) realIdx = Ok (ks, cs, pseudo).
Proof.
  intros Hlk Hlc Hnd Hreal Hk Hc Hp. destruct (real_in_range _ Hreal) as [Hrange _]. unfold validateCLSAGInputs.
  rewrite !length_fmap, Hlk, Hlc, Hrange, !bool_decide_eq_true_2 by done. run.
  assert (Hgen : forall ks0 cs0, NoDup (ks0 ++ ks) ->
    foldM clsag_input (ks0, cs0, p_Bytes <$> ks0) (zip (p_Bytes <$> ks) (p_Bytes <$> cs))
    = Ok (ks0 ++ ks, cs0 ++ cs, p_Bytes <$> (ks0 ++ ks))).
  { rewrite <- Hlc in Hlk. clear Hnd Hlc. revert cs Hlk Hc. induction ks as [|k ks IH]; intros [|c cs] Hl Hc ks0 cs0 Hnd; try done.
    - simpl. by rewrite !app_nil_r.
    - inversion_clear Hk as [|? ? [Hk1 Hk2] Hks]. inversion_clear Hc as [|? ? Hc1 Hcs]. simpl.
      rewrite bool_decide_eq_false_2.
      2: { intros Hin. apply list_elem_of_fmap in Hin as (k' & E & Hin). apply p_Bytes_inj in E as <-.
           apply list.NoDup_app in Hnd as (_ & Hnd & _). apply (Hnd k Hin). left. }
      assert (checkedCLSAGSubgroupPoint (p_Bytes k) "ring key" false = Ok k) as -> by (apply checked_clsag; auto).
      simpl. assert (checkedCLSAGSubgroupPoint (p_Bytes c) "ring commitment" true = Ok c) as -> by (apply checked_clsag; auto).
      simpl. specialize (IH Hks cs ltac:(simpl in Hl; lia) Hcs (ks0 ++ [k]) (cs0 ++ [c])).
      rewrite fmap_app, <- !app_assoc in IH. simpl in IH. by apply IH. }
  specialize (Hgen [] [] Hnd). change (p_Bytes <$> []) with (@nil Point32) in Hgen. rewrite Hgen. run.
  assert (checkedCLSAGSubgroupPoint (p_Bytes pseudo) "pseudo output" true = Ok pseudo) as -> by (apply checked_clsag; auto).
  done.
Qed.

(** The aggregated key of the real member and the aggregated image have the witness as logarithm. *)
Lemma aggregate_witness (muP muC x z : scalar) (p : point) : subgroup p ->
  muP • (x • p) ⊕ muC • (z • p) = MultiplyAdd muC z (s_mul muP x) • p.
Proof.
  intros Hp. unfold MultiplyAdd. rewrite !scalar_mult, <- !zsmul_mul, <- zsmul_add. apply zsmul_cong; [done|].
  rewrite sval_add, !sval_mul. by rewrite Z.add_comm.
Qed.

Lemma clsag_accepts (msg : Hash32) (ks cs : list point) (realIdx : Z) (x inB outB : scalar) (value : Z) (t : list (arr 64)) :
  length ks = RingSize -> length cs = RingSize -> NoDup ks -> 0 <= realIdx < 16 -> is_u64 value ->
  Forall (fun k => subgroup k /\ k <> identity /\ exists hp, hashToCurvePoint (arr_list (p_Bytes k)) = Ok hp) ks ->
  Forall subgroup cs -> sval x <> 0 -> ks !! Z.to_nat realIdx = Some (ScalarBaseMult x) ->
  p_Bytes <$> (cs !! Z.to_nat realIdx) = match Commit value (s_Bytes inB) with Ok c => Some c | Err _ => None end ->
  (16 <= length t)%nat ->
  exists sig t' pseudo, Commit value (s_Bytes outB) = Ok pseudo
    /\ CLSAGSign msg (p_Bytes <$> ks) (p_Bytes <$> cs) pseudo realIdx (s_Bytes x) (s_Bytes inB) (s_Bytes outB) t = Ok (sig, t')
    /\ CLSAGVerify msg (p_Bytes <$> ks) (p_Bytes <$> cs) pseudo (Some sig) = Ok true
    /\ ComputeKeyImage (s_Bytes x) (p_Bytes (ScalarBaseMult x)) = Ok (CLSAGKeyImage sig).
Proof.
  intros Hlk Hlc Hnd Hreal Hu Hks Hcs Hx Hk Hc Ht. destruct (real_in_range _ Hreal) as [Hrange Hr].
  set (n := Z.to_nat realIdx) in *. set (v := scalarFromUint64 value).
  set (P := ScalarBaseMult outB ⊕ v • hGenerator). set (C := ScalarBaseMult inB ⊕ v • hGenerator).
  assert (HC : cs !! n = Some C).
  { unfold Commit in Hc. rewrite ScalarFromBytes_scalar in Hc. cbn [mbind result_bind errorf] in Hc. fold v in Hc. fold C in Hc.
    destruct (cs !! n) as [q|]; [|done]. simpl in Hc. injection Hc as Hc. apply p_Bytes_inj in Hc. by rewrite Hc. }
  assert (HPs : subgroup P) by (unfold P; auto with aperod).
  assert (Hks' : Forall (fun k => subgroup k /\ k <> identity) ks) by (eapply list.Forall_impl; [exact Hks|naive_solver]).
  assert (Hmem : forall i, (i < RingSize)%nat -> exists hp, hashToCurvePoint (member (p_Bytes <$> ks) i) = Ok hp).
  { intros i Hi. unfold member. rewrite list_lookup_fmap. destruct (ks !! i) as [k|] eqn:E; [|apply lookup_ge_None in E; lia].
    simpl. by apply (Forall_lookup_1 _ _ _ _ Hks E). }
  destruct (Hmem n Hr) as (hp & Hhp). destruct (hashToCurvePoint_subgroup _ _ Hhp) as [Hhs Hhne].
  assert (Hm : member (p_Bytes <$> ks) n = arr_list (p_Bytes (ScalarBaseMult x))) by (unfold member; by rewrite list_lookup_fmap, Hk).
  assert (Hki : ComputeKeyImage (s_Bytes x) (p_Bytes (ScalarBaseMult x)) = Ok (p_Bytes (x • hp))).
  { unfold ComputeKeyImage. rewrite ScalarFromBytes_scalar. run. rewrite <- Hm, Hhp. done. }
  set (z := s_sub inB outB). assert (Hz : ScalarBaseMult z = p_sub C P).
  { unfold z, C, P, p_sub, ScalarBaseMult. rewrite neg_add, add_swap, add_neg_r, add_0_r, !scalar_mult, <- zsmul_opp, <- zsmul_add.
    apply zsmul_cong; [auto with aperod|]. rewrite sval_sub. done. }
  destruct t as [|buf t1]; [simpl in Ht; lia|]. set (alpha := SetUniformBytes (arr_list buf)).
  set (kb := p_Bytes <$> ks). set (cb := p_Bytes <$> cs). set (ki := p_Bytes (x • hp)). set (D := z • hp).
  destruct (clsagMus msg kb cb (p_Bytes P) ki (p_Bytes D)) as [muP muC] eqn:Hmu.
  set (w := clsagAggregateW muP muC ks cs P). set (J := muP • (x • hp) ⊕ muC • D).
  set (wit := MultiplyAdd muC z (s_mul muP x)).
  set (step := clsag_step msg kb cb (p_Bytes P) ki (p_Bytes D) w J).
  set (c1 := clsagChallenge msg kb cb (p_Bytes P) ki (p_Bytes D) n (ScalarBaseMult alpha) (alpha • hp)).
  assert (Hwn : default identity (w !! n) = wit • base_point).
  { unfold w, clsagAggregateW. rewrite lookup_zip_with, Hk, HC. simpl. rewrite <- Hz. apply aggregate_witness, subgroup_base. }
  destruct (ring_closes randomScalar step 1 n s_zero c1 (fun c => s_sub alpha (s_mul c wit)) t1)
    as (ss & cc & Hw & Hlen & Hclosed); [done|apply randomScalar_draw| | |unfold RingSize; simpl in Ht; lia|].
  { intros i s c Hi. unfold step, clsag_step. destruct (Hmem i Hi) as (hp' & Hhp'). fold kb in Hhp'. rewrite Hhp'. run. eauto. }
  { intros c. unfold step, clsag_step. fold kb in Hhp. rewrite Hhp. run. unfold c1, ringL, ringR. f_equal. f_equal.
    - apply close_mult; [apply subgroup_base|done].
    - apply close_mult; [done|]. by apply aggregate_witness. }
  assert (HI : checkedCLSAGPrimePoint ki "key image" = Ok (x • hp)).
  { apply checked_prime. split; [auto with aperod|]. split; [done|by apply smult_nonzero]. }
  assert (HD : checkedCLSAGDPoint (p_Bytes D) = Ok D).
  { apply checked_clsag. split; [unfold D; auto with aperod|]. auto. }
  assert (Hkn : default (zero_arr 32) (kb !! n) = p_Bytes (ScalarBaseMult x)) by (unfold kb; by rewrite list_lookup_fmap, Hk).
  assert (Hval : forall j, 0 <= j < 16 -> validateCLSAGInputs kb cb (p_Bytes P) j = Ok (ks, cs, P)) by (intros; by apply validate_clsag).
  eexists _, _, (p_Bytes P). split; [|split; [|split]].
  - unfold Commit. rewrite ScalarFromBytes_scalar. reflexivity.
  - unfold CLSAGSign. rewrite Hval by done. run. rewrite !ScalarFromBytes_scalar. run. fold n. rewrite Hk, HC. run.
    rewrite bool_decide_eq_false_2 by (intros []; done). fold z. rewrite bool_decide_eq_false_2 by (intros []; done).
    rewrite Hkn, Hki. run. fold ki. rewrite HI. run.
    fold kb in Hhp. rewrite Hhp. run. fold D. rewrite HD. run. rewrite Hmu. run. fold w J wit alpha. fold step c1. rewrite Hw. reflexivity.
  - unfold CLSAGVerify. cbn [S_ CLSAGKeyImage C1 D_]. rewrite length_fmap, Hlen, bool_decide_eq_true_2 by done. run.
    rewrite Hval by lia. run. fold ki. rewrite HI. run. rewrite HD. run. rewrite ScalarFromBytes_scalar. run.
    rewrite Hmu. run. fold w J. fold step. rewrite (ring_verify_closed _ step cc); [run; by rewrite bool_decide_eq_true_2|].
    intros i Hi. destruct (Hclosed i Hi) as (si & Hsi & Hst). exists si. split; [by apply decode_at_fmap|done].
  - done.
Qed.

(** A CLSAG signer who knows the key of a ring member and the blinding factors of
    its commitment and of the pseudo output, both to the same value, gets a
    signature, and the verifier accepts it for the key image of the key. *)
Theorem clsag_complete (msg : Hash32) (ks cs : list point) (realIdx : Z) (x inB outB : scalar) (value : Z) (t : list (arr 64)) :
  length ks = RingSize -> length cs = RingSize -> NoDup ks -> 0 <= realIdx < 16 -> is_u64 value ->
  Forall (fun k => subgroup k /\ k <> identity /\ exists hp, hashToCurvePoint (arr_list (p_Bytes k)) = Ok hp) ks ->
  Forall subgroup cs -> sval x <> 0 -> ks !! Z.to_nat realIdx = Some (ScalarBaseMult x) ->
  p_Bytes <$> (cs !! Z.to_nat realIdx) = match Commit value (s_Bytes inB) with Ok c => Some c | Err _ => None end ->
  (16 <= length t)%nat ->
  exists sig t' pseudo, Commit value (s_Bytes outB) = Ok pseudo
    /\ CLSAGSign msg (p_Bytes <$> ks) (p_Bytes <$> cs) pseudo realIdx (s_Bytes x) (s_Bytes inB) (s_Bytes outB) t = Ok (sig, t')
    /\ CLSAGVerify msg (p_Bytes <$> ks) (p_Bytes <$> cs) pseudo (Some sig) = Ok true
    /\ ComputeKeyImage (s_Bytes x) (p_Bytes (ScalarBaseMult x)) = Ok (CLSAGKeyImage sig).
Proof. apply clsag_accepts. Qed.

End Complete.

(** ** Accepted key images *)

Section Images.
Context `{Hashes} `{EdwardsLaws}.

(** A key image some verification accepted. *)
Inductive accepted (ki : KeyImage) : Prop :=
| accepted_mlsag msg ring sig : MLSAGVerify msg ring (Some sig) = Ok true -> MLSAGKeyImage sig = ki -> accepted ki
| accepted_v4 msg ring C n sig : MLSAGVerifyV4 msg ring C n (Some sig) = Ok true -> MLSAGKeyImage sig = ki -> accepted ki
| accepted_clsag msg ks cs pseudo sig : CLSAGVerify msg ks cs pseudo (Some sig) = Ok true -> CLSAGKeyImage sig = ki -> accepted ki.

Lemma accepted_prime (ki : KeyImage) : accepted ki -> exists p, subgroup p /\ p <> identity /\ ki = p_Bytes p.
Proof.
  intros [msg ring sig E <-|msg ring C n sig E <-|msg ks cs pseudo sig E <-].
  - unfold MLSAGVerify in E. apply reject_ok in E as [_ E]. apply bind_ok in E as (_ & _ & E).
    apply bind_ok in E as (I & HI & _). apply checked_image_ok in HI. eauto.
  - unfold MLSAGVerifyV4 in E. apply reject_ok in E as [_ E]. apply bind_ok in E as (_ & _ & E).
    apply reject_ok in E as [_ E]. apply bind_ok in E as (I & HI & _). apply checked_image_ok in HI. eauto.
  - unfold CLSAGVerify in E. apply reject_ok in E as [_ E]. apply bind_ok in E as ([[ks' cs'] p'] & _ & E).
    apply bind_ok in E as (I & HI & _). apply checked_prime in HI. naive_solver.
Qed.

Lemma accepted_cofactor (ki ki' : KeyImage) (p p' : point) :
  accepted ki -> accepted ki' -> SetBytes (arr_list ki) = Some p -> SetBytes (arr_list ki') = Some p' ->
  MultByCofactor p = MultByCofactor p' -> ki = ki'.
Proof.
  intros Ha Ha' Hp Hp' E. apply accepted_prime in Ha as (q & Hq & _ & ->), Ha' as (q' & Hq' & _ & ->).
  rewrite point_bytes in Hp, Hp'. injection Hp as <-. injection Hp' as <-. f_equal.
  rewrite <- (prime_part_id q Hq), <- (prime_part_id q' Hq'). unfold prime_part. by rewrite E.
Qed.

(** No output can be spent under two key images that differ by a point of small
    order: accepted key images that agree after multiplication by the cofactor are
    the same 32 bytes. *)
Theorem accepted_key_image_unique (ki ki' : KeyImage) (p p' : point) :
  accepted ki -> accepted ki' -> SetBytes (arr_list ki) = Some p -> SetBytes (arr_list ki') = Some p' ->
  MultByCofactor p = MultByCofactor p' -> ki = ki'.
Proof. apply accepted_cofactor. Qed.

End Images.

(** ** Witnesses, in the concrete group of [Curve] *)

#[local] Existing Instance toy_hashes | 0.
#[local] Existing Instance toy_curve | 0.

Definition ex_scalar (n : Z) : scalar := of_Z ell n.
Definition ex_key (i : nat) : point := ScalarBaseMult (ex_scalar (1000 + Z.of_nat i)).
Definition ex_keys : list point := ex_key <$> seq 0 16.
Definition ex_ring : list RingMember := p_Bytes <$> ex_keys.
Definition ex_tape (n : nat) : list (arr 64) := (fun i => copy_arr 64 (le_encode 64 (7 ^ (100 + Z.of_nat i)))) <$> seq 0 n.
Definition ex_msg : Hash32 := toy_sha256 [x01].

Lemma ex_good_ring : good_ring ex_ring.
Proof.
  split; [done|]. split; [apply (bool_decide_unpack _); vm_compute; exact I|].
  apply list.Forall_forall. intros m Hm.
  assert (Hb : forallb (fun m : RingMember => is_ok (PointFromBytes (arr_list m)) && is_ok (hashToCurvePoint (arr_list m))) ex_ring = true)
    by (vm_compute; reflexivity).
  rewrite forallb_forall in Hb. apply list_elem_of_In in Hm. specialize (Hb m Hm). apply andb_true_iff in Hb as [H1 H2].
  destruct (PointFromBytes (arr_list m)) as [p|]; [|done]. destruct (hashToCurvePoint (arr_list m)) as [hp|]; [|done]. eauto.
Qed.

Lemma mlsag_complete_witness :
  exists sig t', MLSAGSign ex_msg ex_ring 5 (s_Bytes (ex_scalar 1005)) (ex_tape 16) = Ok (sig, t')
    /\ MLSAGVerify ex_msg ex_ring (Some sig) = Ok true.
Proof.
  destruct (mlsag_complete ex_msg ex_ring 5 (ex_scalar 1005) (ex_tape 16)) as (sig & t' & E & V & _).
  - exact ex_good_ring.
  - lia.
  - change (zv (N := ell) (ex_scalar 1005) <> 0). vm_compute. discriminate.
  - apply (bool_decide_unpack _). vm_compute. exact I.
  - vm_compute. lia.
  - exists sig, t'. split; [exact E|exact V].
Defined.

Lemma mlsag_v4_complete_witness :
  exists sig t' C, MLSAGSignV4 ex_msg ex_ring 15 (s_Bytes (ex_scalar 1015)) (s_Bytes (ex_scalar 77)) 500 (ex_tape 49) = Ok (sig, t')
    /\ MLSAGVerifyV4 ex_msg ex_ring C 15 (Some sig) = Ok true.
Proof.
  destruct (mlsag_v4_complete ex_msg ex_ring 15 (ex_scalar 1015) (ex_scalar 77) 500 (ex_tape 49)) as (sig & t' & C & E & _ & V & _).
  - exact ex_good_ring.
  - lia.
  - change (zv (N := ell) (ex_scalar 1015) <> 0). vm_compute. discriminate.
  - u64lia.
  - apply (bool_decide_unpack _). vm_compute. exact I.
  - vm_compute. lia.
  - exists sig, t', C. split; [exact E|exact V].
Defined.

Definition ex_commits : list point :=
  (fun i => p_add (ScalarBaseMult (ex_scalar (50 + Z.of_nat i))) (ScalarMult (scalarFromUint64 500) hGenerator)) <$> seq 0 16.

Lemma ex_key_subgroup (k : zmod (8 * ell)) : zv k mod 8 = 0 -> subgroup (H := toy_curve) k.
Proof.
  intros E. constructor. rewrite toy_zsmul. apply zmod_ext. simpl. apply Z.mod_divide in E as [q Hq]; [|done].
  rewrite Hq. replace (ell * (q * 8)) with (q * (8 * ell)) by ring. rewrite Z.mod_mul; [done|]. pose proof ell_pos. lia.
Qed.

Lemma ex_clsag_keys :
  Forall (fun k => subgroup k /\ k <> identity /\ exists hp, hashToCurvePoint (arr_list (p_Bytes k)) = Ok hp) ex_keys.
Proof.
  apply list.Forall_forall. intros k Hk.
  assert (Hb : forallb (fun k : zmod (8 * ell) => (zv k mod 8 =? 0) && bool_decide (k <> identity) && is_ok (hashToCurvePoint (arr_list (p_Bytes k)))) ex_keys = true)
    by (vm_compute; reflexivity).
  rewrite forallb_forall in Hb. apply list_elem_of_In in Hk. specialize (Hb k Hk). zbool.
  split; [by apply ex_key_subgroup|]. split; [done|]. destruct (hashToCurvePoint (arr_list (p_Bytes k))) as [hp|]; [by exists hp|done].
Qed.

Lemma ex_clsag_commits : Forall subgroup ex_commits.
Proof.
  apply list.Forall_forall. intros k Hk. apply ex_key_subgroup.
  assert (Hb : forallb (fun k : zmod (8 * ell) => zv k mod 8 =? 0) ex_commits = true) by (vm_compute; reflexivity).
  rewrite forallb_forall in Hb. apply list_elem_of_In in Hk. specialize (Hb k Hk). by zbool.
Qed.

Lemma clsag_complete_witness :
  exists sig t' pseudo, Commit 500 (s_Bytes (ex_scalar 9)) = Ok pseudo
    /\ CLSAGSign ex_msg ex_ring (p_Bytes <$> ex_commits) pseudo 3 (s_Bytes (ex_scalar 1003)) (s_Bytes (ex_scalar 53))
         (s_Bytes (ex_scalar 9)) (ex_tape 16) = Ok (sig, t')
    /\ CLSAGVerify ex_msg ex_ring (p_Bytes <$> ex_commits) pseudo (Some sig) = Ok true.
Proof.
  destruct (clsag_complete ex_msg ex_keys ex_commits 3 (ex_scalar 1003) (ex_scalar 53) (ex_scalar 9) 500 (ex_tape 16))
    as (sig & t' & pseudo & C & E & V & _).
  - done.
  - done.
  - apply (bool_decide_unpack _). vm_compute. exact I.
  - lia.
  - u64lia.
  - exact ex_clsag_keys.
  - exact ex_clsag_commits.
  - change (zv (N := ell) (ex_scalar 1003) <> 0). vm_compute. discriminate.
  - apply (bool_decide_unpack _). vm_compute. exact I.
  - apply (bool_decide_unpack _). vm_compute. exact I.
  - vm_compute. lia.
  - exists sig, t', pseudo. split; [exact C|]. split; [exact E|exact V].
Defined.

(** Two signatures of one key, on different messages and at different ring positions. *)
Definition ex_sig (b : bool) : MLSAGSignature :=
  let m := if b then ex_msg else toy_sha256 [x02] in
  let ring := if b then ex_ring else reverse ex_ring in
  match MLSAGSign m ring (if b then 5 else 10) (s_Bytes (ex_scalar 1005)) (ex_tape 16) with
  | Ok (sig, _) => sig
  | Err _ => Build_MLSAGSignature (zero_arr 32) [] (zero_arr 32) [] [] (zero_arr 32) (zero_arr 32)
  end.

(** The two signatures, evaluated, and the points their key images encode. *)
Definition ex_sig_a : MLSAGSignature := Eval vm_compute in ex_sig true.
Definition ex_sig_b : MLSAGSignature := Eval vm_compute in ex_sig false.

Lemma accepted_key_image_unique_witness : MLSAGKeyImage ex_sig_a = MLSAGKeyImage ex_sig_b.
Proof.
  apply (accepted_key_image_unique (MLSAGKeyImage ex_sig_a) (MLSAGKeyImage ex_sig_b)
    (default identity (SetBytes (arr_list (MLSAGKeyImage ex_sig_a))))
    (default identity (SetBytes (arr_list (MLSAGKeyImage ex_sig_b))))).
  - apply (accepted_mlsag _ ex_msg ex_ring ex_sig_a); [|reflexivity]. apply (bool_decide_unpack _). vm_compute. exact I.
  - apply (accepted_mlsag _ (toy_sha256 [x02]) (reverse ex_ring) ex_sig_b); [|reflexivity].
    apply (bool_decide_unpack _). vm_compute. exact I.
  - apply some_value. vm_compute. reflexivity.
  - apply some_value. vm_compute. reflexivity.
  - apply (bool_decide_unpack _). vm_compute. exact I.
Defined.

End RingSig.
