(* ===== verification/Stealth.v ===== *)
(** One-time addresses and address strings: [crypto/stealth.go],
    [crypto/address.go] and [crypto/burn.go].

    Base58 (the btcutil package) is the class [Base58]; the theorems name what they
    need of it: that decoding inverts encoding, and that a string that decodes is
    the encoding of what it decodes to. *)

From stdpp Require Import base list strings.
From S2P Require Import Prelude Bytes Crypto Curve.
Import Curve.

Module Stealth.

Class Base58 := {
  b58_Encode : list byte -> string;
  b58_Decode : string -> list byte
}.

Section Stealth.
Context `{Hashes} `{Edwards}.

(** ** Stealth outputs *)

Record StealthOutput := mkStealth { OneTimePub : Point32; TxPubKey : Point32; HsScalar : arr 32 }.

Definition createStealthOutputWithScalar (spendPub viewPub : Point32) (rScalar : scalar) : result StealthOutput :=
  let R := ScalarBaseMult rScalar in
  V ← errorf "view public key" (PointFromBytes (arr_list viewPub));
  let shared := rScalar • V in
  let hsScalar := hashToScalar (arr_list (p_Bytes shared)) "aperod-stealth" in
  S ← errorf "spend public key" (PointFromBytes (arr_list spendPub));
  let HsG := ScalarBaseMult hsScalar in
  let P := HsG ⊕ S in
  Ok (mkStealth (p_Bytes P) (p_Bytes R) (s_Bytes hsScalar)).

Definition CreateStealthOutputWithEphemeralSecret (spendPub viewPub : Point32) (t : list (arr 64))
  : result (StealthOutput * arr 32 * list (arr 64)) :=
  '(rScalar, t') ← errorf "random scalar" (randomScalar t);
  output ← createStealthOutputWithScalar spendPub viewPub rScalar;
  Ok (output, s_Bytes rScalar, t').

Definition CreateStealthOutput (spendPub viewPub : Point32) (t : list (arr 64)) : result (StealthOutput * list (arr 64)) :=
  '(output, _, t') ← CreateStealthOutputWithEphemeralSecret spendPub viewPub t;
  Ok (output, t').

Definition CreateStealthOutputFromEphemeralBytes (spendPub viewPub : Point32) (rBytes : arr 32) : result StealthOutput :=
  match SetCanonicalBytes (arr_list rBytes) with
  | None => Err "ephemeral scalar"
  | Some rScalar => createStealthOutputWithScalar spendPub viewPub rScalar
  end.

(** [nil, nil] is the answer for an output of somebody else. *)
Definition ScanForOutput (viewPriv : arr 32) (spendPub txPubKey oneTimePub : Point32) : result (option (arr 32)) :=
  v ← errorf "view private scalar" (ScalarFromBytes (arr_list viewPriv));
  R ← PointFromBytes (arr_list txPubKey);
  let shared := v • R in
  let hsScalar := hashToScalar (arr_list (p_Bytes shared)) "aperod-stealth" in
  S ← PointFromBytes (arr_list spendPub);
  let HsG := ScalarBaseMult hsScalar in
  let expectedP := HsG ⊕ S in
  if bool_decide (p_Bytes expectedP <> oneTimePub) then Ok None
  else Ok (Some (s_Bytes hsScalar)).

(** ** Addresses *)

Context `{Base58}.

Definition mainnetHRPrefix : string := "apro".
Definition testnetHRPrefix : string := "tapr".
Definition devnetHRPrefix : string := "dapr".

Definition hrPrefix (net : NetworkByte) : string :=
  if bool_decide (net = MainnetByte) then mainnetHRPrefix
  else if bool_decide (net = TestnetByte) then testnetHRPrefix
  else if bool_decide (net = DevnetByte) then devnetHRPrefix
  else "net" +:+ hex_encode [net].

(** [DoubleSHA3], which applies [HashBytes] (SHA-256) twice. *)
Definition DoubleSHA3 (data : list byte) : Hash32 := sha256_sum (arr_list (sha256_sum data)).

Definition EncodeAddress (net : NetworkByte) (spend view : Point32) : string :=
  let payload := net :: arr_list spend ++ arr_list view in
  let full := payload ++ take 4 (arr_list (DoubleSHA3 payload)) in
  hrPrefix net +:+ b58_Encode full.

(** [s[n:]] *)
Fixpoint sdrop (n : nat) (s : string) : string :=
  match n, s with
  | S n', String.String _ s' => sdrop n' s'
  | _, _ => s
  end.

(** The prefix of an address: its network and the rest of the string. *)
Definition strip_prefix (s : string) : option (NetworkByte * string) :=
  if String.prefix testnetHRPrefix s then Some (TestnetByte, sdrop 4 s)
  else if String.prefix devnetHRPrefix s then Some (DevnetByte, sdrop 4 s)
  else if String.prefix mainnetHRPrefix s then Some (MainnetByte, sdrop 4 s)
  else None.

Definition DecodeAddress (addr : string) : result (NetworkByte * Point32 * Point32) :=
  match strip_prefix addr with
  | None => Err "invalid address: missing network prefix (apro/tapr/dapr)"
  | Some (expectedNet, stripped) =>
      let decoded := b58_Decode stripped in
      reject negb (bool_decide (length decoded = 69%nat)) with "invalid address length: want 69 bytes" ;;
      let payload := take 65 decoded in
      let gotChecksum := drop 65 decoded in
      let wantChecksum := DoubleSHA3 payload in
      reject negb (bool_decide (gotChecksum = take 4 (arr_list wantChecksum))) with "invalid address checksum" ;;
      let net := default x00 (head payload) in
      reject negb (bool_decide (net = expectedNet)) with "address network byte mismatch" ;;
      Ok (net, copy_arr 32 (slice payload 1 33), copy_arr 32 (slice payload 33 65))
  end.

Definition AddressFromKeys (net : NetworkByte) (kp : WalletKeyPair) : string :=
  EncodeAddress net (Public (Spend kp)) (Public (View kp)).

(** ** The burn address *)

Definition burnPoint (domain : string) (net : NetworkByte) : result Point32 :=
  p ← hashToCurvePoint (bytes_of_string domain ++ [net]); Ok (p_Bytes p).

Definition BurnAddress (net : NetworkByte) : result string :=
  spend ← burnPoint "aperod/canonical-burn/spend/v1" net;
  view ← burnPoint "aperod/canonical-burn/view/v1" net;
  Ok (EncodeAddress net spend view).

Definition IsBurnAddress (addr : string) : bool :=
  match DecodeAddress addr with
  | Ok (net, _, _) => bool_decide (BurnAddress net = Ok addr)
  | Err _ => false
  end.

End Stealth.

(** ** Stealth outputs are found and spendable *)

Section Scan.
Context `{Hashes} `{EdwardsLaws}.

Lemma shared_secret (r v : scalar) : r • ScalarBaseMult v = v • ScalarBaseMult r.
Proof. unfold ScalarBaseMult. by rewrite !scalar_mult, <- !zsmul_mul, Z.mul_comm. Qed.

Lemma scalarMulBase_scalar (s : scalar) : scalarMulBase (s_Bytes s) = Ok (p_Bytes (ScalarBaseMult s)).
Proof. unfold scalarMulBase. by rewrite SetCanonicalBytes_scalar. Qed.

(** C34: An output sent to a wallet derived from a seed is found by scanning with the
    view key, the scan returns the scalar the sender used to encrypt the amount,
    and adding the spend key to it gives the private key of the one-time address. *)
Theorem stealth_output_spendable (seed : list byte) (t : list (arr 64)) :
  (32 <= length seed)%nat -> (1 <= length t)%nat ->
  exists kp out t' x,
    WalletKeysFromSeed seed = Ok kp
    /\ CreateStealthOutput (Public (Spend kp)) (Public (View kp)) t = Ok (out, t')
    /\ ScanForOutput (Private (View kp)) (Public (Spend kp)) (TxPubKey out) (OneTimePub out) = Ok (Some (HsScalar out))
    /\ AddScalars (HsScalar out) (Private (Spend kp)) = Ok x
    /\ scalarMulBase x = Ok (OneTimePub out).
Proof.
  intros Hseed Ht. destruct t as [|buf t]; [simpl in Ht; lia|].
  set (s := hashToScalar seed "aperod-spend"). set (v := hashToScalar (arr_list (s_Bytes s)) "aperod-view").
  set (r := SetUniformBytes (arr_list buf)).
  set (hs := hashToScalar (arr_list (p_Bytes (r • ScalarBaseMult v))) "aperod-stealth").
  exists (mkWallet (mkKey (s_Bytes s) (p_Bytes (ScalarBaseMult s))) (mkKey (s_Bytes v) (p_Bytes (ScalarBaseMult v)))).
  exists (mkStealth (p_Bytes (ScalarBaseMult hs ⊕ ScalarBaseMult s)) (p_Bytes (ScalarBaseMult r)) (s_Bytes hs)), t, (s_Bytes (s_add hs s)).
  split; [|split; [|split; [|split]]]; cbn [Spend View Public Private OneTimePub TxPubKey HsScalar].
  - unfold WalletKeysFromSeed. rewrite bool_decide_eq_false_2 by lia.
    change (deriveScalar seed "aperod-spend") with (s_Bytes s). cbv zeta. rewrite scalarMulBase_scalar. cbn [mbind result_bind].
    change (deriveScalar (arr_list (s_Bytes s)) "aperod-view") with (s_Bytes v). by rewrite scalarMulBase_scalar.
  - unfold CreateStealthOutput, CreateStealthOutputWithEphemeralSecret, createStealthOutputWithScalar.
    cbn [randomScalar errorf mbind result_bind]. rewrite !PointFromBytes_point. reflexivity.
  - unfold ScanForOutput. rewrite ScalarFromBytes_scalar. cbn [errorf mbind result_bind].
    rewrite !PointFromBytes_point. cbn [mbind result_bind]. rewrite <- shared_secret. fold hs.
    by rewrite bool_decide_eq_false_2 by (intros []; done).
  - unfold AddScalars. by rewrite !ScalarFromBytes_scalar.
  - rewrite scalarMulBase_scalar. do 2 f_equal. unfold ScalarBaseMult. rewrite !scalar_mult, <- zsmul_add.
    apply zsmul_cong; [apply subgroup_base|]. apply sval_add.
Qed.

(** A scan that claims an output is right about it: the one-time key is the sum of
    the returned scalar and the spend key, so the wallet that holds the spend key can spend it. *)
Theorem scan_sound (viewPriv : arr 32) (s : scalar) (txPub oneTime : Point32) (hs : arr 32) :
  ScanForOutput viewPriv (p_Bytes (ScalarBaseMult s)) txPub oneTime = Ok (Some hs) ->
  exists x, AddScalars hs (s_Bytes s) = Ok x /\ scalarMulBase x = Ok oneTime.
Proof.
  unfold ScanForOutput. intros E. apply bind_ok in E as (v & _ & E). apply bind_ok in E as (R & _ & E).
  rewrite PointFromBytes_point in E. cbn [mbind result_bind] in E. case_bool_decide as Hne; [done|].
  injection E as <-. set (h := hashToScalar _ _) in *. exists (s_Bytes (s_add h s)). split.
  - unfold AddScalars. by rewrite !ScalarFromBytes_scalar.
  - rewrite scalarMulBase_scalar. destruct (decide (p_Bytes (ScalarBaseMult h ⊕ ScalarBaseMult s) = oneTime)) as [<-|]; [|done].
    do 2 f_equal. unfold ScalarBaseMult. rewrite !scalar_mult, <- zsmul_add. apply zsmul_cong; [apply subgroup_base|]. apply sval_add.
Qed.

End Scan.

(** ** Addresses are a bijective encoding *)

Section Address.
Context `{Hashes} `{Base58}.

Definition known_net (net : NetworkByte) : Prop := net = MainnetByte \/ net = TestnetByte \/ net = DevnetByte.

Lemma strip_prefix_known (net : NetworkByte) (s : string) : known_net net -> strip_prefix (hrPrefix net +:+ s) = Some (net, s).
Proof. intros [-> | [-> | ->]]; destruct s; reflexivity. Qed.

Lemma prefix_sdrop (p s : string) : String.prefix p s = true -> s = p +:+ sdrop (String.length p) s.
Proof.
  revert s. induction p as [|a p IH]; intros s E; [by destruct s|]. destruct s as [|b s]; [done|]. simpl in *.
  destruct (Ascii.ascii_dec a b) as [->|]; [|done]. by rewrite (IH s E) at 1.
Qed.

Lemma strip_prefix_spec (s rest : string) (net : NetworkByte) :
  strip_prefix s = Some (net, rest) -> known_net net /\ s = hrPrefix net +:+ rest.
Proof.
  unfold strip_prefix, known_net. intros E.
  destruct (String.prefix testnetHRPrefix s) eqn:Et; [injection E as <- <-; split; [auto|by apply prefix_sdrop in Et]|].
  destruct (String.prefix devnetHRPrefix s) eqn:Ed; [injection E as <- <-; split; [auto|by apply prefix_sdrop in Ed]|].
  destruct (String.prefix mainnetHRPrefix s) eqn:Em; [injection E as <- <-; split; [auto|by apply prefix_sdrop in Em]|done].
Qed.

Definition payload_of (net : NetworkByte) (spend view : Point32) : list byte := net :: arr_list spend ++ arr_list view.

Lemma payload_length (net : NetworkByte) (spend view : Point32) : length (payload_of net spend view) = 65%nat.
Proof. unfold payload_of. simpl. rewrite length_app, !arr_length. done. Qed.

Lemma payload_keys (net : NetworkByte) (spend view : Point32) :
  slice (payload_of net spend view) 1 33 = arr_list spend /\ slice (payload_of net spend view) 33 65 = arr_list view.
Proof.
  unfold payload_of, slice. split.
  - simpl drop. apply take_app_length'. by rewrite arr_length.
  - cbn [drop]. rewrite drop_app_length' by (by rewrite arr_length). apply take_ge. rewrite arr_length. done.
Qed.

(** An encoded address of a known network decodes to its network and keys. *)
Theorem address_roundtrip (net : NetworkByte) (spend view : Point32) :
  (forall b, b58_Decode (b58_Encode b) = b) -> known_net net ->
  DecodeAddress (EncodeAddress net spend view) = Ok (net, spend, view).
Proof.
  intros Hb Hnet. unfold DecodeAddress, EncodeAddress. fold (payload_of net spend view).
  rewrite strip_prefix_known, Hb by done. pose proof (payload_length net spend view) as Hl.
  rewrite length_app, length_take, arr_length, Hl. cbn [negb bool_decide].
  rewrite bool_decide_eq_true_2 by done. cbn [negb]. cbv zeta.
  rewrite take_app_length', drop_app_length' by done. rewrite bool_decide_eq_true_2 by done. cbn [negb].
  destruct (payload_keys net spend view) as [-> ->]. rewrite !copy_arr_list. cbn [head payload_of default].
  by rewrite bool_decide_eq_true_2.
Qed.

(** An address string that decodes is the encoding of what it decodes to, for one of
    the three networks: there is one string for a pair of keys. *)
Theorem address_unique (addr : string) (net : NetworkByte) (spend view : Point32) :
  (forall s, b58_Decode s <> [] -> b58_Encode (b58_Decode s) = s) ->
  DecodeAddress addr = Ok (net, spend, view) -> known_net net /\ addr = EncodeAddress net spend view.
Proof.
  intros Hb. unfold DecodeAddress. destruct (strip_prefix addr) as [[n rest]|] eqn:Ep; [|done]. intros E.
  apply strip_prefix_spec in Ep as [Hn ->]. rewrite !reject_ok in E. destruct E as (El & Ec & En & E).
  zbool. rename El into Hl. injection E as <- <- <-. rewrite <- En in Hn |- *. split; [done|].
  unfold EncodeAddress. f_equal.
  set (d := b58_Decode rest) in *.
  assert (Hne : d <> []) by (intros E0; rewrite E0 in Hl; done).
  rewrite <- (Hb rest Hne) at 1. fold d. f_equal.
  assert (Hpay : default x00 (head (take 65 d)) :: arr_list (copy_arr 32 (slice (take 65 d) 1 33)) ++ arr_list (copy_arr 32 (slice (take 65 d) 33 65)) = take 65 d).
  { assert (Hl65 : length (take 65 d) = 65%nat) by (rewrite length_take; lia).
    rewrite !arr_list_copy by (apply slice_length; lia). rewrite slice_cat by lia.
    destruct (take 65 d) as [|b rest'] eqn:Et; [done|]. simpl. f_equal. unfold slice. simpl.
    rewrite drop_0. apply take_ge. simpl in Hl65. lia. }
  rewrite Hpay, <- Ec. symmetry. apply take_drop.
Qed.

End Address.

(** ** The burn address *)

Section Burn.
Context `{Hashes} `{EdwardsLaws} `{Base58}.

(** The burn address of a known network is recognised as such, and both of its keys
    are points of the prime-order subgroup found by hashing. *)
Theorem burn_address_recognised (net : NetworkByte) (addr : string) :
  (forall b, b58_Decode (b58_Encode b) = b) -> known_net net -> BurnAddress net = Ok addr ->
  IsBurnAddress addr = true
  /\ exists p q, DecodeAddress addr = Ok (net, p_Bytes p, p_Bytes q)
       /\ (subgroup p /\ p <> identity) /\ (subgroup q /\ q <> identity).
Proof.
  intros Hb Hnet E. pose proof E as E0. unfold BurnAddress, burnPoint in E.
  apply bind_ok in E as (sp & Hs & E). apply bind_ok in E as (vp & Hv & E). injection E as <-.
  apply bind_ok in Hs as (p & Hp & Hs). injection Hs as <-. apply bind_ok in Hv as (q & Hq & Hv). injection Hv as <-.
  pose proof (address_roundtrip net (p_Bytes p) (p_Bytes q) Hb Hnet) as Hd. split.
  - unfold IsBurnAddress. rewrite Hd. by apply bool_decide_eq_true.
  - exists p, q. split; [done|]. split; by eapply hashToCurvePoint_subgroup.
Qed.

End Burn.

(** ** Witnesses *)

#[local] Existing Instance toy_hashes | 0.
#[local] Existing Instance toy_curve | 0.

(** Strings of the bytes themselves in the place of Base58. *)
Definition toy_base58 : Base58 := {|
  b58_Encode := String.string_of_list_byte;
  b58_Decode := String.list_byte_of_string
|}.
#[local] Existing Instance toy_base58 | 0.

Definition ex_seed : list byte := replicate 32 x11.
Definition ex_buf : arr 64 := copy_arr 64 (le_encode 64 (7 ^ 150)).

Lemma stealth_output_spendable_witness :
  exists kp out t' x, WalletKeysFromSeed ex_seed = Ok kp
    /\ CreateStealthOutput (Public (Spend kp)) (Public (View kp)) [ex_buf] = Ok (out, t')
    /\ scalarMulBase x = Ok (OneTimePub out).
Proof.
  destruct (stealth_output_spendable ex_seed [ex_buf]) as (kp & out & t' & x & Hk & Hc & _ & _ & Hx).
  - vm_compute. lia.
  - simpl. lia.
  - exists kp, out, t', x. split; [exact Hk|]. split; [exact Hc|exact Hx].
Defined.

Definition ex_spend : scalar := of_Z ell 123.
Definition ex_view : scalar := of_Z ell 456.
Definition ex_output : StealthOutput :=
  match CreateStealthOutput (p_Bytes (ScalarBaseMult ex_spend)) (p_Bytes (ScalarBaseMult ex_view)) [ex_buf] with
  | Ok (o, _) => o
  | Err _ => mkStealth (zero_arr 32) (zero_arr 32) (zero_arr 32)
  end.

Lemma scan_sound_witness :
  exists x, AddScalars (HsScalar ex_output) (s_Bytes ex_spend) = Ok x /\ scalarMulBase x = Ok (OneTimePub ex_output).
Proof.
  apply (scan_sound (s_Bytes ex_view) ex_spend (TxPubKey ex_output) (OneTimePub ex_output) (HsScalar ex_output)).
  apply (bool_decide_unpack _). vm_compute. exact I.
Defined.

Lemma address_roundtrip_witness :
  DecodeAddress (EncodeAddress MainnetByte (copy_arr 32 [x01]) (copy_arr 32 [x02]))
  = Ok (MainnetByte, copy_arr 32 [x01], copy_arr 32 [x02]).
Proof.
  apply (address_roundtrip MainnetByte (copy_arr 32 [x01]) (copy_arr 32 [x02])).
  - exact String.list_byte_of_string_of_list_byte.
  - left. reflexivity.
Defined.

Lemma address_unique_witness :
  known_net TestnetByte
  /\ EncodeAddress TestnetByte (copy_arr 32 [x01]) (copy_arr 32 [x02])
     = EncodeAddress TestnetByte (copy_arr 32 [x01]) (copy_arr 32 [x02]).
Proof.
  apply (address_unique (EncodeAddress TestnetByte (copy_arr 32 [x01]) (copy_arr 32 [x02]))
    TestnetByte (copy_arr 32 [x01]) (copy_arr 32 [x02])).
  - intros s _. apply String.string_of_list_byte_of_string.
  - apply (bool_decide_unpack _). vm_compute. exact I.
Defined.

Lemma burn_address_recognised_witness :
  IsBurnAddress (match BurnAddress MainnetByte with Ok a => a | Err _ => "" end) = true.
Proof.
  apply (burn_address_recognised MainnetByte).
  - exact String.list_byte_of_string_of_list_byte.
  - left. reflexivity.
  - apply (ok_value (BurnAddress MainnetByte) ""). vm_compute. reflexivity.
Defined.
End Stealth.
