(* ===== verification/Bulletproof.v ===== *)
(** Range proofs: [crypto/bulletproof.go].

    The generators are found by hashing; a generator whose search ran out of fuel
    would be the identity.  The Fiat-Shamir transcript is its 32-byte state.  The
    recursion of [ipaProve] halves its vectors and takes fuel; sixty-four elements
    need six rounds.  [ProveRange] ignores the errors of [NewBlindFactor], as the
    source does: a failed read yields a zero scalar.

    The theorem of the file is completeness: the proof made for any 64-bit value
    under any blinding factor verifies, unless a challenge of the transcript is zero. *)

From AAC_tactics Require Import AAC.
From stdpp Require Import base list strings.
From S2P Require Import Prelude Bytes Crypto Curve Pedersen.
Import Curve Pedersen.

Module Bulletproof.

Section Bulletproof.
Context `{Hashes} `{Edwards}.

Definition bpBits : nat := 64.
Definition bpLog : nat := 6.

(** ** Generators *)

Definition generator (seed : list byte) : point := match hashToPoint seed with Ok p => p | Err _ => identity end.
Definition bpU : point := generator (bytes_of_string "Aperod/BP/U/v2").
Definition bpGvec : list point :=
  (fun i => generator (bytes_of_string "Aperod/BP/Gvec/v2/" ++ le_encode 8 (Z.of_nat i))) <$> seq 0 bpBits.
Definition bpHvec : list point :=
  (fun i => generator (bytes_of_string "Aperod/BP/Hvec/v2/" ++ le_encode 8 (Z.of_nat i))) <$> seq 0 bpBits.

(** ** Transcript *)

Definition newBPTranscript (label : string) : arr 32 :=
  sha256_sum (bytes_of_string "Aperod/BP/transcript/v2/" ++ bytes_of_string label).
Definition absorb (acc : arr 32) (b : list byte) : arr 32 := sha256_sum (arr_list acc ++ b).
Definition absorbPoint (acc : arr 32) (p : point) : arr 32 := absorb acc (arr_list (p_Bytes p)).
Definition absorbScalar (acc : arr 32) (s : scalar) : arr 32 := absorb acc (arr_list (s_Bytes s)).
Definition challenge (acc : arr 32) : scalar * arr 32 :=
  let s := SetUniformBytes (arr_list (sha512_sum (bytes_of_string "challenge" ++ arr_list acc))) in
  (s, absorb acc (arr_list (s_Bytes s))).

(** ** Vectors of scalars *)

Definition scalarOne : scalar := default s_zero (SetCanonicalBytes (x01 :: replicate 31 x00)).

Fixpoint powers (v base : scalar) (n : nat) : list scalar :=
  match n with
  | O => []
  | S n' => v :: powers (s_mul v base) base n'
  end.
Definition powerVec (base : scalar) (n : nat) : list scalar := powers scalarOne base n.
Definition pow2Vec (n : nat) : list scalar := powerVec (scalarFromUint64 2) n.

Definition innerProduct (a b : list scalar) : scalar :=
  foldl (fun r ab => MultiplyAdd ab.1 ab.2 r) s_zero (zip a b).

Definition vecAddS (v : list scalar) (s : scalar) : list scalar := (fun x => s_add x s) <$> v.
Definition vecSubS (v : list scalar) (s : scalar) : list scalar := (fun x => s_sub x s) <$> v.
Definition vecHadamard (a b : list scalar) : list scalar := zip_with s_mul a b.
Definition vecAddVec (a b : list scalar) : list scalar := zip_with s_add a b.
Definition vecScale (s : scalar) (v : list scalar) : list scalar := s_mul s <$> v.
Definition msm (scalars : list scalar) (points : list point) : point := VarTimeMultiScalarMult scalars points.

(** ** The inner-product argument *)

(** [G' = GL + uInv*GR] and [H' = HL + u*HR] are both this fold. *)
Definition fold_points (k : scalar) (l r : list point) : list point := zip_with (fun x y => x ⊕ k • y) l r.
(** [a' = aL + u*aR] and [b' = bL + uInv*bR]. *)
Definition fold_scalars (k : scalar) (l r : list scalar) : list scalar := zip_with (fun x y => MultiplyAdd k y x) l r.

Fixpoint ipaProve (fuel : nat) (G H : list point) (a b : list scalar) (U : point) (tr : arr 32)
  : result (list point * list point * scalar * scalar) :=
  if bool_decide (length a <= 1)%nat then
    Ok ([], [], default s_zero (head a), default s_zero (head b))
  else
    match fuel with
    | O => Err "IPA: too many rounds"
    | S fuel' =>
        reject negb (bool_decide (length a mod 2 = 0)%nat) with "IPA: n is not a power of 2" ;;
        let half := (length a / 2)%nat in
        let '(aL, aR) := (take half a, drop half a) in
        let '(bL, bR) := (take half b, drop half b) in
        let '(GL, GR) := (take half G, drop half G) in
        let '(HL, HR) := (take half H, drop half H) in
        let cL := innerProduct aR bL in
        let cR := innerProduct aL bR in
        let L := msm aR GL ⊕ msm bL HR ⊕ cL • U in
        let R := msm aL GR ⊕ msm bR HL ⊕ cR • U in
        let tr' := absorbPoint (absorbPoint tr L) R in
        let '(u, tr'') := challenge tr' in
        let uInv := s_Invert u in
        '(Ls, Rs, aFin, bFin) ← ipaProve fuel' (fold_points uInv GL GR) (fold_points u HL HR)
                                  (fold_scalars u aL aR) (fold_scalars uInv bL bR) U tr'';
        Ok (L :: Ls, R :: Rs, aFin, bFin)
    end.

(** ** Proving *)

(** [bf, _ := NewBlindFactor(); s, _ := ScalarFromBytes(bf[:])] *)
Definition draw_blind (t : list (arr 64)) : scalar * list (arr 64) :=
  match randomScalar t with Ok (s, t') => (s, t') | Err _ => (s_zero, t) end.

(** [sL] and [sR], drawn alternately. *)
Fixpoint draw_pairs (n : nat) (t : list (arr 64)) : list scalar * list scalar * list (arr 64) :=
  match n with
  | O => ([], [], t)
  | S n' =>
      let '(l, t1) := draw_blind t in
      let '(r, t2) := draw_blind t1 in
      let '(ls, rs, t3) := draw_pairs n' t2 in
      (l :: ls, r :: rs, t3)
  end.

(** [scalarFromUint64((value >> uint(i)) & 1)] *)
Definition bit_scalar (value : Z) (i : nat) : scalar := scalarFromUint64 (Z.land (Z.shiftr value (Z.of_nat i)) 1).

(** [H'[i] = y^-i * Hvec[i]] *)
Definition h_prime (y : scalar) : list point := zip_with ScalarMult (powerVec (s_Invert y) bpBits) bpHvec.

Definition commit_vectors (r : scalar) (l1 l2 : list scalar) : point := ScalarBaseMult r ⊕ msm l1 bpGvec ⊕ msm l2 bpHvec.

Definition ProveRange (value : Z) (blind : BlindFactor) (t : list (arr 64)) : result (RangeProof * list (arr 64)) :=
  let v := scalarFromUint64 value in
  gamma ← errorf "bulletproof: invalid blind (non-canonical scalar)" (ScalarFromBytes (arr_list blind));
  let V := ScalarBaseMult gamma ⊕ v • hGenerator in
  let aL := bit_scalar value <$> seq 0 bpBits in
  let aR := (fun a => s_sub a scalarOne) <$> aL in
  let '(alpha, t1) := draw_blind t in
  let A := commit_vectors alpha aL aR in
  let '(sL, sR, t2) := draw_pairs bpBits t1 in
  let '(rho, t3) := draw_blind t2 in
  let S := commit_vectors rho sL sR in
  let tr := absorbPoint (absorbPoint (absorbPoint (newBPTranscript "range-proof/v2") V) A) S in
  let '(y, tr) := challenge tr in
  let '(z, tr) := challenge tr in
  let yn := powerVec y bpBits in
  let town := pow2Vec bpBits in
  let z2 := s_mul z z in
  let l0 := vecSubS aL z in
  let l1 := sL in
  let r0 := vecAddVec (vecHadamard yn (vecAddS aR z)) (vecScale z2 town) in
  let r1 := vecHadamard yn sR in
  let t1v := s_add (innerProduct l0 r1) (innerProduct l1 r0) in
  let t2v := innerProduct l1 r1 in
  let '(tau1, t4) := draw_blind t3 in
  let '(tau2, t5) := draw_blind t4 in
  let T1 := ScalarBaseMult tau1 ⊕ t1v • hGenerator in
  let T2 := ScalarBaseMult tau2 ⊕ t2v • hGenerator in
  let tr := absorbPoint (absorbPoint tr T1) T2 in
  let '(x, tr) := challenge tr in
  let x2 := s_mul x x in
  let l := vecAddVec l0 (vecScale x l1) in
  let r := vecAddVec r0 (vecScale x r1) in
  let txHat := innerProduct l r in
  let taux := MultiplyAdd z2 gamma (MultiplyAdd tau1 x (MultiplyAdd tau2 x2 s_zero)) in
  let mu := MultiplyAdd rho x alpha in
  let tr := absorbScalar (absorbScalar (absorbScalar tr taux) mu) txHat in
  let '(w, tr) := challenge tr in
  let Uw := w • bpU in
  '(Ls, Rs, aFin, bFin) ← ipaProve bpLog bpGvec (h_prime y) l r Uw tr;
  Ok ({| rp_V := p_Bytes V; rp_A := p_Bytes A; rp_S := p_Bytes S; rp_T1 := p_Bytes T1; rp_T2 := p_Bytes T2;
         rp_Taux := s_Bytes taux; rp_Mu := s_Bytes mu; rp_Tx := s_Bytes txHat;
         rp_Ls := p_Bytes <$> Ls; rp_Rs := p_Bytes <$> Rs; rp_AFin := s_Bytes aFin; rp_BFin := s_Bytes bFin;
         ValueCommit := p_Bytes V |}, t5).

(** ** Verifying *)

Definition decPt (b : arr 32) (name : string) : result point :=
  match SetBytes (arr_list b) with Some p => Ok p | None => Err ("decode " +:+ name) end.
Definition decSc (b : arr 32) (name : string) : result scalar :=
  match SetCanonicalBytes (arr_list b) with Some s => Ok s | None => Err ("decode " +:+ name) end.

(** The points [L_k] and [R_k], decoded in turn. *)
Definition decode_rounds (ls rs : list (arr 32)) : result (list (point * point)) :=
  foldM (fun acc k =>
    L ← decPt (default (zero_arr 32) (ls !! k)) "L";
    R ← decPt (default (zero_arr 32) (rs !! k)) "R";
    Ok (acc ++ [(L, R)])) [] (seq 0 bpLog).

(** [delta(y,z) = (z - z^2) * sum yn - z^3 * sum 2^n] *)
Definition delta_yz (z z2 z3 : scalar) (yn town : list scalar) : scalar :=
  let sumYn := foldl s_add s_zero yn in
  let sum2n := foldl s_add s_zero town in
  MultiplyAdd (s_sub z z2) sumYn (s_neg (s_mul z3 sum2n)).

(** One turn of the loop that rebuilds [P]. *)
Definition p_turn (z z2 : scalar) (P : point) (e : point * point * (scalar * point)) : point :=
  let '(g, h, (two, h')) := e in
  P ⊕ s_neg z • g ⊕ z • h ⊕ s_mul z2 two • h'.

(** One round of the replay: the challenge and the folded [P]. *)
Definition replay_round (st : arr 32 * point * list (scalar * scalar)) (LR : point * point)
  : arr 32 * point * list (scalar * scalar) :=
  let '(tr, P, us) := st in
  let '(L, R) := LR in
  let '(u, tr') := challenge (absorbPoint (absorbPoint tr L) R) in
  let uInv := s_Invert u in
  (tr', P ⊕ u • L ⊕ uInv • R, us ++ [(u, uInv)]).

(** One round of folding the generators. *)
Definition fold_generators (GH : list point * list point) (uu : scalar * scalar) : list point * list point :=
  let '(G, H) := GH in
  let '(u, uInv) := uu in
  let half := (length G / 2)%nat in
  (fold_points uInv (take half G) (drop half G), fold_points u (take half H) (drop half H)).

Definition VerifyRange (oproof : option RangeProof) : result bool :=
  need proof from oproof else "nil proof" ;;
  if bool_decide (ValueCommit proof <> rp_V proof) then Ok false else
  V ← decPt (rp_V proof) "V";
  A ← decPt (rp_A proof) "A";
  S ← decPt (rp_S proof) "S";
  T1 ← decPt (rp_T1 proof) "T1";
  T2 ← decPt (rp_T2 proof) "T2";
  taux ← decSc (rp_Taux proof) "taux";
  mu ← decSc (rp_Mu proof) "mu";
  txHat ← decSc (rp_Tx proof) "tx";
  aFin ← decSc (rp_AFin proof) "aFin";
  bFin ← decSc (rp_BFin proof) "bFin";
  rounds ← decode_rounds (rp_Ls proof) (rp_Rs proof);
  let tr := absorbPoint (absorbPoint (absorbPoint (newBPTranscript "range-proof/v2") V) A) S in
  let '(y, tr) := challenge tr in
  let '(z, tr) := challenge tr in
  let tr := absorbPoint (absorbPoint tr T1) T2 in
  let '(x, tr) := challenge tr in
  let x2 := s_mul x x in
  let tr := absorbScalar (absorbScalar (absorbScalar tr taux) mu) txHat in
  let '(w, tr) := challenge tr in
  let z2 := s_mul z z in
  let z3 := s_mul z2 z in
  let yn := powerVec y bpBits in
  let town := pow2Vec bpBits in
  let delta := delta_yz z z2 z3 yn town in
  let lhs := txHat • hGenerator ⊕ ScalarBaseMult taux in
  let rhs := z2 • V ⊕ delta • hGenerator ⊕ x • T1 ⊕ x2 • T2 in
  if bool_decide (lhs <> rhs) then Ok false else
  let Uw := w • bpU in
  let hPrime := h_prime y in
  let P0 := A ⊕ x • S ⊕ ScalarBaseMult (s_neg mu) ⊕ txHat • Uw in
  let P := foldl (p_turn z z2) P0 (zip (zip bpGvec bpHvec) (zip town hPrime)) in
  let '(_, Pfin, us) := foldl replay_round (tr, P, []) rounds in
  let '(Gfin, Hfin) := foldl fold_generators (bpGvec, hPrime) us in
  let ab := s_mul aFin bFin in
  let check := aFin • default identity (head Gfin) ⊕ bFin • default identity (head Hfin) ⊕ ab • Uw in
  Ok (bool_decide (check = Pfin)).

End Bulletproof.

(** ** Linear algebra over the scalars *)

Section Linear.
Context `{EdwardsLaws}.

#[export] Instance p_add_aac_assoc : Associative eq p_add.
Proof. intros x y z. apply add_assoc. Qed.
#[export] Instance p_add_aac_comm : Commutative eq p_add.
Proof. intros x y. apply add_comm. Qed.
#[export] Instance aac_lift_eq {A} : AAC_lift (@eq A) (@eq A).
Proof. split; [apply _|]. by intros ? ? -> ? ? ->. Qed.
#[export] Instance p_add_proper : Proper (eq ==> eq ==> eq) p_add.
Proof. by intros ? ? -> ? ? ->. Qed.
#[export] Instance p_add_aac_unit : Unit eq p_add identity.
Proof. split; intros x; [apply add_0_l|apply add_0_r]. Qed.

Definition vals (l : list scalar) : list Z := sval <$> l.

(** The linear combination and the inner product with integer coefficients. *)
Fixpoint zmsm (zs : list Z) (ps : list point) : point :=
  match zs, ps with
  | z :: zs', p :: ps' => zsmul z p ⊕ zmsm zs' ps'
  | _, _ => identity
  end.
Fixpoint zdot (a b : list Z) : Z :=
  match a, b with
  | x :: a', y :: b' => x * y + zdot a' b'
  | _, _ => 0
  end.
Definition psum (ps : list point) : point := foldr p_add identity ps.

Lemma foldl_add (acc : point) (ps : list point) : foldl p_add acc ps = acc ⊕ psum ps.
Proof.
  revert acc. induction ps as [|p ps IH]; intros acc; simpl; [by rewrite add_0_r|].
  by rewrite IH, add_assoc.
Qed.

Lemma msm_zmsm (ss : list scalar) (ps : list point) : msm ss ps = zmsm (vals ss) ps.
Proof.
  unfold msm, VarTimeMultiScalarMult. rewrite foldl_add, add_0_l. revert ps.
  induction ss as [|s ss IH]; intros [|p ps]; try done. simpl. by rewrite IH, scalar_mult.
Qed.

Lemma inner_foldl (r : scalar) (l : list (scalar * scalar)) :
  sval (foldl (fun r ab => MultiplyAdd ab.1 ab.2 r) r l) ≡l sval r + zdot (vals l.*1) (vals l.*2).
Proof.
  revert r. induction l as [|[a b] l IH]; intros r; csimpl; [by rewrite Z.add_0_r|].
  rewrite IH. unfold MultiplyAdd. rewrite sval_add, sval_mul. apply cong_eq. ring.
Qed.

Lemma inner_zdot (a b : list scalar) : length a = length b -> sval (innerProduct a b) ≡l zdot (vals a) (vals b).
Proof.
  intros Hl. unfold innerProduct. rewrite inner_foldl, sval_zero, Z.add_0_l.
  by rewrite fst_zip, snd_zip by lia.
Qed.

Lemma zmsm_nil_r (zs : list Z) : zmsm zs [] = identity.
Proof. by destruct zs. Qed.

Lemma zmsm_add (zs zs' : list Z) (ps : list point) : length zs = length zs' ->
  zmsm (zip_with Z.add zs zs') ps = zmsm zs ps ⊕ zmsm zs' ps.
Proof.
  revert zs' ps. induction zs as [|z zs IH]; intros [|z' zs'] ps Hl; try done; [simpl; by rewrite add_0_l|].
  destruct ps as [|p ps]; simpl; [by rewrite add_0_l|]. rewrite IH by (simpl in Hl; lia). rewrite zsmul_add. aac_reflexivity.
Qed.

Lemma zmsm_scale (k : Z) (zs : list Z) (ps : list point) : zmsm (Z.mul k <$> zs) ps = zsmul k (zmsm zs ps).
Proof.
  revert ps. induction zs as [|z zs IH]; intros [|p ps]; simpl; try (by rewrite zsmul_identity).
  rewrite IH, zsmul_point_add, zsmul_mul. done.
Qed.

Lemma zmsm_points (k : Z) (zs : list Z) (ps qs : list point) : length ps = length qs ->
  zmsm zs (zip_with (fun x y => x ⊕ zsmul k y) ps qs) = zmsm zs ps ⊕ zsmul k (zmsm zs qs).
Proof.
  revert ps qs. induction zs as [|z zs IH]; intros [|p ps] [|q qs] Hl; simpl; try done; try (by rewrite zsmul_identity, add_0_l).
  rewrite IH by (simpl in Hl; lia). rewrite !zsmul_point_add, <- !zsmul_mul, (Z.mul_comm k). aac_reflexivity.
Qed.

Lemma zmsm_cong (zs zs' : list Z) (ps : list point) : Forall subgroup ps -> Forall2 cong zs zs' -> zmsm zs ps = zmsm zs' ps.
Proof.
  intros Hp Hz. revert ps Hp. induction Hz as [|z z' zs zs' Hz _ IH]; intros [|p ps] Hp; try done.
  inversion_clear Hp. simpl. rewrite IH by done. f_equal. by apply zsmul_cong.
Qed.

Lemma zmsm_app (z1 z2 : list Z) (p1 p2 : list point) : length z1 = length p1 ->
  zmsm (z1 ++ z2) (p1 ++ p2) = zmsm z1 p1 ⊕ zmsm z2 p2.
Proof.
  revert p1. induction z1 as [|z z1 IH]; intros [|p p1] Hl; try done; simpl; [by rewrite add_0_l|].
  rewrite IH by (simpl in Hl; lia). apply add_assoc.
Qed.

Lemma zmsm_subgroup (zs : list Z) (ps : list point) : Forall subgroup ps -> subgroup (zmsm zs ps).
Proof.
  intros Hp. revert zs. induction Hp as [|p ps Hp _ IH]; intros [|z zs]; simpl; auto with aperod.
Qed.

Lemma zdot_app (a1 a2 b1 b2 : list Z) : length a1 = length b1 -> zdot (a1 ++ a2) (b1 ++ b2) = zdot a1 b1 + zdot a2 b2.
Proof.
  revert b1. induction a1 as [|x a1 IH]; intros [|y b1] Hl; try done; simpl. rewrite IH by (simpl in Hl; lia). lia.
Qed.

Lemma zdot_fold_l (u : Z) (a1 a2 b : list Z) : length a1 = length a2 ->
  zdot (zip_with (fun x y => x + u * y) a1 a2) b = zdot a1 b + u * zdot a2 b.
Proof.
  revert a2 b. induction a1 as [|x a1 IH]; intros [|y a2] [|z b] Hl; simpl in *; try lia. rewrite IH by lia. ring.
Qed.

Lemma zdot_comm (a b : list Z) : zdot a b = zdot b a.
Proof. revert b. induction a as [|x a IH]; intros [|y b]; simpl; try done. rewrite IH. ring. Qed.

Lemma zdot_cong (a a' b b' : list Z) : Forall2 cong a a' -> Forall2 cong b b' -> zdot a b ≡l zdot a' b'.
Proof.
  intros Ha. revert b b'. induction Ha as [|x x' a a' Hx _ IH]; intros b b' Hb; [done|].
  destruct Hb as [|y y' b b' Hy Hb]; [done|]. simpl. by rewrite Hx, Hy, (IH b b' Hb).
Qed.

Lemma zmsm_fold_scalars (u : Z) (a1 a2 : list Z) (ps : list point) : length a1 = length a2 ->
  zmsm (zip_with (fun x y => x + u * y) a1 a2) ps = zmsm a1 ps ⊕ zsmul u (zmsm a2 ps).
Proof.
  revert a2 ps. induction a1 as [|x a1 IH]; intros [|y a2] [|p ps] Hl; simpl in *; try done; try (by rewrite zsmul_identity, add_0_l).
  rewrite IH by lia. rewrite zsmul_add, zsmul_point_add, zsmul_mul. aac_reflexivity.
Qed.

(** ** One round of the inner-product argument *)

Definition ipa_value (a b : list Z) (G H : list point) (U : point) : point :=
  zmsm a G ⊕ zmsm b H ⊕ zsmul (zdot a b) U.

Lemma ipa_round_value (u v : Z) (aL aR bL bR : list Z) (GL GR HL HR : list point) (U : point) (h : nat) :
  length aL = h -> length aR = h -> length bL = h -> length bR = h ->
  length GL = h -> length GR = h -> length HL = h -> length HR = h ->
  Forall subgroup GR -> Forall subgroup HR -> subgroup U -> u * v ≡l 1 ->
  ipa_value (zip_with (fun x y => x + u * y) aL aR) (zip_with (fun x y => x + v * y) bL bR)
    (zip_with (fun x y => x ⊕ zsmul v y) GL GR) (zip_with (fun x y => x ⊕ zsmul u y) HL HR) U
  = ipa_value (aL ++ aR) (bL ++ bR) (GL ++ GR) (HL ++ HR) U
    ⊕ zsmul u (zmsm aR GL ⊕ zmsm bL HR ⊕ zsmul (zdot aR bL) U)
    ⊕ zsmul v (zmsm aL GR ⊕ zmsm bR HL ⊕ zsmul (zdot aL bR) U).
Proof.
  intros HaL HaR HbL HbR HGL HGR HHL HHR SG SH SU Huv. unfold ipa_value.
  rewrite !zmsm_points, !zmsm_fold_scalars, !zmsm_app, !zdot_app, zdot_fold_l by lia.
  rewrite !(zdot_comm _ (zip_with _ _ _)), !zdot_fold_l, !(zdot_comm bL), !(zdot_comm bR) by lia.
  rewrite !zsmul_point_add, <- !zsmul_mul.
  assert (EG : zsmul (v * u) (zmsm aR GR) = zmsm aR GR).
  { rewrite Z.mul_comm, (zsmul_cong _ 1) by (done || by apply zmsm_subgroup). apply zsmul_1. }
  assert (EH : zsmul (u * v) (zmsm bR HR) = zmsm bR HR).
  { rewrite (zsmul_cong _ 1) by (done || by apply zmsm_subgroup). apply zsmul_1. }
  rewrite EG, EH.
  assert (EU : zsmul (zdot aL bL + v * zdot aL bR + u * (zdot aR bL + v * zdot aR bR)) U
    = zsmul (zdot aL bL) U ⊕ zsmul (v * zdot aL bR) U ⊕ zsmul (u * zdot aR bL) U ⊕ zsmul (zdot aR bR) U).
  { rewrite <- !zsmul_add. apply zsmul_cong; [done|].
    rewrite (Z.mul_add_distr_l u), (Z.mul_assoc u v), Huv. apply cong_eq. lia. }
  rewrite EU, (zsmul_add (zdot aL bL)). aac_reflexivity.
Qed.

End Linear.

(** ** Completeness of the inner-product argument *)

Section Ipa.
Context {hs : Hashes} {ed : Edwards} {laws : EdwardsLaws}.

Lemma vals_fold (k : scalar) (l r : list scalar) :
  Forall2 cong (vals (fold_scalars k l r)) (zip_with (fun x y => x + sval k * y) (vals l) (vals r)).
Proof.
  revert r. induction l as [|x l IH]; intros [|y r]; try constructor; [|apply IH].
  unfold MultiplyAdd. rewrite sval_add, sval_mul. apply cong_eq. lia.
Qed.

Lemma fold_points_zsmul (k : scalar) (l r : list point) : fold_points k l r = zip_with (fun x y => x ⊕ zsmul (sval k) y) l r.
Proof. unfold fold_points. apply zip_with_ext; [|done|done]. intros. by rewrite scalar_mult. Qed.

Lemma ipa_value_cong (a a' b b' : list Z) (G H : list point) (U : point) :
  Forall subgroup G -> Forall subgroup H -> subgroup U -> Forall2 cong a a' -> Forall2 cong b b' ->
  ipa_value a b G H U = ipa_value a' b' G H U.
Proof.
  intros SG SH SU Ha Hb. unfold ipa_value.
  rewrite (zmsm_cong a a'), (zmsm_cong b b') by done. f_equal. apply zsmul_cong; [done|]. by apply zdot_cong.
Qed.

Lemma fold_points_subgroup (k : scalar) (l r : list point) :
  Forall subgroup l -> Forall subgroup r -> Forall subgroup (fold_points k l r).
Proof.
  intros Hl. revert r. induction Hl as [|p l Hp _ IH]; intros r Hr; [constructor|].
  destruct Hr as [|q r Hq Hr]; [constructor|]. constructor; [auto with aperod|]. by apply IH.
Qed.

Lemma replay_accumulates (tr : arr 32) (P : point) (us : list (scalar * scalar)) (l : list (point * point)) :
  foldl replay_round (tr, P, us) l
  = let '(tr', P', us') := foldl replay_round (tr, P, []) l in (tr', P', us ++ us').
Proof.
  revert tr P us. induction l as [|[L R] l IH]; intros tr P us; [simpl; by rewrite app_nil_r|].
  destruct (challenge (absorbPoint (absorbPoint tr L) R)) as [u tr1] eqn:E.
  assert (Hr : forall us, replay_round (tr, P, us) (L, R) = (tr1, P ⊕ u • L ⊕ s_Invert u • R, us ++ [(u, s_Invert u)]))
    by (intros; unfold replay_round; by rewrite E).
  cbn [foldl]. rewrite !Hr, (IH _ _ (us ++ _)), (IH _ _ ([] ++ _)).
  destruct (foldl _ _ _) as [[tr'' P''] us'']. by rewrite <- app_assoc.
Qed.

Lemma halves {A} (l : list A) (k : nat) : length l = (2 ^ S k)%nat ->
  length (take (2 ^ k) l) = (2 ^ k)%nat /\ length (drop (2 ^ k) l) = (2 ^ k)%nat /\ l = take (2 ^ k) l ++ drop (2 ^ k) l.
Proof.
  intros Hl. rewrite Nat.pow_succ_r' in Hl. rewrite length_take, length_drop. split; [lia|]. split; [lia|]. by rewrite take_drop.
Qed.

(** The value a round commits to, and the one it leaves. *)
Lemma ipa_round (k : nat) (G H : list point) (a b : list scalar) (U : point) (u : scalar) :
  length a = (2 ^ S k)%nat -> length b = (2 ^ S k)%nat -> length G = (2 ^ S k)%nat -> length H = (2 ^ S k)%nat ->
  Forall subgroup G -> Forall subgroup H -> subgroup U -> sval u <> 0 ->
  let h := (2 ^ k)%nat in
  let L := msm (drop h a) (take h G) ⊕ msm (take h b) (drop h H) ⊕ innerProduct (drop h a) (take h b) • U in
  let R := msm (take h a) (drop h G) ⊕ msm (drop h b) (take h H) ⊕ innerProduct (take h a) (drop h b) • U in
  ipa_value (vals a) (vals b) G H U ⊕ u • L ⊕ s_Invert u • R
  = ipa_value (vals (fold_scalars u (take h a) (drop h a))) (vals (fold_scalars (s_Invert u) (take h b) (drop h b)))
      (fold_points (s_Invert u) (take h G) (drop h G)) (fold_points u (take h H) (drop h H)) U.
Proof.
  intros Ha Hb HG HH SG SH SU Hu h L R.
  destruct (halves a k Ha) as (HaL & HaR & Ea), (halves b k Hb) as (HbL & HbR & Eb).
  destruct (halves G k HG) as (HGL & HGR & EG), (halves H k HH) as (HHL & HHR & EH).
  fold h in HaL, HaR, Ea, HbL, HbR, Eb, HGL, HGR, EG, HHL, HHR, EH.
  assert (SGs : Forall subgroup (take h G) /\ Forall subgroup (drop h G)) by (by apply Forall_app; rewrite <- EG).
  assert (SHs : Forall subgroup (take h H) /\ Forall subgroup (drop h H)) by (by apply Forall_app; rewrite <- EH).
  destruct SGs as [SGL SGR], SHs as [SHL SHR].
  symmetry. erewrite ipa_value_cong; [|by apply fold_points_subgroup|by apply fold_points_subgroup|done|apply vals_fold|apply vals_fold].
  rewrite !fold_points_zsmul.
  assert (Hlen : forall l : list scalar, length (vals l) = length l) by (intros; apply length_fmap).
  rewrite (ipa_round_value (sval u) (sval (s_Invert u)) _ _ _ _ _ _ _ _ U h); rewrite ?Hlen; try done; [|by apply sval_Invert].
  assert (Eva : vals a = vals (take h a) ++ vals (drop h a)) by (unfold vals; by rewrite <- fmap_app, <- Ea).
  assert (Evb : vals b = vals (take h b) ++ vals (drop h b)) by (unfold vals; by rewrite <- fmap_app, <- Eb).
  rewrite <- Eva, <- Evb, <- EG, <- EH. unfold L, R. rewrite !scalar_mult, !msm_zmsm.
  rewrite (zsmul_cong (sval (innerProduct (drop h a) (take h b))) (zdot (vals (drop h a)) (vals (take h b)))) by (done || apply inner_zdot; lia).
  rewrite (zsmul_cong (sval (innerProduct (take h a) (drop h b))) (zdot (vals (take h a)) (vals (drop h b)))) by (done || apply inner_zdot; lia).
  done.
Qed.

(** The prover returns after [k] rounds on vectors of [2 ^ k] elements, and the
    folded [P] of the verifier is the value of the final scalars and generators. *)
Lemma ipa_complete (k fuel : nat) (G H : list point) (a b : list scalar) (U : point) (tr : arr 32) (P : point) :
  (k <= fuel)%nat ->
  length a = (2 ^ k)%nat -> length b = (2 ^ k)%nat -> length G = (2 ^ k)%nat -> length H = (2 ^ k)%nat ->
  Forall subgroup G -> Forall subgroup H -> subgroup U -> P = ipa_value (vals a) (vals b) G H U ->
  exists Ls Rs aF bF, ipaProve fuel G H a b U tr = Ok (Ls, Rs, aF, bF) /\ length Ls = k /\ length Rs = k /\
    forall tr' P' us, foldl replay_round (tr, P, []) (zip Ls Rs) = (tr', P', us) ->
      Forall (fun uu => sval uu.1 <> 0) us ->
      exists g h, foldl fold_generators (G, H) us = ([g], [h])
        /\ aF • g ⊕ bF • h ⊕ s_mul aF bF • U = P'.
Proof.
  revert fuel G H a b tr P. induction k as [|k IH]; intros fuel G H a b tr P Hk Ha Hb HG HH SG SH SU ->.
  - destruct a as [|a0 [|? ?]]; try done. destruct b as [|b0 [|? ?]]; try done.
    destruct G as [|g [|? ?]]; try done. destruct H as [|h [|? ?]]; try done.
    exists [], [], a0, b0. split; [by destruct fuel|]. split; [done|]. split; [done|].
    intros tr' P' us E _. injection E as <- <- <-. exists g, h. split; [done|].
    unfold ipa_value. simpl. rewrite !scalar_mult, !add_0_r. f_equal. apply zsmul_cong; [done|]. rewrite sval_mul. apply cong_eq. lia.
  - destruct fuel as [|fuel]; [lia|]. pose proof (Nat.pow_nonzero 2 k ltac:(done)).
    assert (Hhalf : (length a / 2)%nat = (2 ^ k)%nat) by (rewrite Ha, Nat.pow_succ_r', Nat.mul_comm; apply Nat.div_mul; done).
    cbn [ipaProve]. rewrite bool_decide_eq_false_2 by (rewrite Ha, Nat.pow_succ_r'; lia).
    rewrite bool_decide_eq_true_2 by (rewrite Ha, Nat.pow_succ_r', Nat.mul_comm; apply Nat.Div0.mod_mul).
    rewrite Hhalf. cbn [negb]. set (h := (2 ^ k)%nat) in *. cbv zeta.
    set (L := msm (drop h a) (take h G) ⊕ msm (take h b) (drop h H) ⊕ innerProduct (drop h a) (take h b) • U).
    set (R := msm (take h a) (drop h G) ⊕ msm (drop h b) (take h H) ⊕ innerProduct (take h a) (drop h b) • U).
    destruct (challenge (absorbPoint (absorbPoint tr L) R)) as [u tr1] eqn:Hu.
    assert (Hz : forall A (l r : list A), length l = h -> length r = h -> length (zip l r) = h) by (intros; rewrite length_zip_with; lia).
    destruct (halves a k Ha) as (HaL & HaR & _), (halves b k Hb) as (HbL & HbR & _).
    destruct (halves G k HG) as (HGL & HGR & EG), (halves H k HH) as (HHL & HHR & EH).
    fold h in HaL, HaR, HbL, HbR, HGL, HGR, EG, HHL, HHR, EH.
    edestruct (IH fuel (fold_points (s_Invert u) (take h G) (drop h G)) (fold_points u (take h H) (drop h H))
      (fold_scalars u (take h a) (drop h a)) (fold_scalars (s_Invert u) (take h b) (drop h b)) tr1)
      as (Ls & Rs & aF & bF & E & HLs & HRs & Hrest);
      [lia|unfold fold_scalars; rewrite length_zip_with; lia..|unfold fold_points; rewrite length_zip_with; lia
      |unfold fold_points; rewrite length_zip_with; lia| | |done|reflexivity|].
    { apply fold_points_subgroup; [by apply Forall_take|by apply Forall_drop]. }
    { apply fold_points_subgroup; [by apply Forall_take|by apply Forall_drop]. }
    exists (L :: Ls), (R :: Rs), aF, bF. rewrite E. split; [done|]. split; [simpl; lia|]. split; [simpl; lia|].
    intros tr' P' us Efold Hus. cbn [zip zip_with foldl] in Efold. unfold replay_round at 2 in Efold. rewrite Hu in Efold.
    rewrite replay_accumulates in Efold. cbn [app] in Efold.
    destruct (foldl replay_round (tr1, ipa_value (vals a) (vals b) G H U ⊕ u • L ⊕ s_Invert u • R, []) (zip Ls Rs))
      as [[tr2 P2] us2] eqn:E2. injection Efold as <- <- <-.
    inversion_clear Hus as [|? ? Hu0 Hus2]. simpl in Hu0.
    pose proof (ipa_round k G H a b U u Ha Hb HG HH SG SH SU Hu0) as Hround. fold h in Hround. cbv zeta in Hround.
    fold L R in Hround. rewrite Hround in E2.
    destruct (Hrest _ _ _ E2 Hus2) as (g & hh & Eg & Ep). exists g, hh. split; [|done].
    cbn [foldl fold_generators]. rewrite HG, Nat.pow_succ_r', Nat.mul_comm, Nat.div_mul by done. exact Eg.
Qed.

End Ipa.

(** ** The polynomial identities *)

Section Range.
Context {hs : Hashes} {ed : Edwards} {laws : EdwardsLaws}.

(** Push [sval] through the scalar operations and compare the polynomials. *)
Ltac cring :=
  unfold MultiplyAdd in *;
  rewrite ?sval_add, ?sval_mul, ?sval_sub, ?sval_neg, ?sval_add, ?sval_mul, ?sval_sub, ?sval_neg,
    ?sval_add, ?sval_mul, ?sval_sub, ?sval_neg, ?sval_zero;
  apply cong_eq; ring.

Lemma scalarOne_val : sval scalarOne = 1.
Proof.
  unfold scalarOne. destruct (canonical_total (x01 :: replicate 31 x00)) as [s Hs]; [done|vm_compute; reflexivity|].
  rewrite Hs. simpl. apply canonical_bytes in Hs as [_ <-]. vm_compute. reflexivity.
Qed.

Lemma length_powers (v b : scalar) (n : nat) : length (powers v b n) = n.
Proof. revert v. induction n as [|n IH]; intros v; simpl; [done|]. by rewrite IH. Qed.

(** [l(x)] against the generators [G]. *)
Lemma msm_left (z x : scalar) (aL sL : list scalar) (G : list point) :
  length aL = length G -> length sL = length G -> Forall subgroup G ->
  msm (vecAddVec (vecSubS aL z) (vecScale x sL)) G
  = msm aL G ⊕ zsmul (sval x) (msm sL G) ⊕ zsmul (- sval z) (psum G).
Proof.
  rewrite !msm_zmsm. revert aL sL. induction G as [|g G IH]; intros [|a aL] [|s sL] Ha Hs HG; try done.
  - simpl. rewrite !zsmul_identity. aac_reflexivity.
  - inversion_clear HG. unfold vals. csimpl. fold (vals aL) (vals sL).
    fold (vecAddVec (vecSubS aL z) (vecScale x sL)). fold (vals (vecAddVec (vecSubS aL z) (vecScale x sL))).
    rewrite IH by (simpl in *; done || lia). rewrite !zsmul_point_add.
    assert (E : zsmul (sval (s_add (s_sub a z) (s_mul x s))) g
      = zsmul (sval a) g ⊕ zsmul (sval x) (zsmul (sval s) g) ⊕ zsmul (- sval z) g).
    { rewrite <- zsmul_mul, <- !zsmul_add. apply zsmul_cong; [done|]. cring. }
    rewrite E. aac_reflexivity.
Qed.

(** [r(x)] against the generators [H'[i] = y^-i H[i]]. *)
Lemma msm_right (z z2 x y yi v vi : scalar) (n : nat) (aR sR two : list scalar) (Hs : list point) :
  length aR = n -> length sR = n -> length two = n -> length Hs = n -> Forall subgroup Hs ->
  sval y * sval yi ≡l 1 -> sval v * sval vi ≡l 1 ->
  msm (vecAddVec (vecAddVec (vecHadamard (powers v y n) (vecAddS aR z)) (vecScale z2 two))
         (vecScale x (vecHadamard (powers v y n) sR))) (zip_with ScalarMult (powers vi yi n) Hs)
  = msm aR Hs ⊕ zsmul (sval x) (msm sR Hs) ⊕ zsmul (sval z) (psum Hs)
    ⊕ zsmul (sval z2) (msm two (zip_with ScalarMult (powers vi yi n) Hs)).
Proof.
  rewrite !msm_zmsm. intros Ha Hsl Ht Hl SH Ey. revert v vi aR sR two Hs Ha Hsl Ht Hl SH.
  induction n as [|n IH]; intros v vi [|a aR] [|s sR] [|t two] [|h Hs] Ha Hsl Ht Hl SH Ev; try done.
  - simpl. rewrite !zsmul_identity. aac_reflexivity.
  - inversion_clear SH as [|? ? Sh SHs]. specialize (IH (s_mul v y) (s_mul vi yi) aR sR two Hs).
    unfold vecHadamard, vecAddVec, vecAddS, vecScale, vals, psum in *. csimpl.
    rewrite IH; clear IH; [|simpl in *; lia..|done|].
    2: { rewrite !sval_mul. rewrite <- (Z.mul_1_l 1), <- Ev at 1. rewrite <- Ey. apply cong_eq. ring. }
    rewrite !zsmul_point_add.
    assert (E : zsmul (sval (s_add (s_add (s_mul v (s_add a z)) (s_mul z2 t)) (s_mul x (s_mul v s)))) (vi • h)
      = zsmul (sval a) h ⊕ zsmul (sval x) (zsmul (sval s) h) ⊕ zsmul (sval z) h ⊕ zsmul (sval z2) (zsmul (sval t) (vi • h))).
    { rewrite !scalar_mult, <- !zsmul_mul, <- !zsmul_add. apply zsmul_cong; [done|].
      rewrite !sval_add, !sval_mul, !sval_add.
      transitivity ((sval v * sval vi) * (sval a + sval z + sval x * sval s) + sval z2 * sval t * sval vi); [apply cong_eq; ring|].
      rewrite Ev. apply cong_eq. ring. }
    rewrite E. aac_reflexivity.
Qed.

(** The loop that rebuilds [P]. *)
Lemma p_turns (z z2 : scalar) (P : point) (two : list scalar) (G Hs Hp : list point) :
  length Hs = length G -> length two = length G -> length Hp = length G ->
  Forall subgroup G -> Forall subgroup Hp ->
  foldl (p_turn z z2) P (zip (zip G Hs) (zip two Hp))
  = P ⊕ zsmul (- sval z) (psum G) ⊕ zsmul (sval z) (psum Hs) ⊕ zsmul (sval z2) (msm two Hp).
Proof.
  rewrite msm_zmsm. revert P two Hs Hp.
  induction G as [|g G IH]; intros P [|t two] [|h Hs] [|p Hp] H1 H2 H3 SG SP; try done.
  - simpl. rewrite !zsmul_identity. aac_reflexivity.
  - inversion_clear SG. inversion_clear SP. cbn [zip zip_with foldl p_turn]. rewrite IH by (simpl in *; done || lia).
    unfold vals. csimpl. rewrite !zsmul_point_add.
    assert (E1 : s_neg z • g = zsmul (- sval z) g) by (apply smult_cong; [done|apply sval_neg]).
    assert (E2 : s_mul z2 t • p = zsmul (sval z2) (zsmul (sval t) p)) by (rewrite <- zsmul_mul; apply smult_cong; [done|apply sval_mul]).
    rewrite E1, E2, (scalar_mult z h). aac_reflexivity.
Qed.

(** [t(x) = t0 + t1 x + t2 x^2] *)
Lemma inner_expand (x : scalar) (l0 l1 r0 r1 : list scalar) :
  length l1 = length l0 -> length r0 = length l0 -> length r1 = length l0 ->
  zdot (vals (vecAddVec l0 (vecScale x l1))) (vals (vecAddVec r0 (vecScale x r1)))
  ≡l zdot (vals l0) (vals r0) + sval x * (zdot (vals l0) (vals r1) + zdot (vals l1) (vals r0))
     + sval x * sval x * zdot (vals l1) (vals r1).
Proof.
  revert l1 r0 r1. induction l0 as [|a l0 IH]; intros [|b l1] [|c r0] [|d r1] H1 H2 H3; try done;
    [apply cong_eq; simpl; ring|].
  unfold vals, vecAddVec, vecScale in *. csimpl. rewrite IH by (simpl in *; lia).
  rewrite !sval_add, !sval_mul. apply cong_eq. ring.
Qed.

(** [t0 = z^2 v + delta(y,z)]: the vectors of bits satisfy the range relation. *)
Lemma inner_bits (z z2 : scalar) (aL ys two : list scalar) :
  sval z2 ≡l sval z * sval z -> length ys = length aL -> length two = length aL ->
  Forall (fun a => sval a = 0 \/ sval a = 1) aL ->
  zdot (vals (vecSubS aL z))
       (vals (vecAddVec (vecHadamard ys (vecAddS ((fun a => s_sub a scalarOne) <$> aL) z)) (vecScale z2 two)))
  ≡l sval z2 * zdot (vals aL) (vals two) + (sval z - sval z2) * sumZ sval ys - sval z2 * sval z * sumZ sval two.
Proof.
  intros Ez. revert ys two. induction aL as [|a aL IH]; intros [|y ys] [|t two] H1 H2 Hb; try done.
  - simpl. apply cong_eq. ring.
  - inversion_clear Hb as [|? ? Ha Hb']. unfold vals, vecSubS, vecAddVec, vecHadamard, vecAddS, vecScale in *. csimpl.
    rewrite IH by (simpl in *; done || lia).
    rewrite !sval_add, !sval_mul, !sval_add, !sval_sub, scalarOne_val, Ez.
    destruct Ha as [-> | ->]; apply cong_eq; ring.
Qed.

Lemma foldl_sum (acc : scalar) (l : list scalar) : sval (foldl s_add acc l) ≡l sval acc + sumZ sval l.
Proof.
  revert acc. induction l as [|s l IH]; intros acc; simpl; [by rewrite Z.add_0_r|].
  rewrite IH, sval_add. apply cong_eq. ring.
Qed.

Lemma delta_val (z z2 z3 : scalar) (yn town : list scalar) : sval z3 ≡l sval z2 * sval z ->
  sval (delta_yz z z2 z3 yn town) ≡l (sval z - sval z2) * sumZ sval yn - sval z2 * sval z * sumZ sval town.
Proof.
  intros E. unfold delta_yz, MultiplyAdd. rewrite sval_add, sval_mul, sval_neg, sval_mul, sval_sub, !foldl_sum, sval_zero, E.
  apply cong_eq. ring.
Qed.

Lemma bit_val (v : Z) (i : nat) : sval (bit_scalar v i) = Z.shiftr v (Z.of_nat i) mod 2.
Proof.
  unfold bit_scalar. change 1 with (Z.ones 1). rewrite Z.land_ones, Z.pow_1_r by lia.
  apply scalarFromUint64_val. pose proof (Z.mod_pos_bound (Z.shiftr v (Z.of_nat i)) 2 ltac:(lia)). u64lia.
Qed.

(** The bits of a value, weighted by powers of two. *)
Lemma bits_value (v : Z) (k n : nat) (acc : scalar) : 0 <= v -> sval acc ≡l 2 ^ Z.of_nat k ->
  zdot (vals (bit_scalar v <$> seq k n)) (vals (powers acc (scalarFromUint64 2) n))
  ≡l 2 ^ Z.of_nat k * ((v / 2 ^ Z.of_nat k) mod 2 ^ Z.of_nat n).
Proof.
  intros Hv. revert k acc. induction n as [|n IH]; intros k acc Hacc.
  - simpl. rewrite Z.mod_1_r, Z.mul_0_r. done.
  - unfold vals in *. csimpl. rewrite (IH (S k)).
    2: { rewrite sval_mul, scalarFromUint64_val, Hacc by u64lia. rewrite Nat2Z.inj_succ, Z.pow_succ_r by lia. apply cong_eq. ring. }
    rewrite bit_val, Z.shiftr_div_pow2 by lia.
    rewrite Hacc, !Nat2Z.inj_succ, !Z.pow_succ_r by lia.
    assert (Hp : 0 < 2 ^ Z.of_nat k) by (apply Z.pow_pos_nonneg; lia).
    assert (Hq : 0 < 2 ^ Z.of_nat n) by (apply Z.pow_pos_nonneg; lia).
    rewrite (Z.mul_comm 2 (2 ^ Z.of_nat k)), <- Z.div_div by lia.
    set (w := v / 2 ^ Z.of_nat k). rewrite (Z.mul_comm 2 (2 ^ Z.of_nat n)), (Z.mul_comm (2 ^ Z.of_nat n) 2), Z.rem_mul_r by lia.
    apply cong_eq. ring.
Qed.

End Range.

(** ** Completeness *)

Section Complete.
Context {hs : Hashes} {ed : Edwards} {laws : EdwardsLaws}.

Lemma generator_subgroup (seed : list byte) : subgroup (generator seed).
Proof.
  unfold generator, hashToPoint. destruct (try_increment _ _ _ _) eqn:E; [|apply subgroup_identity].
  by apply try_increment_subgroup in E as [E _].
Qed.

Lemma generators_subgroup {A} (f : A -> list byte) (l : list A) : Forall subgroup ((fun i => generator (f i)) <$> l).
Proof. induction l as [|i l IH]; constructor; [apply generator_subgroup|exact IH]. Qed.

Lemma Gvec_subgroup : Forall subgroup bpGvec.
Proof. exact (generators_subgroup _ (seq 0 bpBits)). Qed.
Lemma Hvec_subgroup : Forall subgroup bpHvec.
Proof. exact (generators_subgroup _ (seq 0 bpBits)). Qed.
Lemma Gvec_length : length bpGvec = bpBits.
Proof. unfold bpGvec. rewrite length_fmap. apply length_seq. Qed.
Lemma Hvec_length : length bpHvec = bpBits.
Proof. unfold bpHvec. rewrite length_fmap. apply length_seq. Qed.

Lemma h_prime_subgroup (y : scalar) : Forall subgroup (h_prime y).
Proof.
  unfold h_prime. generalize (powerVec (s_Invert y) bpBits). pose proof Hvec_subgroup as SH.
  induction SH as [|h Hs Sh _ IH]; intros [|p ps]; constructor; auto with aperod.
Qed.
Lemma h_prime_length (y : scalar) : length (h_prime y) = bpBits.
Proof. unfold h_prime, powerVec. rewrite length_zip_with, length_powers, Hvec_length. lia. Qed.

(** The vectors of the prover. *)
Record vectors := { v_aL : list scalar; v_sL : list scalar; v_sR : list scalar }.
Definition good_vectors (value : Z) (vs : vectors) : Prop :=
  v_aL vs = bit_scalar value <$> seq 0 bpBits /\ length (v_sL vs) = bpBits /\ length (v_sR vs) = bpBits.
Definition v_aR (vs : vectors) : list scalar := (fun a => s_sub a scalarOne) <$> v_aL vs.
Definition v_l0 (z : scalar) (vs : vectors) : list scalar := vecSubS (v_aL vs) z.
Definition v_r0 (y z : scalar) (vs : vectors) : list scalar :=
  vecAddVec (vecHadamard (powerVec y bpBits) (vecAddS (v_aR vs) z)) (vecScale (s_mul z z) (pow2Vec bpBits)).
Definition v_r1 (y : scalar) (vs : vectors) : list scalar := vecHadamard (powerVec y bpBits) (v_sR vs).
Definition v_l (z x : scalar) (vs : vectors) : list scalar := vecAddVec (v_l0 z vs) (vecScale x (v_sL vs)).
Definition v_r (y z x : scalar) (vs : vectors) : list scalar := vecAddVec (v_r0 y z vs) (vecScale x (v_r1 y vs)).

Section Vectors.
Variables (value : Z) (vs : vectors).
Hypothesis Hvalue : is_u64 value.
Hypothesis Hvs : good_vectors value vs.

Lemma length_aL : length (v_aL vs) = bpBits.
Proof. destruct Hvs as (-> & _). by rewrite length_fmap, length_seq. Qed.

Lemma length_vecs (y z x : scalar) :
  length (v_aR vs) = bpBits /\ length (v_l0 z vs) = bpBits /\ length (v_r0 y z vs) = bpBits /\ length (v_r1 y vs) = bpBits
  /\ length (v_l z x vs) = bpBits /\ length (v_r y z x vs) = bpBits.
Proof.
  destruct Hvs as (_ & HsL & HsR). pose proof length_aL as HaL.
  assert (HaR : length (v_aR vs) = bpBits) by (unfold v_aR; by rewrite length_fmap).
  assert (Hl0 : length (v_l0 z vs) = bpBits) by (unfold v_l0, vecSubS; by rewrite length_fmap).
  assert (Hr0 : length (v_r0 y z vs) = bpBits).
  { unfold v_r0, vecAddVec, vecHadamard, vecAddS, vecScale, pow2Vec, powerVec.
    rewrite !length_zip_with, !length_fmap, !length_powers. lia. }
  assert (Hr1 : length (v_r1 y vs) = bpBits) by (unfold v_r1, vecHadamard, powerVec; rewrite length_zip_with, length_powers; lia).
  unfold v_l, v_r, vecAddVec, vecScale. rewrite !length_zip_with, !length_fmap. do 4 (split; [done|]). lia.
Qed.

Lemma bits_01 : Forall (fun a => sval a = 0 \/ sval a = 1) (v_aL vs).
Proof.
  destruct Hvs as (-> & _). apply Forall_fmap, list.Forall_forall. intros i _. unfold compose. rewrite bit_val.
  pose proof (Z.mod_pos_bound (Z.shiftr value (Z.of_nat i)) 2 ltac:(lia)). lia.
Qed.

Lemma bits_sum : zdot (vals (v_aL vs)) (vals (pow2Vec bpBits)) ≡l value.
Proof.
  destruct Hvs as (-> & _). unfold pow2Vec, powerVec. rewrite (bits_value value 0 bpBits).
  - change (2 ^ Z.of_nat 0) with 1. change (2 ^ Z.of_nat bpBits) with U64.
    rewrite Z.div_1_r, Z.mul_1_l, Z.mod_small by exact Hvalue. done.
  - apply Hvalue.
  - by rewrite scalarOne_val.
Qed.

(** The inner product of the evaluated polynomials. *)
Lemma t_hat (y z x : scalar) :
  sval (innerProduct (v_l z x vs) (v_r y z x vs))
  ≡l sval z * sval z * value
     + sval (delta_yz z (s_mul z z) (s_mul (s_mul z z) z) (powerVec y bpBits) (pow2Vec bpBits))
     + sval x * sval (s_add (innerProduct (v_l0 z vs) (v_r1 y vs)) (innerProduct (v_sL vs) (v_r0 y z vs)))
     + sval x * sval x * sval (innerProduct (v_sL vs) (v_r1 y vs)).
Proof.
  destruct (length_vecs y z x) as (HaR & Hl0 & Hr0 & Hr1 & Hl & Hr). pose proof Hvs as (_ & HsL & HsR). pose proof length_aL as HaL.
  rewrite inner_zdot by lia. unfold v_l, v_r. rewrite inner_expand by lia.
  rewrite delta_val by apply sval_mul. rewrite sval_add, !inner_zdot by lia.
  assert (E0 : zdot (vals (v_l0 z vs)) (vals (v_r0 y z vs))
    ≡l sval (s_mul z z) * zdot (vals (v_aL vs)) (vals (pow2Vec bpBits))
       + (sval z - sval (s_mul z z)) * sumZ sval (powerVec y bpBits) - sval (s_mul z z) * sval z * sumZ sval (pow2Vec bpBits)).
  { apply inner_bits; [apply sval_mul|unfold powerVec; rewrite length_powers; lia
      |unfold pow2Vec, powerVec; rewrite length_powers; lia|apply bits_01]. }
  rewrite E0, bits_sum, sval_mul. apply cong_eq. ring.
Qed.

(** The commitment to the polynomial verifies. *)
Lemma polynomial_check (y z x gamma tau1 tau2 : scalar) :
  let z2 := s_mul z z in
  let x2 := s_mul x x in
  let t1v := s_add (innerProduct (v_l0 z vs) (v_r1 y vs)) (innerProduct (v_sL vs) (v_r0 y z vs)) in
  let t2v := innerProduct (v_sL vs) (v_r1 y vs) in
  innerProduct (v_l z x vs) (v_r y z x vs) • hGenerator
    ⊕ ScalarBaseMult (MultiplyAdd z2 gamma (MultiplyAdd tau1 x (MultiplyAdd tau2 x2 s_zero)))
  = z2 • (ScalarBaseMult gamma ⊕ scalarFromUint64 value • hGenerator)
    ⊕ delta_yz z z2 (s_mul z2 z) (powerVec y bpBits) (pow2Vec bpBits) • hGenerator
    ⊕ x • (ScalarBaseMult tau1 ⊕ t1v • hGenerator) ⊕ x2 • (ScalarBaseMult tau2 ⊕ t2v • hGenerator).
Proof.
  cbv zeta. unfold ScalarBaseMult. rewrite !scalar_mult, !zsmul_point_add, <- !zsmul_mul.
  rewrite scalarFromUint64_val by done. rewrite (zsmul_cong (sval (innerProduct _ _)) _ hGenerator hGenerator_subgroup (t_hat y z x)).
  set (d := delta_yz _ _ _ _ _). set (t1v := s_add _ _). set (t2v := innerProduct _ _).
  assert (EB : zsmul (sval (MultiplyAdd (s_mul z z) gamma (MultiplyAdd tau1 x (MultiplyAdd tau2 (s_mul x x) s_zero)))) base_point
    = zsmul (sval (s_mul z z) * sval gamma) base_point ⊕ zsmul (sval x * sval tau1) base_point ⊕ zsmul (sval (s_mul x x) * sval tau2) base_point).
  { rewrite <- !zsmul_add. apply zsmul_cong; [apply subgroup_base|]. unfold MultiplyAdd.
    rewrite ?sval_add, ?sval_mul, ?sval_add, ?sval_mul, ?sval_add, ?sval_mul, ?sval_zero. apply cong_eq. ring. }
  assert (EH : zsmul (sval z * sval z * value + sval d + sval x * sval t1v + sval x * sval x * sval t2v) hGenerator
    = zsmul (sval (s_mul z z) * value) hGenerator ⊕ zsmul (sval d) hGenerator ⊕ zsmul (sval x * sval t1v) hGenerator
      ⊕ zsmul (sval (s_mul x x) * sval t2v) hGenerator).
  { rewrite <- !zsmul_add. apply zsmul_cong; [apply hGenerator_subgroup|]. by rewrite !sval_mul. }
  rewrite EB, EH. aac_reflexivity.
Qed.

(** The rebuilt [P] is the value the inner-product argument is about. *)
Lemma rebuilt_P (y z x w alpha rho : scalar) : sval y <> 0 ->
  foldl (p_turn z (s_mul z z))
    (commit_vectors alpha (v_aL vs) (v_aR vs) ⊕ x • commit_vectors rho (v_sL vs) (v_sR vs)
       ⊕ ScalarBaseMult (s_neg (MultiplyAdd rho x alpha)) ⊕ innerProduct (v_l z x vs) (v_r y z x vs) • (w • bpU))
    (zip (zip bpGvec bpHvec) (zip (pow2Vec bpBits) (h_prime y)))
  = ipa_value (vals (v_l z x vs)) (vals (v_r y z x vs)) bpGvec (h_prime y) (w • bpU).
Proof.
  intros Hy. destruct (length_vecs y z x) as (HaR & Hl0 & Hr0 & Hr1 & Hl & Hr). pose proof Hvs as (_ & HsL & HsR). pose proof length_aL as HaL.
  pose proof Gvec_length as HG. pose proof Hvec_length as HH. pose proof (h_prime_length y) as Hh.
  assert (H2 : length (pow2Vec bpBits) = bpBits) by (unfold pow2Vec, powerVec; apply length_powers).
  rewrite p_turns by (apply Gvec_subgroup || apply h_prime_subgroup || lia).
  unfold ipa_value. rewrite <- !msm_zmsm.
  assert (EL : msm (v_l z x vs) bpGvec
    = msm (v_aL vs) bpGvec ⊕ zsmul (sval x) (msm (v_sL vs) bpGvec) ⊕ zsmul (- sval z) (psum bpGvec)).
  { apply msm_left; [lia|lia|apply Gvec_subgroup]. }
  assert (ER : msm (v_r y z x vs) (h_prime y)
    = msm (v_aR vs) bpHvec ⊕ zsmul (sval x) (msm (v_sR vs) bpHvec) ⊕ zsmul (sval z) (psum bpHvec)
      ⊕ zsmul (sval (s_mul z z)) (msm (pow2Vec bpBits) (h_prime y))).
  { apply msm_right; [lia..|apply Hvec_subgroup|by apply sval_Invert|by rewrite scalarOne_val]. }
  rewrite EL, ER.
  assert (Et : innerProduct (v_l z x vs) (v_r y z x vs) • (w • bpU) = zsmul (zdot (vals (v_l z x vs)) (vals (v_r y z x vs))) (w • bpU)).
  { apply smult_cong; [apply subgroup_smult, generator_subgroup|]. apply inner_zdot. lia. }
  rewrite Et. unfold commit_vectors. rewrite (scalar_mult x), !zsmul_point_add.
  assert (Ez : ScalarBaseMult alpha ⊕ zsmul (sval x) (ScalarBaseMult rho) ⊕ ScalarBaseMult (s_neg (MultiplyAdd rho x alpha)) = identity).
  { unfold ScalarBaseMult. rewrite !scalar_mult, <- zsmul_mul, <- !zsmul_add. rewrite (zsmul_cong _ 0); [apply zsmul_0|apply subgroup_base|].
    unfold MultiplyAdd. rewrite sval_neg, sval_add, sval_mul. apply cong_eq. ring. }
  set (B1 := ScalarBaseMult alpha) in *. set (B2 := zsmul (sval x) (ScalarBaseMult rho)) in *.
  set (B3 := ScalarBaseMult (s_neg _)) in *.
  transitivity ((B1 ⊕ B2 ⊕ B3) ⊕ (msm (v_aL vs) bpGvec ⊕ zsmul (sval x) (msm (v_sL vs) bpGvec) ⊕ zsmul (- sval z) (psum bpGvec)
    ⊕ (msm (v_aR vs) bpHvec ⊕ zsmul (sval x) (msm (v_sR vs) bpHvec) ⊕ zsmul (sval z) (psum bpHvec)
       ⊕ zsmul (sval (s_mul z z)) (msm (pow2Vec bpBits) (h_prime y)))
    ⊕ zsmul (zdot (vals (v_l z x vs)) (vals (v_r y z x vs))) (w • bpU))); [aac_reflexivity|].
  rewrite Ez. apply add_0_l.
Qed.

End Vectors.

(** *** The proof verifies *)

(** The challenges [y] and [u_k] of the transcript of a proof, those the verifier inverts. *)
Definition round_bytes (st : arr 32 * list scalar) (LR : arr 32 * arr 32) : arr 32 * list scalar :=
  let '(tr, us) := st in
  let '(u, tr') := challenge (absorb (absorb tr (arr_list LR.1)) (arr_list LR.2)) in
  (tr', us ++ [u]).

Definition inverted_challenges (pf : RangeProof) : list scalar :=
  let absorb32 := fun tr (b : arr 32) => absorb tr (arr_list b) in
  let tr := foldl absorb32 (newBPTranscript "range-proof/v2") [rp_V pf; rp_A pf; rp_S pf] in
  let '(y, tr) := challenge tr in
  let '(_, tr) := challenge tr in
  let '(_, tr) := challenge (foldl absorb32 tr [rp_T1 pf; rp_T2 pf]) in
  let '(_, tr) := challenge (foldl absorb32 tr [rp_Taux pf; rp_Mu pf; rp_Tx pf]) in
  y :: snd (foldl round_bytes (tr, []) (zip (rp_Ls pf) (rp_Rs pf))).

Lemma round_bytes_replay (tr : arr 32) (P : point) (us : list (scalar * scalar)) (vs : list scalar) (Ls Rs : list point) :
  vs = us.*1 -> snd (foldl round_bytes (tr, vs) (zip (p_Bytes <$> Ls) (p_Bytes <$> Rs)))
  = (snd (foldl replay_round (tr, P, us) (zip Ls Rs))).*1.
Proof.
  intros ->. revert tr P us Rs. induction Ls as [|L Ls IH]; intros tr P us [|R Rs]; try done. rewrite !fmap_cons. cbn [zip_with foldl].
  destruct (challenge (absorb (absorb tr (arr_list (p_Bytes L))) (arr_list (p_Bytes R)))) as [u tr1] eqn:E.
  assert (E1 : round_bytes (tr, us.*1) (p_Bytes L, p_Bytes R) = (tr1, us.*1 ++ [u])).
  { unfold round_bytes. cbn [fst snd]. by rewrite E. }
  assert (E2 : exists P', replay_round (tr, P, us) (L, R) = (tr1, P', us ++ [(u, s_Invert u)])).
  { unfold replay_round, absorbPoint. cbn [fst snd]. rewrite E. by eexists. }
  destruct E2 as [P' E2]. rewrite E1, E2. rewrite <- (IH tr1 P'). by rewrite fmap_app.
Qed.

Lemma draw_pairs_length (n : nat) (t : list (arr 64)) :
  exists ls rs t', draw_pairs n t = (ls, rs, t') /\ length ls = n /\ length rs = n.
Proof.
  revert t. induction n as [|n IH]; intros t; [by exists [], [], t|]. simpl.
  destruct (draw_blind t) as [l t1]. destruct (draw_blind t1) as [r t2].
  destruct (IH t2) as (ls & rs & t3 & -> & Hl & Hr). exists (l :: ls), (r :: rs), t3. simpl. auto.
Qed.

Lemma decode_rounds_ok (Ls Rs : list point) : length Ls = bpLog -> length Rs = bpLog ->
  decode_rounds (p_Bytes <$> Ls) (p_Bytes <$> Rs) = Ok (zip Ls Rs).
Proof.
  intros HL HR. destruct Ls as [|L0 [|L1 [|L2 [|L3 [|L4 [|L5 [|? ?]]]]]]]; try done.
  destruct Rs as [|R0 [|R1 [|R2 [|R3 [|R4 [|R5 [|? ?]]]]]]]; try done.
  unfold decode_rounds, decPt. simpl. repeat (rewrite !point_bytes; simpl). done.
Qed.

Lemma decPt_point (p : point) (name : string) : decPt (p_Bytes p) name = Ok p.
Proof. unfold decPt. by rewrite point_bytes. Qed.
Lemma decSc_scalar (s : scalar) (name : string) : decSc (s_Bytes s) name = Ok s.
Proof. unfold decSc. by rewrite SetCanonicalBytes_scalar. Qed.

(** The challenge [z] that anyone derives from a proof. *)
Definition public_z (pf : RangeProof) : scalar :=
  let tr := foldl (fun tr (b : arr 32) => absorb tr (arr_list b)) (newBPTranscript "range-proof/v2") [rp_V pf; rp_A pf; rp_S pf] in
  let '(_, tr) := challenge tr in
  let '(z, _) := challenge tr in z.

(** The blinding factors of [T1] and [T2], and what is left of the random stream. *)
Definition taus (t : list (arr 64)) : scalar * scalar * list (arr 64) :=
  let '(_, t1) := draw_blind t in
  let '(_, _, t2) := draw_pairs bpBits t1 in
  let '(_, t3) := draw_blind t2 in
  let '(tau1, t4) := draw_blind t3 in
  let '(tau2, t5) := draw_blind t4 in
  (tau1, tau2, t5).

(** What the prover returns: a proof about the commitment, with [taux] as it is defined,
    that verifies unless an inverted challenge is zero. *)
Lemma ProveRange_result (value : Z) (gamma : scalar) (t : list (arr 64)) : is_u64 value ->
  exists pf x, let '(tau1, tau2, t') := taus t in
    ProveRange value (s_Bytes gamma) t = Ok (pf, t')
    /\ Commit value (s_Bytes gamma) = Ok (ValueCommit pf)
    /\ rp_Taux pf = s_Bytes (MultiplyAdd (s_mul (public_z pf) (public_z pf)) gamma
         (MultiplyAdd tau1 x (MultiplyAdd tau2 (s_mul x x) s_zero)))
    /\ (Forall (fun s => sval s <> 0) (inverted_challenges pf) -> VerifyRange (Some pf) = Ok true).
Proof.
  intros Hu. unfold ProveRange, taus. rewrite ScalarFromBytes_scalar. cbn [errorf mbind result_bind].
  set (V := ScalarBaseMult gamma ⊕ scalarFromUint64 value • hGenerator).
  destruct (draw_blind t) as [alpha t1]. destruct (draw_pairs_length bpBits t1) as (sL & sR & t2 & -> & HsL & HsR).
  destruct (draw_blind t2) as [rho t3].
  set (vs := Build_vectors (bit_scalar value <$> seq 0 bpBits) sL sR).
  assert (Hvs : good_vectors value vs) by done.
  change ((fun a => s_sub a scalarOne) <$> (bit_scalar value <$> seq 0 bpBits)) with (v_aR vs).
  change (bit_scalar value <$> seq 0 bpBits) with (v_aL vs). change sL with (v_sL vs). change sR with (v_sR vs).
  set (A := commit_vectors alpha (v_aL vs) (v_aR vs)). set (S := commit_vectors rho (v_sL vs) (v_sR vs)). cbv zeta.
  destruct (challenge (absorbPoint (absorbPoint (absorbPoint (newBPTranscript "range-proof/v2") V) A) S)) as [y tr1] eqn:Ey.
  destruct (challenge tr1) as [z tr2] eqn:Ez.
  destruct (draw_blind t3) as [tau1 t4]. destruct (draw_blind t4) as [tau2 t5].
  change (vecSubS (v_aL vs) z) with (v_l0 z vs).
  change (vecAddVec (vecHadamard (powerVec y bpBits) (vecAddS (v_aR vs) z)) (vecScale (s_mul z z) (pow2Vec bpBits))) with (v_r0 y z vs).
  change (vecHadamard (powerVec y bpBits) (v_sR vs)) with (v_r1 y vs).
  set (T1 := ScalarBaseMult tau1 ⊕ _ • hGenerator). set (T2 := ScalarBaseMult tau2 ⊕ _ • hGenerator).
  destruct (challenge (absorbPoint (absorbPoint tr2 T1) T2)) as [x tr3] eqn:Ex.
  change (vecAddVec (v_l0 z vs) (vecScale x (v_sL vs))) with (v_l z x vs).
  change (vecAddVec (v_r0 y z vs) (vecScale x (v_r1 y vs))) with (v_r y z x vs).
  set (txHat := innerProduct (v_l z x vs) (v_r y z x vs)). set (taux := MultiplyAdd (s_mul z z) gamma _). set (mu := MultiplyAdd rho x alpha).
  destruct (challenge (absorbScalar (absorbScalar (absorbScalar tr3 taux) mu) txHat)) as [w tr4] eqn:Ew.
  destruct (length_vecs value vs Hvs y z x) as (_ & _ & _ & _ & Hl & Hr).
  destruct (ipa_complete bpLog bpLog bpGvec (h_prime y) (v_l z x vs) (v_r y z x vs) (w • bpU) tr4 _ (le_n _)
    Hl Hr Gvec_length (h_prime_length y) Gvec_subgroup (h_prime_subgroup y) (subgroup_smult _ _ (generator_subgroup _)) eq_refl)
    as (Ls & Rs & aF & bF & Eipa & HLs & HRs & Hfin).
  rewrite Eipa. eexists _, x. split; [reflexivity|]. split; [unfold Commit; by rewrite ScalarFromBytes_scalar|].
  assert (Epz : forall pf : RangeProof, rp_V pf = p_Bytes V -> rp_A pf = p_Bytes A -> rp_S pf = p_Bytes S -> public_z pf = z).
  { intros pf E1 E2 E3. unfold public_z. rewrite E1, E2, E3. cbn [foldl]. unfold absorbPoint in Ey. by rewrite Ey, Ez. }
  rewrite Epz by done. split; [done|].
  intros Hch. unfold inverted_challenges in Hch. cbn [rp_V rp_A rp_S rp_T1 rp_T2 rp_Taux rp_Mu rp_Tx rp_Ls rp_Rs foldl] in Hch.
  unfold absorbPoint, absorbScalar in Ey, Ex, Ew. rewrite Ey, Ez, Ex, Ew in Hch.
  inversion_clear Hch as [|? ? Hy Hus].
  unfold VerifyRange. cbn [ValueCommit rp_V rp_A rp_S rp_T1 rp_T2 rp_Taux rp_Mu rp_Tx rp_AFin rp_BFin rp_Ls rp_Rs].
  rewrite bool_decide_eq_false_2 by (intros []; done).
  rewrite !decPt_point, !decSc_scalar, decode_rounds_ok by done. cbn [mbind result_bind]. cbv zeta.
  unfold absorbPoint, absorbScalar at 1 2 3. rewrite Ey, Ez, Ex, Ew.
  rewrite bool_decide_eq_false_2.
  2: { intros Hne. apply Hne. apply (polynomial_check value vs Hu Hvs y z x gamma tau1 tau2). }
  unfold A, S, mu, txHat. rewrite (rebuilt_P value vs Hvs y z x w alpha rho Hy).
  rewrite (round_bytes_replay tr4 (ipa_value (vals (v_l z x vs)) (vals (v_r y z x vs)) bpGvec (h_prime y) (w • bpU)) [] [] Ls Rs eq_refl) in Hus.
  destruct (foldl replay_round _ (zip Ls Rs)) as [[tr5 P5] us] eqn:Efold.
  destruct (Hfin tr5 P5 us eq_refl (proj1 (list.Forall_fmap fst (fun s => sval s <> 0) us) Hus)) as (g & h & Eg & Ep).
  rewrite Eg. cbn [head from_option id]. by rewrite Ep, bool_decide_eq_true_2.
Qed.


(** The range proof of any 64-bit value under any blinding factor is produced, is a
    proof about the Pedersen commitment to the value, and verifies unless one of the
    challenges the verifier inverts is zero. *)
Theorem range_proof_complete (value : Z) (gamma : scalar) (t : list (arr 64)) : is_u64 value ->
  exists pf t', ProveRange value (s_Bytes gamma) t = Ok (pf, t')
    /\ Commit value (s_Bytes gamma) = Ok (ValueCommit pf)
    /\ (Forall (fun s => sval s <> 0) (inverted_challenges pf) -> VerifyRange (Some pf) = Ok true).
Proof.
  intros Hu. destruct (ProveRange_result value gamma t Hu) as (pf & x & E). destruct (taus t) as [[tau1 tau2] t'].
  destruct E as (E1 & E2 & _ & E4). by exists pf, t'.
Qed.

Lemma sval_square_nonzero (z : scalar) : sval z <> 0 -> sval (s_mul z z) <> 0.
Proof.
  intros Hz E. pose proof (sval_Invert z Hz) as Hi. set (i := sval (s_Invert z)) in *.
  assert (E1 : 1 ≡l 0).
  { transitivity (sval (s_mul z z) * (i * i)); [|by rewrite E]. rewrite sval_mul.
    transitivity ((sval z * i) * (sval z * i)); [by rewrite Hi|apply cong_eq; ring]. }
  apply cong_small in E1; [lia|..]; pose proof (Z.prime_ge_2 _ prime_ell); lia.
Qed.

Lemma draw_pairs_nil (n : nat) : exists ls rs, draw_pairs n [] = (ls, rs, []).
Proof. induction n as [|n (ls & rs & E)]; [by exists [], []|]. exists (s_zero :: ls), (s_zero :: rs). simpl. by rewrite E. Qed.

(** The errors of the random source are ignored: a prover whose source fails still
    returns a proof, from which anyone computes the blinding factor of the commitment,
    [taux / z^2]. *)
Theorem range_proof_leaks_blind (value : Z) (gamma : scalar) : is_u64 value ->
  exists pf taux, ProveRange value (s_Bytes gamma) [] = Ok (pf, []) /\ rp_Taux pf = s_Bytes taux
    /\ (sval (public_z pf) <> 0 -> s_mul taux (s_Invert (s_mul (public_z pf) (public_z pf))) = gamma).
Proof.
  intros Hu. destruct (ProveRange_result value gamma [] Hu) as (pf & x & E). unfold taus in E.
  assert (Ed : draw_blind [] = (s_zero, [])) by done. destruct (draw_pairs_nil bpBits) as (sL & sR & Ep).
  rewrite Ed, Ep, !Ed in E. destruct E as (E1 & _ & E3 & _). eexists pf, _. split; [exact E1|]. split; [exact E3|].
  intros Hz. set (z := public_z pf) in *. clearbody z. apply sval_inj, cong_small; [apply sval_range..|].
  pose proof (sval_Invert _ (sval_square_nonzero z Hz)) as Hi. unfold MultiplyAdd.
  rewrite ?sval_mul, ?sval_add, ?sval_mul, ?sval_add, ?sval_mul, ?sval_zero.
  rewrite (sval_mul z z) in Hi.
  transitivity (sval gamma * (sval z * sval z * sval (s_Invert (s_mul z z)))); [apply cong_eq; ring|].
  rewrite Hi. apply cong_eq. ring.
Qed.

End Complete.

(** *** A concrete proof *)

#[local] Existing Instance toy_hashes | 0.
#[local] Existing Instance toy_curve | 0.

Lemma toy_fold_range (l : list byte) (a : Z) : 0 <= a < 2305843009213693951 ->
  0 <= fold_left (fun a b => (a * 131 + byte_to_Z b + 7) mod 2305843009213693951) l a < 2305843009213693951.
Proof. revert a. induction l as [|b l IH]; intros a Ha; [done|]. simpl. by apply IH, Z.mod_pos_bound. Qed.

(** No challenge of the hash of the examples is zero: it is the eighth power of a number
    between one and [2^61]. *)
Lemma toy_challenge_nonzero (tr : arr 32) : sval (fst (challenge tr)) <> 0.
Proof.
  unfold challenge. cbn [fst]. set (l := bytes_of_string _ ++ _). clearbody l.
  pose proof (toy_fold_range l 5 ltac:(done)) as Hb.
  set (a := fold_left (fun a b => (a * 131 + byte_to_Z b + 7) mod 2305843009213693951) l 5) in *.
  assert (Ha : le_decode (arr_list (copy_arr 64 (le_encode 64 ((1 + a) ^ 8)))) = (1 + a) ^ 8).
  { rewrite arr_list_copy by apply length_le_encode. apply le_decode_encode. split; [apply Z.pow_nonneg; lia|].
    apply Z.le_lt_trans with (2305843009213693951 ^ 8); [apply Z.pow_le_mono_l; lia|vm_compute; reflexivity]. }
  change (le_decode (arr_list (copy_arr 64 (le_encode 64 ((1 + a) ^ 8)))) mod ell <> 0). rewrite Ha.
  assert (Hl : 2305843009213693951 < ell) by (vm_compute; reflexivity).
  assert (Hc : Z.gcd (1 + a) ell = 1) by (apply coprime_ell; rewrite Z.mod_small; lia).
  intros E. assert (Hp : Z.gcd ((1 + a) ^ 8) ell = 1) by (apply Z.coprime_pow_l; [lia|exact Hc]).
  rewrite Z.gcd_comm, <- Z.gcd_mod, E, Z.gcd_0_l in Hp by lia. lia.
Qed.

Lemma toy_round_bytes (LR : list (arr 32 * arr 32)) (tr : arr 32) (us : list scalar) :
  Forall (fun s => sval s <> 0) us -> Forall (fun s => sval s <> 0) (snd (foldl round_bytes (tr, us) LR)).
Proof.
  revert tr us. induction LR as [|[L R] LR IH]; intros tr us Hus; [exact Hus|]. cbn [foldl]. unfold round_bytes at 2. cbn [fst snd].
  pose proof (toy_challenge_nonzero (absorb (absorb tr (arr_list L)) (arr_list R))) as Hu.
  destruct (challenge _) as [u tr']. apply IH, Forall_app. split; [exact Hus|]. constructor; [exact Hu|constructor].
Qed.

Lemma toy_inverted (pf : RangeProof) : Forall (fun s => sval s <> 0) (inverted_challenges pf).
Proof.
  unfold inverted_challenges. set (tr := foldl _ _ [rp_V pf; rp_A pf; rp_S pf]). clearbody tr.
  pose proof (toy_challenge_nonzero tr) as Hy. destruct (challenge tr) as [y tr1]. constructor; [exact Hy|].
  repeat case_match. simplify_eq.
  apply toy_round_bytes. constructor.
Qed.

Definition ex_gamma : scalar := of_Z ell 99.
Definition ex_draws : list (arr 64) := (fun i => copy_arr 64 (le_encode 64 (7 ^ (100 + Z.of_nat i)))) <$> seq 0 133.

Lemma range_proof_complete_witness :
  exists pf t', ProveRange 123456789 (s_Bytes ex_gamma) ex_draws = Ok (pf, t') /\ VerifyRange (Some pf) = Ok true.
Proof.
  destruct (range_proof_complete 123456789 ex_gamma ex_draws) as (pf & t' & E & _ & V); [u64lia|].
  exists pf, t'. split; [exact E|]. apply V. apply toy_inverted.
Defined.

Lemma range_proof_leaks_blind_witness :
  exists pf, ProveRange 123456789 (s_Bytes ex_gamma) [] = Ok (pf, [])
    /\ exists taux, rp_Taux pf = s_Bytes taux /\ s_mul taux (s_Invert (s_mul (public_z pf) (public_z pf))) = ex_gamma.
Proof.
  destruct (range_proof_leaks_blind 123456789 ex_gamma) as (pf & taux & E & Et & Hg); [u64lia|].
  exists pf. split; [exact E|]. exists taux. split; [exact Et|]. apply Hg. unfold public_z.
  destruct (challenge _) as [y tr] eqn:Ey. destruct (challenge tr) as [z tr'] eqn:Ez.
  pose proof (toy_challenge_nonzero tr) as Hz. rewrite Ez in Hz. exact Hz.
Defined.

End Bulletproof.
