(* ===== verification/LPoD.v ===== *)
(** LPoD settlement accounting: [lpod/accounting.go].  [Settle] turns the
    reserve checkpoint of one block into the next one, vault by vault; the
    theorems show that every unit of income, payout and liability is accounted
    for, that the carried remainders lose nothing, and that no unsigned
    subtraction of the source wraps. *)

From stdpp Require Import base gmap strings list.
From S2P Require Import Prelude.

Module LPoD.

Definition InitialNAPRO : Z := 100000000000000000.
Definition Unit : Z := 100000000.
Definition YearSeconds : Z := 365 * 24 * 60 * 60.
Definition denominator : Z := 100 * YearSeconds.

Record Tier := mkTier {
  Threshold : Z; MinimumDeposit : Z; LeaderPercent : Z; APRPercent : Z
}.

Definition tiers : list Tier := [
  mkTier (100000 * Unit) (100 * Unit) 8 3;
  mkTier (500000 * Unit) (1000 * Unit) 10 5;
  mkTier (1000000 * Unit) (10000 * Unit) 12 6;
  mkTier (5000000 * Unit) (20000 * Unit) 15 8;
  mkTier (10000000 * Unit) (50000 * Unit) 16 9;
  mkTier (30000000 * Unit) (80000 * Unit) 16 9;
  mkTier (50000000 * Unit) (100000 * Unit) 16 9;
  mkTier (80000000 * Unit) (150000 * Unit) 16 9;
  mkTier (100000000 * Unit) (200000 * Unit) 20 10 ].

(** [tiers[0].Threshold] and [tiers[len(tiers)-1].Threshold]. *)
Definition lowestThreshold : Z := default 0 (Threshold <$> list.head tiers).
Definition highestThreshold : Z := default 0 (Threshold <$> list.last tiers).

(** The downward loop of [TierFor]; the fall-through is the source's
    [panic("unreachable")]. *)
Fixpoint tier_loop (total : Z) (ts : list Tier) : result Tier :=
  match ts with
  | [] => Err "panic: unreachable"
  | t :: ts' => if Threshold t <=? total then Ok t else tier_loop total ts'
  end.

Definition TierFor (total : Z) : result Tier :=
  reject (total <? lowestThreshold) || (highestThreshold <? total)
    with "lpod: vault stake outside 100K-100M APRO" ;;
  tier_loop total (reverse tiers).

Record State := mkState {
  FundingDebit : Z; Balance : Z; RewardInflow : Z; LeaderPaid : Z; AngelPaid : Z;
  SurplusInflow : Z; DeficitOutflow : Z; UnfundedLiability : Z;
  AccruedLiability : Z; LastHeight : Z
}.

Record Carry := mkCarry { APR : Z; Leader : Z }.

(** The zero value a Go map lookup yields for a missing key. *)
Definition zeroCarry : Carry := mkCarry 0 0.

Record Vault := mkVault {
  ID : string; TotalStake : Z; GuardianStake : Z; ActualIncome : Z;
  ElapsedSeconds : Z; ExactAccrual : option Z; Arrears : Z
}.

Record Payment := mkPayment {
  VaultID : string; PayLeader : Z; Angels : Z; Unfunded : Z
}.

Definition add (a b : Z) : result Z :=
  reject (MaxUint64 - a <? b) with "lpod: uint64 overflow" ;; Ok (a +w b).

(** [rational]: the big-integer quotient and remainder of [a*b*c + carry]. *)
Definition rational (a b c carry divisor : Z) : result (Z * Z) :=
  let n := a * b * c + carry in
  let q := Z.quot n divisor in
  let r := Z.rem n divisor in
  reject negb (is_u64b q) with "lpod: rational result overflow" ;; Ok (q, r).

Definition Validate (s : State) : result () :=
  reject negb (FundingDebit s =? InitialNAPRO) with "lpod: missing conserved 1B allocation debit" ;;
  left ← add (FundingDebit s) (RewardInflow s);
  right ← add (Balance s) (LeaderPaid s);
  right ← add right (AngelPaid s);
  reject negb (left =? right) with "lpod: income conservation violated" ;;
  available ← add (FundingDebit s) (SurplusInflow s);
  reject (available <? DeficitOutflow s) || negb (available -w DeficitOutflow s =? Balance s)
    with "lpod: reserve conservation violated" ;;
  liability ← add (AngelPaid s) (UnfundedLiability s);
  reject negb (liability =? AccruedLiability s) with "lpod: liability conservation violated" ;;
  Ok ().

(** The validity test [Settle] applies to every carry it receives. *)
Definition carry_ok (id : string) (c : Carry) : bool :=
  negb (bool_decide (id = EmptyString)) && (APR c <? denominator) && (Leader c <? 100).

(** The local variables of the [Settle] loop. *)
Record Acc := mkAcc {
  acc_state : State; acc_carries : gmap string Carry; acc_payments : list Payment;
  acc_prev : option string
}.

(** The branch on [residual >= due]: new balance, paid, missing, surplus and
    deficit. *)
Definition fund (balance residual due : Z) : result (Z * Z * Z * Z * Z) :=
  if due <=? residual then
    let surplus := residual -w due in
    bal ← add balance surplus;
    Ok (bal, due, 0, surplus, 0)
  else
    let deficit := due -w residual in
    let deficit := if balance <? deficit then balance else deficit in
    let paid := residual +w deficit in
    Ok (balance -w deficit, paid, due -w paid, 0, deficit).

(** One iteration of the loop of [Settle]. *)
Definition settle_vault (a : Acc) (v : Vault) : result Acc :=
  let next := acc_state a in
  reject bool_decide (ID v = EmptyString) ||
         match acc_prev a with Some p => String.leb (ID v) p | None => false end
    with "lpod: vault IDs must be sorted and unique" ;;
  t ← TierFor (TotalStake v);
  reject (TotalStake v <? GuardianStake v) with "lpod: guardian stake exceeds vault stake" ;;
  let c := default zeroCarry (acc_carries a !! ID v) in
  '(leader, leaderRem) ← rational (ActualIncome v) (LeaderPercent t) 1 (Leader c) 100;
  '(due, aprRem) ← rational (GuardianStake v) (APRPercent t) (ElapsedSeconds v) (APR c) denominator;
  let newDue := default due (ExactAccrual v) in
  let rem := match ExactAccrual v with Some _ => APR c | None => aprRem end in
  reject (UnfundedLiability next <? Arrears v) with "lpod: arrears exceed outstanding liability" ;;
  let unfunded := UnfundedLiability next -w Arrears v in
  due ← add newDue (Arrears v);
  let residual := ActualIncome v -w leader in
  '(balance, paid, missing, surplus, deficit) ← fund (Balance next) residual due;
  inflow ← add (RewardInflow next) (ActualIncome v);
  leaderPaid ← add (LeaderPaid next) leader;
  angelPaid ← add (AngelPaid next) paid;
  unfunded ← add unfunded missing;
  accrued ← add (AccruedLiability next) newDue;
  surplusIn ← add (SurplusInflow next) surplus;
  deficitOut ← add (DeficitOutflow next) deficit;
  Ok (mkAcc
        (mkState (FundingDebit next) balance inflow leaderPaid angelPaid surplusIn
           deficitOut unfunded accrued (LastHeight next))
        (<[ID v := mkCarry rem leaderRem]> (acc_carries a))
        (acc_payments a ++ [mkPayment (ID v) leader paid missing])
        (Some (ID v))).

Definition with_height (s : State) (h : Z) : State :=
  mkState (FundingDebit s) (Balance s) (RewardInflow s) (LeaderPaid s) (AngelPaid s)
    (SurplusInflow s) (DeficitOutflow s) (UnfundedLiability s) (AccruedLiability s) h.

Definition Settle (before : State) (carries : gmap string Carry) (height : Z)
    (vaults : list Vault) : result (State * gmap string Carry * list Payment) :=
  _ ← Validate before;
  reject (LastHeight before =? MaxUint64) || negb (height =? LastHeight before +w 1)
    with "lpod: duplicate or nonsequential settlement" ;;
  reject negb (bool_decide (map_Forall (fun id c => carry_ok id c = true) carries))
    with "lpod: invalid carry" ;;
  a ← foldM settle_vault (mkAcc before carries [] None) vaults;
  let next := with_height (acc_state a) height in
  _ ← Validate next;
  Ok (next, acc_carries a, acc_payments a).

(** ** Ranges *)

Definition state_u64 (s : State) : Prop :=
  is_u64 (FundingDebit s) /\ is_u64 (Balance s) /\ is_u64 (RewardInflow s) /\
  is_u64 (LeaderPaid s) /\ is_u64 (AngelPaid s) /\ is_u64 (SurplusInflow s) /\
  is_u64 (DeficitOutflow s) /\ is_u64 (UnfundedLiability s) /\
  is_u64 (AccruedLiability s) /\ is_u64 (LastHeight s).

Definition vault_u64 (v : Vault) : Prop :=
  is_u64 (TotalStake v) /\ is_u64 (GuardianStake v) /\ is_u64 (ActualIncome v) /\
  is_u64 (ElapsedSeconds v) /\ is_u64 (Arrears v) /\
  (forall x, ExactAccrual v = Some x -> is_u64 x).

Definition carry_u64 (c : Carry) : Prop := 0 <= APR c < denominator /\ 0 <= Leader c < 100.

#[global] Instance state_u64_dec s : Decision (state_u64 s).
Proof. unfold state_u64. apply _. Defined.

(** The three conservation equations of [Validate], over the integers. *)
Definition conserved (s : State) : Prop :=
  FundingDebit s + RewardInflow s = Balance s + LeaderPaid s + AngelPaid s /\
  FundingDebit s + SurplusInflow s - DeficitOutflow s = Balance s /\
  AngelPaid s + UnfundedLiability s = AccruedLiability s.

(** ** Arithmetic lemmas *)

Lemma add_ok (a b c : Z) :
  is_u64 a -> is_u64 b -> add a b = Ok c <-> c = a + b /\ is_u64 (a + b).
Proof.
  intros Ha Hb. unfold add. rewrite reject_ok, Z.ltb_ge. split.
  - intros [Hle [= <-]]. rewrite wrap64_small by u64lia. u64lia.
  - intros [-> Hab]. rewrite wrap64_small by done. split; [u64lia|done].
Qed.

Lemma rational_ok (a b c carry d q r : Z) :
  0 <= a -> 0 <= b -> 0 <= c -> 0 <= carry -> 0 < d ->
  rational a b c carry d = Ok (q, r) ->
  a * b * c + carry = q * d + r /\ 0 <= r < d /\ is_u64 q.
Proof.
  intros Ha Hb Hc Hcarry Hd. unfold rational. rewrite reject_ok, negb_false_iff, is_u64b_spec.
  intros [Hq [= <- <-]].
  assert (0 <= a * b * c + carry) by nia.
  assert (Hqr := Z.quot_rem' (a * b * c + carry) d).
  assert (Hrb := Z.rem_bound_pos (a * b * c + carry) d).
  repeat split; try lia; apply Hq.
Qed.

(** Every tier takes between 0 and 20 percent for the leader. *)
Lemma tier_loop_in (total : Z) (ts : list Tier) (t : Tier) :
  tier_loop total ts = Ok t -> t ∈ ts /\ Threshold t <= total.
Proof.
  induction ts as [|t0 ts IH]; simpl; [done|].
  destruct (Z.leb_spec (Threshold t0) total).
  - intros [= <-]. split; [left|done].
  - intros HH. destruct (IH HH). split; [by right|done].
Qed.

Lemma TierFor_in (total : Z) (t : Tier) :
  TierFor total = Ok t -> t ∈ tiers /\ Threshold t <= total.
Proof.
  unfold TierFor. rewrite reject_ok. intros [_ Ht].
  apply tier_loop_in in Ht as [Hin ?]. split; [|done].
  by apply elem_of_reverse in Hin.
Qed.

Lemma tier_percent (t : Tier) :
  t ∈ tiers -> 0 <= LeaderPercent t <= 20 /\ 0 <= APRPercent t <= 10.
Proof.
  intros Ht. assert (Forall (fun t => 0 <= LeaderPercent t <= 20 /\ 0 <= APRPercent t <= 10) tiers) as HF
    by (repeat constructor; simpl; lia).
  by apply (proj1 (list.Forall_forall _ _) HF).
Qed.

Lemma fund_ok (balance residual due bal paid missing surplus deficit : Z) :
  is_u64 balance -> is_u64 residual -> is_u64 due ->
  fund balance residual due = Ok (bal, paid, missing, surplus, deficit) ->
  bal = balance + surplus - deficit /\ is_u64 bal /\ is_u64 paid /\ is_u64 missing /\
  is_u64 surplus /\ is_u64 deficit /\ paid + missing = due /\
  residual + deficit = paid + surplus /\ (surplus = 0 \/ deficit = 0) /\
  (0 < missing -> bal = 0).
Proof.
  intros Hb Hr Hd. unfold fund. destruct (Z.leb_spec due residual).
  - rewrite (wrap64_small (residual - due)) by u64lia.
    rewrite bind_ok. intros (b' & Hadd & [= <- <- <- <- <-]).
    apply add_ok in Hadd as [-> Hsum]; [|u64lia..].
    repeat split; try u64lia; try (left; lia); right; lia.
  - rewrite (wrap64_small (due - residual)) by u64lia.
    destruct (Z.ltb_spec balance (due - residual)); intros [= <- <- <- <- <-];
      rewrite !wrap64_small by (rewrite ?wrap64_small by u64lia; u64lia);
      repeat split; try u64lia; try (left; lia).
Qed.

Lemma Validate_ok (s : State) :
  state_u64 s -> Validate s = Ok () -> FundingDebit s = InitialNAPRO /\ conserved s.
Proof.
  intros (H1 & H2 & H3 & H4 & H5 & H6 & H7 & H8 & H9 & _). unfold Validate.
  rewrite reject_ok, negb_false_iff, Z.eqb_eq. intros [HF H].
  apply bind_ok in H as (l & Hl & H). apply add_ok in Hl as [-> Hl]; [|done..].
  apply bind_ok in H as (r1 & Hr1 & H). apply add_ok in Hr1 as [-> Hr1]; [|done..].
  apply bind_ok in H as (r2 & Hr2 & H). apply add_ok in Hr2 as [-> Hr2]; [|done..].
  apply reject_ok in H as [Hc1 H]. apply bind_ok in H as (av & Hav & H).
  apply add_ok in Hav as [-> Hav]; [|done..].
  apply reject_ok in H as [Hc2 H]. apply bind_ok in H as (li & Hli & H).
  apply add_ok in Hli as [-> Hli]; [|done..]. apply reject_ok in H as [Hc3 _].
  zbool. rewrite wrap64_small in * by u64lia. unfold conserved. repeat split; lia.
Qed.

(** ** One vault *)

(** The amounts a successful iteration computes, with the equations that tie
    them together. *)
Record vault_amounts (a : Acc) (v : Vault) (a' : Acc)
    (leader paid missing surplus deficit newDue aprRem leaderRem : Z) : Prop := {
  va_tier : exists t, TierFor (TotalStake v) = Ok t /\
    ActualIncome v * LeaderPercent t + Leader (default zeroCarry (acc_carries a !! ID v))
      = leader * 100 + leaderRem /\
    (ExactAccrual v = None ->
     GuardianStake v * APRPercent t * ElapsedSeconds v
       + APR (default zeroCarry (acc_carries a !! ID v)) = newDue * denominator + aprRem);
  va_carry : carry_u64 (mkCarry aprRem leaderRem);
  va_leader : 0 <= leader <= ActualIncome v;
  va_due : paid + missing = newDue + Arrears v /\ is_u64 (newDue + Arrears v);
  va_exact : forall x, ExactAccrual v = Some x -> newDue = x;
  va_flow : ActualIncome v - leader + deficit = paid + surplus;
  va_nonneg : 0 <= paid /\ 0 <= missing /\ 0 <= surplus /\ 0 <= deficit /\ 0 <= newDue;
  va_scarce : 0 < missing -> Balance (acc_state a') = 0;
  va_arrears : Arrears v <= UnfundedLiability (acc_state a);
  va_carries : acc_carries a' = <[ID v := mkCarry aprRem leaderRem]> (acc_carries a);
  va_payments : acc_payments a' = acc_payments a ++ [mkPayment (ID v) leader paid missing];
  va_prev : acc_prev a' = Some (ID v);
  va_state : let s := acc_state a in acc_state a' =
    mkState (FundingDebit s) (Balance s + surplus - deficit)
      (RewardInflow s + ActualIncome v) (LeaderPaid s + leader) (AngelPaid s + paid)
      (SurplusInflow s + surplus) (DeficitOutflow s + deficit)
      (UnfundedLiability s - Arrears v + missing) (AccruedLiability s + newDue) (LastHeight s);
  va_u64 : state_u64 (acc_state a');
  va_split : surplus = 0 \/ deficit = 0
}.

Definition carries_u64 (m : gmap string Carry) : Prop := map_Forall (fun _ c => carry_u64 c) m.

Lemma carry_default_u64 (m : gmap string Carry) (id : string) :
  carries_u64 m -> carry_u64 (default zeroCarry (m !! id)).
Proof.
  intros Hm. destruct (m !! id) as [c|] eqn:E; simpl; [by apply (Hm id)|].
  unfold carry_u64; simpl; unfold denominator, YearSeconds; lia.
Qed.

Lemma leader_bound (income pct carry leader r : Z) :
  0 <= income -> 0 <= pct <= 20 -> 0 <= carry < 100 -> 0 <= r < 100 -> 0 <= leader ->
  income * pct + carry = leader * 100 + r -> leader <= income.
Proof. nia. Qed.

Lemma settle_vault_ok (a a' : Acc) (v : Vault) :
  state_u64 (acc_state a) -> carries_u64 (acc_carries a) -> vault_u64 v ->
  settle_vault a v = Ok a' ->
  exists leader paid missing surplus deficit newDue aprRem leaderRem,
    vault_amounts a v a' leader paid missing surplus deficit newDue aprRem leaderRem.
Proof.
  intros (H1 & H2 & H3 & H4 & H5 & H6 & H7 & H8 & H9 & H10) Hcs
    (V1 & V2 & V3 & V4 & V5 & V6) H. unfold settle_vault in H.
  apply reject_ok in H as [_ H]. apply bind_ok in H as (t & Ht & H).
  destruct (TierFor_in _ _ Ht) as [Hin _]. apply tier_percent in Hin as [Hlp Hap].
  apply reject_ok in H as [_ H].
  assert (Hc := carry_default_u64 _ (ID v) Hcs).
  set (c := default zeroCarry (acc_carries a !! ID v)) in *. destruct Hc as [Hca Hcl].
  apply bind_ok in H as ([leader lr] & Hrl & H).
  apply rational_ok in Hrl as (El & Hlr & Hlu); [|u64lia..].
  apply bind_ok in H as ([due0 ar0] & Hra & H).
  apply rational_ok in Hra as (Ea & Har & Hdu); [|u64lia..|unfold denominator, YearSeconds; lia].
  apply reject_ok in H as [Harr H]. zbool.
  set (newDue := default due0 (ExactAccrual v)) in *.
  set (rem := match ExactAccrual v with Some _ => APR c | None => ar0 end) in *.
  assert (Hnd : is_u64 newDue) by (subst newDue; destruct (ExactAccrual v) eqn:E; simpl; auto).
  assert (Hrem : 0 <= rem < denominator) by (subst rem; destruct (ExactAccrual v); assumption).
  apply bind_ok in H as (due & Hdue & H). apply add_ok in Hdue as [-> Hdue]; [|done..].
  assert (Hli : leader <= ActualIncome v)
    by (eapply leader_bound; [| | | | |rewrite Z.mul_1_r in El; exact El]; u64lia).
  rewrite (wrap64_small (ActualIncome v - leader)) in H by u64lia.
  apply bind_ok in H as ([[[[bal paid] missing] surplus] deficit] & Hf & H).
  apply fund_ok in Hf as (Hbal & Hbu & Hpu & Hmu & Hsu & Hdfu & Hpm & Hflow & Hsplit & Hscarce);
    [|u64lia..].
  rewrite (wrap64_small (UnfundedLiability (acc_state a) - Arrears v)) in H by u64lia.
  do 7 (let x := fresh "x" in let Hx := fresh "Hx" in
        apply bind_ok in H as (x & Hx & H); apply add_ok in Hx as [-> Hx]; [|u64lia..]).
  injection H as <-.
  exists leader, paid, missing, surplus, deficit, newDue, rem, lr. split; simpl; try done; try u64lia.
  - exists t. split; [done|]. rewrite Z.mul_1_r in El. split; [exact El|].
    intros E. subst newDue rem. rewrite E. exact Ea.
  - intros x E. subst newDue. by rewrite E.
  - by rewrite Hbal.
Qed.

(** ** The vault loop *)

(** What the income of a vault leaves over its leader share and the payment to its
    angels goes to the reserve, what the payment takes beyond it comes from there. *)
Definition surplus_of (v : Vault) (p : Payment) : Z := Z.max 0 (ActualIncome v - PayLeader p - Angels p).
Definition deficit_of (v : Vault) (p : Payment) : Z := Z.max 0 (Angels p - (ActualIncome v - PayLeader p)).

Definition sum_lines (f : Vault -> Payment -> Z) (vs : list Vault) (ps : list Payment) : Z :=
  sumZ (fun l : Vault * Payment => f l.1 l.2) (zip vs ps).

(** What a payment line promises about its vault. *)
Definition payment_for (v : Vault) (p : Payment) : Prop :=
  VaultID p = ID v /\ 0 <= PayLeader p <= ActualIncome v /\ 0 <= Angels p /\
  0 <= Unfunded p /\ Arrears v <= Angels p + Unfunded p /\ is_u64 (Angels p + Unfunded p) /\
  (forall x, ExactAccrual v = Some x -> Angels p + Unfunded p = x + Arrears v).

Record loop_result (a a' : Acc) (vs : list Vault) (ps : list Payment) : Prop := {
  lr_u64 : state_u64 (acc_state a');
  lr_carries : carries_u64 (acc_carries a');
  lr_conserved : conserved (acc_state a) -> conserved (acc_state a');
  lr_payments : acc_payments a' = acc_payments a ++ ps;
  lr_pay : Forall2 payment_for vs ps;
  lr_funding : FundingDebit (acc_state a') = FundingDebit (acc_state a);
  lr_height : LastHeight (acc_state a') = LastHeight (acc_state a);
  lr_income : RewardInflow (acc_state a') = RewardInflow (acc_state a) + sumZ ActualIncome vs;
  lr_leader : LeaderPaid (acc_state a') = LeaderPaid (acc_state a) + sumZ PayLeader ps;
  lr_angels : AngelPaid (acc_state a') = AngelPaid (acc_state a) + sumZ Angels ps;
  lr_unfunded : UnfundedLiability (acc_state a') =
    UnfundedLiability (acc_state a) - sumZ Arrears vs + sumZ Unfunded ps;
  lr_surplus : SurplusInflow (acc_state a') = SurplusInflow (acc_state a) + sum_lines surplus_of vs ps;
  lr_deficit : DeficitOutflow (acc_state a') = DeficitOutflow (acc_state a) + sum_lines deficit_of vs ps
}.

Lemma vault_conserved a v a' leader paid missing surplus deficit newDue ar lr :
  vault_amounts a v a' leader paid missing surplus deficit newDue ar lr ->
  conserved (acc_state a) -> conserved (acc_state a').
Proof.
  intros [_ _ _ [Hdue _] _ Hflow _ _ _ _ _ _ Hs _]. rewrite Hs. unfold conserved; simpl. lia.
Qed.

Lemma settle_loop (vs : list Vault) (a a' : Acc) :
  state_u64 (acc_state a) -> carries_u64 (acc_carries a) -> Forall vault_u64 vs ->
  foldM settle_vault a vs = Ok a' -> exists ps, loop_result a a' vs ps.
Proof.
  revert a. induction vs as [|v vs IH]; intros a Hs Hc Hvs H; simpl in H.
  - injection H as <-. exists []. split; unfold sum_lines; rewrite ?app_nil_r; simpl; try done; lia.
  - inversion Hvs as [|? ? Hv Hvs']; subst. apply bind_ok in H as (a1 & H1 & H2).
    destruct (settle_vault_ok _ _ _ Hs Hc Hv H1)
      as (ld & pd & ms & sp & df & nd & ar & lr & HA).
    assert (Hcons := vault_conserved _ _ _ _ _ _ _ _ _ _ _ HA).
    destruct HA as [_ Hca Hld [Hdue Hdu] Hex Hflow Hnn _ Harr Hcs Hps _ Hst Hu Hsplit].
    destruct (IH a1) as [ps HL]; [done| |done|done|].
    { rewrite Hcs. by apply map_Forall_insert_2. }
    exists (mkPayment (ID v) ld pd ms :: ps).
    destruct HL as [L1 L2 L3 L4 L5 L6 L7 L8 L9 L10 L11 L12 L13]. rewrite Hst in *. simpl in *.
    split; unfold sum_lines, surplus_of, deficit_of in *; simpl; try done; try lia.
    + auto.
    + rewrite L4, Hps, <- app_assoc. done.
    + constructor; [|done]. unfold payment_for; simpl. rewrite Hdue.
      split_and!; try done; try lia. intros x Hx. by rewrite (Hex x Hx).
Qed.

Lemma carry_ok_u64 (m : gmap string Carry) :
  map_Forall (fun id c => carry_ok id c = true) m ->
  map_Forall (fun _ c => 0 <= APR c /\ 0 <= Leader c) m -> carries_u64 m.
Proof.
  intros H1 H2 id c Hc. specialize (H1 _ _ Hc). specialize (H2 _ _ Hc). simpl in *.
  unfold carry_ok in H1. zbool. split; lia.
Qed.

(** The inputs [Settle] receives, as values of their Go types. *)
Definition settle_inputs (before : State) (carries : gmap string Carry) (vaults : list Vault) : Prop :=
  state_u64 before /\ map_Forall (fun _ c => 0 <= APR c /\ 0 <= Leader c) carries /\
  Forall vault_u64 vaults.

Lemma Settle_inv (before next : State) carries height vaults out pays :
  settle_inputs before carries vaults ->
  Settle before carries height vaults = Ok (next, out, pays) ->
  exists a, conserved before /\ FundingDebit before = InitialNAPRO /\
    is_u64 height /\ height = LastHeight before + 1 /\ next = with_height (acc_state a) height /\
    out = acc_carries a /\ map_Forall (fun id c => carry_ok id c = true) carries /\
    foldM settle_vault (mkAcc before carries [] None) vaults = Ok a /\
    loop_result (mkAcc before carries [] None) a vaults pays.
Proof.
  intros (Hs & Hc & Hv) H. unfold Settle in H.
  apply bind_ok in H as ([] & HV & H). apply Validate_ok in HV as [HF HC]; [|done].
  apply reject_ok in H as [Hh H]. apply reject_ok in H as [Hcar H]. zbool.
  apply bind_ok in H as (a & Hl & H). apply bind_ok in H as ([] & _ & [= <- <- <-]).
  assert (carries_u64 carries) by (by apply carry_ok_u64).
  destruct (settle_loop vaults (mkAcc before carries [] None) a) as [ps HL]; try done.
  assert (Hp := lr_payments _ _ _ _ HL). simpl in Hp. subst ps.
  destruct Hs as (_ & _ & _ & _ & _ & _ & _ & _ & _ & Hlh).
  rewrite wrap64_small in * by u64lia.
  exists a. split_and!; try done; u64lia.
Qed.

(** ** Claims *)

(** C10: a settlement that succeeds, on values of the Go types with carries that are
    not negative, keeps the three conservation equations of the reserve (income,
    reserve and liability) and fixes every counter: the income of the vaults, the
    leader, angel and unfunded amounts of the returned payment plan, the arrears it
    settles, and vault by vault the surplus of the income over the payments or their
    deficit; balance and accrued liability follow from the equations.  The checkpoint
    advances by exactly one height. *)
Theorem settle_conserves (before next : State) carries height vaults out pays :
  settle_inputs before carries vaults ->
  Settle before carries height vaults = Ok (next, out, pays) ->
  FundingDebit next = InitialNAPRO /\ conserved next /\ state_u64 next /\
  RewardInflow next = RewardInflow before + sumZ ActualIncome vaults /\
  LeaderPaid next = LeaderPaid before + sumZ PayLeader pays /\
  AngelPaid next = AngelPaid before + sumZ Angels pays /\
  UnfundedLiability next =
    UnfundedLiability before - sumZ Arrears vaults + sumZ Unfunded pays /\
  SurplusInflow next = SurplusInflow before + sum_lines surplus_of vaults pays /\
  DeficitOutflow next = DeficitOutflow before + sum_lines deficit_of vaults pays /\
  LastHeight next = LastHeight before + 1.
Proof.
  intros Hin H. assert (Hin' := Hin).
  apply Settle_inv in H as (a & HC & HF & Hu & Hh & -> & -> & _ & _ & HL); [|done].
  destruct HL as [L1 L2 L3 _ _ L6 L7 L8 L9 L10 L11 L12 L13]. simpl in *.
  destruct Hin' as [(S1 & S2 & S3 & S4 & S5 & S6 & S7 & S8 & S9 & S10) _].
  split_and!; try lia; [exact (L3 HC)|].
  destruct L1 as (? & ? & ? & ? & ? & ? & ? & ? & ? & ?).
  unfold state_u64; simpl. split_and!; try done; u64lia.
Qed.

(** Every vault iteration preserves the conservation equations by itself,
    so the reserve is conserved at every point of the loop and not only because
    the final [Validate] rejects a violation. *)
Theorem settle_vault_conserved (a a' : Acc) (v : Vault) :
  state_u64 (acc_state a) -> carries_u64 (acc_carries a) -> vault_u64 v ->
  conserved (acc_state a) -> settle_vault a v = Ok a' -> conserved (acc_state a').
Proof.
  intros Hs Hc Hv Hcons H.
  destruct (settle_vault_ok _ _ _ Hs Hc Hv H) as (? & ? & ? & ? & ? & ? & ? & ? & HA).
  by eapply vault_conserved.
Qed.

(** The payment plan has one line per vault, in order; the leader never
    receives more than the income of the vault (so the unsigned residual cannot
    wrap), and the paid and unfunded amounts together cover the arrears; with an exact
    accrual they are the accrual and the arrears. *)
Theorem settle_payment_plan (before next : State) carries height vaults out pays :
  settle_inputs before carries vaults ->
  Settle before carries height vaults = Ok (next, out, pays) ->
  Forall2 payment_for vaults pays.
Proof.
  intros Hin H. apply Settle_inv in H as (a & _ & _ & _ & _ & _ & _ & _ & _ & HL); [|done].
  apply HL.
Qed.

(** The identifiers a successful loop writes are not empty. *)
Lemma settle_vault_id (a a' : Acc) (v : Vault) :
  settle_vault a v = Ok a' -> ID v <> EmptyString /\
  exists c, acc_carries a' = <[ID v := c]> (acc_carries a).
Proof.
  unfold settle_vault. intros H. apply reject_ok in H as [Hid H]. zbool. split; [done|].
  repeat (first [apply bind_ok in H as (? & _ & H) | apply reject_ok in H as [_ H]
                | case_match]; simplify_eq/=; eauto).
Qed.

(** The carries [Settle] returns are valid inputs of the next settlement:
    the guard that rejects a malformed carry can never fire on them. *)
Theorem settle_carries_valid (before next : State) carries height vaults out pays :
  settle_inputs before carries vaults ->
  Settle before carries height vaults = Ok (next, out, pays) ->
  map_Forall (fun id c => carry_ok id c = true) out /\
  map_Forall (fun _ c => 0 <= APR c /\ 0 <= Leader c) out.
Proof.
  intros Hin H. apply Settle_inv in H as (a & _ & _ & _ & _ & _ & -> & Hok & Hl & HL); [|done].
  assert (Hu := lr_carries _ _ _ _ HL). split.
  - assert (map_Forall (fun id _ => id <> EmptyString) (acc_carries a)) as Hne.
    { eapply (foldM_inv settle_vault
        (fun a => map_Forall (fun id _ => id <> EmptyString) (acc_carries a))); [| |exact Hl].
      - intros s v s' Hs Hv. apply settle_vault_id in Hv as (Hid & c & ->).
        by apply map_Forall_insert_2.
      - intros id c Hc. specialize (Hok _ _ Hc). unfold carry_ok in Hok. by zbool. }
    intros id c Hc. destruct (Hu _ _ Hc) as [? ?]. specialize (Hne _ _ Hc). simpl in Hne.
    unfold carry_ok. rewrite bool_decide_eq_false_2 by done. simpl.
    rewrite andb_true_iff, !Z.ltb_lt. lia.
  - intros id c Hc. destruct (Hu _ _ Hc). lia.
Qed.

(** The leader shares of one vault stream over successive blocks at a fixed
    percentage, threading the remainder as [Settle] does. *)
Fixpoint leader_stream (pct carry : Z) (incomes : list Z) : result (list Z * Z) :=
  match incomes with
  | [] => Ok ([], carry)
  | i :: rest =>
      '(q, r) ← rational i pct 1 carry 100;
      '(qs, r') ← leader_stream pct r rest;
      Ok (q :: qs, r')
  end.

(** Carrying the remainder makes the per-block rounding exact in the long
    run: the leader shares paid over any number of blocks sum to the floor of
    the percentage of the total income, and the final carry is its remainder. *)
Theorem leader_stream_exact (pct carry : Z) (incomes shares : list Z) (carry' : Z) :
  0 <= pct -> 0 <= carry < 100 -> Forall is_u64 incomes ->
  leader_stream pct carry incomes = Ok (shares, carry') ->
  sumZ id shares = (pct * sumZ id incomes + carry) / 100 /\
  carry' = (pct * sumZ id incomes + carry) mod 100.
Proof.
  intros Hp Hc Hi H.
  enough (pct * sumZ id incomes + carry = sumZ id shares * 100 + carry' /\ 0 <= carry' < 100)
    as [E Hr].
  { rewrite E, Z.add_comm. split.
    - rewrite Z.div_add, Z.div_small by lia. lia.
    - rewrite Z_mod_plus_full, Z.mod_small by lia. lia. }
  revert carry shares Hc H. induction incomes as [|i l IH]; intros carry shares Hc H; simpl in H.
  - injection H as <- <-. simpl. lia.
  - inversion Hi as [|? ? Hiu Hl]; subst.
    apply bind_ok in H as ([q r] & Hq & H). apply bind_ok in H as ([qs r'] & Hqs & [= <- <-]).
    apply rational_ok in Hq as (E & Hr & _); [|u64lia..].
    destruct (IH Hl r qs Hr Hqs) as [E' ?]. simpl. unfold id in *. lia.
Qed.

Lemma tier_loop_max (total : Z) (ts : list Tier) :
  StronglySorted (fun t1 t2 => Threshold t2 <= Threshold t1) ts ->
  (exists t, t ∈ ts /\ Threshold t <= total) ->
  exists t, tier_loop total ts = Ok t /\
    forall t', t' ∈ ts -> Threshold t' <= total -> Threshold t' <= Threshold t.
Proof.
  induction 1 as [|t ts Hs IH Hall]; intros (t0 & Hin & Ht0); [by inversion Hin|].
  simpl. destruct (Z.leb_spec (Threshold t) total).
  - exists t. split; [done|]. intros t' [->|Hin']%elem_of_cons _; [lia|].
    by apply (proj1 (list.Forall_forall _ _) Hall).
  - apply elem_of_cons in Hin as [->|Hin]; [lia|].
    destruct IH as (t1 & -> & Hmax); [eauto|]. exists t1. split; [done|].
    intros t' [->|Hin']%elem_of_cons Hle; [lia|by apply Hmax].
Qed.

(** [TierFor] is total on the admitted range and picks the tier with the
    greatest threshold not above the stake; outside the range it returns the
    range error, and the source's [panic("unreachable")] is indeed
    unreachable. *)
Theorem TierFor_spec (total : Z) :
  (lowestThreshold <= total <= highestThreshold ->
   exists t, TierFor total = Ok t /\ t ∈ tiers /\ Threshold t <= total /\
     forall t', t' ∈ tiers -> Threshold t' <= total -> Threshold t' <= Threshold t) /\
  (total < lowestThreshold \/ highestThreshold < total ->
   TierFor total = Err "lpod: vault stake outside 100K-100M APRO").
Proof.
  split.
  - intros Hr. destruct (tier_loop_max total (reverse tiers)) as (t & Ht & Hmax).
    + repeat (constructor; [|by repeat constructor; simpl; unfold Unit; lia]). constructor.
    + exists (mkTier (100000 * Unit) (100 * Unit) 8 3).
      split; [apply elem_of_reverse; left|]. apply Hr.
    + assert (TierFor total = Ok t) as HT.
      { unfold TierFor. rewrite (proj2 (orb_false_iff _ _)); [done|].
        rewrite !Z.ltb_ge. lia. }
      exists t. destruct (TierFor_in _ _ HT). split_and!; try done.
      intros t' Hin. apply Hmax. by apply elem_of_reverse.
  - intros Hr. unfold TierFor. rewrite (proj2 (orb_true_iff _ _)); [done|].
    rewrite !Z.ltb_lt. lia.
Qed.

(** ** Witnesses *)

Definition ex_state : State :=
  mkState InitialNAPRO InitialNAPRO 0 0 0 0 0 0 0 41.
Definition ex_vaults : list Vault := [
  mkVault "a" (600000 * Unit) (500000 * Unit) 300000001 3 None 0;
  mkVault "b" (100000000 * Unit) (90000000 * Unit) 0 3600 None 0 ].
Definition ex_out : State * gmap string Carry * list Payment :=
  match Settle ex_state ∅ 42 ex_vaults with Ok r => r | Err _ => (ex_state, ∅, []) end.

Lemma ex_inputs : settle_inputs ex_state ∅ ex_vaults.
Proof.
  split_and!; [by vm_compute; repeat split|apply map_Forall_empty|].
  repeat constructor; simpl; unfold Unit; u64lia || discriminate.
Qed.

Lemma ex_settled : Settle ex_state ∅ 42 ex_vaults = Ok (ex_out.1.1, ex_out.1.2, ex_out.2).
Proof. vm_compute. reflexivity. Qed.

Lemma settle_conserves_witness :
  conserved ex_out.1.1 /\ LeaderPaid ex_out.1.1 = 30000000.
Proof.
  split; [|vm_compute; reflexivity].
  exact (proj1 (proj2 (settle_conserves _ _ _ _ _ _ _ ex_inputs ex_settled))).
Defined.

Definition ex_acc : Acc := mkAcc ex_state ∅ [] None.
Definition ex_vault : Vault := mkVault "a" (600000 * Unit) 0 7 3 None 0.
Definition ex_acc' : Acc :=
  match settle_vault ex_acc ex_vault with Ok a => a | Err _ => ex_acc end.

Lemma settle_vault_conserved_witness :
  RewardInflow (acc_state ex_acc') = 7 /\ conserved (acc_state ex_acc').
Proof.
  split; [vm_compute; reflexivity|].
  refine (settle_vault_conserved ex_acc ex_acc' ex_vault _ _ _ _ _).
  - by vm_compute; repeat split.
  - apply map_Forall_empty.
  - repeat split; simpl; unfold Unit; u64lia || discriminate.
  - repeat split; reflexivity.
  - vm_compute. reflexivity.
Defined.

Lemma settle_payment_plan_witness :
  Forall2 payment_for ex_vaults ex_out.2 /\ length ex_out.2 = 2%nat.
Proof.
  split; [|vm_compute; reflexivity].
  exact (settle_payment_plan _ _ _ _ _ _ _ ex_inputs ex_settled).
Defined.

Lemma settle_carries_valid_witness :
  map_Forall (fun id c => carry_ok id c = true) ex_out.1.2 /\ size ex_out.1.2 = 2%nat.
Proof.
  split; [|vm_compute; reflexivity].
  exact (proj1 (settle_carries_valid _ _ _ _ _ _ _ ex_inputs ex_settled)).
Defined.

Lemma leader_stream_exact_witness :
  leader_stream 8 0 [13; 9; 101] = Ok ([1; 0; 8], 84) /\ sumZ id [1; 0; 8] = 8 * 123 / 100.
Proof.
  split; [vm_compute; reflexivity|].
  refine (eq_trans (proj1 (leader_stream_exact 8 0 [13; 9; 101] [1; 0; 8] 84 _ _ _ eq_refl)) eq_refl);
    [lia|lia|repeat constructor; u64lia].
Defined.

End LPoD.
