(* ===== verification/Vesting.v ===== *)
(** Genesis allocations and their vesting: [core/vesting.go], the allocation
    methods and [Validate] of [core/genesis.go], and the vesting lock of
    [core/tx_verifier.go].  Unix times are [int64] and wrap as Go's do. *)

From stdpp Require Import base gmap strings list.
From Stdlib Require Import QArith.
From S2P Require Import Prelude Bytes Crypto.

Open Scope Z_scope.

Module Vesting.

(** ** Vesting schedules *)

(** [VestingType] is a string; these are its named values. *)
Definition VestingImmediate : string := "immediate".
Definition VestingLinear : string := "linear".
Definition VestingCliffLinear : string := "cliff_linear".

Record VestingSchedule := mkSchedule {
  Type_ : string; CliffSeconds : Z; VestSeconds : Z
}.

(** [uint64(x)] of an [int64]. *)
Definition to_u64 (x : Z) : Z := wrap64 x.

Definition mulDiv (a b c : Z) : Z :=
  let result := (a * b) / c in
  if negb (is_u64b result) then a else result.

Definition VestedAmount (v : VestingSchedule) (totalAmount genesisTime now : Z) : Z :=
  if bool_decide (Type_ v = VestingImmediate) || bool_decide (Type_ v = EmptyString) then totalAmount
  else if bool_decide (Type_ v = VestingLinear) then
    if VestSeconds v <=? 0 then totalAmount
    else
      let elapsed := wrapS64 (now - genesisTime) in
      if elapsed <=? 0 then 0
      else if VestSeconds v <=? elapsed then totalAmount
      else mulDiv totalAmount (to_u64 elapsed) (to_u64 (VestSeconds v))
  else if bool_decide (Type_ v = VestingCliffLinear) then
    let cliffEnd := wrapS64 (genesisTime + CliffSeconds v) in
    if now <? cliffEnd then 0
    else if VestSeconds v <=? 0 then totalAmount
    else
      let elapsed := wrapS64 (now - cliffEnd) in
      if VestSeconds v <=? elapsed then totalAmount
      else mulDiv totalAmount (to_u64 elapsed) (to_u64 (VestSeconds v))
  else 0.

Definition LockedAmount (v : VestingSchedule) (totalAmount genesisTime now : Z) : Z :=
  let vested := VestedAmount v totalAmount genesisTime now in
  if totalAmount <=? vested then 0 else totalAmount -w vested.

Definition CliffAt (v : VestingSchedule) (genesisTime : Z) : Z :=
  if bool_decide (Type_ v = VestingCliffLinear) then wrapS64 (genesisTime + CliffSeconds v)
  else genesisTime.

Definition FullUnlockAt (v : VestingSchedule) (genesisTime : Z) : Z :=
  if bool_decide (Type_ v = VestingImmediate) || bool_decide (Type_ v = EmptyString) then genesisTime
  else if bool_decide (Type_ v = VestingLinear) then wrapS64 (genesisTime + VestSeconds v)
  else if bool_decide (Type_ v = VestingCliffLinear) then
    wrapS64 (wrapS64 (genesisTime + CliffSeconds v) + VestSeconds v)
  else 4611686018427387903.

(** ** Genesis allocations *)

Record GenesisAlloc := mkAlloc {
  Address : string; Amount : Z; Label : string; Vesting : option VestingSchedule
}.

Definition alloc_VestedAmount (a : GenesisAlloc) (now genesisTime : Z) : Z :=
  match Vesting a with
  | None => Amount a
  | Some v => VestedAmount v (Amount a) genesisTime now
  end.

Definition alloc_LockedAmount (a : GenesisAlloc) (now genesisTime : Z) : Z :=
  match Vesting a with
  | None => 0
  | Some v => LockedAmount v (Amount a) genesisTime now
  end.

(** A [float64] as far as [Validate] looks at it: comparisons with a NaN are
    false. *)
Inductive float64 := NaN | PosInf | NegInf | Finite (q : Q).

Definition float_le0 (f : float64) : bool :=
  match f with NaN | PosInf => false | NegInf => true | Finite q => Qle_bool q 0 end.
Definition float_gt1 (f : float64) : bool :=
  match f with NaN | NegInf => false | PosInf => true | Finite q => negb (Qle_bool q 1) end.

(** The fields of [GenesisConfig] that [Validate] and [BuildVestingLock] read. *)
Record GenesisConfig := mkGenesis {
  ChainID : string; InitialSupply : Z; RingSizeCfg : Z; MinValidators : Z;
  BFTThreshold : float64; Validators : list string; Allocations : list GenesisAlloc
}.

Section Genesis.
Context `{Crypto}.

(** The maps [seenAddr] and [seenPub] of [Validate] (their values are used only
    in the error text). *)
Definition alloc_seen : Type := gset string * gset Point32.

Definition validate_alloc (s : alloc_seen) (alloc : GenesisAlloc) : result alloc_seen :=
  let '(seenAddr, seenPub) := s in
  if bool_decide (Address alloc = EmptyString) then Ok s
  else
    reject bool_decide (Address alloc ∈ seenAddr)
      with "genesis allocations share the same address" ;;
    let seenAddr := {[Address alloc]} ∪ seenAddr in
    match DecodeAddress (Address alloc) with
    | None => Ok (seenAddr, seenPub)
    | Some (_, spendPub, _) =>
        reject bool_decide (spendPub ∈ seenPub)
          with "genesis allocations share the same spend public key" ;;
        Ok (seenAddr, {[spendPub]} ∪ seenPub)
    end.

Definition Validate (g : GenesisConfig) : result () :=
  reject bool_decide (ChainID g = EmptyString) with "chain_id is required" ;;
  reject (InitialSupply g =? 0) with "initial_supply must be > 0" ;;
  reject (MinValidators g <? 1) with "min_validators must be >= 1" ;;
  reject float_le0 (BFTThreshold g) || float_gt1 (BFTThreshold g)
    with "bft_threshold must be in (0, 1]" ;;
  reject (RingSizeCfg g <? 2) with "ring_size must be >= 2" ;;
  reject (Z.of_nat (length (Validators g)) <? MinValidators g)
    with "genesis has fewer validators than min_validators" ;;
  _ ← foldM validate_alloc (∅, ∅) (Allocations g);
  Ok ().

(** ** The vesting lock *)

Record VestingLock := mkLock {
  allocs : gmap Point32 GenesisAlloc; genesisTime : Z
}.

(** An allocation the lock tracks: a non-immediate schedule and an address that
    decodes to [spendPub]. *)
Definition tracked (alloc : GenesisAlloc) : option Point32 :=
  if bool_decide (Address alloc = EmptyString) then None
  else match Vesting alloc with
  | None => None
  | Some v =>
      if bool_decide (Type_ v = VestingImmediate) || bool_decide (Type_ v = EmptyString) then None
      else match DecodeAddress (Address alloc) with
           | None => None
           | Some (_, spendPub, _) => Some spendPub
           end
  end.

Definition lock_alloc (m : gmap Point32 GenesisAlloc) (alloc : GenesisAlloc)
    : result (gmap Point32 GenesisAlloc) :=
  match tracked alloc with
  | None => Ok m
  | Some spendPub =>
      reject bool_decide (is_Some (m !! spendPub))
        with "BuildVestingLock: duplicate genesis allocation address" ;;
      Ok (<[spendPub := alloc]> m)
  end.

Definition BuildVestingLock (g : GenesisConfig) (genTime : Z) : result VestingLock :=
  m ← foldM lock_alloc ∅ (Allocations g);
  Ok (mkLock m genTime).

Definition lockedAt (vl : VestingLock) (pub : Point32) (now : Z) : Z :=
  match allocs vl !! pub with
  | None => 0
  | Some alloc => alloc_LockedAmount alloc now (genesisTime vl)
  end.

End Genesis.

(** ** Arithmetic lemmas *)

Lemma mulDiv_le (a b c : Z) : is_u64 a -> 0 <= b <= c -> 0 < c -> mulDiv a b c = a * b / c /\ 0 <= a * b / c <= a.
Proof.
  intros Ha Hb Hc. assert (0 <= a * b / c <= a) as Hr.
  { unfold is_u64 in *. split; [apply Z.div_pos; nia|]. apply Z.div_le_upper_bound; nia. }
  split; [|done]. unfold mulDiv. rewrite (proj2 (is_u64b_spec _)); [done|u64lia].
Qed.

(** Times of a genesis configuration: [int64] values for which the end of the
    cliff, the end of the vesting window and the elapsed time do not overflow. *)
Definition times_ok (v : VestingSchedule) (g now : Z) : Prop :=
  is_i64 g /\ is_i64 now /\ is_i64 (CliffSeconds v) /\ is_i64 (VestSeconds v) /\
  is_i64 (g + CliffSeconds v) /\ is_i64 (now - g) /\ is_i64 (now - (g + CliffSeconds v)).

#[global] Instance times_ok_dec v g now : Decision (times_ok v g now).
Proof. unfold times_ok. apply _. Defined.

(** The unlock curve as a function of the seconds elapsed since its start. *)
Definition curve (total vest elapsed : Z) : Z :=
  if vest <=? elapsed then total else total * elapsed / vest.

Lemma curve_mono (total vest e1 e2 : Z) :
  0 <= total -> 0 < vest -> 0 <= e1 <= e2 -> curve total vest e1 <= curve total vest e2.
Proof.
  intros Ht Hv He. unfold curve.
  destruct (Z.leb_spec vest e1), (Z.leb_spec vest e2); try lia.
  - apply Z.div_le_upper_bound; nia.
  - apply Z.div_le_mono; nia.
Qed.

Lemma curve_range (total vest e : Z) :
  0 <= total -> 0 < vest -> 0 <= e -> 0 <= curve total vest e <= total.
Proof.
  intros Ht Hv He. unfold curve. destruct (Z.leb_spec vest e); [lia|].
  split; [apply Z.div_pos; nia|apply Z.div_le_upper_bound; nia].
Qed.

(** The reference: no machine integers, one line per curve. *)
Definition VestedSpec (v : VestingSchedule) (total g now : Z) : Z :=
  if bool_decide (Type_ v = VestingImmediate) || bool_decide (Type_ v = EmptyString) then total
  else
    let start := if bool_decide (Type_ v = VestingLinear) then g else g + CliffSeconds v in
    if bool_decide (Type_ v = VestingLinear) || bool_decide (Type_ v = VestingCliffLinear) then
      if VestSeconds v <=? 0 then
        (if bool_decide (Type_ v = VestingLinear) || (start <=? now) then total else 0)
      else if now <? start then 0 else curve total (VestSeconds v) (now - start)
    else 0.

Lemma mulDiv_curve (total e vest : Z) :
  is_u64 total -> is_i64 vest -> 0 <= e < vest -> mulDiv total (to_u64 e) (to_u64 vest) = curve total vest e.
Proof.
  intros Ht Hv He. unfold to_u64. rewrite !wrap64_small by u64lia.
  unfold curve. destruct (Z.leb_spec vest e); [lia|]. apply mulDiv_le; u64lia.
Qed.

(** Without overflow the source computes the reference curve. *)
Lemma VestedAmount_spec (v : VestingSchedule) (total g now : Z) :
  is_u64 total -> times_ok v g now -> VestedAmount v total g now = VestedSpec v total g now.
Proof.
  intros Ht (Hg & Hn & Hc & Hv & Hgc & He1 & He2). unfold VestedAmount, VestedSpec.
  destruct (bool_decide (Type_ v = VestingImmediate) || bool_decide (Type_ v = EmptyString)); [done|].
  destruct (bool_decide (Type_ v = VestingLinear)) eqn:EL; simpl.
  - destruct (Z.leb_spec (VestSeconds v) 0); [done|]. rewrite wrapS64_small by done.
    destruct (Z.leb_spec (now - g) 0), (Z.ltb_spec now g); try lia; try done.
    + replace (now - g) with 0 by lia. unfold curve.
      destruct (Z.leb_spec (VestSeconds v) 0); [lia|]. rewrite Z.mul_0_r. done.
    + destruct (Z.leb_spec (VestSeconds v) (now - g)).
      * unfold curve. by destruct (Z.leb_spec (VestSeconds v) (now - g)); [|lia].
      * apply mulDiv_curve; [done|done|lia].
  - destruct (bool_decide (Type_ v = VestingCliffLinear)); [|done].
    rewrite (wrapS64_small (g + _)) by done.
    destruct (Z.ltb_spec now (g + CliffSeconds v)).
    + destruct (Z.leb_spec (g + CliffSeconds v) now); [lia|]. by destruct (_ <=? _).
    + destruct (Z.leb_spec (g + CliffSeconds v) now); [|lia].
      destruct (Z.leb_spec (VestSeconds v) 0); [done|]. rewrite wrapS64_small by done.
      destruct (Z.leb_spec (VestSeconds v) (now - (g + CliffSeconds v))).
      * unfold curve. by destruct (Z.leb_spec (VestSeconds v) (now - (g + CliffSeconds v))); [|lia].
      * apply mulDiv_curve; [done|done|lia].
Qed.

Lemma VestedSpec_range (v : VestingSchedule) (total g now : Z) :
  0 <= total -> 0 <= VestedSpec v total g now <= total.
Proof.
  intros Ht. unfold VestedSpec.
  repeat (case_match; try lia); zbool;
  match goal with |- context [curve ?t ?w ?e] => apply (curve_range t w e); lia end.
Qed.

Lemma VestedSpec_mono (v : VestingSchedule) (total g now now' : Z) :
  0 <= total -> now <= now' -> VestedSpec v total g now <= VestedSpec v total g now'.
Proof.
  intros Ht Hle. unfold VestedSpec.
  destruct (bool_decide (Type_ v = VestingImmediate) || bool_decide (Type_ v = EmptyString)); [lia|].
  set (start := if bool_decide (Type_ v = VestingLinear) then g else g + CliffSeconds v).
  destruct (bool_decide (Type_ v = VestingLinear) || bool_decide (Type_ v = VestingCliffLinear)); [|lia].
  destruct (Z.leb_spec (VestSeconds v) 0).
  - destruct (bool_decide (Type_ v = VestingLinear)); simpl; [lia|].
    destruct (Z.leb_spec start now), (Z.leb_spec start now'); lia.
  - destruct (Z.ltb_spec now start), (Z.ltb_spec now' start); try lia.
    + apply curve_range; lia.
    + apply curve_mono; lia.
Qed.

(** ** Genesis lemmas *)

Section GenesisLemmas.
Context `{Crypto}.

(** The spend keys seen by [Validate]'s loop contain every tracked key. *)
Lemma validate_alloc_tracked (s s' : alloc_seen) (alloc : GenesisAlloc) (pub : Point32) :
  validate_alloc s alloc = Ok s' -> tracked alloc = Some pub -> (pub ∉ s.2) /\ (pub ∈ s'.2).
Proof.
  destruct s as [sa sp]. unfold validate_alloc, tracked.
  destruct (bool_decide (Address alloc = EmptyString)); [done|].
  rewrite reject_ok. intros [_ Hv] Ht. destruct (Vesting alloc); [|done].
  destruct (_ || _); [done|].
  destruct (DecodeAddress (Address alloc)) as [[[net spendPub] view]|]; [|done].
  injection Ht as ->. apply reject_ok in Hv as [Hn [= <-]]. zbool. simpl. set_solver.
Qed.

Lemma validate_alloc_mono (s s' : alloc_seen) (alloc : GenesisAlloc) :
  validate_alloc s alloc = Ok s' -> s.2 ⊆ s'.2.
Proof.
  destruct s as [sa sp]. unfold validate_alloc.
  destruct (bool_decide (Address alloc = EmptyString)); [by intros [= <-]|].
  rewrite reject_ok. intros [_ Hv].
  destruct (DecodeAddress (Address alloc)) as [[[net spendPub] view]|].
  - apply reject_ok in Hv as [_ [= <-]]. set_solver.
  - by injection Hv as <-.
Qed.

(** The two loops in lockstep: as long as the lock's keys are keys [Validate]
    has seen, the lock cannot meet a duplicate. *)
Lemma lock_follows_validate (l : list GenesisAlloc) (s s' : alloc_seen) m :
  foldM validate_alloc s l = Ok s' -> dom m ⊆ s.2 ->
  exists m', foldM lock_alloc m l = Ok m' /\ m ⊆ m' /\
    forall alloc pub, alloc ∈ l -> tracked alloc = Some pub -> m' !! pub = Some alloc.
Proof.
  revert s m. induction l as [|a l IH]; intros s m Hv Hdom; simpl in Hv.
  - exists m. simpl. split_and!; [done|done|]. intros ? ? Hin. by apply not_elem_of_nil in Hin.
  - apply bind_ok in Hv as (s1 & H1 & H2). simpl.
    assert (Hmono := validate_alloc_mono _ _ _ H1). unfold lock_alloc.
    destruct (tracked a) as [pub|] eqn:Et; simpl.
    + destruct (validate_alloc_tracked _ _ _ _ H1 Et) as [Hnin Hin].
      assert (m !! pub = None) as Hnone by (apply not_elem_of_dom; set_solver).
      rewrite bool_decide_eq_false_2 by (rewrite Hnone; by intros [? ?]). simpl.
      destruct (IH s1 (<[pub:=a]> m) H2) as (m' & Hf & Hsub & Hall); [set_solver|].
      exists m'. split_and!; [done|by etrans; [apply insert_subseteq|]|].
      intros alloc pub' [->|Hl]%elem_of_cons Ht; [|by apply Hall].
      rewrite Et in Ht. injection Ht as <-.
      eapply lookup_weaken; [|exact Hsub]. apply lookup_insert_eq.
    + destruct (IH s1 m H2) as (m' & Hf & Hsub & Hall); [set_solver|].
      exists m'. split_and!; [done|done|].
      intros alloc pub' [->|Hl]%elem_of_cons Ht; [congruence|by apply Hall].
Qed.

End GenesisLemmas.

(** ** Claims *)

(** Within the [int64] range the unlocked amount stays between zero and the
    allocation, never decreases with time, and unlocked plus locked is exactly
    the allocation. *)
Theorem vested_bounded_monotone (v : VestingSchedule) (total g now now' : Z) :
  is_u64 total -> times_ok v g now -> times_ok v g now' -> now <= now' ->
  0 <= VestedAmount v total g now <= VestedAmount v total g now' /\
  VestedAmount v total g now' <= total /\
  VestedAmount v total g now + LockedAmount v total g now = total.
Proof.
  intros Ht Hn Hn' Hle. assert (0 <= total) by u64lia. unfold LockedAmount.
  rewrite !VestedAmount_spec by done.
  assert (H1 := VestedSpec_range v total g now ltac:(lia)).
  assert (H2 := VestedSpec_range v total g now' ltac:(lia)).
  assert (H3 := VestedSpec_mono v total g now now' ltac:(lia) Hle).
  destruct (Z.leb_spec total (VestedSpec v total g now)); [lia|].
  rewrite wrap64_small by u64lia. lia.
Qed.

(** Nothing is unlocked before [CliffAt] of a cliff schedule and everything
    is unlocked from [FullUnlockAt] on, for the three named curves; an unknown
    curve unlocks nothing, whatever the time. *)
Theorem vested_cliff_and_full (v : VestingSchedule) (total g now : Z) :
  is_u64 total -> times_ok v g now -> 0 <= VestSeconds v ->
  is_i64 (g + VestSeconds v) -> is_i64 (g + CliffSeconds v + VestSeconds v) ->
  (Type_ v = VestingCliffLinear -> now < CliffAt v g -> VestedAmount v total g now = 0) /\
  (Type_ v ∈ [VestingImmediate; EmptyString; VestingLinear; VestingCliffLinear] ->
   FullUnlockAt v g <= now -> VestedAmount v total g now = total) /\
  (Type_ v ∉ [VestingImmediate; EmptyString; VestingLinear; VestingCliffLinear] ->
   VestedAmount v total g now = 0).
Proof.
  intros Ht Hn Hv0 Hgv Hgcv. rewrite !VestedAmount_spec by done.
  destruct Hn as (Hg & Hnow & Hc & Hv & Hgc & He1 & He2). unfold CliffAt, FullUnlockAt, VestedSpec.
  split_and!.
  - intros HT. rewrite HT. simpl. rewrite wrapS64_small by done. intros Hlt.
    destruct (Z.leb_spec (VestSeconds v) 0), (Z.leb_spec (g + CliffSeconds v) now),
      (Z.ltb_spec now (g + CliffSeconds v)); lia || done.
  - rewrite !elem_of_cons, elem_of_nil. rewrite (wrapS64_small (g + CliffSeconds v)) by done.
    rewrite !wrapS64_small by done. unfold curve.
    intros [HT|[HT|[HT|[HT|[]]]]]; rewrite HT; simpl; intros Hle; try done;
      repeat (case_match; zbool; try lia; try done).
  - rewrite !not_elem_of_cons. intros (N1 & N2 & N3 & N4 & _).
    by rewrite !bool_decide_eq_false_2 by done.
Qed.

(** A genesis configuration that passes [Validate] always builds a vesting
    lock, and the lock then enforces every non-immediate allocation whose
    address decodes: the locked amount it reports for the key is that of the
    allocation itself. *)
Theorem validated_genesis_locks `{Crypto} (g : GenesisConfig) (genTime : Z) :
  Validate g = Ok () ->
  exists vl, BuildVestingLock g genTime = Ok vl /\
    forall alloc pub now, alloc ∈ Allocations g -> tracked alloc = Some pub ->
      lockedAt vl pub now = alloc_LockedAmount alloc now genTime.
Proof.
  unfold Validate. intros Hv. do 6 (apply reject_ok in Hv as [_ Hv]).
  apply bind_ok in Hv as (s & Hs & _).
  destruct (lock_follows_validate _ _ _ ∅ Hs) as (m & Hm & _ & Hall); [set_solver|].
  exists (mkLock m genTime). split; [unfold BuildVestingLock; by rewrite Hm|].
  intros alloc pub now Hin Ht. unfold lockedAt. simpl. by rewrite (Hall _ _ Hin Ht).
Qed.

(** The bounds of the vesting computation do depend on the absence of
    [int64] overflow: a cliff so long that [genesisTime + CliffSeconds] wraps
    makes the source report more than the whole allocation as unlocked at
    genesis. *)
Theorem vested_cliff_overflow :
  exists v total g, is_u64 total /\ is_i64 g /\ is_i64 (CliffSeconds v) /\
    is_i64 (VestSeconds v) /\ Type_ v = VestingCliffLinear /\
    total < VestedAmount v total g g.
Proof.
  exists (mkSchedule VestingCliffLinear 9223372036854775807 1000), 100, 1700000000.
  vm_compute. repeat split; congruence.
Qed.

(** ** Witnesses *)

Definition ex_schedule : VestingSchedule := mkSchedule VestingCliffLinear 1000 4000.

Lemma vested_bounded_monotone_witness :
  times_ok ex_schedule 100 1200 /\ times_ok ex_schedule 100 2100 /\
  VestedAmount ex_schedule 1000 100 1200 = 25 /\
  VestedAmount ex_schedule 1000 100 1200 <= VestedAmount ex_schedule 1000 100 2100.
Proof.
  assert (times_ok ex_schedule 100 1200) as H1 by (apply (bool_decide_unpack _); vm_compute; exact I).
  assert (times_ok ex_schedule 100 2100) as H2 by (apply (bool_decide_unpack _); vm_compute; exact I).
  split; [exact H1|]. split; [exact H2|]. split; [vm_compute; reflexivity|].
  refine (proj2 (proj1 (vested_bounded_monotone ex_schedule 1000 100 1200 2100 _ H1 H2 _))); u64lia.
Defined.

Lemma vested_cliff_and_full_witness :
  FullUnlockAt ex_schedule 100 = 5100 /\ VestedAmount ex_schedule 1000 100 5100 = 1000.
Proof.
  split; [vm_compute; reflexivity|].
  refine (proj1 (proj2 (vested_cliff_and_full ex_schedule 1000 100 5100 _ _ _ _ _)) _ _);
    try (simpl; u64lia).
  - apply (bool_decide_unpack _). vm_compute. exact I.
  - apply (bool_decide_unpack _). vm_compute. exact I.
  - vm_compute. discriminate.
Defined.

Definition ex_genesis : GenesisConfig :=
  mkGenesis "aperod" 10 16 1 (Finite (2 # 3)) ["v"%string]
    [mkAlloc "team" 1000 "t" (Some ex_schedule); mkAlloc "fund" 7 "f" None].

Lemma validated_genesis_locks_witness : exists vl,
  BuildVestingLock (H := toy_crypto) ex_genesis 100 = Ok vl /\
  lockedAt vl (copy_arr 32 (bytes_of_string "team")) 1200 = 975.
Proof.
  destruct (validated_genesis_locks (H := toy_crypto) ex_genesis 100) as (vl & Hvl & Hl);
    [vm_compute; reflexivity|].
  exists vl. split; [exact Hvl|].
  refine (eq_trans (Hl (mkAlloc "team" 1000 "t" (Some ex_schedule)) _ _ _ _) _).
  - left.
  - vm_compute. reflexivity.
  - vm_compute. reflexivity.
Defined.

End Vesting.
