(* ===== verification/Avm.v ===== *)
(** The native contract payload: [core/avm.go].  The main result is that the
    canonical encoding the signature covers determines every signed field. *)

From stdpp Require Import base list strings.
From S2P Require Import Prelude Bytes Crypto.

Module Avm.

Definition AVMMaxCodeSize : Z := 1048576.
Definition AVMMaxCalldataSize : Z := 65536.
Definition AVMMaxEntrySize : Z := 64.
Definition AVMMaxAccessListKeys : Z := 64.
Definition AVMMaxStateKeySize : Z := 64.
Definition AVMMinGasLimit : Z := 100.
Definition AVMMaxBlockGas : Z := 10000000.
Definition AVMMaxGasLimit : Z := AVMMaxBlockGas.
Definition AVMGasPriceNAPR : Z := 10.

(** [AVMAction] is a [uint8]. *)
Definition AVMDeployContract : byte := x01.
Definition AVMExecuteContract : byte := x02.

Record AVMAccess := mkAccess { Key : list byte; Write : bool }.

Record AVMPayload := mkPayload {
  Action : byte; ContractID : Hash32; Code : list byte; Entry : list byte;
  Calldata : list byte; GasLimit : Z; Nonce : Z; Signer : arr 32;
  Signature : arr 64; AccessList : list AVMAccess
}.

#[global] Instance AVMAccess_eq_dec : EqDecision AVMAccess.
Proof. solve_decision. Defined.
#[global] Instance AVMPayload_eq_dec : EqDecision AVMPayload.
Proof. solve_decision. Defined.

Definition zlen {A} (l : list A) : Z := Z.of_nat (length l).

(** ** UTF-8 validity: [utf8.ValidString] *)

Definition in_range (lo hi b : Z) : bool := (lo <=? b) && (b <=? hi).

(** The continuation bytes a lead byte admits, as ranges. *)
Definition utf8_tail (b : Z) : option (list (Z * Z)) :=
  if b <? 128 then Some []
  else if in_range 194 223 b then Some [(128, 191)]
  else if b =? 224 then Some [(160, 191); (128, 191)]
  else if b =? 237 then Some [(128, 159); (128, 191)]
  else if in_range 225 239 b then Some [(128, 191); (128, 191)]
  else if b =? 240 then Some [(144, 191); (128, 191); (128, 191)]
  else if in_range 241 243 b then Some [(128, 191); (128, 191); (128, 191)]
  else if b =? 244 then Some [(128, 143); (128, 191); (128, 191)]
  else None.

(** [pending] are the continuation bytes still owed to the current rune. *)
Fixpoint utf8_go (pending : list (Z * Z)) (l : list byte) : bool :=
  match l with
  | [] => bool_decide (pending = [])
  | b :: l' =>
      match pending with
      | (lo, hi) :: rest => in_range lo hi (byte_to_Z b) && utf8_go rest l'
      | [] => match utf8_tail (byte_to_Z b) with
              | Some t => utf8_go t l'
              | None => false
              end
      end
  end.

Definition ValidString (l : list byte) : bool := utf8_go [] l.

(** ** [bytes.Compare] *)

Fixpoint bytes_compare (a b : list byte) : comparison :=
  match a, b with
  | [], [] => Eq
  | [], _ :: _ => Lt
  | _ :: _, [] => Gt
  | x :: a', y :: b' =>
      match Z.compare (byte_to_Z x) (byte_to_Z y) with
      | Eq => bytes_compare a' b'
      | c => c
      end
  end.

Definition bytes_lt (a b : list byte) : bool :=
  match bytes_compare a b with Lt => true | _ => false end.

(** ** Encoding *)

Definition writeAVMBytes (value : list byte) : list byte :=
  le_encode 4 (wrap32 (zlen value)) ++ value.

Definition access_bytes (a : AVMAccess) : list byte :=
  writeAVMBytes (Key a) ++ [if Write a then x01 else x00].

Definition canonicalBytes (p : AVMPayload) (includeSignature : bool) : list byte :=
  [Action p] ++ arr_list (ContractID p) ++ writeAVMBytes (Code p) ++ writeAVMBytes (Entry p) ++
  writeAVMBytes (Calldata p) ++ le_encode 8 (GasLimit p) ++ le_encode 8 (Nonce p) ++
  arr_list (Signer p) ++ le_encode 2 (zlen (AccessList p) mod 65536) ++
  concat (access_bytes <$> AccessList p) ++
  (if includeSignature then arr_list (Signature p) else []).

Section Validate.
Context `{Crypto}.

Definition DeriveAVMContractID (signer : arr 32) (nonce : Z) (code : list byte) : Hash32 :=
  HashBytes [bytes_of_string "APRO/AVM/CONTRACT/V1"; arr_list signer; le_encode 8 nonce;
             arr_list (HashBytes [code])].

Definition SigningHash (p : AVMPayload) : Hash32 :=
  HashBytes [bytes_of_string "APRO/AVM/SIGN/V1"; canonicalBytes p false].

(** One iteration of the access-list loop; [previous] is [None] at index 0. *)
Definition check_access (previous : option (list byte)) (a : AVMAccess)
    : result (option (list byte)) :=
  reject (zlen (Key a) =? 0) || (AVMMaxStateKeySize <? zlen (Key a))
    with "avm access key must be 1..64 bytes" ;;
  reject match previous with Some p => negb (bytes_lt p (Key a)) | None => false end
    with "avm access list must be strictly sorted and unique" ;;
  Ok (Some (Key a)).

Definition check_action (p : AVMPayload) : result () :=
  if bool_decide (Action p = AVMDeployContract) then
    reject (zlen (Code p) =? 0) || (AVMMaxCodeSize <? zlen (Code p))
      with "avm deploy code must be 1..1048576 bytes" ;;
    reject negb (bool_decide (ContractID p = DeriveAVMContractID (Signer p) (Nonce p) (Code p)))
      with "avm deploy contract id does not match signer, nonce and code" ;;
    Ok ()
  else if bool_decide (Action p = AVMExecuteContract) then
    reject negb (zlen (Code p) =? 0) with "avm execute payload must not include code" ;;
    reject bool_decide (ContractID p = zero_arr 32) with "avm execute contract id is required" ;;
    Ok ()
  else Err "unknown avm action".

(** [AVMPayload.Validate]; the receiver may be nil. *)
Definition Validate (op : option AVMPayload) : result () :=
  need p from op else "avm payload is required" ;;
  _ ← check_action p;
  reject (zlen (Entry p) =? 0) || (AVMMaxEntrySize <? zlen (Entry p)) || negb (ValidString (Entry p))
    with "avm entry must be valid UTF-8 and 1..64 bytes" ;;
  reject (AVMMaxCalldataSize <? zlen (Calldata p)) with "avm calldata too large" ;;
  reject (GasLimit p <? AVMMinGasLimit) || (AVMMaxGasLimit <? GasLimit p)
    with "avm gas limit outside range" ;;
  reject bool_decide (Signer p = zero_arr 32) with "avm signer is required" ;;
  reject (AVMMaxAccessListKeys <? zlen (AccessList p)) with "avm access list too long" ;;
  _ ← foldM check_access None (AccessList p);
  reject negb (ed25519_verify (arr_list (Signer p)) (arr_list (SigningHash p)) (arr_list (Signature p)))
    with "avm payload signature is invalid" ;;
  Ok ().

End Validate.

Definition AVMGasFee (gasLimit : Z) : result Z :=
  reject (MaxUint64 / AVMGasPriceNAPR <? gasLimit) with "avm gas fee overflows uint64" ;;
  Ok (gasLimit *w AVMGasPriceNAPR).

(** ** Injectivity of the encoding *)

(** Payloads whose lengths fit the length prefixes; [Validate] implies it. *)
Definition sizes_ok (p : AVMPayload) : Prop :=
  zlen (Code p) < U32 /\ zlen (Entry p) < U32 /\ zlen (Calldata p) < U32 /\
  zlen (AccessList p) < 65536 /\ Forall (fun a => zlen (Key a) < U32) (AccessList p) /\
  is_u64 (GasLimit p) /\ is_u64 (Nonce p).

Lemma app_inj_prefix (a b x y : list byte) :
  length a = length b -> a ++ x = b ++ y -> a = b /\ x = y.
Proof. intros Hl He. by apply app_inj_1 in He. Qed.

Lemma le_encode_inj (n : nat) (v w : Z) :
  0 <= v < 256 ^ Z.of_nat n -> 0 <= w < 256 ^ Z.of_nat n -> le_encode n v = le_encode n w -> v = w.
Proof.
  intros Hv Hw He. rewrite <- (le_decode_encode n v), <- (le_decode_encode n w), He; done.
Qed.

Lemma writeAVMBytes_inj (a b x y : list byte) :
  zlen a < U32 -> zlen b < U32 -> writeAVMBytes a ++ x = writeAVMBytes b ++ y -> a = b /\ x = y.
Proof.
  intros Ha Hb. unfold writeAVMBytes. rewrite <- !app_assoc. intros He.
  apply app_inj_prefix in He as [Hlen He]; [|by rewrite !length_le_encode].
  rewrite !wrap32_small in Hlen by (unfold zlen in *; u64lia).
  apply le_encode_inj in Hlen; [|unfold zlen in *; simpl; lia..].
  apply app_inj_prefix in He; [done|]. unfold zlen in Hlen. lia.
Qed.

Lemma access_list_inj (l k : list AVMAccess) (x y : list byte) :
  length l = length k ->
  Forall (fun a => zlen (Key a) < U32) l -> Forall (fun a => zlen (Key a) < U32) k ->
  concat (access_bytes <$> l) ++ x = concat (access_bytes <$> k) ++ y -> l = k /\ x = y.
Proof.
  revert k. induction l as [|[ka wa] l IH]; intros [|[kb wb] k] Hlen Hl Hk He; try done.
  inversion Hl; inversion Hk; subst. simpl in *. 
  change (access_bytes (mkAccess ka wa)) with (writeAVMBytes ka ++ [if wa then x01 else x00]) in He.
  change (access_bytes (mkAccess kb wb)) with (writeAVMBytes kb ++ [if wb then x01 else x00]) in He.
  rewrite <- !app_assoc in He. apply writeAVMBytes_inj in He as [-> He]; [|done..].
  simpl in He. injection He as Hw He. destruct (IH k) as [-> ->]; try done; [lia|].
  destruct wa, wb; try done.
Qed.

(** Two payloads with the same signed bytes agree on every signed field, so
    a signature cannot be reused for a different action, code, call, gas limit,
    nonce, signer or access list. *)
Theorem canonicalBytes_inj (p q : AVMPayload) :
  sizes_ok p -> sizes_ok q -> canonicalBytes p false = canonicalBytes q false ->
  Action p = Action q /\ ContractID p = ContractID q /\ Code p = Code q /\
  Entry p = Entry q /\ Calldata p = Calldata q /\ GasLimit p = GasLimit q /\
  Nonce p = Nonce q /\ Signer p = Signer q /\ AccessList p = AccessList q.
Proof.
  intros (P1 & P2 & P3 & P4 & P5 & P6 & P7) (Q1 & Q2 & Q3 & Q4 & Q5 & Q6 & Q7) He.
  unfold canonicalBytes in He. apply app_inj_prefix in He as [Ha He]; [|done].
  apply app_inj_prefix in He as [Hid He]; [|by rewrite !arr_length].
  apply writeAVMBytes_inj in He as [Hcode He]; [|done..].
  apply writeAVMBytes_inj in He as [Hentry He]; [|done..].
  apply writeAVMBytes_inj in He as [Hcall He]; [|done..].
  apply app_inj_prefix in He as [Hgas He]; [|by rewrite !length_le_encode].
  apply app_inj_prefix in He as [Hnonce He]; [|by rewrite !length_le_encode].
  apply app_inj_prefix in He as [Hsig He]; [|by rewrite !arr_length].
  apply app_inj_prefix in He as [Hcount He]; [|by rewrite !length_le_encode].
  assert (0 <= zlen (AccessList p) /\ 0 <= zlen (AccessList q)) as [? ?] by (unfold zlen; lia).
  apply le_encode_inj in Hgas; [|u64lia..]. apply le_encode_inj in Hnonce; [|u64lia..].
  rewrite !Z.mod_small in Hcount by lia.
  apply le_encode_inj in Hcount; [|simpl; lia..].
  apply access_list_inj in He as [Hacc _]; [|unfold zlen in Hcount; lia|done..].
  injection Ha as Ha. by rewrite (arr_ext _ _ Hid), (arr_ext _ _ Hsig).
Qed.

(** ** Validated payloads *)

Lemma access_sorted (l : list AVMAccess) (prev prev' : option (list byte)) :
  foldM check_access prev l = Ok prev' ->
  Forall (fun a => 0 < zlen (Key a) <= AVMMaxStateKeySize) l /\
  Sorted (fun a b => bytes_lt (Key a) (Key b) = true) l /\
  (forall p a l', prev = Some p -> l = a :: l' -> bytes_lt p (Key a) = true).
Proof.
  revert prev. induction l as [|a l IH]; intros prev Hf; simpl in Hf; [by split_and!; [constructor..|]|].
  apply bind_ok in Hf as (p1 & H1 & H2). unfold check_access in H1.
  apply reject_ok in H1 as [Hk H1]. apply reject_ok in H1 as [Hs [= <-]].
  zbool. destruct (IH _ H2) as (IHk & IHs & IHp). split_and!.
  - constructor; [|done]. unfold zlen in *. lia.
  - constructor; [done|]. destruct l as [|b l']; constructor. by apply (IHp _ _ l').
  - intros p a' l' -> [= <- <-]. by zbool.
Qed.

(** A payload that passes [Validate] is within every size bound, its access
    list is strictly increasing in byte order, its gas fee fits in a [uint64],
    and it is in the domain on which the encoding is injective. *)
Theorem validated_payload `{Crypto} (p : AVMPayload) :
  is_u64 (Nonce p) -> Validate (Some p) = Ok () ->
  sizes_ok p /\ Sorted (fun a b => bytes_lt (Key a) (Key b) = true) (AccessList p) /\
  AVMGasFee (GasLimit p) = Ok (GasLimit p * AVMGasPriceNAPR) /\
  (Action p = AVMDeployContract \/ Action p = AVMExecuteContract).
Proof.
  intros Hn Hv. unfold Validate in Hv. apply bind_ok in Hv as ([] & Hact & Hv).
  apply reject_ok in Hv as [He Hv]. apply reject_ok in Hv as [Hcd Hv].
  apply reject_ok in Hv as [Hg Hv]. apply reject_ok in Hv as [_ Hv].
  apply reject_ok in Hv as [Hal Hv]. apply bind_ok in Hv as (pr & Hacc & _).
  apply access_sorted in Hacc as (Hk & Hs & _). zbool.
  assert (zlen (Code p) < U32 /\ (Action p = AVMDeployContract \/ Action p = AVMExecuteContract)) as [Hc Ha].
  { unfold check_action in Hact. case_bool_decide.
    - apply reject_ok in Hact as [Hc _]. zbool. unfold AVMMaxCodeSize in *. split; [lia|by left].
    - case_bool_decide; [|done]. apply reject_ok in Hact as [Hc _]. zbool. split; [lia|by right]. }
  unfold AVMMaxEntrySize, AVMMaxCalldataSize, AVMMaxGasLimit, AVMMaxBlockGas, AVMMinGasLimit,
    AVMMaxAccessListKeys, AVMMaxStateKeySize in *.
  split_and!; try done.
  - unfold sizes_ok. split_and!; try lia; [|u64lia|u64lia].
    eapply Forall_impl; [|exact Hk]. simpl. lia.
  - unfold AVMGasFee, AVMGasPriceNAPR. rewrite wrap64_small by u64lia.
    destruct (Z.ltb_spec (MaxUint64 / 10) (GasLimit p)) as [Hlt|]; [|done].
    assert (MaxUint64 / 10 = 1844674407370955161) by reflexivity. lia.
Qed.

(** ** Witnesses *)

Definition ex_payload : AVMPayload :=
  mkPayload AVMExecuteContract (copy_arr 32 [x05]) [] [x72; x75; x6e] [x01] 100 7
    (copy_arr 32 [x09]) (copy_arr 64 [x09]) [mkAccess [x01] true; mkAccess [x01; x02] false].

Lemma canonicalBytes_inj_witness :
  Nonce ex_payload = 7 /\ AccessList ex_payload = AccessList ex_payload.
Proof.
  split; [reflexivity|].
  refine (proj2 (proj2 (proj2 (proj2 (proj2 (proj2 (proj2 (proj2
    (canonicalBytes_inj ex_payload ex_payload _ _ eq_refl)))))))));
    (unfold sizes_ok; simpl; split_and!; try (repeat constructor); unfold zlen; simpl; u64lia).
Defined.

Lemma validated_payload_witness :
  Validate (H := toy_crypto) (Some ex_payload) = Ok () /\ AVMGasFee 100 = Ok 1000.
Proof.
  split; [vm_compute; reflexivity|].
  refine (proj1 (proj2 (proj2 (validated_payload (H := toy_crypto) ex_payload _ _)))).
  - simpl. u64lia.
  - vm_compute. reflexivity.
Defined.

End Avm.
