(* ===== verification/StakePayload.v ===== *)
(** The stake payloads carried in [Transaction.Extra]: the fixed layouts of
    [core/staking.go], their encoders and decoders, and the messages the
    signatures cover.  The theorems are the round trips in both directions, so
    that a payload and its bytes determine each other. *)

From stdpp Require Import base list strings.
From S2P Require Import Prelude Bytes Crypto.

Module StakePayload.

(** ** Constants *)

Definition MaxValidators : nat := 21.
Definition MinStakeNAPR : Z := 10000000000000.
Definition EpochLength : Z := 100.
Definition ChurnLimit : nat := 3.
Definition MaxStakeNAPR : Z := 10000000000000000.
Definition UnbondingBlocks : Z := 144000.
Definition SlashPercent : Z := 10.
Definition PartialUnbondingBlocks : Z := 43200.
Definition StakeWithdrawalMaxExpiryBlocks : Z := 100.

(** [StakeAction] is a [uint8]. *)
Abbreviation StakeAction := byte (only parsing).
Definition StakeDeposit : StakeAction := x01.
Definition StakeWithdraw : StakeAction := x02.
Definition StakePartialWithdraw : StakeAction := x03.

Definition StakePayloadSize : nat := 105.
Definition StakePayloadSizeV2 : nat := 173.
Definition StakePayloadSizeV3 : nat := 237.
Definition StakePayloadSizeV4 : nat := 301.
Definition StakeWithdrawalPayloadSizeV2 : nat := 193.

Record StakeWithdrawalAuthorizationV2 := mkAuthV2 {
  wa_Action : StakeAction; wa_PubKey : ValidatorPubKey; wa_Amount : Z;
  wa_Genesis : Hash32; wa_Nonce : Z; wa_Generation : Z; wa_ExpiryHeight : Z;
  wa_StakeRef : Hash32; wa_Signature : list byte
}.

(** The results of [DecodeStakeExtra] and of the first seven results shared by
    the deposit decoders. *)
Record StakeExtra := mkExtra {
  se_action : StakeAction; se_pub : ValidatorPubKey; se_amount : Z; se_sig : list byte
}.

Record DepositExtra := mkDeposit {
  de_action : StakeAction; de_pub : ValidatorPubKey; de_amount : Z; de_sig : list byte;
  burnTxHash : Hash32; burnOutIdx : Z; burnBlind : BlindFactor
}.

#[global] Instance StakeWithdrawalAuthorizationV2_eq_dec : EqDecision StakeWithdrawalAuthorizationV2.
Proof. solve_decision. Defined.
#[global] Instance StakeExtra_eq_dec : EqDecision StakeExtra.
Proof. solve_decision. Defined.
#[global] Instance DepositExtra_eq_dec : EqDecision DepositExtra.
Proof. solve_decision. Defined.

(** [extra[0]] of a payload whose length has been checked. *)
Definition first_byte (extra : list byte) : byte :=
  match extra with b :: _ => b | [] => x00 end.

Definition is_withdrawal (action : StakeAction) : bool :=
  bool_decide (action = StakeWithdraw) || bool_decide (action = StakePartialWithdraw).

(** ** Withdrawal authorization, version 2 *)

Definition EncodeStakeWithdrawalExtraV2 (a : StakeWithdrawalAuthorizationV2) : result (list byte) :=
  reject negb (bool_decide (length (wa_PubKey a) = 32%nat)) ||
         negb (bool_decide (length (wa_Signature a) = 64%nat))
    with "stake withdrawal v2: invalid public key or signature length" ;;
  reject negb (is_withdrawal (wa_Action a)) with "stake withdrawal v2: invalid action" ;;
  Ok ([wa_Action a] ++ wa_PubKey a ++ be_encode 8 (wa_Amount a) ++ arr_list (wa_Genesis a) ++
      be_encode 8 (wa_Nonce a) ++ be_encode 8 (wa_Generation a) ++
      be_encode 8 (wa_ExpiryHeight a) ++ arr_list (wa_StakeRef a) ++ wa_Signature a).

Definition DecodeStakeWithdrawalExtraV2 (extra : list byte) : result StakeWithdrawalAuthorizationV2 :=
  reject negb (bool_decide (length extra = StakeWithdrawalPayloadSizeV2))
    with "stake withdrawal v2: wrong length" ;;
  let a := mkAuthV2 (first_byte extra) (slice extra 1 33) (be_decode (slice extra 33 41))
    (copy_arr 32 (slice extra 41 73)) (be_decode (slice extra 73 81))
    (be_decode (slice extra 81 89)) (be_decode (slice extra 89 97))
    (copy_arr 32 (slice extra 97 129)) (slice extra 129 193) in
  reject negb (is_withdrawal (wa_Action a)) with "stake withdrawal v2: invalid action" ;;
  Ok a.

(** ** Version 1 payload (withdrawals) *)

Definition EncodeStakeExtra (p : StakeExtra) : result (list byte) :=
  reject negb (bool_decide (length (se_pub p) = 32%nat)) with "stake extra: pubkey must be 32 bytes" ;;
  reject negb (bool_decide (length (se_sig p) = 64%nat)) with "stake extra: signature must be 64 bytes" ;;
  Ok ([se_action p] ++ se_pub p ++ be_encode 8 (se_amount p) ++ se_sig p).

Definition DecodeStakeExtra (extra : list byte) : result StakeExtra :=
  reject negb (bool_decide (length extra = StakePayloadSize)) with "stake extra: wrong length" ;;
  Ok (mkExtra (first_byte extra) (slice extra 1 33) (be_decode (slice extra 33 41))
        (slice extra 41 105)).

(** ** Deposit payloads, versions 2 to 4 *)

(** The 173 bytes every deposit payload starts with. *)
Definition deposit_bytes (p : DepositExtra) : list byte :=
  [de_action p] ++ de_pub p ++ be_encode 8 (de_amount p) ++ de_sig p ++
  arr_list (burnTxHash p) ++ be_encode 4 (burnOutIdx p) ++ arr_list (burnBlind p).

Definition deposit_fields (extra : list byte) : DepositExtra :=
  mkDeposit (first_byte extra) (slice extra 1 33) (be_decode (slice extra 33 41))
    (slice extra 41 105) (copy_arr 32 (slice extra 105 137))
    (be_decode (slice extra 137 141)) (copy_arr 32 (slice extra 141 173)).

Definition EncodeStakeExtraV2 (p : DepositExtra) : result (list byte) :=
  reject negb (bool_decide (length (de_pub p) = 32%nat)) with "stake extra v2: pubkey must be 32 bytes" ;;
  reject negb (bool_decide (length (de_sig p) = 64%nat)) with "stake extra v2: signature must be 64 bytes" ;;
  Ok (deposit_bytes p).

Definition DecodeStakeExtraV2 (extra : list byte) : result DepositExtra :=
  reject negb (bool_decide (length extra = StakePayloadSizeV2)) with "stake extra v2: wrong length" ;;
  Ok (deposit_fields extra).

Definition EncodeStakeExtraV3 (p : DepositExtra) (oneTimeSig : list byte) : result (list byte) :=
  reject negb (bool_decide (length (de_pub p) = 32%nat)) with "stake extra v3: pubkey must be 32 bytes" ;;
  reject negb (bool_decide (length (de_sig p) = 64%nat)) with "stake extra v3: signature must be 64 bytes" ;;
  reject negb (bool_decide (length oneTimeSig = 64%nat)) with "stake extra v3: oneTimeSig must be 64 bytes" ;;
  Ok (deposit_bytes p ++ oneTimeSig).

Definition DecodeStakeExtraV3 (extra : list byte) : result (DepositExtra * list byte) :=
  reject negb (bool_decide (length extra = StakePayloadSizeV3)) with "stake extra v3: wrong length" ;;
  Ok (deposit_fields extra, slice extra 173 237).

Definition EncodeStakeExtraV4 (p : DepositExtra) (keyImage : KeyImage) (proof : KeyImageDLEQProof)
    : result (list byte) :=
  reject negb (bool_decide (length (de_pub p) = 32%nat)) with "stake extra v4: pubkey must be 32 bytes" ;;
  reject negb (bool_decide (length (de_sig p) = 64%nat)) with "stake extra v4: signature must be 64 bytes" ;;
  Ok (deposit_bytes p ++ arr_list keyImage ++ arr_list (CommitmentG proof) ++
      arr_list (CommitmentHp proof) ++ arr_list (Response proof)).

Definition DecodeStakeExtraV4 (extra : list byte)
    : result (DepositExtra * KeyImage * KeyImageDLEQProof) :=
  reject negb (bool_decide (length extra = StakePayloadSizeV4)) with "stake extra v4: wrong length" ;;
  Ok (deposit_fields extra, copy_arr 32 (slice extra 173 205),
      {| CommitmentG := copy_arr 32 (slice extra 205 237);
         CommitmentHp := copy_arr 32 (slice extra 237 269);
         Response := copy_arr 32 (slice extra 269 301) |}).

(** ** Signed messages *)

Definition StakeKeyImageProofContext (p : DepositExtra) : list byte :=
  [de_action p] ++ arr_list (copy_arr 32 (de_pub p)) ++ be_encode 8 (de_amount p) ++
  arr_list (burnTxHash p) ++ be_encode 4 (burnOutIdx p) ++ arr_list (burnBlind p).

Section Messages.
Context `{Crypto}.

Definition StakeReferenceV2 (genesis : Hash32) (pub : ValidatorPubKey) (generation stake : Z) : Hash32 :=
  HashBytes [bytes_of_string "aperod/stake-withdrawal/reference/v2"; arr_list genesis; pub;
             be_encode 8 generation; be_encode 8 stake].

(** The bytes [StakeWithdrawalSignMsgV2] hashes, after the domain tag. *)
Definition withdrawal_v2_bytes (a : StakeWithdrawalAuthorizationV2) : list (list byte) :=
  [[wa_Action a]; wa_PubKey a; be_encode 8 (wa_Amount a); arr_list (wa_Genesis a);
   be_encode 8 (wa_Nonce a); be_encode 8 (wa_Generation a); be_encode 8 (wa_ExpiryHeight a);
   arr_list (wa_StakeRef a)].

Definition StakeWithdrawalSignMsgV2 (a : StakeWithdrawalAuthorizationV2) : Hash32 :=
  HashBytes (bytes_of_string "aperod/stake-withdrawal/authorization/v2" :: withdrawal_v2_bytes a).

Definition StakeSignMsg (action : StakeAction) (pub : ValidatorPubKey) (amount : Z) : Hash32 :=
  HashBytes [bytes_of_string "aperod/stake/v1"; [action]; pub; be_encode 8 amount].

Definition StakeOwnershipSignMsg (txHash : Hash32) (outIdx : Z) : Hash32 :=
  HashBytes [bytes_of_string "aperod/stake/ownership/v1"; arr_list txHash; be_encode 4 outIdx].

Definition StakeSignMsgV2 (action : StakeAction) (pub : ValidatorPubKey) (amount : Z)
    (txHash : Hash32) (outIdx : Z) : Hash32 :=
  HashBytes [bytes_of_string "aperod/stake/v2"; [action]; pub; be_encode 8 amount;
             arr_list txHash; be_encode 4 outIdx].

End Messages.

(** ** Round trips *)

(** Values of the Go types: 32-byte key, 64-byte signature, machine integers. *)
Definition deposit_wf (p : DepositExtra) : Prop :=
  length (de_pub p) = 32%nat /\ length (de_sig p) = 64%nat /\
  is_u64 (de_amount p) /\ is_u32 (burnOutIdx p).

Definition auth_wf (a : StakeWithdrawalAuthorizationV2) : Prop :=
  length (wa_PubKey a) = 32%nat /\ length (wa_Signature a) = 64%nat /\
  is_withdrawal (wa_Action a) = true /\ is_u64 (wa_Amount a) /\ is_u64 (wa_Nonce a) /\
  is_u64 (wa_Generation a) /\ is_u64 (wa_ExpiryHeight a).

Lemma length_deposit_bytes (p : DepositExtra) :
  deposit_wf p -> length (deposit_bytes p) = 173%nat.
Proof. intros (Hp & Hs & _). unfold deposit_bytes. lens. Qed.

Lemma deposit_fields_bytes (p : DepositExtra) (rest : list byte) :
  deposit_wf p -> deposit_fields (deposit_bytes p ++ rest) = p.
Proof.
  intros (Hp & Hs & Ha & Hi). unfold deposit_bytes, deposit_fields.
  rewrite <- !app_assoc. slices.
  rewrite !copy_arr_list, be_decode_encode8, be_decode_encode4 by done. by destruct p.
Qed.

Lemma first_byte_slice (l : list byte) :
  (0 < length l)%nat -> slice l 0 1 = [first_byte l].
Proof. destruct l; simpl; [lia|done]. Qed.

Lemma copy_slice_list (l : list byte) (a b : nat) :
  (b <= length l)%nat -> (b - a = 32)%nat -> arr_list (copy_arr 32 (slice l a b)) = slice l a b.
Proof. intros. apply arr_list_copy. rewrite slice_length; lia. Qed.

Lemma be_slice (n : nat) (l : list byte) (a b : nat) :
  (b <= length l)%nat -> (b - a = n)%nat -> be_encode n (be_decode (slice l a b)) = slice l a b.
Proof. intros. apply be_encode_decode. rewrite slice_length; lia. Qed.

Lemma deposit_bytes_fields (extra : list byte) :
  (173 <= length extra)%nat -> deposit_bytes (deposit_fields extra) = slice extra 0 173.
Proof.
  intros Hl. unfold deposit_bytes, deposit_fields. simpl de_action. cbn [de_pub de_amount de_sig burnTxHash burnOutIdx burnBlind].
  rewrite !copy_slice_list, !be_slice by lia. rewrite <- first_byte_slice by lia.
  rewrite !slice_cat by lia. done.
Qed.

Lemma deposit_fields_wf (extra : list byte) :
  (173 <= length extra)%nat -> deposit_wf (deposit_fields extra).
Proof.
  intros Hl. unfold deposit_wf, deposit_fields. cbn [de_pub de_sig de_amount burnOutIdx].
  rewrite !slice_length by lia.
  split_and!; try done; [apply be_decode8_u64|apply be_decode4_u32]; rewrite slice_length; lia.
Qed.

Ltac pass := rewrite reject_no_ok by (rewrite ?orb_false_iff, ?negb_false_iff;
  repeat split; apply bool_decide_eq_true_2; first [assumption | unfold StakePayloadSizeV3, StakePayloadSizeV4, StakeWithdrawalPayloadSizeV2, StakePayloadSize; lens]).

(** Every deposit payload survives encoding and decoding: for versions 2, 3
    and 4 the decoder recovers the fields the encoder was given, and the three
    encodings have the declared sizes, so the version of a payload is
    recognised by its length alone. *)
Theorem deposit_payload_roundtrip (p : DepositExtra) (oneTimeSig : list byte)
    (ki : KeyImage) (proof : KeyImageDLEQProof) :
  deposit_wf p -> length oneTimeSig = 64%nat ->
  (b ← EncodeStakeExtraV2 p; DecodeStakeExtraV2 b) = Ok p /\
  (b ← EncodeStakeExtraV3 p oneTimeSig; DecodeStakeExtraV3 b) = Ok (p, oneTimeSig) /\
  (b ← EncodeStakeExtraV4 p ki proof; DecodeStakeExtraV4 b) = Ok (p, ki, proof).
Proof.
  intros Hwf Hots. assert (Hlen := length_deposit_bytes p Hwf).
  assert (Hf := fun r => deposit_fields_bytes p r Hwf).
  destruct Hwf as (Hp & Hs & Ha & Hi). split_and!.
  - unfold EncodeStakeExtraV2. do 2 pass. cbn [mbind result_bind]. unfold DecodeStakeExtraV2. pass.
    specialize (Hf []). rewrite app_nil_r in Hf. by rewrite Hf.
  - unfold EncodeStakeExtraV3. do 3 pass. cbn [mbind result_bind]. unfold DecodeStakeExtraV3. pass.
    rewrite Hf. by slices.
  - unfold EncodeStakeExtraV4. do 2 pass. cbn [mbind result_bind]. unfold DecodeStakeExtraV4. pass.
    rewrite Hf. slices. rewrite !copy_arr_list. by destruct proof.
Qed.

(** The 301-byte decoder loses nothing: whatever it accepts is re-encoded to
    the very same bytes, so two different payloads never decode alike. *)
Theorem deposit_v4_bytes_roundtrip (extra : list byte) (p : DepositExtra) (ki : KeyImage)
    (proof : KeyImageDLEQProof) :
  DecodeStakeExtraV4 extra = Ok (p, ki, proof) ->
  deposit_wf p /\ EncodeStakeExtraV4 p ki proof = Ok extra.
Proof.
  unfold DecodeStakeExtraV4. intros H. apply reject_ok in H as [Hl H]. zbool.
  unfold StakePayloadSizeV4 in Hl. injection H as <- <- <-.
  assert (Hwf : deposit_wf (deposit_fields extra)) by (apply deposit_fields_wf; lia).
  split; [done|]. destruct Hwf as (Hp & Hs & _).
  unfold EncodeStakeExtraV4. do 2 pass. f_equal. cbn [CommitmentG CommitmentHp Response].
  rewrite deposit_bytes_fields, !copy_slice_list by lia.
  rewrite !slice_cat by lia. rewrite <- Hl. apply slice_all.
Qed.

(** The withdrawal authorization survives encoding and decoding, and the
    decoder accepts exactly the bytes of well-formed authorizations, so neither
    nonce, generation, expiry nor stake reference can be altered in transit
    without altering the bytes. *)
Theorem withdrawal_v2_roundtrip (a : StakeWithdrawalAuthorizationV2) (extra : list byte) :
  auth_wf a ->
  EncodeStakeWithdrawalExtraV2 a = Ok extra <-> DecodeStakeWithdrawalExtraV2 extra = Ok a.
Proof.
  intros (Hp & Hs & Hact & Ha & Hn & Hg & He). unfold EncodeStakeWithdrawalExtraV2.
  pass. rewrite reject_no_ok by by rewrite Hact. split.
  - intros He'. apply Ok_inj in He' as <-. unfold DecodeStakeWithdrawalExtraV2. pass. cbn [app first_byte wa_Action].
    rewrite reject_no_ok by by rewrite Hact.
    change (?x :: ?y ++ ?z) with ([x] ++ y ++ z). slices.
    rewrite !copy_arr_list, !be_decode_encode8 by done. by destruct a.
  - unfold DecodeStakeWithdrawalExtraV2. intros H. apply reject_ok in H as [Hl H].
    apply reject_ok in H as [_ H]. zbool. unfold StakeWithdrawalPayloadSizeV2 in Hl.
    injection H as <-. cbn [wa_Action wa_PubKey wa_Amount wa_Genesis wa_Nonce wa_Generation
      wa_ExpiryHeight wa_StakeRef wa_Signature]. f_equal.
    rewrite !copy_slice_list, !be_slice by lia. rewrite <- first_byte_slice by lia.
    rewrite !slice_cat by lia. rewrite <- Hl. apply slice_all.
Qed.

(** The same for the version 1 payload. *)
Lemma stake_v1_roundtrip (p : StakeExtra) :
  length (se_pub p) = 32%nat -> length (se_sig p) = 64%nat -> is_u64 (se_amount p) ->
  (b ← EncodeStakeExtra p; DecodeStakeExtra b) = Ok p.
Proof.
  intros Hp Hs Ha. unfold EncodeStakeExtra. do 2 pass. cbn [mbind result_bind]. unfold DecodeStakeExtra. pass.
  change (?x :: ?y ++ ?z) with ([x] ++ y ++ z). slices. rewrite be_decode_encode8 by done. by destruct p.
Qed.

(** ** Witnesses *)

Definition ex_deposit : DepositExtra :=
  mkDeposit StakeDeposit (replicate 32 x07) 10000000000000 (replicate 64 x07)
    (copy_arr 32 [x09]) 3 (copy_arr 32 [x0a]).
Definition ex_proof : KeyImageDLEQProof :=
  {| CommitmentG := copy_arr 32 [x01]; CommitmentHp := copy_arr 32 [x02]; Response := copy_arr 32 [x03] |}.
Definition ex_v4_bytes : list byte :=
  match EncodeStakeExtraV4 ex_deposit (copy_arr 32 [x0b]) ex_proof with Ok b => b | Err _ => [] end.
Definition ex_auth : StakeWithdrawalAuthorizationV2 :=
  mkAuthV2 StakeWithdraw (replicate 32 x07) 10000000000000 (copy_arr 32 [x01]) 0 1 50
    (copy_arr 32 [x02]) (replicate 64 x07).
Definition ex_auth_bytes : list byte :=
  match EncodeStakeWithdrawalExtraV2 ex_auth with Ok b => b | Err _ => [] end.

Lemma deposit_payload_roundtrip_witness :
  deposit_wf ex_deposit /\ (b ← EncodeStakeExtraV2 ex_deposit; DecodeStakeExtraV2 b) = Ok ex_deposit.
Proof.
  assert (deposit_wf ex_deposit) as Hwf by (unfold deposit_wf; split_and!; try reflexivity; simpl; u64lia).
  split; [exact Hwf|].
  exact (proj1 (deposit_payload_roundtrip ex_deposit (replicate 64 x05) (zero_arr 32) ex_proof Hwf eq_refl)).
Defined.

Lemma deposit_v4_bytes_roundtrip_witness :
  length ex_v4_bytes = 301%nat /\
  deposit_wf ex_deposit /\ EncodeStakeExtraV4 ex_deposit (copy_arr 32 [x0b]) ex_proof = Ok ex_v4_bytes.
Proof.
  split; [vm_compute; reflexivity|].
  apply (deposit_v4_bytes_roundtrip ex_v4_bytes). 
  apply (bool_decide_unpack _). vm_compute. exact I.
Defined.

Lemma withdrawal_v2_roundtrip_witness :
  auth_wf ex_auth /\ DecodeStakeWithdrawalExtraV2 ex_auth_bytes = Ok ex_auth.
Proof.
  assert (auth_wf ex_auth) as Hwf by (unfold auth_wf; split_and!; try reflexivity; simpl; u64lia).
  split; [exact Hwf|]. apply (withdrawal_v2_roundtrip ex_auth ex_auth_bytes Hwf).
  apply (bool_decide_unpack _). vm_compute. exact I.
Defined.

End StakePayload.
