(* ===== verification/Transaction.v ===== *)
(** Transactions and block headers: [core/transaction.go], [core/lpod.go],
    [core/lpod_position.go], [core/sale.go], [core/guardian_fund.go],
    [core/mint.go] and the data types of [core/block.go].

    A slice is modelled by its contents, so a nil slice and an empty one are
    the same value; a slice of pointers is a list of options. *)

From stdpp Require Import base list strings.
From S2P Require Import Prelude Bytes Crypto Avm StakePayload.

Module Transaction.

(** ** Data *)

Abbreviation TxVersion := byte (only parsing).
Definition TxVersionBase : TxVersion := x01.
Definition TxVersionGameAsset : TxVersion := x02.
Definition TxVersionStake : TxVersion := x03.
Definition TxVersionCommitmentBinding : TxVersion := x04.
Definition TxVersionCLSAG : TxVersion := x05.
Definition TxVersionAVM : TxVersion := x06.
Definition TxVersionGuardianFund : TxVersion := x07.
Definition TxVersionLPoD : TxVersion := x08.
Definition TxVersionLPoDPosition : TxVersion := x09.
Definition TxVersionLPoDPayout : TxVersion := x0a.
Definition TxVersionSale : TxVersion := x0b.

Record RingInput := mkInput {
  in_KeyImage : KeyImage; Ring : list RingMember; in_AmountCommit : Commitment;
  RingCommitments : list Commitment; PseudoOut : Commitment; RealIndex : byte
}.

Record Output := mkOutput {
  OneTimePub : Point32; TxPubKey : Point32; AmountCommit : Commitment; EncAmount : arr 8
}.

Record Transaction := mkTx {
  Version : TxVersion; Inputs : list RingInput; Outputs : list Output; Fee : Z;
  FeeCommit : Commitment; RangeProofs : list (option RangeProof);
  Signatures : list (option MLSAGSignature); CLSAGSignatures : list (option CLSAGSignature);
  Extra : list byte; AVM : option Avm.AVMPayload
}.

#[global] Instance RingInput_eq_dec : EqDecision RingInput.
Proof. solve_decision. Defined.
#[global] Instance Output_eq_dec : EqDecision Output.
Proof. solve_decision. Defined.
#[global] Instance Transaction_eq_dec : EqDecision Transaction.
Proof. solve_decision. Defined.

Record BlockHeader := mkHeader {
  Height : Z; PrevHash : Hash32; MerkleRootField : Hash32; Timestamp : Z; Round : Z;
  ValidatorPub : ValidatorPubKey; OraclePrice : Z; BaseFee : Z; HeaderSignature : list byte
}.

Record Block := mkBlock { Header : BlockHeader; Txs : list Transaction }.

#[global] Instance BlockHeader_eq_dec : EqDecision BlockHeader.
Proof. solve_decision. Defined.
#[global] Instance Block_eq_dec : EqDecision Block.
Proof. solve_decision. Defined.

Definition encodeUint64 (v : Z) : list byte := le_encode 8 v.
Definition encodeInt64 (v : Z) : list byte := encodeUint64 (wrap64 v).
Definition encodeUint32 (v : Z) : list byte := le_encode 4 v.

(** [len(l) != n] *)
Definition len_is {A} (l : list A) (n : nat) : bool := bool_decide (length l = n).

(** ** Intentional burns *)

Definition intentionalBurnPrefix : list byte := bytes_of_string "APRO-BURN" ++ [x01].

Definition IntentionalBurnExtra (amount : Z) : list byte :=
  intentionalBurnPrefix ++ le_encode 8 amount.

(** The results [(amount, marked, err)]; the error is the [Err] case. *)
Definition parseIntentionalBurnExtra (extra : list byte) : result (option Z) :=
  if (Nat.ltb (length extra) (length intentionalBurnPrefix)) ||
     negb (bool_decide (take (length intentionalBurnPrefix) extra = intentionalBurnPrefix))
  then Ok None
  else
    reject negb (len_is extra (length intentionalBurnPrefix + 8))
      with "malformed intentional burn marker" ;;
    let amount := le_decode (drop (length intentionalBurnPrefix) extra) in
    reject (amount =? 0) with "intentional burn amount must be positive" ;;
    Ok (Some amount).

Definition BurnAmount (tx : option Transaction) : option Z :=
  match tx with
  | None => None
  | Some tx => match parseIntentionalBurnExtra (Extra tx) with Ok o => o | Err _ => None end
  end.

Definition IsBurnTx (tx : option Transaction) : bool := bool_decide (is_Some (BurnAmount tx)).

(** ** Kinds of transactions *)

Definition is_version (v : TxVersion) (tx : Transaction) : bool := bool_decide (Version tx = v).
Definition IsGuardianFund := is_version TxVersionGuardianFund.
Definition IsLPoD := is_version TxVersionLPoD.
Definition IsLPoDPosition := is_version TxVersionLPoDPosition.
Definition IsLPoDPayout := is_version TxVersionLPoDPayout.
Definition IsSale := is_version TxVersionSale.
Definition IsStake := is_version TxVersionStake.
Definition IsAVM := is_version TxVersionAVM.

Definition IsCoinbase (tx : Transaction) : bool :=
  bool_decide (Inputs tx = []) && negb (IsGuardianFund tx) && negb (IsLPoD tx) &&
  negb (IsLPoDPosition tx) && negb (IsLPoDPayout tx) && negb (IsSale tx).

Definition UsesCLSAG (tx : Transaction) : bool :=
  is_version TxVersionCLSAG tx || is_version TxVersionAVM tx.

(** ** The transaction hash *)

Definition input_parts (tx : Transaction) (inp : RingInput) : list (list byte) :=
  [arr_list (in_KeyImage inp); arr_list (in_AmountCommit inp)] ++
  (arr_list <$> Ring inp) ++
  (if is_version TxVersionCommitmentBinding tx then [[RealIndex inp]] else []) ++
  (if UsesCLSAG tx then
     concat (imap (fun i rm => arr_list rm ::
       match RingCommitments inp !! i with Some c => [arr_list c] | None => [] end) (Ring inp)) ++
     [arr_list (PseudoOut inp)]
   else []).

Definition output_parts (out : Output) : list (list byte) :=
  [arr_list (OneTimePub out); arr_list (AmountCommit out); arr_list (TxPubKey out);
   arr_list (EncAmount out)].

Definition hash_parts (tx : Transaction) : list (list byte) :=
  [[Version tx]; encodeUint64 (Fee tx); arr_list (FeeCommit tx); Extra tx] ++
  match AVM tx with Some p => [Avm.canonicalBytes p true] | None => [] end ++
  concat (input_parts tx <$> Inputs tx) ++ concat (output_parts <$> Outputs tx).

Definition Hash `{Crypto} (tx : Transaction) : Hash32 := HashBytes (hash_parts tx).

(** ** Size and fees *)

Definition Size (tx : Transaction) : Z :=
  let zl {A} (l : list A) := Z.of_nat (length l) in
  let ring := Z.of_nat RingSize in
  let v4 := is_version TxVersionCommitmentBinding tx in
  let sigBytes := 32 + ring * 32 + 32 + (if v4 then 2 * ring * 32 + 64 else 0) in
  1 + 8 + 32
  + zl (Inputs tx) * (32 + ring * 32 + 32)
  + (if v4 then zl (Inputs tx) else 0)
  + zl (Outputs tx) * (32 + 32 + 32 + 8)
  + (if UsesCLSAG tx then zl (Inputs tx) * (ring * 32 + 32 + 608)
     else zl (Signatures tx) * sigBytes)
  + match AVM tx with Some p => zl (Avm.canonicalBytes p true) | None => 0 end
  + zl (RangeProofs tx) * 675
  + zl (Extra tx).

Definition InitialBaseFeePerByte : Z := 200.
Definition MinBaseFeePerByte : Z := 50.

Definition MinFeeAt (tx : Transaction) (baseFeePerByte : Z) : Z :=
  let base := if baseFeePerByte =? 0 then InitialBaseFeePerByte else baseFeePerByte in
  let size := wrap64 (Size tx) in
  if negb (size =? 0) && (MaxUint64 / size <? base) then MaxUint64
  else size *w base.

Definition KeyImages (tx : Transaction) : list KeyImage := in_KeyImage <$> Inputs tx.

(** ** LPoD checkpoints *)

Definition lpodPrefix : list byte := bytes_of_string "APRO-LPOD-CHECKPOINT" ++ [x01].

Definition emptyTx (v : TxVersion) : Transaction :=
  mkTx v [] [] 0 (zero_arr 32) [] [] [] [] None.

Definition LPoDCheckpointTx (digest : Hash32) : Transaction :=
  mkTx TxVersionLPoD [] [] 0 (zero_arr 32) [] [] [] (lpodPrefix ++ arr_list digest) None.

Definition validateLPoD (tx : Transaction) : result () :=
  reject negb (len_is (Inputs tx) 0) || negb (len_is (Outputs tx) 0) || negb (Fee tx =? 0) ||
         negb (bool_decide (FeeCommit tx = zero_arr 32)) || negb (len_is (RangeProofs tx) 0) ||
         negb (len_is (Signatures tx) 0) || negb (len_is (CLSAGSignatures tx) 0) ||
         negb (bool_decide (AVM tx = None)) ||
         negb (len_is (Extra tx) (length lpodPrefix + 32)) ||
         negb (bool_decide (take (length lpodPrefix) (Extra tx) = lpodPrefix))
    with "lpod: malformed checkpoint transaction" ;;
  Ok ().

Definition LPoDCheckpointDigest (tx : Transaction) : result Hash32 :=
  reject negb (IsLPoD tx) with "lpod: not a checkpoint" ;;
  _ ← validateLPoD tx;
  Ok (copy_arr 32 (drop (length lpodPrefix) (Extra tx))).

(** ** LPoD positions and payouts *)

Definition LPoDDeposit : byte := x01.
Definition LPoDWithdraw : byte := x02.

Record LPoDPositionAction := mkPosition {
  pa_Action : byte; pa_Genesis : Hash32; pa_PositionID : Hash32; pa_Vault : Point32;
  pa_Nonce : Z; pa_Beneficiary : string; pa_Owner : Point32; pa_SourceTx : Hash32;
  pa_SourceIndex : Z; pa_SourcePub : Point32; pa_Amount : Z; pa_Blind : BlindFactor;
  pa_WithdrawAmount : Z
}.

Record LPoDPayoutAuthorization := mkPayoutAuth { po_Leader : string; po_Digest : Hash32 }.

(** [encoding/json] at the three types the payloads use it for. *)
Class Json := {
  Marshal_position : LPoDPositionAction -> list byte;
  Unmarshal_position : list byte -> option LPoDPositionAction;
  Marshal_position_id : Hash32 -> Hash32 -> Z -> list byte;
  Marshal_payout : LPoDPayoutAuthorization -> list byte;
  Unmarshal_payout : list byte -> option LPoDPayoutAuthorization
}.

Section Payloads.
Context `{Crypto} `{Json}.

Definition Message (a : LPoDPositionAction) : Hash32 :=
  HashBytes [bytes_of_string "aperod/lpod/position/v1"; Marshal_position a].

Definition LPoDPositionID (genesis source : Hash32) (index : Z) : Hash32 :=
  HashBytes [bytes_of_string "aperod/lpod/position-id/v1"; Marshal_position_id genesis source index].

Definition LPoDOwnershipRing (pub : Point32) : list RingMember :=
  pub :: ((fun i => HashToCurvePoint
      (bytes_of_string "aperod/lpod/direct-proof-decoy/v1" ++ arr_list pub ++
       [byte_of_Z (Z.of_nat i)])) <$> seq 1 (RingSize - 1)).

(** The checks of [LPoDPositionAction] that follow the owner signature of a deposit. *)
Definition check_position_deposit (tx : Transaction) (a : LPoDPositionAction)
    : result LPoDPositionAction :=
  match Inputs tx, Signatures tx with
  | [inp], _ :: Some proof :: _ =>
      reject negb (pa_Nonce a =? 0) || negb (pa_WithdrawAmount a =? 0) with "lpod: invalid deposit" ;;
      need commit from Commit (pa_Amount a) (pa_Blind a) else "commit error" ;;
      let expected := mkInput (MLSAGKeyImage proof) (LPoDOwnershipRing (pa_SourcePub a)) commit
                        [] (zero_arr 32) x00 in
      reject negb (bool_decide (expected = inp)) with "lpod: input differs from ownership opening" ;;
      reject negb (MLSAGVerifyV4 (Message a) (Ring expected) commit 0 (Some proof))
        with "lpod: source ownership/key-image/opening proof rejected" ;;
      Ok a
  | _, _ => Err "lpod: invalid deposit"
  end.

(** The method [LPoDPositionAction] of a transaction. *)
Definition positionAction (tx : Transaction) : result LPoDPositionAction :=
  reject negb (IsLPoDPosition tx) || Nat.ltb 4096 (length (Extra tx)) || len_is (Extra tx) 0
    with "lpod: invalid position payload" ;;
  need a from Unmarshal_position (Extra tx) else "json error" ;;
  reject negb (bool_decide (Marshal_position a = Extra tx))
    with "lpod: noncanonical position encoding" ;;
  reject bool_decide (pa_Genesis a = zero_arr 32) ||
         negb (bool_decide (pa_PositionID a =
           LPoDPositionID (pa_Genesis a) (pa_SourceTx a) (pa_SourceIndex a))) ||
         (negb (bool_decide (pa_Action a = LPoDDeposit)) &&
          negb (bool_decide (pa_Action a = LPoDWithdraw))) || (pa_Amount a =? 0)
    with "lpod: invalid action or position identity" ;;
  reject match DecodeAddress (pa_Beneficiary a) with
         | Some (_, spend, _) => negb (bool_decide (spend = pa_Owner a))
         | None => true
         end
    with "lpod: beneficiary does not belong to signing owner" ;;
  reject negb (len_is (Outputs tx) 0) || negb (Fee tx =? 0) ||
         negb (bool_decide (FeeCommit tx = zero_arr 32)) || negb (len_is (RangeProofs tx) 0) ||
         negb (len_is (CLSAGSignatures tx) 0) || negb (bool_decide (AVM tx = None))
    with "lpod: positions cannot mint or contain unaccounted fields" ;;
  let expectedSignatures := if bool_decide (pa_Action a = LPoDDeposit) then 2%nat else 1%nat in
  reject negb (len_is (Signatures tx) expectedSignatures) with "lpod: missing ownership proof" ;;
  reject negb (MLSAGVerifyV4 (Message a) (LPoDOwnershipRing (pa_Owner a)) (pa_Owner a) 0
                 (default None (list.head (Signatures tx))))
    with "lpod: owner signature rejected" ;;
  if bool_decide (pa_Action a = LPoDWithdraw) then
    reject negb (len_is (Inputs tx) 0) || (pa_Nonce a =? 0) with "lpod: invalid withdrawal" ;;
    Ok a
  else check_position_deposit tx a.

(** The method [LPoDPayoutAuthorization] of a transaction. *)
Definition payoutAuthorization (tx : Transaction) : result LPoDPayoutAuthorization :=
  reject negb (IsLPoDPayout tx) || negb (len_is (Inputs tx) 0) ||
         Nat.ltb 4097 (length (Outputs tx)) || negb (Fee tx =? 0) ||
         negb (bool_decide (FeeCommit tx = zero_arr 32)) || negb (len_is (Signatures tx) 0) ||
         negb (len_is (CLSAGSignatures tx) 0) || negb (len_is (RangeProofs tx) 0) ||
         negb (bool_decide (AVM tx = None)) || Nat.ltb 512 (length (Extra tx))
    with "lpod: malformed payout" ;;
  need a from Unmarshal_payout (Extra tx) else "json error" ;;
  reject negb (bool_decide (Marshal_payout a = Extra tx))
    with "lpod: noncanonical payout authorization" ;;
  reject negb (bool_decide (is_Some (DecodeAddress (po_Leader a)))) with "address error" ;;
  Ok a.

End Payloads.

(** ** Sale transactions *)

Definition saleExtraSize : nat := 280.
Definition salePrefix : list byte := bytes_of_string "APSALE" ++ [x01; x00].

Record SaleAuthorization := mkSaleAuth {
  sa_Genesis : Hash32; sa_Height : Z; sa_Parent : Hash32; sa_Order : Hash32;
  sa_Payment : Hash32; sa_Amount : Z; sa_Opening : arr 64; sa_Signature : arr 64
}.

#[global] Instance SaleAuthorization_eq_dec : EqDecision SaleAuthorization.
Proof. solve_decision. Defined.

Definition sale_extra (a : SaleAuthorization) : list byte :=
  salePrefix ++ arr_list (sa_Genesis a) ++ be_encode 8 (sa_Height a) ++
  arr_list (sa_Parent a) ++ arr_list (sa_Order a) ++ arr_list (sa_Payment a) ++
  be_encode 8 (sa_Amount a) ++ arr_list (sa_Opening a) ++ arr_list (sa_Signature a).

Definition sale_fields (extra : list byte) : SaleAuthorization :=
  mkSaleAuth (copy_arr 32 (slice extra 8 40)) (be_decode (slice extra 40 48))
    (copy_arr 32 (slice extra 48 80)) (copy_arr 32 (slice extra 80 112))
    (copy_arr 32 (slice extra 112 144)) (be_decode (slice extra 144 152))
    (copy_arr 64 (slice extra 152 216)) (copy_arr 64 (slice extra 216 280)).

Definition set_Extra (e : list byte) (tx : Transaction) : Transaction :=
  mkTx (Version tx) (Inputs tx) (Outputs tx) (Fee tx) (FeeCommit tx) (RangeProofs tx)
    (Signatures tx) (CLSAGSignatures tx) e (AVM tx).

Section Sale.
Context `{Crypto}.

(** The method [SaleAuthorization] of a transaction. *)
Definition saleAuthorization (tx : Transaction) : result SaleAuthorization :=
  match Outputs tx with
  | [out] =>
      reject negb (IsSale tx) || negb (len_is (Extra tx) saleExtraSize) ||
             negb (bool_decide (take 8 (Extra tx) = salePrefix)) ||
             negb (len_is (Inputs tx) 0) || negb (Fee tx =? 0) ||
             negb (bool_decide (FeeCommit tx = zero_arr 32)) || negb (bool_decide (AVM tx = None)) ||
             negb (len_is (RangeProofs tx) 0) || negb (len_is (Signatures tx) 0) ||
             negb (len_is (CLSAGSignatures tx) 0)
        with "sale: noncanonical transaction structure" ;;
      let a := sale_fields (Extra tx) in
      reject (sa_Height a =? 0) || (sa_Amount a =? 0) || bool_decide (sa_Genesis a = zero_arr 32) ||
             bool_decide (sa_Parent a = zero_arr 32) || bool_decide (sa_Order a = zero_arr 32) ||
             bool_decide (sa_Payment a = zero_arr 32)
        with "sale: empty authorization field" ;;
      reject negb (ValidateAuthorizedOutputPoints (OneTimePub out) (TxPubKey out))
        with "authorized output points" ;;
      reject negb (VerifyValueAuthorization (sa_Amount a) (AmountCommit out) (sa_Opening a))
        with "value authorization" ;;
      Ok a
  | _ => Err "sale: noncanonical transaction structure"
  end.

Definition SaleSigningMessage (tx : Transaction) : Hash32 :=
  let unsigned :=
    if len_is (Extra tx) saleExtraSize
    then set_Extra (take 216 (Extra tx) ++ replicate 64 x00) tx else tx in
  HashBytes [bytes_of_string "aperod/sale/confidential-output-authorization/v1";
             arr_list (Hash unsigned)].

End Sale.

(** ** The Guardian fund *)

Definition GuardianFundNAPR : Z := 1000000000 * 100000000.
Definition GuardianFundVersion : byte := x01.
Definition guardianFundDomain : list byte := bytes_of_string "APRO-GUARDIAN-FUND".
Definition guardianFundExtraSize : nat := 59.

Definition guardianFundExtra (anchor : Hash32) (height : Z) : list byte :=
  guardianFundDomain ++ [GuardianFundVersion] ++ arr_list anchor ++ le_encode 8 height.

Definition BuildGuardianFundTx `{Crypto} (chainAnchor : Hash32) (activationHeight : Z)
    : result Transaction :=
  reject bool_decide (chainAnchor = zero_arr 32)
    with "guardian fund requires a non-zero chain anchor" ;;
  let extra := guardianFundExtra chainAnchor activationHeight in
  let pub := HashToCurvePoint (bytes_of_string "aperod/guardian-fund/key/v1" ++ extra) in
  need commit from Commit GuardianFundNAPR (zero_arr 32) else "guardian fund commitment" ;;
  Ok (mkTx TxVersionGuardianFund [] [mkOutput pub (zero_arr 32) commit (zero_arr 8)] 0
        (zero_arr 32) [] [] [] extra None).

(** ** Mint transactions *)

Definition BuildMintTx `{Crypto} (addr : string) (amount height : Z) : result Transaction :=
  reject (amount =? 0) with "mint amount must be > 0" ;;
  need d from DecodeAddress addr else "decode address" ;;
  let '(_, spendPub, _) := d in
  need blind from (if 0 <? height then DeterministicMintBlindV2 spendPub amount height
                   else DeterministicMintBlind spendPub amount)
    else "deterministic mint blind" ;;
  need commit from Commit amount blind else "pedersen commit" ;;
  need heightPub from ScalarMulBaseUint64 height else "derive height pub" ;;
  need oneTimePub from AddPoints spendPub heightPub else "derive mint one-time pub" ;;
  Ok (mkTx TxVersionBase [] [mkOutput oneTimePub (zero_arr 32) commit (zero_arr 8)] 0
        (zero_arr 32) [] [] [] [] None).

(** ** Structural validation *)

Definition known_version (v : TxVersion) : bool :=
  bool_decide (v ∈ [TxVersionBase; TxVersionGameAsset; TxVersionStake; TxVersionCommitmentBinding;
    TxVersionCLSAG; TxVersionAVM; TxVersionGuardianFund; TxVersionLPoD; TxVersionLPoDPosition;
    TxVersionLPoDPayout; TxVersionSale]).

Definition validate_guardian (tx : Transaction) : result () :=
  reject negb (len_is (Inputs tx) 0) || negb (len_is (Outputs tx) 1) || negb (Fee tx =? 0) ||
         negb (bool_decide (FeeCommit tx = zero_arr 32)) || negb (len_is (RangeProofs tx) 0) ||
         negb (len_is (Signatures tx) 0) || negb (len_is (CLSAGSignatures tx) 0)
    with "guardian fund transaction has non-canonical structure" ;;
  reject negb (len_is (Extra tx) guardianFundExtraSize)
    with "guardian fund transaction has malformed extra" ;;
  Ok ().

Definition validate_stake (tx : Transaction) : result () :=
  let extra := Extra tx in
  reject negb (len_is extra StakePayload.StakePayloadSize) &&
         negb (len_is extra StakePayload.StakeWithdrawalPayloadSizeV2) &&
         negb (len_is extra StakePayload.StakePayloadSizeV2) &&
         negb (len_is extra StakePayload.StakePayloadSizeV3) &&
         negb (len_is extra StakePayload.StakePayloadSizeV4)
    with "stake tx: extra has a wrong size" ;;
  let action := StakePayload.first_byte extra in
  reject negb (bool_decide (action = StakePayload.StakeDeposit)) &&
         negb (bool_decide (action = StakePayload.StakeWithdraw)) &&
         negb (bool_decide (action = StakePayload.StakePartialWithdraw))
    with "stake tx: unknown action" ;;
  if len_is (Outputs tx) 0 then Ok () else Err "stake tx must not contain outputs".

(** The checks of a transaction whose [Extra] carries the burn marker. *)
Definition validate_burn (tx : Transaction) (burnAmount : Z) : result () :=
  reject negb (is_version TxVersionCommitmentBinding tx) && negb (is_version TxVersionCLSAG tx)
    with "intentional burn requires transaction version 4" ;;
  reject IsCoinbase tx with "coinbase must not carry an intentional burn marker" ;;
  reject (burnAmount =? 0) with "intentional burn amount must be positive" ;;
  reject Nat.ltb 1 (length (Outputs tx)) with "intentional burn may contain only a change output" ;;
  Ok ().

(** One iteration of the input loop; the state is the index [i]. *)
Definition validate_input (tx : Transaction) (i : nat) (inp : RingInput) : result nat :=
  reject negb (len_is (Ring inp) RingSize) with "ring size" ;;
  reject bool_decide (in_KeyImage inp = zero_arr 32) with "zero key image" ;;
  _ ← (if is_version TxVersionCommitmentBinding tx then
         reject Z.of_nat RingSize <=? byte_to_Z (RealIndex inp) with "real index out of range" ;;
         need osig from Signatures tx !! i else "panic: index out of range" ;;
         match osig with
         | Some sig =>
             reject negb (len_is (BlindSS sig) RingSize) || negb (len_is (ValueSS sig) RingSize)
               with "v4 signature opening response length mismatch" ;;
             Ok ()
         | None => Ok ()
         end
       else Ok ());
  _ ← (if UsesCLSAG tx then
         reject negb (bool_decide (RealIndex inp = x00)) with "v5 must not disclose a real index" ;;
         reject negb (len_is (RingCommitments inp) RingSize) with "ring commitment count" ;;
         need osig from CLSAGSignatures tx !! i else "panic: index out of range" ;;
         match osig with
         | Some sig =>
             reject negb (len_is (S_ sig) RingSize) with "v5 CLSAG response length mismatch" ;; Ok ()
         | None => Err "v5 CLSAG response length mismatch"
         end
       else Ok ());
  Ok (S i).

(** The part of [Validate] after the stake branch. *)
Definition validate_ringct (tx : Transaction) : result () :=
  burn ← parseIntentionalBurnExtra (Extra tx);
  _ ← match burn with Some amount => validate_burn tx amount | None => Ok () end;
  reject len_is (Outputs tx) 0 && bool_decide (burn = None) with "tx has no outputs" ;;
  reject Nat.ltb 16 (length (Outputs tx)) with "tx has too many outputs" ;;
  reject Nat.ltb 255 (length (Extra tx)) with "tx extra too large" ;;
  if IsCoinbase tx then
    reject negb (is_version TxVersionBase tx) with "coinbase must use transaction version 1" ;;
    Ok ()
  else
    reject len_is (Inputs tx) 0 with "tx has no inputs" ;;
    _ ← (if UsesCLSAG tx then
           reject negb (len_is (Signatures tx) 0) with "tx: v5 must not contain legacy signatures" ;;
           reject negb (len_is (CLSAGSignatures tx) (length (Inputs tx)))
             with "tx: CLSAG signature count" ;; Ok ()
         else
           reject negb (len_is (CLSAGSignatures tx) 0)
             with "tx: legacy transaction must not contain CLSAG signatures" ;;
           reject negb (len_is (Signatures tx) (length (Inputs tx))) with "tx: signature count" ;;
           Ok ());
    reject negb (len_is (RangeProofs tx) (length (Outputs tx))) with "tx: range proof count" ;;
    _ ← foldM (validate_input tx) 0%nat (Inputs tx);
    Ok ().

Section Validate.
Context `{Crypto} `{Json}.

Definition validate_avm (tx : Transaction) : result () :=
  if IsAVM tx then
    reject negb (len_is (Extra tx) 0) with "avm transaction must not use Extra" ;;
    _ ← Avm.Validate (AVM tx);
    reject len_is (Inputs tx) 0 || len_is (Outputs tx) 0
      with "avm transaction requires CLSAG fee inputs and a change output" ;;
    Ok ()
  else
    reject negb (bool_decide (AVM tx = None))
      with "non-avm transaction must not carry an avm payload" ;;
    Ok ().

Definition Validate (tx : Transaction) : result () :=
  reject bool_decide (Version tx = x00) with "tx version 0 is invalid" ;;
  reject negb (known_version (Version tx)) with "unsupported tx version" ;;
  if IsLPoD tx then validateLPoD tx
  else if IsSale tx then _ ← saleAuthorization tx; Ok ()
  else if IsLPoDPosition tx then _ ← positionAction tx; Ok ()
  else if IsLPoDPayout tx then _ ← payoutAuthorization tx; Ok ()
  else
    _ ← validate_avm tx;
    if IsGuardianFund tx then validate_guardian tx
    else if IsStake tx then validate_stake tx
    else validate_ringct tx.

(** [activations] are the optional CLSAG and AVM heights. *)
Definition ValidateTxVersionAtHeight (otx : option Transaction) (height ringCTV4ActivationHeight : Z)
    (activations : list Z) : result () :=
  need tx from otx else "nil transaction" ;;
  if IsLPoD tx then validateLPoD tx
  else if IsLPoDPosition tx || IsLPoDPayout tx then Validate tx
  else if IsStake tx then Ok ()
  else if IsGuardianFund tx then Ok ()
  else if IsCoinbase tx then
    reject negb (is_version TxVersionBase tx) with "coinbase must use transaction version 1" ;; Ok ()
  else
    let clsagHeight := default 0 (activations !! 0%nat) in
    let avmHeight := default 0 (activations !! 1%nat) in
    if IsAVM tx then
      reject (avmHeight =? 0) || (height <? avmHeight) with "AVM transaction version is not active" ;;
      reject (clsagHeight =? 0) || (height <? clsagHeight) with "AVM requires active CLSAG" ;;
      Ok ()
    else
      reject is_version TxVersionCLSAG tx && ((clsagHeight =? 0) || (height <? clsagHeight))
        with "transaction version is not active" ;;
      reject is_version TxVersionCommitmentBinding tx && (0 <? ringCTV4ActivationHeight) &&
             (height <? ringCTV4ActivationHeight)
        with "transaction version is not active until height" ;;
      reject (0 <? clsagHeight) && (clsagHeight <=? height) && negb (UsesCLSAG tx)
        with "RingCT v5 is required" ;;
      reject ((ringCTV4ActivationHeight =? 0) || (ringCTV4ActivationHeight <=? height)) &&
             (is_version TxVersionBase tx || is_version TxVersionGameAsset tx)
        with "legacy RingCT transaction version is disabled" ;;
      Ok ().

Definition GuardianFundTxAt (otx : option Transaction) (chainAnchor : Hash32)
    (activationHeight : Z) : bool :=
  match otx with
  | None => false
  | Some tx =>
      is_ok (Validate tx) &&
      match BuildGuardianFundTx chainAnchor activationHeight with
      | Ok expected => bool_decide (tx = expected)
      | Err _ => false
      end
  end.

End Validate.

(** ** Validated spends *)

(** What [Validate] establishes of a RingCT spend: matching counts, full rings,
    non-zero key images and, per signature scheme, the right response sizes. *)
Record spend_shape (tx : Transaction) : Prop := {
  sh_inputs : Inputs tx <> [];
  sh_outputs : (length (Outputs tx) <= 16)%nat;
  sh_burn : Outputs tx = [] -> exists a, Extra tx = IntentionalBurnExtra a /\ 0 < a < U64;
  sh_proofs : length (RangeProofs tx) = length (Outputs tx);
  sh_extra : (length (Extra tx) <= 255)%nat;
  sh_clsag : UsesCLSAG tx = true ->
    Signatures tx = [] /\
    Forall2 (fun inp sig => RealIndex inp = x00 /\ length (RingCommitments inp) = RingSize /\
      exists s, sig = Some s /\ length (S_ s) = RingSize) (Inputs tx) (CLSAGSignatures tx);
  sh_legacy : UsesCLSAG tx = false ->
    CLSAGSignatures tx = [] /\ length (Signatures tx) = length (Inputs tx);
  sh_v4 : is_version TxVersionCommitmentBinding tx = true ->
    Forall (fun inp => byte_to_Z (RealIndex inp) < Z.of_nat RingSize) (Inputs tx);
  sh_rings : Forall (fun inp => length (Ring inp) = RingSize /\ in_KeyImage inp <> zero_arr 32) (Inputs tx)
}.

(** The transaction is none of the special kinds [Validate] branches on. *)
Definition ringct (tx : Transaction) : bool :=
  negb (IsLPoD tx) && negb (IsSale tx) && negb (IsLPoDPosition tx) && negb (IsLPoDPayout tx) &&
  negb (IsGuardianFund tx) && negb (IsStake tx).

(** The burn marker is recognised exactly on the encodings of positive amounts. *)
Lemma burn_marker_iff (extra : list byte) (a : Z) :
  parseIntentionalBurnExtra extra = Ok (Some a) <-> extra = IntentionalBurnExtra a /\ 0 < a < U64.
Proof.
  unfold parseIntentionalBurnExtra, IntentionalBurnExtra, len_is.
  change (length intentionalBurnPrefix) with 10%nat. split.
  - destruct (_ || _) eqn:E; [discriminate|]. intros H.
    apply reject_ok in H as [Hl H]. apply reject_ok in H as [Ha H]. zbool.
    injection H as <-. assert (Hr := le_decode_range (drop 10 extra)).
    rewrite length_drop, Hl in Hr. change (256 ^ _) with U64 in Hr. split; [|lia].
    rewrite <- (take_drop 10 extra) at 1. f_equal; [done|].
    rewrite <- (le_encode_decode (drop 10 extra)) at 1. by rewrite length_drop, Hl.
  - intros [-> Ha]. rewrite length_app, length_le_encode.
    change (length intentionalBurnPrefix) with 10%nat.
    rewrite (take_app_length' intentionalBurnPrefix), (drop_app_length' intentionalBurnPrefix) by done.
    rewrite bool_decide_eq_true_2 by done. cbn [negb orb Nat.ltb Nat.leb Nat.add].
    rewrite bool_decide_eq_true_2 by done. cbn [negb].
    rewrite le_decode_encode by (simpl; lia). by destruct (Z.eqb_spec a 0); [lia|].
Qed.

Lemma validate_inputs_sound (tx : Transaction) (i j : nat) (l : list RingInput) :
  foldM (validate_input tx) i l = Ok j ->
  Forall (fun inp => length (Ring inp) = RingSize /\ in_KeyImage inp <> zero_arr 32) l /\
  (is_version TxVersionCommitmentBinding tx = true ->
     Forall (fun inp => byte_to_Z (RealIndex inp) < Z.of_nat RingSize) l) /\
  (UsesCLSAG tx = true ->
     Forall2 (fun inp sig => RealIndex inp = x00 /\ length (RingCommitments inp) = RingSize /\
       exists s, sig = Some s /\ length (S_ s) = RingSize) l
       (take (length l) (drop i (CLSAGSignatures tx)))).
Proof.
  revert i. induction l as [|inp l IH]; intros i Hf; simpl in Hf; [by split_and!; repeat constructor|].
  apply bind_ok in Hf as (i' & Hi & Hf). unfold validate_input in Hi.
  apply reject_ok in Hi as [Hr Hi]. apply reject_ok in Hi as [Hk Hi].
  apply bind_ok in Hi as ([] & H4 & Hi). apply bind_ok in Hi as ([] & H5 & [= <-]).
  destruct (IH _ Hf) as (IHr & IH4 & IH5). unfold len_is in *. zbool. split_and!.
  - by constructor.
  - intros Hv. rewrite Hv in H4. apply reject_ok in H4 as [Hx _]. zbool. constructor; [lia|by apply IH4].
  - intros Hv. rewrite Hv in H5. apply reject_ok in H5 as [Hx H5]. apply reject_ok in H5 as [Hy H5].
    zbool. destruct (CLSAGSignatures tx !! i) as [[sig|]|] eqn:El; try discriminate.
    apply reject_ok in H5 as [Hz _]. zbool.
    rewrite (drop_S _ _ _ El). simpl. constructor; [by eauto|by apply IH5].
Qed.

Lemma validate_ringct_sound (tx : Transaction) :
  IsCoinbase tx = false -> validate_ringct tx = Ok () -> spend_shape tx.
Proof.
  intros Hcb Hv. unfold validate_ringct in Hv.
  apply bind_ok in Hv as (burn & Hb & Hv). apply bind_ok in Hv as ([] & Hburn & Hv).
  apply reject_ok in Hv as [Hout Hv]. apply reject_ok in Hv as [H16 Hv].
  apply reject_ok in Hv as [H255 Hv]. rewrite Hcb in Hv.
  apply reject_ok in Hv as [Hin Hv]. apply bind_ok in Hv as ([] & Hsig & Hv).
  apply reject_ok in Hv as [Hrp Hv]. apply bind_ok in Hv as (j & Hf & _).
  apply validate_inputs_sound in Hf as (Hr & H4 & H5). unfold len_is in *.
  apply Nat.ltb_ge in H16, H255. zbool. constructor; try done.
  - intros He. by rewrite He in Hin.
  - intros Ho. rewrite Ho in Hout. simpl in Hout. destruct burn as [a|]; [|by rewrite bool_decide_eq_true_2 in Hout].
    exists a. by apply burn_marker_iff.
  - intros Hu. rewrite Hu in Hsig. apply reject_ok in Hsig as [Hs Hsig].
    apply reject_ok in Hsig as [Hc _]. zbool. split; [by apply nil_length_inv|].
    specialize (H5 Hu). rewrite drop_0, take_ge in H5 by lia. done.
  - intros Hu. rewrite Hu in Hsig. apply reject_ok in Hsig as [Hs Hsig].
    apply reject_ok in Hsig as [Hc _]. zbool. split; [by apply nil_length_inv|done].
Qed.

(** A RingCT transaction that passes [Validate] and is not a coinbase has the
    shape the verifier relies on: every ring full, no zero key image, one
    signature of the right scheme per input, one range proof per output, and no
    outputs only for a well-formed burn. *)
Theorem validated_spend `{Crypto} `{Json} (tx : Transaction) :
  ringct tx = true -> IsCoinbase tx = false -> Validate tx = Ok () -> spend_shape tx.
Proof.
  unfold ringct. intros Hr Hcb Hv. zbool. unfold Validate in Hv.
  apply reject_ok in Hv as [_ Hv]. apply reject_ok in Hv as [_ Hv].
  assert (Hs := validate_ringct_sound tx Hcb). clear Hcb.
  repeat match goal with H : ?b = false |- _ => rewrite H in Hv; clear H end.
  apply bind_ok in Hv as ([] & _ & Hv). by apply Hs.
Qed.

(** ** Height-gated version policy *)

(** An activation height of 0 means "never" for CLSAG and AVM. *)
Definition active_at (activation height : Z) : bool := (0 <? activation) && (activation <=? height).

(** The policy as a table: the versions a spend may use at [height]. *)
Definition version_allowed (v : TxVersion) (height v4 clsag avm : Z) : bool :=
  if bool_decide (v = TxVersionAVM) then active_at avm height && active_at clsag height
  else if bool_decide (v = TxVersionCLSAG) then active_at clsag height
  else if bool_decide (v = TxVersionCommitmentBinding)
  then negb (active_at clsag height) && (v4 <=? height)
  else negb (active_at clsag height) && (0 <? v4) && (height <? v4).

(** The wire versions of RingCT spends. *)
Definition spend_versions : list TxVersion :=
  [TxVersionBase; TxVersionGameAsset; TxVersionCommitmentBinding; TxVersionCLSAG; TxVersionAVM].

(** The height gate is exactly the table [version_allowed]: versions 1 and 2
    only below the version 4 activation, version 4 from there to the CLSAG
    activation, version 5 (and 6 where the contract machine is active) after it. *)
Theorem version_policy `{Crypto} `{Json} (tx : Transaction) (height v4 clsag avm : Z) :
  is_u64 height -> is_u64 v4 -> is_u64 clsag -> is_u64 avm ->
  Version tx ∈ spend_versions -> Inputs tx <> [] ->
  ValidateTxVersionAtHeight (Some tx) height v4 [clsag; avm] = Ok () <->
  version_allowed (Version tx) height v4 clsag avm = true.
Proof.
  intros Hh H4 Hc Ha Hv Hin.
  unfold ValidateTxVersionAtHeight, version_allowed, active_at, IsCoinbase, IsLPoD, IsLPoDPosition,
    IsLPoDPayout, IsStake, IsGuardianFund, IsAVM, IsSale, UsesCLSAG, is_version.
  rewrite (bool_decide_eq_false_2 (Inputs tx = [])) by done. cbn [andb default].
  unfold spend_versions in Hv. rewrite !elem_of_cons in Hv. unfold is_u64 in *.
  destruct Hv as [Hv|[Hv|[Hv|[Hv|[Hv|Hv]]]]]; [..|by apply elem_of_nil in Hv]; rewrite Hv;
    eval_decide; cbn -[Z.ltb Z.leb Z.eqb];
    rewrite ?reject_ok; cbn -[Z.ltb Z.leb Z.eqb];
    assert (Hok : Ok () = Ok () <-> True) by done; rewrite ?Hok; lia.
Qed.

(** ** Minimum fee *)

Lemma Size_pos (tx : Transaction) : 0 < Size tx.
Proof.
  unfold Size. destruct (is_version _ tx), (UsesCLSAG tx), (AVM tx); simpl; lia.
Qed.

(** The minimum fee is the exact product, saturated at [math.MaxUint64]; it
    never wraps to a small value. *)
Lemma MinFeeAt_spec (tx : Transaction) (f : Z) :
  is_u64 f -> Size tx < U64 ->
  MinFeeAt tx f = Z.min MaxUint64 (Size tx * (if f =? 0 then InitialBaseFeePerByte else f)).
Proof.
  intros Hf Hs. assert (Hp := Size_pos tx). unfold MinFeeAt.
  rewrite (wrap64_small (Size tx)) by u64lia.
  set (b := if f =? 0 then InitialBaseFeePerByte else f).
  assert (0 < b < U64) as Hb by (subst b; unfold InitialBaseFeePerByte; destruct (Z.eqb_spec f 0); u64lia).
  destruct (Z.eqb_spec (Size tx) 0); [lia|]. cbn [negb andb].
  assert (Hd := Z.div_mod MaxUint64 (Size tx)).
  assert (0 <= MaxUint64 mod Size tx < Size tx) by (apply Z.mod_pos_bound; lia).
  destruct (Z.ltb_spec (MaxUint64 / Size tx) b).
  - rewrite Z.min_l; [done|]. nia.
  - assert (Size tx * b <= MaxUint64) by nia.
    rewrite wrap64_small by u64lia. rewrite Z.min_r; [done|lia].
Qed.

(** ** What the transaction hash covers *)

(** Fixed-length records encoded one after the other are recovered one by one. *)
Lemma flat_inj {A} (f : A -> list byte) (l k : list A) (x y : list byte) :
  length l = length k ->
  (forall a b x y, a ∈ l -> b ∈ k -> f a ++ x = f b ++ y -> a = b /\ x = y) ->
  concat (f <$> l) ++ x = concat (f <$> k) ++ y -> l = k /\ x = y.
Proof.
  revert k. induction l as [|a l IH]; intros [|b k] Hl Hf He; try done.
  simpl in He. rewrite <- !app_assoc in He.
  apply Hf in He as [-> He]; [|by left..].
  destruct (IH k) as [-> ->]; [simpl in Hl; lia| |done|done].
  intros ????? ?. apply Hf; by right.
Qed.

Lemma arr_app_inj {n} (a b : arr n) (x y : list byte) :
  arr_list a ++ x = arr_list b ++ y -> a = b /\ x = y.
Proof.
  intros He. apply app_inj_1 in He as [Ha ->]; [|by rewrite !arr_length].
  split; [by apply arr_ext|done].
Qed.

Lemma concat_fmap_concat {A} (f : A -> list (list byte)) (l : list A) :
  concat (concat (f <$> l)) = concat ((fun a => concat (f a)) <$> l).
Proof. induction l as [|a l IH]; [done|].
  rewrite !fmap_cons. cbn [concat]. by rewrite concat_app, IH. Qed.

(** With as many commitments as ring members, the indexed loop pairs them up. *)
Lemma ring_pairs (ring : list RingMember) (cs : list Commitment) :
  length cs = length ring ->
  imap (fun i rm => arr_list rm :: match cs !! i with Some c => [arr_list c] | None => [] end) ring =
  (fun '(rm, c) => [arr_list rm; arr_list c]) <$> zip ring cs.
Proof.
  revert cs. induction ring as [|rm ring IH]; intros [|c cs] Hl; try done.
  rewrite imap_cons. cbn [zip_with]. rewrite fmap_cons. f_equal. exact (IH cs (eq_add_S _ _ Hl)).
Qed.

Lemma zip_ring_inj (r : list RingMember) (c d : list Commitment) :
  length c = length r -> length d = length r -> zip r c = zip r d -> c = d.
Proof.
  intros Hc Hd He. rewrite <- (snd_zip r c), <- (snd_zip r d) by lia. by rewrite He.
Qed.

Definition signed_input_bytes (tx : Transaction) (inp : RingInput) : list byte :=
  concat (input_parts tx inp).

Lemma clsag_input_inj (t1 t2 : Transaction) (a b : RingInput) (x y : list byte) :
  Version t1 = TxVersionCLSAG -> Version t2 = TxVersionCLSAG ->
  length (Ring a) = RingSize -> length (Ring b) = RingSize ->
  length (RingCommitments a) = RingSize -> length (RingCommitments b) = RingSize ->
  RealIndex a = RealIndex b ->
  signed_input_bytes t1 a ++ x = signed_input_bytes t2 b ++ y -> a = b /\ x = y.
Proof.
  intros H1 H2 Hra Hrb Hca Hcb Hri. unfold signed_input_bytes, input_parts, UsesCLSAG, is_version.
  rewrite H1, H2. eval_decide. cbn [orb app]. rewrite !ring_pairs by congruence.
  cbn [concat]. rewrite !concat_app, !concat_fmap_concat. cbn [concat]. rewrite <- !app_assoc.
  intros He. apply arr_app_inj in He as [Hk He]. apply arr_app_inj in He as [Hc He].
  apply flat_inj in He as [Hr He]; [|congruence|intros *; intros _ _; apply arr_app_inj].
  rewrite <- Hr in *. cbn [app] in He.
  apply flat_inj in He as [Hz He]; [| |].
  - apply arr_app_inj in He as [Hp ->]. apply zip_ring_inj in Hz; [|congruence..].
    split; [|done]. destruct a, b; simpl in *; congruence.
  - rewrite !length_zip_with. congruence.
  - intros [r1 c1] [r2 c2] u v _ _. simpl. rewrite !app_nil_r, <- !app_assoc.
    intros E. apply arr_app_inj in E as [-> E]. by apply arr_app_inj in E as [-> ->].
Qed.

Lemma output_inj (a b : Output) (x y : list byte) :
  concat (output_parts a) ++ x = concat (output_parts b) ++ y -> a = b /\ x = y.
Proof.
  unfold output_parts. cbn [concat]. rewrite <- !app_assoc. intros He.
  apply arr_app_inj in He as [H1 He]. apply arr_app_inj in He as [H2 He].
  apply arr_app_inj in He as [H3 He]. apply arr_app_inj in He as [H4 He].
  split; [destruct a, b; simpl in *; congruence|done].
Qed.

(** What a CLSAG spend that passed [Validate] guarantees of its inputs. *)
Lemma clsag_inputs (tx : Transaction) (inp : RingInput) :
  Version tx = TxVersionCLSAG -> spend_shape tx -> inp ∈ Inputs tx ->
  length (Ring inp) = RingSize /\ length (RingCommitments inp) = RingSize /\ RealIndex inp = x00.
Proof.
  intros Hv Hs Hin. destruct (sh_clsag tx Hs) as [_ Hc].
  { unfold UsesCLSAG, is_version. by rewrite Hv. }
  assert (Hr := sh_rings tx Hs). rewrite list.Forall_forall in Hr.
  destruct (Hr _ Hin) as [? _]. apply list_elem_of_lookup in Hin as [i Hi].
  destruct (Forall2_lookup_l _ _ _ _ _ Hc Hi) as (s & _ & ? & ? & _). done.
Qed.

(** For CLSAG spends the hashed bytes determine the fee, its commitment, the
    extra data, every input and every output, given the number of inputs and
    outputs and the length of [Extra]: none of them can be changed under a
    signature over the hash. *)
Theorem clsag_hash_binds (t1 t2 : Transaction) :
  Version t1 = TxVersionCLSAG -> Version t2 = TxVersionCLSAG ->
  spend_shape t1 -> spend_shape t2 -> is_u64 (Fee t1) -> is_u64 (Fee t2) ->
  AVM t1 = None -> AVM t2 = None ->
  length (Extra t1) = length (Extra t2) -> length (Inputs t1) = length (Inputs t2) ->
  length (Outputs t1) = length (Outputs t2) ->
  concat (hash_parts t1) = concat (hash_parts t2) ->
  Fee t1 = Fee t2 /\ FeeCommit t1 = FeeCommit t2 /\ Extra t1 = Extra t2 /\
  Inputs t1 = Inputs t2 /\ Outputs t1 = Outputs t2.
Proof.
  intros V1 V2 S1 S2 F1 F2 A1 A2 HE HI HO He. unfold hash_parts in He. rewrite A1, A2, V1, V2 in He.
  rewrite !concat_app, !concat_fmap_concat in He. cbn [concat] in He.
  rewrite !app_nil_r, <- !app_assoc in He. apply app_inj_1 in He as [_ He]; [|done].
  apply app_inj_1 in He as [Hf He]; [|unfold encodeUint64; by rewrite !length_le_encode].
  apply arr_app_inj in He as [Hfc He]. apply app_inj_1 in He as [Hx He]; [|done].
  assert (Fee t1 = Fee t2) as Hfee.
  { unfold encodeUint64 in Hf. apply (Avm.le_encode_inj 8); [u64lia..|done]. }
  rewrite <- (app_nil_r (concat ((fun a => concat (output_parts a)) <$> Outputs t1))) in He.
  rewrite <- (app_nil_r (concat ((fun a => concat (output_parts a)) <$> Outputs t2))) in He.
  assert (Inputs t1 = Inputs t2 /\ Outputs t1 = Outputs t2) as [? ?]; [|done].
  assert (forall a, signed_input_bytes t1 a = signed_input_bytes t2 a) as Hsame.
  { intros a. unfold signed_input_bytes, input_parts, UsesCLSAG, is_version. by rewrite V1, V2. }
  rewrite (list_fmap_ext _ (signed_input_bytes t2) (Inputs t1)) in He by (intros; apply Hsame).
  apply flat_inj in He as [HIn He]; [|done|].
  - split; [done|]. apply flat_inj in He as [HOut _]; [done|done|]. intros *; intros _ _. apply output_inj.
  - intros a b x y Ha Hb. apply (clsag_inputs t1) in Ha as (? & ? & ?); [|done..].
    apply (clsag_inputs t2) in Hb as (? & ? & ?); [|done..].
    apply (clsag_input_inj t2 t2); congruence.
Qed.

(** ** Sale authorizations *)

Definition unsigned_sale (a : SaleAuthorization) : SaleAuthorization :=
  mkSaleAuth (sa_Genesis a) (sa_Height a) (sa_Parent a) (sa_Order a) (sa_Payment a)
    (sa_Amount a) (sa_Opening a) (zero_arr 64).

Lemma length_salePrefix : length salePrefix = 8%nat.
Proof. reflexivity. Qed.

Lemma length_sale_extra (a : SaleAuthorization) : length (sale_extra a) = 280%nat.
Proof. assert (Hp := length_salePrefix). unfold sale_extra. lens. Qed.

Lemma sale_fields_extra (a : SaleAuthorization) :
  is_u64 (sa_Height a) -> is_u64 (sa_Amount a) -> sale_fields (sale_extra a) = a.
Proof.
  intros Hh Ha. assert (Hp := length_salePrefix). unfold sale_extra, sale_fields. slices.
  rewrite !copy_arr_list, !be_decode_encode8 by done. by destruct a.
Qed.

Lemma copy_slice (n : nat) (l : list byte) (a b : nat) :
  (b <= length l)%nat -> (b - a = n)%nat -> arr_list (copy_arr n (slice l a b)) = slice l a b.
Proof. intros. apply arr_list_copy. rewrite slice_length; lia. Qed.

Lemma sale_extra_fields (extra : list byte) :
  length extra = saleExtraSize -> take 8 extra = salePrefix -> sale_extra (sale_fields extra) = extra.
Proof.
  intros Hl Hp. unfold saleExtraSize in Hl. unfold sale_extra, sale_fields.
  cbn [sa_Genesis sa_Height sa_Parent sa_Order sa_Payment sa_Amount sa_Opening sa_Signature].
  rewrite !copy_slice, !StakePayload.be_slice by lia.
  replace salePrefix with (slice extra 0 8) by (unfold slice; by rewrite drop_0).
  rewrite !slice_cat by lia. rewrite <- Hl. apply slice_all.
Qed.

Lemma sale_prefix_split (a : SaleAuthorization) :
  take 216 (sale_extra a) ++ replicate 64 x00 = sale_extra (unsigned_sale a).
Proof.
  unfold sale_extra, unsigned_sale. simpl sa_Genesis. cbn [sa_Genesis sa_Height sa_Parent sa_Order sa_Payment sa_Amount sa_Opening sa_Signature].
  rewrite !app_assoc. rewrite take_app_length'; [done|]. assert (Hp := length_salePrefix). lens.
Qed.

(** An accepted sale transaction is the canonical encoding of the
    authorization it yields, whose fields are all present, and the message its
    authority signs is that of the same transaction with a zero signature: it
    covers every field but the signature. *)
Theorem sale_authorization_binds `{Crypto} (tx : Transaction) (a : SaleAuthorization) :
  saleAuthorization tx = Ok a ->
  Extra tx = sale_extra a /\ 0 < sa_Amount a < U64 /\ 0 < sa_Height a < U64 /\
  sa_Order a <> zero_arr 32 /\ sa_Payment a <> zero_arr 32 /\ Fee tx = 0 /\ Inputs tx = [] /\
  SaleSigningMessage tx = SaleSigningMessage (set_Extra (sale_extra (unsigned_sale a)) tx).
Proof.
  unfold saleAuthorization. destruct (Outputs tx) as [|out [|? ?]] eqn:Eo; try discriminate.
  intros Hv. apply reject_ok in Hv as [H1 Hv]. apply reject_ok in Hv as [H2 Hv].
  apply reject_ok in Hv as [_ Hv]. apply reject_ok in Hv as [_ Hv]. injection Hv as <-.
  unfold len_is in H1. zbool.
  assert (He : sale_extra (sale_fields (Extra tx)) = Extra tx) by by apply sale_extra_fields.
  assert (is_u64 (sa_Amount (sale_fields (Extra tx))) /\ is_u64 (sa_Height (sale_fields (Extra tx)))) as [? ?].
  { unfold saleExtraSize in *. split; apply be_decode8_u64; rewrite slice_length; lia. }
  split_and!; try done; try u64lia; [by apply nil_length_inv|].
  assert (Hu := sale_prefix_split (sale_fields (Extra tx))). rewrite He in Hu.
  unfold SaleSigningMessage, len_is. cbn [Extra set_Extra].
  rewrite length_sale_extra, Hu, sale_prefix_split, !bool_decide_eq_true_2 by done. done.
Qed.

(** ** Constructors agree with the validator *)

Lemma length_guardianFundExtra (anchor : Hash32) (height : Z) :
  length (guardianFundExtra anchor height) = guardianFundExtraSize.
Proof.
  unfold guardianFundExtra. rewrite !length_app, arr_length, length_le_encode. done.
Qed.

(** The Guardian allocation is accepted for exactly one transaction, the one
    its builder returns. *)
Theorem guardian_fund_canonical `{Crypto} `{Json} (tx : Transaction) (anchor : Hash32) (height : Z) :
  GuardianFundTxAt (Some tx) anchor height = true <-> BuildGuardianFundTx anchor height = Ok tx.
Proof.
  unfold GuardianFundTxAt. split.
  - intros Hg. zbool. destruct (BuildGuardianFundTx anchor height) as [e|]; [|done].
    zbool. by subst.
  - intros Hb. rewrite Hb, bool_decide_eq_true_2 by done. rewrite andb_true_r.
    unfold BuildGuardianFundTx in Hb. apply reject_ok in Hb as [_ Hb].
    destruct (Commit _ _) as [c|]; [|done]. injection Hb as <-.
    unfold Validate, validate_avm, validate_guardian, len_is. cbn -[guardianFundExtra length].
    rewrite length_guardianFundExtra. done.
Qed.

(** A mint transaction is a valid coinbase at every height. *)
Lemma mint_valid `{Crypto} `{Json} (addr : string) (amount height at_height v4 : Z) (acts : list Z)
    (tx : Transaction) :
  BuildMintTx addr amount height = Ok tx ->
  IsCoinbase tx = true /\ Validate tx = Ok () /\
  ValidateTxVersionAtHeight (Some tx) at_height v4 acts = Ok ().
Proof.
  unfold BuildMintTx. intros Hm. apply reject_ok in Hm as [_ Hm].
  destruct (DecodeAddress addr) as [[[? sp] ?]|]; [|done].
  destruct (if 0 <? height then _ else _); [|done]. destruct (Commit _ _); [|done].
  destruct (ScalarMulBaseUint64 _); [|done]. destruct (AddPoints _ _); [|done].
  injection Hm as <-. done.
Qed.

(** ** Ambiguity of the hash for zero-input transactions *)

Definition amb_out (b : byte) : Output :=
  mkOutput (copy_arr 32 [b]) (copy_arr 32 [b]) (copy_arr 32 [b]) (copy_arr 8 [b]).

(** One output with the bytes of another in [Extra], and both as outputs. *)
Definition amb_one : Transaction :=
  mkTx TxVersionBase [] [amb_out x02] 0 (zero_arr 32) [] [] [] (concat (output_parts (amb_out x01))) None.
Definition amb_two : Transaction :=
  mkTx TxVersionBase [] [amb_out x01; amb_out x02] 0 (zero_arr 32) [] [] [] [] None.

(** The hash does not separate [Extra] from what follows it: two coinbase
    transactions with different numbers of outputs, both structurally valid,
    have the same hash under every hash function. *)
Theorem coinbase_hash_ambiguous `{Crypto} `{Json} :
  Validate amb_one = Ok () /\ Validate amb_two = Ok () /\
  length (Outputs amb_one) <> length (Outputs amb_two) /\ Hash amb_one = Hash amb_two.
Proof. split_and!; [done..|]. unfold Hash, HashBytes. f_equal. Qed.

(** A stake transaction with inputs and no signatures at all passes [Validate]. *)
Lemma stake_with_unsigned_inputs `{Crypto} `{Json} (inputs : list RingInput) :
  Validate (mkTx TxVersionStake inputs [] 0 (zero_arr 32) [] [] []
              (StakePayload.StakeWithdraw :: replicate 104 x00) None) = Ok ().
Proof. done. Qed.

(** ** Witnesses *)

(** A codec in the place of [encoding/json] that accepts no LPoD payload. *)
Definition toy_json : Json := {|
  Marshal_position := fun _ => []; Unmarshal_position := fun _ => None;
  Marshal_position_id := fun _ _ _ => []; Marshal_payout := fun _ => [];
  Unmarshal_payout := fun _ => None
|}.

Definition ex_ring : list RingMember := replicate RingSize (copy_arr 32 [x05]).
Definition ex_input : RingInput :=
  mkInput (copy_arr 32 [x07]) ex_ring (zero_arr 32) (replicate RingSize (copy_arr 32 [x06]))
    (copy_arr 32 [x08]) x00.
Definition ex_clsag : CLSAGSignature :=
  {| C1 := zero_arr 32; S_ := replicate RingSize (zero_arr 32);
     CLSAGKeyImage := copy_arr 32 [x07]; D_ := zero_arr 32 |}.
Definition ex_spend : Transaction :=
  mkTx TxVersionCLSAG [ex_input] [amb_out x01] 400000 (zero_arr 32) [None] [] [Some ex_clsag] [] None.

Definition ex_sale_auth : SaleAuthorization :=
  mkSaleAuth (copy_arr 32 [x01]) 9 (copy_arr 32 [x02]) (copy_arr 32 [x03]) (copy_arr 32 [x04])
    500 (copy_arr 64 [x05]) (copy_arr 64 [x06]).
Definition ex_sale_tx : Transaction :=
  mkTx TxVersionSale [] [amb_out x01] 0 (zero_arr 32) [] [] [] (sale_extra ex_sale_auth) None.

Lemma validated_spend_witness : ringct ex_spend = true /\ spend_shape ex_spend.
Proof.
  split; [reflexivity|].
  apply (validated_spend (H := toy_crypto) (H0 := toy_json)); vm_compute; reflexivity.
Defined.

Lemma version_policy_witness :
  version_allowed (Version ex_spend) 120 50 100 200 = true /\
  ValidateTxVersionAtHeight (H := toy_crypto) (H0 := toy_json) (Some ex_spend) 120 50 [100; 200] = Ok ().
Proof.
  split; [reflexivity|].
  apply (version_policy (H := toy_crypto) (H0 := toy_json) ex_spend 120 50 100 200);
    [u64lia..| |discriminate|reflexivity].
  unfold ex_spend, spend_versions. cbn [Version]. set_solver.
Defined.

Lemma clsag_hash_binds_witness :
  concat (hash_parts ex_spend) <> [] /\ Inputs ex_spend = Inputs ex_spend.
Proof.
  split; [discriminate|].
  assert (spend_shape ex_spend) as Hs.
  { apply (validate_ringct_sound ex_spend); vm_compute; reflexivity. }
  refine (proj1 (proj2 (proj2 (proj2 (clsag_hash_binds ex_spend ex_spend
    eq_refl eq_refl Hs Hs _ _ eq_refl eq_refl eq_refl eq_refl eq_refl eq_refl))))); simpl; u64lia.
Defined.

Lemma sale_authorization_binds_witness :
  Extra ex_sale_tx = sale_extra ex_sale_auth /\ sa_Amount ex_sale_auth = 500.
Proof.
  split; [|reflexivity].
  refine (proj1 (sale_authorization_binds (H := toy_crypto) ex_sale_tx ex_sale_auth _)).
  apply (bool_decide_unpack _). vm_compute. exact I.
Defined.

End Transaction.
