(* ===== verification/Block.v ===== *)
(** Block headers, Merkle trees and structural block validation:
    [core/block.go], [core/merkle.go] and the checks of
    [core/block_verifier.go] that do not need the transaction verifier. *)

From stdpp Require Import base list strings.
From S2P Require Import Prelude Bytes Crypto Avm StakePayload Transaction.
Import Transaction.

Module Block.

Section Block.
Context `{Crypto}.

(** ** Merkle tree *)

Definition emptyMerkleRoot : Hash32 := HashBytes [bytes_of_string "aperod/merkle-empty/v1"].

Definition hash_pair (a b : Hash32) : Hash32 := HashBytes [arr_list a; arr_list b].

(** Pad to even length by repeating the last element. *)
Definition pad_even (hashes : list Hash32) : list Hash32 :=
  if Nat.odd (length hashes) then
    match list.last hashes with Some h => hashes ++ [h] | None => hashes end
  else hashes.

(** The pairwise hashes of a level of even length. *)
Fixpoint pairwise (hashes : list Hash32) : list Hash32 :=
  match hashes with
  | a :: b :: rest => hash_pair a b :: pairwise rest
  | _ => []
  end.

Definition next_level (hashes : list Hash32) : list Hash32 := pairwise (pad_even hashes).

(** The recursion halves the level; [None] is exhausted fuel. *)
Fixpoint merkleReduce (fuel : nat) (hashes : list Hash32) : option Hash32 :=
  match fuel with
  | O => None
  | S fuel' =>
      match hashes with
      | [h] => Some h
      | _ => merkleReduce fuel' (next_level hashes)
      end
  end.

Definition leaves (txs : list Transaction) : list Hash32 := Hash <$> txs.

Definition MerkleRoot (txs : list Transaction) : option Hash32 :=
  match txs with
  | [] => Some emptyMerkleRoot
  | _ => merkleReduce (length txs) (leaves txs)
  end.

Record MerkleNode := mkNode { NodeHash : Hash32; Right : bool }.
Record MerkleProof := mkProof { Leaf : Hash32; Path : list MerkleNode }.

(** The loop of [GenerateMerkleProof]; an index out of range would panic. *)
Fixpoint proof_path (fuel : nat) (hashes : list Hash32) (pos : nat) : option (list MerkleNode) :=
  match fuel with
  | O => None
  | S fuel' =>
      if Nat.leb (length hashes) 1 then Some []
      else
        let padded := pad_even hashes in
        sibling ← (if Nat.even pos
                   then (fun h => mkNode h true) <$> padded !! S pos
                   else (fun h => mkNode h false) <$> padded !! (pos - 1)%nat);
        rest ← proof_path fuel' (pairwise padded) (Nat.div2 pos);
        Some (sibling :: rest)
  end.

(** [None] stands for the nil proof of an index out of range. *)
Definition GenerateMerkleProof (txs : list Transaction) (idx : Z) : option MerkleProof :=
  if (idx <? 0) || (Z.of_nat (length txs) <=? idx) then None
  else
    let hashes := leaves txs in
    leaf ← hashes !! Z.to_nat idx;
    path ← proof_path (length txs) hashes (Z.to_nat idx);
    Some (mkProof leaf path).

Definition verify_step (cur : Hash32) (node : MerkleNode) : Hash32 :=
  if Right node then hash_pair cur (NodeHash node) else hash_pair (NodeHash node) cur.

Definition Verify (p : MerkleProof) (root : Hash32) : bool :=
  bool_decide (fold_left verify_step (Path p) (Leaf p) = root).

(** ** Headers *)

Definition header_parts (h : BlockHeader) : list (list byte) :=
  [encodeUint64 (Height h); arr_list (PrevHash h); arr_list (MerkleRootField h);
   encodeInt64 (Timestamp h); encodeUint32 (Round h); ValidatorPub h;
   encodeUint64 (OraclePrice h); encodeUint64 (BaseFee h)].

Definition header_Hash (h : BlockHeader) : Hash32 := HashBytes (header_parts h).

Definition set_signature (h : BlockHeader) (sig : list byte) : BlockHeader :=
  mkHeader (Height h) (PrevHash h) (MerkleRootField h) (Timestamp h) (Round h)
    (ValidatorPub h) (OraclePrice h) (BaseFee h) sig.

Definition Sign (h : BlockHeader) (priv : list byte) : result BlockHeader :=
  need sig from ed25519_sign priv (header_Hash h) else "sign block header" ;;
  Ok (set_signature h sig).

(** [authority] holds at most one key, the optional variadic argument. *)
Definition VerifySignature (h : BlockHeader) (authority : list ValidatorPubKey) : bool :=
  let sig := HeaderSignature h in
  let hash := header_Hash (set_signature h []) in
  let pub := match authority with [a] => a | _ => ValidatorPub h end in
  pub_verify pub hash sig.

(** ** Blocks *)

Definition block_Hash (b : Block) : Hash32 := header_Hash (Header b).

Definition IsGenesis (b : Block) : bool :=
  (Height (Header b) =? 0) && bool_decide (PrevHash (Header b) = zero_arr 32).

Definition block_Size (b : Block) : Z :=
  32 + 32 + 32 + 8 + 4 + 32 + 64 + sumZ Size (Txs b).

Context `{Json}.

Definition Validate (b : Block) (authority : list ValidatorPubKey) : result () :=
  let h := Header b in
  reject Timestamp h <=? 0 with "invalid timestamp" ;;
  reject len_is (ValidatorPub h) 0 with "missing validator public key" ;;
  reject negb (VerifySignature h authority) with "invalid validator signature" ;;
  reject negb (bool_decide (MerkleRoot (Txs b) = Some (MerkleRootField h))) with "merkle root mismatch" ;;
  foldM (fun _ tx => Transaction.Validate tx) () (Txs b).

Record BlockVerifierConfig := mkBVConfig {
  MaxBlockTime : Z; MaxPastDrift : Z; MaxTxsPerBlock : Z; MaxBlockSize : Z
}.

Definition DefaultBlockVerifierConfig : BlockVerifierConfig :=
  mkBVConfig 2000000000 30000000000 2000 4194304.

(** The time checks against the parent and the wall clock [now]; the values are
    Unix nanoseconds. *)
Definition check_times (cfg : BlockVerifierConfig) (parent block now : Z) : result () :=
  reject negb (parent <? block) with "timestamp not after parent" ;;
  reject now + MaxBlockTime cfg <? block with "timestamp too far in the future" ;;
  reject (0 <? MaxPastDrift cfg) && (block <? now - MaxPastDrift cfg)
    with "timestamp too far in the past" ;;
  Ok ().

(** [VerifyBlock]: [get] is the chain's [GetByHash], [txVerifier] the optional
    cryptographic verifier. *)
Definition VerifyBlock (cfg : BlockVerifierConfig) (get : Hash32 -> option Block)
    (txVerifier : option (Block -> result ())) (now : Z) (b : Block) : result () :=
  _ ← Validate b [];
  _ ← (if IsGenesis b then Ok () else
         need parent from get (PrevHash (Header b)) else "parent not found" ;;
         reject negb (Height (Header parent) +w 1 =? Height (Header b)) with "height discontinuity" ;;
         check_times cfg (Timestamp (Header parent)) (Timestamp (Header b)) now);
  reject MaxTxsPerBlock cfg <? Z.of_nat (length (Txs b)) with "too many txs" ;;
  reject MaxBlockSize cfg <? block_Size b with "too large" ;;
  match txVerifier with Some v => v b | None => Ok () end.

End Block.

(** ** The levels of the tree *)

Section Proofs.
Context `{Crypto}.

Lemma pad_even_even (l : list Hash32) : Nat.even (length (pad_even l)) = true.
Proof.
  unfold pad_even. destruct (Nat.odd (length l)) eqn:E.
  - destruct (list.last l) as [h|] eqn:El.
    + rewrite length_app, Nat.add_1_r, Nat.even_succ. done.
    + apply last_None in El. by subst.
  - by rewrite <- Nat.negb_odd, E.
Qed.

Lemma pad_even_prefix (l : list Hash32) : exists k, pad_even l = l ++ k /\ (length k <= 1)%nat.
Proof.
  unfold pad_even. destruct (Nat.odd (length l)); [destruct (list.last l)|];
    [eexists; split; [done|done] | exists []; rewrite app_nil_r; split; [done|simpl; lia]..].
Qed.

Lemma length_pairwise (l : list Hash32) : length (pairwise l) = Nat.div2 (length l).
Proof.
  induction l as [l IH] using (induction_ltof1 _ (@length Hash32)). unfold ltof in IH.
  destruct l as [|a [|b l]]; [done..|]. cbn [pairwise length Nat.div2]. by rewrite IH by (simpl; lia).
Qed.

(** The pair at position [i] of the next level. *)
Lemma pairwise_lookup (l : list Hash32) (i : nat) (a b : Hash32) :
  l !! (2 * i)%nat = Some a -> l !! S (2 * i) = Some b -> pairwise l !! i = Some (hash_pair a b).
Proof.
  revert l. induction i as [|i IH]; intros l Ha Hb; destruct l as [|x [|y l]]; try done.
  - simpl in *. by simplify_eq.
  - cbn [pairwise]. replace (2 * S i)%nat with (S (S (2 * i))) in * by lia. by apply IH.
Qed.

Lemma length_next_level (l : list Hash32) :
  length (next_level l) = Nat.div2 (S (length l)).
Proof.
  unfold next_level. rewrite length_pairwise. unfold pad_even.
  destruct (Nat.odd (length l)) eqn:E.
  - destruct (list.last l) as [h|] eqn:El.
    + by rewrite length_app, Nat.add_1_r.
    + apply last_None in El. by subst.
  - apply (f_equal negb) in E. rewrite Nat.negb_odd in E. apply Nat.even_spec in E as [k ->].
    by rewrite Nat.div2_succ_double, Nat.div2_double.
Qed.

Lemma div2_succ_lt (n : nat) : (1 < n -> 0 < Nat.div2 (S n) < n)%nat.
Proof.
  intros Hn. rewrite Nat.div2_div. split.
  - apply Nat.div_str_pos. lia.
  - apply Nat.Div0.div_lt_upper_bound. lia.
Qed.

Lemma merkleReduce_total (fuel : nat) (l : list Hash32) :
  (0 < length l <= fuel)%nat -> is_Some (merkleReduce fuel l).
Proof.
  revert l. induction fuel as [|fuel IH]; intros l Hl; [lia|]. cbn [merkleReduce].
  destruct l as [|a [|b l]]; [simpl in Hl; lia|by eexists|].
  apply IH. rewrite length_next_level.
  assert (Hd := div2_succ_lt (length (a :: b :: l))). simpl length in *. lia.
Qed.

(** More fuel does not change the result. *)
Lemma merkleReduce_mono (fuel fuel' : nat) (l : list Hash32) (r : Hash32) :
  (fuel <= fuel')%nat -> merkleReduce fuel l = Some r -> merkleReduce fuel' l = Some r.
Proof.
  revert fuel' l. induction fuel as [|fuel IH]; intros [|fuel'] l Hle Hm; try done; [lia|].
  cbn [merkleReduce] in *. destruct l as [|a [|b l]]; [..|done|]; (apply IH; [lia|done]).
Qed.

(** The sibling the generator picks, with the leaf, gives the parent. *)
Lemma sibling_step (l : list Hash32) (pos : nat) (h : Hash32) (node : MerkleNode) :
  l !! pos = Some h ->
  (if Nat.even pos then (fun h => mkNode h true) <$> l !! S pos
   else (fun h => mkNode h false) <$> l !! (pos - 1)%nat) = Some node ->
  pairwise l !! Nat.div2 pos = Some (verify_step h node).
Proof.
  intros Hh Hn. destruct (Nat.even pos) eqn:E.
  - apply Nat.even_spec in E as [k ->]. rewrite Nat.div2_double.
    destruct (l !! S (2 * k)) as [s|] eqn:Es; [|done]. injection Hn as <-.
    by apply pairwise_lookup.
  - apply (f_equal negb) in E. rewrite Nat.negb_even in E. apply Nat.odd_spec in E as [k ->].
    rewrite Nat.add_1_r in *. rewrite Nat.div2_succ_double.
    replace (S (2 * k) - 1)%nat with (2 * k)%nat in Hn by lia.
    destruct (l !! (2 * k)%nat) as [s|] eqn:Es; [|done]. injection Hn as <-.
    by apply pairwise_lookup.
Qed.

Lemma sibling_exists (l : list Hash32) (pos : nat) :
  Nat.even (length l) = true -> (pos < length l)%nat ->
  exists node, (if Nat.even pos then (fun h => mkNode h true) <$> l !! S pos
   else (fun h => mkNode h false) <$> l !! (pos - 1)%nat) = Some node.
Proof.
  intros He Hp. destruct (Nat.even pos) eqn:E.
  - assert (S pos < length l)%nat as Hs.
    { apply Nat.even_spec in He as [a Ha]. apply Nat.even_spec in E as [b Hb]. lia. }
    apply lookup_lt_is_Some in Hs as [h ->]. by eexists.
  - assert (pos - 1 < length l)%nat as Hs by lia.
    apply lookup_lt_is_Some in Hs as [h ->]. by eexists.
Qed.

Lemma proof_path_complete (fuel : nat) (l : list Hash32) (pos : nat) (h : Hash32) :
  (0 < length l <= fuel)%nat -> l !! pos = Some h ->
  exists path, proof_path fuel l pos = Some path /\
    merkleReduce fuel l = Some (fold_left verify_step path h) /\
    (2 ^ length path < 2 * length l)%nat.
Proof.
  revert l pos h. induction fuel as [|fuel IH]; intros l pos h Hl Hh; [lia|].
  cbn [proof_path merkleReduce]. destruct l as [|a [|b l]]; [simpl in Hl; lia| |].
  { destruct pos; simpl in Hh; [|done]. injection Hh as <-. exists []. simpl. split_and!; try done; lia. }
  set (lv := a :: b :: l) in *. replace (Nat.leb (length lv) 1) with false by done.
  assert (Hlen : (pos < length lv)%nat) by (apply lookup_lt_is_Some; by eexists).
  destruct (pad_even_prefix lv) as (k & Hk & Hk1).
  assert (Hp : pad_even lv !! pos = Some h) by (rewrite Hk; by apply lookup_app_l_Some).
  destruct (sibling_exists (pad_even lv) pos) as [node Hnode].
  { apply pad_even_even. } { rewrite Hk, length_app. lia. }
  rewrite Hnode. cbn [mbind option_bind].
  assert (Hnext := sibling_step _ _ _ _ Hp Hnode).
  assert (Hd := div2_succ_lt (length lv)). assert (Hll := length_next_level lv).
  unfold next_level in Hll. assert (1 < length lv)%nat by (subst lv; simpl; lia).
  destruct (IH (pairwise (pad_even lv)) (Nat.div2 pos) (verify_step h node)) as (path & Hpath & Hred & Hpow);
    [lia|done|].
  exists (node :: path). rewrite Hpath. split_and!; [done|exact Hred|].
  cbn [length Nat.pow]. rewrite Hll in Hpow.
  assert (2 * Nat.div2 (S (length lv)) <= S (length lv))%nat.
  { rewrite Nat.div2_div. apply Nat.Div0.mul_div_le. }
  destruct path; cbn [length Nat.pow] in *; lia.
Qed.

End Proofs.

(** ** Inclusion proofs *)

Lemma generated_verifies `{Crypto} (txs : list Transaction) (idx : nat) (tx : Transaction) :
  txs !! idx = Some tx ->
  exists root proof,
    MerkleRoot txs = Some root /\ GenerateMerkleProof txs (Z.of_nat idx) = Some proof /\
    Leaf proof = Hash tx /\ Verify proof root = true /\
    (2 ^ length (Path proof) < 2 * length txs)%nat.
Proof.
  intros Htx. assert (Hlt : (idx < length txs)%nat) by (apply lookup_lt_is_Some; by eexists).
  destruct (proof_path_complete (length txs) (leaves txs) idx (Hash tx)) as (path & Hp & Hr & Hl).
  { unfold leaves. rewrite length_fmap. lia. }
  { unfold leaves. by rewrite list_lookup_fmap, Htx. }
  exists (fold_left verify_step path (Hash tx)), (mkProof (Hash tx) path). split_and!.
  - unfold MerkleRoot. destruct txs; [simpl in Hlt; lia|done].
  - unfold GenerateMerkleProof. destruct (Z.ltb_spec (Z.of_nat idx) 0); [lia|].
    destruct (Z.leb_spec (Z.of_nat (length txs)) (Z.of_nat idx)); [lia|]. cbn [orb].
    rewrite Nat2Z.id. assert (leaves txs !! idx = Some (Hash tx)) as Hleaf
      by (unfold leaves; by rewrite list_lookup_fmap, Htx).
    cbn zeta. rewrite Hleaf. cbn [mbind option_bind]. by rewrite Hp.
  - done.
  - by apply bool_decide_eq_true_2.
  - unfold leaves in Hl. by rewrite length_fmap in Hl.
Qed.

(** The generator and the verifier agree: for every transaction of a block the
    root and a proof exist, the proof carries the hash of that transaction, it
    verifies against the root, and its length is logarithmic. *)
Theorem merkle_proof_complete `{Crypto} (txs : list Transaction) (idx : nat) (tx : Transaction) :
  txs !! idx = Some tx ->
  exists root proof,
    MerkleRoot txs = Some root /\ GenerateMerkleProof txs (Z.of_nat idx) = Some proof /\
    Leaf proof = Hash tx /\ Verify proof root = true /\
    (2 ^ length (Path proof) < 2 * length txs)%nat.
Proof. apply generated_verifies. Qed.

(** The byte strings [Verify] hashes on its way from the leaf to the root. *)
Definition node_input (cur : Hash32) (n : MerkleNode) : list byte :=
  if Right n then arr_list cur ++ arr_list (NodeHash n) else arr_list (NodeHash n) ++ arr_list cur.
Fixpoint hashed `{Crypto} (cur : Hash32) (path : list MerkleNode) : list (list byte) :=
  match path with
  | [] => []
  | n :: rest => node_input cur n :: hashed (verify_step cur n) rest
  end.

(** A collision of the hash function between the inputs of two verifications. *)
Definition collides `{Crypto} (p q : MerkleProof) : Prop :=
  exists x y, x ∈ hashed (Leaf p) (Path p) /\ y ∈ hashed (Leaf q) (Path q) /\ x <> y /\ sha256 x = sha256 y.

Lemma verify_step_input `{Crypto} (cur : Hash32) (n : MerkleNode) :
  verify_step cur n = sha256 (node_input cur n).
Proof.
  unfold verify_step, node_input, hash_pair, HashBytes. cbn [concat]. by destruct (Right n); rewrite app_nil_r.
Qed.

Lemma node_input_inj (a b : Hash32) (n m : MerkleNode) :
  Right n = Right m -> node_input a n = node_input b m -> a = b.
Proof.
  unfold node_input. intros ->. destruct (Right m); intros E; apply arr_app_inj in E as [? E]; [done|by apply arr_ext].
Qed.

Lemma verify_fold_inj `{Crypto} (p q : list MerkleNode) (a b : Hash32) :
  (Right <$> p) = (Right <$> q) -> fold_left verify_step p a = fold_left verify_step q b ->
  a = b \/ exists x y, x ∈ hashed a p /\ y ∈ hashed b q /\ x <> y /\ sha256 x = sha256 y.
Proof.
  revert q a b. induction p as [|n p IH]; intros [|m q] a b Hr He; try done; [by left|].
  rewrite !fmap_cons in Hr. injection Hr as Hn Hr. cbn [fold_left hashed] in *.
  destruct (IH _ _ _ Hr He) as [Hs|(x & y & Hx & Hy & Hne & Hxy)]; [|right; exists x, y; set_solver].
  destruct (decide (node_input a n = node_input b m)) as [E|E]; [left; by eapply node_input_inj|].
  rewrite !verify_step_input in Hs. right. exists (node_input a n), (node_input b m). set_solver.
Qed.

(** C35: an inclusion proof binds the leaf: a proof that verifies against the root of
    a block's transactions and takes the left/right turns of position [idx] carries
    the hash of the transaction there; if it does not, the inputs hashed by this
    verification and by that of the honest proof contain a collision. *)
Theorem merkle_proof_sound `{Crypto} (txs : list Transaction) (idx : nat) (tx : Transaction)
    (root : Hash32) (honest p : MerkleProof) :
  txs !! idx = Some tx -> MerkleRoot txs = Some root ->
  GenerateMerkleProof txs (Z.of_nat idx) = Some honest ->
  Verify p root = true -> (Right <$> Path p) = (Right <$> Path honest) ->
  Leaf p = Hash tx \/ collides p honest.
Proof.
  intros Htx Hroot Hgen Hp Hr. destruct (generated_verifies txs idx tx Htx) as (root' & q & Hroot' & Hgen' & Hleaf & Hq & _).
  assert (root' = root) as -> by congruence. assert (q = honest) as -> by congruence.
  unfold Verify in Hp, Hq. zbool. rewrite <- Hleaf. apply (verify_fold_inj (Path p) (Path honest)); congruence.
Qed.

Lemma next_level_dup `{Crypto} (l : list Hash32) (h : Hash32) :
  Nat.odd (length l) = true -> list.last l = Some h -> next_level (l ++ [h]) = next_level l.
Proof.
  intros Ho Hl. unfold next_level, pad_even. rewrite Ho, Hl, length_app, Nat.add_1_r.
  by rewrite Nat.odd_succ, <- Nat.negb_odd, Ho.
Qed.

(** The root does not determine the transaction list: repeating the last
    transaction of an odd list of three or more leaves the root unchanged, so two
    blocks with different transactions can share a header hash. *)
Theorem merkle_root_duplicate `{Crypto} (txs : list Transaction) (tx : Transaction) :
  Nat.odd (length txs) = true -> (1 < length txs)%nat -> list.last txs = Some tx ->
  MerkleRoot (txs ++ [tx]) = MerkleRoot txs.
Proof.
  intros Ho Hl Ht. destruct (merkleReduce_total (length txs) (leaves txs)) as [r Hr].
  { unfold leaves. rewrite length_fmap. lia. }
  assert (MerkleRoot txs = Some r) as -> by (unfold MerkleRoot; destruct txs; [done|exact Hr]).
  unfold MerkleRoot. destruct (txs ++ [tx]) as [|t ts] eqn:E; [by destruct txs|]. rewrite <- E.
  rewrite length_app, Nat.add_1_r. unfold leaves in *. rewrite fmap_app.
  destruct txs as [|t1 [|t2 txs]]; [simpl in Hl; lia..|]. cbn [merkleReduce fmap list_fmap app].
  change (Hash t1 :: Hash t2 :: ?l ++ ?k) with ((Hash t1 :: Hash t2 :: l) ++ k).
  assert (Hn := next_level_dup (Hash <$> (t1 :: t2 :: txs)) (Hash tx)).
  cbn [fmap list_fmap] in Hn. rewrite Hn; [|by rewrite length_cons in *; rewrite ?length_cons, length_fmap|].
  - cbn [length merkleReduce fmap list_fmap] in Hr. apply merkleReduce_mono with (fuel := S (length txs)); [simpl; lia|done].
  - change (Hash t1 :: Hash t2 :: (Hash <$> txs)) with (Hash <$> (t1 :: t2 :: txs)). by rewrite fmap_last, Ht.
Qed.

(** ** Headers and accepted blocks *)

Definition header_wf (h : BlockHeader) : Prop :=
  is_u64 (Height h) /\ is_i64 (Timestamp h) /\ is_u32 (Round h) /\
  is_u64 (OraclePrice h) /\ is_u64 (BaseFee h).

Lemma encodeInt64_inj (v w : Z) :
  is_i64 v -> is_i64 w -> encodeInt64 v = encodeInt64 w -> v = w.
Proof.
  intros Hv Hw He. unfold encodeInt64, encodeUint64 in He.
  assert (Hr1 := wrap64_range v). assert (Hr2 := wrap64_range w).
  apply (Avm.Avm.le_encode_inj 8) in He; [|u64lia..]. unfold wrap64 in He.
  assert (Hd1 := Z.div_mod v U64). assert (Hd2 := Z.div_mod w U64). u64lia.
Qed.

(** The hashed header bytes determine every field but the signature, for
    validator keys of equal length. *)
Lemma header_bytes_inj (h k : BlockHeader) :
  header_wf h -> header_wf k -> length (ValidatorPub h) = length (ValidatorPub k) ->
  concat (header_parts h) = concat (header_parts k) ->
  set_signature h [] = set_signature k [].
Proof.
  intros (H1 & H2 & H3 & H4 & H5) (K1 & K2 & K3 & K4 & K5) Hl He.
  unfold header_parts in He. cbn [concat] in He. rewrite !app_nil_r in He.
  apply app_inj_1 in He as [E1 He]; [|unfold encodeUint64; by rewrite !length_le_encode].
  apply arr_app_inj in He as [E2 He]. apply arr_app_inj in He as [E3 He].
  apply app_inj_1 in He as [E4 He]; [|unfold encodeInt64, encodeUint64; by rewrite !length_le_encode].
  apply app_inj_1 in He as [E5 He]; [|unfold encodeUint32; by rewrite !length_le_encode].
  apply app_inj_1 in He as [E6 He]; [|done].
  apply app_inj_1 in He as [E7 E8]; [|unfold encodeUint64; by rewrite !length_le_encode].
  apply encodeInt64_inj in E4; [|done..]. unfold encodeUint64, encodeUint32 in *.
  apply Avm.Avm.le_encode_inj in E1, E5, E7, E8; [|u64lia..].
  unfold set_signature. congruence.
Qed.

(** A block the verifier accepts on top of a parent extends it: the next
    height, a later timestamp within the drift bounds, a proposer signature over
    the header, the Merkle root of its own transactions, all of them valid, and
    sizes within the limits. *)
Theorem accepted_block `{Crypto} `{Json} (cfg : BlockVerifierConfig)
    (get : Hash32 -> option Block) (v : option (Block -> result ())) (now : Z) (b : Block) :
  VerifyBlock cfg get v now b = Ok () -> IsGenesis b = false ->
  exists parent, get (PrevHash (Header b)) = Some parent /\
    Height (Header b) = Height (Header parent) +w 1 /\
    Timestamp (Header parent) < Timestamp (Header b) <= now + MaxBlockTime cfg /\
    (0 < MaxPastDrift cfg -> now - MaxPastDrift cfg <= Timestamp (Header b)) /\
    pub_verify (ValidatorPub (Header b)) (block_Hash b) (HeaderSignature (Header b)) = true /\
    MerkleRoot (Txs b) = Some (MerkleRootField (Header b)) /\
    Forall (fun tx => Transaction.Validate tx = Ok ()) (Txs b) /\
    Z.of_nat (length (Txs b)) <= MaxTxsPerBlock cfg /\ block_Size b <= MaxBlockSize cfg.
Proof.
  intros Hv Hg. unfold VerifyBlock in Hv. apply bind_ok in Hv as ([] & Hval & Hv).
  apply bind_ok in Hv as ([] & Hpar & Hv). rewrite Hg in Hpar.
  apply reject_ok in Hv as [Hn Hv]. apply reject_ok in Hv as [Hs _].
  destruct (get _) as [parent|]; [|done]. exists parent.
  apply reject_ok in Hpar as [Hh Ht]. unfold check_times in Ht.
  apply reject_ok in Ht as [T1 Ht]. apply reject_ok in Ht as [T2 Ht]. apply reject_ok in Ht as [T3 _].
  unfold Validate in Hval. apply reject_ok in Hval as [_ Hval]. apply reject_ok in Hval as [_ Hval].
  apply reject_ok in Hval as [Hsig Hval]. apply reject_ok in Hval as [Hmr Hval].
  assert (Forall (fun tx => Transaction.Validate tx = Ok ()) (Txs b)) as Htx.
  { clear -Hval. induction (Txs b) as [|t l IH]; [constructor|]. simpl in Hval.
    apply bind_ok in Hval as ([] & ? & ?). constructor; auto. }
  split_and!; try done; try (zbool; lia).
  - by zbool.
  - by zbool.
Qed.

(** ** Witnesses *)

Definition ex_txs : list Transaction := [amb_one; amb_two; amb_one].

Lemma merkle_proof_complete_witness :
  length ex_txs = 3%nat /\
  exists root proof, MerkleRoot (H := toy_crypto) ex_txs = Some root /\
    GenerateMerkleProof (H := toy_crypto) ex_txs 2 = Some proof /\
    Leaf proof = Hash (H := toy_crypto) amb_one /\ Verify (H := toy_crypto) proof root = true /\
    (2 ^ length (Path proof) < 2 * 3)%nat.
Proof. split; [reflexivity|]. exact (merkle_proof_complete (H := toy_crypto) ex_txs 2 amb_one eq_refl). Defined.

Definition ex_mproof : MerkleProof :=
  default (mkProof (zero_arr 32) []) (GenerateMerkleProof (H := toy_crypto) ex_txs 2).

Lemma merkle_proof_sound_witness :
  length (Path ex_mproof) = 2%nat /\ (Leaf ex_mproof = Hash (H := toy_crypto) amb_one \/ collides (H := toy_crypto) ex_mproof ex_mproof).
Proof.
  split; [vm_compute; reflexivity|].
  apply (merkle_proof_sound (H := toy_crypto) ex_txs 2 amb_one
    (default (zero_arr 32) (MerkleRoot (H := toy_crypto) ex_txs)) ex_mproof ex_mproof);
    [reflexivity|vm_compute; reflexivity|vm_compute; reflexivity|vm_compute; reflexivity|reflexivity].
Defined.

Lemma merkle_root_duplicate_witness :
  length (ex_txs ++ [amb_one]) = 4%nat /\
  MerkleRoot (H := toy_crypto) (ex_txs ++ [amb_one]) = MerkleRoot (H := toy_crypto) ex_txs.
Proof.
  split; [reflexivity|]. apply (merkle_root_duplicate (H := toy_crypto)); [reflexivity|simpl; lia|reflexivity].
Defined.

Definition ex_root : Hash32 :=
  match MerkleRoot (H := toy_crypto) ex_txs with Some r => r | None => zero_arr 32 end.
Definition ex_block (height : Z) (prev : Hash32) (ts : Z) : Block :=
  mkBlock (mkHeader height prev ex_root ts 0 (replicate 32 x07) 0 200 (replicate 64 x07)) ex_txs.
Definition ex_parent : Block := ex_block 4 (copy_arr 32 [x01]) 1000.
Definition ex_child : Block := ex_block 5 (copy_arr 32 [x02]) 2000.

Lemma accepted_block_witness :
  IsGenesis ex_child = false /\
  exists parent, Some ex_parent = Some parent /\ Height (Header ex_child) = Height (Header parent) +w 1.
Proof.
  split; [reflexivity|].
  destruct (accepted_block (H := toy_crypto) (H0 := toy_json) DefaultBlockVerifierConfig
    (fun _ => Some ex_parent) None 2500 ex_child) as (p & Hp & Hh & _);
    [vm_compute; reflexivity|reflexivity|]. exists p. split; [exact Hp|exact Hh].
Defined.

End Block.
