(* ===== verification/Chain.v ===== *)
(** The in-memory chain of [core/chain.go]: the canonical blocks by height and by
    hash, the transaction index, the sliding window, rollback of the last block,
    fast-forward, reorganization and the header synchronisation queries.

    Blocks are values; the source compares two block pointers once, where either
    answer has the same effect.  Loops over heights enumerate them, which the loops
    of the source do for every tip below [^uint64(0)]. *)

From stdpp Require Import base gmap list strings sorting.
From S2P Require Import Prelude Bytes Undo Crypto Avm StakePayload Transaction Block.
Import Undo Transaction Block.

Module Chain.

(** ** Data *)

Definition MaxInMemoryBlocks : Z := 1000.

Record TxLocation := mkLoc { LocBlock : Block; TxIndex : nat }.

Record chainAddRollback := mkAddRollback {
  blockHash : Hash32; previousTip : option Block; evicted : option Block
}.

Record Chain := mkChain {
  blocks : gmap Hash32 Block;
  byHeight : gmap Z Block;
  txIndex : gmap Hash32 TxLocation;
  tip : option Block;
  genesis : option Block;
  maxInMemoryBlocks : Z;
  lastAdd : option chainAddRollback
}.

Definition NewChain (maxBlocks : list Z) : Chain :=
  mkChain ∅ ∅ ∅ None None
    (match maxBlocks with m :: _ => if 0 <? m then m else MaxInMemoryBlocks | [] => MaxInMemoryBlocks end) None.

Definition set_tip (t : option Block) (c : Chain) : Chain :=
  mkChain (blocks c) (byHeight c) (txIndex c) t (genesis c) (maxInMemoryBlocks c) (lastAdd c).
Definition set_genesis (g : option Block) (c : Chain) : Chain :=
  mkChain (blocks c) (byHeight c) (txIndex c) (tip c) g (maxInMemoryBlocks c) (lastAdd c).
Definition set_lastAdd (l : option chainAddRollback) (c : Chain) : Chain :=
  mkChain (blocks c) (byHeight c) (txIndex c) (tip c) (genesis c) (maxInMemoryBlocks c) l.

Definition height_of (b : Block) : Z := Height (Header b).

Section Chain.
Context `{Crypto}.

(** ** Index updates *)

(** [indexTxs], on the index alone. *)
Definition locations (b : Block) : list (Hash32 * TxLocation) :=
  imap (fun i tx => (Hash tx, mkLoc b i)) (Txs b).
Definition index_txs (b : Block) (m : gmap Hash32 TxLocation) : gmap Hash32 TxLocation :=
  put_all (locations b) m.
Definition unindex_txs (b : Block) (m : gmap Hash32 TxLocation) : gmap Hash32 TxLocation :=
  del_all (Hash <$> Txs b) m.

(** A block enters all three indexes, or leaves them. *)
Definition install (b : Block) (c : Chain) : Chain :=
  mkChain (<[block_Hash b := b]> (blocks c)) (<[height_of b := b]> (byHeight c)) (index_txs b (txIndex c))
    (tip c) (genesis c) (maxInMemoryBlocks c) (lastAdd c).
Definition uninstall (h : Z) (b : Block) (c : Chain) : Chain :=
  mkChain (delete (block_Hash b) (blocks c)) (delete h (byHeight c)) (unindex_txs b (txIndex c))
    (tip c) (genesis c) (maxInMemoryBlocks c) (lastAdd c).

(** The block at height [height - maxInMemoryBlocks] falls out of the window. *)
Definition evict (height : Z) (c : Chain) : Chain * option Block :=
  if maxInMemoryBlocks c <=? height then
    let evictH := height -w maxInMemoryBlocks c in
    match byHeight c !! evictH with
    | Some old => (uninstall evictH old c, Some old)
    | None => (c, None)
    end
  else (c, None).

(** ** Operations *)

Definition SetGenesis (b : Block) (c : Chain) : result Chain :=
  reject negb (IsGenesis b) with "block is not a genesis block" ;;
  Ok (mkChain (<[block_Hash b := b]> (blocks c)) (<[0 := b]> (byHeight c)) (index_txs b (txIndex c))
        (Some b) (Some b) (maxInMemoryBlocks c) None).

Definition AddBlock (b : Block) (c : Chain) : result Chain :=
  need t from tip c else "chain not initialized: call SetGenesis first" ;;
  reject negb (height_of b =? height_of t +w 1) with "block height does not extend tip" ;;
  reject negb (bool_decide (PrevHash (Header b) = block_Hash t)) with "prev hash mismatch" ;;
  let c1 := set_tip (Some b) (install b c) in
  let '(c2, old) := evict (height_of b) c1 in
  Ok (set_lastAdd (Some (mkAddRollback (block_Hash b) (Some t) old)) c2).

Definition restore (ob : option Block) (c : Chain) : Chain :=
  match ob with Some b => install b c | None => c end.

Definition RollbackLastBlock (ob : option Block) (c : Chain) : result Chain :=
  need b from ob else "rollback last block: nil block" ;;
  let hash := block_Hash b in
  match tip c, lastAdd c with
  | Some t, Some rollback =>
      match previousTip rollback with
      | Some prev =>
          reject negb (bool_decide (block_Hash t = hash)) || negb (bool_decide (blockHash rollback = hash))
            with "rollback last block: block is not the latest AddBlock" ;;
          reject (height_of b =? 0) || negb (height_of prev +w 1 =? height_of b) ||
                 negb (bool_decide (PrevHash (Header b) = block_Hash prev))
            with "rollback last block: invalid parent linkage" ;;
          let c1 := uninstall (height_of b) b c in
          let c2 := restore (Some prev) c1 in
          let c3 := if bool_decide (evicted rollback = Some prev) then c2 else restore (evicted rollback) c2 in
          Ok (set_lastAdd None (set_tip (Some prev) c3))
      | None => Err "rollback last block: block is not the latest AddBlock"
      end
  | _, _ => Err "rollback last block: block is not the latest AddBlock"
  end.

(** One block of [FastForward]. *)
Definition forward (c : Chain) (b : Block) : Chain := fst (evict (height_of b) (set_tip (Some b) (install b c))).

Definition FastForward (bs : list Block) (c : Chain) : Chain :=
  match bs with
  | [] => c
  | _ => foldl forward (set_lastAdd None c) bs
  end.

Record TxIndexEntry := mkTxEntry { te_Height : Z; te_TxIdx : Z }.

(** The first pass does not index transactions. *)
Definition forward_unindexed (c : Chain) (b : Block) : Chain :=
  fst (evict (height_of b)
    (mkChain (<[block_Hash b := b]> (blocks c)) (<[height_of b := b]> (byHeight c)) (txIndex c)
       (Some b) (genesis c) (maxInMemoryBlocks c) (lastAdd c))).

Definition resolve_entry (c : Chain) (entry : TxIndexEntry) : option TxLocation :=
  match byHeight c !! te_Height entry with
  | Some blk =>
      if (te_TxIdx entry <? 0) || (Z.of_nat (length (Txs blk)) <=? te_TxIdx entry) then None
      else Some (mkLoc blk (Z.to_nat (te_TxIdx entry)))
  | None => None
  end.

(** The keys of [txEntries] are distinct, so the order of the second pass does not
    matter: its entries that resolve override the index. *)
Definition FastForwardWithIndex (bs : list Block) (txEntries : gmap Hash32 TxIndexEntry) (c : Chain) : Chain :=
  match bs with
  | [] => c
  | _ =>
      let c1 := foldl forward_unindexed (set_lastAdd None c) bs in
      mkChain (blocks c1) (byHeight c1) (omap (resolve_entry c1) txEntries ∪ txIndex c1) (tip c1) (genesis c1)
        (maxInMemoryBlocks c1) (lastAdd c1)
  end.

Definition GetTransaction (c : Chain) (hash : Hash32) : option (option Transaction * TxLocation) :=
  match txIndex c !! hash with
  | Some loc => Some (Txs (LocBlock loc) !! TxIndex loc, loc)
  | None => None
  end.

(** ** Reorganization *)

(** Contiguity of the new blocks. *)
Fixpoint contiguous (bs : list Block) : result () :=
  match bs with
  | p :: ((b :: _) as rest) =>
      reject negb (height_of b =? height_of p +w 1) with "reorg: gap between blocks" ;;
      reject negb (bool_decide (PrevHash (Header b) = block_Hash p)) with "reorg: prev hash mismatch" ;;
      contiguous rest
  | _ => Ok ()
  end.

(** One height of the removal loop. *)
Definition remove_height (c : Chain) (h : Z) : Chain :=
  match byHeight c !! h with Some old => uninstall h old c | None => c end.

(** The heights from [hi] down to [lo + 1]. *)
Definition down_to (lo hi : Z) : list Z := reverse (seqZ (lo + 1) (hi - lo)).

Definition reorg_install (c : Chain) (b : Block) : Chain := fst (evict (height_of b) (install b c)).

(** The state is returned with the result: an error has already dropped [lastAdd]. *)
Definition Reorg (forkPoint : Z) (newBlocks : list Block) (c : Chain) : Chain * result () :=
  let c0 := set_lastAdd None c in
  match newBlocks with
  | [] => (c0, Err "reorg: no new blocks")
  | b0 :: _ =>
      if negb (height_of b0 =? forkPoint +w 1) then (c0, Err "reorg: new chain start")
      else match contiguous newBlocks, tip c with
           | Err e, _ => (c0, Err e)
           | Ok _, None => (c0, Err "panic: nil tip")
           | Ok _, Some oldTip =>
               let c1 := foldl remove_height c0 (down_to forkPoint (height_of oldTip)) in
               let c2 := foldl reorg_install c1 newBlocks in
               (set_tip (list.last newBlocks) c2, Ok ())
           end
  end.

(** ** Queries *)

Definition ChainHeight (c : Chain) : Z := match tip c with Some t => height_of t | None => 0 end.
Definition GetByHash (c : Chain) (h : Hash32) : option Block := blocks c !! h.
Definition GetByHeight (c : Chain) (h : Z) : option Block := byHeight c !! h.
Definition HasBlock (c : Chain) (h : Hash32) : bool := bool_decide (is_Some (blocks c !! h)).
Definition InMemoryBlockCount (c : Chain) : nat := size (blocks c).

(** The blocks found at the heights from [lo] to [hi]. *)
Definition blocks_between (c : Chain) (lo hi : Z) : list Block :=
  omap (fun h => byHeight c !! h) (seqZ lo (hi - lo + 1)).

Definition known_start (c : Chain) (start : Z) (h : Hash32) : Z :=
  match blocks c !! h with
  | Some b =>
      match byHeight c !! height_of b with
      | Some canon =>
          if bool_decide (block_Hash canon = h) then Z.max start (height_of b +w 1) else start
      | None => start
      end
  | None => start
  end.

Definition HeadersFrom (c : Chain) (knownHashes : list Hash32) (limit : Z) : list BlockHeader :=
  match tip c with
  | None => []
  | Some t =>
      let startHeight := foldl (known_start c) 1 knownHashes in
      if height_of t <? startHeight then []
      else
        let limit := if (limit <=? 0) || (500 <? limit) then 500 else limit in
        take (Z.to_nat limit) (Header <$> blocks_between c startHeight (height_of t))
  end.

Definition TailHashes (c : Chain) (n : Z) : list Hash32 :=
  match tip c with
  | None => []
  | Some t =>
      let start := Z.max 0 (height_of t - n + 1) in
      block_Hash <$> blocks_between c start (height_of t)
  end.

Definition PruneHeight (c : Chain) (keepBlocks : Z) : option Z :=
  match tip c with
  | Some t => if height_of t <=? keepBlocks then None else Some (height_of t -w keepBlocks)
  | None => None
  end.

End Chain.

(** ** Consistency of the three indexes *)

(** The canonical blocks by height determine the other two indexes. *)
Record consistent `{Crypto} (c : Chain) : Prop := {
  co_height : forall h b, byHeight c !! h = Some b -> height_of b = h;
  co_hash : forall x b, blocks c !! x = Some b <-> block_Hash b = x /\ byHeight c !! height_of b = Some b;
  co_tx : forall x b i, txIndex c !! x = Some (mkLoc b i) <->
    byHeight c !! height_of b = Some b /\ Hash <$> Txs b !! i = Some x
}.

(** A block that can be added: unknown hash and height, unknown transactions. *)
Record fresh `{Crypto} (b : Block) (c : Chain) : Prop := {
  fr_height : byHeight c !! height_of b = None;
  fr_hash : blocks c !! block_Hash b = None;
  fr_nodup : NoDup (Hash <$> Txs b);
  fr_txs : forall x, x ∈ Hash <$> Txs b -> txIndex c !! x = None
}.

Section Indexes.
Context `{Crypto}.

Lemma elem_of_locations b x l :
  (x, l) ∈ locations b <-> exists i, l = mkLoc b i /\ Hash <$> Txs b !! i = Some x.
Proof.
  unfold locations. rewrite list_elem_of_lookup. setoid_rewrite list_lookup_imap. split.
  - intros (i & Hi). apply fmap_Some in Hi as (tx & Htx & Heq). simplify_eq. exists i. by rewrite Htx.
  - intros (i & -> & Hi). apply fmap_Some in Hi as (tx & Htx & ->). exists i. by rewrite Htx.
Qed.

Lemma locations_keys b : (locations b).*1 = Hash <$> Txs b.
Proof.
  unfold locations. rewrite fmap_imap. apply list_eq. intros i.
  rewrite list_lookup_imap, list_lookup_fmap. by destruct (Txs b !! i).
Qed.

Lemma tx_hash_elem b i x : Hash <$> Txs b !! i = Some x -> x ∈ Hash <$> Txs b.
Proof. rewrite <- list_lookup_fmap. apply list_elem_of_lookup_2. Qed.

(** Two consistent chains with the same canonical blocks have the same indexes. *)
Lemma consistent_unique c c' :
  consistent c -> consistent c' -> byHeight c = byHeight c' -> blocks c = blocks c' /\ txIndex c = txIndex c'.
Proof.
  intros Hc Hc' Hh. split; apply map_eq; intros x; apply option_eq.
  - intros b. rewrite (co_hash _ Hc), (co_hash _ Hc'). by rewrite Hh.
  - intros [b i]. rewrite (co_tx _ Hc), (co_tx _ Hc'). by rewrite Hh.
Qed.

(** In a consistent chain no two transactions of canonical blocks share a hash. *)
Lemma consistent_nodup c b : consistent c -> byHeight c !! height_of b = Some b -> NoDup (Hash <$> Txs b).
Proof.
  intros Hc Hb. apply NoDup_alt. intros i j x Hi Hj. rewrite list_lookup_fmap in Hi. rewrite list_lookup_fmap in Hj.
  assert (Hxi : txIndex c !! x = Some (mkLoc b i)) by by apply (co_tx _ Hc).
  assert (Hxj : txIndex c !! x = Some (mkLoc b j)) by by apply (co_tx _ Hc).
  congruence.
Qed.

Lemma install_consistent b c : consistent c -> fresh b c -> consistent (install b c).
Proof.
  intros Hc [F1 F2 F3 F4]. destruct Hc as [C1 C2 C3]. constructor; simpl.
  - intros h b' Hb. apply lookup_insert_Some in Hb as [[<- <-]|[_ Hb]]; [done|by apply C1].
  - intros x b'. rewrite !lookup_insert_Some, C2. split.
    + intros [[<- <-]|[Hne [Hx Hb]]]; [by auto|]. split; [done|]. right. split; [|done]. congruence.
    + intros [Hx [[Hh <-]|[Hne Hb]]]; [by left|]. right. split_and!; try done.
      intros He. assert (blocks c !! block_Hash b = Some b') as Hb' by (apply C2; split; [congruence|done]). congruence.
  - intros x b' i. unfold index_txs. destruct (decide (x ∈ Hash <$> Txs b)) as [Hx|Hx].
    + assert (Hex : exists j, Hash <$> Txs b !! j = Some x).
      { apply list_elem_of_lookup in Hx as [j Hj]. exists j. by rewrite <- list_lookup_fmap. }
      destruct Hex as [j Hj]. rewrite (put_all_lookup _ _ x (mkLoc b j)).
      * split.
        -- intros Heq. injection Heq as <- <-. rewrite lookup_insert_eq. done.
        -- intros [Hb Hi]. apply lookup_insert_Some in Hb as [[_ <-]|[_ Hb]].
           ++ rewrite <- list_lookup_fmap in Hi, Hj. by rewrite (NoDup_lookup _ _ _ _ F3 Hi Hj).
           ++ assert (txIndex c !! x = Some (mkLoc b' i)) as Ht by by apply C3. rewrite F4 in Ht by done. done.
      * by rewrite locations_keys.
      * apply elem_of_locations. by exists j.
    + rewrite put_all_ne by by rewrite locations_keys. rewrite C3. rewrite lookup_insert_Some. split.
      * intros [Hb Hi]. split; [|done]. right. split; [congruence|done].
      * intros [[[_ <-]|[_ Hb]] Hi]; [|done]. by apply tx_hash_elem in Hi.
Qed.

Lemma uninstall_consistent b c :
  consistent c -> byHeight c !! height_of b = Some b -> consistent (uninstall (height_of b) b c).
Proof.
  intros Hc Hb. assert (Hco := Hc). destruct Hc as [C1 C2 C3]. constructor; simpl.
  - intros h b' Hb'. apply lookup_delete_Some in Hb' as [_ Hb']. by apply C1.
  - intros x b'. rewrite !lookup_delete_Some, C2. split.
    + intros [Hne [Hx Hb']]. split_and!; try done. intros He. rewrite <- He, Hb in Hb'. congruence.
    + intros [Hx [Hne Hb']]. split_and!; try done. intros He.
      assert (H1 : blocks c !! x = Some b') by by apply C2.
      assert (H2 : blocks c !! x = Some b) by by apply C2. congruence.
  - intros x b' i. unfold unindex_txs. destruct (decide (x ∈ Hash <$> Txs b)) as [Hx|Hx].
    + rewrite del_all_in by done. split; [done|]. intros [Hb' Hi]. apply lookup_delete_Some in Hb' as [Hne Hb'].
      apply list_elem_of_lookup in Hx as [j Hj]. rewrite list_lookup_fmap in Hj.
      assert (H1 : txIndex c !! x = Some (mkLoc b' i)) by by apply C3.
      assert (H2 : txIndex c !! x = Some (mkLoc b j)) by by apply C3. congruence.
    + rewrite del_all_lookup, C3 by done. rewrite lookup_delete_Some. split; [|tauto].
      intros [Hb' Hi]. split_and!; try done. intros He. rewrite <- He, Hb in Hb'. simplify_eq.
      by apply tx_hash_elem in Hi.
Qed.

(** Installing a block that is there changes nothing. *)
Lemma install_present b c : consistent c -> byHeight c !! height_of b = Some b -> install b c = c.
Proof.
  intros Hc Hb. assert (Hnd := consistent_nodup c b Hc Hb). destruct c as [bl bh ti t g m l]. unfold install. simpl in *.
  rewrite (insert_id bh) by done. rewrite (insert_id bl) by (by apply (co_hash _ Hc)). f_equal.
  apply map_eq. intros x. unfold index_txs. destruct (decide (x ∈ Hash <$> Txs b)) as [Hx|Hx].
  - apply list_elem_of_lookup in Hx as [j Hj]. rewrite list_lookup_fmap in Hj.
    rewrite (put_all_lookup _ _ x (mkLoc b j)).
    + symmetry. by apply (co_tx _ Hc).
    + by rewrite locations_keys.
    + apply elem_of_locations. by exists j.
  - by rewrite put_all_ne by by rewrite locations_keys.
Qed.

Lemma uninstall_fresh b c :
  consistent c -> byHeight c !! height_of b = Some b -> fresh b (uninstall (height_of b) b c).
Proof.
  intros Hc Hb. constructor; simpl; [apply lookup_delete_eq|apply lookup_delete_eq|by eapply consistent_nodup|].
  intros x Hx. by apply del_all_in.
Qed.

End Indexes.

(** ** Well-formed chains *)

(** The canonical blocks are those of the heights [lo .. height_of t], at most
    [maxInMemoryBlocks] of them, each naming its predecessor's hash. *)
Record wf_at `{Crypto} (t : Block) (lo : Z) (c : Chain) : Prop := {
  wf_index : consistent c;
  wf_max : 0 < maxInMemoryBlocks c;
  wf_top : byHeight c !! height_of t = Some t;
  wf_range : 0 <= lo <= height_of t /\ height_of t < MaxUint64 /\ height_of t < lo + maxInMemoryBlocks c;
  wf_window : forall h, is_Some (byHeight c !! h) <-> lo <= h <= height_of t;
  wf_links : forall h p b, byHeight c !! h = Some p -> byHeight c !! (h + 1) = Some b ->
    PrevHash (Header b) = block_Hash p
}.

Section Wf.
Context `{Crypto}.

Lemma chain_ext c c' :
  byHeight c = byHeight c' -> blocks c = blocks c' -> txIndex c = txIndex c' -> tip c = tip c' ->
  genesis c = genesis c' -> maxInMemoryBlocks c = maxInMemoryBlocks c' -> lastAdd c = lastAdd c' -> c = c'.
Proof. destruct c, c'. simpl. by intros -> -> -> -> -> -> ->. Qed.

(** Tip and undo record do not matter to the indexes. *)
Lemma wf_at_set_tip t lo c x : wf_at t lo c -> wf_at t lo (set_tip x c).
Proof. intros [[C1 C2 C3] ? ? ? ? ?]. by constructor. Qed.
Lemma wf_at_set_lastAdd t lo c x : wf_at t lo c -> wf_at t lo (set_lastAdd x c).
Proof. intros [[C1 C2 C3] ? ? ? ? ?]. by constructor. Qed.

(** A block on top: the window moves up, and its lowest block leaves it when full. *)
Lemma wf_install t lo c b :
  wf_at t lo c -> fresh b c -> height_of b = height_of t + 1 -> height_of b < MaxUint64 ->
  PrevHash (Header b) = block_Hash t ->
  wf_at b (if maxInMemoryBlocks c <=? height_of b - lo then lo + 1 else lo) (fst (evict (height_of b) (install b c))).
Proof.
  intros [Hc Hm Ht Hr Hw Hl] Hf Hh Hu Hp. assert (Hci := install_consistent b c Hc Hf).
  assert (Hin : forall h, is_Some (byHeight (install b c) !! h) <-> lo <= h <= height_of b).
  { intros h. simpl. destruct (decide (h = height_of b)) as [->|Hne].
    - rewrite lookup_insert_eq. split; [lia|by eexists].
    - rewrite lookup_insert_ne by done. rewrite Hw. lia. }
  assert (Hli : forall h p x, byHeight (install b c) !! h = Some p -> byHeight (install b c) !! (h + 1) = Some x ->
    PrevHash (Header x) = block_Hash p).
  { intros h p x. simpl. intros Hp' Hx. apply lookup_insert_Some in Hx as [[Hhx <-]|[Hne Hx]].
    - assert (h = height_of t) as -> by lia. rewrite lookup_insert_ne in Hp' by lia. congruence.
    - apply lookup_insert_Some in Hp' as [[Hhp <-]|[_ Hp']]; [|by eapply Hl].
      assert (Hsome : is_Some (byHeight c !! (h + 1))) by by eexists. apply Hw in Hsome. lia. }
  unfold evict. change (maxInMemoryBlocks (install b c)) with (maxInMemoryBlocks c).
  set (ev := height_of b -w maxInMemoryBlocks c).
  assert (Hkeep : height_of b - lo < maxInMemoryBlocks c -> wf_at b lo (install b c)).
  { intros Hlt. constructor; try done; try apply lookup_insert_eq. simpl. lia. }
  destruct (Z.leb_spec (maxInMemoryBlocks c) (height_of b)) as [Hle|Hgt].
  2: { destruct (Z.leb_spec (maxInMemoryBlocks c) (height_of b - lo)); [lia|]. apply Hkeep. lia. }
  assert (Eev : ev = height_of b - maxInMemoryBlocks c) by (unfold ev; rewrite wrap64_small; u64lia).
  destruct (Z.leb_spec (maxInMemoryBlocks c) (height_of b - lo)) as [Hfull|Hroom].
  - assert (Elo : ev = lo) by lia. destruct (proj2 (Hin ev)) as [old Hold]; [lia|]. rewrite Hold.
    assert (Eold := co_height _ Hci _ _ Hold). cbn [fst]. rewrite <- Eold. rewrite <- Eold in Hold.
    assert (Hcu := uninstall_consistent old _ Hci Hold). constructor; [done|done| | | |].
    + simpl. rewrite lookup_delete_ne by lia. apply lookup_insert_eq.
    + simpl. lia.
    + intros h. cbn [uninstall byHeight]. rewrite lookup_delete_is_Some, Hin. lia.
    + intros h p x Hp' Hx. cbn [uninstall byHeight] in Hp', Hx. apply lookup_delete_Some in Hp' as [_ Hp'].
      apply lookup_delete_Some in Hx as [_ Hx]. by eapply Hli.
  - destruct (byHeight (install b c) !! ev) as [old|] eqn:Eo.
    + assert (Hsome : is_Some (byHeight (install b c) !! ev)) by by eexists. apply Hin in Hsome. lia.
    + apply Hkeep. lia.
Qed.

(** Removing the top block. *)
Lemma wf_remove t lo c :
  wf_at t lo c -> lo < height_of t ->
  exists p, byHeight c !! (height_of t - 1) = Some p /\ height_of p = height_of t - 1 /\
    wf_at p lo (remove_height c (height_of t)) /\
    byHeight (remove_height c (height_of t)) = delete (height_of t) (byHeight c).
Proof.
  intros [Hc Hm Ht Hr Hw Hl] Hlt. destruct (proj2 (Hw (height_of t - 1))) as [p Hp]; [lia|].
  assert (Ep := co_height _ Hc _ _ Hp). exists p. unfold remove_height. rewrite Ht. split_and!; [done|done| |done].
  assert (Hcu := uninstall_consistent t c Hc Ht). constructor; [done|done| | | |].
  - simpl. rewrite lookup_delete_ne by lia. by rewrite Ep.
  - simpl. lia.
  - intros h. cbn [uninstall byHeight]. rewrite lookup_delete_is_Some, Hw. lia.
  - intros h q x Hq Hx. cbn [uninstall byHeight] in Hq, Hx. apply lookup_delete_Some in Hq as [_ Hq].
    apply lookup_delete_Some in Hx as [_ Hx]. by eapply Hl.
Qed.

End Wf.

(** ** Adding and rolling back *)

Section Steps.
Context `{Crypto}.

(** What [AddBlock] checked and did. *)
Lemma add_block_inv b c c' :
  AddBlock b c = Ok c' ->
  exists t, tip c = Some t /\ height_of b = height_of t +w 1 /\ PrevHash (Header b) = block_Hash t /\
    c' = set_lastAdd (Some (mkAddRollback (block_Hash b) (Some t) (snd (evict (height_of b) (set_tip (Some b) (install b c))))))
           (fst (evict (height_of b) (set_tip (Some b) (install b c)))).
Proof.
  unfold AddBlock. intros Ha. destruct (tip c) as [t|]; [|done]. exists t.
  apply reject_ok in Ha as [Hh Ha]. apply reject_ok in Ha as [Hp Ha]. zbool.
  destruct (evict (height_of b) _) as [c2 old]. apply Ok_inj in Ha as <-. done.
Qed.

Lemma evict_set_tip h x c : fst (evict h (set_tip x c)) = set_tip x (fst (evict h c)).
Proof.
  unfold evict. change (maxInMemoryBlocks (set_tip x c)) with (maxInMemoryBlocks c).
  change (byHeight (set_tip x c)) with (byHeight c).
  destruct (_ <=? _); [|done]. by destruct (byHeight c !! _).
Qed.

(** Taking out a block just put in. *)
Lemma uninstall_install b c : consistent c -> fresh b c -> uninstall (height_of b) b (install b c) = c.
Proof.
  intros Hc Hf. assert (Hci := install_consistent b c Hc Hf).
  assert (Hb : byHeight (install b c) !! height_of b = Some b) by apply lookup_insert_eq.
  assert (Hcu := uninstall_consistent b _ Hci Hb).
  assert (Hh : byHeight (uninstall (height_of b) b (install b c)) = byHeight c).
  { simpl. apply delete_insert_id, (fr_height _ _ Hf). }
  destruct (consistent_unique _ _ Hcu Hc Hh) as [E1 E2]. by apply chain_ext.
Qed.

(** Putting back a block just taken out. *)
Lemma install_uninstall b c :
  consistent c -> byHeight c !! height_of b = Some b -> install b (uninstall (height_of b) b c) = c.
Proof.
  intros Hc Hb. assert (Hcu := uninstall_consistent b c Hc Hb). assert (Hf := uninstall_fresh b c Hc Hb).
  assert (Hci := install_consistent b _ Hcu Hf).
  assert (Hh : byHeight (install b (uninstall (height_of b) b c)) = byHeight c).
  { simpl. rewrite insert_delete_eq. by apply insert_id. }
  destruct (consistent_unique _ _ Hci Hc Hh) as [E1 E2]. by apply chain_ext.
Qed.

(** Uninstalling two different blocks, one of them just installed. *)
Lemma uninstall_swap b old c :
  consistent c -> fresh b c -> byHeight c !! height_of old = Some old ->
  uninstall (height_of b) b (uninstall (height_of old) old (install b c)) = uninstall (height_of old) old c.
Proof.
  intros Hc Hf Ho. assert (Hci := install_consistent b c Hc Hf).
  assert (Hne : height_of b <> height_of old) by (intros He; rewrite <- He, (fr_height _ _ Hf) in Ho; done).
  assert (Ho' : byHeight (install b c) !! height_of old = Some old) by (simpl; by rewrite lookup_insert_ne).
  assert (Hc1 := uninstall_consistent old _ Hci Ho').
  assert (Hb : byHeight (uninstall (height_of old) old (install b c)) !! height_of b = Some b).
  { simpl. rewrite lookup_delete_ne by done. apply lookup_insert_eq. }
  assert (Hc2 := uninstall_consistent b _ Hc1 Hb). assert (Hc3 := uninstall_consistent old c Hc Ho).
  assert (Hh : byHeight (uninstall (height_of b) b (uninstall (height_of old) old (install b c))) =
               byHeight (uninstall (height_of old) old c)).
  { simpl. rewrite delete_delete. f_equal. apply delete_insert_id, (fr_height _ _ Hf). }
  destruct (consistent_unique _ _ Hc2 Hc3 Hh) as [E1 E2]. by apply chain_ext.
Qed.

(** The checks of [RollbackLastBlock] hold right after the block was added. *)
Lemma rollback_runs t b old c :
  tip c = Some b -> lastAdd c = Some (mkAddRollback (block_Hash b) (Some t) old) ->
  0 <= height_of t < MaxUint64 -> height_of b = height_of t + 1 -> PrevHash (Header b) = block_Hash t ->
  RollbackLastBlock (Some b) c =
  Ok (set_lastAdd None (set_tip (Some t)
    (if bool_decide (old = Some t) then install t (uninstall (height_of b) b c)
     else restore old (install t (uninstall (height_of b) b c))))).
Proof.
  intros Ht Hl Hr Hh Hp. unfold RollbackLastBlock. rewrite Ht, Hl. cbn [previousTip blockHash evicted].
  rewrite !(bool_decide_eq_true_2 (block_Hash b = block_Hash b)) by done. cbn [negb orb].
  replace (height_of b =? 0) with false by (symmetry; apply Z.eqb_neq; lia).
  rewrite wrap64_small by u64lia. rewrite <- Hh, Z.eqb_refl, Hp, bool_decide_eq_true_2 by done. done.
Qed.

Lemma rollback_exact (t b : Block) (lo : Z) (c c' : Chain) :
  wf_at t lo c -> tip c = Some t -> fresh b c -> height_of b < MaxUint64 ->
  AddBlock b c = Ok c' -> RollbackLastBlock (Some b) c' = Ok (set_lastAdd None c).
Proof.
  intros Hwf Ht Hf Hu Ha. apply add_block_inv in Ha as (t' & Ht' & Hh & Hp & ->).
  assert (t' = t) as -> by congruence. assert (Hr := wf_range _ _ _ Hwf). assert (Hc := wf_index _ _ _ Hwf).
  rewrite wrap64_small in Hh by u64lia. assert (Htop := wf_top _ _ _ Hwf).
  assert (Hfin : forall y z, set_lastAdd None (set_tip (Some t) (set_lastAdd y (set_tip z c))) = set_lastAdd None c).
  { intros y z. destruct c. simpl in *. unfold set_lastAdd, set_tip. simpl. by rewrite Ht. }
  assert (Hnone : forall y, y = mkAddRollback (block_Hash b) (Some t) None ->
    RollbackLastBlock (Some b) (set_lastAdd (Some y) (set_tip (Some b) (install b c))) = Ok (set_lastAdd None c)).
  { intros y Hy. rewrite (rollback_runs t b None) by (done || lia || by rewrite Hy). cbn [restore].
    rewrite bool_decide_eq_false_2 by done. f_equal.
    change (uninstall ?h b (set_lastAdd ?y (set_tip ?z (install b c)))) with
      (set_lastAdd y (set_tip z (uninstall h b (install b c)))).
    rewrite uninstall_install by done.
    change (install t (set_lastAdd ?y (set_tip ?z c))) with (set_lastAdd y (set_tip z (install t c))).
    rewrite install_present by done. apply Hfin. }
  unfold evict. change (maxInMemoryBlocks (set_tip (Some b) (install b c))) with (maxInMemoryBlocks c).
  change (byHeight (set_tip (Some b) (install b c))) with (<[height_of b := b]> (byHeight c)).
  destruct (maxInMemoryBlocks c <=? height_of b) eqn:Em; [|by apply Hnone].
  destruct (<[height_of b:=b]> (byHeight c) !! (height_of b -w maxInMemoryBlocks c)) as [old|] eqn:Eo; [|by apply Hnone].
  assert (Hm := wf_max _ _ _ Hwf). zbool. rewrite wrap64_small in * by u64lia.
  rewrite lookup_insert_ne in Eo by lia. assert (Eh := co_height _ Hc _ _ Eo). rewrite <- Eh in *. cbn [fst snd].
  rewrite (rollback_runs t b (Some old)) by (done || lia). f_equal.
  change (uninstall ?h b (set_lastAdd ?y (uninstall ?k old (set_tip ?z (install b c))))) with
    (set_lastAdd y (set_tip z (uninstall h b (uninstall k old (install b c))))).
  rewrite uninstall_swap by done.
  change (install ?x (set_lastAdd ?y (set_tip ?z ?d))) with (set_lastAdd y (set_tip z (install x d))).
  case_bool_decide as Hot.
  - injection Hot as ->. rewrite install_uninstall by done. apply Hfin.
  - rewrite install_present; [|by apply uninstall_consistent|].
    + cbn [restore]. change (install ?x (set_lastAdd ?y (set_tip ?z ?d))) with (set_lastAdd y (set_tip z (install x d))).
      rewrite install_uninstall by done. apply Hfin.
    + simpl. rewrite lookup_delete_ne; [done|]. intros He. rewrite He, Htop in Eo. congruence.
Qed.

(** [RollbackLastBlock] after [AddBlock] restores the chain exactly, the block
    that fell out of the window included; only the undo record is gone. *)
Theorem rollback_last_block_exact (t b : Block) (lo : Z) (c c' : Chain) :
  wf_at t lo c -> tip c = Some t -> fresh b c -> height_of b < MaxUint64 ->
  AddBlock b c = Ok c' -> RollbackLastBlock (Some b) c' = Ok (set_lastAdd None c).
Proof. apply rollback_exact. Qed.

End Steps.

(** ** Every reachable chain *)

(** The new blocks may be installed one after the other. *)
Fixpoint fresh_list `{Crypto} (bs : list Block) (c : Chain) : Prop :=
  match bs with
  | [] => True
  | b :: rest => fresh b c /\ height_of b < MaxUint64 /\ fresh_list rest (reorg_install c b)
  end.

(** The chain with the blocks above [forkPoint] removed. *)
Definition cut `{Crypto} (forkPoint : Z) (c : Chain) : Chain :=
  foldl remove_height (set_lastAdd None c) (down_to forkPoint (ChainHeight c)).

(** A reorganization whose first block extends the fork point. *)
Definition extends_fork `{Crypto} (forkPoint : Z) (newBlocks : list Block) (c : Chain) : Prop :=
  exists f b0, byHeight c !! forkPoint = Some f /\ list.head newBlocks = Some b0 /\
    PrevHash (Header b0) = block_Hash f.

(** How consensus drives the chain: a block that cannot be made durable is rolled
    back at once. *)
Inductive reachable `{Crypto} : Chain -> Prop :=
| reach_genesis g maxBlocks c :
    SetGenesis g (NewChain maxBlocks) = Ok c -> NoDup (Hash <$> Txs g) -> reachable c
| reach_add b c c' :
    reachable c -> fresh b c -> height_of b < MaxUint64 -> AddBlock b c = Ok c' -> reachable c'
| reach_rollback b c c' c'' :
    reachable c -> fresh b c -> height_of b < MaxUint64 -> AddBlock b c = Ok c' ->
    RollbackLastBlock (Some b) c' = Ok c'' -> reachable c''
| reach_reorg forkPoint newBlocks c c' res :
    reachable c -> extends_fork forkPoint newBlocks c -> fresh_list newBlocks (cut forkPoint c) ->
    Reorg forkPoint newBlocks c = (c', res) -> reachable c'.

Section Reachable.
Context `{Crypto}.

Lemma add_block_wf t lo b c c' :
  wf_at t lo c -> tip c = Some t -> fresh b c -> height_of b < MaxUint64 -> AddBlock b c = Ok c' ->
  exists lo', wf_at b lo' c' /\ tip c' = Some b.
Proof.
  intros Hwf Ht Hf Hu Ha. apply add_block_inv in Ha as (t' & Ht' & Hh & Hp & ->).
  assert (t' = t) as -> by congruence. assert (Hr := wf_range _ _ _ Hwf).
  rewrite wrap64_small in Hh by u64lia. eexists. rewrite evict_set_tip. split; [|done].
  apply wf_at_set_lastAdd, wf_at_set_tip. by eapply wf_install.
Qed.

Lemma genesis_wf g maxBlocks c :
  SetGenesis g (NewChain maxBlocks) = Ok c -> NoDup (Hash <$> Txs g) -> wf_at g 0 c /\ tip c = Some g.
Proof.
  intros Hg Hn. unfold SetGenesis in Hg. apply reject_ok in Hg as [Hgen Hg]. apply Ok_inj in Hg as <-.
  apply negb_false_iff in Hgen. unfold IsGenesis in Hgen. zbool.
  assert (Hh : height_of g = 0) by (unfold height_of; lia).
  set (c0 := mkChain ∅ ∅ ∅ (Some g) (Some g) (maxInMemoryBlocks (NewChain maxBlocks)) None).
  assert (Hc0 : consistent c0).
  { constructor; simpl; [done| |]; intros; rewrite !lookup_empty; split; try done; by intros [? ?]. }
  assert (Hf : fresh g c0) by (constructor; done).
  assert (Hm : 0 < maxInMemoryBlocks (NewChain maxBlocks)).
  { simpl. destruct maxBlocks as [|m ?]; [done|]. destruct (Z.ltb_spec 0 m); done. }
  assert (Heq : mkChain {[block_Hash g := g]} {[0 := g]} (index_txs g ∅) (Some g) (Some g)
                  (maxInMemoryBlocks (NewChain maxBlocks)) None = install g c0) by (unfold install; simpl; by rewrite Hh).
  split; [|done]. simpl blocks. simpl byHeight. simpl txIndex. change (<[block_Hash g:=g]> ∅) with ({[block_Hash g := g]} : gmap Hash32 Block).
  change (<[0:=g]> ∅) with ({[0 := g]} : gmap Z Block). rewrite Heq.
  constructor; [by apply install_consistent|done|apply lookup_insert_eq|rewrite Hh; change (maxInMemoryBlocks (install g c0)) with (maxInMemoryBlocks (NewChain maxBlocks)); split_and!; u64lia| |].
  - intros h. simpl. rewrite Hh. destruct (decide (h = 0)) as [->|Hne].
    + rewrite lookup_insert_eq. split; [lia|by eexists].
    + rewrite lookup_insert_ne, lookup_empty by done. split; [intros [? ?]; done|lia].
  - intros h p x Hp Hx. simpl in Hp, Hx. apply lookup_insert_Some in Hx as [[? <-]|[_ Hx]]; [|done].
    apply lookup_insert_Some in Hp as [[? <-]|[_ Hp]]; [lia|done].
Qed.

Lemma down_to_step lo hi : lo < hi -> down_to lo hi = hi :: down_to lo (hi - 1).
Proof.
  intros Hlt. unfold down_to. replace (hi - lo) with (Z.of_nat (S (Z.to_nat (hi - 1 - lo)))) by lia.
  rewrite seqZ_S, reverse_app. simpl. replace (Z.of_nat (Z.to_nat (hi - 1 - lo))) with (hi - 1 - lo) by lia.
  f_equal. lia.
Qed.

(** Cutting down to a block of the window leaves it on top. *)
Lemma cut_wf n : forall t lo c f,
  wf_at t lo c -> byHeight c !! height_of f = Some f -> height_of t - height_of f = Z.of_nat n ->
  wf_at f lo (foldl remove_height c (down_to (height_of f) (height_of t))).
Proof.
  induction n as [|n IH]; intros t lo c f Hwf Hf Hn.
  - assert (height_of t = height_of f) as Hh by lia. unfold down_to. rewrite Hh, Z.sub_diag.
    change (reverse (seqZ (height_of f + 1) 0)) with ([] : list Z). cbn [foldl].
    assert (Ht := wf_top _ _ _ Hwf). rewrite Hh, Hf in Ht. injection Ht as ->. done.
  - assert (Hlo : lo <= height_of f) by (apply (wf_window _ _ _ Hwf); by eexists).
    rewrite down_to_step by lia. cbn [foldl].
    destruct (wf_remove t lo c Hwf) as (p & Hp & Eh & Hwp & Hb); [lia|]. rewrite <- Eh.
    apply IH; [done| |lia]. rewrite Hb, lookup_delete_ne by lia. done.
Qed.

Lemma contiguous_cons p b rest :
  contiguous (p :: b :: rest) = Ok () ->
  height_of b = height_of p +w 1 /\ PrevHash (Header b) = block_Hash p /\ contiguous (b :: rest) = Ok ().
Proof.
  intros Hc. cbn [contiguous] in Hc. apply reject_ok in Hc as [H1 Hc]. apply reject_ok in Hc as [H2 Hc]. by zbool.
Qed.

Lemma install_list_wf : forall bs t lo c b0,
  wf_at t lo c -> contiguous (b0 :: bs) = Ok () -> fresh_list (b0 :: bs) c ->
  height_of b0 = height_of t + 1 -> PrevHash (Header b0) = block_Hash t ->
  exists b lo', list.last (b0 :: bs) = Some b /\ wf_at b lo' (foldl reorg_install c (b0 :: bs)).
Proof.
  induction bs as [|b1 bs IH]; intros t lo c b0 Hwf Hc [Hf [Hu Hfl]] Hh Hp.
  - exists b0. eexists. split; [done|]. cbn [foldl]. by eapply wf_install.
  - apply contiguous_cons in Hc as (Hh1 & Hp1 & Hc). assert (Hr := wf_range _ _ _ Hwf).
    rewrite wrap64_small in Hh1 by u64lia.
    destruct (IH b0 _ (reorg_install c b0) b1 (wf_install _ _ _ _ Hwf Hf Hh Hu Hp) Hc Hfl Hh1 Hp1) as (b & lo' & Hb & Hw).
    exists b, lo'. split; [|done]. by rewrite last_cons_cons.
Qed.

Lemma reorg_wf t lo forkPoint newBlocks c c' res :
  wf_at t lo c -> tip c = Some t -> extends_fork forkPoint newBlocks c ->
  fresh_list newBlocks (cut forkPoint c) -> Reorg forkPoint newBlocks c = (c', res) ->
  exists t' lo', wf_at t' lo' c' /\ tip c' = Some t' /\ (is_ok res = true -> list.last newBlocks = Some t').
Proof.
  intros Hwf Ht (f & b0 & Hff & Hb0 & Hp) Hfl Hre. unfold Reorg in Hre.
  assert (Hsame : exists t' lo', wf_at t' lo' (set_lastAdd None c) /\ tip (set_lastAdd None c) = Some t').
  { exists t, lo. split; [by apply wf_at_set_lastAdd|done]. }
  destruct newBlocks as [|b bs]; [done|]. injection Hb0 as ->.
  destruct (negb (height_of b0 =? forkPoint +w 1)) eqn:Eh.
  { injection Hre as <- <-. destruct Hsame as (? & ? & ? & ?). by do 2 eexists. }
  destruct (contiguous (b0 :: bs)) as [[]|e] eqn:Ec.
  2: { injection Hre as <- <-. destruct Hsame as (? & ? & ? & ?). by do 2 eexists. }
  rewrite Ht in Hre. injection Hre as <- <-. zbool. assert (Hr := wf_range _ _ _ Hwf).
  assert (Hfp : height_of f = forkPoint) by (eapply co_height; [by apply (wf_index _ _ _ Hwf)|done]).
  assert (Hin : lo <= forkPoint <= height_of t) by (apply (wf_window _ _ _ Hwf); by eexists).
  rewrite wrap64_small in Eh by u64lia. subst forkPoint.
  assert (Hcut := cut_wf (Z.to_nat (height_of t - height_of f)) t lo (set_lastAdd None c) f
    (wf_at_set_lastAdd _ _ _ None Hwf) Hff ltac:(lia)).
  unfold cut, ChainHeight in Hfl. rewrite Ht in Hfl.
  destruct (install_list_wf bs f lo _ b0 Hcut Ec Hfl Eh Hp) as (t' & lo' & Hlast & Hw).
  exists t', lo'. rewrite Hlast. split_and!; [by apply wf_at_set_tip|done|done].
Qed.

Lemma reachable_wf c : reachable c -> exists t lo, wf_at t lo c /\ tip c = Some t.
Proof.
  induction 1 as [g mb c Hg Hn|b c c' _ (t & lo & Hw & Ht) Hf Hu Ha|b c c' c'' _ (t & lo & Hw & Ht) Hf Hu Ha Hr
                 |fp nb c c' res _ (t & lo & Hw & Ht) He Hfl Hr].
  - exists g, 0. by eapply genesis_wf.
  - destruct (add_block_wf t lo b c c' Hw Ht Hf Hu Ha) as (lo' & ? & ?). by exists b, lo'.
  - rewrite (rollback_exact t b lo c c' Hw Ht Hf Hu Ha) in Hr. injection Hr as <-. exists t, lo.
    split; [by apply wf_at_set_lastAdd|done].
  - destruct (reorg_wf t lo fp nb c c' res Hw Ht He Hfl Hr) as (t' & lo' & ? & ? & _). by exists t', lo'.
Qed.

(** The heights of the blocks in memory are distinct members of the window. *)
Lemma window_size t lo c : wf_at t lo c -> Z.of_nat (InMemoryBlockCount c) <= maxInMemoryBlocks c.
Proof.
  intros Hwf. assert (Hc := wf_index _ _ _ Hwf). assert (Hr := wf_range _ _ _ Hwf).
  set (hs := (fun xb : Hash32 * Block => height_of (snd xb)) <$> map_to_list (blocks c)).
  assert (Hlen : length hs = InMemoryBlockCount c).
  { unfold hs, InMemoryBlockCount. by rewrite length_fmap, length_map_to_list. }
  assert (Hin : forall xb, xb ∈ map_to_list (blocks c) -> block_Hash (snd xb) = fst xb /\ byHeight c !! height_of (snd xb) = Some (snd xb)).
  { intros [x b] Hxb. apply elem_of_map_to_list in Hxb. by apply (co_hash _ Hc). }
  assert (Hnd : NoDup hs).
  { unfold hs. apply NoDup_fmap_2_strong; [|apply NoDup_map_to_list].
    intros [x b] [x' b'] Hx Hx' Heq. destruct (Hin _ Hx) as [E1 E2]. destruct (Hin _ Hx') as [E1' E2'].
    simpl in *. rewrite Heq in E2. congruence. }
  assert (Hsub : hs ⊆+ seqZ lo (height_of t - lo + 1)).
  { apply NoDup_submseteq; [done|]. intros h Hh. apply list_elem_of_fmap in Hh as ([x b] & -> & Hxb).
    destruct (Hin _ Hxb) as [_ E2]. apply elem_of_seqZ. simpl in *.
    assert (lo <= height_of b <= height_of t) by (apply (wf_window _ _ _ Hwf); by eexists). lia. }
  apply submseteq_length in Hsub. rewrite length_seqZ in Hsub. lia.
Qed.

(** C16: in every chain reached from a genesis with distinct transactions by adding
    blocks, rolling back the block just added and reorganizations whose first block
    links to the fork point, where every block added is new to the chain (unknown height
    and hash, below the last height, distinct transactions none of which is indexed:
    AddBlock does not check this and indexes the later one, see the findings): memory is
    bounded by the window; the blocks in it are consecutive up to the tip and linked by
    hash; a transaction lookup never runs out of range and returns a transaction with
    the hash asked for, in a canonical block; and every transaction of a canonical block
    in the window is found. *)
Theorem chain_reachable_sound (c : Chain) :
  reachable c ->
  exists t lo, tip c = Some t /\ Z.of_nat (InMemoryBlockCount c) <= maxInMemoryBlocks c /\
    (forall h, is_Some (GetByHeight c h) <-> lo <= h <= ChainHeight c) /\
    (forall h p b, GetByHeight c h = Some p -> GetByHeight c (h + 1) = Some b ->
       PrevHash (Header b) = block_Hash p /\ HasBlock c (PrevHash (Header b)) = true) /\
    (forall x otx loc, GetTransaction c x = Some (otx, loc) ->
       exists tx, otx = Some tx /\ Hash tx = x /\ GetByHeight c (height_of (LocBlock loc)) = Some (LocBlock loc)) /\
    (forall h b i tx, GetByHeight c h = Some b -> Txs b !! i = Some tx ->
       GetTransaction c (Hash tx) = Some (Some tx, mkLoc b i)).
Proof.
  intros Hr. destruct (reachable_wf c Hr) as (t & lo & Hwf & Ht). assert (Hc := wf_index _ _ _ Hwf).
  exists t, lo. unfold GetByHeight, ChainHeight. rewrite Ht. split_and!; [done|by eapply window_size| | | |].
  - apply (wf_window _ _ _ Hwf).
  - intros h p b Hp Hb. assert (Hl := wf_links _ _ _ Hwf h p b Hp Hb). split; [done|]. rewrite Hl.
    apply bool_decide_eq_true_2. exists p. apply (co_hash _ Hc). split; [done|]. by rewrite (co_height _ Hc _ _ Hp).
  - intros x otx [b i] Hg. unfold GetTransaction in Hg. destruct (txIndex c !! x) as [[b' i']|] eqn:E; [|done].
    apply (co_tx _ Hc) in E as [Hb Hx]. simpl in *. apply fmap_Some in Hx as (tx & Htx & ->). simplify_eq.
    rewrite Htx. eauto.
  - intros h b i tx Hb Htx. unfold GetTransaction. assert (Hh := co_height _ Hc _ _ Hb).
    rewrite (proj2 (co_tx _ Hc (Hash tx) b i)) by (rewrite Hh, Htx; done). simpl. by rewrite Htx.
Qed.

Lemma omap_total {A B} (f : A -> option B) (l : list A) (i : nat) :
  (forall x, x ∈ l -> is_Some (f x)) -> omap f l !! i = l !! i ≫= f.
Proof.
  revert i. induction l as [|x l IH]; intros i Hf; [done|]. cbn [omap list_omap].
  destruct (Hf x (list_elem_of_here _ _)) as [y Hy]. rewrite Hy. destruct i as [|i]; [done|].
  apply IH. intros z Hz. apply Hf. by constructor.
Qed.

(** Inside the window the heights enumerate the blocks one by one. *)
Lemma blocks_between_lookup t lo c h i :
  wf_at t lo c -> lo <= h ->
  blocks_between c h (height_of t) !! i = byHeight c !! (h + Z.of_nat i).
Proof.
  intros Hwf Hh. unfold blocks_between. rewrite omap_total.
  - destruct (seqZ h (height_of t - h + 1) !! i) as [x|] eqn:E.
    + apply lookup_seqZ in E as [-> _]. done.
    + apply lookup_ge_None in E. rewrite length_seqZ in E. simpl. symmetry. destruct (byHeight c !! _) eqn:Eb; [|done].
      assert (lo <= h + Z.of_nat i <= height_of t) by (apply (wf_window _ _ _ Hwf); by eexists). lia.
  - intros x Hx. apply elem_of_seqZ in Hx. apply (wf_window _ _ _ Hwf). lia.
Qed.

(** A synchronising peer that names a canonical block gets exactly the headers
    that follow it, in order, up to the limit and the tip. *)
Theorem headers_from_common (c : Chain) (p : Block) (limit : Z) (i : nat) (hd : BlockHeader) :
  reachable c -> GetByHeight c (height_of p) = Some p ->
  HeadersFrom c [block_Hash p] limit !! i = Some hd <->
  exists b, GetByHeight c (height_of p + 1 + Z.of_nat i) = Some b /\ hd = Header b /\
    Z.of_nat i < (if (limit <=? 0) || (500 <? limit) then 500 else limit).
Proof.
  intros Hr Hp. destruct (reachable_wf c Hr) as (t & lo & Hwf & Ht). assert (Hc := wf_index _ _ _ Hwf).
  unfold GetByHeight in *. assert (Hin : lo <= height_of p <= height_of t) by (apply (wf_window _ _ _ Hwf); by eexists).
  assert (Hrg := wf_range _ _ _ Hwf). unfold HeadersFrom. rewrite Ht. cbn [foldl]. unfold known_start.
  rewrite (proj2 (co_hash _ Hc (block_Hash p) p)) by done. rewrite Hp, bool_decide_eq_true_2 by done.
  rewrite wrap64_small by u64lia. rewrite Z.max_r by lia.
  set (lim := if (limit <=? 0) || (500 <? limit) then 500 else limit).
  assert (Hlim : 0 < lim) by (unfold lim; destruct (Z.leb_spec limit 0), (Z.ltb_spec 500 limit); simpl; lia).
  destruct (Z.ltb_spec (height_of t) (height_of p + 1)) as [Hend|Hmore].
  - split; [done|]. intros (b & Hb & _).
    assert (lo <= height_of p + 1 + Z.of_nat i <= height_of t) by (apply (wf_window _ _ _ Hwf); by eexists). lia.
  - destruct (decide (Z.of_nat i < lim)) as [Hlt|Hge].
    + rewrite lookup_take_lt by lia. rewrite list_lookup_fmap, (blocks_between_lookup t lo) by (done || lia).
      rewrite fmap_Some. naive_solver.
    + rewrite lookup_take_ge by lia. naive_solver.
Qed.

End Reachable.

(** ** Examples *)

Definition ex_tx (n : Z) : Transaction := mkTx TxVersionBase [] [] n (zero_arr 32) [] [] [] [] None.
Definition ex_block_at (height : Z) (prev : Hash32) : Block :=
  mkBlock (mkHeader height prev (zero_arr 32) (1000 + height) 0 [] 0 0 []) [ex_tx height].
Definition ex_g : Block := ex_block_at 0 (zero_arr 32).
Definition ex_b1 : Block := ex_block_at 1 (block_Hash (H := toy_crypto) ex_g).
Definition ex_b2 : Block := ex_block_at 2 (block_Hash (H := toy_crypto) ex_b1).
Definition ok_chain (r : result Chain) : Chain := match r with Ok c => c | Err _ => NewChain [] end.
(** A window of two blocks: adding the third evicts the genesis block. *)
Definition ex_c0 : Chain := ok_chain (SetGenesis (H := toy_crypto) ex_g (NewChain [2])).
Definition ex_c1 : Chain := ok_chain (AddBlock (H := toy_crypto) ex_b1 ex_c0).
Definition ex_c2 : Chain := ok_chain (AddBlock (H := toy_crypto) ex_b2 ex_c1).

(** A block of height 1 that does not name the genesis block. *)
Definition ex_stray : Block := ex_block_at 1 (zero_arr 32).
Definition ex_reorged : Chain * result () := Reorg (H := toy_crypto) 0 [ex_stray] ex_c1.

(** [Reorg] checks the links between the new blocks but not the link of the
    first one to the fork point: it can install a block that does not extend the
    block below it. *)
Theorem reorg_unlinked :
  is_ok (snd ex_reorged) = true /\ GetByHeight (fst ex_reorged) 0 = Some ex_g /\
  GetByHeight (fst ex_reorged) 1 = Some ex_stray /\
  PrevHash (Header ex_stray) <> block_Hash (H := toy_crypto) ex_g.
Proof.
  split_and!; [vm_compute; reflexivity| | |]; apply (bool_decide_unpack _); vm_compute; exact I.
Qed.

Lemma ex_fresh b c :
  byHeight c !! height_of b = None -> blocks c !! block_Hash (H := toy_crypto) b = None ->
  (forall x, Hash (H := toy_crypto) <$> Txs b = [x] -> txIndex c !! x = None) -> length (Txs b) = 1%nat ->
  fresh (H := toy_crypto) b c.
Proof.
  intros H1 H2 H3 H4. destruct (Txs b) as [|tx [|]] eqn:E; try done.
  constructor; rewrite ?E; [done|done|apply NoDup_singleton|].
  intros x Hx. apply list_elem_of_singleton in Hx as ->. by apply H3.
Qed.

Lemma ex_reach1 : reachable (H := toy_crypto) ex_c1.
Proof.
  eapply (reach_add (H := toy_crypto) ex_b1 ex_c0).
  - eapply (reach_genesis (H := toy_crypto) ex_g [2]); [apply ok_value; vm_compute; reflexivity|apply NoDup_singleton].
  - apply ex_fresh; [vm_compute; reflexivity..| |reflexivity]. intros x Hx. injection Hx as <-. vm_compute. reflexivity.
  - vm_compute. reflexivity.
  - apply ok_value. vm_compute. reflexivity.
Qed.

Lemma ex_fresh2 : fresh (H := toy_crypto) ex_b2 ex_c1.
Proof.
  apply ex_fresh; [vm_compute; reflexivity..| |reflexivity]. intros x Hx. injection Hx as <-. vm_compute. reflexivity.
Qed.

Lemma ex_reach2 : reachable (H := toy_crypto) ex_c2.
Proof.
  eapply (reach_add (H := toy_crypto) ex_b2 ex_c1); [apply ex_reach1|apply ex_fresh2|vm_compute; reflexivity|].
  apply ok_value. vm_compute. reflexivity.
Qed.

Lemma chain_reachable_sound_witness :
  InMemoryBlockCount ex_c2 = 2%nat /\
  exists t lo, tip ex_c2 = Some t /\ (forall h, is_Some (GetByHeight ex_c2 h) <-> lo <= h <= ChainHeight ex_c2).
Proof.
  split; [vm_compute; reflexivity|].
  destruct (chain_reachable_sound (H := toy_crypto) ex_c2 ex_reach2) as (t & lo & Ht & _ & Hw & _).
  exists t, lo. split; [exact Ht|exact Hw].
Defined.

Lemma headers_from_common_witness :
  HeadersFrom (H := toy_crypto) ex_c2 [block_Hash (H := toy_crypto) ex_b1] 10 !! 0%nat = Some (Header ex_b2).
Proof.
  apply (headers_from_common (H := toy_crypto) ex_c2 ex_b1 10 0 (Header ex_b2) ex_reach2).
  - apply (bool_decide_unpack _). vm_compute. exact I.
  - exists ex_b2. split; [apply (bool_decide_unpack _); vm_compute; exact I|]. split; [reflexivity|]. simpl. lia.
Defined.

Lemma rollback_last_block_exact_witness :
  GetByHeight ex_c2 0 = None /\
  RollbackLastBlock (H := toy_crypto) (Some ex_b2) ex_c2 = Ok (set_lastAdd None ex_c1).
Proof.
  split; [vm_compute; reflexivity|].
  destruct (reachable_wf (H := toy_crypto) ex_c1 ex_reach1) as (t & lo & Hwf & Ht).
  apply (rollback_last_block_exact (H := toy_crypto) t ex_b2 lo ex_c1 ex_c2 Hwf Ht).
  - apply ex_fresh2.
  - vm_compute. reflexivity.
  - apply ok_value. vm_compute. reflexivity.
Defined.

End Chain.
