(* ===== verification/Reward.v ===== *)
(** Authorized validator rewards: [core/reward.go].  The authorization travels
    in the coinbase's [Extra]; the theorems are its round trip, that what a
    proposer builds is accepted, and that an accepted reward cannot be replayed
    at another height or on another parent. *)

From stdpp Require Import base list strings.
From S2P Require Import Prelude Bytes Crypto StakePayload Transaction.
Import Transaction.

Module Reward.

Record RewardAuthorization := mkAuth {
  ra_Version : byte; ra_Height : Z; ra_ParentHash : Hash32; ra_RecipientNetwork : NetworkByte;
  ra_RecipientSpendPub : Point32; ra_RecipientViewPub : Point32; ra_Amount : Z;
  ra_RewardID : Hash32; ra_Signature : list byte
}.

#[global] Instance RewardAuthorization_eq_dec : EqDecision RewardAuthorization.
Proof. solve_decision. Defined.

Definition RewardAuthorizationVersion : byte := x01.
Definition RewardAuthorizationSize : nat := 1 + 8 + 32 + 1 + 32 + 32 + 8 + 32 + 64.

Definition encodeRewardUint64 (v : Z) : list byte := be_encode 8 v.

Definition EncodeRewardAuthorization (oa : option RewardAuthorization) : result (list byte) :=
  need a from oa else "nil reward authorization" ;;
  reject negb (len_is (ra_Signature a) 64) with "reward authorization signature must be 64 bytes" ;;
  Ok ([ra_Version a] ++ be_encode 8 (ra_Height a) ++ arr_list (ra_ParentHash a) ++
      [ra_RecipientNetwork a] ++ arr_list (ra_RecipientSpendPub a) ++
      arr_list (ra_RecipientViewPub a) ++ be_encode 8 (ra_Amount a) ++
      arr_list (ra_RewardID a) ++ ra_Signature a).

Definition DecodeRewardAuthorization (b : list byte) : result RewardAuthorization :=
  reject negb (len_is b RewardAuthorizationSize) with "reward authorization: wrong length" ;;
  Ok (mkAuth (StakePayload.first_byte b) (be_decode (slice b 1 9)) (copy_arr 32 (slice b 9 41))
        (StakePayload.first_byte (slice b 41 42)) (copy_arr 32 (slice b 42 74))
        (copy_arr 32 (slice b 74 106)) (be_decode (slice b 106 114))
        (copy_arr 32 (slice b 114 146)) (slice b 146 210)).

Section Reward.
Context `{Crypto}.

Definition RewardAuthorizationID (version : byte) (height : Z) (parentHash : Hash32)
    (recipientNetwork : NetworkByte) (recipientSpendPub recipientViewPub : Point32) (amount : Z) : Hash32 :=
  HashBytes [bytes_of_string "aperod/reward-id/v1"; [version]; encodeRewardUint64 height;
    arr_list parentHash; [recipientNetwork]; arr_list recipientSpendPub;
    arr_list recipientViewPub; encodeRewardUint64 amount].

Definition auth_id (a : RewardAuthorization) : Hash32 :=
  RewardAuthorizationID (ra_Version a) (ra_Height a) (ra_ParentHash a) (ra_RecipientNetwork a)
    (ra_RecipientSpendPub a) (ra_RecipientViewPub a) (ra_Amount a).

Definition RewardAuthorizationSignMsg (a : RewardAuthorization) : Hash32 :=
  HashBytes [bytes_of_string "aperod/reward-authorization/v1"; [ra_Version a];
    encodeRewardUint64 (ra_Height a); arr_list (ra_ParentHash a); [ra_RecipientNetwork a];
    arr_list (ra_RecipientSpendPub a); arr_list (ra_RecipientViewPub a);
    encodeRewardUint64 (ra_Amount a); arr_list (ra_RewardID a)].

Definition with_id_sig (a : RewardAuthorization) (id : Hash32) (sig : list byte) : RewardAuthorization :=
  mkAuth (ra_Version a) (ra_Height a) (ra_ParentHash a) (ra_RecipientNetwork a)
    (ra_RecipientSpendPub a) (ra_RecipientViewPub a) (ra_Amount a) id sig.

Definition Sign (oa : option RewardAuthorization) (priv : list byte) : result RewardAuthorization :=
  need a from oa else "nil reward authorization" ;;
  let a1 := with_id_sig a (auth_id a) (ra_Signature a) in
  need sig from ed25519_sign priv (RewardAuthorizationSignMsg a1) else "sign reward authorization" ;;
  Ok (with_id_sig a1 (ra_RewardID a1) sig).

Definition Validate (oa : option RewardAuthorization) (blockHeight : Z) (parentHash : Hash32)
    (validatorPub : ValidatorPubKey) : result () :=
  need a from oa else "nil reward authorization" ;;
  reject negb (bool_decide (ra_Version a = RewardAuthorizationVersion))
    with "unsupported reward authorization version" ;;
  reject negb (ra_Height a =? blockHeight) with "reward height does not match block height" ;;
  reject negb (bool_decide (ra_ParentHash a = parentHash))
    with "reward parent hash does not match block parent" ;;
  reject (ra_Amount a =? 0) with "reward amount must be > 0" ;;
  reject negb (bool_decide (ra_RecipientNetwork a ∈ [MainnetByte; TestnetByte; DevnetByte]))
    with "unsupported reward recipient network byte" ;;
  reject negb (bool_decide (ra_RewardID a = auth_id a)) with "reward authorization id mismatch" ;;
  reject negb (pub_verify validatorPub (RewardAuthorizationSignMsg a) (ra_Signature a))
    with "invalid reward authorization signature" ;;
  Ok ().

Definition BuildAuthorizedRewardTx (addr : string) (amount height : Z) (parentHash : Hash32)
    (validatorPriv : list byte) : result Transaction :=
  reject (amount =? 0) with "authorized reward amount must be > 0" ;;
  need d from DecodeAddress addr else "decode reward address" ;;
  let '(network, spendPub, viewPub) := d in
  tx ← BuildMintTx addr amount height;
  auth ← Sign (Some (mkAuth RewardAuthorizationVersion height parentHash network spendPub viewPub
                      amount (zero_arr 32) [])) validatorPriv;
  extra ← EncodeRewardAuthorization (Some auth);
  Ok (set_Extra extra tx).

Definition ValidateAuthorizedRewardTx (otx : option Transaction) (blockHeight : Z)
    (parentHash : Hash32) (validatorPub : ValidatorPubKey) : result RewardAuthorization :=
  need tx from otx else "nil reward transaction" ;;
  reject negb (IsCoinbase tx) with "authorized reward must be a coinbase transaction" ;;
  reject negb (is_version TxVersionBase tx) with "authorized reward must use transaction version 1" ;;
  reject negb (Fee tx =? 0) with "authorized reward fee must be zero" ;;
  match Outputs tx with
  | [out] =>
      auth ← DecodeRewardAuthorization (Extra tx);
      _ ← Validate (Some auth) blockHeight parentHash validatorPub;
      reject negb (bool_decide (TxPubKey out = zero_arr 32)) ||
             negb (bool_decide (EncAmount out = zero_arr 8))
        with "authorized reward output must be transparent" ;;
      need blind from DeterministicMintBlindV2 (ra_RecipientSpendPub auth) (ra_Amount auth) (ra_Height auth)
        else "derive reward blind" ;;
      need commit from Commit (ra_Amount auth) blind else "derive reward commitment" ;;
      reject negb (bool_decide (AmountCommit out = commit))
        with "reward commitment does not match authorized amount" ;;
      need heightPub from ScalarMulBaseUint64 (ra_Height auth) else "derive reward height key" ;;
      need oneTimePub from AddPoints (ra_RecipientSpendPub auth) heightPub
        else "derive reward one-time key" ;;
      reject negb (bool_decide (OneTimePub out = oneTimePub))
        with "reward output key does not match authorized recipient and height" ;;
      Ok auth
  | _ => Err "authorized reward must have exactly one output"
  end.

End Reward.

(** ** Round trip *)

Definition auth_wf (a : RewardAuthorization) : Prop :=
  is_u64 (ra_Height a) /\ is_u64 (ra_Amount a) /\ length (ra_Signature a) = 64%nat.

Lemma encode_decode (a : RewardAuthorization) :
  auth_wf a -> (b ← EncodeRewardAuthorization (Some a); DecodeRewardAuthorization b) = Ok a.
Proof.
  intros (Hh & Ha & Hs). unfold EncodeRewardAuthorization, len_is.
  rewrite reject_no_ok by by rewrite bool_decide_eq_true_2.
  cbn [mbind result_bind]. unfold DecodeRewardAuthorization, len_is, RewardAuthorizationSize.
  rewrite reject_no_ok by (rewrite bool_decide_eq_true_2; [done|lens]).
  slices. rewrite !copy_arr_list, !be_decode_encode8 by done. by destruct a.
Qed.

Lemma decode_encode (b : list byte) (a : RewardAuthorization) :
  DecodeRewardAuthorization b = Ok a -> auth_wf a /\ EncodeRewardAuthorization (Some a) = Ok b.
Proof.
  unfold DecodeRewardAuthorization, len_is. intros Hd. apply reject_ok in Hd as [Hl Hd]. zbool.
  change RewardAuthorizationSize with 210%nat in Hl. apply Ok_inj in Hd as <-.
  assert (Hs : length (slice b 146 210) = 64%nat) by (rewrite slice_length; lia). split.
  - unfold auth_wf. cbn [ra_Height ra_Amount ra_Signature].
    split_and!; [apply be_decode8_u64; rewrite slice_length; lia..|done].
  - unfold EncodeRewardAuthorization, len_is. cbn [ra_Version ra_Height ra_ParentHash ra_RecipientNetwork
      ra_RecipientSpendPub ra_RecipientViewPub ra_Amount ra_RewardID ra_Signature].
    rewrite reject_no_ok by (by rewrite Hs). f_equal.
    rewrite !copy_slice, !StakePayload.be_slice by lia.
    rewrite <- StakePayload.first_byte_slice by lia.
    assert (slice b 41 42 = [StakePayload.first_byte (slice b 41 42)]) as <-.
    { assert (length (slice b 41 42) = 1%nat) as H1 by (rewrite slice_length; lia).
      destruct (slice b 41 42) as [|x [|? ?]]; done. }
    rewrite !slice_cat by lia. rewrite <- Hl. apply slice_all.
Qed.

(** The reward authorization and its 210-byte encoding determine each other. *)
Theorem reward_authorization_roundtrip (a : RewardAuthorization) (b : list byte) :
  auth_wf a ->
  EncodeRewardAuthorization (Some a) = Ok b <-> DecodeRewardAuthorization b = Ok a.
Proof.
  intros Hwf. split.
  - intros He. assert (Hr := encode_decode a Hwf). by rewrite He in Hr.
  - intros Hd. by destruct (decode_encode _ _ Hd).
Qed.

(** An accepted reward is bound to its block: its single output is the
    transparent mint of the authorized amount to the authorized recipient at the
    block's height, the proposer's key signed it, and the same transaction is
    accepted at no other height and on no other parent. *)
Theorem reward_accepted_once `{Crypto} (tx : Transaction) (height : Z) (parent : Hash32)
    (pub : ValidatorPubKey) (a : RewardAuthorization) :
  ValidateAuthorizedRewardTx (Some tx) height parent pub = Ok a ->
  ra_Height a = height /\ ra_ParentHash a = parent /\ 0 < ra_Amount a < U64 /\
  pub_verify pub (RewardAuthorizationSignMsg a) (ra_Signature a) = true /\
  (exists blind commit P otp, Outputs tx = [mkOutput otp (zero_arr 32) commit (zero_arr 8)] /\
     DeterministicMintBlindV2 (ra_RecipientSpendPub a) (ra_Amount a) height = Some blind /\
     Commit (ra_Amount a) blind = Some commit /\ ScalarMulBaseUint64 height = Some P /\
     AddPoints (ra_RecipientSpendPub a) P = Some otp) /\
  (forall height' parent' pub', (height', parent') <> (height, parent) ->
     is_ok (ValidateAuthorizedRewardTx (Some tx) height' parent' pub') = false).
Proof.
  intros Hv.
  assert (Hdec : DecodeRewardAuthorization (Extra tx) = Ok a /\ Validate (Some a) height parent pub = Ok ()).
  { unfold ValidateAuthorizedRewardTx in Hv. do 3 (apply reject_ok in Hv as [_ Hv]).
    destruct (Outputs tx) as [|out [|? ?]]; try done.
    apply bind_ok in Hv as (a' & Hd & Hv). apply bind_ok in Hv as ([] & Hval & Hv).
    assert (a' = a) as ->; [|done]. peel Hv. by injection Hv. }
  destruct Hdec as [Hd Hval]. assert (Hwf := Hd). apply decode_encode in Hwf as [(_ & Ha & _) _].
  unfold Validate in Hval. peel Hval. zbool. subst height parent. split_and!; try done; try u64lia.
  - unfold ValidateAuthorizedRewardTx in Hv. do 3 (apply reject_ok in Hv as [_ Hv]).
    destruct (Outputs tx) as [|out [|? ?]]; try done. rewrite Hd in Hv. cbn [mbind result_bind] in Hv.
    apply bind_ok in Hv as ([] & _ & Hv). peel Hv. zbool. do 4 eexists. split_and!; try done.
    destruct out; simpl in *. by subst.
  - intros h' p' pub' Hne.
    destruct (ValidateAuthorizedRewardTx (Some tx) h' p' pub') as [a'|] eqn:E; [exfalso|done].
    unfold ValidateAuthorizedRewardTx in E. do 3 (apply reject_ok in E as [_ E]).
    destruct (Outputs tx) as [|out [|? ?]]; try done. rewrite Hd in E. cbn [mbind result_bind] in E.
    apply bind_ok in E as ([] & E & _). unfold Validate in E. peel E. zbool. by subst.
Qed.

(** ** What a proposer builds is accepted *)

(** The documented behaviour of the signature scheme for one key pair: a
    signature it produces has 64 bytes and verifies under the public key. *)
Definition signs_for `{Crypto} (priv : list byte) (pub : ValidatorPubKey) : Prop :=
  forall msg sig, ed25519_sign priv msg = Some sig ->
    length sig = 64%nat /\ ed25519_verify pub (arr_list msg) sig = true.

(** The reward transaction a validator builds for a block is accepted by
    every validator for that block, and the authorization recovered from it
    carries the requested amount and recipient. *)
Theorem built_reward_accepted `{Crypto} (addr : string) (amount height : Z) (parent : Hash32)
    (priv : list byte) (pub : ValidatorPubKey) (tx : Transaction)
    (network : NetworkByte) (spend view : Point32) :
  signs_for priv pub -> 0 < height -> is_u64 height -> is_u64 amount ->
  DecodeAddress addr = Some (network, spend, view) ->
  network ∈ [MainnetByte; TestnetByte; DevnetByte] ->
  BuildAuthorizedRewardTx addr amount height parent priv = Ok tx ->
  exists a, ValidateAuthorizedRewardTx (Some tx) height parent pub = Ok a /\
    ra_Amount a = amount /\ ra_RecipientSpendPub a = spend /\ ra_RecipientViewPub a = view.
Proof.
  intros Hsign Hh Hh64 Ha64 Hdec Hnet Hb. unfold BuildAuthorizedRewardTx in Hb.
  apply reject_ok in Hb as [Ha Hb]. rewrite Hdec in Hb.
  apply bind_ok in Hb as (mint & Hm & Hb). apply bind_ok in Hb as (auth & Hs & Hb).
  apply bind_ok in Hb as (extra & He & Hb). apply Ok_inj in Hb as <-.
  unfold Sign in Hs. peel Hs. destruct (Hsign _ _ Ho) as [Hlen Hver].
  apply Ok_inj in Hs. exists auth.
  assert (Hd : DecodeRewardAuthorization extra = Ok auth).
  { assert (Hr := encode_decode auth). rewrite He in Hr. apply Hr. by subst auth. }
  unfold BuildMintTx in Hm. apply reject_ok in Hm as [_ Hm]. rewrite Hdec in Hm.
  destruct (Z.ltb_spec 0 height); [|lia]. peel Hm. apply Ok_inj in Hm as <-.
  split; [|by subst auth]. unfold ValidateAuthorizedRewardTx. cbn -[DecodeRewardAuthorization Validate].
  rewrite Hd. cbn [mbind result_bind].
  assert (Hval : Validate (Some auth) height parent pub = Ok ()).
  { subst auth. unfold Validate. cbn [with_id_sig ra_Version ra_Height ra_ParentHash ra_Amount
      ra_RecipientNetwork ra_RewardID ra_Signature].
    rewrite Z.eqb_refl, !bool_decide_eq_true_2 by done. cbn [negb]. rewrite Ha.
    unfold pub_verify. rewrite bool_decide_eq_true_2 by done. cbn [negb].
    by replace (ed25519_verify _ _ _) with true. }
  rewrite Hval. subst auth. cbn [mbind result_bind with_id_sig ra_RecipientSpendPub ra_Amount ra_Height].
  repeat match goal with H : ?o = Some _ |- _ => rewrite H end.
  by rewrite !bool_decide_eq_true_2.
Qed.

(** ** Witnesses *)

Definition ex_auth : RewardAuthorization :=
  mkAuth x01 7 (copy_arr 32 [x03]) MainnetByte (copy_arr 32 [x01]) (copy_arr 32 [x02]) 500
    (copy_arr 32 [x04]) (replicate 64 x05).
Definition ex_auth_bytes : list byte :=
  match EncodeRewardAuthorization (Some ex_auth) with Ok b => b | Err _ => [] end.

Lemma reward_authorization_roundtrip_witness :
  auth_wf ex_auth /\ DecodeRewardAuthorization ex_auth_bytes = Ok ex_auth.
Proof.
  assert (auth_wf ex_auth) as Hwf by (unfold auth_wf; split_and!; simpl; [u64lia..|reflexivity]).
  split; [exact Hwf|]. apply (reward_authorization_roundtrip ex_auth ex_auth_bytes Hwf).
  vm_compute. reflexivity.
Defined.

Definition ex_priv : list byte := replicate 32 x07.
Definition ex_parent : Hash32 := copy_arr 32 [x03].
Definition ex_reward : Transaction :=
  match BuildAuthorizedRewardTx (H := toy_crypto) "addr" 500 7 ex_parent ex_priv with
  | Ok tx => tx | Err _ => emptyTx x00 end.
Definition ex_accepted : RewardAuthorization :=
  match ValidateAuthorizedRewardTx (H := toy_crypto) (Some ex_reward) 7 ex_parent ex_priv with
  | Ok a => a | Err _ => ex_auth end.

Lemma reward_accepted_once_witness :
  ra_Amount ex_accepted = 500 /\
  is_ok (ValidateAuthorizedRewardTx (H := toy_crypto) (Some ex_reward) 8 ex_parent ex_priv) = false.
Proof.
  split; [vm_compute; reflexivity|].
  assert (ValidateAuthorizedRewardTx (H := toy_crypto) (Some ex_reward) 7 ex_parent ex_priv = Ok ex_accepted) as Hv.
  { apply (bool_decide_unpack _). vm_compute. exact I. }
  destruct (reward_accepted_once (H := toy_crypto) _ _ _ _ _ Hv) as (_ & _ & _ & _ & _ & Hn).
  apply Hn. intros He. discriminate He.
Defined.

Lemma built_reward_accepted_witness :
  exists a, ValidateAuthorizedRewardTx (H := toy_crypto) (Some ex_reward) 7 ex_parent ex_priv = Ok a /\
    ra_Amount a = 500 /\ ra_RecipientSpendPub a = copy_arr 32 (bytes_of_string "addr") /\
    ra_RecipientViewPub a = zero_arr 32.
Proof.
  apply (built_reward_accepted (H := toy_crypto) "addr" 500 7 ex_parent ex_priv ex_priv ex_reward MainnetByte);
    [|lia|u64lia|u64lia|reflexivity|left|].
  - intros msg sig He. injection He as <-. split; reflexivity.
  - apply (bool_decide_unpack _). vm_compute. exact I.
Defined.

End Reward.
