(* ===== verification/Sale.v ===== *)
(** The token sale ledger of the [sale] package: authority-attested checkpoints
    ([accounting.go]), the purchase ledger over purchase commitments and over
    canonical sale transactions ([canonical.go]), the constant-size state the node
    persists ([state.go]) and the reconciliation of the sale allocation with the
    10-billion cap ([reconciliation.go], [net_allocation.go],
    [allocation_epoch.go]).

    A [*Ledger] is an [option Ledger]; its two maps are always allocated by the
    package.  The durable store of consumed identities is an argument of
    [Advance], as in the source. *)

From stdpp Require Import base gmap list strings.
From S2P Require Import Prelude Bytes Crypto Avm StakePayload Transaction.
Import Transaction.

Module Sale.

(** ** Data *)

Definition CapNAPRO : Z := 10000000000 * 100000000.

Record Attestation := mkAttestation { Validator : ValidatorPubKey; AttSignature : list byte }.

Record Checkpoint := mkCheckpoint {
  cp_Genesis : Hash32; cp_Network : NetworkByte; cp_Height : Z; cp_Parent : Hash32;
  SnapshotRoot : Hash32; HistoricIssued : Z; OtherReserved : Z; SaleRemaining : Z;
  SaleAuthority : ValidatorPubKey; Attestations : list Attestation
}.

Record Purchase := mkPurchase {
  pu_Genesis : Hash32; pu_Height : Z; pu_Parent : Hash32; OrderHash : Hash32;
  PaymentHash : Hash32; Recipient : string; pu_Amount : Z; pu_Signature : list byte
}.

Record Ledger := mkLedger {
  checkpoint : Checkpoint; l_height : Z; l_hash : Hash32; remaining : Z; sold : Z;
  seen : gset Hash32; paid : gset Hash32
}.

Record State := mkState {
  st_Checkpoint : Hash32; st_Height : Z; st_Hash : Hash32; Remaining : Z; Sold : Z
}.

Record NetAllocationBasis := mkNet { nb_Burned : Z; WalletNet : Z; WalletAccountingRoot : Hash32 }.

Record AllocationEpochBasis := mkEpochBasis {
  FundingHeight : Z; FundingHash : Hash32; eb_Burned : Z; Available : Z;
  ProtectedLPoDPrincipal : Z; LegacyHoldingsUnverified : bool
}.

Record Reconciliation := mkRec {
  NetAllocation : option NetAllocationBasis;
  AllocationEpoch : option AllocationEpochBasis;
  r_Genesis : Hash32; r_Parent : Hash32; LPoDCommitment : Hash32; OtherClaimsRoot : Hash32;
  r_HistoricIssued : Z; ValidatorReserved : Z; LPoDReserved : Z; GuardianReserved : Z;
  r_OtherReserved : Z
}.

#[export] Instance Attestation_eq_dec : EqDecision Attestation.
Proof. solve_decision. Defined.
#[export] Instance Checkpoint_eq_dec : EqDecision Checkpoint.
Proof. solve_decision. Defined.
#[export] Instance Ledger_eq_dec : EqDecision Ledger.
Proof. solve_decision. Defined.
#[export] Instance State_eq_dec : EqDecision State.
Proof. solve_decision. Defined.

Definition u64 (n : Z) : list byte := be_encode 8 n.

(** A public key of the right length that is not all zeros. *)
Definition nonzeroPub (key : ValidatorPubKey) : bool :=
  if negb (len_is key 32) then false else existsb (fun b => negb (bool_decide (b = x00))) key.

Section Sale.
Context `{Crypto}.

(** ** Checkpoints *)

Definition message (c : Checkpoint) : Hash32 :=
  HashBytes [bytes_of_string "aperod/sale/forward-checkpoint/authorization/v1";
    arr_list (cp_Genesis c); [cp_Network c]; u64 (cp_Height c); arr_list (cp_Parent c);
    arr_list (SnapshotRoot c); u64 (HistoricIssued c); u64 (OtherReserved c); u64 (SaleRemaining c);
    SaleAuthority c].

(** One key of the trusted set, one attestation. *)
Definition allow (allowed : gset (list byte)) (key : ValidatorPubKey) : result (gset (list byte)) :=
  reject negb (nonzeroPub key) || bool_decide (key ∈ allowed) with "sale: invalid trusted authority configuration" ;;
  Ok ({[key]} ∪ allowed).

Definition attest (c : Checkpoint) (allowed att : gset (list byte)) (a : Attestation) : result (gset (list byte)) :=
  reject negb (bool_decide (Validator a ∈ allowed)) || bool_decide (Validator a ∈ att) ||
         negb (pub_verify (Validator a) (message c) (AttSignature a))
    with "sale: forged, duplicate, or untrusted checkpoint attestation" ;;
  Ok ({[Validator a]} ∪ att).

Definition Verify (c : Checkpoint) (genesis parent : Hash32) (height : Z) (trusted : list ValidatorPubKey) : result () :=
  reject (height =? 0) || negb (cp_Height c =? height) || negb (bool_decide (cp_Parent c = parent)) ||
         bool_decide (parent = zeroHash) || negb (bool_decide (cp_Genesis c = genesis)) ||
         bool_decide (genesis = zeroHash) || bool_decide (SnapshotRoot c = zeroHash) ||
         negb (nonzeroPub (SaleAuthority c))
    with "sale: checkpoint is not bound to the canonical activation parent and authority" ;;
  reject negb (bool_decide (cp_Network c = MainnetByte)) && negb (bool_decide (cp_Network c = TestnetByte)) &&
         negb (bool_decide (cp_Network c = DevnetByte))
    with "sale: unsupported address network" ;;
  reject (SaleRemaining c =? 0) || (CapNAPRO <? HistoricIssued c) ||
         (CapNAPRO -w HistoricIssued c <? OtherReserved c) ||
         (CapNAPRO -w HistoricIssued c -w OtherReserved c <? SaleRemaining c)
    with "sale: declared nominal budget exceeds the 10B cap" ;;
  allowed ← foldM allow ∅ trusted;
  reject bool_decide (size allowed = 0%nat) with "sale: missing trusted authorities" ;;
  att ← foldM (attest c allowed) ∅ (Attestations c);
  reject Nat.leb (size att) (Nat.div (2 * size allowed) 3)
    with "sale: checkpoint requires greater than two-thirds trusted authority signatures" ;;
  Ok ().

(** ** The ledger *)

Definition purchase_Message (p : Purchase) : Hash32 :=
  HashBytes [bytes_of_string "aperod/sale/purchase/authorization/v1"; arr_list (pu_Genesis p);
    u64 (pu_Height p); arr_list (pu_Parent p); arr_list (OrderHash p); arr_list (PaymentHash p);
    u64 (pu_Amount p); bytes_of_string (Recipient p)].

Definition unattested (c : Checkpoint) : Checkpoint :=
  mkCheckpoint (cp_Genesis c) (cp_Network c) (cp_Height c) (cp_Parent c) (SnapshotRoot c)
    (HistoricIssued c) (OtherReserved c) (SaleRemaining c) (SaleAuthority c) [].

Definition Begin (c : Checkpoint) (genesis parent : Hash32) (height : Z) (trusted : list ValidatorPubKey) : result Ledger :=
  _ ← Verify c genesis parent height trusted;
  Ok (mkLedger (unattested c) (height -w 1) parent (SaleRemaining c) 0 ∅ ∅).

(** The two replay fences and the debit, the same in both loops but for the text
    of the last error. *)
Definition consume (short : string) (order payment : Hash32) (amount : Z) (next : Ledger) : result Ledger :=
  reject bool_decide (order ∈ seen next) with "sale: purchase order already consumed" ;;
  reject bool_decide (payment ∈ paid next) with "sale: payment already consumed" ;;
  reject (remaining next <? amount) || (MaxUint64 -w sold next <? amount) with short ;;
  Ok (mkLedger (checkpoint next) (l_height next) (l_hash next) (remaining next -w amount) (sold next +w amount)
        ({[order]} ∪ seen next) ({[payment]} ∪ paid next)).

(** The guard of both transitions and the copy they work on. *)
Definition successor (s : option Ledger) (height : Z) (parent blockHash : Hash32) : result Ledger :=
  need l from s else "sale: missing or noncanonical ledger parent" ;;
  reject (height =? 0) || negb (height =? l_height l +w 1) || negb (bool_decide (parent = l_hash l)) ||
         bool_decide (blockHash = zeroHash) || bool_decide (blockHash = parent)
    with "sale: missing or noncanonical ledger parent" ;;
  Ok (mkLedger (checkpoint l) height blockHash (remaining l) (sold l) (seen l) (paid l)).

Definition apply_purchase (height : Z) (parent : Hash32) (next : Ledger) (p : Purchase) : result Ledger :=
  let c := checkpoint next in
  reject negb (bool_decide (pu_Genesis p = cp_Genesis c)) || negb (pu_Height p =? height) ||
         negb (bool_decide (pu_Parent p = parent)) || bool_decide (OrderHash p = zeroHash) ||
         bool_decide (PaymentHash p = zeroHash) || (pu_Amount p =? 0) ||
         match DecodeAddress (Recipient p) with
         | Some (network, _, _) => negb (bool_decide (network = cp_Network c))
         | None => true
         end || negb (pub_verify (SaleAuthority c) (purchase_Message p) (pu_Signature p))
    with "sale: invalid signed purchase commitment" ;;
  consume "sale: insufficient remaining nominal allocation" (OrderHash p) (PaymentHash p) (pu_Amount p) next.

Definition ApplyAccountedPurchases (s : option Ledger) (height : Z) (parent blockHash : Hash32)
    (purchases : list Purchase) : result Ledger :=
  next ← successor s height parent blockHash;
  foldM (apply_purchase height parent) next purchases.

Definition apply_sale_tx (height : Z) (parent : Hash32) (next : Ledger) (otx : option Transaction) : result Ledger :=
  need tx from otx else "sale: nil authorized transaction" ;;
  a ← saleAuthorization tx;
  let c := checkpoint next in
  reject negb (bool_decide (sa_Genesis a = cp_Genesis c)) || negb (sa_Height a =? height) ||
         negb (bool_decide (sa_Parent a = parent)) ||
         negb (pub_verify (SaleAuthority c) (SaleSigningMessage tx) (arr_list (sa_Signature a)))
    with "sale: unauthorized output or activation context" ;;
  consume "sale: insufficient allocation" (sa_Order a) (sa_Payment a) (sa_Amount a) next.

Definition ApplyCanonicalTransactions (s : option Ledger) (height : Z) (parent blockHash : Hash32)
    (transactions : list (option Transaction)) : result Ledger :=
  next ← successor s height parent blockHash;
  foldM (apply_sale_tx height parent) next transactions.

Definition Seen (s : option Ledger) (order : Hash32) : bool :=
  match s with Some l => bool_decide (order ∈ seen l) | None => false end.

(** ** The persisted state *)

Definition InitialState (c : Checkpoint) : State :=
  mkState (message c) (cp_Height c -w 1) (cp_Parent c) (SaleRemaining c) 0.

(** The type of the [consumed] callback, and one query of it. *)
Abbreviation Consumed := (byte -> Hash32 -> result bool).
Definition check_fence (consumed : Consumed) (kind : byte) (id : Hash32) : result () :=
  used ← consumed kind id;
  reject (used : bool) with "sale: durable replay fence consumed" ;;
  Ok ().

Definition check_fences (consumed : Consumed) (_ : ()) (otx : option Transaction) : result () :=
  need tx from otx else "sale: noncanonical transaction structure" ;;
  a ← saleAuthorization tx;
  _ ← check_fence consumed x6f (sa_Order a);
  check_fence consumed x70 (sa_Payment a).

Definition Advance (s : State) (c : Checkpoint) (height : Z) (parent hash : Hash32)
    (txs : list (option Transaction)) (oconsumed : option Consumed) : result State :=
  need consumed from oconsumed else "sale: inconsistent canonical state" ;;
  reject negb (bool_decide (st_Checkpoint s = message c)) || negb (st_Height s +w 1 =? height) ||
         (height <? cp_Height c) || negb (bool_decide (st_Hash s = parent)) || bool_decide (hash = zeroHash) ||
         bool_decide (hash = parent) || (SaleRemaining c <? Remaining s) ||
         negb (Sold s =? SaleRemaining c -w Remaining s)
    with "sale: inconsistent canonical state" ;;
  let ledger := mkLedger c (st_Height s) (st_Hash s) (Remaining s) (Sold s) ∅ ∅ in
  _ ← foldM (check_fences consumed) () txs;
  next ← ApplyCanonicalTransactions (Some ledger) height parent hash txs;
  Ok (mkState (st_Checkpoint s) height hash (remaining next) (sold next)).

(** ** Reconciliation *)

Definition NetAllocation_Consumed (n : NetAllocationBasis) : result Z :=
  reject bool_decide (WalletAccountingRoot n = zeroHash) || (CapNAPRO <? nb_Burned n) ||
         (CapNAPRO -w nb_Burned n <? WalletNet n)
    with "sale: attested post-burn wallet accounting required" ;;
  Ok (nb_Burned n +w WalletNet n).

Definition NetAllocation_Digest (n : NetAllocationBasis) : Hash32 :=
  HashBytes [bytes_of_string "aperod/sale/post-burn-wallet-basis/v2"; u64 (nb_Burned n); u64 (WalletNet n);
    arr_list (WalletAccountingRoot n)].

Definition AllocationEpoch_Validate (e : AllocationEpochBasis) : result () :=
  reject bool_decide (FundingHash e = zeroHash) || negb (LegacyHoldingsUnverified e) || (Available e =? 0) ||
         (CapNAPRO <? Available e) || (CapNAPRO <? eb_Burned e) || (CapNAPRO <? ProtectedLPoDPrincipal e)
    with "sale: explicit nominal LPoD epoch and unverified legacy holdings required" ;;
  Ok ().

Definition boolByte (b : bool) : byte := if b then x01 else x00.

Definition AllocationEpoch_Digest (e : AllocationEpochBasis) : Hash32 :=
  HashBytes [bytes_of_string "aperod/sale/operator-allocation-epoch/legacy-holdings-unverified/v1";
    u64 (FundingHeight e); arr_list (FundingHash e); u64 (eb_Burned e); u64 (Available e);
    u64 (ProtectedLPoDPrincipal e); [boolByte (LegacyHoldingsUnverified e)]].

Definition Digest (r : Reconciliation) : Hash32 :=
  let legacy := HashBytes [bytes_of_string "aperod/sale/disjoint-forward-reconciliation/v1";
    arr_list (r_Genesis r); arr_list (r_Parent r); arr_list (LPoDCommitment r); arr_list (OtherClaimsRoot r);
    u64 (r_HistoricIssued r); u64 (ValidatorReserved r); u64 (LPoDReserved r); u64 (GuardianReserved r);
    u64 (r_OtherReserved r)] in
  match AllocationEpoch r, NetAllocation r with
  | Some e, Some n => HashBytes [bytes_of_string "aperod/sale/invalid-mixed-allocation-bases/v1"; arr_list legacy;
      arr_list (AllocationEpoch_Digest e); arr_list (NetAllocation_Digest n)]
  | Some e, None => HashBytes [bytes_of_string "aperod/sale/operator-epoch-reconciliation/v3"; arr_list legacy;
      arr_list (AllocationEpoch_Digest e)]
  | None, None => legacy
  | None, Some n => HashBytes [bytes_of_string "aperod/sale/disjoint-forward-reconciliation/v2"; arr_list legacy;
      arr_list (NetAllocation_Digest n)]
  end.

(** One claim subtracted from what is left of the cap. *)
Definition claim_step (rem claim : Z) : result Z :=
  reject rem <? claim with "sale: overlapping declarations or reserves exceed the 10B cap" ;;
  Ok (rem -w claim).

Definition claims (r : Reconciliation) : list Z :=
  [r_HistoricIssued r; ValidatorReserved r; LPoDReserved r; GuardianReserved r; r_OtherReserved r].

Definition Unassigned (r : Reconciliation) : result (Z * Z) :=
  _ ← match AllocationEpoch r with
      | Some e =>
          reject bool_decide (is_Some (NetAllocation r)) with "sale: mixed allocation bases" ;;
          _ ← AllocationEpoch_Validate e;
          reject negb (r_HistoricIssued r =? eb_Burned e) with "sale: nominal epoch burn counter mismatch" ;;
          Ok ()
      | None => Ok ()
      end;
  _ ← match NetAllocation r with
      | Some n =>
          consumed ← NetAllocation_Consumed n;
          reject negb (consumed =? r_HistoricIssued r) with "sale: post-burn consumed allocation mismatch" ;;
          Ok ()
      | None => Ok ()
      end;
  rem ← foldM claim_step CapNAPRO (claims r);
  reject match AllocationEpoch r with Some e => negb (rem =? Available e) | None => false end
    with "sale: declared available allocation does not reconcile nominal reserves" ;;
  Ok (rem, CapNAPRO -w rem -w r_HistoricIssued r).

(** The issuance a basis declares, after its own checks. *)
Definition declared_by_epoch (c : Checkpoint) (r : Reconciliation) (height declared : Z) : result Z :=
  match AllocationEpoch r with
  | Some e =>
      reject bool_decide (is_Some (NetAllocation r)) with "sale: mixed allocation bases" ;;
      _ ← AllocationEpoch_Validate e;
      reject height <=? FundingHeight e with "sale: LPoD epoch is not before sale activation" ;;
      reject negb (SaleRemaining c =? Available e) with "sale: epoch checkpoint must open the current available allocation" ;;
      Ok (eb_Burned e)
  | None => Ok declared
  end.

Definition VerifyReconciledCheckpoint (c : Checkpoint) (r : Reconciliation) (genesis parent canonicalLPoD : Hash32)
    (height lpodDeclaredIssued : Z) (trusted : list ValidatorPubKey) : result () :=
  declared ← declared_by_epoch c r height lpodDeclaredIssued;
  declared ← match NetAllocation r with Some n => NetAllocation_Consumed n | None => Ok declared end;
  reject bool_decide (canonicalLPoD = zeroHash) || negb (bool_decide (LPoDCommitment r = canonicalLPoD)) ||
         bool_decide (OtherClaimsRoot r = zeroHash) || negb (bool_decide (r_Genesis r = genesis)) ||
         negb (bool_decide (r_Parent r = parent)) || (r_HistoricIssued r <? declared) ||
         negb (bool_decide (SnapshotRoot c = Digest r))
    with "sale: reconciliation is not bound to the canonical LPoD parent and declared issuance" ;;
  ar ← Unassigned r;
  reject negb (HistoricIssued c =? r_HistoricIssued r) || negb (OtherReserved c =? snd ar) ||
         (fst ar <? SaleRemaining c)
    with "sale: checkpoint does not reconcile its disjoint allocation claims" ;;
  Verify c genesis parent height trusted.

End Sale.

(** ** Specification of a verified checkpoint *)

Definition u64_fields (c : Checkpoint) : Prop :=
  is_u64 (cp_Height c) /\ is_u64 (HistoricIssued c) /\ is_u64 (OtherReserved c) /\ is_u64 (SaleRemaining c).

Record authorized `{Crypto} (c : Checkpoint) (genesis parent : Hash32) (height : Z)
    (trusted : list ValidatorPubKey) : Prop := {
  au_binding : cp_Height c = height /\ cp_Parent c = parent /\ cp_Genesis c = genesis;
  au_named : height <> 0 /\ parent <> zeroHash /\ genesis <> zeroHash /\ SnapshotRoot c <> zeroHash /\
    nonzeroPub (SaleAuthority c) = true;
  au_network : cp_Network c ∈ [MainnetByte; TestnetByte; DevnetByte];
  au_budget : 0 < SaleRemaining c /\ HistoricIssued c + OtherReserved c + SaleRemaining c <= CapNAPRO;
  au_trusted : NoDup trusted /\ Forall (fun k => nonzeroPub k = true) trusted;
  au_signers : NoDup (Validator <$> Attestations c) /\
    Forall (fun a => Validator a ∈ trusted /\ pub_verify (Validator a) (message c) (AttSignature a) = true)
      (Attestations c);
  au_quorum : (2 * length trusted < 3 * length (Attestations c))%nat
}.

(** ** Verification of checkpoints *)

Section Quorum.
Context `{Crypto}.

Lemma size_list_to_set_nodup (l : list (list byte)) : NoDup l -> size (list_to_set l : gset (list byte)) = length l.
Proof. apply size_list_to_set. Qed.

Lemma allow_spec (trusted : list ValidatorPubKey) : forall (s0 s : gset (list byte)),
  foldM allow s0 trusted = Ok s <->
  NoDup trusted /\ Forall (fun k => nonzeroPub k = true) trusted /\ (forall k, k ∈ trusted -> k ∉ s0) /\
  s = list_to_set trusted ∪ s0.
Proof.
  induction trusted as [|k ks IH]; intros s0 s; cbn [foldM].
  - rewrite list_to_set_nil, (left_id_L ∅ (∪)). split; [intros E; apply Ok_inj in E as ->|intros (_ & _ & _ & ->); done].
    split_and!; [constructor|constructor|by intros k Hk; apply not_elem_of_nil in Hk|done].
  - rewrite bind_ok. unfold allow at 1. setoid_rewrite reject_ok. split.
    + intros (s1 & [Hc Heq] & Hf). apply Ok_inj in Heq as <-. apply IH in Hf as (Hn & Hz & Hd & ->).
      apply orb_false_iff in Hc as [Hk1 Hk2]. zbool. rewrite list.NoDup_cons, list.Forall_cons.
      split_and!; try done.
      * intros Hin. specialize (Hd _ Hin). set_solver.
      * intros k' Hk'. apply elem_of_cons in Hk' as [->|Hk']; [done|]. specialize (Hd _ Hk'). set_solver.
      * rewrite list_to_set_cons. set_solver.
    + intros (Hn & Hz & Hd & ->). rewrite list.NoDup_cons in Hn. rewrite list.Forall_cons in Hz. destruct Hn, Hz.
      exists ({[k]} ∪ s0). split.
      * split; [|done]. rewrite bool_decide_eq_false_2 by (apply Hd; left). rewrite orb_false_r. by apply negb_false_iff.
      * apply IH. split_and!; try done.
        -- intros k' Hk' Hin. apply elem_of_union in Hin as [Hin|Hin]; [|by apply (Hd k'); [right|]].
           apply elem_of_singleton in Hin as ->. done.
        -- rewrite list_to_set_cons. set_solver.
Qed.

Lemma attest_spec (c : Checkpoint) (allowed : gset (list byte)) (atts : list Attestation) :
  forall (s0 s : gset (list byte)),
  foldM (attest c allowed) s0 atts = Ok s <->
  NoDup (Validator <$> atts) /\
  Forall (fun a => Validator a ∈ allowed /\ pub_verify (Validator a) (message c) (AttSignature a) = true) atts /\
  (forall a, a ∈ atts -> Validator a ∉ s0) /\ s = list_to_set (Validator <$> atts) ∪ s0.
Proof.
  induction atts as [|a l IH]; intros s0 s; cbn [foldM].
  - cbn [fmap list_fmap]. rewrite list_to_set_nil, (left_id_L ∅ (∪)).
    split; [intros E; apply Ok_inj in E as ->|intros (_ & _ & _ & ->); done].
    split_and!; [constructor|constructor|by intros k Hk; apply not_elem_of_nil in Hk|done].
  - rewrite bind_ok. unfold attest at 1. setoid_rewrite reject_ok. rewrite fmap_cons, list_to_set_cons. split.
    + intros (s1 & [Hc Heq] & Hf). apply Ok_inj in Heq as <-. apply IH in Hf as (Hn & Hz & Hd & ->).
      apply orb_false_iff in Hc as [Hc ?]. apply orb_false_iff in Hc as [? ?]. zbool.
      rewrite list.NoDup_cons, list.Forall_cons. split_and!; try done.
      * intros Hin. apply list_elem_of_fmap in Hin as (a' & He & Hin). specialize (Hd _ Hin). set_solver.
      * intros a' Ha'. apply elem_of_cons in Ha' as [->|Ha']; [done|]. specialize (Hd _ Ha'). set_solver.
      * set_solver.
    + intros (Hn & Hz & Hd & ->). rewrite list.NoDup_cons in Hn. rewrite list.Forall_cons in Hz.
      destruct Hn as [Hna Hn], Hz as [[Hin Hv] Hz].
      exists ({[Validator a]} ∪ s0). split.
      * split; [|done]. rewrite bool_decide_eq_true_2 by done.
        rewrite bool_decide_eq_false_2 by (apply Hd; left). by rewrite Hv.
      * apply IH. split_and!; try done.
        -- intros a' Ha' Hin'. apply elem_of_union in Hin' as [Hin'|Hin']; [|by apply (Hd a'); [right|]].
           apply elem_of_singleton in Hin'. apply Hna. rewrite <- Hin'. by apply list_elem_of_fmap_2.
        -- set_solver.
Qed.

(** The budget test of the source, without its subtractions. *)
Lemma budget_spec (c : Checkpoint) :
  u64_fields c ->
  (SaleRemaining c =? 0) || (CapNAPRO <? HistoricIssued c) || (CapNAPRO -w HistoricIssued c <? OtherReserved c) ||
  (CapNAPRO -w HistoricIssued c -w OtherReserved c <? SaleRemaining c) = false <->
  0 < SaleRemaining c /\ HistoricIssued c + OtherReserved c + SaleRemaining c <= CapNAPRO.
Proof.
  intros (_ & Hh & Ho & Hs). unfold CapNAPRO. rewrite !orb_false_iff, Z.eqb_neq, !Z.ltb_ge. split.
  - intros [[[H0 H1] H2] H3]. rewrite wrap64_small in H2 by u64lia.
    rewrite (wrap64_small (_ - HistoricIssued c)) in H3 by u64lia. rewrite wrap64_small in H3; u64lia.
  - intros [H0 H1]. rewrite (wrap64_small (_ - HistoricIssued c)) by u64lia. rewrite wrap64_small; u64lia.
Qed.

Lemma quorum_spec (a t : nat) : Nat.leb a (Nat.div (2 * t) 3) = false <-> (2 * t < 3 * a)%nat.
Proof. rewrite Nat.leb_gt. assert (Hd := Nat.div_mod_eq (2 * t) 3). assert (Hm := Nat.mod_upper_bound (2 * t) 3). lia. Qed.

Lemma verify_authorized (c : Checkpoint) (genesis parent : Hash32) (height : Z) (trusted : list ValidatorPubKey) :
  u64_fields c -> Verify c genesis parent height trusted = Ok () <-> authorized c genesis parent height trusted.
Proof.
  intros Hu. unfold Verify. rewrite !reject_ok, budget_spec by done. split.
  - intros (Hbind & Hnet & Hbud & Hrest). apply bind_ok in Hrest as (allowed & Hal & Hrest).
    apply reject_ok in Hrest as [_ Hrest]. apply bind_ok in Hrest as (att & Hat & Hrest).
    apply reject_ok in Hrest as [Hq _]. apply allow_spec in Hal as (Hn & Hz & _ & ->).
    apply attest_spec in Hat as (Hna & Hs & _ & ->). rewrite !(right_id_L ∅ (∪)) in *.
    rewrite !size_list_to_set_nodup, length_fmap, quorum_spec in Hq by done. zbool.
    constructor; try done.
    + apply andb_false_iff in Hnet as [Hnet|Hnet]; [apply andb_false_iff in Hnet as [Hnet|Hnet]|]; zbool; set_solver.
    + split; [done|]. eapply list.Forall_impl; [exact Hs|]. intros a [Ha Hv]. by rewrite elem_of_list_to_set in Ha.
  - intros [(Hh & Hp & Hg) (N0 & N1 & N2 & N3 & N4) Hnet Hbud [Hn Hz] [Hna Hs] Hq].
    assert (H0 : (height =? 0) = false) by by apply Z.eqb_neq.
    split; [|split; [|split; [exact Hbud|]]].
    + rewrite H0, Hh, Z.eqb_refl, (bool_decide_eq_true_2 (cp_Parent c = parent)),
        (bool_decide_eq_true_2 (cp_Genesis c = genesis)), (bool_decide_eq_false_2 (parent = zeroHash)),
        (bool_decide_eq_false_2 (genesis = zeroHash)), (bool_decide_eq_false_2 (SnapshotRoot c = zeroHash)), N4 by done.
      done.
    + repeat (apply elem_of_cons in Hnet as [->|Hnet]; [done|]). by apply not_elem_of_nil in Hnet.
    + apply bind_ok. exists (list_to_set trusted). split.
      { apply allow_spec. rewrite (right_id_L ∅ (∪)). split_and!; [done|done|set_solver|done]. }
      rewrite size_list_to_set_nodup by done. apply reject_ok. split.
      { apply bool_decide_eq_false_2. intros Hl. destruct trusted as [|]; [|done].
        destruct (Attestations c) as [|a l]; [simpl in Hq; lia|]. apply list.Forall_cons in Hs as [[Hs _] _].
        by apply not_elem_of_nil in Hs. }
      apply bind_ok. exists (list_to_set (Validator <$> Attestations c)). split.
      { apply attest_spec. rewrite (right_id_L ∅ (∪)). split_and!; [done| |set_solver|done].
        eapply list.Forall_impl; [exact Hs|]. intros a [Ha Hv]. by rewrite elem_of_list_to_set. }
      rewrite size_list_to_set_nodup, length_fmap by done. apply reject_ok. split; [|done]. by apply quorum_spec.
Qed.

(** [Verify] accepts a checkpoint exactly when it is bound to the activation
    height, parent and genesis, its budget fits under the cap, the trusted keys are
    distinct and well formed, and more than two thirds of them signed its message,
    each once. *)
Theorem checkpoint_verified (c : Checkpoint) (genesis parent : Hash32) (height : Z) (trusted : list ValidatorPubKey) :
  u64_fields c -> Verify c genesis parent height trusted = Ok () <-> authorized c genesis parent height trusted.
Proof. apply verify_authorized. Qed.

(** Two checkpoints verified under the same trusted set, even at different
    parents, have more than a third of the trusted keys as common signers: without
    that many double signers there is one checkpoint. *)
Theorem quorums_intersect (c1 c2 : Checkpoint) (g1 g2 p1 p2 : Hash32) (h1 h2 : Z) (trusted : list ValidatorPubKey) :
  u64_fields c1 -> u64_fields c2 -> Verify c1 g1 p1 h1 trusted = Ok () -> Verify c2 g2 p2 h2 trusted = Ok () ->
  exists signers : list ValidatorPubKey, NoDup signers /\ (length trusted < 3 * length signers)%nat /\
    forall k, k ∈ signers -> k ∈ trusted /\
      exists s1 s2, pub_verify k (message c1) s1 = true /\ pub_verify k (message c2) s2 = true.
Proof.
  intros U1 U2 V1 V2. apply verify_authorized in V1 as [_ _ _ _ _ [N1 S1] Q1]; [|done].
  apply verify_authorized in V2 as [_ _ _ _ [Nt _] [N2 S2] Q2]; [|done].
  set (A := list_to_set (Validator <$> Attestations c1) : gset (list byte)).
  set (B := list_to_set (Validator <$> Attestations c2) : gset (list byte)).
  set (T := list_to_set trusted : gset (list byte)).
  rewrite list.Forall_forall in S1, S2.
  assert (HA : A ⊆ T).
  { intros k Hk. apply elem_of_list_to_set, list_elem_of_fmap in Hk as (a & -> & Ha). apply elem_of_list_to_set. by apply S1. }
  assert (HB : B ⊆ T).
  { intros k Hk. apply elem_of_list_to_set, list_elem_of_fmap in Hk as (a & -> & Ha). apply elem_of_list_to_set. by apply S2. }
  assert (Hsz : (size A + size B <= size (A ∩ B) + size T)%nat).
  { assert (Hd := size_union (A ∖ B) B ltac:(set_solver)). assert (Hi := size_union (A ∩ B) (A ∖ B) ltac:(set_solver)).
    replace (A ∩ B ∪ A ∖ B) with A in Hi by (apply set_eq; intros k; destruct (decide (k ∈ B)); set_solver).
    assert (size (A ∖ B ∪ B) <= size T)%nat by (apply subseteq_size; set_solver). lia. }
  unfold A, B, T in Hsz. rewrite !size_list_to_set_nodup, !length_fmap in Hsz by done.
  exists (elements (A ∩ B)). split_and!; [apply NoDup_elements| |].
  - change (length (elements (A ∩ B))) with (size (A ∩ B)). unfold A, B. lia.
  - intros k Hk. apply elem_of_elements, elem_of_intersection in Hk as [K1 K2].
    apply elem_of_list_to_set, list_elem_of_fmap in K1 as (a & -> & Ha).
    apply elem_of_list_to_set, list_elem_of_fmap in K2 as (b & E & Hb).
    destruct (S1 _ Ha) as [Ht Hv]. destruct (S2 _ Hb) as [_ Hv']. split; [done|]. rewrite E in *. eauto.
Qed.

End Quorum.

(** ** Runs of the ledger *)

(** What a purchase takes: its order, its payment and the amount. *)
Record Entry := mkEntry { e_Order : Hash32; e_Payment : Hash32; e_Amount : Z }.

Definition purchase_entry (p : Purchase) : Entry := mkEntry (OrderHash p) (PaymentHash p) (pu_Amount p).

Definition tx_entry `{Crypto} (otx : option Transaction) : option Entry :=
  tx ← otx;
  match saleAuthorization tx with
  | Ok a => Some (mkEntry (sa_Order a) (sa_Payment a) (sa_Amount a))
  | Err _ => None
  end.

(** [runs l0 es l]: from [l0] some sequence of accepted blocks, of either kind,
    consumes the entries [es] in order and ends in [l]. *)
Inductive runs `{Crypto} (l0 : Ledger) : list Entry -> Ledger -> Prop :=
| run_begin : runs l0 [] l0
| run_purchases es l l' height parent blockHash ps :
    runs l0 es l -> Forall (fun p => is_u64 (pu_Amount p)) ps ->
    ApplyAccountedPurchases (Some l) height parent blockHash ps = Ok l' ->
    runs l0 (es ++ (purchase_entry <$> ps)) l'
| run_transactions es l l' height parent blockHash txs :
    runs l0 es l ->
    ApplyCanonicalTransactions (Some l) height parent blockHash txs = Ok l' ->
    runs l0 (es ++ omap tx_entry txs) l'.

(** The ledger [l] under a budget [total] after consuming [es]. *)
Record accounts (total : Z) (es : list Entry) (l : Ledger) : Prop := {
  ac_u64 : is_u64 total /\ 0 <= remaining l /\ 0 <= sold l;
  ac_total : remaining l + sold l = total;
  ac_sold : sold l = sumZ e_Amount es;
  ac_orders : NoDup (e_Order <$> es) /\ seen l = list_to_set (e_Order <$> es);
  ac_payments : NoDup (e_Payment <$> es) /\ paid l = list_to_set (e_Payment <$> es)
}.

Section Runs.
Context `{Crypto}.

Lemma sale_amount_u64 (tx : Transaction) (a : SaleAuthorization) :
  saleAuthorization tx = Ok a -> is_u64 (sa_Amount a).
Proof.
  unfold saleAuthorization. destruct (Outputs tx) as [|out [|? ?]]; try discriminate. intros Ha.
  apply reject_ok in Ha as [H1 Ha]. apply reject_ok in Ha as [_ Ha]. apply reject_ok in Ha as [_ Ha].
  apply reject_ok in Ha as [_ Ha]. apply Ok_inj in Ha as <-. zbool. unfold len_is in *. zbool.
  unfold saleExtraSize in *. apply be_decode8_u64. rewrite slice_length; lia.
Qed.

(** An accepted debit: the fences were open and nothing wrapped. *)
Lemma consume_ok (short : string) (order payment : Hash32) (amount total : Z) (es : list Entry) (l l' : Ledger) :
  is_u64 amount -> accounts total es l -> consume short order payment amount l = Ok l' ->
  checkpoint l' = checkpoint l /\ l_height l' = l_height l /\ l_hash l' = l_hash l /\
  accounts total (es ++ [mkEntry order payment amount]) l'.
Proof.
  intros Ha [(Hu & Hr & Hs) Ht Hso [No Eo] [Np Ep]] Hc. unfold consume in Hc.
  apply reject_ok in Hc as [H1 Hc]. apply reject_ok in Hc as [H2 Hc]. apply reject_ok in Hc as [H3 Hc].
  apply Ok_inj in Hc as <-. zbool. simpl. split_and!; [done..|].
  rewrite Eo, elem_of_list_to_set in H1. rewrite Ep, elem_of_list_to_set in H2.
  assert (Hw1 : remaining l -w amount = remaining l - amount) by (apply wrap64_small; u64lia).
  assert (Hw2 : sold l +w amount = sold l + amount) by (apply wrap64_small; u64lia).
  constructor; cbn [remaining sold seen paid checkpoint]; rewrite ?Hw1, ?Hw2; try u64lia.
  - rewrite sumZ_app. simpl. lia.
  - rewrite fmap_app, list_to_set_app_L. simpl. split; [|set_solver].
    apply list.NoDup_app. split_and!; [done|set_solver|apply NoDup_singleton].
  - rewrite fmap_app, list_to_set_app_L. simpl. split; [|set_solver].
    apply list.NoDup_app. split_and!; [done|set_solver|apply NoDup_singleton].
Qed.

Lemma successor_ok (l l1 : Ledger) (height : Z) (parent blockHash : Hash32) :
  successor (Some l) height parent blockHash = Ok l1 ->
  (height <> 0 /\ height = l_height l +w 1 /\ parent = l_hash l /\ blockHash <> zeroHash /\ blockHash <> parent) /\
  l1 = mkLedger (checkpoint l) height blockHash (remaining l) (sold l) (seen l) (paid l).
Proof. intros Hs. unfold successor in Hs. apply reject_ok in Hs as [Hc Hs]. apply Ok_inj in Hs as <-. by zbool. Qed.

Lemma accounts_move total es l c h x :
  accounts total es l -> accounts total es (mkLedger c h x (remaining l) (sold l) (seen l) (paid l)).
Proof. intros [? ? ? ? ?]. by constructor. Qed.

Lemma purchases_account total height parent ps : forall es l l',
  Forall (fun p => is_u64 (pu_Amount p)) ps -> accounts total es l ->
  foldM (apply_purchase height parent) l ps = Ok l' -> accounts total (es ++ (purchase_entry <$> ps)) l'.
Proof.
  induction ps as [|p ps IH]; intros es l l' Hu Ha Hf; simpl in Hf.
  - apply Ok_inj in Hf as <-. by rewrite app_nil_r.
  - apply bind_ok in Hf as (l1 & H1 & Hf). apply list.Forall_cons in Hu as [Hp Hu].
    unfold apply_purchase in H1. apply reject_ok in H1 as [_ H1].
    eapply consume_ok in H1 as (_ & _ & _ & H1); [|done..].
    rewrite fmap_cons, cons_middle, app_assoc. by eapply IH.
Qed.

Lemma sale_tx_ok height parent (l l' : Ledger) (otx : option Transaction) :
  apply_sale_tx height parent l otx = Ok l' ->
  exists tx a, otx = Some tx /\ saleAuthorization tx = Ok a /\
    consume "sale: insufficient allocation" (sa_Order a) (sa_Payment a) (sa_Amount a) l = Ok l'.
Proof.
  unfold apply_sale_tx. destruct otx as [tx|]; [|discriminate]. intros Hx.
  apply bind_ok in Hx as (a & Ha & Hx). apply reject_ok in Hx as [_ Hx]. eauto.
Qed.

Lemma transactions_account total height parent txs : forall es l l',
  accounts total es l -> foldM (apply_sale_tx height parent) l txs = Ok l' ->
  accounts total (es ++ omap tx_entry txs) l' /\ length (omap tx_entry txs) = length txs.
Proof.
  induction txs as [|otx txs IH]; intros es l l' Ha Hf; simpl in Hf.
  - apply Ok_inj in Hf as <-. by rewrite app_nil_r.
  - apply bind_ok in Hf as (l1 & H1 & Hf). apply sale_tx_ok in H1 as (tx & a & -> & Hsa & H1).
    assert (Hau := sale_amount_u64 _ _ Hsa). eapply consume_ok in H1 as (_ & _ & _ & H1); [|done..].
    destruct (IH _ _ _ H1 Hf) as [Hacc Hlen].
    assert (He : tx_entry (Some tx) = Some (mkEntry (sa_Order a) (sa_Payment a) (sa_Amount a)))
      by (unfold tx_entry; cbn [mbind option_bind]; by rewrite Hsa).
    cbn [omap list_omap]. rewrite He, cons_middle, app_assoc. split; [done|]. cbn [app length]. by rewrite Hlen.
Qed.

Lemma runs_account total l0 es l :
  accounts total [] l0 -> runs l0 es l -> accounts total es l.
Proof.
  intros H0. induction 1 as [|es l l' h p bh ps _ IH Hu Ha|es l l' h p bh txs _ IH Ha]; [done| |].
  - unfold ApplyAccountedPurchases in Ha. apply bind_ok in Ha as (l1 & Hs & Ha).
    apply successor_ok in Hs as [_ ->]. eapply purchases_account; [done| |done]. by apply accounts_move.
  - unfold ApplyCanonicalTransactions in Ha. apply bind_ok in Ha as (l1 & Hs & Ha).
    apply successor_ok in Hs as [_ ->]. eapply transactions_account; [|done]. by apply accounts_move.
Qed.

Lemma begin_accounts c genesis parent height trusted l0 :
  u64_fields c -> Begin c genesis parent height trusted = Ok l0 ->
  authorized c genesis parent height trusted /\ accounts (SaleRemaining c) [] l0 /\
  l0 = mkLedger (unattested c) (height -w 1) parent (SaleRemaining c) 0 ∅ ∅.
Proof.
  intros Hu Hb. unfold Begin in Hb. apply bind_ok in Hb as ([] & Hv & Hb). apply Ok_inj in Hb as <-.
  assert (Hu' := Hu). destruct Hu' as (_ & _ & _ & Hs). split_and!; [by apply verify_authorized| |done].
  constructor; simpl; try done; [u64lia|lia|split; [constructor|done]|split; [constructor|done]].
Qed.

(** C19: over any sequence of blocks the ledger accepts after a verified checkpoint,
    what remains and what was sold add up to the opened allocation, what was sold is
    the sum of the accepted purchases and, with the issued and reserved amounts, stays
    under the cap; no order and no payment is consumed twice, and the fences hold
    exactly what was consumed. *)
Theorem sale_conserves (c : Checkpoint) (genesis parent : Hash32) (height : Z) (trusted : list ValidatorPubKey)
    (l0 l : Ledger) (es : list Entry) :
  u64_fields c -> Begin c genesis parent height trusted = Ok l0 -> runs l0 es l ->
  remaining l + sold l = SaleRemaining c /\ sold l = sumZ e_Amount es /\ 0 <= remaining l /\
  HistoricIssued c + OtherReserved c + sold l <= CapNAPRO /\
  NoDup (e_Order <$> es) /\ NoDup (e_Payment <$> es) /\
  (forall order, Seen (Some l) order = true <-> order ∈ e_Order <$> es).
Proof.
  intros Hu Hb Hr. destruct (begin_accounts _ _ _ _ _ _ Hu Hb) as (Hau & H0 & _).
  destruct (runs_account _ _ _ _ H0 Hr) as [(_ & Hrem & _) Ht Hs [No Eo] [Np _]].
  destruct (au_budget _ _ _ _ _ Hau) as [_ Hcap]. split_and!; try done; [lia|].
  intros order. unfold Seen. rewrite bool_decide_eq_true, Eo. apply elem_of_list_to_set.
Qed.

End Runs.

(** ** The persisted state implements the ledger *)

(** The durable fences: the orders and the payments committed with earlier blocks. *)
Record Fences := mkFences { orders : gset Hash32; payments : gset Hash32 }.

(** The callback that looks them up. *)
Definition fences_consumed (f : Fences) (kind : byte) (id : Hash32) : result bool :=
  Ok (if bool_decide (kind = x6f) then bool_decide (id ∈ orders f) else bool_decide (id ∈ payments f)).

(** The state and the fences stand for a ledger under the checkpoint [c]. *)
Record represents `{Crypto} (c : Checkpoint) (s : State) (f : Fences) (l : Ledger) : Prop := {
  rp_checkpoint : st_Checkpoint s = message c /\ checkpoint l = unattested c;
  rp_tip : st_Height s = l_height l /\ st_Hash s = l_hash l;
  rp_amounts : Remaining s = remaining l /\ Sold s = sold l;
  rp_fences : orders f = seen l /\ payments f = paid l;
  rp_heights : is_u64 (l_height l) /\ cp_Height c <= l_height l + 1;
  rp_total : is_u64 (SaleRemaining c) /\ 0 <= remaining l /\ 0 <= sold l /\ remaining l + sold l = SaleRemaining c
}.

(** The whole ledger, from the ledger of one block that starts from empty fences. *)
Definition merge (f : Fences) (l : Ledger) : Ledger :=
  mkLedger (unattested (checkpoint l)) (l_height l) (l_hash l) (remaining l) (sold l)
    (orders f ∪ seen l) (payments f ∪ paid l).

Section Simulation.
Context `{Crypto}.

Lemma message_unattested (c : Checkpoint) : message (unattested c) = message c.
Proof. done. Qed.

Lemma check_fences_ok (f : Fences) (tx : Transaction) (a : SaleAuthorization) :
  saleAuthorization tx = Ok a ->
  check_fences (fences_consumed f) () (Some tx) = Ok () <-> (sa_Order a ∉ orders f) /\ (sa_Payment a ∉ payments f).
Proof.
  intros Ha. unfold check_fences. rewrite Ha. unfold check_fence, fences_consumed. cbn [mbind result_bind].
  change (bool_decide (x6f = x6f)) with true. change (bool_decide (x70 = x6f)) with false. cbv iota.
  do 2 case_bool_decide; cbn [mbind result_bind]; naive_solver.
Qed.

Lemma consume_iff (short : string) (o p : Hash32) (amt : Z) (l l' : Ledger) :
  consume short o p amt l = Ok l' <->
  (o ∉ seen l) /\ (p ∉ paid l) /\ (remaining l <? amt) || (MaxUint64 -w sold l <? amt) = false /\
  l' = mkLedger (checkpoint l) (l_height l) (l_hash l) (remaining l -w amt) (sold l +w amt)
         ({[o]} ∪ seen l) ({[p]} ∪ paid l).
Proof.
  unfold consume. rewrite !reject_ok, !bool_decide_eq_false. split.
  - intros (? & ? & ? & E). by apply Ok_inj in E as <-.
  - by intros (? & ? & ? & ->).
Qed.

(** A debit against the whole ledger is a query of the durable fences and a debit
    against the ledger of the block. *)
Lemma consume_split (f : Fences) (short : string) (o p : Hash32) (amt : Z) (l l' : Ledger) :
  consume short o p amt (merge f l) = Ok l' <->
  (o ∉ orders f) /\ (p ∉ payments f) /\ exists l2, consume short o p amt l = Ok l2 /\ l' = merge f l2.
Proof.
  setoid_rewrite consume_iff. unfold merge. cbn [checkpoint l_height l_hash remaining sold seen paid].
  rewrite !not_elem_of_union. split.
  - intros ([? ?] & [? ?] & Hamt & ->). split_and!; [done..|]. eexists. split; [by split_and!|].
    cbn [checkpoint l_height l_hash remaining sold seen paid]. f_equal; set_solver.
  - intros (? & ? & l2 & (? & ? & Hamt & ->) & ->). split_and!; try done.
    cbn [checkpoint l_height l_hash remaining sold seen paid unattested]. f_equal; set_solver.
Qed.

Lemma sale_tx_split (f : Fences) (height : Z) (parent : Hash32) (l l' : Ledger) (otx : option Transaction) :
  apply_sale_tx height parent (merge f l) otx = Ok l' <->
  check_fences (fences_consumed f) () otx = Ok () /\
  exists l2, apply_sale_tx height parent l otx = Ok l2 /\ l' = merge f l2.
Proof.
  destruct otx as [tx|]; [|by split; [|intros [? _]]]. unfold apply_sale_tx.
  destruct (saleAuthorization tx) as [a|e] eqn:Ea.
  2: { unfold check_fences. rewrite Ea. split; [done|]. by intros [? _]. }
  rewrite (check_fences_ok f tx a) by done. cbn [mbind result_bind]. setoid_rewrite reject_ok.
  rewrite consume_split. cbn [merge checkpoint cp_Genesis SaleAuthority unattested]. naive_solver.
Qed.

Lemma sale_txs_split (f : Fences) (height : Z) (parent : Hash32) (txs : list (option Transaction)) :
  forall l l', foldM (apply_sale_tx height parent) (merge f l) txs = Ok l' <->
  foldM (check_fences (fences_consumed f)) () txs = Ok () /\
  exists l2, foldM (apply_sale_tx height parent) l txs = Ok l2 /\ l' = merge f l2.
Proof.
  induction txs as [|otx txs IH]; intros l l'; cbn [foldM].
  - split; [intros Heq; apply Ok_inj in Heq as <-; eauto|]. intros (_ & l2 & Heq & ->). by apply Ok_inj in Heq as <-.
  - rewrite !bind_ok. setoid_rewrite bind_ok. setoid_rewrite sale_tx_split. split.
    + intros (l1 & (Hck & l2 & H2 & ->) & Hf). apply IH in Hf as (Hcks & l3 & H3 & ->).
      split; [by exists ()|]. eauto.
    + intros (([] & Hck & Hcks) & l3 & (l2 & H2 & H3) & ->). exists (merge f l2). split; [eauto|]. apply IH. eauto.
Qed.

Lemma sale_txs_frame (height : Z) (parent : Hash32) (txs : list (option Transaction)) (l l' : Ledger) :
  foldM (apply_sale_tx height parent) l txs = Ok l' ->
  0 <= remaining l -> 0 <= sold l -> is_u64 (remaining l + sold l) ->
  (checkpoint l' = checkpoint l /\ l_height l' = l_height l /\ l_hash l' = l_hash l) /\
  0 <= remaining l' /\ 0 <= sold l' /\ remaining l' + sold l' = remaining l + sold l.
Proof.
  intros Hf Hr Hs Hu. revert Hf. apply (foldM_inv _ (fun l' => (checkpoint l' = checkpoint l /\ l_height l' = l_height l /\
    l_hash l' = l_hash l) /\ 0 <= remaining l' /\ 0 <= sold l' /\ remaining l' + sold l' = remaining l + sold l)); [|done].
  intros l1 otx l2 ((E1 & E2 & E3) & R1 & S1 & T1) Hx. apply sale_tx_ok in Hx as (tx & a & _ & Ha & Hc).
  apply sale_amount_u64 in Ha. unfold consume in Hc. apply reject_ok in Hc as [_ Hc]. apply reject_ok in Hc as [_ Hc].
  apply reject_ok in Hc as [Hamt Hc]. apply Ok_inj in Hc as <-. zbool. cbn [checkpoint l_height l_hash remaining sold].
  rewrite (wrap64_small (remaining l1 - _)) by u64lia. rewrite (wrap64_small (sold l1 + _)) by u64lia.
  split_and!; try done; u64lia.
Qed.

(** Show that no disjunct of a guard holds. *)
Ltac guards :=
  repeat (apply orb_false_iff; split);
  first [ done | apply negb_false_iff, Z.eqb_eq; lia | apply Z.eqb_neq; done | apply Z.ltb_ge; lia
        | apply bool_decide_eq_false_2; done | apply negb_false_iff, bool_decide_eq_true_2; done ].

(** The guards of [Advance] are the guards of the ledger, for a state that
    represents one. *)
Lemma advance_guard (c : Checkpoint) (s : State) (f : Fences) (l : Ledger) (height : Z) (parent hash : Hash32) :
  represents c s f l ->
  is_ok (successor (Some l) height parent hash) = true <->
  (negb (bool_decide (st_Checkpoint s = message c)) || negb (st_Height s +w 1 =? height) ||
   (height <? cp_Height c) || negb (bool_decide (st_Hash s = parent)) || bool_decide (hash = zeroHash) ||
   bool_decide (hash = parent) || (SaleRemaining c <? Remaining s) ||
   negb (Sold s =? SaleRemaining c -w Remaining s) = false /\ height <> 0).
Proof.
  intros [[Hc _] [Hh Hx] [Hr Hs] _ [Hhu Hch] (Hu & Hr0 & Hs0 & Ht)]. rewrite Hc, Hh, Hx, Hr, Hs.
  rewrite (bool_decide_eq_true_2 (message c = message c)) by done.
  rewrite (wrap64_small (SaleRemaining c - _)) by u64lia.
  assert (Hw := wrap64_range (l_height l + 1)). unfold successor. split.
  - intros Hok. destruct (_ || _) eqn:Hg in Hok; [discriminate|]. zbool. subst height parent.
    assert (l_height l +w 1 = l_height l + 1).
    { apply wrap64_small. destruct (decide (l_height l + 1 = U64)) as [E|]; [|u64lia].
      match goal with Hn : _ +w 1 <> 0 |- _ => exfalso; apply Hn; rewrite E; reflexivity end. }
    split; [|done]. guards.
  - intros [Hg Hn]. zbool. subst height parent. rewrite reject_no_ok; [done|]. guards.
Qed.

Lemma successor_move (l l1 : Ledger) (c : Checkpoint) (o p : gset Hash32) (height : Z) (parent hash : Hash32) :
  successor (Some l) height parent hash = Ok l1 ->
  successor (Some (mkLedger c (l_height l) (l_hash l) (remaining l) (sold l) o p)) height parent hash =
  Ok (mkLedger c height hash (remaining l) (sold l) o p).
Proof. unfold successor. simpl. intros Hs. apply reject_ok in Hs as [Hg _]. by rewrite Hg. Qed.

(** The ledger of an accepted block, seen through the state that is persisted. *)
Lemma next_represents (c : Checkpoint) (f : Fences) (l0 : Z) (height : Z) (parent hash : Hash32) (rem sol : Z)
    (txs : list (option Transaction)) (next : Ledger) :
  is_u64 l0 -> cp_Height c <= l0 + 1 -> height = l0 +w 1 -> height <> 0 ->
  is_u64 (SaleRemaining c) -> 0 <= rem -> 0 <= sol -> rem + sol = SaleRemaining c ->
  foldM (apply_sale_tx height parent) (mkLedger c height hash rem sol ∅ ∅) txs = Ok next ->
  represents c (mkState (message c) height hash (remaining next) (sold next))
    (mkFences (seen (merge f next)) (paid (merge f next))) (merge f next).
Proof.
  intros Hl Hc Hh Hn Hu Hr Hs Ht Hf.
  destruct (sale_txs_frame _ _ _ _ _ Hf Hr Hs ltac:(simpl; by rewrite Ht)) as ((Ec & Eh & Ex) & Hr' & Hs' & Ht').
  simpl in *. assert (Hw : height = l0 + 1).
  { subst height. apply wrap64_small. destruct (decide (l0 + 1 = U64)) as [E|]; [|u64lia].
    exfalso. apply Hn. rewrite E. reflexivity. }
  assert (is_u64 height) by (subst height; apply wrap64_range).
  constructor; simpl; rewrite ?Ec, ?Eh; split_and!; try done; u64lia.
Qed.

(** One block. *)
Lemma advance_simulates (c : Checkpoint) (s : State) (f : Fences) (l : Ledger) (height : Z)
    (parent hash : Hash32) (txs : list (option Transaction)) (s' : State) :
  represents c s f l ->
  Advance s c height parent hash txs (Some (fences_consumed f)) = Ok s' <->
  exists l', ApplyCanonicalTransactions (Some l) height parent hash txs = Ok l' /\
    represents c s' (mkFences (seen l') (paid l')) l'.
Proof.
  intros Hrep. assert (Hg := advance_guard c s f l height parent hash Hrep). unfold Advance, ApplyCanonicalTransactions.
  destruct Hrep as [[Hc Hcl] [Hh Hx] [Hr Hs] [Hfo Hfp] [Hhu Hch] (Hu & Hr0 & Hs0 & Ht)].
  destruct (successor (Some l) height parent hash) as [l1|e] eqn:Es.
  2: { split; [|by intros (l' & Hl & _)]. intros Ha. apply reject_ok in Ha as [Hg' Ha].
       apply bind_ok in Ha as (_ & _ & Ha). apply bind_ok in Ha as (next & Ha & _). apply bind_ok in Ha as (l2 & Hl & _).
       apply successor_ok in Hl as [(Hn & _) _]. by discriminate (proj2 Hg (conj Hg' Hn)). }
  destruct (proj1 Hg eq_refl) as [Hg' Hn]. rewrite Hg', Hc, Hh, Hx, Hr, Hs.
  rewrite (successor_move _ _ c ∅ ∅ _ _ _ Es). apply successor_ok in Es as [(_ & Hheight & -> & Hne) ->].
  cbn [mbind result_bind]. set (l2 := mkLedger c height hash (remaining l) (sold l) ∅ ∅).
  replace (mkLedger (checkpoint l) height hash (remaining l) (sold l) (seen l) (paid l)) with (merge f l2).
  2: { unfold merge. simpl. by rewrite Hcl, Hfo, Hfp, !(right_id_L ∅ (∪)). }
  setoid_rewrite sale_txs_split. rewrite bind_ok. setoid_rewrite bind_ok. split.
  - intros ([] & Hf & next & Hnext & Heq). apply Ok_inj in Heq as <-. exists (merge f next).
    split; [eauto|]. by apply (next_represents c f (l_height l) height (l_hash l) hash (remaining l) (sold l) txs next).
  - intros (l' & (Hf & next & Hnext & ->) & Hrep'). exists (). split; [done|]. exists next. split; [done|]. f_equal.
    destruct (sale_txs_frame _ _ _ _ _ Hnext Hr0 Hs0 ltac:(simpl; by rewrite Ht)) as ((_ & Eh & Ex) & _).
    destruct Hrep' as [[Rc _] [Rh Rx] [Rr Rs] _ _ _]. destruct s'. simpl in *. congruence.
Qed.

Lemma initial_represents (c : Checkpoint) (genesis parent : Hash32) (height : Z) (trusted : list ValidatorPubKey) (l0 : Ledger) :
  u64_fields c -> Begin c genesis parent height trusted = Ok l0 -> represents c (InitialState c) (mkFences ∅ ∅) l0.
Proof.
  intros Hu Hb. destruct (begin_accounts _ _ _ _ _ _ Hu Hb) as (Hau & _ & ->).
  destruct (au_binding _ _ _ _ _ Hau) as (Hh & Hp & _). destruct (au_named _ _ _ _ _ Hau) as (Hn & _).
  destruct (au_budget _ _ _ _ _ Hau) as [Hb0 _]. destruct Hu as (Hhu & _ & _ & Hsu).
  constructor; simpl; rewrite ?Hh, ?Hp; split_and!; try done; try lia; [apply wrap64_range|].
  rewrite wrap64_small; u64lia.
Qed.

(** C18: the constant-size state with its durable fences is a faithful implementation
    of the ledger: it starts where the ledger starts, and for every block the state
    advances exactly when the ledger accepts the block, to a state and fences that
    represent the new ledger. *)
Theorem advance_refines_ledger (c : Checkpoint) :
  u64_fields c ->
  (forall genesis parent height trusted l0, Begin c genesis parent height trusted = Ok l0 ->
     represents c (InitialState c) (mkFences ∅ ∅) l0) /\
  (forall s f l height parent hash txs s', represents c s f l ->
     Advance s c height parent hash txs (Some (fences_consumed f)) = Ok s' <->
     exists l', ApplyCanonicalTransactions (Some l) height parent hash txs = Ok l' /\
       represents c s' (mkFences (seen l') (paid l')) l').
Proof. intros Hu. split; [eauto using initial_represents|eauto using advance_simulates]. Qed.

End Simulation.

(** ** Reconciliation with the cap *)

Definition u64_claims (r : Reconciliation) : Prop :=
  Forall is_u64 (claims r) /\
  (forall n, NetAllocation r = Some n -> is_u64 (nb_Burned n) /\ is_u64 (WalletNet n)).

Section Reconcile.
Context `{Crypto}.

Lemma claims_fold (cs : list Z) : forall rem rem',
  Forall is_u64 cs -> is_u64 rem -> foldM claim_step rem cs = Ok rem' ->
  is_u64 rem' /\ rem' = rem - sumZ (fun x => x) cs.
Proof.
  induction cs as [|x cs IH]; intros rem rem' Hu Hr Hf; simpl in *.
  - apply Ok_inj in Hf as <-. split; [done|lia].
  - apply list.Forall_cons in Hu as [Hx Hu]. apply bind_ok in Hf as (r1 & H1 & Hf).
    unfold claim_step in H1. apply reject_ok in H1 as [Hc H1]. apply Ok_inj in H1 as <-. zbool.
    rewrite wrap64_small in Hf by u64lia. apply IH in Hf; [|done|u64lia]. u64lia.
Qed.

Lemma unassigned_ok (r : Reconciliation) (available reserved : Z) :
  u64_claims r -> Unassigned r = Ok (available, reserved) ->
  0 <= available /\ available + reserved + r_HistoricIssued r = CapNAPRO /\
  reserved = ValidatorReserved r + LPoDReserved r + GuardianReserved r + r_OtherReserved r /\
  (forall e, AllocationEpoch r = Some e ->
     NetAllocation r = None /\ r_HistoricIssued r = eb_Burned e /\ available = Available e) /\
  (forall n, NetAllocation r = Some n -> r_HistoricIssued r = nb_Burned n + WalletNet n).
Proof.
  intros [Hu Hn] Hs. unfold Unassigned in Hs. apply bind_ok in Hs as ([] & Hep & Hs).
  apply bind_ok in Hs as ([] & Hnet & Hs). apply bind_ok in Hs as (rem & Hrem & Hs).
  apply reject_ok in Hs as [Hav Hs]. apply Ok_inj in Hs. injection Hs as <- <-.
  apply claims_fold in Hrem as [Hrem Hsum]; [|done|unfold CapNAPRO; u64lia].
  unfold claims in Hu, Hsum. repeat rewrite list.Forall_cons in Hu. destruct Hu as (U1 & U2 & U3 & U4 & U5 & _).
  cbn [sumZ] in Hsum. assert (Hcap : CapNAPRO < U64) by (unfold CapNAPRO; lia).
  rewrite (wrap64_small (CapNAPRO - rem)) by u64lia. rewrite wrap64_small by u64lia.
  split_and!; [u64lia|lia|lia| |].
  - intros e He. rewrite He in Hep, Hav. apply reject_ok in Hep as [Hmix Hep]. apply bind_ok in Hep as ([] & _ & Hep).
    apply reject_ok in Hep as [Hb _]. zbool. split_and!; try done. destruct (NetAllocation r); [|done].
    exfalso. apply Hmix. by eexists.
  - intros n Hne. rewrite Hne in Hnet. apply bind_ok in Hnet as (x & Hx & Hnet). apply reject_ok in Hnet as [Hq _].
    unfold NetAllocation_Consumed in Hx. apply reject_ok in Hx as [Hc Hx]. apply Ok_inj in Hx as <-.
    destruct (Hn n Hne) as [N1 N2].
    apply orb_false_iff in Hc as [Hc Hw]. apply orb_false_iff in Hc as [_ Hbu]. zbool. unfold CapNAPRO in *.
    rewrite wrap64_small in Hw by u64lia.
    rewrite wrap64_small in Hq by u64lia. lia.
Qed.

(** A checkpoint that passes [VerifyReconciledCheckpoint] opens an allocation
    that, with the issued amount and the four reserves of the reconciliation it
    commits to, stays under the cap; its reserve figure is the sum of the four
    reserves, its issuance is not below the declared one, a nominal epoch opens
    exactly its available amount, and the checkpoint itself is authorized. *)
Theorem reconciled_checkpoint_capped (c : Checkpoint) (r : Reconciliation) (genesis parent lpod : Hash32)
    (height declared : Z) (trusted : list ValidatorPubKey) :
  u64_fields c -> u64_claims r ->
  VerifyReconciledCheckpoint c r genesis parent lpod height declared trusted = Ok () ->
  HistoricIssued c + ValidatorReserved r + LPoDReserved r + GuardianReserved r + r_OtherReserved r +
    SaleRemaining c <= CapNAPRO /\
  OtherReserved c = ValidatorReserved r + LPoDReserved r + GuardianReserved r + r_OtherReserved r /\
  HistoricIssued c = r_HistoricIssued r /\ SnapshotRoot c = Digest r /\ LPoDCommitment r = lpod /\
  (AllocationEpoch r = None -> NetAllocation r = None -> declared <= HistoricIssued c) /\
  (forall e, AllocationEpoch r = Some e ->
     NetAllocation r = None /\ HistoricIssued c = eb_Burned e /\ SaleRemaining c = Available e /\ FundingHeight e < height) /\
  (forall n, NetAllocation r = Some n -> HistoricIssued c = nb_Burned n + WalletNet n) /\
  authorized c genesis parent height trusted.
Proof.
  intros Hu Hr Hv. unfold VerifyReconciledCheckpoint in Hv. apply bind_ok in Hv as (d1 & Hd1 & Hv).
  apply bind_ok in Hv as (d2 & Hd2 & Hv). apply reject_ok in Hv as [Hb Hv].
  apply bind_ok in Hv as ([available reserved] & Hun & Hv). apply reject_ok in Hv as [Hc Hv].
  apply unassigned_ok in Hun as (H0 & Hsum & Hres & Hep & Hnet); [|done]. apply verify_authorized in Hv; [|done].
  zbool. cbn [fst snd] in *. split_and!; try done; try lia.
  - intros He Hn. unfold declared_by_epoch in Hd1. rewrite He in Hd1. rewrite Hn in Hd2.
    apply Ok_inj in Hd1 as <-. apply Ok_inj in Hd2 as <-. lia.
  - intros e He. destruct (Hep e He) as (E1 & E2 & E3). unfold declared_by_epoch in Hd1. rewrite He in Hd1.
    apply reject_ok in Hd1 as [_ Hd1]. apply bind_ok in Hd1 as (_ & _ & Hd1). apply reject_ok in Hd1 as [Hfh Hd1].
    apply reject_ok in Hd1 as [Hav _]. zbool. split_and!; try done; lia.
  - intros n Hn. rewrite (Hnet n Hn) in *. done.
Qed.

End Reconcile.

(** ** Examples *)

Definition ex_key (b : byte) : ValidatorPubKey := b :: replicate 31 x00.
Definition ex_trusted : list ValidatorPubKey := [ex_key x01; ex_key x02; ex_key x03; ex_key x04].
Definition ex_attest (b : byte) : Attestation := mkAttestation (ex_key b) (b :: replicate 63 x00).

Definition ex_rec : Reconciliation :=
  mkRec None None (copy_arr 32 [x01]) (copy_arr 32 [x02]) (copy_arr 32 [x07]) (copy_arr 32 [x08]) 1000 20 30 40 50.
(** Two checkpoints, signed by three of the four trusted keys each. *)
Definition ex_cp : Checkpoint :=
  mkCheckpoint (copy_arr 32 [x01]) MainnetByte 9 (copy_arr 32 [x02]) (Digest (H := toy_crypto) ex_rec)
    1000 140 100000 (ex_key x06) [ex_attest x01; ex_attest x02; ex_attest x03].
Definition ex_cp2 : Checkpoint :=
  mkCheckpoint (copy_arr 32 [x01]) MainnetByte 9 (copy_arr 32 [x02]) (Digest (H := toy_crypto) ex_rec)
    1000 140 200000 (ex_key x06) [ex_attest x04; ex_attest x02; ex_attest x03].

Definition ex_ledger0 : Ledger := mkLedger (unattested ex_cp) 8 (copy_arr 32 [x02]) 100000 0 ∅ ∅.
Definition ex_ledger1 : Ledger :=
  mkLedger (unattested ex_cp) 9 (copy_arr 32 [x09]) 99500 500 {[copy_arr 32 [x03]]} {[copy_arr 32 [x04]]}.

Lemma ex_cp_u64 : u64_fields ex_cp /\ u64_fields ex_cp2.
Proof. unfold u64_fields, ex_cp, ex_cp2. cbn [cp_Height HistoricIssued OtherReserved SaleRemaining]. u64lia. Qed.

Lemma ex_cp_verifies :
  Verify (H := toy_crypto) ex_cp (copy_arr 32 [x01]) (copy_arr 32 [x02]) 9 ex_trusted = Ok () /\
  Verify (H := toy_crypto) ex_cp2 (copy_arr 32 [x01]) (copy_arr 32 [x02]) 9 ex_trusted = Ok ().
Proof. split; vm_compute; reflexivity. Qed.

Lemma ex_begin :
  Begin (H := toy_crypto) ex_cp (copy_arr 32 [x01]) (copy_arr 32 [x02]) 9 ex_trusted = Ok ex_ledger0.
Proof. apply (bool_decide_unpack _). vm_compute. exact I. Qed.

Lemma ex_apply :
  ApplyCanonicalTransactions (H := toy_crypto) (Some ex_ledger0) 9 (copy_arr 32 [x02]) (copy_arr 32 [x09])
    [Some ex_sale_tx] = Ok ex_ledger1.
Proof. apply (bool_decide_unpack _). vm_compute. exact I. Qed.

Lemma checkpoint_verified_witness :
  u64_fields ex_cp /\ authorized (H := toy_crypto) ex_cp (copy_arr 32 [x01]) (copy_arr 32 [x02]) 9 ex_trusted.
Proof.
  split; [apply ex_cp_u64|].
  exact (proj1 (checkpoint_verified (H := toy_crypto) ex_cp (copy_arr 32 [x01]) (copy_arr 32 [x02]) 9 ex_trusted
    (proj1 ex_cp_u64)) (proj1 ex_cp_verifies)).
Defined.

Lemma quorums_intersect_witness :
  exists signers : list ValidatorPubKey, NoDup signers /\ (length ex_trusted < 3 * length signers)%nat.
Proof.
  destruct (quorums_intersect (H := toy_crypto) ex_cp ex_cp2 (copy_arr 32 [x01]) (copy_arr 32 [x01])
    (copy_arr 32 [x02]) (copy_arr 32 [x02]) 9 9 ex_trusted (proj1 ex_cp_u64)
    (proj2 ex_cp_u64) (proj1 ex_cp_verifies) (proj2 ex_cp_verifies)) as (signers & Hn & Hl & _).
  exists signers. split; [exact Hn|exact Hl].
Defined.

Lemma sale_conserves_witness :
  runs (H := toy_crypto) ex_ledger0 ([] ++ omap (tx_entry (H := toy_crypto)) [Some ex_sale_tx]) ex_ledger1 /\
  remaining ex_ledger1 + sold ex_ledger1 = SaleRemaining ex_cp.
Proof.
  assert (Hr : runs (H := toy_crypto) ex_ledger0 ([] ++ omap (tx_entry (H := toy_crypto)) [Some ex_sale_tx]) ex_ledger1).
  { eapply run_transactions; [apply run_begin|apply ex_apply]. }
  split; [exact Hr|].
  exact (proj1 (sale_conserves (H := toy_crypto) ex_cp (copy_arr 32 [x01]) (copy_arr 32 [x02]) 9 ex_trusted
    ex_ledger0 ex_ledger1 _ (proj1 ex_cp_u64) ex_begin Hr)).
Defined.

(** The state advances over the example block, and not over a replay of it. *)
Example ex_advance :
  Advance (H := toy_crypto) (InitialState (H := toy_crypto) ex_cp) ex_cp 9 (copy_arr 32 [x02]) (copy_arr 32 [x09])
    [Some ex_sale_tx] (Some (fences_consumed (mkFences ∅ ∅))) =
    Ok (mkState (message (H := toy_crypto) ex_cp) 9 (copy_arr 32 [x09]) 99500 500) /\
  is_ok (Advance (H := toy_crypto) (InitialState (H := toy_crypto) ex_cp) ex_cp 9 (copy_arr 32 [x02]) (copy_arr 32 [x09])
    [Some ex_sale_tx] (Some (fences_consumed (mkFences {[copy_arr 32 [x03]]} ∅)))) = false.
Proof. split; [apply (bool_decide_unpack _); vm_compute; exact I|vm_compute; reflexivity]. Qed.

Lemma advance_refines_ledger_witness :
  represents (H := toy_crypto) ex_cp (InitialState (H := toy_crypto) ex_cp) (mkFences ∅ ∅) ex_ledger0 /\
  exists l', ApplyCanonicalTransactions (H := toy_crypto) (Some ex_ledger0) 9 (copy_arr 32 [x02]) (copy_arr 32 [x09])
      [Some ex_sale_tx] = Ok l' /\
    represents (H := toy_crypto) ex_cp (mkState (message (H := toy_crypto) ex_cp) 9 (copy_arr 32 [x09]) 99500 500)
      (mkFences (seen l') (paid l')) l'.
Proof.
  assert (Hi : represents (H := toy_crypto) ex_cp (InitialState (H := toy_crypto) ex_cp) (mkFences ∅ ∅) ex_ledger0).
  { exact (proj1 (advance_refines_ledger (H := toy_crypto) ex_cp (proj1 ex_cp_u64))
      (copy_arr 32 [x01]) (copy_arr 32 [x02]) 9 ex_trusted ex_ledger0 ex_begin). }
  split; [exact Hi|].
  exact (proj1 (proj2 (advance_refines_ledger (H := toy_crypto) ex_cp (proj1 ex_cp_u64))
    (InitialState (H := toy_crypto) ex_cp) (mkFences ∅ ∅) ex_ledger0 9 (copy_arr 32 [x02]) (copy_arr 32 [x09])
    [Some ex_sale_tx] (mkState (message (H := toy_crypto) ex_cp) 9 (copy_arr 32 [x09]) 99500 500) Hi) (proj1 ex_advance)).
Defined.

Lemma reconciled_checkpoint_capped_witness :
  HistoricIssued ex_cp + 20 + 30 + 40 + 50 + SaleRemaining ex_cp <= CapNAPRO.
Proof.
  refine (proj1 (reconciled_checkpoint_capped (H := toy_crypto) ex_cp ex_rec (copy_arr 32 [x01]) (copy_arr 32 [x02])
    (copy_arr 32 [x07]) 9 900 ex_trusted (proj1 ex_cp_u64) _ _)).
  - split; [|discriminate]. unfold claims, ex_rec. simpl. repeat constructor; u64lia.
  - vm_compute. reflexivity.
Defined.

End Sale.
