(* ===== verification/Utxo.v ===== *)
(** The UTXO set: [core/utxo.go].

    [UTXOSet] keeps the active outputs under two indexes ([utxos] by outpoint,
    [byPubKey] by one-time key), the outputs burned for staking, a bounded pool
    of spent outputs used as ring decoys, the spent key images in three tiers,
    and a journal per height that lets [RollbackBlock] undo [ApplyBlock].
    Records are never mutated in place, so a record is a value here.  The
    optional persistence callbacks are outside the set and are not modelled;
    [RollbackBlock] returns the keys it passes to them. *)

From stdpp Require Import base gmap list strings sorting.
From S2P Require Import Prelude Bytes Crypto Avm StakePayload Transaction.
Import Transaction.

Module Utxo.

(** ** Key images *)

(** The [KeyImageStore] interface: a persistent set in which the access to a
    key may fail. *)
Record KeyImageStore := mkStore { ki_spent : gset KeyImage; ki_fails : KeyImage -> bool }.

(** The two results are the flag and the error. *)
Definition IsKeyImageSpent (db : KeyImageStore) (ki : KeyImage) : bool * bool :=
  if ki_fails db ki then (false, true) else (bool_decide (ki ∈ ki_spent db), false).

Definition MarkKeyImageSpent (db : KeyImageStore) (ki : KeyImage) : KeyImageStore :=
  if ki_fails db ki then db else mkStore ({[ki]} ∪ ki_spent db) (ki_fails db).

Definition DeleteKeyImage (db : KeyImageStore) (ki : KeyImage) : KeyImageStore * bool :=
  if ki_fails db ki then (db, true) else (mkStore (ki_spent db ∖ {[ki]}) (ki_fails db), false).

Record compactKeyImageSet := mkKIs {
  sorted : list KeyImage; recent : gset KeyImage; kiDB : option KeyImageStore
}.

(** The byte loop of [kiLess]. *)
Fixpoint bytes_less (a b : list byte) : bool :=
  match a, b with
  | x :: a', y :: b' =>
      if bool_decide (x = y) then bytes_less a' b' else byte_to_Z x <? byte_to_Z y
  | _, _ => false
  end.

Definition kiLess (a b : KeyImage) : bool := bytes_less (arr_list a) (arr_list b).

(** [sort.Search(n, f)]: the loop over [[i, j)]; [fuel] bounds the iterations. *)
Fixpoint search_loop (fuel : nat) (f : nat -> bool) (i j : nat) : nat :=
  match fuel with
  | O => i
  | S fuel' =>
      if Nat.ltb i j then
        let h := Nat.div2 (i + j) in
        if f h then search_loop fuel' f i h else search_loop fuel' f (S h) j
      else i
  end.

Definition sort_Search (n : nat) (f : nat -> bool) : nat := search_loop (S n) f 0 n.

(** The index [sort.Search] finds for [ki] in the sorted slice. *)
Definition sorted_index (l : list KeyImage) (ki : KeyImage) : nat :=
  sort_Search (length l) (fun i => match l !! i with Some x => negb (kiLess x ki) | None => true end).

Definition contains (c : compactKeyImageSet) (ki : KeyImage) : bool :=
  if bool_decide (ki ∈ recent c) then true
  else match kiDB c with
       | Some db => fst (IsKeyImageSpent db ki)
       | None => bool_decide (sorted c !! sorted_index (sorted c) ki = Some ki)
       end.

Definition insert (c : compactKeyImageSet) (ki : KeyImage) : compactKeyImageSet :=
  if contains c ki then c else mkKIs (sorted c) ({[ki]} ∪ recent c) (kiDB c).

Definition remove (c : compactKeyImageSet) (ki : KeyImage) : compactKeyImageSet :=
  let recent' := recent c ∖ {[ki]} in
  match kiDB c with
  | Some db => mkKIs (sorted c) recent' (Some (fst (DeleteKeyImage db ki)))
  | None =>
      let idx := sorted_index (sorted c) ki in
      if bool_decide (sorted c !! idx = Some ki)
      then mkKIs (take idx (sorted c) ++ drop (S idx) (sorted c)) recent' None
      else mkKIs (sorted c) recent' None
  end.

Definition ki_length (c : compactKeyImageSet) : nat := length (sorted c) + size (recent c).

Definition kiLe (a b : KeyImage) : Prop := kiLess b a = false.
#[global] Instance kiLe_dec : RelDecision kiLe.
Proof. intros a b. unfold kiLe. apply _. Defined.

(** [toSlice]: iteration over [recent] in some order, then [sort.Slice]. *)
Definition toSlice (c : compactKeyImageSet) : list KeyImage :=
  merge_sort kiLe (sorted c ++ elements (recent c)).

Definition restoreFromSlice (c : compactKeyImageSet) : compactKeyImageSet :=
  mkKIs (sorted c) ∅ (kiDB c).

(** ** The set *)

Record UTXO := mkUTXO {
  u_TxHash : Hash32; u_OutputIndex : Z; u_OneTimePub : Point32; u_TxPubKey : Point32;
  u_AmountCommit : Commitment; u_EncAmount : arr 8; u_BlockHeight : Z; u_ProtocolLocked : bool
}.

#[global] Instance UTXO_eq_dec : EqDecision UTXO.
Proof. solve_decision. Defined.

Abbreviation UTXOKey := (Hash32 * Z)%type (only parsing).

Definition key_of (u : UTXO) : UTXOKey := (u_TxHash u, u_OutputIndex u).

Definition maxSpentDecoys : Z := 10000.
Definition maxCLSAGRecentOutputs : Z := 100000.
Definition maxRollbackDepth : Z := 256.

Record rollbackEntry := mkEntry { ringMember : Point32; re_utxo : UTXO }.

Record UTXOSet := mkSet {
  utxos : gmap UTXOKey UTXO;
  keyImages : compactKeyImageSet;
  byPubKey : gmap Point32 UTXO;
  stakedUTXOs : gmap UTXOKey UTXO;
  spentPubKeys : gmap Point32 UTXO;
  rollbackJournal : gmap Z (list rollbackEntry);
  clsagActivationHeight : Z;
  clsagRecentOutputs : list UTXOKey
}.

Definition NewUTXOSet : UTXOSet := mkSet ∅ (mkKIs [] ∅ None) ∅ ∅ ∅ ∅ 0 [].
Definition NewUTXOSetWithDB (db : KeyImageStore) : UTXOSet :=
  mkSet ∅ (mkKIs [] ∅ (Some db)) ∅ ∅ ∅ ∅ 0 [].

Definition with_utxos (f : gmap UTXOKey UTXO -> gmap UTXOKey UTXO) (s : UTXOSet) : UTXOSet :=
  mkSet (f (utxos s)) (keyImages s) (byPubKey s) (stakedUTXOs s) (spentPubKeys s)
    (rollbackJournal s) (clsagActivationHeight s) (clsagRecentOutputs s).
Definition with_byPubKey (f : gmap Point32 UTXO -> gmap Point32 UTXO) (s : UTXOSet) : UTXOSet :=
  mkSet (utxos s) (keyImages s) (f (byPubKey s)) (stakedUTXOs s) (spentPubKeys s)
    (rollbackJournal s) (clsagActivationHeight s) (clsagRecentOutputs s).
Definition with_keyImages (f : compactKeyImageSet -> compactKeyImageSet) (s : UTXOSet) : UTXOSet :=
  mkSet (utxos s) (f (keyImages s)) (byPubKey s) (stakedUTXOs s) (spentPubKeys s)
    (rollbackJournal s) (clsagActivationHeight s) (clsagRecentOutputs s).
Definition with_staked (f : gmap UTXOKey UTXO -> gmap UTXOKey UTXO) (s : UTXOSet) : UTXOSet :=
  mkSet (utxos s) (keyImages s) (byPubKey s) (f (stakedUTXOs s)) (spentPubKeys s)
    (rollbackJournal s) (clsagActivationHeight s) (clsagRecentOutputs s).
Definition with_spent (f : gmap Point32 UTXO -> gmap Point32 UTXO) (s : UTXOSet) : UTXOSet :=
  mkSet (utxos s) (keyImages s) (byPubKey s) (stakedUTXOs s) (f (spentPubKeys s))
    (rollbackJournal s) (clsagActivationHeight s) (clsagRecentOutputs s).
Definition with_journal (f : gmap Z (list rollbackEntry) -> gmap Z (list rollbackEntry)) (s : UTXOSet) : UTXOSet :=
  mkSet (utxos s) (keyImages s) (byPubKey s) (stakedUTXOs s) (spentPubKeys s)
    (f (rollbackJournal s)) (clsagActivationHeight s) (clsagRecentOutputs s).
Definition with_recentOutputs (l : list UTXOKey) (s : UTXOSet) : UTXOSet :=
  mkSet (utxos s) (keyImages s) (byPubKey s) (stakedUTXOs s) (spentPubKeys s)
    (rollbackJournal s) (clsagActivationHeight s) l.
Definition SetCLSAGActivationHeight (height : Z) (s : UTXOSet) : UTXOSet :=
  mkSet (utxos s) (keyImages s) (byPubKey s) (stakedUTXOs s) (spentPubKeys s)
    (rollbackJournal s) height (clsagRecentOutputs s).

Definition trackCLSAGRecentLocked (key : UTXOKey) (height : Z) (s : UTXOSet) : UTXOSet :=
  if match utxos s !! key with Some u => u_ProtocolLocked u | None => false end then s
  else if (clsagActivationHeight s =? 0) || (height <? clsagActivationHeight s) then s
  else
    let l := clsagRecentOutputs s ++ [key] in
    if Z.of_nat (length l) <=? maxCLSAGRecentOutputs then with_recentOutputs l s
    else match l with
         | oldest :: rest =>
             let s1 := with_recentOutputs rest s in
             match utxos s1 !! oldest with
             | Some old => with_utxos (delete oldest) (with_byPubKey (delete (u_OneTimePub old)) s1)
             | None => s1
             end
         | [] => with_recentOutputs l s
         end.

Definition Add (u : UTXO) (s : UTXOSet) : UTXOSet :=
  let key := key_of u in
  let s1 := with_utxos <[key := u]> s in
  let s2 := if u_ProtocolLocked u then s1 else with_byPubKey <[u_OneTimePub u := u]> s1 in
  trackCLSAGRecentLocked key (u_BlockHeight u) s2.

Definition Get (s : UTXOSet) (txHash : Hash32) (outIdx : Z) : option UTXO := utxos s !! (txHash, outIdx).
Definition GetByPubKey (s : UTXOSet) (pub : Point32) : option UTXO := byPubKey s !! pub.

(** [store] is the optional persistent ring-member index's [LookupRingMember];
    its error result is [None]. *)
Definition GetRingMember (store : option (Point32 -> option UTXO)) (s : UTXOSet) (pub : Point32)
    : option UTXO :=
  let usable o := match o with Some u => if u_ProtocolLocked u then None else Some u | None => None end in
  match usable (byPubKey s !! pub) with
  | Some u => Some u
  | None =>
      match usable (spentPubKeys s !! pub) with
      | Some u => Some u
      | None => match store with Some lookup => usable (lookup pub) | None => None end
      end
  end.

Definition Remove (txHash : Hash32) (outIdx : Z) (s : UTXOSet) : UTXOSet :=
  let k := (txHash, outIdx) in
  let s1 := match utxos s !! k with
            | Some u => with_byPubKey (delete (u_OneTimePub u)) s
            | None => s
            end in
  with_utxos (delete k) s1.

Definition ClearKeyImages (s : UTXOSet) : UTXOSet :=
  with_keyImages (fun c => mkKIs [] ∅ (kiDB c)) s.

(** Iteration over [recent] in the order of [elements]; the writes commute. *)
Definition compact (c : compactKeyImageSet) : compactKeyImageSet :=
  if bool_decide (recent c = ∅) then c
  else match kiDB c with
       | Some db => mkKIs (sorted c) ∅ (Some (foldl MarkKeyImageSpent db (elements (recent c))))
       | None => mkKIs (merge_sort kiLe (sorted c ++ elements (recent c))) ∅ None
       end.

Definition CompactKeyImages (s : UTXOSet) : UTXOSet := with_keyImages compact s.

(** ** Staked outputs *)

Definition MarkStaked (txHash : Hash32) (outIdx : Z) (s : UTXOSet) : result UTXOSet :=
  let k := (txHash, outIdx) in
  reject bool_decide (is_Some (stakedUTXOs s !! k)) with "UTXO already staked" ;;
  need u from utxos s !! k else "UTXO not found in active set" ;;
  Ok (with_staked <[k := u]> (with_utxos (delete k) (with_byPubKey (delete (u_OneTimePub u)) s))).

Definition MarkStakedKnown (txHash : Hash32) (outIdx : Z) (u : UTXO) (s : UTXOSet) : UTXOSet :=
  let k := (txHash, outIdx) in
  if bool_decide (is_Some (stakedUTXOs s !! k)) then s
  else match utxos s !! k with
       | Some existing =>
           with_staked <[k := existing]>
             (with_utxos (delete k) (with_byPubKey (delete (u_OneTimePub existing)) s))
       | None => with_staked <[k := u]> s
       end.

Definition UnmarkStaked (txHash : Hash32) (outIdx : Z) (s : UTXOSet) : UTXOSet :=
  let k := (txHash, outIdx) in
  match stakedUTXOs s !! k with
  | None => s
  | Some u => with_byPubKey <[u_OneTimePub u := u]> (with_utxos <[k := u]> (with_staked (delete k) s))
  end.

Definition IsStaked (s : UTXOSet) (txHash : Hash32) (outIdx : Z) : bool :=
  bool_decide (is_Some (stakedUTXOs s !! (txHash, outIdx))).

(** ** Spending *)

Definition stateTransitionRingMembers (tx : Transaction) (inp : RingInput) : list RingMember :=
  if IsLPoDPosition tx then take 1 (Ring inp)
  else if negb (is_version TxVersionCommitmentBinding tx) then Ring inp
  else match Ring inp !! Z.to_nat (byte_to_Z (RealIndex inp)) with
       | Some m => [m]
       | None => []
       end.

(** The first ring member that is active with the input's commitment. *)
Fixpoint find_spent (s : UTXOSet) (commit : Commitment) (members : list RingMember)
    : option (RingMember * UTXO) :=
  match members with
  | [] => None
  | m :: rest =>
      match byPubKey s !! m with
      | Some u => if bool_decide (u_AmountCommit u = commit) then Some (m, u) else find_spent s commit rest
      | None => find_spent s commit rest
      end
  end.

(** The smallest height of the journal, at most [^uint64(0)]. *)
Definition oldest_height (j : gmap Z (list rollbackEntry)) : Z :=
  map_fold (fun h _ acc => Z.min h acc) MaxUint64 j.

Definition prune_journal (j : gmap Z (list rollbackEntry)) : gmap Z (list rollbackEntry) :=
  if maxRollbackDepth <? Z.of_nat (size j) then delete (oldest_height j) j else j.

Definition journal_add (height : Z) (e : rollbackEntry) (j : gmap Z (list rollbackEntry)) :=
  prune_journal (<[height := default [] (j !! height) ++ [e]]> j).

(** Move the spent output out of the active indexes. *)
Definition spend_member (height : Z) (m : RingMember) (u : UTXO) (s : UTXOSet) : UTXOSet :=
  let s1 := with_utxos (delete (key_of u)) (with_byPubKey (delete m) s) in
  let s2 := with_journal (journal_add height (mkEntry m u)) s1 in
  if Z.of_nat (size (spentPubKeys s2)) <? maxSpentDecoys
  then with_spent <[m := u]> s2 else s2.

Section Blocks.
Context `{Crypto}.

(** The form in which a key image is stored. *)
Definition stored_ki (ki : KeyImage) : KeyImage := default ki (CanonicalKeyImage ki).

Definition MarkSpent (ki : KeyImage) (s : UTXOSet) : UTXOSet :=
  with_keyImages (fun c => insert c (stored_ki ki)) s.

Definition IsSpent (s : UTXOSet) (ki : KeyImage) : bool := contains (keyImages s) (stored_ki ki).

Definition HasSpentKeyImage (s : UTXOSet) (ki : KeyImage) : result bool :=
  need canonical from CanonicalKeyImage ki else "invalid key image" ;;
  if contains (keyImages s) canonical then Ok true
  else match kiDB (keyImages s) with
       | Some db => let '(spent, err) := IsKeyImageSpent db canonical in
                    reject err with "key image index error" ;; Ok spent
       | None => Ok false
       end.

(** The set after the call, and the [cleared] result. *)
Definition ClearPhantomSpent (ki0 : KeyImage) (s : UTXOSet) : UTXOSet * result bool :=
  let ki := stored_ki ki0 in
  let c := keyImages s in
  if bool_decide (ki ∈ recent c) then (s, Ok false)
  else match kiDB c with
       | Some db =>
           let '(db', err) := DeleteKeyImage db ki in
           (with_keyImages (fun c => mkKIs (sorted c) (recent c) (Some db')) s,
            if err then Err "delete key image" else Ok true)
       | None => (with_keyImages (fun c => remove c ki) s, Ok true)
       end.

Definition spend_input (height : Z) (tx : Transaction) (s : UTXOSet) (inp : RingInput) : UTXOSet :=
  let s1 := with_keyImages (fun c => insert c (stored_ki (in_KeyImage inp))) s in
  if UsesCLSAG tx then s1
  else match find_spent s1 (in_AmountCommit inp) (stateTransitionRingMembers tx inp) with
       | Some (m, u) => spend_member height m u s1
       | None => s1
       end.

(** The canonical key image of a version 4 stake payload. *)
Definition stake_v4_ki (tx : Transaction) : option KeyImage :=
  if IsStake tx && len_is (Extra tx) StakePayload.StakePayloadSizeV4 then
    match StakePayload.DecodeStakeExtraV4 (Extra tx) with
    | Ok (_, ki, _) => CanonicalKeyImage ki
    | Err _ => None
    end
  else None.

Definition new_utxo (height : Z) (tx : Transaction) (txHash : Hash32) (i : nat) (out : Output) : UTXO :=
  mkUTXO txHash (wrap32 (Z.of_nat i)) (OneTimePub out) (TxPubKey out) (AmountCommit out)
    (EncAmount out) height (IsGuardianFund tx).

Definition add_output (height : Z) (s : UTXOSet) (u : UTXO) : UTXOSet :=
  let s1 := with_utxos <[key_of u := u]> s in
  let s2 := if u_ProtocolLocked u then s1 else with_byPubKey <[u_OneTimePub u := u]> s1 in
  trackCLSAGRecentLocked (key_of u) height s2.

(** The records a transaction creates, in order. *)
Definition tx_outputs (height : Z) (tx : Transaction) : list UTXO :=
  imap (new_utxo height tx (Hash tx)) (Outputs tx).

Definition apply_tx (height : Z) (s : UTXOSet) (tx : Transaction) : UTXOSet :=
  let s1 := foldl (spend_input height tx) s (Inputs tx) in
  let s2 := match stake_v4_ki tx with
            | Some ki => with_keyImages (fun c => insert c ki) s1
            | None => s1
            end in
  foldl (add_output height) s2 (tx_outputs height tx).

Definition applyTxsLocked (b : Block) (s : UTXOSet) : UTXOSet :=
  foldl (apply_tx (Height (Header b))) s (Txs b).

Definition ReplayBlockKnownSpends := applyTxsLocked.

(** Pass 1: the key images and outpoints reserved so far. *)
Record Reserved := mkReserved { seen : gset KeyImage; consumed : gset UTXOKey }.

Definition reserve_ki (s : UTXOSet) (r : Reserved) (ki : KeyImage) : result Reserved :=
  need canonical from CanonicalKeyImage ki else "invalid key image" ;;
  reject contains (keyImages s) canonical with "key image already spent" ;;
  reject bool_decide (canonical ∈ seen r) with "key image reused within the block" ;;
  Ok (mkReserved ({[canonical]} ∪ seen r) (consumed r)).

(** The legacy resolution loop: the first active member with the commitment that
    is not reserved, and whether a reserved one was met. *)
Fixpoint resolve_legacy (s : UTXOSet) (r : Reserved) (commit : Commitment) (ring : list RingMember)
    (alreadyReserved : bool) : option UTXO * bool :=
  match ring with
  | [] => (None, alreadyReserved)
  | m :: rest =>
      match byPubKey s !! m with
      | Some u =>
          if bool_decide (u_AmountCommit u = commit) then
            if bool_decide (key_of u ∈ consumed r) then resolve_legacy s r commit rest true
            else (Some u, alreadyReserved)
          else resolve_legacy s r commit rest alreadyReserved
      | None => resolve_legacy s r commit rest alreadyReserved
      end
  end.

Definition resolve_input (s : UTXOSet) (r : Reserved) (tx : Transaction) (inp : RingInput) : result UTXO :=
  if is_version TxVersionCommitmentBinding tx then
    need m from Ring inp !! Z.to_nat (byte_to_Z (RealIndex inp)) else "v4 real index out of range" ;;
    need u from byPubKey s !! m else "v4 real member is not an active UTXO" ;;
    reject negb (bool_decide (u_AmountCommit u = in_AmountCommit inp))
      with "v4 real member commitment mismatch" ;;
    Ok u
  else
    match resolve_legacy s r (in_AmountCommit inp) (Ring inp) false with
    | (Some u, _) => Ok u
    | (None, true) => Err "UTXO already consumed within block"
    | (None, false) => Err "no active ring member has matching commitment"
    end.

Definition check_input (s : UTXOSet) (tx : Transaction) (r : Reserved) (inp : RingInput) : result Reserved :=
  reject is_version TxVersionCommitmentBinding tx &&
         (Z.of_nat (length (Ring inp)) <=? byte_to_Z (RealIndex inp))
    with "v4 real index out of range" ;;
  r1 ← reserve_ki s r (in_KeyImage inp);
  if UsesCLSAG tx then Ok r1
  else
    u ← resolve_input s r1 tx inp;
    reject bool_decide (key_of u ∈ consumed r1) with "UTXO already consumed" ;;
    Ok (mkReserved (seen r1) ({[key_of u]} ∪ consumed r1)).

Definition check_tx (s : UTXOSet) (r : Reserved) (tx : Transaction) : result Reserved :=
  if IsStake tx && len_is (Extra tx) StakePayload.StakePayloadSizeV4 then
    d ← StakePayload.DecodeStakeExtraV4 (Extra tx);
    let '(_, keyImage, _) := d in reserve_ki s r keyImage
  else if IsCoinbase tx || IsStake tx then Ok r
  else foldM (check_input s tx) r (Inputs tx).

Definition ApplyBlock (b : Block) (s : UTXOSet) : result UTXOSet :=
  _ ← foldM (check_tx s) (mkReserved ∅ ∅) (Txs b);
  Ok (applyTxsLocked b s).

(** ** Rollback *)

Definition restore_entry (s : UTXOSet) (e : rollbackEntry) : UTXOSet :=
  with_spent (delete (ringMember e))
    (with_byPubKey <[ringMember e := re_utxo e]>
       (with_utxos <[key_of (re_utxo e) := re_utxo e]> s)).

Definition delete_output (s : UTXOSet) (u : UTXO) : UTXOSet :=
  with_byPubKey (delete (u_OneTimePub u)) (with_utxos (delete (key_of u)) s).

(** The fallback loop over the ring members of one input. *)
Fixpoint fallback_restore (journalRestored : gset Point32) (commit : Commitment)
    (members : list RingMember) (s : UTXOSet) : UTXOSet * list UTXOKey :=
  match members with
  | [] => (s, [])
  | m :: rest =>
      if bool_decide (m ∈ journalRestored) then (s, [])
      else match spentPubKeys s !! m with
           | Some u =>
               if bool_decide (u_AmountCommit u = commit) then
                 (with_utxos <[key_of u := u]> (with_byPubKey <[m := u]> (with_spent (delete m) s)),
                  [key_of u])
               else fallback_restore journalRestored commit rest s
           | None => fallback_restore journalRestored commit rest s
           end
  end.

Definition unspend_input (jr : gset Point32) (tx : Transaction)
    (acc : UTXOSet * list UTXOKey) (inp : RingInput) : UTXOSet * list UTXOKey :=
  let '(s, restored) := acc in
  let s1 := with_keyImages (fun c => remove c (stored_ki (in_KeyImage inp))) s in
  let '(s2, ks) := fallback_restore jr (in_AmountCommit inp) (stateTransitionRingMembers tx inp) s1 in
  (s2, restored ++ ks).

Definition rollback_tx (height : Z) (jr : gset Point32)
    (acc : UTXOSet * list UTXOKey) (tx : Transaction) : UTXOSet * list UTXOKey :=
  let '(s, restored) := acc in
  let s1 := foldl delete_output s (tx_outputs height tx) in
  let '(s2, restored2) := foldl (unspend_input jr tx) (s1, restored) (Inputs tx) in
  let s3 := match stake_v4_ki tx with
            | Some ki => with_keyImages (fun c => remove c ki) s2
            | None => s2
            end in
  (s3, restored2).

(** The set after the rollback, and the outpoints reported to the persistence
    callbacks as restored and as deleted. *)
Definition RollbackBlock (b : Block) (s : UTXOSet) : UTXOSet * list UTXOKey * list UTXOKey :=
  let height := Height (Header b) in
  let entries := default [] (rollbackJournal s !! height) in
  let s1 := with_journal (delete height) (foldl restore_entry s entries) in
  let jr : gset Point32 := list_to_set (ringMember <$> entries) in
  let '(s2, restored) :=
    foldl (rollback_tx height jr) (s1, (fun e => key_of (re_utxo e)) <$> entries) (Txs b) in
  (s2, restored, concat ((fun tx => key_of <$> tx_outputs height tx) <$> Txs b)).

(** Startup replay that only rebuilds the decoy pool. *)
Definition decoy_input (tx : Transaction) (s : UTXOSet) (inp : RingInput) : UTXOSet :=
  match find_spent s (in_AmountCommit inp) (stateTransitionRingMembers tx inp) with
  | Some (m, u) =>
      let s1 := with_utxos (delete (key_of u)) (with_byPubKey (delete m) s) in
      if Z.of_nat (size (spentPubKeys s1)) <? maxSpentDecoys then with_spent <[m := u]> s1 else s1
  | None => s
  end.

Definition ApplyBlockForSpentDecoys (b : Block) (s : UTXOSet) : UTXOSet :=
  foldl (fun s tx => if UsesCLSAG tx then s else foldl (decoy_input tx) s (Inputs tx)) s (Txs b).

End Blocks.

(** ** Order on key images *)

Lemma bytes_less_irrefl (a : list byte) : bytes_less a a = false.
Proof. induction a as [|x a IH]; [done|]. simpl. by rewrite bool_decide_eq_true_2. Qed.

Lemma byte_to_Z_inj (x y : byte) : byte_to_Z x = byte_to_Z y -> x = y.
Proof. intros He. by rewrite <- (byte_of_to_Z0 x), He, byte_of_to_Z0. Qed.

Lemma bytes_less_total (a b : list byte) :
  length a = length b -> a <> b -> bytes_less a b = negb (bytes_less b a).
Proof.
  revert b. induction a as [|x a IH]; intros [|y b] Hl Hn; try done. simpl.
  destruct (decide (x = y)) as [->|Hxy].
  - rewrite bool_decide_eq_true_2 by done. apply IH; [simpl in Hl; lia|congruence].
  - rewrite !bool_decide_eq_false_2 by congruence.
    assert (byte_to_Z x <> byte_to_Z y) by (intros ?; by apply Hxy, byte_to_Z_inj).
    destruct (Z.ltb_spec (byte_to_Z x) (byte_to_Z y)), (Z.ltb_spec (byte_to_Z y) (byte_to_Z x)); simpl; lia.
Qed.

Lemma bytes_less_trans (a b c : list byte) :
  bytes_less a b = true -> bytes_less b c = true -> bytes_less a c = true.
Proof.
  revert b c. induction a as [|x a IH]; intros [|y b] [|z c] Hab Hbc; try done. simpl in *.
  destruct (decide (x = y)) as [->|Hxy], (decide (y = z)) as [->|Hyz].
  - rewrite !bool_decide_eq_true_2 in * by done. eauto.
  - rewrite bool_decide_eq_true_2 in Hab by done. by rewrite !bool_decide_eq_false_2 in * by done.
  - rewrite bool_decide_eq_true_2 in Hbc by done. by rewrite !bool_decide_eq_false_2 in * by done.
  - rewrite !bool_decide_eq_false_2 in Hab, Hbc by done. zbool.
    rewrite bool_decide_eq_false_2; [lia|]. intros ->. lia.
Qed.

#[global] Instance kiLe_total : Total kiLe.
Proof.
  intros a b. unfold kiLe, kiLess. destruct (decide (a = b)) as [->|Hn]; [left; apply bytes_less_irrefl|].
  assert (arr_list a <> arr_list b) by (intros ?; by apply Hn, arr_ext).
  rewrite (bytes_less_total (arr_list b) (arr_list a)); [|by rewrite !arr_length|done].
  destruct (bytes_less (arr_list a) (arr_list b)); auto.
Qed.

#[global] Instance kiLe_antisymm : AntiSymm (=) kiLe.
Proof.
  intros a b Hab Hba. unfold kiLe, kiLess in *. apply arr_ext.
  destruct (decide (arr_list a = arr_list b)) as [|Hn]; [done|].
  rewrite (bytes_less_total (arr_list b) (arr_list a)), Hba in Hab; [done|by rewrite !arr_length|done].
Qed.

#[global] Instance kiLe_trans : Transitive kiLe.
Proof.
  intros a b c Hab Hbc. destruct (decide (a = b)) as [->|Hn]; [done|].
  destruct (decide (b = c)) as [->|Hn']; [done|]. unfold kiLe, kiLess in *.
  assert (forall x y : KeyImage, x <> y -> bytes_less (arr_list y) (arr_list x) = false ->
    bytes_less (arr_list x) (arr_list y) = true) as Hflip.
  { intros x y Hxy Hf. rewrite bytes_less_total, Hf; [done|by rewrite !arr_length|].
    intros ?; by apply Hxy, arr_ext. }
  destruct (bytes_less (arr_list c) (arr_list a)) eqn:E; [|done].
  assert (bytes_less (arr_list b) (arr_list b) = true); [|by rewrite bytes_less_irrefl in *].
  eapply bytes_less_trans; [by apply (Hflip b c)|]. eapply bytes_less_trans; [exact E|by apply Hflip].
Qed.

(** ** Binary search *)

Lemma search_loop_spec (f : nat -> bool) (n fuel i j : nat) :
  (forall a b, (a <= b)%nat -> (b < n)%nat -> f a = true -> f b = true) ->
  (i <= j <= n)%nat -> (j - i < fuel)%nat ->
  (forall k, (k < i)%nat -> f k = false) -> (forall k, (j <= k < n)%nat -> f k = true) ->
  let r := search_loop fuel f i j in
  (i <= r <= j)%nat /\ (forall k, (k < r)%nat -> f k = false) /\
  (forall k, (r <= k < n)%nat -> f k = true).
Proof.
  intros Hmono. revert i j. induction fuel as [|fuel IH]; intros i j Hij Hfuel Hlo Hhi; [lia|].
  cbn [search_loop]. destruct (Nat.ltb_spec i j) as [Hlt|Hge].
  - assert (Hh : (i <= Nat.div2 (i + j) < j)%nat).
    { rewrite Nat.div2_div. split; [apply Nat.div_le_lower_bound|apply Nat.Div0.div_lt_upper_bound]; lia. }
    set (h := Nat.div2 (i + j)) in *. destruct (f h) eqn:E.
    + destruct (IH i h) as (? & ? & ?); [lia|lia|done| |split_and!; try done; lia].
      intros k Hk. apply (Hmono h k); [lia|lia|done].
    + destruct (IH (S h) j) as (? & ? & ?); [lia|lia| |done|split_and!; try done; lia].
      intros k Hk. destruct (f k) eqn:Ek; [|done].
      assert (f h = true) by (apply (Hmono k h); [lia|lia|done]). congruence.
  - split_and!; [lia|lia|done|]. intros k Hk. apply Hhi. lia.
Qed.

Lemma StronglySorted_lookup {A} (R : A -> A -> Prop) (l : list A) (a b : nat) (x y : A) :
  StronglySorted R l -> (a < b)%nat -> l !! a = Some x -> l !! b = Some y -> R x y.
Proof.
  intros Hs. revert a b. induction Hs as [|z l Hs IH Hf]; intros [|a] [|b] Hab Hx Hy; try done; try lia.
  - simpl in Hx. injection Hx as ->. rewrite list.Forall_forall in Hf. by eapply Hf, list_elem_of_lookup_2.
  - eapply (IH a b); [lia|done..].
Qed.

Lemma StronglySorted_skip {A} (R : A -> A -> Prop) (l1 l2 : list A) (x : A) :
  StronglySorted R (l1 ++ x :: l2) -> StronglySorted R (l1 ++ l2).
Proof.
  induction l1 as [|y l1 IH]; simpl; inversion 1; subst; [done|].
  constructor; [by apply IH|]. rewrite list.Forall_forall in *. set_solver.
Qed.

(** In a sorted slice the index [sort.Search] returns holds [ki] iff [ki] occurs. *)
Lemma sorted_index_spec (l : list KeyImage) (ki : KeyImage) :
  StronglySorted kiLe l -> (l !! sorted_index l ki = Some ki <-> ki ∈ l).
Proof.
  intros Hs. split; [apply list_elem_of_lookup_2|]. intros Hin. apply list_elem_of_lookup in Hin as [p Hp].
  set (f := fun i => match l !! i with Some x => negb (kiLess x ki) | None => true end).
  assert (Hlt : (p < length l)%nat) by (apply lookup_lt_is_Some; by eexists).
  assert (Hss : forall a b x y, (a < b)%nat -> l !! a = Some x -> l !! b = Some y -> kiLe x y).
  { intros a b x y Hab Hx Hy. by eapply (StronglySorted_lookup _ _ a b). }
  assert (Hmono : forall a b, (a <= b)%nat -> (b < length l)%nat -> f a = true -> f b = true).
  { intros a b Hab Hb Hfa. destruct (decide (a = b)) as [->|]; [done|]. unfold f in *.
    destruct (lookup_lt_is_Some_2 l b Hb) as [y Hy].
    destruct (lookup_lt_is_Some_2 l a ltac:(lia)) as [x Hx]. rewrite Hx in Hfa. rewrite Hy.
    apply negb_true_iff. apply negb_true_iff in Hfa.
    assert (kiLe ki x) as H1 by done. assert (kiLe x y) as H2 by (eapply Hss; [|done..]; lia).
    exact (transitivity H1 H2). }
  destruct (search_loop_spec f (length l) (S (length l)) 0 (length l)) as (Hr & Hlo & Hhi);
    [done|lia|lia|lia|lia|].
  change (search_loop (S (length l)) f 0 (length l)) with (sorted_index l ki) in *.
  set (r := sorted_index l ki) in *.
  assert (f p = true) as Hfp by (unfold f; rewrite Hp; unfold kiLess; by rewrite bytes_less_irrefl).
  assert (r <= p)%nat as Hrp.
  { destruct (decide (r <= p)%nat); [done|]. rewrite (Hlo p) in Hfp by lia. done. }
  destruct (lookup_lt_is_Some_2 l r ltac:(lia)) as [x Hx]. rewrite Hx. f_equal.
  assert (f r = true) as Hfr by (apply Hhi; lia). unfold f in Hfr. rewrite Hx in Hfr. zbool.
  destruct (decide (r = p)) as [->|]; [congruence|].
  apply (anti_symm kiLe); [|exact Hfr]. eapply (Hss r p); [lia|done|done].
Qed.

(** ** The key-image set as a set *)

Definition in_set (c : compactKeyImageSet) (ki : KeyImage) : Prop :=
  ki ∈ recent c \/
  match kiDB c with
  | Some db => ki_fails db ki = false /\ ki ∈ ki_spent db
  | None => ki ∈ sorted c
  end.

(** The slice is sorted without duplicates, and shares nothing with [recent]. *)
Definition ki_wf (c : compactKeyImageSet) : Prop :=
  StronglySorted kiLe (sorted c) /\ NoDup (sorted c) /\ (kiDB c = None -> forall x, x ∈ recent c -> x ∉ sorted c).

Lemma contains_iff (c : compactKeyImageSet) (ki : KeyImage) :
  ki_wf c -> contains c ki = true <-> in_set c ki.
Proof.
  intros (Hs & _ & _). unfold contains, in_set. case_bool_decide; [naive_solver|].
  destruct (kiDB c) as [db|].
  - unfold IsKeyImageSpent. destruct (ki_fails db ki); simpl; [naive_solver|].
    rewrite bool_decide_eq_true. naive_solver.
  - rewrite bool_decide_eq_true, sorted_index_spec by done. naive_solver.
Qed.

Lemma insert_iff (c : compactKeyImageSet) (ki x : KeyImage) :
  ki_wf c -> in_set (insert c ki) x <-> x = ki \/ in_set c x.
Proof.
  intros Hwf. unfold insert. destruct (contains c ki) eqn:E.
  - apply contains_iff in E; [|done]. naive_solver.
  - unfold in_set. simpl. set_solver.
Qed.

Lemma insert_wf (c : compactKeyImageSet) (ki : KeyImage) : ki_wf c -> ki_wf (insert c ki).
Proof.
  intros Hwf. unfold insert. destruct (contains c ki) eqn:E; [done|].
  assert (Hw := Hwf). destruct Hwf as (Hs & Hn & Hd). split_and!; try done. simpl. intros Hdb x Hx.
  apply elem_of_union in Hx as [Hx|Hx]; [|by apply Hd]. apply elem_of_singleton in Hx as ->.
  intros Hin. assert (contains c ki = true); [|congruence]. apply contains_iff; [done|].
  right. by rewrite Hdb.
Qed.


Lemma drop_middle {A} (l1 l2 : list A) (x : A) : drop (S (length l1)) (l1 ++ x :: l2) = l2.
Proof. induction l1; simpl; [by rewrite drop_0|done]. Qed.

Lemma remove_iff (c : compactKeyImageSet) (ki x : KeyImage) :
  ki_wf c -> in_set (remove c ki) x <-> x <> ki /\ in_set c x.
Proof.
  intros (Hs & Hn & Hd). unfold remove, in_set. destruct (kiDB c) as [db|]; simpl.
  - unfold DeleteKeyImage. destruct (ki_fails db ki) eqn:Ef; simpl; [|set_solver].
    destruct (decide (x = ki)) as [->|]; [|set_solver]. rewrite Ef. set_solver.
  - case_bool_decide as Hi; simpl.
    + set (i := sorted_index (sorted c) ki) in *. apply list_elem_of_split_length in Hi as (l1 & l2 & He & Hl).
      rewrite He in Hn |- *. rewrite Hl, take_app_length, drop_middle.
      apply list.NoDup_app in Hn as (H1 & H2 & H3). apply list.NoDup_cons in H3 as [H3 H4]. set_solver.
    + rewrite sorted_index_spec in Hi by done. set_solver.
Qed.

Lemma remove_wf (c : compactKeyImageSet) (ki : KeyImage) : ki_wf c -> ki_wf (remove c ki).
Proof.
  intros (Hs & Hn & Hd). unfold remove. destruct (kiDB c) as [db|] eqn:Edb; [split_and!; simpl; done|].
  case_bool_decide as Hi; [|split_and!; simpl; try done; set_solver].
  set (i := sorted_index (sorted c) ki) in *. apply list_elem_of_split_length in Hi as (l1 & l2 & He & Hl).
  unfold ki_wf. simpl. rewrite He in *. rewrite Hl, take_app_length.
  rewrite drop_middle.
  split_and!.
  - by eapply StronglySorted_skip.
  - rewrite !list.NoDup_app, list.NoDup_cons in *. set_solver.
  - intros _ x Hx. specialize (Hd eq_refl x). set_solver.
Qed.

(** [CompactKeyImages] never forgets or invents a spent key image, provided the
    writes to the persistent index succeed. *)
Lemma compact_iff (c : compactKeyImageSet) (x : KeyImage) :
  (forall db ki, kiDB c = Some db -> ki ∈ recent c -> ki_fails db ki = false) ->
  in_set (compact c) x <-> in_set c x.
Proof.
  intros Hok. unfold compact. case_bool_decide as Hr; [done|]. unfold in_set.
  destruct (kiDB c) as [db|]; simpl.
  - assert (forall l db0, (forall ki, ki ∈ l -> ki_fails db0 ki = false) ->
      ki_fails (foldl MarkKeyImageSpent db0 l) = ki_fails db0 /\
      (forall y, y ∈ ki_spent (foldl MarkKeyImageSpent db0 l) <-> y ∈ l \/ y ∈ ki_spent db0)) as Hfold.
    { intros l. induction l as [|k l IH]; intros db0 Hl; simpl; [set_solver|].
      unfold MarkKeyImageSpent at 2 4. rewrite (Hl k) by set_solver.
      destruct (IH (mkStore ({[k]} ∪ ki_spent db0) (ki_fails db0))) as [E1 E2]; [simpl; set_solver|].
      split; [exact E1|]. intros y. rewrite E2. simpl. set_solver. }
    destruct (Hfold (elements (recent c)) db) as [E1 E2].
    { intros ki Hki. apply (Hok db); [done|set_solver]. }
    rewrite E1, E2, elem_of_elements. split; [|set_solver].
    intros [Hx|[Hf [Hx|Hx]]]; [set_solver|by left|by right].
  - rewrite (merge_sort_Permutation kiLe), elem_of_app, elem_of_elements. set_solver.
Qed.

Lemma compact_wf (c : compactKeyImageSet) : ki_wf c -> ki_wf (compact c).
Proof.
  intros (Hs & Hn & Hd). unfold compact. case_bool_decide; [done|].
  destruct (kiDB c) as [db|]; [by split_and!|]. split_and!; simpl; [| |set_solver].
  - apply (StronglySorted_merge_sort kiLe).
  - rewrite (merge_sort_Permutation kiLe), list.NoDup_app. split_and!; [done| |apply NoDup_elements].
    intros x Hx Hin. apply elem_of_elements in Hin. by apply (Hd eq_refl x).
Qed.

(** The three-tier key-image set behaves as a set: lookups (a map probe, then a
    store probe or a binary search) decide membership, insertion and removal add
    and delete exactly one element, compaction changes nothing, and all keep the
    slice sorted and free of duplicates. *)
Theorem key_image_set_refines (c : compactKeyImageSet) (ki : KeyImage) :
  ki_wf c ->
  (forall db x, kiDB c = Some db -> x ∈ recent c -> ki_fails db x = false) ->
  (forall x, contains c x = true <-> in_set c x) /\
  (forall x, contains (insert c ki) x = true <-> x = ki \/ in_set c x) /\
  (forall x, contains (remove c ki) x = true <-> x <> ki /\ in_set c x) /\
  (forall x, contains (compact c) x = true <-> in_set c x) /\
  ki_wf (insert c ki) /\ ki_wf (remove c ki) /\ ki_wf (compact c).
Proof.
  intros Hwf Hok. split_and!; auto using insert_wf, remove_wf, compact_wf; intros x.
  - by apply contains_iff.
  - rewrite contains_iff by by apply insert_wf. by apply insert_iff.
  - rewrite contains_iff by by apply remove_wf. by apply remove_iff.
  - rewrite contains_iff by by apply compact_wf. by apply compact_iff.
Qed.

(** ** Key images of blocks *)

Section Spending.
Context `{Crypto}.

Lemma track_frame (key : UTXOKey) (h : Z) (s : UTXOSet) :
  keyImages (trackCLSAGRecentLocked key h s) = keyImages s /\
  stakedUTXOs (trackCLSAGRecentLocked key h s) = stakedUTXOs s /\
  rollbackJournal (trackCLSAGRecentLocked key h s) = rollbackJournal s /\
  spentPubKeys (trackCLSAGRecentLocked key h s) = spentPubKeys s /\
  clsagActivationHeight (trackCLSAGRecentLocked key h s) = clsagActivationHeight s.
Proof. unfold trackCLSAGRecentLocked. repeat case_match; done. Qed.

Lemma add_output_frame (h : Z) (s : UTXOSet) (u : UTXO) :
  keyImages (add_output h s u) = keyImages s /\ stakedUTXOs (add_output h s u) = stakedUTXOs s /\
  rollbackJournal (add_output h s u) = rollbackJournal s /\
  spentPubKeys (add_output h s u) = spentPubKeys s /\
  clsagActivationHeight (add_output h s u) = clsagActivationHeight s.
Proof.
  unfold add_output.
  destruct (track_frame (key_of u) h (if u_ProtocolLocked u then with_utxos <[key_of u:=u]> s
    else with_byPubKey <[u_OneTimePub u:=u]> (with_utxos <[key_of u:=u]> s))) as (-> & -> & -> & -> & ->).
  by destruct (u_ProtocolLocked u).
Qed.

Lemma spend_input_frame (h : Z) (tx : Transaction) (s : UTXOSet) (inp : RingInput) :
  keyImages (spend_input h tx s inp) = insert (keyImages s) (stored_ki (in_KeyImage inp)) /\
  stakedUTXOs (spend_input h tx s inp) = stakedUTXOs s.
Proof.
  unfold spend_input, spend_member. destruct (UsesCLSAG tx); [done|].
  destruct (find_spent _ _ _) as [[m u]|]; [|done]. by destruct (_ <? _).
Qed.

(** The key images a transaction stores, in order. *)
Definition tx_stored (tx : Transaction) : list KeyImage :=
  ((fun inp => stored_ki (in_KeyImage inp)) <$> Inputs tx) ++ option_list (stake_v4_ki tx).

Lemma apply_tx_keyImages (h : Z) (s : UTXOSet) (tx : Transaction) :
  keyImages (apply_tx h s tx) = foldl insert (keyImages s) (tx_stored tx) /\
  stakedUTXOs (apply_tx h s tx) = stakedUTXOs s.
Proof.
  assert (Hout : forall l s, keyImages (foldl (add_output h) s l) = keyImages s /\
    stakedUTXOs (foldl (add_output h) s l) = stakedUTXOs s).
  { intros l. induction l as [|u l IH]; intros s1; [done|]. simpl.
    destruct (IH (add_output h s1 u)) as [-> ->]. by destruct (add_output_frame h s1 u) as (-> & -> & _). }
  assert (Hin : forall l s, keyImages (foldl (spend_input h tx) s l) =
      foldl insert (keyImages s) ((fun inp => stored_ki (in_KeyImage inp)) <$> l) /\
    stakedUTXOs (foldl (spend_input h tx) s l) = stakedUTXOs s).
  { intros l. induction l as [|i l IH]; intros s1; [done|]. simpl.
    destruct (IH (spend_input h tx s1 i)) as [-> ->]. by destruct (spend_input_frame h tx s1 i) as [-> ->]. }
  unfold apply_tx, tx_stored. rewrite foldl_app.
  destruct (Hout (tx_outputs h tx) (match stake_v4_ki tx with
    | Some ki => with_keyImages (fun c => insert c ki) (foldl (spend_input h tx) s (Inputs tx))
    | None => foldl (spend_input h tx) s (Inputs tx) end)) as [-> ->].
  destruct (Hin (Inputs tx) s) as [E1 E2]. by destruct (stake_v4_ki tx); simpl; rewrite ?E1, ?E2.
Qed.

Lemma apply_keyImages (b : Block) (s : UTXOSet) :
  keyImages (applyTxsLocked b s) = foldl insert (keyImages s) (concat (tx_stored <$> Txs b)) /\
  stakedUTXOs (applyTxsLocked b s) = stakedUTXOs s.
Proof.
  unfold applyTxsLocked. generalize (Height (Header b)) as h. intros h. revert s.
  induction (Txs b) as [|tx l IH]; intros s; [done|]. cbn [foldl].
  destruct (IH (apply_tx h s tx)) as [-> ->]. destruct (apply_tx_keyImages h s tx) as [-> ->].
  rewrite fmap_cons. cbn [concat]. by rewrite foldl_app.
Qed.

Lemma inserts_iff (c : compactKeyImageSet) (l : list KeyImage) :
  ki_wf c -> ki_wf (foldl insert c l) /\ (forall x, in_set (foldl insert c l) x <-> x ∈ l \/ in_set c x).
Proof.
  revert c. induction l as [|k l IH]; intros c Hwf; simpl; [split; [done|set_solver]|].
  destruct (IH (insert c k)) as [Hw Hi]; [by apply insert_wf|]. split; [done|].
  intros x. rewrite Hi, insert_iff by done. set_solver.
Qed.

Lemma removes_iff (c : compactKeyImageSet) (l : list KeyImage) :
  ki_wf c -> ki_wf (foldl remove c l) /\ (forall x, in_set (foldl remove c l) x <-> (x ∉ l) /\ in_set c x).
Proof.
  revert c. induction l as [|k l IH]; intros c Hwf; simpl; [split; [done|set_solver]|].
  destruct (IH (remove c k)) as [Hw Hi]; [by apply remove_wf|]. split; [done|].
  intros x. rewrite Hi, remove_iff by done. set_solver.
Qed.

(** ** Pass 1 *)

(** The key images pass 1 checks, canonicalised. *)
Definition tx_checked (tx : Transaction) : list (option KeyImage) :=
  if IsStake tx && len_is (Extra tx) StakePayload.StakePayloadSizeV4 then
    match StakePayload.DecodeStakeExtraV4 (Extra tx) with
    | Ok (_, ki, _) => [CanonicalKeyImage ki]
    | Err _ => [None]
    end
  else if IsCoinbase tx || IsStake tx then []
  else (fun inp => CanonicalKeyImage (in_KeyImage inp)) <$> Inputs tx.

(** [kis] are fresh: not spent in [s], not among those seen, pairwise distinct. *)
Definition fresh_kis (s : UTXOSet) (r r' : Reserved) (kis : list KeyImage) : Prop :=
  NoDup kis /\ (forall k, k ∈ kis -> contains (keyImages s) k = false /\ k ∉ seen r) /\
  (forall k, k ∈ seen r' <-> k ∈ kis \/ k ∈ seen r).

Lemma fresh_kis_app (s : UTXOSet) (r1 r2 r3 : Reserved) (k1 k2 : list KeyImage) :
  fresh_kis s r1 r2 k1 -> fresh_kis s r2 r3 k2 -> fresh_kis s r1 r3 (k1 ++ k2).
Proof.
  intros (N1 & F1 & S1) (N2 & F2 & S2). split_and!.
  - apply list.NoDup_app. split_and!; [done| |done]. intros x Hx Hx2. apply F2 in Hx2 as [_ Hx2].
    apply Hx2, S1. by left.
  - intros k Hk. apply elem_of_app in Hk as [Hk|Hk]; [by apply F1|].
    apply F2 in Hk as [? Hk]. split; [done|]. intros ?. apply Hk, S1. by right.
  - intros k. rewrite S2, S1, elem_of_app. tauto.
Qed.

Lemma reserve_fresh (s : UTXOSet) (r r' : Reserved) (ki : KeyImage) :
  reserve_ki s r ki = Ok r' -> exists c, CanonicalKeyImage ki = Some c /\ fresh_kis s r r' [c].
Proof.
  unfold reserve_ki. intros Hr. destruct (CanonicalKeyImage ki) as [c|]; [|done].
  apply reject_ok in Hr as [H1 Hr]. apply reject_ok in Hr as [H2 Hr]. injection Hr as <-. zbool.
  exists c. split; [done|]. split_and!; [apply NoDup_singleton| |simpl; set_solver].
  intros k Hk. apply list_elem_of_singleton in Hk as ->. done.
Qed.

Lemma check_input_fresh (s : UTXOSet) (tx : Transaction) (r r' : Reserved) (inp : RingInput) :
  check_input s tx r inp = Ok r' ->
  exists c, CanonicalKeyImage (in_KeyImage inp) = Some c /\ fresh_kis s r r' [c].
Proof.
  unfold check_input. intros Hc. apply reject_ok in Hc as [_ Hc]. apply bind_ok in Hc as (r1 & Hr & Hc).
  apply reserve_fresh in Hr as (c & Hcan & Hf). exists c. split; [done|].
  destruct (UsesCLSAG tx); [by injection Hc as <-|]. apply bind_ok in Hc as (u & _ & Hc).
  apply reject_ok in Hc as [_ Hc]. by injection Hc as <-.
Qed.

Lemma check_tx_fresh (s : UTXOSet) (r r' : Reserved) (tx : Transaction) :
  check_tx s r tx = Ok r' -> exists kis, tx_checked tx = Some <$> kis /\ fresh_kis s r r' kis.
Proof.
  assert (Hnil : forall r, fresh_kis s r r []) by (intros; split_and!; [constructor|set_solver..]).
  unfold check_tx, tx_checked. destruct (_ && _).
  - intros Hc. apply bind_ok in Hc as ([[d ki] p] & -> & Hc).
    apply reserve_fresh in Hc as (c & -> & Hf). by exists [c].
  - destruct (_ || _); [intros [= <-]; by exists []|].
    revert r. induction (Inputs tx) as [|inp l IH]; intros r Hc; simpl in Hc; [injection Hc as <-; by exists []|].
    apply bind_ok in Hc as (r1 & Hi & Hc). apply check_input_fresh in Hi as (c & Hcan & Hf).
    destruct (IH _ Hc) as (kis & Hk & Hf'). exists (c :: kis).
    rewrite !fmap_cons, Hcan, Hk. split; [done|]. by apply (fresh_kis_app s r r1 r' [c]).
Qed.

Lemma check_block_fresh (s : UTXOSet) (r r' : Reserved) (txs : list Transaction) :
  foldM (check_tx s) r txs = Ok r' ->
  exists kis, concat (tx_checked <$> txs) = Some <$> kis /\ fresh_kis s r r' kis.
Proof.
  revert r. induction txs as [|tx txs IH]; intros r Hc; simpl in Hc.
  - injection Hc as <-. exists []. split; [done|]. split_and!; [constructor|set_solver..].
  - apply bind_ok in Hc as (r1 & Hi & Hc). apply check_tx_fresh in Hi as (k1 & E1 & F1).
    destruct (IH _ Hc) as (k2 & E2 & F2). exists (k1 ++ k2).
    rewrite fmap_cons. cbn [concat]. rewrite E1, E2, fmap_app. split; [done|].
    by eapply fresh_kis_app.
Qed.

(** A checked key image is among the stored ones. *)
Lemma checked_stored (tx : Transaction) (k : KeyImage) :
  Some k ∈ tx_checked tx -> k ∈ tx_stored tx.
Proof.
  unfold tx_checked, tx_stored, stake_v4_ki. destruct (_ && _).
  - destruct (StakePayload.DecodeStakeExtraV4 _) as [[[d ki] p]|]; [|set_solver].
    intros Hk. apply list_elem_of_singleton in Hk. rewrite <- Hk. set_solver.
  - destruct (_ || _); [set_solver|]. intros Hk. apply list_elem_of_fmap in Hk as (inp & Hk & Hin).
    apply elem_of_app. left. apply list_elem_of_fmap. exists inp. split; [|done].
    unfold stored_ki. by rewrite <- Hk.
Qed.

Definition block_key_images (b : Block) : list (option KeyImage) := concat (tx_checked <$> Txs b).

Lemma apply_block_fresh (b : Block) (s s' : UTXOSet) :
  ki_wf (keyImages s) -> ApplyBlock b s = Ok s' ->
  ki_wf (keyImages s') /\
  (forall k, contains (keyImages s) k = true -> contains (keyImages s') k = true) /\
  exists kis, block_key_images b = Some <$> kis /\ NoDup kis /\
    (forall k, k ∈ kis -> contains (keyImages s) k = false /\ contains (keyImages s') k = true).
Proof.
  intros Hwf Hap. unfold ApplyBlock in Hap. apply bind_ok in Hap as (r & Hc & Hap). injection Hap as <-.
  destruct (apply_keyImages b s) as [Hk _].
  destruct (inserts_iff (keyImages s) (concat (tx_stored <$> Txs b)) Hwf) as [Hw Hi].
  rewrite Hk. split_and!; [done| |].
  - intros k. rewrite !contains_iff by done. rewrite Hi. by right.
  - apply check_block_fresh in Hc as (kis & Ek & Hn & Hf & _). exists kis. split_and!; [done|done|].
    intros k Hin. split; [by apply Hf|]. rewrite contains_iff by done. apply Hi. left.
    assert (Some k ∈ block_key_images b) as Hb by (unfold block_key_images; rewrite Ek; by apply list_elem_of_fmap_2).
    unfold block_key_images in Hb. clear -Hb. induction (Txs b) as [|tx l IH]; [by apply elem_of_nil in Hb|].
    rewrite fmap_cons in *. cbn [concat] in *. apply elem_of_app.
    apply elem_of_app in Hb as [Hb|Hb]; [left; exact (checked_stored tx k Hb)|right; exact (IH Hb)].
Qed.

(** The key images of spends: of an input outside the stake transactions, or of a
    version 4 stake deposit. *)
Definition spends (bs : list Block) (ki : option KeyImage) : Prop :=
  exists b tx, b ∈ bs /\ tx ∈ Txs b /\
    ((IsStake tx = false /\ exists inp, inp ∈ Inputs tx /\ ki = CanonicalKeyImage (in_KeyImage inp)) \/
     exists k, ki = Some k /\ stake_v4_ki tx = Some k).

Lemma spends_checked bs ki : spends bs ki -> ki ∈ concat (block_key_images <$> bs).
Proof.
  intros (b & tx & Hb & Htx & Hki). unfold block_key_images.
  assert (Hin : ki ∈ tx_checked tx).
  { unfold tx_checked. destruct Hki as [(Hs & inp & Hinp & ->)|(k & -> & Hk)].
    - rewrite Hs. cbn [andb orb]. assert (Hc : IsCoinbase tx = false) by (unfold IsCoinbase; by destruct (Inputs tx); [apply elem_of_nil in Hinp|]).
      rewrite Hc. cbn [orb]. apply list_elem_of_fmap. eauto.
    - unfold stake_v4_ki in Hk. destruct (_ && _); [|done].
      destruct (StakePayload.DecodeStakeExtraV4 _) as [[[d k'] p]|]; [|done]. rewrite Hk. left. }
  apply list_elem_of_In, in_concat. exists (concat (tx_checked <$> Txs b)). split.
  - apply list_elem_of_In, list_elem_of_fmap. eauto.
  - apply in_concat. exists (tx_checked tx). split; apply list_elem_of_In; [|done]. apply list_elem_of_fmap. eauto.
Qed.

End Spending.

(** C1: no double spend: over any sequence of blocks ApplyBlock accepts, over a
    well-formed store of spent key images, every input of a transaction that is not a
    stake transaction and every version 4 stake deposit has a canonical key image;
    these are pairwise distinct across the whole sequence (each occurrence counts),
    none was spent before it, and all are spent after it.  The inputs of stake
    transactions, which the first pass skips, are not covered. *)
Theorem no_double_spend `{Crypto} (bs : list Block) (s s' : UTXOSet) :
  ki_wf (keyImages s) -> foldM (fun s b => ApplyBlock b s) s bs = Ok s' ->
  exists kis, concat (block_key_images <$> bs) = Some <$> kis /\ NoDup kis /\
    (forall ki, spends bs ki -> exists k, ki = Some k /\ k ∈ kis) /\
    (forall k, k ∈ kis -> contains (keyImages s) k = false /\ contains (keyImages s') k = true).
Proof.
  assert (forall bs s s', ki_wf (keyImages s) -> foldM (fun s b => ApplyBlock b s) s bs = Ok s' ->
    (forall k, contains (keyImages s) k = true -> contains (keyImages s') k = true) /\
    exists kis, concat (block_key_images <$> bs) = Some <$> kis /\ NoDup kis /\
    (forall k, k ∈ kis -> contains (keyImages s) k = false /\ contains (keyImages s') k = true)) as Hmain;
    [|intros Hwf Hf; destruct (Hmain bs s s' Hwf Hf) as (_ & kis & E & N & F); exists kis; split_and!; [done|done| |done];
     intros ki Hki%spends_checked; rewrite E in Hki; apply list_elem_of_fmap in Hki as (k & -> & Hk); by exists k].
  clear bs s s'. induction bs as [|b bs IH]; intros s s' Hwf Hf; simpl in Hf.
  - injection Hf as <-. split; [done|]. exists []. split_and!; [done|constructor|set_solver].
  - apply bind_ok in Hf as (s1 & Hb & Hf).
    destruct (apply_block_fresh b s s1 Hwf Hb) as (Hw1 & Hm1 & k1 & E1 & N1 & F1).
    destruct (IH s1 s' Hw1 Hf) as (Hm2 & k2 & E2 & N2 & F2). split; [by auto|].
    exists (k1 ++ k2). rewrite fmap_cons. cbn [concat]. rewrite E1, E2, fmap_app. split_and!; [done| |].
    + apply list.NoDup_app. split_and!; try done. intros k Hk1 Hk2.
      destruct (F1 k Hk1), (F2 k Hk2). congruence.
    + intros k Hk. apply elem_of_app in Hk as [Hk|Hk].
      * destruct (F1 k Hk). auto.
      * destruct (F2 k Hk) as [Hs1 ?]. split; [|done].
        destruct (contains (keyImages s) k) eqn:E; [|done]. apply Hm1 in E. congruence.
Qed.
End Utxo.
