(* ===== verification/UtxoRollback.v ===== *)
(** Undoing a block: [RollbackBlock] after [ApplyBlock] in [core/utxo.go], and
    the staking burns [MarkStaked]/[UnmarkStaked]. *)

From stdpp Require Import base gmap list strings sorting.
From S2P Require Import Prelude Bytes Undo Crypto Avm StakePayload Transaction Utxo.
Import Undo Transaction Utxo.

Module UtxoRollback.

(** ** Undoing a block *)

(** The two indexes agree: an entry by one-time key is the entry by outpoint. *)
Definition idx_ok (s : UTXOSet) : Prop :=
  (forall m u, byPubKey s !! m = Some u -> u_OneTimePub u = m /\ utxos s !! key_of u = Some u) /\
  (forall k u, utxos s !! k = Some u -> key_of u = k).

(** The bindings of a journal under the two indexes. *)
Definition by_key (J : list rollbackEntry) : list (UTXOKey * UTXO) :=
  (fun e => (key_of (re_utxo e), re_utxo e)) <$> J.
Definition by_member (J : list rollbackEntry) : list (Point32 * UTXO) :=
  (fun e => (ringMember e, re_utxo e)) <$> J.

(** The journal entries of a height. *)
Definition entries_at (h : Z) (s : UTXOSet) : list rollbackEntry := default [] (rollbackJournal s !! h).

(** While a block of height [h] is applied to [s0]: [outs] are the outputs added
    so far and [room] the number of outputs still to come. *)
Record applying (h : Z) (s0 : UTXOSet) (outs : list UTXO) (room : Z) (s : UTXOSet) : Prop := {
  ap_idx : idx_ok s;
  ap_utxos : undoes (utxos s0) (by_key (entries_at h s)) (key_of <$> outs) (utxos s);
  ap_pubs : undoes (byPubKey s0) (by_member (entries_at h s)) (u_OneTimePub <$> outs) (byPubKey s);
  ap_journal : delete h (rollbackJournal s) = rollbackJournal s0 /\
    Z.of_nat (size (rollbackJournal s0)) < maxRollbackDepth;
  ap_room : clsagActivationHeight s = 0 \/
    Z.of_nat (length (clsagRecentOutputs s)) + room <= maxCLSAGRecentOutputs;
  ap_spent : forall m u, spentPubKeys s !! m = Some u ->
    m ∈ ringMember <$> entries_at h s \/ spentPubKeys s0 !! m = Some u
}.

Section Rollback.
Context `{Crypto}.

Lemma find_spent_active (s : UTXOSet) (c : Commitment) (ms : list RingMember) m u :
  find_spent s c ms = Some (m, u) -> byPubKey s !! m = Some u.
Proof.
  induction ms as [|x ms IH]; simpl; [done|]. intros Hf.
  destruct (byPubKey s !! x) as [u'|] eqn:E; [|by apply IH].
  case_bool_decide; [by simplify_eq|by apply IH].
Qed.

Lemma journal_add_small (h : Z) (e : rollbackEntry) (j : gmap Z (list rollbackEntry)) :
  Z.of_nat (size (delete h j)) < maxRollbackDepth ->
  journal_add h e j = <[h := default [] (j !! h) ++ [e]]> j.
Proof.
  intros Hs. unfold journal_add, prune_journal.
  rewrite <- (insert_delete_eq j), map_size_insert_None by apply lookup_delete_eq.
  destruct (Z.ltb_spec maxRollbackDepth (Z.of_nat (S (size (delete h j))))); [lia|done].
Qed.

Lemma spend_member_applying h s0 outs room s m u :
  applying h s0 outs room s -> byPubKey s !! m = Some u ->
  applying h s0 outs room (spend_member h m u s).
Proof.
  intros [Hidx Hu Hp [Hj Hsz] Hr Hsp] Hm. destruct (proj1 Hidx m u Hm) as [Hpub Hk].
  assert (Hent : entries_at h (spend_member h m u s) = entries_at h s ++ [mkEntry m u]).
  { unfold entries_at, spend_member. destruct (_ <? _); simpl;
      (rewrite journal_add_small by (rewrite Hj; done); by rewrite lookup_insert_eq). }
  assert (Hbase : utxos (spend_member h m u s) = delete (key_of u) (utxos s) /\
    byPubKey (spend_member h m u s) = delete m (byPubKey s) /\
    rollbackJournal (spend_member h m u s) = journal_add h (mkEntry m u) (rollbackJournal s) /\
    clsagActivationHeight (spend_member h m u s) = clsagActivationHeight s /\
    clsagRecentOutputs (spend_member h m u s) = clsagRecentOutputs s /\
    (forall m' u', spentPubKeys (spend_member h m u s) !! m' = Some u' ->
       m' = m \/ spentPubKeys s !! m' = Some u')).
  { unfold spend_member. destruct (_ <? _); simpl; split_and!; try done; [|auto].
    intros m' u'. destruct (decide (m' = m)) as [->|]; [by left|]. rewrite lookup_insert_ne by done. auto. }
  destruct Hbase as (E1 & E2 & E3 & E4 & E5 & E6).
  constructor; rewrite ?Hent, ?E1, ?E2, ?E3, ?E4, ?E5; try done.
  - split; rewrite ?E1, ?E2.
    + intros m' u' Hm'. apply lookup_delete_Some in Hm' as [Hne Hm'].
      destruct (proj1 Hidx m' u' Hm') as [Hpub' Hk']. split; [done|].
      rewrite lookup_delete_ne; [done|]. intros He. rewrite He in Hk. congruence.
    + intros k' u' Hk'. apply lookup_delete_Some in Hk' as [_ Hk']. by apply (proj2 Hidx).
  - unfold by_key. rewrite fmap_app. by apply undoes_spend.
  - unfold by_member. rewrite fmap_app. by apply undoes_spend.
  - split; [|done]. rewrite journal_add_small by by rewrite Hj. by rewrite delete_insert_eq.
  - intros m' u' Hs. rewrite fmap_app. apply E6 in Hs as [->|Hs]; [left; set_solver|].
    apply Hsp in Hs as [?|?]; [left; set_solver|by right].
Qed.

Lemma keyImages_applying h s0 outs room s f :
  applying h s0 outs room s -> applying h s0 outs room (with_keyImages f s).
Proof. by intros []. Qed.

Lemma spend_input_applying h s0 outs room tx s inp :
  applying h s0 outs room s -> applying h s0 outs room (spend_input h tx s inp).
Proof.
  intros Ha. unfold spend_input. destruct (UsesCLSAG tx); [by apply keyImages_applying|].
  destruct (find_spent _ _ _) as [[m u]|] eqn:Ef; [|by apply keyImages_applying].
  apply spend_member_applying; [by apply keyImages_applying|by apply find_spent_active in Ef].
Qed.

(** With room left, tracking an output only appends to the recent list. *)
Lemma track_room (key : UTXOKey) (h : Z) (s : UTXOSet) :
  clsagActivationHeight s = 0 \/ Z.of_nat (length (clsagRecentOutputs s)) + 1 <= maxCLSAGRecentOutputs ->
  utxos (trackCLSAGRecentLocked key h s) = utxos s /\
  byPubKey (trackCLSAGRecentLocked key h s) = byPubKey s /\
  (clsagActivationHeight s = 0 \/
   Z.of_nat (length (clsagRecentOutputs (trackCLSAGRecentLocked key h s))) <=
   Z.of_nat (length (clsagRecentOutputs s)) + 1).
Proof.
  intros Hr. unfold trackCLSAGRecentLocked.
  generalize (match utxos s !! key with Some u => u_ProtocolLocked u | None => false end) as locked.
  intros []; [split_and!; auto; lia|].
  destruct (Z.eqb_spec (clsagActivationHeight s) 0); [split_and!; auto|]. cbn [orb].
  destruct (_ <? _); [split_and!; auto; lia|]. rewrite length_app. simpl.
  destruct (Z.leb_spec (Z.of_nat (length (clsagRecentOutputs s) + 1)) maxCLSAGRecentOutputs); [|lia].
  simpl. rewrite length_app. simpl. split_and!; auto; lia.
Qed.

Lemma add_output_applying h s0 outs room s u :
  applying h s0 outs (room + 1) s -> 0 <= room ->
  utxos s0 !! key_of u = None -> byPubKey s0 !! u_OneTimePub u = None ->
  key_of u ∉ key_of <$> outs -> u_OneTimePub u ∉ u_OneTimePub <$> outs ->
  applying h s0 (outs ++ [u]) room (add_output h s u).
Proof.
  intros [Hidx Hu Hp Hj Hr Hsp] Hroom Hk0 Hp0 Hk Hpk.
  destruct (add_output_frame h s u) as (_ & _ & F3 & F4 & F5).
  set (s1 := if u_ProtocolLocked u then with_utxos <[key_of u:=u]> s
             else with_byPubKey <[u_OneTimePub u:=u]> (with_utxos <[key_of u:=u]> s)).
  assert (Hs1 : utxos s1 = <[key_of u:=u]> (utxos s) /\ clsagActivationHeight s1 = clsagActivationHeight s /\
    clsagRecentOutputs s1 = clsagRecentOutputs s) by (subst s1; by destruct (u_ProtocolLocked u)).
  destruct Hs1 as (S1 & S2 & S3).
  destruct (track_room (key_of u) h s1) as (T1 & T2 & T3); [rewrite S2, S3; lia|].
  change (trackCLSAGRecentLocked (key_of u) h s1) with (add_output h s u) in *.
  destruct (undoes_fresh _ _ _ _ _ Hu Hk0 Hk) as [HkU _].
  destruct (undoes_fresh _ _ _ _ _ Hp Hp0 Hpk) as [HpB _].
  assert (Hent : entries_at h (add_output h s u) = entries_at h s) by (unfold entries_at; by rewrite F3).
  constructor; rewrite ?Hent, ?T1, ?T2, ?F3, ?F5, ?S1, ?F4; try done.
  - split; rewrite ?T1, ?T2, ?S1.
    + intros m' u' Hm'. subst s1. destruct (u_ProtocolLocked u); simpl in Hm'.
      * destruct (proj1 Hidx m' u' Hm') as [? Hk']. split; [done|].
        rewrite lookup_insert_ne; [done|]. intros He. congruence.
      * apply lookup_insert_Some in Hm' as [[<- <-]|[Hne Hm']]; [by rewrite lookup_insert_eq|].
        destruct (proj1 Hidx m' u' Hm') as [? Hk']. split; [done|].
        rewrite lookup_insert_ne; [done|]. intros He. congruence.
    + intros k' u' Hk'. apply lookup_insert_Some in Hk' as [[<- <-]|[? Hk']]; [done|]. by apply (proj2 Hidx).
  - rewrite fmap_app. by apply undoes_add.
  - rewrite fmap_app. subst s1. destruct (u_ProtocolLocked u); simpl; [by apply undoes_del|by apply undoes_add].
  - rewrite S2, S3 in T3. lia.
Qed.

(** Outputs the block may add without clashing with the set or each other. *)
Definition fresh_outputs (s0 : UTXOSet) (outs : list UTXO) : Prop :=
  NoDup (key_of <$> outs) /\ NoDup (u_OneTimePub <$> outs) /\
  (forall u, u ∈ outs -> utxos s0 !! key_of u = None /\ byPubKey s0 !! u_OneTimePub u = None).

Lemma fresh_outputs_app (s0 : UTXOSet) (a b : list UTXO) :
  fresh_outputs s0 (a ++ b) -> fresh_outputs s0 a /\ fresh_outputs s0 b.
Proof.
  unfold fresh_outputs. rewrite !fmap_app, !list.NoDup_app. intros ((? & ? & ?) & (? & ? & ?) & Hf).
  split; split_and!; try done; intros u Hu; apply Hf; set_solver.
Qed.

Lemma add_outputs_applying h s0 outs room s l :
  applying h s0 outs (room + Z.of_nat (length l)) s -> 0 <= room ->
  fresh_outputs s0 (outs ++ l) -> applying h s0 (outs ++ l) room (foldl (add_output h) s l).
Proof.
  revert outs s. induction l as [|u l IH]; intros outs s Ha Hroom Hf.
  - simpl in *. rewrite app_nil_r in *. by rewrite Z.add_0_r in Ha.
  - cbn [foldl length] in *. rewrite (cons_middle u outs l), app_assoc in Hf |- *.
    apply IH; [|done|done]. apply fresh_outputs_app in Hf as [Hf _].
    destruct Hf as (Hk & Hp & Hfr). rewrite fmap_app in Hk. rewrite fmap_app in Hp.
    apply list.NoDup_app in Hk as (_ & Hk & _). apply list.NoDup_app in Hp as (_ & Hp & _).
    destruct (Hfr u) as [? ?]; [set_solver|].
    apply add_output_applying; try done; try lia.
    + by replace (room + Z.of_nat (length l) + 1) with (room + Z.of_nat (S (length l))) by lia.
    + intros Hin. apply (Hk _ Hin). set_solver.
    + intros Hin. apply (Hp _ Hin). set_solver.
Qed.

Lemma apply_tx_applying h s0 outs room tx s :
  applying h s0 outs (room + Z.of_nat (length (tx_outputs h tx))) s -> 0 <= room ->
  fresh_outputs s0 (outs ++ tx_outputs h tx) ->
  applying h s0 (outs ++ tx_outputs h tx) room (apply_tx h s tx).
Proof.
  intros Ha Hroom Hf. unfold apply_tx. apply add_outputs_applying; [|done|done].
  assert (forall l s, applying h s0 outs (room + Z.of_nat (length (tx_outputs h tx))) s ->
    applying h s0 outs (room + Z.of_nat (length (tx_outputs h tx))) (foldl (spend_input h tx) s l)) as Hin.
  { intros l. induction l as [|inp l IH]; intros s1 H1; [done|]. by apply IH, spend_input_applying. }
  destruct (stake_v4_ki tx); [apply keyImages_applying|]; by apply Hin.
Qed.

Definition outputs_of (h : Z) (txs : list Transaction) : list UTXO := concat (tx_outputs h <$> txs).

Lemma apply_txs_applying h s0 outs txs s :
  applying h s0 outs (Z.of_nat (length (outputs_of h txs))) s ->
  fresh_outputs s0 (outs ++ outputs_of h txs) ->
  applying h s0 (outs ++ outputs_of h txs) 0 (foldl (apply_tx h) s txs).
Proof.
  revert outs s. induction txs as [|tx txs IH]; intros outs s Ha Hf.
  - unfold outputs_of in *. simpl in *. by rewrite app_nil_r in *.
  - unfold outputs_of in *. rewrite fmap_cons in *. cbn [concat foldl] in *.
    rewrite app_assoc in Hf |- *. rewrite length_app in Ha. apply IH; [|done].
    apply apply_tx_applying; [|lia|by destruct (fresh_outputs_app _ _ _ Hf)].
    replace (Z.of_nat _ + Z.of_nat _) with (Z.of_nat (length (tx_outputs h tx) +
      length (concat (tx_outputs h <$> txs)))) by lia. done.
Qed.

(** ** The inverse *)

Lemma restore_frame (J : list rollbackEntry) (s : UTXOSet) :
  let s' := foldl restore_entry s J in
  utxos s' = put_all (by_key J) (utxos s) /\ byPubKey s' = put_all (by_member J) (byPubKey s) /\
  spentPubKeys s' = del_all (ringMember <$> J) (spentPubKeys s) /\ keyImages s' = keyImages s /\
  stakedUTXOs s' = stakedUTXOs s /\ rollbackJournal s' = rollbackJournal s.
Proof. revert s. induction J as [|e J IH]; intros s; [done|]. simpl. apply (IH (restore_entry s e)). Qed.

Lemma delete_outputs_frame (l : list UTXO) (s : UTXOSet) :
  let s' := foldl delete_output s l in
  utxos s' = del_all (key_of <$> l) (utxos s) /\ byPubKey s' = del_all (u_OneTimePub <$> l) (byPubKey s) /\
  spentPubKeys s' = spentPubKeys s /\ keyImages s' = keyImages s /\
  stakedUTXOs s' = stakedUTXOs s /\ rollbackJournal s' = rollbackJournal s.
Proof. revert s. induction l as [|u l IH]; intros s; [done|]. simpl. apply (IH (delete_output s u)). Qed.

(** No decoy of the pool [sp] carries the commitment of an input whose ring it
    is in: the situation in which the fallback of the rollback stays idle. *)
Definition no_decoy_clash (sp : gmap Point32 UTXO) (txs : list Transaction) : Prop :=
  forall tx inp m u, tx ∈ txs -> inp ∈ Inputs tx -> m ∈ stateTransitionRingMembers tx inp ->
    sp !! m = Some u -> u_AmountCommit u <> in_AmountCommit inp.

Lemma fallback_idle jr commit members s :
  (forall m u, m ∈ members -> spentPubKeys s !! m = Some u -> u_AmountCommit u <> commit) ->
  fallback_restore jr commit members s = (s, []).
Proof.
  induction members as [|m ms IH]; intros Hno; [done|]. simpl. case_bool_decide; [done|].
  destruct (spentPubKeys s !! m) as [u|] eqn:E; [|apply IH; set_solver].
  rewrite bool_decide_eq_false_2 by (apply (Hno m); [set_solver|done]). apply IH. set_solver.
Qed.

Lemma unspend_frame jr tx l s rs :
  (forall inp m u, inp ∈ l -> m ∈ stateTransitionRingMembers tx inp ->
     spentPubKeys s !! m = Some u -> u_AmountCommit u <> in_AmountCommit inp) ->
  foldl (unspend_input jr tx) (s, rs) l =
  (with_keyImages (fun c => foldl remove c ((fun inp => stored_ki (in_KeyImage inp)) <$> l)) s, rs).
Proof.
  revert s. induction l as [|inp l IH]; intros s Hno; [by destruct s|]. cbn [foldl].
  unfold unspend_input at 2. rewrite fallback_idle by (intros m u; simpl; apply Hno; by left).
  rewrite app_nil_r, IH; [done|]. intros inp' m u Hin. apply Hno. by right.
Qed.

Lemma rollback_tx_frame h jr tx s rs :
  no_decoy_clash (spentPubKeys s) [tx] ->
  let s' := fst (rollback_tx h jr (s, rs) tx) in
  snd (rollback_tx h jr (s, rs) tx) = rs /\
  utxos s' = del_all (key_of <$> tx_outputs h tx) (utxos s) /\
  byPubKey s' = del_all (u_OneTimePub <$> tx_outputs h tx) (byPubKey s) /\
  spentPubKeys s' = spentPubKeys s /\ keyImages s' = foldl remove (keyImages s) (tx_stored tx) /\
  stakedUTXOs s' = stakedUTXOs s /\ rollbackJournal s' = rollbackJournal s.
Proof.
  intros Hno. destruct (delete_outputs_frame (tx_outputs h tx) s) as (E1 & E2 & E3 & E4 & E5 & E6).
  unfold rollback_tx. rewrite unspend_frame.
  2:{ intros inp m u Hin Hm Hs. rewrite E3 in Hs. apply (Hno tx inp m u); [by left|done..]. }
  cbn zeta iota beta. unfold tx_stored. rewrite foldl_app.
  destruct (stake_v4_ki tx); simpl; rewrite ?E1, ?E2, ?E3, ?E4, ?E5, ?E6; done.
Qed.

Lemma rollback_txs_frame h jr txs s rs :
  no_decoy_clash (spentPubKeys s) txs ->
  let s' := fst (foldl (rollback_tx h jr) (s, rs) txs) in
  snd (foldl (rollback_tx h jr) (s, rs) txs) = rs /\
  utxos s' = del_all (key_of <$> outputs_of h txs) (utxos s) /\
  byPubKey s' = del_all (u_OneTimePub <$> outputs_of h txs) (byPubKey s) /\
  keyImages s' = foldl remove (keyImages s) (concat (tx_stored <$> txs)) /\
  stakedUTXOs s' = stakedUTXOs s /\ rollbackJournal s' = rollbackJournal s.
Proof.
  revert s rs. induction txs as [|tx txs IH]; intros s rs Hno; [done|]. cbn [foldl].
  destruct (rollback_tx_frame h jr tx s rs) as (R & E1 & E2 & E3 & E4 & E5 & E6).
  { intros t inp m u Ht. apply Hno. apply list_elem_of_singleton in Ht as ->. by left. }
  destruct (rollback_tx h jr (s, rs) tx) as [s1 rs1]. simpl in R, E1, E2, E3, E4, E5, E6. subst rs1.
  destruct (IH s1 rs) as (R' & I1 & I2 & I3 & I4 & I5).
  { intros t inp m u Ht. rewrite E3. apply Hno. by right. }
  unfold outputs_of in *. rewrite !fmap_cons. cbn [concat]. rewrite !fmap_app, !del_all_app, foldl_app.
  rewrite <- E1, <- E2, <- E4, <- E5, <- E6. done.
Qed.

(** Stake transactions carry no inputs (their inputs escape pass 1). *)
Definition stake_without_inputs (txs : list Transaction) : Prop :=
  Forall (fun tx => IsStake tx = true -> Inputs tx = []) txs.

(** Then what a transaction stores is what pass 1 checked. *)
Lemma stored_checked (tx : Transaction) (k : KeyImage) (kis : list KeyImage) :
  (IsStake tx = true -> Inputs tx = []) -> tx_checked tx = Some <$> kis ->
  k ∈ tx_stored tx -> k ∈ kis.
Proof.
  intros Hst Hc Hk. assert (Some k ∈ tx_checked tx) as Hin.
  2:{ rewrite Hc in Hin. apply list_elem_of_fmap in Hin as (k' & [= <-] & ?). done. }
  unfold tx_checked, tx_stored, stake_v4_ki in *. destruct (IsStake tx) eqn:Es; cbn [andb] in *.
  - rewrite Hst in Hk by done. simpl in Hk. destruct (len_is _ _).
    + destruct (StakePayload.DecodeStakeExtraV4 _) as [[[d ki] p]|]; [|set_solver].
      destruct (CanonicalKeyImage ki); simpl in Hk; set_solver.
    + set_solver.
  - destruct (IsCoinbase tx) eqn:Ecb; cbn [orb] in *.
    { assert (Inputs tx = []) as Hi by (unfold IsCoinbase in Ecb; by zbool).
      rewrite Hi in Hk. simpl in Hk. set_solver. }
    rewrite app_nil_r in Hk. apply list_elem_of_fmap in Hk as (inp & -> & Hin).
    assert (CanonicalKeyImage (in_KeyImage inp) ∈
      ((fun inp => CanonicalKeyImage (in_KeyImage inp)) <$> Inputs tx)) as Hx
      by (apply list_elem_of_fmap; by exists inp).
    rewrite Hc in Hx |- *. apply list_elem_of_fmap in Hx as (c & Hcan & Hin').
    unfold stored_ki. rewrite Hcan. simpl. by apply list_elem_of_fmap_2.
Qed.

End Rollback.

(** What a block must satisfy for its effects to be undone exactly: consistent
    indexes, new outputs and one-time keys not used before, no journal yet at its
    height and room in the journal and the recent-output window, no input whose
    commitment is that of a spent decoy in its ring, no inputs on stake
    transactions. *)
Record undoable `{Crypto} (b : Block) (s : UTXOSet) : Prop := {
  ud_ki : ki_wf (keyImages s);
  ud_idx : idx_ok s;
  ud_fresh : fresh_outputs s (outputs_of (Height (Header b)) (Txs b));
  ud_journal : rollbackJournal s !! Height (Header b) = None /\
    Z.of_nat (size (rollbackJournal s)) < maxRollbackDepth;
  ud_room : clsagActivationHeight s = 0 \/
    Z.of_nat (length (clsagRecentOutputs s)) +
    Z.of_nat (length (outputs_of (Height (Header b)) (Txs b))) <= maxCLSAGRecentOutputs;
  ud_decoys : no_decoy_clash (spentPubKeys s) (Txs b);
  ud_stake : stake_without_inputs (Txs b)
}.

Lemma undoable_applying `{Crypto} (b : Block) (s : UTXOSet) :
  undoable b s ->
  applying (Height (Header b)) s (outputs_of (Height (Header b)) (Txs b)) 0 (applyTxsLocked b s).
Proof.
  intros [Hki Hidx Hf [Hj Hsz] Hr Hd Hst]. unfold applyTxsLocked.
  apply (apply_txs_applying _ s []); [|done].
  assert (He : entries_at (Height (Header b)) s = []) by (unfold entries_at; by rewrite Hj).
  constructor; rewrite ?He; try done; [apply undoes_init..|split; [by apply delete_id|done]|by right].
Qed.

(** The key images of an accepted block, restored by removing what was inserted. *)
Lemma keyImages_undone `{Crypto} (b : Block) (s s' : UTXOSet) (ki : KeyImage) :
  undoable b s -> ApplyBlock b s = Ok s' ->
  contains (foldl remove (keyImages s') (concat (tx_stored <$> Txs b))) ki = contains (keyImages s) ki.
Proof.
  intros Hu Hap. assert (Hwf := ud_ki _ _ Hu). unfold ApplyBlock in Hap.
  apply bind_ok in Hap as (r & Hc & [= <-]). destruct (apply_keyImages b s) as [-> _].
  set (l := concat (tx_stored <$> Txs b)). destruct (inserts_iff (keyImages s) l Hwf) as [Hw Hi].
  destruct (removes_iff (foldl insert (keyImages s) l) l Hw) as [Hw2 Hi2].
  apply check_block_fresh in Hc as (kis & Ek & _ & Hfr & _).
  assert (forall x, x ∈ l -> contains (keyImages s) x = false) as Hnew.
  { intros x Hx. apply Hfr. clear -Hx Ek Hu. subst l. assert (Hst := ud_stake _ _ Hu). clear Hu.
    revert kis Ek Hx. induction Hst as [|tx txs Htx Hst IH]; intros kis Ek Hx; [by apply elem_of_nil in Hx|].
    rewrite fmap_cons in *. cbn [concat] in *.
    symmetry in Ek. apply fmap_app_inv in Ek as (k1 & k2 & E1 & E2 & ->).
    apply elem_of_app in Hx as [Hx|Hx]; apply elem_of_app; [left|right; by apply IH].
    eapply stored_checked; [done|by symmetry|done]. }
  destruct (contains (keyImages s) ki) eqn:E.
  - apply contains_iff; [done|]. apply Hi2. split.
    + intros Hin. rewrite Hnew in E; done.
    + apply Hi. right. by apply contains_iff.
  - destruct (contains (foldl remove _ l) ki) eqn:E2; [|done]. apply contains_iff in E2; [|done].
    apply Hi2 in E2 as [Hn E2]. apply Hi in E2 as [|E2]; [done|]. apply contains_iff in E2; [congruence|done].
Qed.

(** What [RollbackBlock] does to a set that agrees with the applied one but for its
    active and staked outputs: collateral may have been burned in between. *)
Lemma rollback_frame `{Crypto} (b : Block) (s s' s1 : UTXOSet) :
  undoable b s -> ApplyBlock b s = Ok s' ->
  keyImages s1 = keyImages s' -> spentPubKeys s1 = spentPubKeys s' -> rollbackJournal s1 = rollbackJournal s' ->
  let J := entries_at (Height (Header b)) s' in
  let outs := outputs_of (Height (Header b)) (Txs b) in
  let '(s2, restored, deleted) := RollbackBlock b s1 in
  utxos s2 = del_all (key_of <$> outs) (put_all (by_key J) (utxos s1)) /\
  byPubKey s2 = del_all (u_OneTimePub <$> outs) (put_all (by_member J) (byPubKey s1)) /\
  stakedUTXOs s2 = stakedUTXOs s1 /\ rollbackJournal s2 = rollbackJournal s /\
  (forall ki, contains (keyImages s2) ki = contains (keyImages s) ki) /\
  restored = ((fun e => key_of (re_utxo e)) <$> J) /\ deleted = (key_of <$> outs).
Proof.
  intros Hu Hap Hk1 Hs1 Hj1. assert (Happ := undoable_applying b s Hu).
  assert (Hkis := fun ki => keyImages_undone b s s' ki Hu Hap).
  unfold ApplyBlock in Hap. apply bind_ok in Hap as (r & _ & [= <-]).
  set (s' := applyTxsLocked b s) in *. set (h := Height (Header b)) in *.
  destruct Happ as [_ _ _ [Hjd _] _ Hsp].
  cbv zeta. assert (EJ : entries_at h s1 = entries_at h s') by (unfold entries_at; by rewrite Hj1).
  rewrite <- EJ.
  destruct (restore_frame (entries_at h s1) s1) as (R1 & R2 & R3 & R4 & R5 & R6).
  unfold RollbackBlock. fold h. change (default [] (rollbackJournal s1 !! h)) with (entries_at h s1).
  set (s2 := with_journal (delete h) (foldl restore_entry s1 (entries_at h s1))).
  set (jr := list_to_set (ringMember <$> entries_at h s1) : gset Point32).
  set (rs := (fun e => key_of (re_utxo e)) <$> entries_at h s1).
  destruct (rollback_txs_frame h jr (Txs b) s2 rs) as (E0 & E1 & E2 & E3 & E4 & E5).
  { intros tx inp m u Htx Hin Hm Hs. simpl in Hs. rewrite R3, EJ, Hs1 in Hs.
    apply (ud_decoys _ _ Hu tx inp m u Htx Hin Hm).
    assert (m ∉ ringMember <$> entries_at h s') as Hn.
    { intros Hin'. rewrite (del_all_in _ _ _ Hin') in Hs. done. }
    rewrite del_all_lookup in Hs by done. by destruct (Hsp m u Hs). }
  destruct (foldl _ (s2, rs) (Txs b)) as [s3 restored]. simpl in E0, E1, E2, E3, E4, E5.
  rewrite E1, E2, E4, E5, R1, R2, R5, R6, Hj1. split_and!; try done.
  - intros ki. rewrite E3, R4, Hk1. apply Hkis.
  - unfold outputs_of. clear. induction (Txs b) as [|tx l IH]; [done|].
    rewrite !fmap_cons. cbn [concat]. by rewrite fmap_app, IH.
Qed.

(** C9: rolling back an accepted block restores the set: both output indexes, the staked
    outputs, the journal and the spent status of every key image are as before, and the
    outputs reported as restored are those the block spent, those reported as deleted
    the ones it made. The block is [undoable] in the set: the set of spent key images is
    well formed, the two output indexes agree, the outputs of the block are new to them
    and distinct, the journal has no entry at the height and room for one, the log of
    recent outputs has room (or CLSAG is not active), no pooled decoy in the ring of an
    input has the commitment of the input, and stake transactions have no inputs. The
    pool of decoys and the log are not restored; without the condition on decoys the
    indexes are not either, see [rollback_revives_decoy]. *)
Theorem rollback_restores `{Crypto} (b : Block) (s s' : UTXOSet) :
  undoable b s -> ApplyBlock b s = Ok s' ->
  let '(s2, restored, deleted) := RollbackBlock b s' in
  utxos s2 = utxos s /\ byPubKey s2 = byPubKey s /\ stakedUTXOs s2 = stakedUTXOs s /\
  rollbackJournal s2 = rollbackJournal s /\
  (forall ki, contains (keyImages s2) ki = contains (keyImages s) ki) /\
  restored = ((fun e => key_of (re_utxo e)) <$> entries_at (Height (Header b)) s') /\
  deleted = (key_of <$> outputs_of (Height (Header b)) (Txs b)).
Proof.
  intros Hu Hap. assert (Hf := rollback_frame b s s' s' Hu Hap eq_refl eq_refl eq_refl).
  destruct (undoable_applying b s Hu) as [_ [Hu1 _] [Hp1 _] _ _ _].
  unfold ApplyBlock in Hap. apply bind_ok in Hap as (r & _ & [= <-]). cbv zeta in Hf.
  destruct (RollbackBlock _ _) as [[s2 restored] deleted]. destruct Hf as (E1 & E2 & E3 & Hf).
  rewrite E1, E2, E3. split_and!; try done; [exact (proj2 (apply_keyImages b s))|apply Hf..].
Qed.

(** ** Burning an output for staking *)

(** Every active output is filed under its own outpoint and one-time key. *)
Definition active_indexed (s : UTXOSet) : Prop :=
  forall k u, utxos s !! k = Some u -> key_of u = k /\ byPubKey s !! u_OneTimePub u = Some u.

Lemma mark_staked_inv (s s1 : UTXOSet) (txHash : Hash32) (outIdx : Z) :
  MarkStaked txHash outIdx s = Ok s1 ->
  exists u, utxos s !! (txHash, outIdx) = Some u /\ stakedUTXOs s !! (txHash, outIdx) = None /\
    s1 = with_staked <[(txHash, outIdx) := u]>
           (with_utxos (delete (txHash, outIdx)) (with_byPubKey (delete (u_OneTimePub u)) s)).
Proof.
  unfold MarkStaked. intros Hm. apply reject_ok in Hm as [Hs Hm]. zbool.
  destruct (utxos s !! (txHash, outIdx)) as [u|]; [|done]. injection Hm as <-. exists u.
  split_and!; [done| |done]. by destruct (stakedUTXOs s !! (txHash, outIdx)); [destruct Hs|].
Qed.

(** Unmarking right after marking, when the one-time key resolves to the output. *)
Lemma unmark_marked (s s1 : UTXOSet) (txHash : Hash32) (outIdx : Z) (u : UTXO) :
  utxos s !! (txHash, outIdx) = Some u -> byPubKey s !! u_OneTimePub u = Some u ->
  MarkStaked txHash outIdx s = Ok s1 -> UnmarkStaked txHash outIdx s1 = s.
Proof.
  intros Hu Hp Hm. apply mark_staked_inv in Hm as (u' & Hu' & Hst & ->).
  assert (u' = u) as -> by congruence. clear Hu'. destruct s as [us kis bp st sp j ch cr].
  cbn [utxos byPubKey stakedUTXOs] in *.
  change (with_staked _ _) with (mkSet (delete (txHash, outIdx) us) kis (delete (u_OneTimePub u) bp)
    (<[(txHash, outIdx) := u]> st) sp j ch cr).
  unfold UnmarkStaked. cbn [stakedUTXOs]. rewrite lookup_insert_eq.
  change (with_byPubKey _ _) with (mkSet (<[(txHash, outIdx) := u]> (delete (txHash, outIdx) us)) kis
    (<[u_OneTimePub u := u]> (delete (u_OneTimePub u) bp)) (delete (txHash, outIdx) (<[(txHash, outIdx) := u]> st))
    sp j ch cr).
  by rewrite !insert_delete_eq, delete_insert_id, !insert_id.
Qed.

(** [MarkStaked] takes an output out of every index a spend can reach and
    refuses to burn it twice; [UnmarkStaked] puts the set back exactly, provided
    the one-time key resolves to that output. *)
Theorem mark_staked_roundtrip (s : UTXOSet) (txHash : Hash32) (outIdx : Z) (u : UTXO) :
  utxos s !! (txHash, outIdx) = Some u -> byPubKey s !! u_OneTimePub u = Some u ->
  stakedUTXOs s !! (txHash, outIdx) = None ->
  exists s1, MarkStaked txHash outIdx s = Ok s1 /\
    Get s1 txHash outIdx = None /\ GetByPubKey s1 (u_OneTimePub u) = None /\
    IsStaked s1 txHash outIdx = true /\ is_ok (MarkStaked txHash outIdx s1) = false /\
    UnmarkStaked txHash outIdx s1 = s.
Proof.
  intros Hu Hp Hs. destruct (MarkStaked txHash outIdx s) as [s1|e] eqn:Em.
  2: { unfold MarkStaked in Em. rewrite Hs, Hu, bool_decide_eq_false_2 in Em by (intros [? ?]; congruence). done. }
  exists s1. assert (Hun := unmark_marked s s1 txHash outIdx u Hu Hp Em).
  apply mark_staked_inv in Em as (u' & Hu' & _ & ->). assert (u' = u) as -> by congruence.
  unfold MarkStaked, IsStaked, Get, GetByPubKey. cbn [utxos byPubKey stakedUTXOs with_staked with_utxos with_byPubKey].
  rewrite bool_decide_eq_true_2 by (rewrite lookup_insert_eq; by eexists).
  split_and!; try done; apply lookup_delete_eq.
Qed.

(** ** The rollback fallback *)

(** A ring whose first member is a spent decoy; the input names its commitment. *)
Definition fb_decoy : UTXO :=
  mkUTXO (copy_arr 32 [x01]) 0 (copy_arr 32 [x0d]) (zero_arr 32) (copy_arr 32 [x2a]) (zero_arr 8) 1 false.
Definition fb_input : RingInput :=
  mkInput (copy_arr 32 [x07]) (replicate RingSize (copy_arr 32 [x0d])) (copy_arr 32 [x2a])
    (replicate RingSize (copy_arr 32 [x2a])) (copy_arr 32 [x08]) x00.
Definition fb_tx : Transaction :=
  mkTx TxVersionCLSAG [fb_input] [] 0 (zero_arr 32) [] [] [None] [] None.
Definition fb_block : Block :=
  mkBlock (mkHeader 9 (zero_arr 32) (zero_arr 32) 1 0 [] 0 0 []) [fb_tx].
Definition fb_set : UTXOSet :=
  mkSet ∅ (mkKIs [] ∅ None) ∅ ∅ {[ u_OneTimePub fb_decoy := fb_decoy ]} ∅ 0 [].
Definition fb_after : UTXOSet :=
  match ApplyBlock (H := toy_crypto) fb_block fb_set with Ok s => s | Err _ => fb_set end.

(** The fallback of [RollbackBlock] does not skip CLSAG inputs, which
    [ApplyBlock] never resolves: rolling back a block that spent nothing it could
    restore makes a long-spent decoy an active output again. *)
Theorem rollback_revives_decoy :
  is_ok (ApplyBlock (H := toy_crypto) fb_block fb_set) = true /\
  GetByPubKey fb_set (u_OneTimePub fb_decoy) = None /\
  GetByPubKey (fst (fst (RollbackBlock (H := toy_crypto) fb_block fb_after))) (u_OneTimePub fb_decoy) =
    Some fb_decoy.
Proof.
  split_and!; [vm_compute; reflexivity..|]. apply (bool_decide_unpack _). vm_compute. exact I.
Qed.

(** ** Witnesses *)

Definition ex_utxo (n : byte) : UTXO :=
  mkUTXO (copy_arr 32 [n]) 0 (copy_arr 32 [n]) (zero_arr 32) (copy_arr 32 [n; n]) (zero_arr 8) 1 false.
Definition ex_set : UTXOSet := Add (ex_utxo x01) (Add (ex_utxo x02) NewUTXOSet).

(** A version 4 spend of the first output, creating one output. *)
Definition ex_spend_tx : Transaction :=
  mkTx TxVersionCommitmentBinding
    [mkInput (copy_arr 32 [x77]) (replicate RingSize (copy_arr 32 [x01])) (copy_arr 32 [x01; x01]) []
       (zero_arr 32) x00]
    [mkOutput (copy_arr 32 [x55]) (zero_arr 32) (copy_arr 32 [x56]) (zero_arr 8)]
    0 (zero_arr 32) [None] [None] [] [] None.
Definition ex_blk : Block :=
  mkBlock (mkHeader 3 (zero_arr 32) (zero_arr 32) 1 0 [] 0 0 []) [ex_spend_tx].
Definition ex_after : UTXOSet :=
  match ApplyBlock (H := toy_crypto) ex_blk ex_set with Ok s => s | Err _ => ex_set end.

Lemma ex_applied : ApplyBlock (H := toy_crypto) ex_blk ex_set = Ok ex_after.
Proof. apply ok_value. vm_compute. reflexivity. Qed.

Lemma ex_set_lookup (k : UTXOKey) (u : UTXO) :
  utxos ex_set !! k = Some u -> (k, u) = (key_of (ex_utxo x01), ex_utxo x01) \/
                               (k, u) = (key_of (ex_utxo x02), ex_utxo x02).
Proof.
  change (utxos ex_set) with (<[key_of (ex_utxo x01) := ex_utxo x01]>
    (<[key_of (ex_utxo x02) := ex_utxo x02]> (∅ : gmap UTXOKey UTXO))).
  rewrite !lookup_insert_Some, lookup_empty. naive_solver.
Qed.

Lemma ex_set_pub (m : Point32) (u : UTXO) :
  byPubKey ex_set !! m = Some u -> u_OneTimePub u = m /\ utxos ex_set !! key_of u = Some u.
Proof.
  change (byPubKey ex_set) with (<[u_OneTimePub (ex_utxo x01) := ex_utxo x01]>
    (<[u_OneTimePub (ex_utxo x02) := ex_utxo x02]> (∅ : gmap Point32 UTXO))).
  rewrite !lookup_insert_Some, lookup_empty.
  intros [[<- <-]|[_ [[<- <-]|[_ ?]]]]; [| |done];
    (split; [reflexivity|apply (bool_decide_unpack _); vm_compute; exact I]).
Qed.

Lemma ex_ki_wf : ki_wf (keyImages ex_set).
Proof. split_and!; [constructor..|]. intros _ x Hx. by apply not_elem_of_empty in Hx. Qed.

Lemma ex_undoable : undoable (H := toy_crypto) ex_blk ex_set.
Proof.
  constructor.
  - exact ex_ki_wf.
  - split; [exact ex_set_pub|]. intros k u Hk. apply ex_set_lookup in Hk as [[= -> ->]|[= -> ->]]; reflexivity.
  - split_and!; [apply (bool_decide_unpack _); vm_compute; exact I..|].
    intros u Hu. apply list_elem_of_singleton in Hu as ->. split; vm_compute; reflexivity.
  - split; vm_compute; reflexivity.
  - by left.
  - intros tx inp m u _ _ _ Hs. vm_compute in Hs. discriminate Hs.
  - constructor; [|constructor]. intros Hf. vm_compute in Hf. discriminate Hf.
Qed.

Lemma rollback_restores_witness :
  Get ex_after (u_TxHash (ex_utxo x01)) 0 = None /\
  utxos (fst (fst (RollbackBlock (H := toy_crypto) ex_blk ex_after))) = utxos ex_set.
Proof.
  split; [vm_compute; reflexivity|].
  assert (Hr := rollback_restores (H := toy_crypto) ex_blk ex_set ex_after ex_undoable ex_applied).
  destruct (RollbackBlock ex_blk ex_after) as [[s2 r] d]. exact (proj1 Hr).
Defined.

Lemma mark_staked_roundtrip_witness :
  exists s1, MarkStaked (copy_arr 32 [x01]) 0 ex_set = Ok s1 /\
    Get s1 (copy_arr 32 [x01]) 0 = None /\ GetByPubKey s1 (copy_arr 32 [x01]) = None /\
    IsStaked s1 (copy_arr 32 [x01]) 0 = true /\ is_ok (MarkStaked (copy_arr 32 [x01]) 0 s1) = false /\
    UnmarkStaked (copy_arr 32 [x01]) 0 s1 = ex_set.
Proof.
  apply (mark_staked_roundtrip ex_set (copy_arr 32 [x01]) 0 (ex_utxo x01));
    [apply (bool_decide_unpack _); vm_compute; exact I..|reflexivity].
Defined.

Lemma no_double_spend_witness :
  exists kis, concat (block_key_images (H := toy_crypto) <$> [ex_blk]) = Some <$> kis /\ NoDup kis /\
    (forall ki, spends (H := toy_crypto) [ex_blk] ki -> exists k, ki = Some k /\ k ∈ kis) /\
    (forall k, k ∈ kis -> contains (keyImages ex_set) k = false /\ contains (keyImages ex_after) k = true).
Proof.
  apply (no_double_spend (H := toy_crypto) [ex_blk] ex_set ex_after ex_ki_wf).
  cbn [foldM]. rewrite ex_applied. reflexivity.
Defined.

Lemma key_image_set_refines_witness :
  contains (insert (keyImages ex_set) (copy_arr 32 [x07])) (copy_arr 32 [x07]) = true.
Proof.
  apply (proj1 (proj2 (key_image_set_refines (keyImages ex_set) (copy_arr 32 [x07]) ex_ki_wf
    ltac:(intros db x Hdb _; discriminate Hdb)))). by left.
Defined.

End UtxoRollback.
