(* ===== verification/TxVerifier.v ===== *)
(** Verification of one transaction and of the transactions of a block:
    [TxVerifier] of [core/tx_verifier.go].

    The verifier reads the UTXO set and the vesting lock; the time [nowFn] returns
    is a field.  An index out of range, which panics in Go, is the error
    ["panic: index out of range"].  The ring signatures, range proofs and the
    homomorphic sum of commitments are the class [RingCrypto]; what the
    conservation theorem needs of them is stated there as hypotheses. *)

From stdpp Require Import base gmap list strings.
From S2P Require Import Prelude Bytes Crypto Avm StakePayload Vesting Transaction Utxo.
Import Transaction.

Module TxVerifier.

(** ** The primitives *)

Class RingCrypto := {
  CLSAGVerify : Hash32 -> list RingMember -> list Commitment -> Commitment -> CLSAGSignature -> result bool;
  MLSAGVerify : Hash32 -> list RingMember -> MLSAGSignature -> result bool;
  (** [None] is the nil proof. *)
  VerifyRange : option RangeProof -> result bool;
  CommitSum : list Commitment -> list Commitment -> Commitment -> result bool
}.

(** ** State *)

Record TxVerifier := mkVerifier {
  v_utxos : option Utxo.UTXOSet;
  (** [LookupRingMember] of the optional persistent index behind the set. *)
  v_store : option (Point32 -> option Utxo.UTXO);
  vestingLock : option Vesting.VestingLock;
  v_now : Z;
  stakedCollateralRingExclusionActivationHeight : Z
}.

Definition panic_index : string := "panic: index out of range".
Definition panics {A} (r : result A) : bool :=
  match r with Ok _ => false | Err e => String.prefix "panic" e end.

Section Verify.
Context `{Crypto} `{Json} `{RingCrypto}.

Definition ringSignMessage (txHash : Hash32) (inputIdx : Z) : Hash32 :=
  HashBytes [bytes_of_string "aperod/ring-sign/v1"; arr_list txHash; be_encode 4 inputIdx].

(** ** The steps of [verifyTx] *)

Definition member_locked (v : TxVerifier) (m : Point32) : bool :=
  match vestingLock v with
  | Some vl => 0 <? Vesting.lockedAt vl m (v_now v)
  | None => false
  end.

Definition verify_position (v : TxVerifier) (tx : Transaction) : result () :=
  a ← positionAction tx;
  if bool_decide (pa_Action a = LPoDWithdraw) then Ok ()
  else
    need s from v_utxos v else "lpod: source key image unavailable or spent" ;;
    need inp from Inputs tx !! 0%nat else panic_index ;;
    reject Utxo.IsSpent s (in_KeyImage inp) with "lpod: source key image unavailable or spent" ;;
    need u from Utxo.Get s (pa_SourceTx a) (pa_SourceIndex a) else "lpod: source is not an available matching UTXO" ;;
    reject negb (bool_decide (Utxo.u_OneTimePub u = pa_SourcePub a)) ||
           negb (bool_decide (Utxo.u_AmountCommit u = in_AmountCommit inp)) || Utxo.u_ProtocolLocked u ||
           Utxo.IsStaked s (pa_SourceTx a) (pa_SourceIndex a)
      with "lpod: source is not an available matching UTXO" ;;
    need resolved from Utxo.GetByPubKey s (pa_SourcePub a) else "lpod: ambiguous source output key" ;;
    reject negb (bool_decide (Utxo.key_of resolved = (pa_SourceTx a, pa_SourceIndex a)))
      with "lpod: ambiguous source output key" ;;
    reject member_locked v (pa_SourcePub a) with "lpod: source is vesting locked" ;;
    Ok ().

Definition distinct_ki (seen : gset KeyImage) (inp : RingInput) : result (gset KeyImage) :=
  reject bool_decide (in_KeyImage inp ∈ seen) with "duplicate key image" ;;
  Ok ({[in_KeyImage inp]} ∪ seen).

Definition check_unspent (s : Utxo.UTXOSet) (_ : ()) (inp : RingInput) : result () :=
  reject Utxo.IsSpent s (in_KeyImage inp) with "double-spend" ;; Ok ().

Definition check_vesting (v : TxVerifier) (_ : ()) (inp : RingInput) : result () :=
  reject existsb (member_locked v) (Ring inp) with "ring member is a locked genesis allocation" ;; Ok ().

(** One member of a CLSAG ring; the accumulator is its index. *)
Definition check_clsag_member (v : TxVerifier) (s : Utxo.UTXOSet) (burns : gset (Hash32 * Z)) (height : Z)
    (inp : RingInput) (j : nat) (member : RingMember) : result nat :=
  need u from Utxo.GetRingMember (v_store v) s member else "ring member is not an on-chain UTXO" ;;
  need c from RingCommitments inp !! j else panic_index ;;
  reject negb (bool_decide (Utxo.u_AmountCommit u = c)) with "ring member commitment mismatch" ;;
  let activation := stakedCollateralRingExclusionActivationHeight v in
  reject (0 <? activation) && (activation <=? height) &&
         (bool_decide (Utxo.key_of u ∈ burns) || Utxo.IsStaked s (Utxo.u_TxHash u) (Utxo.u_OutputIndex u))
    with "ring member is staked collateral" ;;
  Ok (S j).

Definition check_real_member (s : Utxo.UTXOSet) (inp : RingInput) : result () :=
  need m from Ring inp !! Z.to_nat (byte_to_Z (RealIndex inp)) else panic_index ;;
  need u from Utxo.GetByPubKey s m else "proven real member is not an active UTXO" ;;
  reject negb (bool_decide (Utxo.u_AmountCommit u = in_AmountCommit inp))
    with "proven real member commitment does not match claimed commitment" ;;
  Ok ().

(** The counters [presentCount] and [matchCount]. *)
Definition count_member (s : Utxo.UTXOSet) (inp : RingInput) (counts : nat * nat) (member : RingMember) : nat * nat :=
  match Utxo.GetByPubKey s member with
  | None => counts
  | Some u =>
      (S (fst counts), if bool_decide (Utxo.u_AmountCommit u = in_AmountCommit inp) then S (snd counts) else snd counts)
  end.

Definition check_legacy_ring (s : Utxo.UTXOSet) (inp : RingInput) : result () :=
  let counts := foldl (count_member s inp) (0%nat, 0%nat) (Ring inp) in
  reject bool_decide (fst counts = 0%nat) with "all ring members are absent from the UTXO set" ;;
  reject bool_decide (snd counts = 0%nat) with "no ring member found has a matching AmountCommit" ;;
  Ok ().

Definition check_ring (v : TxVerifier) (s : Utxo.UTXOSet) (burns : gset (Hash32 * Z)) (height : Z) (tx : Transaction)
    (_ : ()) (inp : RingInput) : result () :=
  if UsesCLSAG tx then _ ← foldM (check_clsag_member v s burns height inp) 0%nat (Ring inp); Ok ()
  else if is_version TxVersionCommitmentBinding tx then check_real_member s inp
  else check_legacy_ring s inp.

(** The ring signature of input [i]. *)
Definition check_signature (tx : Transaction) (txHash : Hash32) (i : nat) (inp : RingInput) : result nat :=
  let msg := ringSignMessage txHash (wrap32 (Z.of_nat i)) in
  '(verified, ki) ←
    (if UsesCLSAG tx then
       need osig from CLSAGSignatures tx !! i else panic_index ;;
       need sig from osig else "nil CLSAG signature" ;;
       Ok (CLSAGVerify msg (Ring inp) (RingCommitments inp) (PseudoOut inp) sig, CLSAGKeyImage sig)
     else
       need osig from Signatures tx !! i else panic_index ;;
       need sig from osig else "nil signature" ;;
       Ok (if is_version TxVersionCommitmentBinding tx
           then Ok (MLSAGVerifyV4 msg (Ring inp) (in_AmountCommit inp) (Z.to_nat (byte_to_Z (RealIndex inp))) (Some sig))
           else MLSAGVerify msg (Ring inp) sig, MLSAGKeyImage sig));
  match verified with
  | Err _ => Err "ring sig error"
  | Ok ok =>
      reject negb (bool_decide (ki = in_KeyImage inp)) with "key image mismatch" ;;
      reject negb ok with "invalid ring signature" ;;
      Ok (S i)
  end.

(** The range proof of output [i]. *)
Definition check_range (tx : Transaction) (i : nat) (proof : option RangeProof) : result nat :=
  match VerifyRange proof with
  | Err _ => Err "range proof error"
  | Ok ok =>
      reject negb ok with "invalid range proof" ;;
      need p from proof else "panic: nil proof" ;;
      need out from Outputs tx !! i else panic_index ;;
      reject negb (bool_decide (ValueCommit p = AmountCommit out)) with "range proof commitment mismatch" ;;
      Ok (S i)
  end.

Definition check_fee (tx : Transaction) : result () :=
  need expected from Commit (Fee tx) (zero_arr 32) else "fee commitment derivation" ;;
  reject negb (bool_decide (FeeCommit tx = expected)) with "fee commitment mismatch" ;;
  Ok ().

Definition in_commit (tx : Transaction) (inp : RingInput) : Commitment :=
  if UsesCLSAG tx then PseudoOut inp else in_AmountCommit inp.

Definition check_balance (tx : Transaction) : result () :=
  match CommitSum (in_commit tx <$> Inputs tx) (AmountCommit <$> Outputs tx) (FeeCommit tx) with
  | Err _ => Err "commitment sum error"
  | Ok balanced => reject negb balanced with "commitment balance check failed" ;; Ok ()
  end.

(** The checks that read the UTXO set, skipped when there is none. *)
Definition with_set {A} (v : TxVerifier) (a : A) (k : Utxo.UTXOSet -> result A) : result A :=
  match v_utxos v with Some s => k s | None => Ok a end.

Definition verify_spend (v : TxVerifier) (tx : Transaction) (burns : gset (Hash32 * Z)) (height : Z) : result () :=
  _ ← foldM distinct_ki ∅ (Inputs tx);
  _ ← with_set v () (fun s => foldM (check_unspent s) () (Inputs tx));
  _ ← foldM (check_vesting v) () (Inputs tx);
  _ ← with_set v () (fun s => foldM (check_ring v s burns height tx) () (Inputs tx));
  _ ← foldM (check_signature tx (Hash tx)) 0%nat (Inputs tx);
  _ ← foldM (check_range tx) 0%nat (RangeProofs tx);
  _ ← check_fee tx;
  check_balance tx.

(** ** Operations *)

Definition verifyTx (v : TxVerifier) (tx : Transaction) (burns : gset (Hash32 * Z)) (height : Z) : result () :=
  _ ← Validate tx;
  if IsLPoDPosition tx then verify_position v tx
  else if len_is (Inputs tx) 0 then
    if IsStake tx then Ok ()
    else Err "tx verifier: coinbase (zero-input) transaction rejected"
  else verify_spend v tx burns height.

Definition VerifyTxAtHeight (v : TxVerifier) (tx : Transaction) (height : Z) : result () :=
  reject (0 <? stakedCollateralRingExclusionActivationHeight v) && (height =? 0)
    with "height-aware transaction verification requires a nonzero candidate height" ;;
  verifyTx v tx ∅ height.

Definition VerifyTx (v : TxVerifier) (tx : Transaction) : result () :=
  reject 0 <? stakedCollateralRingExclusionActivationHeight v with "height-aware transaction verification required" ;;
  VerifyTxAtHeight v tx 0.

(** The collateral outputs the deposits of a block burn. *)
Definition tx_burn (tx : Transaction) : option (Hash32 * Z) :=
  if negb (IsStake tx) then None
  else if len_is (Extra tx) StakePayload.StakePayloadSizeV2 then
    match StakePayload.DecodeStakeExtraV2 (Extra tx) with
    | Ok d => if bool_decide (StakePayload.de_action d = StakePayload.StakeDeposit)
              then Some (StakePayload.burnTxHash d, StakePayload.burnOutIdx d) else None
    | Err _ => None
    end
  else if len_is (Extra tx) StakePayload.StakePayloadSizeV3 then
    match StakePayload.DecodeStakeExtraV3 (Extra tx) with
    | Ok (d, _) => if bool_decide (StakePayload.de_action d = StakePayload.StakeDeposit)
                   then Some (StakePayload.burnTxHash d, StakePayload.burnOutIdx d) else None
    | Err _ => None
    end
  else None.

Definition exempt (tx : Transaction) : bool :=
  IsCoinbase tx || IsGuardianFund tx || IsLPoD tx || IsLPoDPayout tx.

Definition verify_block_tx (v : TxVerifier) (burns : gset (Hash32 * Z)) (height : Z) (_ : ()) (tx : Transaction) : result () :=
  if exempt tx then Ok () else verifyTx v tx burns height.

Definition VerifyBlock (v : TxVerifier) (oblock : option Block) : result () :=
  need block from oblock else "tx verifier: nil block" ;;
  let height := Height (Header block) in
  let activation := stakedCollateralRingExclusionActivationHeight v in
  reject (0 <? activation) && (height =? 0) with "height-aware block verification requires a nonzero block height" ;;
  let burns := if (0 <? activation) && (activation <=? height)
               then list_to_set (omap tx_burn (Txs block)) else ∅ in
  foldM (verify_block_tx v burns height) () (Txs block).

End Verify.

(** ** No panic *)

Section Panics.
Context `{Crypto} `{Json} `{RingCrypto}.

Lemma panics_ok {A} (a : A) : panics (Ok a) = false.
Proof. done. Qed.

Lemma panics_if {A} (c : bool) (x y : result A) :
  (c = true -> panics x = false) -> (c = false -> panics y = false) -> panics (if c then x else y) = false.
Proof. destruct c; auto. Qed.

Lemma panics_bind {A B} (m : result A) (f : A -> result B) :
  panics m = false -> (forall a, m = Ok a -> panics (f a) = false) -> panics (m ≫= f) = false.
Proof. destruct m; simpl; auto. Qed.

Lemma panics_need {A B} (o : option A) (e : string) (f : A -> result B) :
  (o = None -> String.prefix "panic" e = false) -> (forall a, o = Some a -> panics (f a) = false) ->
  panics (match o with Some a => f a | None => Err e end) = false.
Proof. destruct o; simpl; auto. Qed.

(** A loop whose accumulator counts the elements. *)
Lemma panics_count {A} (f : nat -> A -> result nat) (l : list A) :
  (forall i a, l !! i = Some a -> panics (f i a) = false /\ (forall j, f i a = Ok j -> j = S i)) ->
  panics (foldM f 0%nat l) = false.
Proof.
  intros Hf. assert (forall i, (forall k a, l !! k = Some a -> panics (f (i + k)%nat a) = false /\
    (forall j, f (i + k)%nat a = Ok j -> j = S (i + k))) -> panics (foldM f i l) = false) as Hgen.
  2: { apply (Hgen 0%nat). done. }
  clear Hf. induction l as [|a l IH]; intros i Hi; [done|]. cbn [foldM].
  destruct (Hi 0%nat a eq_refl) as [Hp Hj]. rewrite Nat.add_0_r in Hp, Hj. apply panics_bind; [done|].
  intros j Hok. rewrite (Hj j Hok). apply IH. intros k b Hk. specialize (Hi (S k) b Hk).
  by rewrite Nat.add_succ_r in Hi.
Qed.

Lemma panics_fold {S A} (f : S -> A -> result S) (l : list A) :
  (forall s a, a ∈ l -> panics (f s a) = false) -> forall s, panics (foldM f s l) = false.
Proof.
  intros Hf. induction l as [|a l IH]; intros s; [done|]. cbn [foldM]. apply panics_bind; [apply Hf; left|].
  intros s' _. apply IH. intros s2 b Hb. apply Hf. by right.
Qed.

(** Walk through the checks of a function; what is left are its indexings. *)
Ltac nopanic :=
  repeat match goal with
  | |- panics (Ok _) = false => reflexivity
  | |- panics (Err _) = false => reflexivity
  | |- panics (if _ then _ else _) = false => apply panics_if; intros ?
  | |- panics (_ ≫= _) = false => apply panics_bind; [|intros ? ?]
  | |- panics (match _ with Some _ => _ | None => Err _ end) = false => apply panics_need; [intros ?|intros ? ?]
  | |- String.prefix _ _ = false => reflexivity
  end.

Lemma avm_no_panic (op : option Avm.AVMPayload) : panics (Avm.Validate op) = false.
Proof.
  unfold Avm.Validate, Avm.check_action. nopanic. apply panics_fold. intros st x _. unfold Avm.check_access. nopanic.
Qed.

Lemma v4_not_clsag (tx : Transaction) : is_version TxVersionCommitmentBinding tx = true -> UsesCLSAG tx = false.
Proof. unfold UsesCLSAG, is_version. intros Hv. zbool. by rewrite Hv. Qed.

Lemma validate_input_no_panic (tx : Transaction) (i : nat) (inp : RingInput) :
  (UsesCLSAG tx = false -> is_Some (Signatures tx !! i)) -> (UsesCLSAG tx = true -> is_Some (CLSAGSignatures tx !! i)) ->
  panics (validate_input tx i inp) = false /\ (forall j, validate_input tx i inp = Ok j -> j = S i).
Proof.
  intros Hl Hc. split.
  - unfold validate_input. nopanic.
    + destruct Hl as [x Hx]; [by apply v4_not_clsag|congruence].
    + destruct a as [sig|]; nopanic.
    + destruct Hc as [x Hx]; [done|congruence].
  - intros j Hj. unfold validate_input in Hj. apply reject_ok in Hj as [_ Hj]. apply reject_ok in Hj as [_ Hj].
    apply bind_ok in Hj as (_ & _ & Hj). apply bind_ok in Hj as (_ & _ & Hj). by injection Hj.
Qed.

Lemma ringct_no_panic (tx : Transaction) : panics (validate_ringct tx) = false.
Proof.
  unfold validate_ringct, parseIntentionalBurnExtra. nopanic.
  - destruct a as [amount|]; [|done]. unfold validate_burn. nopanic.
  - apply panics_count. intros i inp Hi. apply lookup_lt_Some in Hi. unfold len_is in *.
    apply validate_input_no_panic; intros Hu; rewrite Hu in *; apply lookup_lt_is_Some.
    + match goal with E : (reject _ with _ ;; _) = Ok _ |- _ => apply reject_ok in E as [_ E]; apply reject_ok in E as [E _] end.
      zbool. lia.
    + match goal with E : (reject _ with _ ;; _) = Ok _ |- _ => apply reject_ok in E as [_ E]; apply reject_ok in E as [E _] end.
      zbool. lia.
Qed.

Lemma positionAction_no_panic (tx : Transaction) : panics (positionAction tx) = false.
Proof.
  unfold positionAction. nopanic. unfold check_position_deposit.
  destruct (Inputs tx) as [|x [|]], (Signatures tx) as [|s1 [|[s2|] ss]]; nopanic.
Qed.

(** The source input of a deposit exists. *)
Lemma position_input (tx : Transaction) (a : LPoDPositionAction) :
  positionAction tx = Ok a -> pa_Action a <> LPoDWithdraw -> is_Some (Inputs tx !! 0%nat).
Proof.
  intros Ha Hw. unfold positionAction in Ha. peel Ha.
  destruct (bool_decide (pa_Action l = LPoDWithdraw)) eqn:Ew.
  - apply reject_ok in Ha as [_ Ha]. apply Ok_inj in Ha as <-. zbool. done.
  - unfold check_position_deposit in Ha. destruct (Inputs tx) as [|x [|]]; [done|by eexists|done].
Qed.

Lemma validate_no_panic (tx : Transaction) : panics (Validate tx) = false.
Proof.
  unfold Validate. nopanic.
  - unfold validateLPoD. nopanic.
  - unfold saleAuthorization. destruct (Outputs tx) as [|o [|o2 os]]; nopanic.
  - apply positionAction_no_panic.
  - unfold payoutAuthorization. nopanic.
  - unfold validate_avm. nopanic. apply avm_no_panic.
  - unfold validate_guardian. nopanic.
  - unfold validate_stake. nopanic.
  - apply ringct_no_panic.
Qed.

(** A transaction with inputs that passes [Validate], stake and position
    transactions apart, is a ring spend. *)
Lemma validate_shape (tx : Transaction) :
  Validate tx = Ok () -> Inputs tx <> [] -> IsLPoDPosition tx = false -> IsStake tx = false -> spend_shape tx.
Proof.
  intros Hv Hin Hp Hst. assert (Hcb : IsCoinbase tx = false).
  { unfold IsCoinbase. by rewrite bool_decide_eq_false_2. }
  unfold Validate in Hv. apply reject_ok in Hv as [_ Hv]. apply reject_ok in Hv as [_ Hv].
  assert (Hno : len_is (Inputs tx) 0 = false).
  { unfold len_is. apply bool_decide_eq_false_2. by destruct (Inputs tx). }
  destruct (IsLPoD tx). { unfold validateLPoD in Hv. rewrite Hno in Hv. done. }
  destruct (IsSale tx) eqn:Es.
  { apply bind_ok in Hv as (a & Ha & _). unfold saleAuthorization in Ha.
    destruct (Outputs tx) as [|o [|]]; try done. apply reject_ok in Ha as [Ha _]. zbool. congruence. }
  rewrite Hp in Hv. destruct (IsLPoDPayout tx) eqn:Ep.
  { apply bind_ok in Hv as (a & Ha & _). unfold payoutAuthorization in Ha. apply reject_ok in Ha as [Ha _]. zbool. congruence. }
  apply bind_ok in Hv as ([] & _ & Hv). destruct (IsGuardianFund tx).
  { unfold validate_guardian in Hv. rewrite Hno in Hv. done. }
  rewrite Hst in Hv. by apply validate_ringct_sound.
Qed.

(** The loops over inputs, members and proofs count. *)
Lemma check_signature_counts (tx : Transaction) (x : Hash32) (i : nat) (inp : RingInput) (j : nat) :
  check_signature tx x i inp = Ok j -> j = S i.
Proof.
  unfold check_signature. intros Hj. apply bind_ok in Hj as ([[ok|e] ki] & _ & Hj); [|done].
  apply reject_ok in Hj as [_ Hj]. apply reject_ok in Hj as [_ Hj]. by injection Hj.
Qed.

Lemma check_range_counts (tx : Transaction) (i : nat) (proof : option RangeProof) (j : nat) :
  check_range tx i proof = Ok j -> j = S i.
Proof.
  unfold check_range. intros Hj. destruct (VerifyRange proof) as [ok|]; [|done]. apply reject_ok in Hj as [_ Hj].
  destruct proof; [|done]. destruct (Outputs tx !! i); [|done]. apply reject_ok in Hj as [_ Hj]. by injection Hj.
Qed.

Lemma check_clsag_counts (v : TxVerifier) (s : Utxo.UTXOSet) (burns : gset (Hash32 * Z)) (height : Z)
    (inp : RingInput) (i : nat) (m : RingMember) (j : nat) :
  check_clsag_member v s burns height inp i m = Ok j -> j = S i.
Proof.
  unfold check_clsag_member. intros Hk. destruct (Utxo.GetRingMember _ _ _); [|done].
  destruct (RingCommitments inp !! i); [|done].
  apply reject_ok in Hk as [_ Hk]. apply reject_ok in Hk as [_ Hk]. by injection Hk.
Qed.

Lemma check_signature_no_panic (tx : Transaction) (x : Hash32) (i : nat) (inp : RingInput) :
  spend_shape tx -> Inputs tx !! i = Some inp ->
  panics (check_signature tx x i inp) = false /\ (forall j, check_signature tx x i inp = Ok j -> j = S i).
Proof.
  intros Hs Hi. apply lookup_lt_Some in Hi. split; [|apply check_signature_counts]. unfold check_signature. nopanic.
  - destruct (sh_clsag tx Hs) as [_ Hf]; [done|]. apply Forall2_length in Hf.
    match goal with E : _ !! _ = None |- _ => apply lookup_ge_None in E end. lia.
  - destruct (sh_legacy tx Hs) as [_ Hf]; [done|].
    match goal with E : _ !! _ = None |- _ => apply lookup_ge_None in E end. lia.
  - destruct a as [[ok|e] ki]; nopanic.
Qed.

Lemma check_range_no_panic (tx : Transaction) (i : nat) (proof : option RangeProof) :
  spend_shape tx -> is_ok (VerifyRange None) = false -> RangeProofs tx !! i = Some proof ->
  panics (check_range tx i proof) = false /\ (forall j, check_range tx i proof = Ok j -> j = S i).
Proof.
  intros Hs Hnil Hi. apply lookup_lt_Some in Hi. assert (Hl := sh_proofs tx Hs). split; [|apply check_range_counts].
  unfold check_range. destruct (VerifyRange proof) as [ok|e] eqn:Ev; [|done]. nopanic.
  - match goal with E : proof = None |- _ => rewrite E in Ev end. by rewrite Ev in Hnil.
  - match goal with E : _ !! _ = None |- _ => apply lookup_ge_None in E end. lia.
Qed.

Lemma check_ring_no_panic (v : TxVerifier) (s : Utxo.UTXOSet) (burns : gset (Hash32 * Z)) (height : Z)
    (tx : Transaction) (u : ()) (inp : RingInput) :
  spend_shape tx -> inp ∈ Inputs tx -> panics (check_ring v s burns height tx u inp) = false.
Proof.
  intros Hs Hin. assert (Hr := sh_rings tx Hs). rewrite list.Forall_forall in Hr. destruct (Hr _ Hin) as [Hlen _].
  unfold check_ring. nopanic.
  - apply panics_count. intros j m Hj. apply lookup_lt_Some in Hj. split; [|apply check_clsag_counts].
    unfold check_clsag_member. nopanic. destruct (sh_clsag tx Hs) as [_ Hf]; [done|]. apply list_elem_of_lookup in Hin as [k Hk].
    destruct (Forall2_lookup_l _ _ _ _ _ Hf Hk) as (sig & _ & _ & Hrc & _).
    match goal with E : _ !! _ = None |- _ => apply lookup_ge_None in E end. lia.
  - unfold check_real_member. nopanic.
    assert (Hv4 := sh_v4 tx Hs). rewrite list.Forall_forall in Hv4.
    match goal with E : is_version _ _ = true |- _ => specialize (Hv4 E _ Hin) end.
    match goal with E : _ !! _ = None |- _ => apply lookup_ge_None in E end.
    assert (0 <= byte_to_Z (RealIndex inp)) by apply byte_to_Z_range. unfold RingSize in *. lia.
  - unfold check_legacy_ring. nopanic.
Qed.

Lemma verify_spend_no_panic (v : TxVerifier) (tx : Transaction) (burns : gset (Hash32 * Z)) (height : Z) :
  spend_shape tx -> is_ok (VerifyRange None) = false -> panics (verify_spend v tx burns height) = false.
Proof.
  intros Hs Hnil. unfold verify_spend. nopanic.
  - apply panics_fold. intros. unfold distinct_ki. nopanic.
  - unfold with_set. destruct (v_utxos v); [|done]. apply panics_fold. intros. unfold check_unspent. nopanic.
  - apply panics_fold. intros. unfold check_vesting. nopanic.
  - unfold with_set. destruct (v_utxos v); [|done]. apply panics_fold. intros. by apply check_ring_no_panic.
  - apply panics_count. intros. by apply check_signature_no_panic.
  - apply panics_count. intros. by apply check_range_no_panic.
  - unfold check_fee. nopanic.
  - unfold check_balance. destruct (CommitSum _ _ _); nopanic.
Qed.

(** The verifier never indexes out of range: whatever a peer sends, a
    transaction that is not a stake transaction with inputs is accepted or rejected
    with an error.  The nil range proof is rejected by [VerifyRange]. *)
Theorem verify_never_panics (v : TxVerifier) (tx : Transaction) (burns : gset (Hash32 * Z)) (height : Z) :
  is_ok (VerifyRange None) = false -> IsStake tx && negb (len_is (Inputs tx) 0) = false ->
  panics (verifyTx v tx burns height) = false.
Proof.
  intros Hnil Hst. unfold verifyTx. apply panics_bind; [apply validate_no_panic|]. intros [] Hv. nopanic.
  - unfold verify_position. nopanic.
    + apply positionAction_no_panic.
    + match goal with E : positionAction tx = Ok _ |- _ => rename E into Ha end.
      destruct (position_input tx _ Ha) as [x Hx]; [|congruence]. by zbool.
  - apply verify_spend_no_panic; [|done]. apply validate_shape; try done.
    + intros He. match goal with E : len_is _ _ = false |- _ => by rewrite He in E end.
    + match goal with E : len_is _ _ = false |- _ => rewrite E in Hst end. by rewrite andb_true_r in Hst.
Qed.

End Panics.

(** ** Conservation of value *)

(** What the commitments and proofs stand for: every commitment has a value (that of
    its opening), sums of commitments are sums of values modulo the group order
    [order], a range proof bounds the value by 64 bits, a fee is committed with a zero
    blinding factor, and a CLSAG signature links its pseudo-output to the commitment of
    one ring member.  These are the documented guarantees of the primitives. *)
Record commitment_model `{Crypto} `{RingCrypto} (value : Commitment -> Z) (order : Z) : Prop := {
  cm_order : U64 * U64 < order;
  cm_sum : forall ins outs fee, CommitSum ins outs fee = Ok true ->
    sumZ value ins mod order = (sumZ value outs + value fee) mod order;
  cm_range : forall p, VerifyRange (Some p) = Ok true -> is_u64 (value (ValueCommit p));
  cm_nil : is_ok (VerifyRange None) = false;
  cm_fee : forall v c, is_u64 v -> Commit v (zero_arr 32) = Some c -> value c = v;
  cm_clsag : forall msg ring cs pseudo sig, CLSAGVerify msg ring cs pseudo sig = Ok true ->
    exists j c, (j < length ring)%nat /\ cs !! j = Some c /\ value c = value pseudo
}.

(** An output of the chain that a ring member names. *)
Definition on_chain (v : TxVerifier) (s : Utxo.UTXOSet) (m : RingMember) (u : Utxo.UTXO) : Prop :=
  Utxo.GetByPubKey s m = Some u \/ Utxo.GetRingMember (v_store v) s m = Some u.

Section Conservation.
Context `{Crypto} `{Json} `{RingCrypto}.

Lemma foldM_unit {A} (f : () -> A -> result ()) (l : list A) :
  foldM f () l = Ok () -> forall a, a ∈ l -> f () a = Ok ().
Proof.
  induction l as [|x l IH]; intros Hf a Ha; [by apply not_elem_of_nil in Ha|].
  simpl in Hf. apply bind_ok in Hf as ([] & Hx & Hf). apply elem_of_cons in Ha as [->|Ha]; auto.
Qed.

Lemma foldM_count {A} (f : nat -> A -> result nat) (l : list A) (i j : nat) :
  (forall i a j, f i a = Ok j -> j = S i) -> foldM f i l = Ok j ->
  forall k a, l !! k = Some a -> f (i + k)%nat a = Ok (S (i + k)).
Proof.
  intros Hs. revert i. induction l as [|x l IH]; intros i Hf k a Hk; [done|].
  simpl in Hf. apply bind_ok in Hf as (i' & Hx & Hf). assert (i' = S i) by eauto. subst i'.
  destruct k as [|k]; simpl in Hk.
  - injection Hk as <-. by rewrite Nat.add_0_r.
  - rewrite Nat.add_succ_r. by apply (IH (S i) Hf k).
Qed.

Lemma distinct_kis (l : list RingInput) : forall (s0 s : gset KeyImage),
  foldM distinct_ki s0 l = Ok s -> NoDup (in_KeyImage <$> l) /\ (forall k, k ∈ in_KeyImage <$> l -> k ∉ s0).
Proof.
  induction l as [|x l IH]; intros s0 s Hf; simpl in Hf.
  - split; [constructor|]. intros k Hk. by apply not_elem_of_nil in Hk.
  - apply bind_ok in Hf as (s1 & Hx & Hf). unfold distinct_ki in Hx. apply reject_ok in Hx as [Hx Hs].
    apply Ok_inj in Hs as <-. zbool. apply IH in Hf as [Hn Hd]. rewrite fmap_cons, list.NoDup_cons. split.
    + split; [|done]. intros Hin. specialize (Hd _ Hin). set_solver.
    + intros k Hk. apply elem_of_cons in Hk as [->|Hk]; [done|]. specialize (Hd _ Hk). set_solver.
Qed.

(** The counters of the legacy check count a witness. *)
Lemma legacy_match (s : Utxo.UTXOSet) (inp : RingInput) (l : list RingMember) : forall c0,
  snd (foldl (count_member s inp) c0 l) <> snd c0 ->
  exists m u, m ∈ l /\ Utxo.GetByPubKey s m = Some u /\ Utxo.u_AmountCommit u = in_AmountCommit inp.
Proof.
  induction l as [|m l IH]; intros c0 Hn; [done|]. cbn [foldl] in Hn.
  destruct (decide (snd (count_member s inp c0 m) = snd c0)) as [E|E].
  - destruct (IH (count_member s inp c0 m)) as (m' & u & Hm & Hu); [by rewrite E|].
    exists m', u. split; [by right|done].
  - unfold count_member in E. destruct (Utxo.GetByPubKey s m) as [u|] eqn:Eu; [|done].
    case_bool_decide; [|done]. exists m, u. split; [left|done].
Qed.

(** Every input is backed by an output of the chain of the same value. *)
Lemma input_backed (value : Commitment -> Z) (order : Z) (v : TxVerifier) (s : Utxo.UTXOSet) (burns : gset (Hash32 * Z)) (height : Z)
    (tx : Transaction) (x : Hash32) (i : nat) (inp : RingInput) :
  commitment_model value order -> spend_shape tx -> inp ∈ Inputs tx ->
  check_ring v s burns height tx () inp = Ok () -> check_signature tx x i inp = Ok (S i) ->
  exists m u, m ∈ Ring inp /\ on_chain v s m u /\ value (Utxo.u_AmountCommit u) = value (in_commit tx inp).
Proof.
  intros Hm Hs Hin Hr Hsig. unfold check_ring in Hr. unfold in_commit. unfold on_chain.
  destruct (UsesCLSAG tx) eqn:Eu.
  - apply bind_ok in Hr as (n & Hr & _). unfold check_signature in Hsig. rewrite Eu in Hsig.
    apply bind_ok in Hsig as ([ver ki] & Hver & Hsig). destruct (CLSAGSignatures tx !! i) as [[sig|]|]; try done.
    apply Ok_inj in Hver. injection Hver as <- <-. destruct (CLSAGVerify _ _ _ _ sig) as [ok|] eqn:Ev; [|done].
    apply reject_ok in Hsig as [_ Hsig]. apply reject_ok in Hsig as [Hok _]. zbool. subst ok.
    destruct (cm_clsag _ _ Hm _ _ _ _ _ Ev) as (j & c & Hj & Hc & Hval).
    apply lookup_lt_is_Some in Hj as [m Hmem]. exists m.
    assert (Hstep := foldM_count _ _ _ _ (check_clsag_counts v s burns height inp) Hr j m Hmem).
    unfold check_clsag_member in Hstep. destruct (Utxo.GetRingMember (v_store v) s m) as [u|] eqn:Eg; [|done].
    simpl in Hstep. rewrite Hc in Hstep. apply reject_ok in Hstep as [Hcm _]. zbool.
    exists u. split_and!; [by eapply list_elem_of_lookup_2|by right|congruence].
  - destruct (is_version TxVersionCommitmentBinding tx).
    + unfold check_real_member in Hr. destruct (Ring inp !! _) as [m|] eqn:Em; [|done].
      destruct (Utxo.GetByPubKey s m) as [u|] eqn:Eg; [|done]. apply reject_ok in Hr as [Hc _]. zbool.
      exists m, u. split_and!; [by eapply list_elem_of_lookup_2|by left|congruence].
    + unfold check_legacy_ring in Hr. apply reject_ok in Hr as [_ Hr]. apply reject_ok in Hr as [Hc _]. zbool.
      destruct (legacy_match s inp (Ring inp) (0%nat, 0%nat)) as (m & u & Hmem & Hg & Hc'); [done|].
      exists m, u. split_and!; [done|by left|congruence].
Qed.

Lemma sumZ_bound {A} (f : A -> Z) (l : list A) :
  (forall a, a ∈ l -> is_u64 (f a)) -> 0 <= sumZ f l <= Z.of_nat (length l) * (U64 - 1).
Proof.
  induction l as [|a l IH]; intros Hf; [simpl; lia|]. cbn [sumZ length].
  assert (is_u64 (f a)) by (apply Hf; left). assert (0 <= sumZ f l <= Z.of_nat (length l) * (U64 - 1)).
  { apply IH. intros b Hb. apply Hf. by right. }
  u64lia.
Qed.

Lemma outputs_ranged (value : Commitment -> Z) (order : Z) (tx : Transaction) (n : nat) :
  commitment_model value order -> spend_shape tx -> foldM (check_range tx) 0%nat (RangeProofs tx) = Ok n ->
  forall o, o ∈ Outputs tx -> is_u64 (value (AmountCommit o)).
Proof.
  intros Hm Hs Hf o Ho. apply list_elem_of_lookup in Ho as [i Hi].
  assert (Hlt := lookup_lt_Some _ _ _ Hi). rewrite <- (sh_proofs tx Hs) in Hlt.
  apply lookup_lt_is_Some in Hlt as [p Hp].
  assert (Hstep := foldM_count _ _ _ _ (check_range_counts tx) Hf i p Hp).
  unfold check_range in Hstep. simpl in Hstep. destruct (VerifyRange p) as [ok|] eqn:Ev; [|done].
  apply reject_ok in Hstep as [Hok Hstep]. destruct p as [p|]; [|done]. rewrite Hi in Hstep.
  apply reject_ok in Hstep as [Hc _]. zbool. subst ok. rewrite <- Hc. by apply (cm_range _ _ Hm).
Qed.

(** What an accepted spend has passed. *)
Lemma verify_spend_ok (v : TxVerifier) (tx : Transaction) (burns : gset (Hash32 * Z)) (height : Z) :
  verify_spend v tx burns height = Ok () ->
  (exists s, foldM distinct_ki ∅ (Inputs tx) = Ok s) /\
  (forall s, v_utxos v = Some s -> forall inp, inp ∈ Inputs tx ->
     Utxo.IsSpent s (in_KeyImage inp) = false /\ check_ring v s burns height tx () inp = Ok ()) /\
  (forall inp m, inp ∈ Inputs tx -> m ∈ Ring inp -> member_locked v m = false) /\
  (forall i inp, Inputs tx !! i = Some inp -> check_signature tx (Hash tx) i inp = Ok (S i)) /\
  (exists n, foldM (check_range tx) 0%nat (RangeProofs tx) = Ok n) /\
  check_fee tx = Ok () /\ check_balance tx = Ok ().
Proof.
  intros Hv. unfold verify_spend in Hv. apply bind_ok in Hv as (d & Hd & Hv). apply bind_ok in Hv as ([] & Hu & Hv).
  apply bind_ok in Hv as ([] & Hl & Hv). apply bind_ok in Hv as ([] & Hr & Hv). apply bind_ok in Hv as (n & Hs & Hv).
  apply bind_ok in Hv as (k & Hp & Hv). apply bind_ok in Hv as ([] & Hf & Hb). split_and!; eauto.
  - intros s Es inp Hin. unfold with_set in *. rewrite Es in *. apply foldM_unit with (a := inp) in Hu; [|done].
    apply foldM_unit with (a := inp) in Hr; [|done]. unfold check_unspent in Hu. apply reject_ok in Hu as [Hu _]. done.
  - intros inp m Hin Hm. apply foldM_unit with (a := inp) in Hl; [|done]. unfold check_vesting in Hl.
    apply reject_ok in Hl as [Hl _]. destruct (member_locked v m) eqn:E; [|done].
    assert (existsb (member_locked v) (Ring inp) = true); [|congruence].
    apply existsb_exists. exists m. split; [by apply list_elem_of_In|done].
  - intros i inp Hi. by apply (foldM_count _ _ _ _ (check_signature_counts tx (Hash tx)) Hs i inp).
Qed.

Lemma modular_balance (order a b c : Z) :
  U64 * U64 < order -> a mod order = (b + c) mod order -> 0 <= a < U64 * U64 -> 0 <= b + c < U64 * U64 -> a = b + c.
Proof. intros Ho Hm Ha Hb. rewrite !Z.mod_small in Hm; lia. Qed.

(** Sources for all the inputs, with the total of their values. *)
Lemma sources_total {A B} (R : A -> B -> Prop) (f : A -> Z) (g : B -> Z) (l : list A) :
  (forall a, a ∈ l -> exists b, R a b /\ g b = f a) -> exists bs, Forall2 R l bs /\ sumZ g bs = sumZ f l.
Proof.
  induction l as [|a l IH]; intros Hl; [by exists []; split; [constructor|]|].
  destruct (Hl a) as (b & Hb & Eb); [left|]. destruct IH as (bs & Hbs & Es); [intros x Hx; apply Hl; by right|].
  exists (b :: bs). split; [by constructor|]. simpl. lia.
Qed.

(** A verified spend creates no value.  Its key images are distinct and unspent,
    and there is one output of the chain in the ring of each input such that the values
    of these outputs are exactly the values of the new outputs plus the public fee, for
    every transaction version; none of the ring members is a locked allocation. *)
Theorem verified_spend_conserves (value : Commitment -> Z) (order : Z) (v : TxVerifier) (s : Utxo.UTXOSet)
    (burns : gset (Hash32 * Z)) (height : Z) (tx : Transaction) :
  commitment_model value order -> v_utxos v = Some s ->
  (forall m u, on_chain v s m u -> is_u64 (value (Utxo.u_AmountCommit u))) ->
  is_u64 (Fee tx) -> Z.of_nat (length (Inputs tx)) < U32 -> Inputs tx <> [] ->
  IsStake tx = false -> IsLPoDPosition tx = false -> verifyTx v tx burns height = Ok () ->
  NoDup (in_KeyImage <$> Inputs tx) /\
  (forall inp, inp ∈ Inputs tx -> Utxo.IsSpent s (in_KeyImage inp) = false) /\
  (forall inp m, inp ∈ Inputs tx -> m ∈ Ring inp -> member_locked v m = false) /\
  exists spent, Forall2 (fun inp u => exists m, m ∈ Ring inp /\ on_chain v s m u) (Inputs tx) spent /\
    sumZ (fun u => value (Utxo.u_AmountCommit u)) spent = sumZ (fun o => value (AmountCommit o)) (Outputs tx) + Fee tx.
Proof.
  intros Hm Hset Hchain Hfee Hlen Hin Hst Hpos Hv. unfold verifyTx in Hv. apply bind_ok in Hv as ([] & Hval & Hv).
  assert (Hs := validate_shape tx Hval Hin Hpos Hst). rewrite Hpos in Hv.
  destruct (len_is (Inputs tx) 0) eqn:E0. { rewrite Hst in Hv. done. }
  apply verify_spend_ok in Hv as ((d & Hd) & Hin' & Hlock & Hsig & (n & Hrp) & Hf & Hb).
  split_and!; [by eapply distinct_kis|intros inp Hi; by eapply Hin'|done|].
  destruct (sources_total (fun inp u => exists m, m ∈ Ring inp /\ on_chain v s m u)
    (fun inp => value (in_commit tx inp)) (fun u => value (Utxo.u_AmountCommit u)) (Inputs tx)) as (spent & Hsp & Htot).
  { intros inp Hi. destruct (Hin' s Hset inp Hi) as [_ Hr]. assert (Hi' := Hi). apply list_elem_of_lookup in Hi' as [i Hlk].
    destruct (input_backed value order v s burns height tx (Hash tx) i inp Hm Hs Hi Hr (Hsig i inp Hlk)) as (m & u & ? & ? & ?).
    exists u. eauto. }
  exists spent. split; [done|]. rewrite Htot.
  assert (Hout := outputs_ranged value order tx n Hm Hs Hrp).
  assert (Hsrc : forall u, u ∈ spent -> is_u64 (value (Utxo.u_AmountCommit u))).
  { intros u Hu. apply list_elem_of_lookup in Hu as [i Hu]. destruct (Forall2_lookup_r _ _ _ _ _ Hsp Hu) as (inp & _ & m & _ & Hoc).
    by apply (Hchain m). }
  assert (B1 := sumZ_bound _ _ Hsrc). assert (B2 := sumZ_bound _ _ Hout). rewrite Htot in B1.
  rewrite <- (Forall2_length Hsp) in B1. assert (H16 := sh_outputs tx Hs).
  unfold check_fee in Hf. destruct (Commit (Fee tx) (zero_arr 32)) as [c|] eqn:Ec; [|done]. apply reject_ok in Hf as [Hfc _].
  apply (cm_fee _ _ Hm) in Ec; [|done]. zbool.
  unfold check_balance in Hb. destruct (CommitSum _ _ _) as [ok|] eqn:Esum; [|done]. apply reject_ok in Hb as [Hok _]. zbool. subst ok.
  apply (cm_sum _ _ Hm) in Esum. rewrite !sumZ_fmap, Hfc, Ec in Esum.
  apply (modular_balance order); [by apply (cm_order _ _ Hm)|done| |]; u64lia.
Qed.

(** At and after the activation height a block whose transactions verify has no
    CLSAG ring that names collateral: neither staked before, nor burned by a version 2
    or 3 deposit of the same block. *)
Theorem block_excludes_collateral (v : TxVerifier) (s : Utxo.UTXOSet) (b : Block) :
  v_utxos v = Some s -> 0 < stakedCollateralRingExclusionActivationHeight v <= Height (Header b) ->
  VerifyBlock v (Some b) = Ok () ->
  forall tx inp m, tx ∈ Txs b -> UsesCLSAG tx = true -> inp ∈ Inputs tx -> m ∈ Ring inp ->
  exists u, Utxo.GetRingMember (v_store v) s m = Some u /\
    Utxo.IsStaked s (Utxo.u_TxHash u) (Utxo.u_OutputIndex u) = false /\
    forall d, d ∈ Txs b -> tx_burn d <> Some (Utxo.key_of u).
Proof.
  intros Hset Hact Hv tx inp m Htx Hu Hin Hm. unfold VerifyBlock in Hv. apply reject_ok in Hv as [_ Hv].
  rewrite (proj2 (Z.ltb_lt _ _)), (proj2 (Z.leb_le _ _)) in Hv by lia. cbn [andb] in Hv.
  apply foldM_unit with (a := tx) in Hv; [|done]. unfold verify_block_tx in Hv.
  assert (Hver : Version tx = TxVersionCLSAG \/ Version tx = TxVersionAVM).
  { unfold UsesCLSAG, is_version in Hu. apply orb_true_iff in Hu as [Hu|Hu]; zbool; auto. }
  assert (Hne : Inputs tx <> []) by (intros He; rewrite He in Hin; by apply not_elem_of_nil in Hin).
  assert (Hex : exempt tx = false /\ IsLPoDPosition tx = false /\ IsStake tx = false).
  { unfold exempt, IsCoinbase, IsGuardianFund, IsLPoD, IsLPoDPayout, IsLPoDPosition, IsStake, is_version.
    rewrite (bool_decide_eq_false_2 (Inputs tx = [])) by done. by destruct Hver as [-> | ->]. }
  destruct Hex as (Hex & Hpos & Hst). rewrite Hex in Hv. unfold verifyTx in Hv. apply bind_ok in Hv as (_ & _ & Hv).
  rewrite Hpos in Hv. destruct (len_is (Inputs tx) 0) eqn:E0; [by rewrite Hst in Hv|].
  apply verify_spend_ok in Hv as (_ & Hin' & _). destruct (Hin' s Hset inp Hin) as [_ Hr].
  unfold check_ring in Hr. rewrite Hu in Hr. apply bind_ok in Hr as (n & Hr & _).
  apply list_elem_of_lookup in Hm as [j Hj].
  assert (Hstep := foldM_count _ _ _ _ (check_clsag_counts v s _ _ inp) Hr j m Hj). unfold check_clsag_member in Hstep.
  destruct (Utxo.GetRingMember (v_store v) s m) as [u|]; [|done]. destruct (RingCommitments inp !! _); [|done].
  apply reject_ok in Hstep as [_ Hstep]. apply reject_ok in Hstep as [Hcol _].
  rewrite (proj2 (Z.ltb_lt _ _)), (proj2 (Z.leb_le _ _)) in Hcol by lia. cbn [andb] in Hcol.
  apply orb_false_iff in Hcol as [Hburn Hstk]. zbool. exists u. split_and!; [done|done|].
  intros d Hd Hb. apply Hburn. apply elem_of_list_to_set, list_elem_of_omap. eauto.
Qed.

End Conservation.

(** ** Examples *)

(** Commitments that show their value in the first eight bytes, with sums, range
    proofs and ring signatures over these values. *)
Definition plain_value (c : Commitment) : Z := be_decode (take 8 (arr_list c)).

Definition plain_ring : RingCrypto := {|
  CLSAGVerify := fun _ ring cs pseudo _ => Ok (existsb (fun c => bool_decide (c = pseudo)) (take (length ring) cs));
  MLSAGVerify := fun _ _ _ => Ok true;
  VerifyRange := fun p => match p with Some _ => Ok true | None => Err "nil proof" end;
  CommitSum := fun ins outs fee => Ok (sumZ plain_value ins =? sumZ plain_value outs + plain_value fee)
|}.

Definition curve_order : Z := 7237005577332262213973186563042994240857116359379907606001950938285454250989.

Lemma take_copy (k n : nat) (l : list byte) :
  (k <= n)%nat -> (k <= length l)%nat -> take k (arr_list (copy_arr n l)) = take k l.
Proof.
  intros Hn Hl. simpl. rewrite take_app_le by (rewrite length_take; lia). by rewrite take_take, Nat.min_l by lia.
Qed.

Lemma plain_model : commitment_model (H := toy_crypto) (H0 := plain_ring) plain_value curve_order.
Proof.
  constructor.
  - reflexivity.
  - intros ins outs fee Hs. apply Ok_inj in Hs. zbool. by rewrite Hs.
  - intros p _. unfold plain_value. apply be_decode8_u64. rewrite length_take, arr_length. lia.
  - reflexivity.
  - intros x c Hx Hc. apply (inj Some) in Hc as <-. unfold plain_value. rewrite take_copy by (rewrite ?length_app, ?length_be_encode; lia).
    rewrite take_app_length' by (symmetry; apply length_be_encode). by apply be_decode_encode8.
  - intros msg ring cs pseudo sig Hv. apply Ok_inj in Hv. apply existsb_exists in Hv as (c & Hc & He). zbool. subst c.
    apply list_elem_of_In, list_elem_of_lookup in Hc as [j Hj]. apply lookup_take_Some in Hj as [Hj Hlt]. eauto.
Qed.

Definition ex_commit (n : Z) : Commitment := copy_arr 32 (be_encode 8 n).
Definition ex_member : RingMember := copy_arr 32 [x05].
Definition ex_source : Utxo.UTXO :=
  Utxo.mkUTXO (copy_arr 32 [x21]) 0 ex_member (copy_arr 32 [x22]) (ex_commit 1000) (copy_arr 8 []) 1 false.
Definition ex_set : Utxo.UTXOSet := Utxo.Add ex_source Utxo.NewUTXOSet.
Definition ex_verifier : TxVerifier := mkVerifier (Some ex_set) None None 0 5.

Definition ex_in : RingInput :=
  mkInput (copy_arr 32 [x07]) (replicate RingSize ex_member) (ex_commit 1000) (replicate RingSize (ex_commit 1000))
    (ex_commit 1000) x00.
Definition ex_proof : RangeProof :=
  {| rp_V := zero_arr 32; rp_A := zero_arr 32; rp_S := zero_arr 32; rp_T1 := zero_arr 32; rp_T2 := zero_arr 32;
     rp_Taux := zero_arr 32; rp_Mu := zero_arr 32; rp_Tx := zero_arr 32; rp_Ls := []; rp_Rs := [];
     rp_AFin := zero_arr 32; rp_BFin := zero_arr 32; ValueCommit := ex_commit 900 |}.
(** Spends the output of 1000 into one of 900 and a fee of 100. *)
Definition ex_tx : Transaction :=
  mkTx TxVersionCLSAG [ex_in] [mkOutput (copy_arr 32 [x30]) (copy_arr 32 [x31]) (ex_commit 900) (copy_arr 8 [])]
    100 (ex_commit 100) [Some ex_proof] [] [Some ex_clsag] [] None.

(** A deposit in each of two payload formats, the second for the output of [ex_source]. *)
Definition ex_deposit_v2 : Transaction :=
  mkTx TxVersionStake [] [] 0 (zero_arr 32) [] [] [] (StakePayload.StakeDeposit :: replicate 172 x00) None.
Definition ex_block (d : Transaction) : Block :=
  mkBlock (mkHeader 10 (zero_arr 32) (zero_arr 32) 1000 0 [] 0 0 []) [d; ex_tx].

Lemma ex_tx_verifies : verifyTx (H := toy_crypto) (H0 := toy_json) (H1 := plain_ring) ex_verifier ex_tx ∅ 3 = Ok ().
Proof. vm_compute. reflexivity. Qed.

Lemma ex_on_chain (m : RingMember) (u : Utxo.UTXO) : on_chain ex_verifier ex_set m u -> is_u64 (plain_value (Utxo.u_AmountCommit u)).
Proof. intros _. unfold plain_value. apply be_decode8_u64. rewrite length_take, arr_length. lia. Qed.

Lemma verified_spend_conserves_witness :
  exists spent, length spent = 1%nat /\
    sumZ (fun u => plain_value (Utxo.u_AmountCommit u)) spent = 900 + 100.
Proof.
  destruct (verified_spend_conserves (H := toy_crypto) (H0 := toy_json) (H1 := plain_ring) plain_value curve_order
    ex_verifier ex_set ∅ 3 ex_tx plain_model eq_refl ex_on_chain) as (_ & _ & _ & spent & Hf & Hsum);
    [unfold ex_tx; cbn [Fee]; u64lia|reflexivity|discriminate|reflexivity|reflexivity|exact ex_tx_verifies|].
  exists spent. split.
  - apply Forall2_length in Hf. symmetry. exact Hf.
  - rewrite Hsum. vm_compute. reflexivity.
Defined.

Lemma verify_never_panics_witness :
  panics (verifyTx (H := toy_crypto) (H0 := toy_json) (H1 := plain_ring) ex_verifier ex_tx ∅ 3) = false.
Proof. apply verify_never_panics; reflexivity. Defined.

Lemma block_excludes_collateral_witness :
  exists u, Utxo.GetRingMember None ex_set ex_member = Some u /\
    tx_burn ex_deposit_v2 <> Some (Utxo.key_of u).
Proof.
  destruct (block_excludes_collateral (H := toy_crypto) (H0 := toy_json) (H1 := plain_ring) ex_verifier ex_set
    (ex_block ex_deposit_v2) eq_refl) with (tx := ex_tx) (inp := ex_in) (m := ex_member) as (u & Hu & _ & Hb).
  - unfold ex_verifier, ex_block. cbn [stakedCollateralRingExclusionActivationHeight Height Header]. lia.
  - vm_compute. reflexivity.
  - right. left.
  - reflexivity.
  - left.
  - left.
  - exists u. split; [exact Hu|]. apply Hb. left.
Defined.

(** A stake transaction with one input that names an output of the chain and its
    commitment, and no signature. *)
Definition ex_stake_with_input : Transaction :=
  mkTx TxVersionStake [ex_in] [] 0 (zero_arr 32) [] [] [] (StakePayload.StakeWithdraw :: replicate 104 x00) None.

(** A stake transaction may carry inputs without signatures; it passes
    [Validate], and when its ring names an output of the chain with its commitment the
    verifier indexes the empty list of signatures: a peer can make the node panic. *)
Example stake_inputs_panic :
  Validate (H := toy_crypto) (H0 := toy_json) ex_stake_with_input = Ok () /\
  VerifyTxAtHeight (H := toy_crypto) (H0 := toy_json) (H1 := plain_ring) ex_verifier ex_stake_with_input 3 =
    Err panic_index.
Proof. split; vm_compute; reflexivity. Qed.

(** A version 4 deposit for the output of [ex_source]. *)
Definition ex_deposit_v4 : Transaction :=
  mkTx TxVersionStake [] [] 0 (zero_arr 32) [] [] []
    (StakePayload.deposit_bytes (StakePayload.mkDeposit StakePayload.StakeDeposit (replicate 32 x01) 1000
       (replicate 64 x02) (copy_arr 32 [x21]) 0 (zero_arr 32)) ++ replicate 128 x00) None.

(** The collateral of a version 4 deposit is not collected: after the activation
    height a block with such a deposit and a ring that names its collateral verifies. *)
Theorem v4_collateral_not_excluded :
  (exists d ki proof, StakePayload.DecodeStakeExtraV4 (Extra ex_deposit_v4) = Ok (d, ki, proof) /\
     (StakePayload.burnTxHash d, StakePayload.burnOutIdx d) = Utxo.key_of ex_source) /\
  0 < stakedCollateralRingExclusionActivationHeight ex_verifier <= Height (Header (ex_block ex_deposit_v4)) /\
  VerifyBlock (H := toy_crypto) (H0 := toy_json) (H1 := plain_ring) ex_verifier (Some (ex_block ex_deposit_v4)) = Ok ().
Proof.
  split; [|split; [simpl; lia|vm_compute; reflexivity]].
  do 3 eexists. split; [reflexivity|]. apply (bool_decide_unpack _). vm_compute. exact I.
Qed.

End TxVerifier.
