(* ===== verification/CryptoImpl.v ===== *)
(** The interfaces [Crypto] and [RingCrypto] of the transaction layer implemented by the
    modelled functions of the [crypto] package, over the interfaces of Go's hashes and
    of the edwards25519 and base58 libraries; and what the verifier of transactions
    promises once the primitives are these functions. *)

From stdpp Require Import base gmap list strings.
From S2P Require Import Prelude Bytes Crypto GroupOrder Curve Pedersen RingSig Stealth Bulletproof.
From S2P Require Import StakePayload Vesting Transaction Utxo TxVerifier.
Import Curve Pedersen RingSig Bulletproof Transaction TxVerifier.

Module CryptoImpl.

(** ** The instances *)

(** [crypto/ed25519]: [Verify] and [Sign] with the key of the node. *)
Class Ed25519 := {
  ed_Verify : list byte -> list byte -> list byte -> bool;
  ed_Sign : list byte -> Hash32 -> option (list byte)
}.

Definition opt {A} (r : result A) : option A := match r with Ok a => Some a | Err _ => None end.
Definition holds (r : result bool) : bool := match r with Ok b => b | Err _ => false end.

Lemma opt_some {A} (r : result A) (a : A) : opt r = Some a <-> r = Ok a.
Proof. destruct r; simpl; naive_solver. Qed.

Lemma holds_true (r : result bool) : holds r = true <-> r = Ok true.
Proof. destruct r as [[]|]; simpl; naive_solver. Qed.

Section Instances.
Context {hs : Hashes} {ed : Edwards} {b58 : Stealth.Base58} {sgn : Ed25519}.

Definition impl_crypto : Crypto := {|
  Crypto.sha256 := sha256_sum;
  Crypto.ed25519_verify := ed_Verify;
  Crypto.Commit := fun value blind => opt (Pedersen.Commit value blind);
  Crypto.CanonicalKeyImage := fun ki => opt (Curve.CanonicalKeyImage ki);
  Crypto.VerifyKeyImageProof := fun P ki context proof => is_ok (Pedersen.VerifyKeyImageProof P ki context proof);
  Crypto.DecodeAddress := fun addr => opt (Stealth.DecodeAddress addr);
  Crypto.ValidateAuthorizedOutputPoints := fun pub eph => is_ok (Pedersen.ValidateAuthorizedOutputPoints pub eph);
  Crypto.VerifyValueAuthorization := fun amount commit proof => is_ok (Pedersen.VerifyValueAuthorization amount commit proof);
  Crypto.MLSAGVerifyV4 := fun msg ring commit real sig => holds (RingSig.MLSAGVerifyV4 msg ring commit (Z.of_nat real) sig);
  Crypto.HashToCurvePoint := fun data => default (zero_arr 32) (p_Bytes <$> opt (hashToCurvePoint data));
  Crypto.ed25519_sign := ed_Sign;
  Crypto.DeterministicMintBlind := fun pub amount => Some (Pedersen.DeterministicMintBlind pub amount);
  Crypto.DeterministicMintBlindV2 := fun pub amount height => Some (Pedersen.DeterministicMintBlindV2 pub amount height);
  Crypto.ScalarMulBaseUint64 := fun n => opt (scalarMulBase (ScalarFromUint64 n));
  Crypto.AddPoints := fun P Q => opt (Curve.AddPoints P Q)
|}.

Definition impl_ring : RingCrypto := {|
  TxVerifier.CLSAGVerify := fun msg ring commits pseudo sig => RingSig.CLSAGVerify msg ring commits pseudo (Some sig);
  TxVerifier.MLSAGVerify := fun msg ring sig => RingSig.MLSAGVerify msg ring (Some sig);
  TxVerifier.VerifyRange := Bulletproof.VerifyRange;
  TxVerifier.CommitSum := Pedersen.CommitSum
|}.

End Instances.

(** ** The verifier over the implementation *)

Section Composition.
Context {hs : Hashes} {ed : Edwards} {laws : EdwardsLaws} {b58 : Stealth.Base58} {sgn : Ed25519} {js : Json}.

#[local] Existing Instance impl_crypto.
#[local] Existing Instance impl_ring.

Lemma foldM_steps {A} (f : nat -> A -> result nat) (l : list A) (n : nat) :
  (forall i a, l !! i = Some a -> f (n + i)%nat a = Ok (S (n + i))) -> foldM f n l = Ok (n + length l)%nat.
Proof.
  revert n. induction l as [|a l IH]; intros n Hf; simpl; [by rewrite Nat.add_0_r|].
  assert (E := Hf 0%nat a eq_refl). rewrite Nat.add_0_r in E. rewrite E. cbn [mbind result_bind].
  rewrite IH; [f_equal; lia|]. intros i b Hb. specialize (Hf (S i) b Hb). by rewrite Nat.add_succ_r in Hf.
Qed.

(** Input [i] as a wallet makes it: the ring has the key [x G] of the wallet and its
    commitment to [value]; the pseudo output commits to the same value; and the
    signature in place [i] is what [CLSAGSign] returned for the signing message. *)
Record wallet_input (tx : Transaction) (i : nat) (inp : RingInput) (o : Z * BlindFactor) : Prop := {
  wi_ring : exists ks cs realIdx x inB outB t sig t',
    Ring inp = p_Bytes <$> ks /\ RingCommitments inp = p_Bytes <$> cs /\
    length ks = RingSize /\ length cs = RingSize /\ NoDup ks /\ 0 <= realIdx < 16 /\
    Forall (fun k => subgroup k /\ k <> identity /\ exists hp, hashToCurvePoint (arr_list (p_Bytes k)) = Ok hp) ks /\
    Forall subgroup cs /\ sval x <> 0 /\ ks !! Z.to_nat realIdx = Some (ScalarBaseMult x) /\
    p_Bytes <$> (cs !! Z.to_nat realIdx) = opt (Pedersen.Commit o.1 (s_Bytes inB)) /\ (16 <= length t)%nat /\
    o.2 = s_Bytes outB /\ ComputeKeyImage (s_Bytes x) (p_Bytes (ScalarBaseMult x)) = Ok (in_KeyImage inp) /\
    CLSAGSign (ringSignMessage (Hash tx) (wrap32 (Z.of_nat i))) (Ring inp) (RingCommitments inp) (PseudoOut inp) realIdx
      (s_Bytes x) (s_Bytes inB) (s_Bytes outB) t = Ok (sig, t') /\
    CLSAGSignatures tx !! i = Some (Some sig);
  wi_pseudo : opens (PseudoOut inp) o
}.

(** Output [i] as a wallet makes it: its range proof is what [ProveRange] returned for
    the value and the blinding factor of the commitment. *)
Record wallet_output (tx : Transaction) (i : nat) (out : Output) (o : Z * BlindFactor) : Prop := {
  wo_proof : exists gamma t pf t', o.2 = s_Bytes gamma /\
    ProveRange o.1 (s_Bytes gamma) t = Ok (pf, t') /\
    Forall (fun s => sval s <> 0) (inverted_challenges pf) /\ RangeProofs tx !! i = Some (Some pf);
  wo_opens : opens (AmountCommit out) o
}.

Lemma wallet_signature (tx : Transaction) (i : nat) (inp : RingInput) (o : Z * BlindFactor) :
  UsesCLSAG tx = true -> wallet_input tx i inp o -> check_signature tx (Hash tx) i inp = Ok (S i).
Proof.
  intros Hv [(ks & cs & realIdx & x & inB & outB & t & sig & t' & Hr & Hrc & Hlk & Hlc & Hnd & Hri & Hks & Hcs & Hx & Hk & Hc & Ht & Ho & Hki & Hs & Hsig) [Hu Hp]].
  destruct (clsag_accepts (ringSignMessage (Hash tx) (wrap32 (Z.of_nat i))) ks cs realIdx x inB outB o.1 t Hlk Hlc Hnd Hri Hu Hks Hcs Hx Hk Hc Ht)
    as (sig' & t'' & pseudo & Hp' & Hs' & Hver & Hki').
  rewrite Ho, Hp' in Hp. apply Ok_inj in Hp as ->. rewrite Hr, Hrc in Hs. rewrite Hs' in Hs. apply Ok_inj in Hs as [= -> _].
  rewrite Hki' in Hki. apply Ok_inj in Hki.
  unfold check_signature. rewrite Hv, Hsig. cbn [mbind result_bind]. unfold TxVerifier.CLSAGVerify, impl_ring.
  rewrite Hr, Hrc, Hver. by rewrite bool_decide_eq_true_2.
Qed.

Lemma wallet_range (tx : Transaction) (i : nat) (out : Output) (o : Z * BlindFactor) (p : option RangeProof) :
  wallet_output tx i out o -> Outputs tx !! i = Some out -> RangeProofs tx !! i = Some p -> check_range tx i p = Ok (S i).
Proof.
  intros [(gamma & t & pf & t' & Ho & Hpr & Hch & Hp) [Hu Hc]] Hout Hi. rewrite Hp in Hi. injection Hi as <-.
  destruct (ProveRange_result o.1 gamma t Hu) as (pf' & x & Hres). destruct (taus t) as [[tau1 tau2] t2].
  destruct Hres as (Hpr' & Hc' & _ & Hver). rewrite Hpr in Hpr'. apply Ok_inj in Hpr' as [= <- _].
  rewrite Ho, Hc' in Hc. apply Ok_inj in Hc.
  unfold check_range, TxVerifier.VerifyRange, impl_ring. rewrite Hver by done. cbn [negb]. rewrite Hout. by rewrite bool_decide_eq_true_2.
Qed.

(** A CLSAG transaction made by the wallet's functions, that balances. *)
Record wallet_spend (tx : Transaction) (ins outs : list (Z * BlindFactor)) : Prop := {
  ws_version : UsesCLSAG tx = true;
  ws_proofs : length (RangeProofs tx) = length (Outputs tx);
  ws_ins : length ins = length (Inputs tx) /\ Z.of_nat (length ins) < 2 ^ 128;
  ws_outs : length outs = length (Outputs tx) /\ Z.of_nat (length outs) < 2 ^ 128;
  ws_input : forall i inp o, Inputs tx !! i = Some inp -> ins !! i = Some o -> wallet_input tx i inp o;
  ws_output : forall i out o, Outputs tx !! i = Some out -> outs !! i = Some o -> wallet_output tx i out o;
  ws_fee : opens (FeeCommit tx) (Fee tx, zero_arr 32);
  ws_balance : values ins = values outs + Fee tx /\ blinds ins - blinds outs ≡l 0
}.

Lemma wallet_spend_checks (v : TxVerifier) (tx : Transaction) (burns : gset (Hash32 * Z)) (height : Z)
    (ins outs : list (Z * BlindFactor)) :
  wallet_spend tx ins outs ->
  verify_spend v tx burns height =
    (_ ← foldM distinct_ki ∅ (Inputs tx);
     _ ← with_set v () (fun s => foldM (check_unspent s) () (Inputs tx));
     _ ← foldM (check_vesting v) () (Inputs tx);
     with_set v () (fun s => foldM (check_ring v s burns height tx) () (Inputs tx))).
Proof.
  intros [Hv Hlr [Hli Hbi] [Hlo Hbo] Hins Houts Hfee [Hval Hbl]]. unfold verify_spend.
  destruct (foldM distinct_ki ∅ (Inputs tx)) as [d|]; [|done]. cbn [mbind result_bind].
  destruct (with_set v () (fun s => foldM (check_unspent s) () (Inputs tx))) as [[]|]; [|done]. cbn [mbind result_bind].
  destruct (foldM (check_vesting v) () (Inputs tx)) as [[]|]; [|done]. cbn [mbind result_bind].
  destruct (with_set v () (fun s => foldM (check_ring v s burns height tx) () (Inputs tx))) as [[]|]; [|done]. cbn [mbind result_bind].
  rewrite (foldM_steps (check_signature tx (Hash tx))).
  2: { intros i inp Hi. destruct (proj2 (lookup_lt_is_Some ins i)) as [o Ho]; [apply lookup_lt_Some in Hi; lia|].
       by apply (wallet_signature tx i inp o Hv), Hins. }
  cbn [mbind result_bind]. rewrite (foldM_steps (check_range tx)).
  2: { intros i p Hp. assert (Hlt := lookup_lt_Some _ _ _ Hp). destruct (proj2 (lookup_lt_is_Some outs i)) as [o Ho]; [lia|].
       destruct (proj2 (lookup_lt_is_Some (Outputs tx) i)) as [out Hout]; [lia|].
       by apply (wallet_range tx i out o); [apply Houts| |]. }
  cbn [mbind result_bind]. unfold check_fee, Crypto.Commit, impl_crypto.
  destruct Hfee as [Hfu Hfc]. cbn [fst snd] in Hfu, Hfc. rewrite Hfc. cbn [opt mbind result_bind]. rewrite bool_decide_eq_true_2 by done. cbn [negb mbind result_bind].
  unfold check_balance, TxVerifier.CommitSum, impl_ring.
  destruct (CommitSum_spec (in_commit tx <$> Inputs tx) (AmountCommit <$> Outputs tx) ins outs (Fee tx) (FeeCommit tx)) as (_ & Hok & _).
  - apply Forall2_fmap_l, Forall2_same_length_lookup_2; [done|]. intros i inp o Hi Ho. unfold in_commit. rewrite Hv. by apply (wi_pseudo tx i), Hins.
  - apply Forall2_fmap_l, Forall2_same_length_lookup_2; [done|]. intros i out o Hi Ho. by apply (wo_opens tx i), Houts.
  - done.
  - rewrite length_fmap. lia.
  - rewrite length_fmap. lia.
  - by rewrite (Hok Hval Hbl).
Qed.

(** C6: A CLSAG transaction whose inputs, outputs and fee commitment were made by the
    wallet's functions, and that balances, passes every cryptographic check: what is
    left of its verification are the checks against the state of the chain. *)
Theorem honest_spend_accepted (v : TxVerifier) (tx : Transaction) (burns : gset (Hash32 * Z)) (height : Z)
    (ins outs : list (Z * BlindFactor)) :
  wallet_spend tx ins outs ->
  verify_spend v tx burns height =
    (_ ← foldM distinct_ki ∅ (Inputs tx);
     _ ← with_set v () (fun s => foldM (check_unspent s) () (Inputs tx));
     _ ← foldM (check_vesting v) () (Inputs tx);
     with_set v () (fun s => foldM (check_ring v s burns height tx) () (Inputs tx))).
Proof. apply wallet_spend_checks. Qed.

Lemma spend_checks (v : TxVerifier) (tx : Transaction) (burns : gset (Hash32 * Z)) (height : Z) :
  verifyTx v tx burns height = Ok () -> Inputs tx <> [] -> IsLPoDPosition tx = false -> verify_spend v tx burns height = Ok ().
Proof.
  unfold verifyTx. intros Hv Hin Hp. apply bind_ok in Hv as ([] & _ & Hv). rewrite Hp in Hv.
  unfold len_is in Hv. rewrite bool_decide_eq_false_2 in Hv; [done|]. by destruct (Inputs tx).
Qed.

(** C7: A verified spend whose commitments have known openings either preserves the value,
    as integers, or hands over the discrete logarithm of [H] to the base [G]: the
    difference [b] of the values is not a multiple of the group order, and with the
    difference [a] of the blinding factors [a G + b H = 0]. *)
Theorem accepted_spend_balances (v : TxVerifier) (tx : Transaction) (burns : gset (Hash32 * Z)) (height : Z)
    (ins outs : list (Z * BlindFactor)) :
  verifyTx v tx burns height = Ok () -> Inputs tx <> [] -> IsLPoDPosition tx = false -> is_u64 (Fee tx) ->
  Forall2 opens (in_commit tx <$> Inputs tx) ins -> Forall2 opens (AmountCommit <$> Outputs tx) outs ->
  Z.of_nat (length (Inputs tx)) < 2 ^ 128 -> Z.of_nat (length (Outputs tx)) < 2 ^ 128 ->
  values ins = values outs + Fee tx \/
  ~ values ins - values outs - Fee tx ≡l 0 /\
  zsmul (blinds ins - blinds outs) base_point ⊕ zsmul (values ins - values outs - Fee tx) hGenerator = identity.
Proof.
  intros Hv Hin Hp Hfu Hi Ho Hli Hlo. apply spend_checks in Hv; [|done..].
  apply verify_spend_ok in Hv as (_ & _ & _ & _ & _ & Hf & Hb).
  unfold check_fee, Crypto.Commit, impl_crypto in Hf. destruct (opt _) as [fc|] eqn:Ec; [|done]. apply opt_some in Ec.
  apply reject_ok in Hf as [Hf _]. zbool.
  unfold check_balance, TxVerifier.CommitSum, impl_ring in Hb.
  destruct (CommitSum_spec _ _ ins outs (Fee tx) (FeeCommit tx) Hi Ho) as (_ & _ & Hbal).
  - split; [done|]. cbn [fst snd]. by rewrite Hf.
  - by rewrite length_fmap.
  - by rewrite length_fmap.
  - destruct (Pedersen.CommitSum _ _ _) as [ok|]; [|done]. apply reject_ok in Hb as [Hok _]. zbool. subst ok.
    exact (Hbal eq_refl).
Qed.

Lemma verified_image (v : TxVerifier) (tx : Transaction) (burns : gset (Hash32 * Z)) (height : Z) (inp : RingInput) :
  verify_spend v tx burns height = Ok () -> inp ∈ Inputs tx -> accepted (in_KeyImage inp).
Proof.
  intros Hv Hin. apply verify_spend_ok in Hv as (_ & _ & _ & Hs & _). apply list_elem_of_lookup in Hin as [i Hi].
  specialize (Hs i inp Hi). unfold check_signature in Hs. apply bind_ok in Hs as ([verified ki] & Hk & Hs).
  destruct verified as [ok|]; [|done]. apply reject_ok in Hs as [Hki Hs]. apply reject_ok in Hs as [Hok _]. zbool. subst ok ki.
  destruct (UsesCLSAG tx).
  - destruct (CLSAGSignatures tx !! i) as [[sig|]|]; [|done..]. apply Ok_inj in Hk as [= Hver Hki].
    by apply (accepted_clsag _ _ _ _ _ sig Hver).
  - destruct (Signatures tx !! i) as [[sig|]|]; [|done..]. apply Ok_inj in Hk as [= Hver Hki]. case_match.
    + apply Ok_inj, holds_true in Hver. by apply (accepted_v4 _ _ _ _ _ sig Hver).
    + by apply (accepted_mlsag _ _ _ sig Hver).
Qed.

(** C8: An output cannot be spent twice under two key images that differ by a point of
    small order: once the key image of a verified spend is in the set of spent ones, no
    transaction with an image that agrees with it after multiplication by the cofactor
    verifies. *)
Theorem torsion_double_spend_rejected (v v' : TxVerifier) (tx tx' : Transaction) (burns burns' : gset (Hash32 * Z))
    (height height' : Z) (inp inp' : RingInput) (s' : Utxo.UTXOSet) (p p' : point) :
  verifyTx v tx burns height = Ok () -> IsLPoDPosition tx = false -> inp ∈ Inputs tx ->
  v_utxos v' = Some s' -> Utxo.IsSpent s' (in_KeyImage inp) = true ->
  IsLPoDPosition tx' = false -> inp' ∈ Inputs tx' ->
  SetBytes (arr_list (in_KeyImage inp)) = Some p -> SetBytes (arr_list (in_KeyImage inp')) = Some p' ->
  MultByCofactor p = MultByCofactor p' -> verifyTx v' tx' burns' height' <> Ok ().
Proof.
  intros Hv Hp Hin Hset Hsp Hp' Hin' Hd Hd' Hc Hv'.
  assert (Hne : forall t (i : RingInput), i ∈ Inputs t -> Inputs t <> []) by (intros t i Hi E; rewrite E in Hi; by apply not_elem_of_nil in Hi).
  apply spend_checks in Hv, Hv'; [|by eauto..].
  assert (E := accepted_cofactor _ _ _ _ (verified_image _ _ _ _ _ Hv Hin) (verified_image _ _ _ _ _ Hv' Hin') Hd Hd' Hc).
  apply verify_spend_ok in Hv' as (_ & Hs & _). destruct (Hs s' Hset inp' Hin') as [Hun _]. congruence.
Qed.

End Composition.
(** ** A concrete transaction *)

#[local] Existing Instance toy_hashes | 0.
#[local] Existing Instance toy_curve | 0.
#[local] Existing Instance Stealth.toy_base58 | 0.
#[local] Existing Instance impl_crypto | 0.
#[local] Existing Instance impl_ring | 0.
#[local] Instance toy_ed25519 : Ed25519 := {| ed_Verify := fun _ _ _ => true; ed_Sign := fun _ _ => None |}.

(** Spends the output of 500 at place 3 of the ring into outputs of 300 and 100 and a fee
    of 100. *)
Definition sx_ins : list (Z * BlindFactor) := [(500, s_Bytes (ex_scalar 60 : scalar))].
Definition sx_outs : list (Z * BlindFactor) := [(300, s_Bytes (ex_scalar 35 : scalar)); (100, s_Bytes (ex_scalar 25 : scalar))].
Definition sx_commit (o : Z * BlindFactor) : Commitment :=
  match Pedersen.Commit o.1 o.2 with Ok c => c | Err _ => zero_arr 32 end.
Definition sx_image : KeyImage :=
  match ComputeKeyImage (s_Bytes (ex_scalar 1003 : scalar)) (p_Bytes (ScalarBaseMult (ex_scalar 1003 : scalar))) with
  | Ok ki => ki | Err _ => zero_arr 32 end.
Definition sx_inp : RingInput :=
  mkInput sx_image RingSig.ex_ring (zero_arr 32) (p_Bytes <$> ex_commits) (sx_commit (500, s_Bytes (ex_scalar 60 : scalar))) x00.
Definition sx_out (o : Z * BlindFactor) : Output := mkOutput (p_Bytes (ex_key 20)) (p_Bytes (ex_key 21)) (sx_commit o) (copy_arr 8 []).
Definition sx_tx (sigs : list (option CLSAGSignature)) (proofs : list (option RangeProof)) : Transaction :=
  mkTx TxVersionCLSAG [sx_inp] (sx_out <$> sx_outs) 100 (sx_commit (100, zero_arr 32)) proofs [] sigs [] None.

(** The set that holds the members of the ring. *)
Definition sx_set : Utxo.UTXOSet :=
  foldl (fun s kc => Utxo.Add (Utxo.mkUTXO (p_Bytes kc.1) 0 (p_Bytes kc.1) (copy_arr 32 [x22]) (p_Bytes kc.2) (copy_arr 8 []) 1 false) s)
    Utxo.NewUTXOSet (zip ex_keys ex_commits).
Definition sx_verifier : TxVerifier := mkVerifier (Some sx_set) None None 0 5.

Lemma sx_hash (sigs : list (option CLSAGSignature)) (proofs : list (option RangeProof)) : Hash (sx_tx sigs proofs) = Hash (sx_tx [] []).
Proof. reflexivity. Qed.

Lemma sx_opens (o : Z * BlindFactor) : is_u64 o.1 -> is_ok (Pedersen.Commit o.1 o.2) = true -> opens (sx_commit o) o.
Proof. intros Hu Hc. split; [done|]. unfold sx_commit. by destruct (Pedersen.Commit o.1 o.2). Qed.

Lemma sx_input : exists sig, length (S_ sig) = RingSize /\ forall proofs,
  wallet_input (sx_tx [Some sig] proofs) 0 sx_inp (500, s_Bytes (ex_scalar 60 : scalar)).
Proof.
  destruct (clsag_accepts (ringSignMessage (Hash (sx_tx [] [])) (wrap32 0)) ex_keys ex_commits 3 (ex_scalar 1003) (ex_scalar 53) (ex_scalar 60) 500 (ex_tape 16))
    as (sig & t' & pseudo & C & E & V & I).
  - done.
  - done.
  - apply (bool_decide_unpack _). vm_compute. exact I.
  - lia.
  - u64lia.
  - exact ex_clsag_keys.
  - exact ex_clsag_commits.
  - change (zv (N := ell) (ex_scalar 1003) <> 0). vm_compute. discriminate.
  - apply (bool_decide_unpack _). vm_compute. exact I.
  - apply (bool_decide_unpack _). vm_compute. exact I.
  - vm_compute. lia.
  - assert (Hp : pseudo = sx_commit (500, s_Bytes (ex_scalar 60 : scalar))) by (unfold sx_commit; cbn [fst snd]; by rewrite C).
    exists sig. split; [unfold RingSig.CLSAGVerify in V; apply reject_ok in V as [V _]; by zbool|].
    intros proofs. constructor; [|split; [cbn [fst]; u64lia|by rewrite Hp in C]].
    exists ex_keys, ex_commits, 3, (ex_scalar 1003), (ex_scalar 53), (ex_scalar 60), (ex_tape 16), sig, t'.
    split; [reflexivity|]. split; [reflexivity|]. split; [reflexivity|]. split; [reflexivity|].
    split; [apply (bool_decide_unpack _); vm_compute; exact Logic.I|]. split; [lia|].
    split; [exact ex_clsag_keys|]. split; [exact ex_clsag_commits|].
    split; [change (zv (N := ell) (ex_scalar 1003) <> 0); vm_compute; discriminate|].
    split; [apply (bool_decide_unpack _); vm_compute; exact Logic.I|].
    split; [apply (bool_decide_unpack _); vm_compute; exact Logic.I|].
    split; [vm_compute; lia|]. split; [reflexivity|].
    split; [rewrite I; cbn [in_KeyImage sx_inp]; unfold sx_image; by rewrite I|].
    split; [rewrite sx_hash; rewrite Hp in E; exact E|reflexivity].
Qed.

Lemma sx_output (v b : Z) : is_u64 v -> is_ok (Pedersen.Commit v (s_Bytes (ex_scalar b : scalar))) = true ->
  exists pf, forall sigs proofs i, proofs !! i = Some (Some pf) ->
    wallet_output (sx_tx sigs proofs) i (sx_out (v, s_Bytes (ex_scalar b : scalar))) (v, s_Bytes (ex_scalar b : scalar)).
Proof.
  intros Hu Hc. destruct (ProveRange_result v (ex_scalar b) (ex_tape 8) Hu) as (pf & x & E). destruct (taus _) as [[tau1 tau2] t'].
  destruct E as (E & _). exists pf. intros sigs proofs i Hi. constructor; [|by apply sx_opens].
  exists (ex_scalar b), (ex_tape 8), pf, t'. split; [done|]. split; [exact E|]. split; [apply toy_inverted|exact Hi].
Qed.

Lemma sx_made : exists sig pf1 pf2, length (S_ sig) = RingSize /\
  wallet_spend (sx_tx [Some sig] [Some pf1; Some pf2]) sx_ins sx_outs.
Proof.
  destruct sx_input as (sig & Hl & Hs).
  destruct (sx_output 300 35) as [pf1 H1]; [u64lia|vm_compute; reflexivity|].
  destruct (sx_output 100 25) as [pf2 H2]; [u64lia|vm_compute; reflexivity|].
  exists sig, pf1, pf2. split; [exact Hl|]. constructor; [reflexivity|reflexivity|done|done|..].
  - intros [|i] inp o Hi Ho; [|done]. injection Hi as <-. injection Ho as <-. apply Hs.
  - intros [|[|i]] out o Hi Ho; [..|done]; injection Hi as <-; injection Ho as <-; [by apply H1|by apply H2].
  - apply sx_opens; [vm_compute; split; [discriminate|reflexivity]|vm_compute; reflexivity].
  - split; vm_compute; reflexivity.
Qed.

Lemma honest_spend_accepted_witness : exists sig pf1 pf2,
  verify_spend sx_verifier (sx_tx [Some sig] [Some pf1; Some pf2]) ∅ 9 = Ok ().
Proof.
  destruct sx_made as (sig & pf1 & pf2 & _ & Hm). exists sig, pf1, pf2.
  rewrite (honest_spend_accepted sx_verifier _ ∅ 9 _ _ Hm). vm_compute. reflexivity.
Defined.

Lemma sx_valid (sig : CLSAGSignature) (pf1 pf2 : RangeProof) : length (S_ sig) = RingSize ->
  Validate (H0 := toy_json) (sx_tx [Some sig] [Some pf1; Some pf2]) = Ok ().
Proof.
  destruct sig as [c1 l ki d]. cbn [S_]. intros Hl.
  do 16 (destruct l as [|? l]; [discriminate|]). destruct l; [|discriminate]. vm_compute. reflexivity.
Qed.

Lemma sx_verified : exists sig pf1 pf2,
  verifyTx (H0 := toy_json) sx_verifier (sx_tx [Some sig] [Some pf1; Some pf2]) ∅ 9 = Ok ().
Proof.
  destruct sx_made as (sig & pf1 & pf2 & Hl & Hm). exists sig, pf1, pf2.
  unfold verifyTx. rewrite (sx_valid sig pf1 pf2 Hl). cbn [mbind result_bind].
  change (verify_spend sx_verifier (sx_tx [Some sig] [Some pf1; Some pf2]) ∅ 9 = Ok ()).
  rewrite (wallet_spend_checks sx_verifier _ ∅ 9 _ _ Hm). vm_compute. reflexivity.
Qed.

Lemma accepted_spend_balances_witness :
  500 = 300 + 100 + 100 \/ ~ 500 - 400 - 100 ≡l 0 /\
  zsmul (blinds sx_ins - blinds sx_outs) base_point ⊕ zsmul (500 - 400 - 100) hGenerator = identity.
Proof.
  destruct sx_verified as (sig & pf1 & pf2 & Hv).
  apply (accepted_spend_balances (js := toy_json) sx_verifier _ ∅ 9 sx_ins sx_outs Hv).
  - discriminate.
  - reflexivity.
  - vm_compute. split; [discriminate|reflexivity].
  - constructor; [|constructor]. apply sx_opens; [vm_compute; split; [discriminate|reflexivity]|vm_compute; reflexivity].
  - repeat constructor; (apply sx_opens; [vm_compute; split; [discriminate|reflexivity]|vm_compute; reflexivity]).
  - vm_compute. reflexivity.
  - vm_compute. reflexivity.
Defined.

(** The key image of [sx_inp] with a point of order eight added. *)
Definition sx_twisted : KeyImage :=
  match SetBytes (arr_list sx_image) with Some p => p_Bytes (of_Z (8 * ell) (zv p + ell) : point) | None => zero_arr 32 end.
Definition sx_tx2 : Transaction :=
  mkTx TxVersionCLSAG [mkInput sx_twisted RingSig.ex_ring (zero_arr 32) (p_Bytes <$> ex_commits) (PseudoOut sx_inp) x00]
    (sx_out <$> sx_outs) 100 (zero_arr 32) [] [] [] [] None.
Definition sx_later : TxVerifier := mkVerifier (Some (Utxo.MarkSpent sx_image sx_set)) None None 0 5.

Lemma torsion_double_spend_rejected_witness :
  sx_twisted <> sx_image /\ verifyTx (H0 := toy_json) sx_later sx_tx2 ∅ 12 <> Ok ().
Proof.
  split; [apply (bool_decide_unpack _); vm_compute; exact I|].
  destruct sx_verified as (sig & pf1 & pf2 & Hv).
  destruct (SetBytes (arr_list sx_image)) as [p|] eqn:Ep; [|by vm_compute in Ep].
  destruct (SetBytes (arr_list sx_twisted)) as [p'|] eqn:Ep'; [|by vm_compute in Ep'].
  apply (torsion_double_spend_rejected (js := toy_json) sx_verifier sx_later _ sx_tx2 ∅ ∅ 9 12 sx_inp (mkInput sx_twisted RingSig.ex_ring (zero_arr 32) (p_Bytes <$> ex_commits) (PseudoOut sx_inp) x00) (Utxo.MarkSpent sx_image sx_set) p p' Hv).
  - reflexivity.
  - left.
  - reflexivity.
  - vm_compute. reflexivity.
  - reflexivity.
  - left.
  - exact Ep.
  - exact Ep'.
  - assert (Hb : match SetBytes (arr_list sx_image), SetBytes (arr_list sx_twisted) with
      | Some p, Some p' => bool_decide (MultByCofactor p = MultByCofactor p') | _, _ => false end = true) by (vm_compute; reflexivity).
    rewrite Ep, Ep' in Hb. by apply bool_decide_eq_true in Hb.
Defined.

End CryptoImpl.
