(* ===== verification/Mempool.v ===== *)
(** The pool of pending transactions: [core/mempool.go].

    The pool keeps its entries with four indexes: the key images they lock, one
    pending stake transaction per validator, one pending contract call per signer, and
    the total of their sizes.  What the configuration reaches outside the pool (the
    chain height, the verifier with its UTXO set, the contract and staking preflights)
    may change between calls and is the argument [env] of an operation; [now] is
    [time.Now].  Go iterates a map in any order: [iter] is the order of the entries,
    [ord] the result of [sort.Slice].

    An operation that can change the pool and still fail returns the pool with the
    result. *)

From stdpp Require Import base gmap list strings sorting.
From S2P Require Import Prelude Bytes Undo Crypto Avm StakePayload Transaction Utxo TxVerifier.
Import Undo Transaction TxVerifier.

Module Mempool.

(** ** Data *)

Record MempoolConfig := mkConfig {
  MaxSize : Z; MaxBytes : Z; MaxTxSize : Z; TTL : Z; BaseFeePerByte : Z;
  RingCTV4ActivationHeight : Z; RingCTCLSAGActivationHeight : Z; AVMActivationHeight : Z
}.

(** Durations are nanoseconds. *)
Definition DefaultMempoolConfig : MempoolConfig :=
  mkConfig 10000 (256 * 1024 * 1024) 100000 (2 * 3600 * 1000000000) InitialBaseFeePerByte 0 0 0.

Record mempoolEntry := mkPoolEntry {
  e_Tx : Transaction; e_Hash : Hash32; e_Size : Z; Received : Z; privileged : bool
}.

Definition bannedTxTTL : Z := 24 * 3600 * 1000000000.

Record Mempool := mkPool {
  cfg : MempoolConfig;
  entries : gmap Hash32 mempoolEntry;
  totalBytes : Z;
  poolKeyImages : gmap KeyImage Hash32;
  stakeSenders : gmap string Hash32;
  avmSigners : gmap (arr 32) Hash32;
  evictionsTotal : Z;
  bannedHashes : gmap Hash32 Z
}.

Definition NewMempool (c : MempoolConfig) : Mempool := mkPool c ∅ 0 ∅ ∅ ∅ 0 ∅.

(** What [cfg] reaches outside the pool. *)
Record Env := mkEnv {
  CurrentHeight : option Z;
  Verifier : option TxVerifier;
  AVMNonceLookup : option (arr 32 -> result Z);
  AVMAdmissionCheck : option (Avm.AVMPayload -> result ());
  StakeAdmissionCheck : option (Transaction -> Z -> result ())
}.

Definition with_cfg (c : MempoolConfig) (m : Mempool) : Mempool :=
  mkPool c (entries m) (totalBytes m) (poolKeyImages m) (stakeSenders m) (avmSigners m) (evictionsTotal m) (bannedHashes m).
Definition with_evictions (n : Z) (m : Mempool) : Mempool :=
  mkPool (cfg m) (entries m) (totalBytes m) (poolKeyImages m) (stakeSenders m) (avmSigners m) n (bannedHashes m).
Definition with_banned (b : gmap Hash32 Z) (m : Mempool) : Mempool :=
  mkPool (cfg m) (entries m) (totalBytes m) (poolKeyImages m) (stakeSenders m) (avmSigners m) (evictionsTotal m) b.
Definition with_entries (es : gmap Hash32 mempoolEntry) (m : Mempool) : Mempool :=
  mkPool (cfg m) es (totalBytes m) (poolKeyImages m) (stakeSenders m) (avmSigners m) (evictionsTotal m) (bannedHashes m).

Definition SetBaseFee (baseFeePerByte : Z) (m : Mempool) : Mempool :=
  let c := cfg m in
  let fee := if baseFeePerByte <? MinBaseFeePerByte then MinBaseFeePerByte else baseFeePerByte in
  with_cfg (mkConfig (MaxSize c) (MaxBytes c) (MaxTxSize c) (TTL c) fee (RingCTV4ActivationHeight c)
    (RingCTCLSAGActivationHeight c) (AVMActivationHeight c)) m.

(** [height + 1], saturating. *)
Definition next_height (h : Z) : Z := if h <? MaxUint64 then h +w 1 else h.

(** ** Removal *)

Definition stakeExtraPubKey (extra : list byte) : result ValidatorPubKey :=
  reject negb (len_is extra StakePayload.StakePayloadSize) &&
         negb (len_is extra StakePayload.StakeWithdrawalPayloadSizeV2) &&
         negb (len_is extra StakePayload.StakePayloadSizeV2) && negb (len_is extra StakePayload.StakePayloadSizeV3)
    with "stake extra: wrong length" ;;
  Ok (slice extra 1 33).

(** The key under which a stake transaction is indexed. *)
Definition stake_key (tx : Transaction) : option string :=
  if IsStake tx then match stakeExtraPubKey (Extra tx) with Ok pub => Some (pub_hex pub) | Err _ => None end
  else None.

Definition avm_key (tx : Transaction) : option (arr 32) :=
  if IsAVM tx then Avm.Signer <$> AVM tx else None.

(** Delete [k] when the map still points to [h]; a missing key reads as the zero hash. *)
Definition release `{Countable K} (ok : option K) (h : Hash32) (m : gmap K Hash32) : gmap K Hash32 :=
  match ok with
  | Some k => if bool_decide (default zeroHash (m !! k) = h) then delete k m else m
  | None => m
  end.

Definition removeStakeSenderLocked (e : mempoolEntry) := release (stake_key (e_Tx e)) (e_Hash e).
Definition removeAVMSignerLocked (e : mempoolEntry) := release (avm_key (e_Tx e)) (e_Hash e).

(** What every removal does to the entry [e] stored under [hash]. *)
Definition drop_entry (hash : Hash32) (e : mempoolEntry) (m : Mempool) : Mempool :=
  mkPool (cfg m) (delete hash (entries m)) (Z.max 0 (totalBytes m - e_Size e))
    (del_all (KeyImages (e_Tx e)) (poolKeyImages m))
    (removeStakeSenderLocked e (stakeSenders m)) (removeAVMSignerLocked e (avmSigners m))
    (evictionsTotal m) (bannedHashes m).

Definition evict_entry (hash : Hash32) (e : mempoolEntry) (m : Mempool) : Mempool :=
  with_evictions (evictionsTotal m +w 1) (drop_entry hash e m).

Definition Remove (hash : Hash32) (m : Mempool) : Mempool :=
  match entries m !! hash with Some e => drop_entry hash e m | None => m end.

Definition BanTx (now : Z) (hash : Hash32) (m : Mempool) : Mempool :=
  let m1 := match entries m !! hash with Some e => evict_entry hash e m | None => m end in
  with_banned (<[hash := now]> (bannedHashes m1)) m1.

Definition IsBanned (m : Mempool) (hash : Hash32) : bool := bool_decide (is_Some (bannedHashes m !! hash)).

(** ** Eviction *)

(** Transactions that pay no fee rate. *)
Definition system_tx (tx : Transaction) : bool := IsCoinbase tx || IsStake tx || IsLPoDPosition tx.

Definition fee_rate (e : mempoolEntry) : Z := Fee (e_Tx e) / (if e_Size e =? 0 then 1 else e_Size e).

Definition cheaper (best : option mempoolEntry) (e : mempoolEntry) : option mempoolEntry :=
  if system_tx (e_Tx e) then best
  else match best with
       | None => Some e
       | Some b => if fee_rate e <? fee_rate b then Some e else best
       end.

Definition older (best : option mempoolEntry) (e : mempoolEntry) : option mempoolEntry :=
  match best with
  | None => Some e
  | Some b => if Received e <? Received b then Some e else best
  end.

Section Pool.
Context `{Crypto} `{Json} `{RingCrypto}.
Context (iter : gmap Hash32 mempoolEntry -> list mempoolEntry).
Context (ord : list mempoolEntry -> list mempoolEntry).

Definition RemoveBlock (b : Block) (m : Mempool) : Mempool := foldl (fun m tx => Remove (Hash tx) m) m (Txs b).

(** [None] is the result [false]: the pool is empty. *)
Definition evictOldest (m : Mempool) : option Mempool :=
  e ← foldl older None (iter (entries m));
  Some (evict_entry (e_Hash e) e m).

Definition evictLowestFeeRate (m : Mempool) : option Mempool :=
  match foldl cheaper None (iter (entries m)) with
  | Some e => Some (evict_entry (e_Hash e) e m)
  | None => evictOldest m
  end.

Definition over_capacity (size : Z) (m : Mempool) : bool :=
  (MaxSize (cfg m) <=? Z.of_nat (base.size (entries m))) ||
  ((0 <? MaxBytes (cfg m)) && (MaxBytes (cfg m) <? totalBytes m + size)).

(** The loop that evicts until the new transaction fits; the flag is [false] when it
    gave up on an empty pool.  Every round removes an entry, so their number bounds
    the iterations. *)
Fixpoint make_room (fuel : nat) (size : Z) (m : Mempool) : Mempool * bool :=
  if over_capacity size m then
    match fuel, evictLowestFeeRate m with
    | S fuel', Some m' => make_room fuel' size m'
    | _, _ => (m, false)
    end
  else (m, true).

(** One entry of the loop over the pool; the second component counts removals. *)
Definition expired_entry (now : Z) (mn : Mempool * nat) (e : mempoolEntry) : Mempool * nat :=
  if TTL (cfg (fst mn)) <? now - Received e then (evict_entry (e_Hash e) e (fst mn), S (snd mn)) else mn.

Definition Evict (now : Z) (m : Mempool) : Mempool * nat :=
  let mn := foldl (expired_entry now) (m, 0%nat) (iter (entries m)) in
  (with_banned (filter (fun hb => ~ bannedTxTTL < now - snd hb) (bannedHashes (fst mn))) (fst mn), snd mn).

(** ** Admission *)

Definition nextBlockHeight (env : Env) : Z :=
  match CurrentHeight env with Some h => next_height h | None => 0 end.

Definition NextSpendVersion (env : Env) (m : Mempool) : TxVersion :=
  match CurrentHeight env with
  | None => TxVersionCommitmentBinding
  | Some h =>
      let nextHeight := next_height h in
      if (0 <? RingCTCLSAGActivationHeight (cfg m)) && (RingCTCLSAGActivationHeight (cfg m) <=? nextHeight)
      then TxVersionCLSAG
      else if (0 <? RingCTV4ActivationHeight (cfg m)) && (nextHeight <? RingCTV4ActivationHeight (cfg m))
      then TxVersionBase
      else TxVersionCommitmentBinding
  end.

Definition validateAVMNonce (env : Env) (tx : Transaction) : result () :=
  match AVMNonceLookup env with
  | Some lookup =>
      if IsAVM tx then
        need p from AVM tx else "panic: nil pointer" ;;
        expected ← lookup (Avm.Signer p);
        reject negb (Avm.Nonce p =? expected) with "mempool: AVM nonce" ;;
        match AVMAdmissionCheck env with Some check => check p | None => Ok () end
      else Ok ()
  | None => Ok ()
  end.

(** The least fee a transaction that pays fees must offer. *)
Definition min_fee (m : Mempool) (tx : Transaction) : result Z :=
  let minFee := MinFeeAt tx (BaseFeePerByte (cfg m)) in
  if IsAVM tx then
    need p from AVM tx else "panic: nil pointer" ;;
    match Avm.AVMGasFee (Avm.GasLimit p) with
    | Err _ => Err "mempool: AVM gas fee overflows"
    | Ok gasFee => reject MaxUint64 -w gasFee <? minFee with "mempool: AVM gas fee overflows" ;; Ok (minFee +w gasFee)
    end
  else Ok minFee.

Definition check_pool_fee (m : Mempool) (tx : Transaction) : result () :=
  if IsStake tx || IsLPoDPosition tx then Ok ()
  else
    minFee ← min_fee m tx;
    reject match BurnAmount (Some tx) with
           | Some burn => (MaxUint64 -w burn <? minFee) || (Fee tx <? minFee +w burn)
           | None => false
           end
      with "mempool: intentional burn fee too low" ;;
    reject Fee tx <? minFee with "mempool: fee too low" ;;
    Ok ().

(** The checks of [Add] before the lock is taken. *)
Definition add_checks (env : Env) (m : Mempool) (tx : Transaction) : result () :=
  reject IsGuardianFund tx || IsLPoD tx || IsLPoDPayout tx
    with "mempool: guardian fund transaction is consensus-synthesized only" ;;
  reject IsCoinbase tx && negb (IsStake tx)
    with "mempool: coinbase (zero-input) transactions are not accepted from external sources" ;;
  _ ← (if bool_decide (is_Some (CurrentHeight env)) then
         ValidateTxVersionAtHeight (Some tx) (nextBlockHeight env) (RingCTV4ActivationHeight (cfg m))
           [RingCTCLSAGActivationHeight (cfg m); AVMActivationHeight (cfg m)]
       else Ok ());
  _ ← Validate tx;
  _ ← match Verifier env with Some v => VerifyTxAtHeight v tx (nextBlockHeight env) | None => Ok () end;
  reject MaxTxSize (cfg m) <? Size tx with "mempool: tx too large" ;;
  _ ← check_pool_fee m tx;
  validateAVMNonce env tx.

(** The staking preflight: it may release a pending stake transaction that has become
    stale.  The result is [stakeSenderKey], empty for other transactions. *)
Definition stake_admission (env : Env) (tx : Transaction) (m : Mempool) : Mempool * result string :=
  if negb (IsStake tx) then (m, Ok EmptyString)
  else match stakeExtraPubKey (Extra tx) with
  | Err e => (m, Err e)
  | Ok stakePub =>
      let key := pub_hex stakePub in
      match StakeAdmissionCheck env with
      | None =>
          if bool_decide (is_Some (CurrentHeight env)) then (m, Err "mempool: canonical stake admission unavailable")
          else (m, Ok key)
      | Some check =>
          let height := nextBlockHeight env in
          match check tx height with
          | Err e => (m, Err e)
          | Ok _ =>
              let m' := match stakeSenders m !! key with
                        | Some pendingHash =>
                            match entries m !! pendingHash with
                            | Some pending => if is_ok (check (e_Tx pending) height) then m else Remove pendingHash m
                            | None => m
                            end
                        | None => m
                        end in
              (m', Ok key)
          end
      end
  end.

(** The conflicts [Add] looks for under the lock. *)
Definition add_conflicts (tx : Transaction) (m : Mempool) (key : string) : result () :=
  reject bool_decide (is_Some (entries m !! Hash tx)) with "mempool: duplicate tx" ;;
  reject IsBanned m (Hash tx) with "mempool: tx is banned" ;;
  reject IsStake tx && bool_decide (is_Some (stakeSenders m !! key)) with "mempool: stake tx already pending" ;;
  reject match avm_key tx with Some signer => bool_decide (is_Some (avmSigners m !! signer)) | None => false end
    with "mempool: AVM transaction already pending" ;;
  reject existsb (fun ki => bool_decide (is_Some (poolKeyImages m !! ki))) (KeyImages tx)
    with "mempool: double-spend attempt" ;;
  Ok ().

Definition insert_entry (now : Z) (priv : bool) (tx : Transaction) (kis : list KeyImage) (key : string)
    (signer : option (arr 32)) (m : Mempool) : Mempool :=
  let h := Hash tx in
  mkPool (cfg m) (<[h := mkPoolEntry tx h (Size tx) now priv]> (entries m)) (totalBytes m + Size tx)
    (put_all ((fun ki => (ki, h)) <$> kis) (poolKeyImages m))
    (if bool_decide (key = EmptyString) then stakeSenders m else <[key := h]> (stakeSenders m))
    (match signer with Some s => <[s := h]> (avmSigners m) | None => avmSigners m end)
    (evictionsTotal m) (bannedHashes m).

(** [Add] skips a zero signer. *)
Definition nonzero_signer (tx : Transaction) : option (arr 32) :=
  match avm_key tx with Some s => if bool_decide (s = zero_arr 32) then None else Some s | None => None end.

Definition Add (env : Env) (now : Z) (tx : Transaction) (m : Mempool) : Mempool * result () :=
  match add_checks env m tx with
  | Err e => (m, Err e)
  | Ok _ =>
      match stake_admission env tx m with
      | (m1, Err e) => (m1, Err e)
      | (m1, Ok key) =>
          match add_conflicts tx m1 key with
          | Err e => (m1, Err e)
          | Ok _ =>
              match make_room (base.size (entries m1)) (Size tx) m1 with
              | (m2, false) => (m2, Err "mempool: pool is at capacity and no transactions could be evicted to make room")
              | (m2, true) => (insert_entry now false tx (KeyImages tx) key (nonzero_signer tx) m2, Ok ())
              end
          end
      end
  end.

(** [AddPrivileged] looks neither at bans nor at key images, and locks none. *)
Definition privileged_checks (env : Env) (m : Mempool) (tx : Transaction) : result () :=
  reject IsGuardianFund tx || IsLPoD tx || IsLPoDPayout tx
    with "mempool: guardian fund transaction is never admitted" ;;
  _ ← Validate tx;
  _ ← validateAVMNonce env tx;
  _ ← match Verifier env with
      | Some v => if IsCoinbase tx then Ok () else VerifyTxAtHeight v tx (nextBlockHeight env)
      | None => Ok ()
      end;
  reject MaxTxSize (cfg m) <? Size tx with "mempool: tx too large" ;;
  reject bool_decide (is_Some (entries m !! Hash tx)) with "mempool: duplicate tx" ;;
  reject match avm_key tx with Some signer => bool_decide (is_Some (avmSigners m !! signer)) | None => false end
    with "mempool: AVM transaction already pending" ;;
  Ok ().

Definition AddPrivileged (env : Env) (now : Z) (tx : Transaction) (m : Mempool) : Mempool * result () :=
  match privileged_checks env m tx with
  | Err e => (m, Err e)
  | Ok _ =>
      match make_room (base.size (entries m)) (Size tx) m with
      | (m2, false) => (m2, Err "mempool: pool is at capacity and no transactions could be evicted to make room")
      | (m2, true) => (insert_entry now true tx [] EmptyString (avm_key tx) m2, Ok ())
      end
  end.

(** ** Queries *)

Definition Get (m : Mempool) (hash : Hash32) : option Transaction := e_Tx <$> entries m !! hash.
Definition IsPrivileged (m : Mempool) (hash : Hash32) : bool :=
  match entries m !! hash with Some e => privileged e | None => false end.
Definition Count (m : Mempool) : nat := base.size (entries m).
Definition Hashes (m : Mempool) : list Hash32 := e_Hash <$> iter (entries m).

Definition SelectTxs (n : nat) (m : Mempool) : list Transaction := e_Tx <$> take n (ord (iter (entries m))).

(** ** The dump *)

Record mempoolDumpEntry := mkDump { d_Tx : Transaction; d_Received : Z }.

(** The entries [Save] writes. *)
Definition Save (now : Z) (m : Mempool) : list mempoolDumpEntry :=
  omap (fun e => if privileged e then None
                 else if (0 <? TTL (cfg m)) && (TTL (cfg m) <=? now - Received e) then None
                 else Some (mkDump (e_Tx e) (Received e))) (iter (entries m)).

Definition set_received (r : Z) (e : mempoolEntry) : mempoolEntry :=
  mkPoolEntry (e_Tx e) (e_Hash e) (e_Size e) r (privileged e).

(** One entry of the file; the count is that of the restored transactions. *)
Definition load_entry (env : Env) (now : Z) (mn : Mempool * nat) (d : mempoolDumpEntry) : Mempool * nat :=
  let '(m, n) := mn in
  if (0 <? TTL (cfg m)) && (TTL (cfg m) <=? now - d_Received d) then (m, n)
  else match Add env now (d_Tx d) m with
       | (m1, Err _) => (m1, n)
       | (m1, Ok _) => (with_entries (alter (set_received (d_Received d)) (Hash (d_Tx d)) (entries m1)) m1, S n)
       end.

Definition Load (env : Env) (now : Z) (dump : list mempoolDumpEntry) (m : Mempool) : Mempool * nat :=
  foldl (load_entry env now) (m, 0%nat) dump.

End Pool.

End Mempool.
