(* ===== verification/MempoolInvariant.v ===== *)
(** The pool of pending transactions, verified: the invariant of its indexes over every
    sequence of operations, the selection for a block, the outcome of an admission, and
    the termination of the eviction loop. *)

From stdpp Require Import base gmap list strings sorting.
From S2P Require Import Prelude Bytes Undo Crypto Avm StakePayload Transaction Utxo TxVerifier Mempool.
Import Undo Transaction TxVerifier Mempool.

Module MempoolInvariant.

(** ** The invariant of the pool *)

(** Go's map iteration visits every entry once. *)
Definition iterates (iter : gmap Hash32 mempoolEntry -> list mempoolEntry) : Prop :=
  forall m, iter m ≡ₚ (map_to_list m).*2.

(** [sort.Slice] by decreasing fee rate. *)
Definition higher_rate (a b : mempoolEntry) : Prop := fee_rate b <= fee_rate a.
Definition sorts (ord : list mempoolEntry -> list mempoolEntry) : Prop :=
  forall l, ord l ≡ₚ l /\ StronglySorted higher_rate (ord l).

(** [m] indexes exactly the keys [key] gives to the entries. *)
Definition indexed `{Countable K} (keys : Transaction -> list K) (es : gmap Hash32 mempoolEntry) (m : gmap K Hash32) : Prop :=
  forall k h, m !! k = Some h <-> exists e, es !! h = Some e /\ k ∈ keys (e_Tx e).

Definition total_size (es : gmap Hash32 mempoolEntry) : Z := sumZ (fun he => e_Size (snd he)) (map_to_list es).

Record wf `{Crypto} (m : Mempool) : Prop := {
  wf_entry : forall h e, entries m !! h = Some e ->
    e_Hash e = h /\ Hash (e_Tx e) = h /\ e_Size e = Size (e_Tx e) /\ (privileged e = true -> Inputs (e_Tx e) = []);
  wf_bytes : totalBytes m = total_size (entries m);
  wf_count : Z.of_nat (size (entries m)) <= Z.max 0 (MaxSize (cfg m));
  wf_cap : 0 < MaxBytes (cfg m) -> totalBytes m <= MaxBytes (cfg m);
  wf_ki : indexed KeyImages (entries m) (poolKeyImages m);
  wf_stake : indexed (fun tx => option_list (stake_key tx)) (entries m) (stakeSenders m);
  wf_avm : indexed (fun tx => option_list (avm_key tx)) (entries m) (avmSigners m)
}.

Section Index.
Context `{Countable K}.
Implicit Types (es : gmap Hash32 mempoolEntry) (m : gmap K Hash32).

Lemma indexed_empty (keys : Transaction -> list K) : indexed keys ∅ ∅.
Proof. intros k h. split; [done|]. by intros (e & He & _). Qed.

(** Two entries share no key. *)
Lemma indexed_disjoint (keys : Transaction -> list K) es m h1 h2 e1 e2 k :
  indexed keys es m -> es !! h1 = Some e1 -> es !! h2 = Some e2 -> k ∈ keys (e_Tx e1) -> k ∈ keys (e_Tx e2) -> h1 = h2.
Proof.
  intros Hi H1 H2 K1 K2. assert (m !! k = Some h1) by (apply Hi; eauto). assert (m !! k = Some h2) by (apply Hi; eauto). congruence.
Qed.

(** Removing an entry and its keys. *)
Lemma indexed_delete (keys : Transaction -> list K) es m h e :
  indexed keys es m -> es !! h = Some e -> indexed keys (delete h es) (del_all (keys (e_Tx e)) m).
Proof.
  intros Hi He k h'. destruct (decide (k ∈ keys (e_Tx e))) as [Hk|Hk].
  - rewrite del_all_in by done. split; [done|]. intros (e' & He' & Hk'). apply lookup_delete_Some in He' as [Hne He'].
    exfalso. apply Hne. by apply (indexed_disjoint keys es m h h' e e' k).
  - rewrite del_all_lookup by done. rewrite (Hi k h'). split.
    + intros (e' & He' & Hk'). exists e'. split; [|done]. apply lookup_delete_Some. split; [|done]. intros ->. congruence.
    + intros (e' & He' & Hk'). apply lookup_delete_Some in He' as [_ He']. eauto.
Qed.

(** Adding an entry whose keys are free. *)
Lemma indexed_insert (keys : Transaction -> list K) es m h e :
  indexed keys es m -> es !! h = None -> (forall k, k ∈ keys (e_Tx e) -> m !! k = None) ->
  indexed keys (<[h := e]> es) (put_all ((fun k => (k, h)) <$> keys (e_Tx e)) m).
Proof.
  intros Hi Hh Hfree k h'. destruct (decide (k ∈ keys (e_Tx e))) as [Hk|Hk].
  - assert (put_all ((fun k => (k, h)) <$> keys (e_Tx e)) m !! k = Some h) as ->.
    { clear -Hk. revert m. induction (keys (e_Tx e)) as [|k' l IH]; intros m; [by apply elem_of_nil in Hk|].
      rewrite fmap_cons. change (put_all (?x :: ?l) m) with (put_all l (<[fst x := snd x]> m)). simpl.
      destruct (decide (k ∈ l)) as [Hl|Hl]; [by apply IH|]. assert (k = k') as -> by set_solver.
      rewrite put_all_ne; [by rewrite lookup_insert_eq|]. rewrite <- list_fmap_compose. simpl. by rewrite list_fmap_id. }
    split.
    + intros [= <-]. exists e. by rewrite lookup_insert_eq.
    + intros (e' & He' & Hk'). apply lookup_insert_Some in He' as [[-> _]|[_ He']]; [done|].
      assert (m !! k = Some h') by (apply Hi; eauto). rewrite Hfree in * by done. done.
  - rewrite put_all_ne by (rewrite <- list_fmap_compose; simpl; by rewrite list_fmap_id). rewrite (Hi k h'). split.
    + intros (e' & He' & Hk'). exists e'. split; [|done]. rewrite lookup_insert_ne; [done|]. intros ->. congruence.
    + intros (e' & He' & Hk'). apply lookup_insert_Some in He' as [[-> <-]|[_ He']]; [done|eauto].
Qed.

(** Changing the metadata of an entry. *)
Lemma indexed_alter (keys : Transaction -> list K) es m h f :
  (forall e, e_Tx (f e) = e_Tx e) -> indexed keys es m -> indexed keys (alter f h es) m.
Proof.
  intros Hf Hi k h'. rewrite (Hi k h'). split; intros (e & He & Hk).
  - destruct (decide (h = h')) as [->|].
    + exists (f e). rewrite lookup_alter_eq, He. by rewrite Hf.
    + exists e. by rewrite lookup_alter_ne.
  - destruct (decide (h = h')) as [->|].
    + rewrite lookup_alter_eq in He. apply fmap_Some in He as (e0 & He0 & ->). rewrite Hf in Hk. eauto.
    + rewrite lookup_alter_ne in He by done. eauto.
Qed.

(** [release] deletes the keys of an indexed entry. *)
Lemma release_indexed (key : Transaction -> option K) es m h e :
  indexed (fun tx => option_list (key tx)) es m -> es !! h = Some e ->
  release (key (e_Tx e)) h m = del_all (option_list (key (e_Tx e))) m.
Proof.
  intros Hi He. unfold release. destruct (key (e_Tx e)) as [k|] eqn:Ek; [|done].
  assert (m !! k = Some h) as Hk. { apply Hi. exists e. split; [done|]. rewrite Ek. left. }
  by rewrite Hk, bool_decide_eq_true_2.
Qed.

End Index.

Lemma total_size_insert es h e : es !! h = None -> total_size (<[h := e]> es) = e_Size e + total_size es.
Proof. intros Hh. unfold total_size. rewrite (sumZ_Permutation _ _ _ (map_to_list_insert es h e Hh)). done. Qed.

Lemma total_size_delete es h e : es !! h = Some e -> total_size es = e_Size e + total_size (delete h es).
Proof. intros Hh. rewrite <- (total_size_insert (delete h es) h e) by apply lookup_delete_eq. by rewrite insert_delete_id. Qed.

Section Invariant.
Context `{Crypto} `{Json} `{RingCrypto}.

Lemma total_size_nonneg (m : Mempool) : wf m -> 0 <= total_size (entries m).
Proof.
  intros Hw. apply sumZ_nonneg. intros [h e] He. apply elem_of_map_to_list in He.
  destruct (wf_entry _ Hw _ _ He) as (_ & _ & Es & _). assert (Hp := Size_pos (e_Tx e)). simpl. lia.
Qed.

Lemma wf_new (c : MempoolConfig) : wf (NewMempool c).
Proof.
  constructor; simpl; [done|reflexivity|rewrite map_size_empty; lia|lia|apply indexed_empty..].
Qed.

Lemma wf_drop (h : Hash32) (e : mempoolEntry) (m : Mempool) : wf m -> entries m !! h = Some e -> wf (drop_entry h e m).
Proof.
  intros Hw He. assert (Hts := total_size_delete _ _ _ He). assert (Hen := wf_entry _ Hw _ _ He).
  destruct Hen as (Eh & _ & Es & _). assert (Hp := Size_pos (e_Tx e)).
  assert (Hz : 0 <= total_size (delete h (entries m))).
  { apply sumZ_nonneg. intros [h' e'] He'. apply elem_of_map_to_list, lookup_delete_Some in He' as [_ He'].
    destruct (wf_entry _ Hw _ _ He') as (_ & _ & Es' & _). assert (Hp' := Size_pos (e_Tx e')). simpl. lia. }
  assert (Hb := wf_bytes _ Hw). constructor; simpl.
  - intros h' e' He'. apply lookup_delete_Some in He' as [_ He']. by apply (wf_entry _ Hw).
  - lia.
  - rewrite map_size_delete, He. assert (Hc := wf_count _ Hw). simpl. lia.
  - intros Hm. assert (Hc := wf_cap _ Hw Hm). lia.
  - apply indexed_delete; [apply Hw|done].
  - unfold removeStakeSenderLocked. rewrite Eh. erewrite release_indexed; [|by apply Hw|done].
    apply (indexed_delete (fun tx => option_list (stake_key tx))); [apply Hw|done].
  - unfold removeAVMSignerLocked. rewrite Eh. erewrite release_indexed; [|by apply Hw|done].
    apply (indexed_delete (fun tx => option_list (avm_key tx))); [apply Hw|done].
Qed.

Lemma wf_with_evictions n m : wf m -> wf (with_evictions n m).
Proof. by intros [? ? ? ? ? ? ?]. Qed.
Lemma wf_with_banned b m : wf m -> wf (with_banned b m).
Proof. by intros [? ? ? ? ? ? ?]. Qed.

Lemma wf_evict h e m : wf m -> entries m !! h = Some e -> wf (evict_entry h e m).
Proof. intros. by apply wf_with_evictions, wf_drop. Qed.

Lemma wf_Remove h m : wf m -> wf (Remove h m).
Proof. intros Hw. unfold Remove. destruct (entries m !! h) eqn:E; [by apply wf_drop|done]. Qed.

Lemma wf_RemoveBlock b m : wf m -> wf (RemoveBlock b m).
Proof.
  unfold RemoveBlock. revert m. induction (Txs b) as [|tx l IH]; intros m Hw; [done|]. simpl. by apply IH, wf_Remove.
Qed.

Lemma wf_BanTx now h m : wf m -> wf (BanTx now h m).
Proof.
  intros Hw. unfold BanTx. apply wf_with_banned. destruct (entries m !! h) eqn:E; [by apply wf_evict|done].
Qed.

Lemma wf_SetBaseFee fee m : wf m -> wf (SetBaseFee fee m).
Proof. by intros [? ? ? ? ? ? ?]. Qed.

End Invariant.

(** ** Eviction *)

Section Evictions.
Context `{Crypto} `{Json} `{RingCrypto}.
Context (iter : gmap Hash32 mempoolEntry -> list mempoolEntry) (Hiter : iterates iter).

Lemma elem_of_iter (es : gmap Hash32 mempoolEntry) (e : mempoolEntry) : e ∈ iter es <-> exists h, es !! h = Some e.
Proof.
  rewrite (Hiter es), list_elem_of_fmap. split.
  - intros ([h e'] & -> & Hin). exists h. by apply elem_of_map_to_list.
  - intros (h & Hh). exists (h, e). split; [done|]. by apply elem_of_map_to_list.
Qed.

Lemma wf_iter (m : Mempool) (e : mempoolEntry) : wf m -> e ∈ iter (entries m) -> entries m !! e_Hash e = Some e.
Proof. intros Hw Hin. apply elem_of_iter in Hin as (h & Hh). destruct (wf_entry _ Hw _ _ Hh) as (-> & _). done. Qed.

(** The loop of [evictLowestFeeRate] finds a cheapest regular entry. *)
Lemma cheapest_spec (l : list mempoolEntry) : forall best,
  (forall b, best = Some b -> system_tx (e_Tx b) = false) ->
  match foldl cheaper best l with
  | Some e => (best = Some e \/ e ∈ l) /\ system_tx (e_Tx e) = false /\
      (forall b, best = Some b -> fee_rate e <= fee_rate b) /\
      (forall x, x ∈ l -> system_tx (e_Tx x) = false -> fee_rate e <= fee_rate x)
  | None => best = None /\ forall x, x ∈ l -> system_tx (e_Tx x) = true
  end.
Proof.
  induction l as [|x l IH]; intros best Hb; cbn [foldl].
  - destruct best as [b|]; [split_and!; auto; [by intros b' [= <-]|]|split; [done|]];
      intros y Hy; by apply not_elem_of_nil in Hy.
  - assert (Hb' : forall b, cheaper best x = Some b -> system_tx (e_Tx b) = false).
    { unfold cheaper. destruct (system_tx (e_Tx x)) eqn:Ex; [done|].
      destruct best as [b|]; [destruct (_ <? _)|]; intros b' [= <-]; auto. }
    specialize (IH (cheaper best x) Hb'). destruct (foldl cheaper (cheaper best x) l) as [e|].
    + destruct IH as (Hin & Hs & Hle & Hall). unfold cheaper in *. destruct (system_tx (e_Tx x)) eqn:Ex.
      * split_and!; auto.
        -- destruct Hin as [->|Hin]; [by left|right; by right].
        -- intros y Hy Hy'. apply elem_of_cons in Hy as [->|Hy]; [congruence|auto].
      * destruct best as [b|]; [destruct (Z.ltb_spec (fee_rate x) (fee_rate b)) as [Hlt|Hge]|].
        -- assert (Hex := Hle _ eq_refl). split_and!; auto.
           ++ destruct Hin as [[= <-]|Hin]; [right; left|right; by right].
           ++ intros b' [= <-]. lia.
           ++ intros y Hy Hy'. apply elem_of_cons in Hy as [->|Hy]; auto.
        -- assert (Hex := Hle _ eq_refl). split_and!; auto.
           ++ destruct Hin as [Hin|Hin]; [by left|right; by right].
           ++ intros y Hy Hy'. apply elem_of_cons in Hy as [->|Hy]; [lia|auto].
        -- assert (Hex := Hle _ eq_refl). split_and!; auto.
           ++ destruct Hin as [[= <-]|Hin]; [right; left|right; by right].
           ++ done.
           ++ intros y Hy Hy'. apply elem_of_cons in Hy as [->|Hy]; auto.
    + destruct IH as [Hn Hall]. unfold cheaper in Hn. destruct (system_tx (e_Tx x)) eqn:Ex.
      * split; [done|]. intros y Hy. apply elem_of_cons in Hy as [->|Hy]; auto.
      * destruct best as [b|]; [destruct (_ <? _)|]; done.
Qed.

Lemma oldest_spec (l : list mempoolEntry) : forall best,
  match foldl older best l with
  | Some e => best = Some e \/ e ∈ l
  | None => best = None /\ l = []
  end.
Proof.
  induction l as [|x l IH]; intros best; cbn [foldl]; [destruct best; auto|].
  specialize (IH (older best x)). destruct (foldl older (older best x) l) as [e|].
  - destruct IH as [Hb|Hin]; [|right; by right]. unfold older in Hb. destruct best as [b|].
    + destruct (_ <? _); injection Hb as <-; [right; left|by left].
    + injection Hb as <-. right. left.
  - destruct IH as [Hb _]. unfold older in Hb. destruct best as [b|]; [destruct (_ <? _)|]; done.
Qed.

(** The entry an eviction removes. *)
Definition evicts (m : Mempool) (e : mempoolEntry) : Prop :=
  entries m !! e_Hash e = Some e /\
  (forall h x, entries m !! h = Some x -> system_tx (e_Tx x) = false ->
     system_tx (e_Tx e) = false /\ fee_rate e <= fee_rate x).

Lemma evict_lowest_ok (m m' : Mempool) :
  wf m -> evictLowestFeeRate iter m = Some m' -> exists e, evicts m e /\ m' = evict_entry (e_Hash e) e m.
Proof.
  intros Hw He. unfold evictLowestFeeRate in He. assert (Hc := cheapest_spec (iter (entries m)) None ltac:(done)).
  destruct (foldl cheaper None (iter (entries m))) as [e|].
  - injection He as <-. destruct Hc as ([?|Hin] & Hs & _ & Hall); [done|]. exists e. split; [|done]. split; [by apply wf_iter|].
    intros h x Hx Hr. split; [done|]. apply Hall; [|done]. apply elem_of_iter. eauto.
  - destruct Hc as [_ Hall]. unfold evictOldest in He. assert (Ho := oldest_spec (iter (entries m)) None).
    destruct (foldl older None (iter (entries m))) as [e|]; [|done]. injection He as <-.
    destruct Ho as [?|Hin]; [done|]. exists e. split; [|done]. split; [by apply wf_iter|].
    intros h x Hx Hr. exfalso. assert (Hs : system_tx (e_Tx x) = true) by (apply Hall, elem_of_iter; eauto). congruence.
Qed.

Lemma evict_lowest_none (m : Mempool) : evictLowestFeeRate iter m = None -> entries m = ∅.
Proof.
  intros He. unfold evictLowestFeeRate in He. destruct (foldl cheaper None (iter (entries m))); [done|].
  unfold evictOldest in He. assert (Ho := oldest_spec (iter (entries m)) None).
  destruct (foldl older None (iter (entries m))) as [e|]; [done|]. destruct Ho as [_ Ho].
  apply map_empty. intros h. destruct (entries m !! h) as [e|] eqn:E; [|done].
  assert (e ∈ iter (entries m)) as Hin by (apply elem_of_iter; eauto). rewrite Ho in Hin. by apply not_elem_of_nil in Hin.
Qed.

(** The pool shrinks, but for the counters of evictions. *)
Record shrinks (m m' : Mempool) : Prop := {
  sk_cfg : cfg m' = cfg m;
  sk_entries : entries m' ⊆ entries m;
  sk_banned : bannedHashes m' = bannedHashes m
}.

Lemma shrinks_refl m : shrinks m m.
Proof. by constructor. Qed.
Lemma shrinks_trans m1 m2 m3 : shrinks m1 m2 -> shrinks m2 m3 -> shrinks m1 m3.
Proof. intros [C1 E1 B1] [C2 E2 B2]. constructor; [congruence|by transitivity (entries m2)|congruence]. Qed.
Lemma shrinks_evict h e m : shrinks m (evict_entry h e m).
Proof. constructor; [done| |done]. simpl. apply delete_subseteq. Qed.
Lemma shrinks_Remove h m : shrinks m (Remove h m).
Proof. unfold Remove. destruct (entries m !! h); [|apply shrinks_refl]. constructor; [done|apply delete_subseteq|done]. Qed.

(** The loop stops within its bound: it makes room or empties the pool. *)
Lemma make_room_ok (fuel : nat) (sz : Z) : forall m m' fits,
  wf m -> (size (entries m) <= fuel)%nat -> make_room iter fuel sz m = (m', fits) ->
  wf m' /\ shrinks m m' /\ over_capacity sz m' = negb fits /\ (fits = false -> entries m' = ∅).
Proof.
  induction fuel as [|fuel IH]; intros m m' fits Hw Hf Hm; cbn [make_room] in Hm;
    destruct (over_capacity sz m) eqn:Eo;
    try (injection Hm as <- <-; split_and!; [done|apply shrinks_refl|done|done]).
  - injection Hm as <- <-. split_and!; [done|apply shrinks_refl|done|]. intros _.
    apply map_size_empty_inv. lia.
  - destruct (evictLowestFeeRate iter m) as [m1|] eqn:Ee.
    + apply evict_lowest_ok in Ee as (e & [He _] & ->); [|done]. assert (Hs := wf_evict _ _ _ Hw He).
      apply IH in Hm as (? & Hsk & ? & ?); [|done|].
      * split_and!; try done. eapply shrinks_trans; [apply shrinks_evict|done].
      * simpl. rewrite map_size_delete, He. simpl. assert (size (entries m) <> 0)%nat by (intros Hz; apply map_size_empty_inv in Hz; rewrite Hz in He; done). lia.
    + injection Hm as <- <-. split_and!; [done|apply shrinks_refl|done|]. intros _. by apply evict_lowest_none.
Qed.

Lemma make_room_fits (fuel : nat) (sz : Z) (m : Mempool) : over_capacity sz m = false -> make_room iter fuel sz m = (m, true).
Proof. intros Ho. destruct fuel; cbn [make_room]; by rewrite Ho. Qed.

Lemma make_room_fuel (fuel : nat) (sz : Z) : forall m,
  wf m -> (size (entries m) <= fuel)%nat -> make_room iter fuel sz m = make_room iter (size (entries m)) sz m.
Proof.
  induction fuel as [|fuel IH]; intros m Hw Hf; [by replace (size (entries m)) with 0%nat by lia|].
  destruct (over_capacity sz m) eqn:Eo; [|by rewrite !make_room_fits]. cbn [make_room]. rewrite Eo.
  destruct (evictLowestFeeRate iter m) as [m1|] eqn:Ee.
  - apply evict_lowest_ok in Ee as He; [|done]. destruct He as (e & [He _] & ->).
    assert (Hsz : size (entries m) = S (size (entries (evict_entry (e_Hash e) e m)))).
    { simpl. rewrite map_size_delete, He. simpl. assert (size (entries m) <> 0)%nat; [|lia].
      intros Hz. apply map_size_empty_inv in Hz. by rewrite Hz in He. }
    rewrite Hsz. cbn [make_room]. rewrite Eo, Ee. apply IH; [by apply wf_evict|lia].
  - apply evict_lowest_none in Ee as Hemp. rewrite Hemp, map_size_empty. cbn [make_room]. by rewrite Eo.
Qed.

Lemma indexed_shrink `{Countable K} (keys : Transaction -> list K) es es' (m m' : gmap K Hash32) k :
  indexed keys es m -> indexed keys es' m' -> es' ⊆ es -> m !! k = None -> m' !! k = None.
Proof.
  intros Hi Hi' Hsub Hk. destruct (m' !! k) as [h|] eqn:E; [|done]. apply Hi' in E as (e & He & Hke).
  assert (m !! k = Some h) by (apply Hi; exists e; split; [by eapply lookup_weaken|done]). congruence.
Qed.

End Evictions.

(** ** Admission *)

Section Admission.
Context `{Crypto} `{Json} `{RingCrypto}.
Context (iter : gmap Hash32 mempoolEntry -> list mempoolEntry) (Hiter : iterates iter).

(** A validated contract call has a signer. *)
Lemma validated_signer (tx : Transaction) : Validate tx = Ok () -> nonzero_signer tx = avm_key tx.
Proof.
  intros Hv. unfold nonzero_signer, avm_key. destruct (IsAVM tx) eqn:Ea; [|done].
  assert (Hver : Version tx = TxVersionAVM) by (unfold IsAVM, is_version in Ea; by zbool).
  unfold Validate, IsLPoD, IsSale, IsLPoDPosition, IsLPoDPayout, is_version in Hv. rewrite Hver in Hv.
  apply reject_ok in Hv as [_ Hv]. apply reject_ok in Hv as [_ Hv]. cbn in Hv.
  apply bind_ok in Hv as ([] & Hv & _). unfold validate_avm in Hv. rewrite Ea in Hv.
  apply reject_ok in Hv as [_ Hv]. apply bind_ok in Hv as ([] & Hv & _). unfold Avm.Validate in Hv.
  destruct (AVM tx) as [p|]; [|done]. apply bind_ok in Hv as ([] & _ & Hv).
  do 3 (apply reject_ok in Hv as [_ Hv]). apply reject_ok in Hv as [Hs _]. simpl. zbool. by rewrite bool_decide_eq_false_2.
Qed.

Lemma hex_nonempty (l : list byte) : l <> [] -> pub_hex l <> EmptyString.
Proof. by destruct l. Qed.

Lemma stake_admission_ok (env : Env) (tx : Transaction) (m m1 : Mempool) (r : result string) :
  wf m -> stake_admission env tx m = (m1, r) ->
  wf m1 /\ shrinks m m1 /\ (forall key, r = Ok key -> stake_key tx = if bool_decide (key = EmptyString) then None else Some key).
Proof.
  intros Hw Hs. unfold stake_admission in Hs. unfold stake_key.
  destruct (IsStake tx) eqn:Est; cbn [negb] in Hs.
  2: { injection Hs as <- <-. split_and!; [done|apply shrinks_refl|]. intros key [= <-]. done. }
  destruct (stakeExtraPubKey (Extra tx)) as [pub|e] eqn:Ep.
  2: { injection Hs as <- <-. split_and!; [done|apply shrinks_refl|done]. }
  assert (Hne : pub_hex pub <> EmptyString).
  { apply hex_nonempty. intros ->. unfold stakeExtraPubKey in Ep. apply reject_ok in Ep as [Hlen Hsl]. apply Ok_inj in Hsl.
    assert (Hl : length (slice (Extra tx) 1 33) = 0%nat) by by rewrite Hsl.
    assert (33 <= length (Extra tx))%nat; [|rewrite slice_length in Hl; lia].
    unfold len_is in Hlen. repeat (apply andb_false_iff in Hlen as [Hlen|Hlen]); zbool; rewrite Hlen;
      unfold StakePayload.StakePayloadSize, StakePayload.StakeWithdrawalPayloadSizeV2, StakePayload.StakePayloadSizeV2,
        StakePayload.StakePayloadSizeV3; lia. }
  assert (Hkey : forall key : string, Ok (pub_hex pub) = Ok key ->
    Some (pub_hex pub) = if bool_decide (key = EmptyString) then None else Some key).
  { intros key [= <-]. by rewrite bool_decide_eq_false_2. }
  destruct (StakeAdmissionCheck env) as [check|].
  - destruct (check tx (nextBlockHeight env)); injection Hs as <- <-; [|split_and!; [done|apply shrinks_refl|done]].
    destruct (stakeSenders m !! pub_hex pub) as [ph|]; [|split_and!; [done|apply shrinks_refl|done]].
    destruct (entries m !! ph) as [pe|]; [|split_and!; [done|apply shrinks_refl|done]].
    destruct (is_ok _); [split_and!; [done|apply shrinks_refl|done]|].
    split_and!; [by apply wf_Remove|apply shrinks_Remove|done].
  - case_bool_decide; injection Hs as <- <-; split_and!; [done|apply shrinks_refl|done|done|apply shrinks_refl|done].
Qed.

Lemma wf_insert (now : Z) (priv : bool) (tx : Transaction) (key : string) (m : Mempool) :
  wf m -> (priv = true -> Inputs tx = []) -> entries m !! Hash tx = None ->
  (stake_key tx = if bool_decide (key = EmptyString) then None else Some key) ->
  (forall ki, ki ∈ KeyImages tx -> poolKeyImages m !! ki = None) ->
  (forall k, stake_key tx = Some k -> stakeSenders m !! k = None) ->
  (forall s, avm_key tx = Some s -> avmSigners m !! s = None) -> over_capacity (Size tx) m = false ->
  wf (insert_entry now priv tx (KeyImages tx) key (avm_key tx) m).
Proof.
  intros Hw Hpriv Hnew Hkey Hki Hst Havm Hroom. set (e := mkPoolEntry tx (Hash tx) (Size tx) now priv).
  unfold over_capacity in Hroom. apply orb_false_iff in Hroom as [Hcount Hbytes]. zbool.
  constructor; cbn [insert_entry entries totalBytes cfg poolKeyImages stakeSenders avmSigners].
  - intros h' e' He'. apply lookup_insert_Some in He' as [[<- <-]|[_ He']]; [done|by apply (wf_entry _ Hw)].
  - rewrite total_size_insert by done. simpl. rewrite (wf_bytes _ Hw). lia.
  - rewrite map_size_insert_None by done. lia.
  - intros Hm. rewrite (proj2 (Z.ltb_lt _ _)) in Hbytes by done. simpl in Hbytes. zbool. lia.
  - apply (indexed_insert KeyImages _ _ (Hash tx) e); [apply Hw|done|done].
  - assert (Hi := indexed_insert (fun tx => option_list (stake_key tx)) _ _ (Hash tx) e (wf_stake _ Hw) Hnew).
    cbn [e_Tx e] in Hi. rewrite Hkey in Hi, Hst. case_bool_decide; simpl in Hi; apply Hi; intros k Hk.
    + by apply not_elem_of_nil in Hk.
    + apply list_elem_of_singleton in Hk as ->. by apply Hst.
  - assert (Hi := indexed_insert (fun tx => option_list (avm_key tx)) _ _ (Hash tx) e (wf_avm _ Hw) Hnew).
    cbn [e_Tx e] in Hi. destruct (avm_key tx) as [s|]; simpl in Hi; apply Hi; intros k Hk.
    + apply list_elem_of_singleton in Hk as ->. by apply Havm.
    + by apply not_elem_of_nil in Hk.
Qed.

(** What [Add] did when it accepted: the checks passed on the pool it was given, the
    conflicts were looked for in the pool [m1] after the staking preflight, and [m2] is
    the pool with room. *)
Lemma Add_accepted (env : Env) (now : Z) (tx : Transaction) (m m' : Mempool) :
  wf m -> Add iter env now tx m = (m', Ok ()) ->
  exists m1 m2 key, add_checks env m tx = Ok () /\ add_conflicts tx m1 key = Ok () /\
    shrinks m m1 /\ shrinks m1 m2 /\ wf m2 /\ over_capacity (Size tx) m2 = false /\
    (stake_key tx = if bool_decide (key = EmptyString) then None else Some key) /\ wf m1 /\
    m' = insert_entry now false tx (KeyImages tx) key (avm_key tx) m2.
Proof.
  intros Hw Ha. unfold Add in Ha. destruct (add_checks env m tx) as [[]|] eqn:Ec; [|done].
  destruct (stake_admission env tx m) as [m1 [key|]] eqn:Es; [|done].
  destruct (add_conflicts tx m1 key) as [[]|] eqn:Ek; [|done].
  destruct (make_room iter (size (entries m1)) (Size tx) m1) as [m2 [|]] eqn:Er; [|done].
  injection Ha as <-. apply stake_admission_ok in Es as (Hw1 & Hs1 & Hkey); [|done].
  apply (make_room_ok iter Hiter) in Er as (Hw2 & Hs2 & Ho & _); [|done..].
  exists m1, m2, key. split_and!; eauto. rewrite validated_signer; [done|].
  unfold add_checks in Ec. do 2 (apply reject_ok in Ec as [_ Ec]). apply bind_ok in Ec as (_ & _ & Ec).
  by apply bind_ok in Ec as ([] & Hv & _).
Qed.

Lemma conflicts_free (tx : Transaction) (m : Mempool) (key : string) :
  add_conflicts tx m key = Ok () -> (stake_key tx = if bool_decide (key = EmptyString) then None else Some key) ->
  entries m !! Hash tx = None /\ IsBanned m (Hash tx) = false /\
  (forall k, stake_key tx = Some k -> stakeSenders m !! k = None) /\
  (forall s, avm_key tx = Some s -> avmSigners m !! s = None) /\
  (forall ki, ki ∈ KeyImages tx -> poolKeyImages m !! ki = None).
Proof.
  intros Hc Hkey. unfold add_conflicts in Hc. apply reject_ok in Hc as [H1' Hc]. apply reject_ok in Hc as [H2 Hc].
  apply reject_ok in Hc as [H3 Hc]. apply reject_ok in Hc as [H4 Hc]. apply reject_ok in Hc as [H5 _]. zbool.
  split_and!.
  - by apply eq_None_not_Some.
  - done.
  - intros k Hk. assert (Hst : IsStake tx = true) by (unfold stake_key in Hk; by destruct (IsStake tx)).
    rewrite Hst in H3. simpl in H3. zbool. rewrite Hk in Hkey. case_bool_decide; [done|]. injection Hkey as <-.
    by apply eq_None_not_Some.
  - intros s Hs. rewrite Hs in H4. zbool. by apply eq_None_not_Some.
  - intros ki Hki. apply eq_None_not_Some. intros Hin.
    assert (existsb (fun ki => bool_decide (is_Some (poolKeyImages m !! ki))) (KeyImages tx) = true); [|congruence].
    apply existsb_exists. exists ki. split; [by apply list_elem_of_In|]. by apply bool_decide_eq_true_2.
Qed.

Lemma wf_Add (env : Env) (now : Z) (tx : Transaction) (m m' : Mempool) (r : result ()) :
  wf m -> Add iter env now tx m = (m', r) -> wf m'.
Proof.
  intros Hw Ha. destruct r as [[]|e].
  - apply Add_accepted in Ha as (m1 & m2 & key & _ & Hc & _ & Hs2 & Hw2 & Ho & Hkey & Hw1 & ->); [|done].
    destruct (conflicts_free tx m1 key Hc Hkey) as (Hh & _ & Hst & Hav & Hki). apply wf_insert; try done.
    + destruct (entries m2 !! Hash tx) as [x|] eqn:E; [|done]. assert (Hx := lookup_weaken _ _ _ _ E (sk_entries _ _ Hs2)). congruence.
    + intros ki Hin. eapply (indexed_shrink KeyImages); [apply Hw1|apply Hw2|apply Hs2|by apply Hki].
    + intros k Hk. eapply (indexed_shrink (fun tx => option_list (stake_key tx))); [apply Hw1|apply Hw2|apply Hs2|by apply Hst].
    + intros s Hk. eapply (indexed_shrink (fun tx => option_list (avm_key tx))); [apply Hw1|apply Hw2|apply Hs2|by apply Hav].
  - unfold Add in Ha. destruct (add_checks env m tx) as [[]|]; [|by injection Ha as <-].
    destruct (stake_admission env tx m) as [m1 [key|]] eqn:Es; apply stake_admission_ok in Es as (Hw1 & _); try done;
      [|by injection Ha as <-]. destruct (add_conflicts tx m1 key); [|by injection Ha as <-].
    destruct (make_room iter (size (entries m1)) (Size tx) m1) as [m2 [|]] eqn:Er; [done|].
    injection Ha as <-. by apply (make_room_ok iter Hiter) in Er as (Hw2 & _).
Qed.

Lemma Add_rejected (env : Env) (now : Z) (tx : Transaction) (m m' : Mempool) (e : string) :
  wf m -> Add iter env now tx m = (m', Err e) -> shrinks m m'.
Proof.
  intros Hw Ha. unfold Add in Ha. destruct (add_checks env m tx) as [[]|]; [|injection Ha as <-; apply shrinks_refl].
  destruct (stake_admission env tx m) as [m1 [key|]] eqn:Es; apply stake_admission_ok in Es as (Hw1 & Hs & _); try done;
    [|by injection Ha as <-]. destruct (add_conflicts tx m1 key); [|by injection Ha as <-].
  destruct (make_room iter (size (entries m1)) (Size tx) m1) as [m2 [|]] eqn:Er; [done|].
  injection Ha as <-. apply (make_room_ok iter Hiter) in Er as (_ & Hs2 & _); [|done..]. by eapply shrinks_trans.
Qed.

Lemma wf_mint (env : Env) (now : Z) (tx : Transaction) (m m' : Mempool) (r : result ()) :
  wf m -> Inputs tx = [] -> IsStake tx = false -> AddPrivileged iter env now tx m = (m', r) -> wf m'.
Proof.
  intros Hw Hin Hst Ha. unfold AddPrivileged in Ha. destruct (privileged_checks env m tx) as [[]|] eqn:Ec; [|by injection Ha as <-].
  destruct (make_room iter (size (entries m)) (Size tx) m) as [m2 fits] eqn:Er.
  apply (make_room_ok iter Hiter) in Er as (Hw2 & Hs2 & Ho & _); [|done..]. destruct fits; injection Ha as <- <-; [|done].
  unfold privileged_checks in Ec. apply reject_ok in Ec as [_ Ec]. apply bind_ok in Ec as (_ & _ & Ec).
  apply bind_ok in Ec as (_ & _ & Ec). apply bind_ok in Ec as (_ & _ & Ec). apply reject_ok in Ec as [_ Ec].
  apply reject_ok in Ec as [Hdup Ec]. apply reject_ok in Ec as [Havm _]. zbool.
  assert (Hk : KeyImages tx = []) by (unfold KeyImages; by rewrite Hin). rewrite <- Hk at 1.
  assert (Hsk : stake_key tx = None) by (unfold stake_key; by rewrite Hst).
  apply wf_insert; try done.
  - destruct (entries m2 !! Hash tx) as [x|] eqn:E; [|done].
    exfalso. apply Hdup. exists x. by apply (lookup_weaken _ _ _ _ E (sk_entries _ _ Hs2)).
  - rewrite Hk. intros ki Hki. by apply not_elem_of_nil in Hki.
  - rewrite Hsk. done.
  - intros s Hs. rewrite Hs in Havm. zbool.
    eapply (indexed_shrink (fun tx => option_list (avm_key tx))); [apply Hw|apply Hw2|apply Hs2|]. by apply eq_None_not_Some.
Qed.

Lemma NoDup_iter (m : Mempool) : wf m -> NoDup (e_Hash <$> iter (entries m)).
Proof.
  intros Hw. rewrite (Hiter (entries m)). rewrite <- list_fmap_compose.
  assert (Heq : (e_Hash ∘ snd) <$> map_to_list (entries m) = fst <$> map_to_list (entries m)).
  { apply list_fmap_ext. intros i [h e] Hi. apply list_elem_of_lookup_2, elem_of_map_to_list in Hi.
    simpl. by destruct (wf_entry _ Hw _ _ Hi) as (-> & _). }
  rewrite Heq. apply NoDup_fst_map_to_list.
Qed.

Lemma expire_ok (now : Z) (l : list mempoolEntry) : forall mn,
  wf (fst mn) -> NoDup (e_Hash <$> l) -> (forall e, e ∈ l -> entries (fst mn) !! e_Hash e = Some e) ->
  wf (fst (foldl (expired_entry now) mn l)) /\ shrinks (fst mn) (fst (foldl (expired_entry now) mn l)).
Proof.
  induction l as [|e l IH]; intros [m n] Hw Hnd Hin; [split; [done|apply shrinks_refl]|]. cbn [foldl fst] in *.
  rewrite fmap_cons, list.NoDup_cons in Hnd. destruct Hnd as [Hn Hnd].
  unfold expired_entry at 2 4. cbn [fst snd]. destruct (_ <? _).
  - destruct (IH (evict_entry (e_Hash e) e m, S n)) as [Hw' Hs]; cbn [fst].
    + apply wf_evict; [done|]. apply Hin. left.
    + done.
    + intros x Hx. simpl. rewrite lookup_delete_ne; [apply Hin; by right|].
      intros Heq. apply Hn. rewrite Heq. by apply list_elem_of_fmap_2.
    + split; [done|]. eapply shrinks_trans; [apply shrinks_evict|done].
  - apply IH; [done|done|]. intros x Hx. apply Hin. by right.
Qed.

Lemma wf_Evict (now : Z) (m : Mempool) : wf m -> wf (fst (Evict iter now m)).
Proof.
  intros Hw. unfold Evict. apply wf_with_banned. apply expire_ok; [done|by apply NoDup_iter|].
  intros e He. by apply (wf_iter iter Hiter).
Qed.

Lemma wf_received (r : Z) (h : Hash32) (m : Mempool) : wf m -> wf (with_entries (alter (set_received r) h (entries m)) m).
Proof.
  intros Hw. assert (Hts : total_size (alter (set_received r) h (entries m)) = total_size (entries m)).
  { destruct (entries m !! h) as [e|] eqn:E.
    - rewrite (total_size_delete (entries m) h e E).
      rewrite (total_size_delete (alter (set_received r) h (entries m)) h (set_received r e)).
      + by rewrite delete_alter_eq.
      + by rewrite lookup_alter_eq, E.
    - f_equal. apply map_eq. intros i. destruct (decide (h = i)) as [->|]; [by rewrite lookup_alter_eq, E|by rewrite lookup_alter_ne]. }
  constructor; simpl.
  - intros h' e He. destruct (decide (h = h')) as [->|].
    + rewrite lookup_alter_eq in He. apply fmap_Some in He as (e0 & He0 & ->). exact (wf_entry _ Hw _ _ He0).
    + rewrite lookup_alter_ne in He by done. by apply (wf_entry _ Hw).
  - rewrite Hts. apply Hw.
  - rewrite <- (size_dom (D := gset Hash32)), dom_alter_L, size_dom. apply Hw.
  - apply Hw.
  - apply indexed_alter; [done|apply Hw].
  - apply indexed_alter; [done|apply Hw].
  - apply indexed_alter; [done|apply Hw].
Qed.

Lemma wf_Load (env : Env) (now : Z) (dump : list mempoolDumpEntry) : forall mn,
  wf (fst mn) -> wf (fst (foldl (load_entry iter env now) mn dump)).
Proof.
  induction dump as [|d dump IH]; intros [m n] Hw; [done|]. cbn [foldl]. apply IH. unfold load_entry.
  destruct (_ && _); [done|]. destruct (Add iter env now (d_Tx d) m) as [m1 [r|e]] eqn:Ea; cbn [fst].
  - apply wf_received. by eapply wf_Add.
  - by eapply wf_Add.
Qed.

End Admission.

(** ** Pools the node can reach *)

(** Any sequence of operations, with any verifier, height and preflights in each of
    them; a privileged addition is the admin mint, a coinbase. *)
Inductive reachable `{Crypto} `{Json} `{RingCrypto} (iter : gmap Hash32 mempoolEntry -> list mempoolEntry)
    : Mempool -> Prop :=
| reach_new c : reachable iter (NewMempool c)
| reach_add env now tx m : reachable iter m -> reachable iter (fst (Add iter env now tx m))
| reach_mint env now tx m : reachable iter m -> Inputs tx = [] -> IsStake tx = false ->
    reachable iter (fst (AddPrivileged iter env now tx m))
| reach_remove h m : reachable iter m -> reachable iter (Remove h m)
| reach_block b m : reachable iter m -> reachable iter (RemoveBlock b m)
| reach_ban now h m : reachable iter m -> reachable iter (BanTx now h m)
| reach_evict now m : reachable iter m -> reachable iter (fst (Evict iter now m))
| reach_fee fee m : reachable iter m -> reachable iter (SetBaseFee fee m)
| reach_load env now dump m : reachable iter m -> reachable iter (fst (Load iter env now dump m)).

Section Reachable.
Context `{Crypto} `{Json} `{RingCrypto}.
Context (iter : gmap Hash32 mempoolEntry -> list mempoolEntry) (ord : list mempoolEntry -> list mempoolEntry).

Lemma reachable_pool_wf (m : Mempool) : iterates iter -> reachable iter m -> wf m.
Proof.
  intros Hiter. induction 1.
  - apply wf_new.
  - destruct (Add iter env now tx m) eqn:E. simpl. by eapply wf_Add.
  - destruct (AddPrivileged iter env now tx m) eqn:E. simpl. by eapply wf_mint.
  - by apply wf_Remove.
  - by apply wf_RemoveBlock.
  - by apply wf_BanTx.
  - by apply wf_Evict.
  - by apply wf_SetBaseFee.
  - by apply wf_Load.
Qed.

Lemma Get_entry (m : Mempool) (h : Hash32) (tx : Transaction) :
  Get m h = Some tx <-> exists e, entries m !! h = Some e /\ e_Tx e = tx.
Proof. unfold Get. rewrite fmap_Some. naive_solver. Qed.

(** C17: in every pool the node can reach, the count and the bytes stay within the
    limits and the bytes are those of the pending transactions; a key image is locked
    exactly by the pending transaction that spends it, so no two of them spend the same
    one; and a validator has at most one pending stake transaction, a signer at most
    one pending contract call. *)
Theorem pool_reachable_sound (m : Mempool) :
  iterates iter -> reachable iter m ->
  Z.of_nat (Count m) <= Z.max 0 (MaxSize (cfg m)) /\
  (0 < MaxBytes (cfg m) -> totalBytes m <= MaxBytes (cfg m)) /\
  totalBytes m = sumZ (fun e => Size (e_Tx e)) (iter (entries m)) /\
  (forall h tx, Get m h = Some tx -> Hash tx = h) /\
  (forall ki h, poolKeyImages m !! ki = Some h <-> exists tx, Get m h = Some tx /\ ki ∈ KeyImages tx) /\
  (forall h1 h2 t1 t2, Get m h1 = Some t1 -> Get m h2 = Some t2 ->
     (exists ki, ki ∈ KeyImages t1 /\ ki ∈ KeyImages t2) \/ (exists k, stake_key t1 = Some k /\ stake_key t2 = Some k) \/
     (exists s, avm_key t1 = Some s /\ avm_key t2 = Some s) -> h1 = h2).
Proof.
  intros Hiter Hr. assert (Hw := reachable_pool_wf m Hiter Hr). split_and!.
  - apply Hw.
  - apply Hw.
  - rewrite (sumZ_Permutation _ _ _ (Hiter (entries m))), (wf_bytes _ Hw). unfold total_size.
    rewrite sumZ_fmap. apply sumZ_ext. intros [h e] He. apply elem_of_map_to_list in He.
    simpl. by destruct (wf_entry _ Hw _ _ He) as (_ & _ & -> & _).
  - intros h tx Hg. apply Get_entry in Hg as (e & He & <-). by apply (wf_entry _ Hw).
  - intros ki h. rewrite (wf_ki _ Hw ki h). setoid_rewrite Get_entry. naive_solver.
  - intros h1 h2 t1 t2 G1 G2 Hshare. apply Get_entry in G1 as (e1 & E1 & <-). apply Get_entry in G2 as (e2 & E2 & <-).
    destruct Hshare as [(ki & K1 & K2)|[(k & K1 & K2)|(s & K1 & K2)]].
    + by apply (indexed_disjoint KeyImages _ _ h1 h2 e1 e2 ki (wf_ki _ Hw)).
    + apply (indexed_disjoint _ _ _ h1 h2 e1 e2 k (wf_stake _ Hw)); [done|done|rewrite K1; left|rewrite K2; left].
    + apply (indexed_disjoint _ _ _ h1 h2 e1 e2 s (wf_avm _ Hw)); [done|done|rewrite K1; left|rewrite K2; left].
Qed.

(** The transactions selected for a block are the [n] best by fee rate, in that
    order, whatever order the map and the sort give to ties, and no two of them spend
    the same key image. *)
Theorem select_best (n : nat) (m : Mempool) :
  iterates iter -> sorts ord -> reachable iter m ->
  exists sel rest, SelectTxs iter ord n m = e_Tx <$> sel /\ sel ++ rest ≡ₚ (map_to_list (entries m)).*2 /\
    length sel = Nat.min n (Count m) /\ StronglySorted higher_rate sel /\
    (forall a b, a ∈ sel -> b ∈ rest -> fee_rate b <= fee_rate a) /\
    (forall i j a b ki, sel !! i = Some a -> sel !! j = Some b -> ki ∈ KeyImages (e_Tx a) -> ki ∈ KeyImages (e_Tx b) -> i = j).
Proof.
  intros Hiter Hord Hr. assert (Hw := reachable_pool_wf m Hiter Hr).
  destruct (Hord (iter (entries m))) as [Hperm Hsorted]. set (l := ord (iter (entries m))) in *.
  assert (Hl : l ≡ₚ (map_to_list (entries m)).*2) by by rewrite Hperm, (Hiter (entries m)).
  exists (take n l), (drop n l). rewrite (take_drop n l). split_and!; [done|done| | | |].
  - rewrite length_take. f_equal. apply Permutation_length in Hl. rewrite Hl, length_fmap, length_map_to_list. done.
  - rewrite <- (take_drop n l) in Hsorted. by apply StronglySorted_app_1_l in Hsorted.
  - intros a b Ha Hb. rewrite <- (take_drop n l) in Hsorted. exact (StronglySorted_app_1_elem_of _ _ _ _ _ Hsorted Ha Hb).
  - intros i j a b ki Hi Hj Ka Kb. apply lookup_take_Some in Hi as [Hi _]. apply lookup_take_Some in Hj as [Hj _].
    assert (Hh : forall k x, l !! k = Some x -> entries m !! e_Hash x = Some x).
    { intros k x Hk. apply (wf_iter iter Hiter); [done|]. rewrite <- Hperm. by eapply list_elem_of_lookup_2. }
    assert (e_Hash a = e_Hash b) as Heq.
    { eapply (indexed_disjoint KeyImages); [apply (wf_ki _ Hw)|by eapply Hh|by eapply Hh|done|done]. }
    assert (Hnd : NoDup (e_Hash <$> l)) by (rewrite Hperm; by apply NoDup_iter).
    eapply (NoDup_lookup (e_Hash <$> l)); [done|rewrite list_lookup_fmap, Hi; done|]. rewrite list_lookup_fmap, Hj. simpl. by rewrite Heq.
Qed.

(** A transaction is admitted only after every check, is then pending under its
    hash, and displaces nothing while the pool has room; a refused transaction never
    enters, and no operation of [Add] adds anything else. *)
Theorem add_outcome (env : Env) (now : Z) (tx : Transaction) (m m' : Mempool) (r : result ()) :
  iterates iter -> reachable iter m -> Add iter env now tx m = (m', r) ->
  match r with
  | Ok _ =>
      add_checks env m tx = Ok () /\ IsBanned m (Hash tx) = false /\ Get m' (Hash tx) = Some tx /\
      delete (Hash tx) (entries m') ⊆ entries m /\
      (stake_key tx = None -> over_capacity (Size tx) m = false -> delete (Hash tx) (entries m') = entries m)
  | Err _ => entries m' ⊆ entries m
  end.
Proof.
  intros Hiter Hr Ha. assert (Hw := reachable_pool_wf m Hiter Hr). destruct r as [[]|e].
  - assert (Ha' := Ha). apply (Add_accepted iter Hiter) in Ha as (m1 & m2 & key & Hc & Hcf & Hs1 & Hs2 & Hw2 & Ho & Hkey & Hw1 & ->); [|done].
    destruct (conflicts_free tx m1 key Hcf Hkey) as (Hh & Hban & _).
    assert (Hh2 : entries m2 !! Hash tx = None).
    { destruct (entries m2 !! Hash tx) as [x|] eqn:E; [|done].
      assert (Hx := lookup_weaken _ _ _ _ E (sk_entries _ _ Hs2)). congruence. }
    split_and!; [done| | | |].
    + unfold IsBanned in *. by rewrite (sk_banned _ _ Hs1) in Hban.
    + unfold Get. simpl. by rewrite lookup_insert_eq.
    + simpl. rewrite delete_insert_id by done. apply (shrinks_trans _ _ _ Hs1 Hs2).
    + intros Hsk Hroom. simpl. rewrite delete_insert_id by done. unfold Add in Ha'. rewrite Hc in Ha'.
      unfold stake_admission in Ha'. unfold stake_key in Hsk. destruct (IsStake tx); cbn [negb] in Ha'.
      { by destruct (stakeExtraPubKey (Extra tx)). }
      destruct (add_conflicts tx m EmptyString) eqn:Ecf; [|done]. rewrite make_room_fits in Ha' by done.
      unfold add_conflicts in Ecf. apply reject_ok in Ecf as [Hnew _]. zbool. rewrite <- eq_None_not_Some in Hnew.
      apply (f_equal (fun p => delete (Hash tx) (entries (fst p)))) in Ha'. simpl in Ha'.
      by rewrite !delete_insert_id in Ha'.
  - by apply (Add_rejected iter Hiter) in Ha as [_ ? _].
Qed.

(** C31: the loop that makes room ends: every round removes an entry, so a bound beyond
    the number of entries changes nothing, and it ends with room for the transaction or
    with an empty pool. *)
Theorem make_room_terminates (fuel : nat) (sz : Z) (m : Mempool) :
  iterates iter -> reachable iter m -> (size (entries m) <= fuel)%nat ->
  make_room iter fuel sz m = make_room iter (size (entries m)) sz m /\
  (over_capacity sz (fst (make_room iter fuel sz m)) = false \/ entries (fst (make_room iter fuel sz m)) = ∅).
Proof.
  intros Hiter Hr Hf. assert (Hw := reachable_pool_wf m Hiter Hr). split; [by apply make_room_fuel|].
  destruct (make_room iter fuel sz m) as [m' fits] eqn:E. apply (make_room_ok iter Hiter) in E as (_ & _ & Ho & He); [|done..].
  simpl. destruct fits; [by left|right; auto].
Qed.

(** The pool never locks up: a transaction that passes the checks and conflicts
    with nothing pending is admitted, however full the pool is, when it alone fits the
    limits. *)
Theorem add_progress (env : Env) (now : Z) (tx : Transaction) (m m1 : Mempool) (key : string) :
  iterates iter -> reachable iter m -> 0 < MaxSize (cfg m) -> (MaxBytes (cfg m) <= 0 \/ Size tx <= MaxBytes (cfg m)) ->
  add_checks env m tx = Ok () -> stake_admission env tx m = (m1, Ok key) -> add_conflicts tx m1 key = Ok () ->
  exists m', Add iter env now tx m = (m', Ok ()) /\ Get m' (Hash tx) = Some tx.
Proof.
  intros Hiter Hr Hmax Hbytes Hc Hst Hcf. assert (Hw := reachable_pool_wf m Hiter Hr). unfold Add. rewrite Hc, Hst, Hcf.
  destruct (stake_admission_ok env tx m m1 _ Hw Hst) as (Hw1 & Hs1 & _).
  destruct (make_room iter (size (entries m1)) (Size tx) m1) as [m2 fits] eqn:E.
  apply (make_room_ok iter Hiter) in E as (Hw2 & Hs2 & Ho & He); [|done..]. destruct fits.
  - eexists. split; [done|]. unfold Get. simpl. by rewrite lookup_insert_eq.
  - exfalso. specialize (He eq_refl). cbn [negb] in Ho. unfold over_capacity in Ho.
    rewrite (sk_cfg _ _ Hs2), (sk_cfg _ _ Hs1), He, map_size_empty, (wf_bytes _ Hw2), He in Ho.
    change (total_size ∅) with 0 in Ho. apply orb_true_iff in Ho as [Ho|Ho]; [zbool; lia|].
    apply andb_true_iff in Ho as [? ?]. zbool. lia.
Qed.

(** A stake deposit in the version 4 payload passes [Validate] but can never enter
    the pool, whatever the environment: [stakeExtraPubKey] knows the other four
    lengths only. *)
Theorem v4_deposit_never_admitted (env : Env) (now : Z) (tx : Transaction) (m : Mempool) :
  IsStake tx = true -> length (Extra tx) = StakePayload.StakePayloadSizeV4 ->
  is_ok (snd (Add iter env now tx m)) = false /\ entries (fst (Add iter env now tx m)) = entries m.
Proof.
  intros Hst Hlen. unfold Add. destruct (add_checks env m tx); [|done]. unfold stake_admission. rewrite Hst. cbn [negb].
  assert (stakeExtraPubKey (Extra tx) = Err "stake extra: wrong length") as ->; [|done].
  unfold stakeExtraPubKey, len_is. by rewrite Hlen.
Qed.

End Reachable.

(** ** Examples *)

Definition ex_iter (es : gmap Hash32 mempoolEntry) : list mempoolEntry := (map_to_list es).*2.

#[export] Instance higher_rate_dec a b : Decision (higher_rate a b).
Proof. unfold higher_rate. apply _. Defined.
#[export] Instance higher_rate_trans : Transitive higher_rate.
Proof. intros a b c Hab Hbc. unfold higher_rate in *. lia. Qed.
#[export] Instance higher_rate_total : Total higher_rate.
Proof. intros a b. unfold higher_rate. lia. Qed.

Lemma ex_iterates : iterates ex_iter.
Proof. intros es. done. Qed.
Lemma ex_sorts : sorts (merge_sort higher_rate).
Proof. intros l. split; [apply merge_sort_Permutation|apply StronglySorted_merge_sort; apply _]. Qed.

(** Two outputs of the chain, and transactions that spend one of them at a given fee. *)
Definition ex_utxo (b : byte) : Utxo.UTXO :=
  Utxo.mkUTXO (copy_arr 32 [x21; b]) 0 (copy_arr 32 [x05; b]) (copy_arr 32 [x22]) (ex_commit 1000000) (copy_arr 8 []) 1 false.
Definition ex_pool_set : Utxo.UTXOSet := Utxo.Add (ex_utxo x01) (Utxo.Add (ex_utxo x02) Utxo.NewUTXOSet).
Definition ex_pool_verifier : TxVerifier := mkVerifier (Some ex_pool_set) None None 0 0.
Definition ex_env : Env := mkEnv (Some 100) (Some ex_pool_verifier) None None None.

Definition ex_spend_of (b : byte) (fee : Z) : Transaction :=
  let c := ex_commit (1000000 - fee) in
  let proof := {| rp_V := zero_arr 32; rp_A := zero_arr 32; rp_S := zero_arr 32; rp_T1 := zero_arr 32;
     rp_T2 := zero_arr 32; rp_Taux := zero_arr 32; rp_Mu := zero_arr 32; rp_Tx := zero_arr 32; rp_Ls := [];
     rp_Rs := []; rp_AFin := zero_arr 32; rp_BFin := zero_arr 32; ValueCommit := c |} in
  mkTx TxVersionCLSAG
    [mkInput (copy_arr 32 [x07; b]) (replicate RingSize (copy_arr 32 [x05; b])) (zero_arr 32)
       (replicate RingSize (ex_commit 1000000)) (ex_commit 1000000) x00]
    [mkOutput (copy_arr 32 [x30; b]) (copy_arr 32 [x31]) c (copy_arr 8 [])] fee (ex_commit fee) [Some proof] []
    [Some {| C1 := zero_arr 32; S_ := replicate RingSize (zero_arr 32); CLSAGKeyImage := copy_arr 32 [x07; b]; D_ := zero_arr 32 |}]
    [] None.

(** Room for one transaction. *)
Definition ex_cfg : MempoolConfig := mkConfig 1 0 100000 1000 100 10 50 0.
Definition ex_low : Transaction := ex_spend_of x01 300000.
Definition ex_high : Transaction := ex_spend_of x02 900000.
Definition ex_add (now : Z) (tx : Transaction) (m : Mempool) : Mempool * result () :=
  Add (H := toy_crypto) (H0 := toy_json) (H1 := plain_ring) ex_iter ex_env now tx m.
Definition ex_pool1 : Mempool := Eval vm_compute in fst (ex_add 5 ex_high (NewMempool ex_cfg)).
Definition ex_pool2 : Mempool := Eval vm_compute in fst (ex_add 6 ex_low ex_pool1).

Lemma ex_add_high : fst (ex_add 5 ex_high (NewMempool ex_cfg)) = ex_pool1.
Proof. vm_compute. reflexivity. Qed.
Lemma ex_add_low : ex_add 6 ex_low ex_pool1 = (ex_pool2, Ok ()).
Proof. vm_compute. reflexivity. Qed.

Lemma ex_pool1_reachable : reachable (H := toy_crypto) (H0 := toy_json) (H1 := plain_ring) ex_iter ex_pool1.
Proof. rewrite <- ex_add_high. apply (reach_add (H := toy_crypto) (H0 := toy_json) (H1 := plain_ring) ex_iter ex_env 5 ex_high). apply reach_new. Qed.

(** A full pool gives way to any transaction that pays the base fee: the one with the
    lower fee rate displaces the one with the higher. *)
Example lower_fee_displaces :
  ex_add 6 ex_low ex_pool1 = (ex_pool2, Ok ()) /\ entries ex_pool1 !! Hash (H := toy_crypto) ex_high <> None /\
  entries ex_pool2 !! Hash (H := toy_crypto) ex_high = None /\ Fee ex_low < Fee ex_high /\ Size ex_low = Size ex_high.
Proof.
  rewrite ex_add_low. split_and!; [reflexivity|vm_compute; discriminate|vm_compute; reflexivity|reflexivity|reflexivity].
Qed.

Lemma pool_reachable_sound_witness :
  Count ex_pool1 = 1%nat /\ totalBytes ex_pool1 = sumZ (fun e => Size (e_Tx e)) (ex_iter (entries ex_pool1)).
Proof.
  split; [vm_compute; reflexivity|].
  exact (proj1 (proj2 (proj2 (pool_reachable_sound (H := toy_crypto) (H0 := toy_json) (H1 := plain_ring) ex_iter ex_pool1
    ex_iterates ex_pool1_reachable)))).
Defined.

Lemma select_best_witness :
  SelectTxs ex_iter (merge_sort higher_rate) 3 ex_pool1 <> [] /\
  exists sel rest, SelectTxs ex_iter (merge_sort higher_rate) 3 ex_pool1 = e_Tx <$> sel /\
    sel ++ rest ≡ₚ (map_to_list (entries ex_pool1)).*2.
Proof.
  split; [vm_compute; discriminate|].
  destruct (select_best (H := toy_crypto) (H0 := toy_json) (H1 := plain_ring) ex_iter (merge_sort higher_rate) 3 ex_pool1
    ex_iterates ex_sorts ex_pool1_reachable) as (sel & rest & Hs & Hp & _).
  exists sel, rest. split; [exact Hs|exact Hp].
Defined.

Lemma add_outcome_witness : Get ex_pool2 (Hash (H := toy_crypto) ex_low) = Some ex_low.
Proof.
  exact (proj1 (proj2 (proj2 (add_outcome (H := toy_crypto) (H0 := toy_json) (H1 := plain_ring) ex_iter ex_env 6 ex_low
    ex_pool1 ex_pool2 (Ok ()) ex_iterates ex_pool1_reachable ex_add_low)))).
Defined.

Lemma make_room_terminates_witness :
  over_capacity (Size ex_low) ex_pool1 = true /\
  make_room ex_iter 7 (Size ex_low) ex_pool1 = make_room ex_iter (size (entries ex_pool1)) (Size ex_low) ex_pool1.
Proof.
  assert (Hsz : size (entries ex_pool1) = 1%nat) by (vm_compute; reflexivity).
  split; [vm_compute; reflexivity|].
  refine (proj1 (make_room_terminates (H := toy_crypto) (H0 := toy_json) (H1 := plain_ring) ex_iter 7 (Size ex_low) ex_pool1
    ex_iterates ex_pool1_reachable _)).
  rewrite Hsz. lia.
Defined.

Lemma add_progress_witness : exists m', ex_add 6 ex_low ex_pool1 = (m', Ok ()).
Proof.
  destruct (add_progress (H := toy_crypto) (H0 := toy_json) (H1 := plain_ring) ex_iter ex_env 6 ex_low ex_pool1 ex_pool1 EmptyString
    ex_iterates ex_pool1_reachable) as (m' & Ha & _).
  - reflexivity.
  - left. vm_compute. discriminate.
  - vm_compute. reflexivity.
  - reflexivity.
  - vm_compute. reflexivity.
  - exists m'. exact Ha.
Defined.

Definition ex_deposit : Transaction := ex_deposit_v4.

Lemma v4_deposit_never_admitted_witness :
  Validate (H := toy_crypto) (H0 := toy_json) ex_deposit = Ok () /\ is_ok (snd (ex_add 6 ex_deposit ex_pool1)) = false.
Proof.
  split; [vm_compute; reflexivity|].
  refine (proj1 (v4_deposit_never_admitted (H := toy_crypto) (H0 := toy_json) (H1 := plain_ring) ex_iter ex_env 6 ex_deposit ex_pool1 _ _)).
  - reflexivity.
  - vm_compute. reflexivity.
Defined.

(** A second spend of the output behind [ex_high]. *)
Definition ex_conflict : Transaction := ex_spend_of x02 800000.
Definition ex_wide : Mempool := Eval vm_compute in fst (ex_add 5 ex_high (NewMempool (mkConfig 10 0 100000 1000 100 10 50 0))).
Definition ex_forced : Mempool * result () := Eval vm_compute in
  AddPrivileged (H := toy_crypto) (H0 := toy_json) (H1 := plain_ring) ex_iter ex_env 6 ex_conflict ex_wide.

(** [AddPrivileged] does not look for double spends: it accepts a spend whose key
    image a pending transaction has locked, and removing it again releases the lock of
    the other, which is still pending. *)
Theorem privileged_breaks_lock :
  ex_forced = AddPrivileged (H := toy_crypto) (H0 := toy_json) (H1 := plain_ring) ex_iter ex_env 6 ex_conflict ex_wide /\
  snd ex_forced = Ok () /\ KeyImages ex_conflict = KeyImages ex_high /\
  is_Some (Get (fst ex_forced) (Hash (H := toy_crypto) ex_high)) /\
  is_Some (Get (fst ex_forced) (Hash (H := toy_crypto) ex_conflict)) /\
  is_Some (Get (Remove (Hash (H := toy_crypto) ex_conflict) (fst ex_forced)) (Hash (H := toy_crypto) ex_high)) /\
  poolKeyImages (Remove (Hash (H := toy_crypto) ex_conflict) (fst ex_forced)) = ∅.
Proof.
  split_and!; [vm_compute; reflexivity|reflexivity|reflexivity| | | |]; apply (bool_decide_unpack _); vm_compute; exact I.
Qed.

End MempoolInvariant.
