(* ===== verification/Builder.v ===== *)
(** The ring input a wallet serialises: the input assembly of
    [TxBuilder.build] in [core/tx_builder.go]. *)

From stdpp Require Import base list strings.
From S2P Require Import Prelude Bytes Crypto Avm StakePayload Transaction.
Import Transaction.

Module Builder.

(** [txVersionUsesCLSAG]. *)
Definition txVersionUsesCLSAG (v : TxVersion) : bool :=
  bool_decide (v = TxVersionCLSAG) || bool_decide (v = TxVersionAVM).

(** The loop over [commits], from index [j] on, with [n] entries to go and the
    decoys not used yet; [None] is an index out of range. *)
Fixpoint ring_commits (n j realIdx : nat) (real : Commitment) (decoys : list Commitment)
    : option (list Commitment) :=
  match n with
  | O => Some []
  | S n' =>
      if bool_decide (j = realIdx) then cons real <$> ring_commits n' (S j) realIdx real decoys
      else match decoys with
           | d :: ds => cons d <$> ring_commits n' (S j) realIdx real ds
           | [] => None
           end
  end.

(** The [RingInput] of one selected output with commitment [real]. *)
Definition assemble_input (v : TxVersion) (ki : KeyImage) (ring : list RingMember)
    (real : Commitment) (realIdx : nat) (decoys : list Commitment) : option RingInput :=
  if txVersionUsesCLSAG v then
    (fun commits => mkInput ki ring real commits (zero_arr 32) x00)
      <$> ring_commits RingSize 0 realIdx real decoys
  else Some (mkInput ki ring real [] (zero_arr 32) (byte_of_Z (Z.of_nat realIdx))).

Lemma ring_commits_lookup (n j realIdx : nat) (real : Commitment) (decoys cs : list Commitment) :
  ring_commits n j realIdx real decoys = Some cs ->
  forall i, (i < n)%nat ->
    if decide (j + i = realIdx)%nat then cs !! i = Some real
    else exists d, cs !! i = Some d /\ d ∈ decoys.
Proof.
  revert j decoys cs. induction n as [|n IH]; intros j decoys cs Hr i Hi; [lia|]. simpl in Hr.
  case_bool_decide as Hj.
  - destruct (ring_commits n (S j) realIdx real decoys) as [cs'|] eqn:E; [|done]. injection Hr as <-.
    destruct i as [|i]; [rewrite Nat.add_0_r, decide_True by done; done|].
    specialize (IH _ _ _ E i ltac:(lia)). by replace (j + S i)%nat with (S j + i)%nat by lia.
  - destruct decoys as [|d ds]; [done|].
    destruct (ring_commits n (S j) realIdx real ds) as [cs'|] eqn:E; [|done]. injection Hr as <-.
    destruct i as [|i].
    + rewrite Nat.add_0_r, decide_False by done. exists d. split; [done|by left].
    + specialize (IH _ _ _ E i ltac:(lia)). replace (j + S i)%nat with (S j + i)%nat by lia.
      case_decide; [done|]. destruct IH as (d' & ? & ?). exists d'. split; [done|by right].
Qed.

(** A version 5 input discloses its real position: the commitment in
    [AmountCommit] is the one stored at the real index of [RingCommitments], and
    the only one when no decoy shares it. *)
Theorem clsag_input_discloses_index (v : TxVersion) (ki : KeyImage) (ring : list RingMember)
    (real : Commitment) (realIdx : nat) (decoys : list Commitment) (inp : RingInput) :
  txVersionUsesCLSAG v = true -> (realIdx < RingSize)%nat -> real ∉ decoys ->
  assemble_input v ki ring real realIdx decoys = Some inp ->
  forall i, (i < RingSize)%nat -> RingCommitments inp !! i = Some (in_AmountCommit inp) <-> i = realIdx.
Proof.
  intros Hv Hlt Hreal Ha i Hi. unfold assemble_input in Ha. rewrite Hv in Ha.
  destruct (ring_commits _ _ _ _ _) as [cs|] eqn:E; [|done]. injection Ha as <-. simpl.
  assert (Hl := ring_commits_lookup _ _ _ _ _ _ E i Hi). simpl in Hl. case_decide as Hd; [done|].
  destruct Hl as (d & Hd' & Hin). rewrite Hd'. split; [|done]. intros [= ->]. done.
Qed.

Definition ex_decoys : list Commitment := (fun n => copy_arr 32 [byte_of_Z (Z.of_nat n)]) <$> seq 20 15.
Definition ex_input : RingInput :=
  match assemble_input TxVersionCLSAG (copy_arr 32 [x07]) [] (copy_arr 32 [x01]) 3 ex_decoys with
  | Some i => i | None => mkInput (zero_arr 32) [] (zero_arr 32) [] (zero_arr 32) x00 end.

Lemma clsag_input_discloses_index_witness :
  RingCommitments ex_input !! 3%nat = Some (in_AmountCommit ex_input) <-> 3%nat = 3%nat.
Proof.
  apply (clsag_input_discloses_index TxVersionCLSAG (copy_arr 32 [x07]) [] (copy_arr 32 [x01]) 3 ex_decoys);
    [reflexivity|unfold RingSize; lia| |reflexivity|unfold RingSize; lia].
  apply (bool_decide_unpack _). vm_compute. exact I.
Defined.

End Builder.
