(* ===== verification/Staking.v ===== *)
(** The validator registry: [core/staking.go], with the signing-key fork of
    [core/validator_authority.go] and [core/validator_authority_registry.go].

    [Registry] is [ValidatorRegistry].  Entries are only reached through the
    [validators] map, so a pointer to an entry is its key.  An operation that can
    fail after it has changed state returns the state next to its result. *)

From stdpp Require Import base gmap list strings sorting.
From S2P Require Import Prelude Bytes Crypto Avm StakePayload Transaction Utxo.
Import Transaction StakePayload Utxo.

Module Staking.

(** ** Data *)

Inductive ValidatorStatus :=
| ValidatorPending | ValidatorActive | ValidatorUnbonding | ValidatorExited.

#[global] Instance ValidatorStatus_eq_dec : EqDecision ValidatorStatus.
Proof. solve_decision. Defined.

Record UnbondingEntry := mkUnbonding { ub_Amount : Z; ub_EndBlock : Z }.

Record ValidatorEntry := mkEntry {
  PubKey : ValidatorPubKey; StakeNAPR : Z; Status : ValidatorStatus; ActivationEpoch : Z;
  UnbondEndBlock : Z; UnbondingQueue : list UnbondingEntry; Seeded : bool;
  StakeGeneration : Z; StakeAuthNonce : Z
}.

#[global] Instance UnbondingEntry_eq_dec : EqDecision UnbondingEntry.
Proof. solve_decision. Defined.
#[global] Instance ValidatorEntry_eq_dec : EqDecision ValidatorEntry.
Proof. solve_decision. Defined.

Definition PendingUnbondingNAPR (e : ValidatorEntry) : Z :=
  foldl (fun total ub => total +w ub_Amount ub) 0 (UnbondingQueue e).

Record ValidatorAuthorityFork := mkFork {
  fk_Version : Z; fk_Genesis : Hash32; fk_Height : Z; fk_Parent : Hash32;
  fk_Identity : ValidatorPubKey; fk_Replacement : ValidatorPubKey;
  fk_RegistrySHA256 : Hash32; fk_LegacyWitnessSHA256 : Hash32; fk_Possession : list byte
}.

Record Registry := mkRegistry {
  validators : gmap string ValidatorEntry;
  dynamicMinNAPR : Z;
  r_utxos : option UTXOSet;
  stakeWithdrawalGenesis : Hash32;
  stakeWithdrawalActivation : Z;
  stakeKeyImageActivation : Z;
  signatureFork : option ValidatorAuthorityFork;
  signatureAdmissionHeight : Z
}.

Definition NewValidatorRegistry : Registry := mkRegistry ∅ 0 None (zero_arr 32) 0 0 None 0.

Definition with_validators (f : gmap string ValidatorEntry -> gmap string ValidatorEntry) (r : Registry) : Registry :=
  mkRegistry (f (validators r)) (dynamicMinNAPR r) (r_utxos r) (stakeWithdrawalGenesis r)
    (stakeWithdrawalActivation r) (stakeKeyImageActivation r) (signatureFork r) (signatureAdmissionHeight r).
Definition SetUTXOSet (u : option UTXOSet) (r : Registry) : Registry :=
  mkRegistry (validators r) (dynamicMinNAPR r) u (stakeWithdrawalGenesis r)
    (stakeWithdrawalActivation r) (stakeKeyImageActivation r) (signatureFork r) (signatureAdmissionHeight r).
Definition set_dynamicMin (m : Z) (r : Registry) : Registry :=
  mkRegistry (validators r) m (r_utxos r) (stakeWithdrawalGenesis r)
    (stakeWithdrawalActivation r) (stakeKeyImageActivation r) (signatureFork r) (signatureAdmissionHeight r).
Definition SetSignatureAdmissionHeight (h : Z) (r : Registry) : Registry :=
  mkRegistry (validators r) (dynamicMinNAPR r) (r_utxos r) (stakeWithdrawalGenesis r)
    (stakeWithdrawalActivation r) (stakeKeyImageActivation r) (signatureFork r) h.

Definition ConfigureStakeWithdrawalV2 (genesis : Hash32) (activation : Z) (r : Registry) : result Registry :=
  reject bool_decide (genesis = zero_arr 32) || (activation =? 0)
    with "stake withdrawal v2: genesis and activation height required" ;;
  reject negb (stakeWithdrawalActivation r =? 0) &&
         (negb (stakeWithdrawalActivation r =? activation) ||
          negb (bool_decide (stakeWithdrawalGenesis r = genesis)))
    with "stake withdrawal v2: conflicting activation binding" ;;
  Ok (mkRegistry (validators r) (dynamicMinNAPR r) (r_utxos r) genesis activation
        (stakeKeyImageActivation r) (signatureFork r) (signatureAdmissionHeight r)).

Definition ConfigureStakeKeyImageV4 (activation : Z) (r : Registry) : result Registry :=
  reject (activation =? 0) with "stake key-image v4: activation height is required" ;;
  reject negb (stakeKeyImageActivation r =? 0) && negb (stakeKeyImageActivation r =? activation)
    with "stake key-image v4: conflicting activation height" ;;
  Ok (mkRegistry (validators r) (dynamicMinNAPR r) (r_utxos r) (stakeWithdrawalGenesis r)
        (stakeWithdrawalActivation r) activation (signatureFork r) (signatureAdmissionHeight r)).

Definition effectiveMin (r : Registry) : Z :=
  if dynamicMinNAPR r =? 0 then MinStakeNAPR else dynamicMinNAPR r.

(** [CurrentMinStake] tests [> 0] on an unsigned value. *)
Definition CurrentMinStake (r : Registry) : Z :=
  if 0 <? dynamicMinNAPR r then dynamicMinNAPR r else MinStakeNAPR.

(** Insert an entry for each key that has none. *)
Definition seed_entries (mk : ValidatorPubKey -> ValidatorEntry) (pubs : list ValidatorPubKey) (r : Registry) : Registry :=
  foldl (fun r pub =>
    if bool_decide (is_Some (validators r !! pub_hex pub)) then r
    else with_validators <[pub_hex pub := mk pub]> r) r pubs.

Definition InitFromGenesis (pubs : list ValidatorPubKey) (genesisStake : Z) (r : Registry) : Registry :=
  seed_entries (fun pub => mkEntry pub genesisStake ValidatorActive 0 0 [] false 1 0) pubs r.

Definition SeedFromObservedProducers (pubs : list ValidatorPubKey) (r : Registry) : Registry :=
  seed_entries (fun pub => mkEntry pub MinStakeNAPR ValidatorActive 0 0 [] true 1 0) pubs r.

(** ** Signing authority *)

Definition Authority (f : option ValidatorAuthorityFork) (identity : ValidatorPubKey) (height : Z) : ValidatorPubKey :=
  match f with
  | Some f => if (fk_Height f <=? height) && pub_equals identity (fk_Identity f)
              then fk_Replacement f else identity
  | None => identity
  end.

Definition LocalIdentity (f : option ValidatorAuthorityFork) (key : ValidatorPubKey) (height : Z) : ValidatorPubKey :=
  match f with
  | Some f => if (fk_Height f <=? height) && pub_equals key (fk_Replacement f)
              then fk_Identity f else key
  | None => key
  end.

Definition CheckParent (f : option ValidatorAuthorityFork) (header : BlockHeader) : result () :=
  match f with
  | Some f => reject (Height header =? fk_Height f) && negb (bool_decide (PrevHash header = fk_Parent f))
                with "validator authority fork: activation parent mismatch" ;; Ok ()
  | None => Ok ()
  end.

Section Authority.
Context `{Crypto}.

Definition verifyValidatorSignature (r : Registry) (identity : ValidatorPubKey) (height : Z)
    (msg : Hash32) (sig : list byte) : bool :=
  pub_verify (Authority (signatureFork r) identity height) msg sig.

(** ** Entries *)

Definition set_status (st : ValidatorStatus) (e : ValidatorEntry) : ValidatorEntry :=
  mkEntry (PubKey e) (StakeNAPR e) st (ActivationEpoch e) (UnbondEndBlock e) (UnbondingQueue e)
    (Seeded e) (StakeGeneration e) (StakeAuthNonce e).
Definition set_nonce (n : Z) (e : ValidatorEntry) : ValidatorEntry :=
  mkEntry (PubKey e) (StakeNAPR e) (Status e) (ActivationEpoch e) (UnbondEndBlock e) (UnbondingQueue e)
    (Seeded e) (StakeGeneration e) n.

Definition gone (st : ValidatorStatus) : bool :=
  match st with ValidatorUnbonding | ValidatorExited => true | _ => false end.

Definition demote (e : ValidatorEntry) : ValidatorEntry :=
  if Seeded e then
    mkEntry (PubKey e) (StakeNAPR e) ValidatorExited (ActivationEpoch e) (UnbondEndBlock e)
      (UnbondingQueue e) false (StakeGeneration e) (StakeAuthNonce e)
  else e.

Definition demoteSeededLocked (r : Registry) : Registry := with_validators (fmap demote) r.

(** A sentinel replaced by real stake data. *)
Definition replace_seed (e : ValidatorEntry) (amount height : Z) : ValidatorEntry :=
  let g := StakeGeneration e +w 1 in
  mkEntry (PubKey e) amount ValidatorPending (height / EpochLength +w 1) 0 [] false
    (if g =? 0 then 1 else g) (StakeAuthNonce e).

Definition top_up (e : ValidatorEntry) (amount : Z) : ValidatorEntry :=
  mkEntry (PubKey e) (StakeNAPR e +w amount) (Status e) (ActivationEpoch e) (UnbondEndBlock e)
    (UnbondingQueue e) (Seeded e) (StakeGeneration e +w 1) (StakeAuthNonce e).

Definition applyDeposit (key : string) (pub : ValidatorPubKey) (amount height : Z) (r : Registry) : result Registry :=
  reject amount <? effectiveMin r with "deposit too low" ;;
  reject MaxStakeNAPR <? amount with "deposit amount exceeds per-validator cap" ;;
  match validators r !! key with
  | Some existing =>
      reject gone (Status existing) with "validator is unbonding/exited" ;;
      if Seeded existing then
        Ok (demoteSeededLocked (with_validators <[key := replace_seed existing amount height]> r))
      else
        reject MaxUint64 - amount <? StakeNAPR existing with "stake top-up overflow" ;;
        reject StakeGeneration existing =? MaxUint64 with "stake collateral generation exhausted" ;;
        Ok (demoteSeededLocked (with_validators <[key := top_up existing amount]> r))
  | None =>
      Ok (demoteSeededLocked (with_validators
        <[key := mkEntry pub amount ValidatorPending (height / EpochLength +w 1) 0 [] false 1 0]> r))
  end.

Definition applyWithdraw (key : string) (height : Z) (r : Registry) : result Registry :=
  need entry from validators r !! key else "validator not registered" ;;
  reject gone (Status entry) with "validator already unbonding or exited" ;;
  Ok (with_validators <[key := mkEntry (PubKey entry) (StakeNAPR entry) ValidatorUnbonding
        (ActivationEpoch entry) (height +w UnbondingBlocks) (UnbondingQueue entry) (Seeded entry)
        (StakeGeneration entry) (StakeAuthNonce entry)]> r).

Definition applyPartialWithdraw (key : string) (amount height : Z) (r : Registry) : result Registry :=
  need entry from validators r !! key else "validator not registered" ;;
  reject gone (Status entry) with "validator is unbonding/exited; cannot partial withdraw" ;;
  reject amount =? 0 with "partial withdraw amount must be > 0" ;;
  reject StakeNAPR entry <=? amount with "withdrawal amount >= current stake" ;;
  let remaining := StakeNAPR entry -w amount in
  reject remaining <? effectiveMin r with "remaining stake < minimum" ;;
  Ok (with_validators <[key := mkEntry (PubKey entry) remaining (Status entry) (ActivationEpoch entry)
        (UnbondEndBlock entry)
        (UnbondingQueue entry ++ [mkUnbonding amount (height +w PartialUnbondingBlocks)])
        (Seeded entry) (StakeGeneration entry) (StakeAuthNonce entry)]> r).

(** ** Withdrawals authorized with version 2 *)

Definition validateWithdrawalV2Locked (a : StakeWithdrawalAuthorizationV2) (height : Z) (r : Registry)
    : result ValidatorEntry :=
  reject (stakeWithdrawalActivation r =? 0) || (height <? stakeWithdrawalActivation r)
    with "stake withdrawal v2: transaction before attested activation" ;;
  reject negb (bool_decide (wa_Genesis a = stakeWithdrawalGenesis r))
    with "stake withdrawal v2: wrong chain genesis" ;;
  reject wa_ExpiryHeight a <? height with "stake withdrawal v2: authorization expired" ;;
  reject StakeWithdrawalMaxExpiryBlocks <? (wa_ExpiryHeight a -w height)
    with "stake withdrawal v2: expiry exceeds authorization window" ;;
  match validators r !! pub_hex (wa_PubKey a) with
  | None => Err "stake withdrawal v2: validator is not authentically registered"
  | Some entry =>
      reject Seeded entry with "stake withdrawal v2: validator is not authentically registered" ;;
      reject (StakeAuthNonce entry =? MaxUint64) || negb (wa_Nonce a =? StakeAuthNonce entry +w 1) ||
             negb (wa_Generation a =? StakeGeneration entry)
        with "stake withdrawal v2: stale nonce or collateral generation" ;;
      reject negb (bool_decide (wa_StakeRef a =
               StakeReferenceV2 (wa_Genesis a) (wa_PubKey a) (StakeGeneration entry) (StakeNAPR entry)))
        with "stake withdrawal v2: current stake reference mismatch" ;;
      reject negb (verifyValidatorSignature r (wa_PubKey a) height (StakeWithdrawalSignMsgV2 a) (wa_Signature a))
        with "stake withdrawal v2: invalid validator signature" ;;
      Ok entry
  end.

Definition applyWithdrawalV2Locked (a : StakeWithdrawalAuthorizationV2) (height : Z) (r : Registry) : result Registry :=
  let key := pub_hex (wa_PubKey a) in
  _ ← validateWithdrawalV2Locked a height r;
  r1 ← (if bool_decide (wa_Action a = StakeWithdraw) then
          reject negb (wa_Amount a =? 0) with "stake withdrawal v2: full exit amount must be zero" ;;
          applyWithdraw key height r
        else if bool_decide (wa_Action a = StakePartialWithdraw) then
          applyPartialWithdraw key (wa_Amount a) height r
        else Err "stake withdrawal v2: invalid action");
  Ok (with_validators (alter (set_nonce (wa_Nonce a)) key) r1).

(** ** Deposit checks *)

(** Activation gate, action and validator signature of a version 2 or 3 deposit. *)
Definition deposit_auth (r : Registry) (height : Z) (d : DepositExtra) : result () :=
  reject negb (stakeKeyImageActivation r =? 0) && (stakeKeyImageActivation r <=? height)
    with "deposits disabled after key-image proof activation" ;;
  reject negb (bool_decide (de_action d = StakeDeposit)) with "payload only valid for StakeDeposit" ;;
  reject negb (verifyValidatorSignature r (de_pub d) height
                 (StakeSignMsgV2 (de_action d) (de_pub d) (de_amount d) (burnTxHash d) (burnOutIdx d))
                 (de_sig d))
    with "invalid stake signature" ;;
  Ok ().

(** The claimed amount and blind open the commitment of the active output. *)
Definition burn_opens (u : UTXO) (d : DepositExtra) : result () :=
  need expectedCommit from Commit (de_amount d) (burnBlind d) else "commitment computation failed" ;;
  reject negb (bool_decide (expectedCommit = u_AmountCommit u)) with "burn UTXO AmountCommit mismatch" ;;
  Ok ().

Definition deposit_utxo_v2 (r : Registry) (d : DepositExtra) : result () :=
  need s from r_utxos r else "UTXO set not wired" ;;
  need u from Get s (burnTxHash d) (burnOutIdx d) else "burn UTXO not found in active set" ;;
  reject bool_decide (u_TxPubKey u = zero_arr 32) with "transparent/mint outputs require v3 payload" ;;
  burn_opens u d.

Definition deposit_utxo_v3 (r : Registry) (d : DepositExtra) (oneTimeSig : list byte) : result () :=
  need s from r_utxos r else "UTXO set not wired" ;;
  need u from Get s (burnTxHash d) (burnOutIdx d) else "burn UTXO not found in active set" ;;
  _ ← burn_opens u d;
  oneTimePub ← ValidatorPubKeyFromBytes (arr_list (u_OneTimePub u));
  reject negb (pub_verify oneTimePub (StakeOwnershipSignMsg (burnTxHash d) (burnOutIdx d)) oneTimeSig)
    with "UTXO ownership proof failed" ;;
  Ok ().

Definition validateStakeDepositV4 (r : Registry) (height activation : Z) (d : DepositExtra)
    (keyImage : KeyImage) (proof : KeyImageDLEQProof) (checkSpent : bool) : result UTXO :=
  reject (activation =? 0) || (height <? activation) with "stake key-image proof v4 is not active" ;;
  reject negb (bool_decide (de_action d = StakeDeposit)) with "v4 payload is only valid for StakeDeposit" ;;
  reject negb (verifyValidatorSignature r (de_pub d) height
                 (StakeSignMsgV2 (de_action d) (de_pub d) (de_amount d) (burnTxHash d) (burnOutIdx d))
                 (de_sig d))
    with "invalid v4 stake signature" ;;
  need s from r_utxos r else "UTXO set not wired; cannot verify v4 stake collateral" ;;
  need u from Get s (burnTxHash d) (burnOutIdx d) else "burn UTXO not found in active set" ;;
  _ ← burn_opens u d;
  reject negb (VerifyKeyImageProof (u_OneTimePub u) keyImage (StakeKeyImageProofContext d) proof)
    with "stake collateral key-image proof invalid" ;;
  if checkSpent then
    spent ← HasSpentKeyImage s keyImage;
    reject (spent : bool) with "stake collateral key image was already spent" ;; Ok u
  else Ok u.

(** ** Applying one stake transaction *)

(** [r.utxos.MarkStaked], [r.utxos.UnmarkStaked] and [r.utxos.MarkStakedKnown]. *)
Definition reg_MarkStaked (txHash : Hash32) (outIdx : Z) (r : Registry) : result Registry :=
  need s from r_utxos r else "panic: nil UTXO set" ;;
  s' ← MarkStaked txHash outIdx s;
  Ok (SetUTXOSet (Some s') r).
Definition reg_UnmarkStaked (r : Registry) (k : UTXOKey) : Registry :=
  SetUTXOSet (UnmarkStaked (fst k) (snd k) <$> r_utxos r) r.
Definition reg_MarkStakedKnown (txHash : Hash32) (outIdx : Z) (u : UTXO) (r : Registry) : Registry :=
  SetUTXOSet (MarkStakedKnown txHash outIdx u <$> r_utxos r) r.

(** Burn the output and register the deposit; when the registry refuses it the
    output is unmarked.  The state is returned with the result. *)
Definition burn_and_deposit (d : DepositExtra) (height : Z) (r : Registry) : Registry * result (option UTXOKey) :=
  match reg_MarkStaked (burnTxHash d) (burnOutIdx d) r with
  | Err e => (r, Err e)
  | Ok r1 =>
      match applyDeposit (pub_hex (de_pub d)) (de_pub d) (de_amount d) height r1 with
      | Err e => (reg_UnmarkStaked r1 (burnTxHash d, burnOutIdx d), Err e)
      | Ok r2 => (r2, Ok (Some (burnTxHash d, burnOutIdx d)))
      end
  end.

(** A registry operation without staked key, and a check that guards [k]. *)
Definition plain (r : Registry) (m : result Registry) : Registry * result (option UTXOKey) :=
  match m with Ok r' => (r', Ok None) | Err e => (r, Err e) end.
Definition guarded {A} (r : Registry) (m : result A) (k : Registry * result (option UTXOKey))
    : Registry * result (option UTXOKey) :=
  match m with Ok _ => k | Err e => (r, Err e) end.

Definition legacy_withdrawal (r : Registry) (height : Z) (p : StakeExtra) : result Registry :=
  reject bool_decide (se_action p = StakeDeposit) with "StakeDeposit requires v2 payload" ;;
  reject negb (stakeWithdrawalActivation r =? 0) && (stakeWithdrawalActivation r <=? height)
    with "legacy stake withdrawal disabled after attested v2 activation" ;;
  reject negb (verifyValidatorSignature r (se_pub p) height
                 (StakeSignMsg (se_action p) (se_pub p) (se_amount p)) (se_sig p))
    with "invalid stake signature" ;;
  let key := pub_hex (se_pub p) in
  if bool_decide (se_action p = StakeWithdraw) then applyWithdraw key height r
  else if bool_decide (se_action p = StakePartialWithdraw) then
    applyPartialWithdraw key (se_amount p) height r
  else Err "unknown stake action".

Definition applyOneTxLocked (height : Z) (r : Registry) (tx : Transaction) : Registry * result (option UTXOKey) :=
  let extra := Extra tx in
  if negb (IsStake tx) then (r, Err "not a stake tx")
  else if len_is extra StakePayloadSize then
    plain r (p ← DecodeStakeExtra extra; legacy_withdrawal r height p)
  else if len_is extra StakeWithdrawalPayloadSizeV2 then
    plain r (a ← DecodeStakeWithdrawalExtraV2 extra; applyWithdrawalV2Locked a height r)
  else if len_is extra StakePayloadSizeV2 then
    match DecodeStakeExtraV2 extra with
    | Err e => (r, Err e)
    | Ok d => guarded r (_ ← deposit_auth r height d; deposit_utxo_v2 r d) (burn_and_deposit d height r)
    end
  else if len_is extra StakePayloadSizeV3 then
    match DecodeStakeExtraV3 extra with
    | Err e => (r, Err e)
    | Ok (d, ots) => guarded r (_ ← deposit_auth r height d; deposit_utxo_v3 r d ots) (burn_and_deposit d height r)
    end
  else if len_is extra StakePayloadSizeV4 then
    match DecodeStakeExtraV4 extra with
    | Err e => (r, Err e)
    | Ok (d, ki, proof) =>
        guarded r (validateStakeDepositV4 r height (stakeKeyImageActivation r) d ki proof false)
          (burn_and_deposit d height r)
    end
  else (r, Err "invalid stake extra length").

(** [ProcessStakeTx]: as above, but a deposit the registry refuses leaves its
    output burned. *)
Definition burn_then_deposit (d : DepositExtra) (height : Z) (r : Registry) : Registry * result () :=
  match reg_MarkStaked (burnTxHash d) (burnOutIdx d) r with
  | Err e => (r, Err e)
  | Ok r1 =>
      match applyDeposit (pub_hex (de_pub d)) (de_pub d) (de_amount d) height r1 with
      | Err e => (r1, Err e)
      | Ok r2 => (r2, Ok ())
      end
  end.

Definition ProcessStakeTx (tx : Transaction) (height : Z) (r : Registry) : Registry * result () :=
  let extra := Extra tx in
  let simple (m : result Registry) := match m with Ok r' => (r', Ok ()) | Err e => (r, Err e) end in
  let after {A} (m : result A) d :=
    match m with Ok _ => burn_then_deposit d height r | Err e => (r, Err e) end in
  if negb (IsStake tx) then (r, Err "registry: not a stake tx")
  else if len_is extra StakePayloadSize then
    simple (p ← DecodeStakeExtra extra; legacy_withdrawal r height p)
  else if len_is extra StakeWithdrawalPayloadSizeV2 then
    simple (a ← DecodeStakeWithdrawalExtraV2 extra; applyWithdrawalV2Locked a height r)
  else if len_is extra StakePayloadSizeV2 then
    match DecodeStakeExtraV2 extra with
    | Err e => (r, Err e)
    | Ok d => after (_ ← deposit_auth r height d; deposit_utxo_v2 r d) d
    end
  else if len_is extra StakePayloadSizeV3 then
    match DecodeStakeExtraV3 extra with
    | Err e => (r, Err e)
    | Ok (d, ots) => after (_ ← deposit_auth r height d; deposit_utxo_v3 r d ots) d
    end
  else if len_is extra StakePayloadSizeV4 then
    match DecodeStakeExtraV4 extra with
    | Err e => (r, Err e)
    | Ok (d, ki, proof) =>
        after (validateStakeDepositV4 r height (stakeKeyImageActivation r) d ki proof true) d
    end
  else (r, Err "registry: invalid stake extra length").

(** ** Blocks *)

Definition unmark_all (keys : list UTXOKey) (r : Registry) : Registry := foldl reg_UnmarkStaked r keys.

(** The loop of [ApplyBlockStakeTxs]: registry, keys staked so far, and the
    first error. *)
Fixpoint apply_loop (height : Z) (txs : list Transaction) (r : Registry) (keys : list UTXOKey)
    : Registry * list UTXOKey * result () :=
  match txs with
  | [] => (r, keys, Ok ())
  | tx :: rest =>
      if negb (IsStake tx) then apply_loop height rest r keys
      else match applyOneTxLocked height r tx with
           | (r', Err e) => (r', keys, Err e)
           | (r', Ok (Some k)) => apply_loop height rest r' (keys ++ [k])
           | (r', Ok None) => apply_loop height rest r' keys
           end
  end.

(** What the returned rollback closure does: [snap] and [keys] are what it
    captures. *)
Definition stake_rollback (snap : gmap string ValidatorEntry) (keys : list UTXOKey) (r : Registry) : Registry :=
  unmark_all keys (with_validators (fun _ => snap) r).

(** The new registry, and the rollback closure or the error. *)
Definition ApplyBlockStakeTxs (txs : list Transaction) (height : Z) (r : Registry)
    : Registry * result (Registry -> Registry) :=
  if negb (existsb IsStake txs) then (r, Ok id)
  else
    let snap := validators r in
    match apply_loop height txs r [] with
    | (r', keys, Ok _) => (r', Ok (stake_rollback snap keys))
    | (r', keys, Err e) => (stake_rollback snap keys r', Err e)
    end.

(** [ValidateStakeTx]: the mempool's checks of one stake transaction. *)
Definition ValidateStakeTx (tx : Transaction) (r : Registry) : result () :=
  let extra := Extra tx in
  let height := signatureAdmissionHeight r in
  reject negb (IsStake tx) with "registry: not a stake tx" ;;
  if len_is extra StakePayloadSize then
    p ← DecodeStakeExtra extra;
    reject bool_decide (se_action p = StakeDeposit) with "registry: StakeDeposit requires v2 payload" ;;
    reject negb (verifyValidatorSignature r (se_pub p) height
                   (StakeSignMsg (se_action p) (se_pub p) (se_amount p)) (se_sig p))
      with "registry: invalid stake signature" ;;
    Ok ()
  else if len_is extra StakeWithdrawalPayloadSizeV2 then
    a ← DecodeStakeWithdrawalExtraV2 extra;
    reject (stakeWithdrawalActivation r =? 0) ||
           negb (bool_decide (wa_Genesis a = stakeWithdrawalGenesis r)) ||
           negb (verifyValidatorSignature r (wa_PubKey a) height (StakeWithdrawalSignMsgV2 a) (wa_Signature a))
      with "registry: invalid or unconfigured stake withdrawal v2 authorization" ;;
    Ok ()
  else if len_is extra StakePayloadSizeV2 then
    d ← DecodeStakeExtraV2 extra; _ ← deposit_auth r height d; deposit_utxo_v2 r d
  else if len_is extra StakePayloadSizeV3 then
    '(d, ots) ← DecodeStakeExtraV3 extra; _ ← deposit_auth r height d; deposit_utxo_v3 r d ots
  else if len_is extra StakePayloadSizeV4 then
    '(d, ki, proof) ← DecodeStakeExtraV4 extra;
    _ ← validateStakeDepositV4 r height (stakeKeyImageActivation r) d ki proof true; Ok ()
  else Err "registry: invalid stake extra length".

(** ** Startup replay *)

Definition replay_deposit (d : DepositExtra) (height : Z) (r : Registry) : Registry * result () :=
  let u := mkUTXO (burnTxHash d) (burnOutIdx d) (zero_arr 32) (zero_arr 32)
             (default (zero_arr 32) (Commit (de_amount d) (burnBlind d))) (zero_arr 8) 0 false in
  let r1 := reg_MarkStakedKnown (burnTxHash d) (burnOutIdx d) u r in
  match applyDeposit (pub_hex (de_pub d)) (de_pub d) (de_amount d) height r1 with
  | Ok r2 => (r2, Ok ())
  | Err e => (r1, Err e)
  end.

Definition replay_v1 (r : Registry) (height : Z) (p : StakeExtra) : result Registry :=
  let key := pub_hex (se_pub p) in
  reject bool_decide (se_action p = StakeDeposit) && negb (stakeKeyImageActivation r =? 0) &&
         (stakeKeyImageActivation r <=? height)
    with "replay: v1 stake deposit after key-image proof activation" ;;
  reject negb (stakeWithdrawalActivation r =? 0) && (stakeWithdrawalActivation r <=? height) &&
         is_withdrawal (se_action p)
    with "replay: legacy withdrawal after attested v2 activation" ;;
  reject negb (verifyValidatorSignature r (se_pub p) height
                 (StakeSignMsg (se_action p) (se_pub p) (se_amount p)) (se_sig p))
    with "replay: invalid stake sig" ;;
  if bool_decide (se_action p = StakeWithdraw) then applyWithdraw key height r
  else if bool_decide (se_action p = StakePartialWithdraw) then
    applyPartialWithdraw key (se_amount p) height r
  else if bool_decide (se_action p = StakeDeposit) then
    applyDeposit key (se_pub p) (se_amount p) height r
  else Err "replay: unknown stake action".

Definition replayOneTxLocked (height : Z) (r : Registry) (tx : Transaction) : Registry * result () :=
  let extra := Extra tx in
  let simple (m : result Registry) := match m with Ok r' => (r', Ok ()) | Err e => (r, Err e) end in
  if negb (IsStake tx) then (r, Ok ())
  else if len_is extra StakePayloadSize then
    simple (p ← DecodeStakeExtra extra; replay_v1 r height p)
  else if len_is extra StakeWithdrawalPayloadSizeV2 then
    simple (a ← DecodeStakeWithdrawalExtraV2 extra; applyWithdrawalV2Locked a height r)
  else if len_is extra StakePayloadSizeV2 then
    match (d ← DecodeStakeExtraV2 extra; _ ← deposit_auth r height d; Ok d) with
    | Ok d => replay_deposit d height r
    | Err e => (r, Err e)
    end
  else if len_is extra StakePayloadSizeV3 then
    match ('(d, _) ← DecodeStakeExtraV3 extra; _ ← deposit_auth r height d; Ok d) with
    | Ok d => replay_deposit d height r
    | Err e => (r, Err e)
    end
  else if len_is extra StakePayloadSizeV4 then
    match ('(d, ki, proof) ← DecodeStakeExtraV4 extra;
           u ← validateStakeDepositV4 r height (stakeKeyImageActivation r) d ki proof false; Ok (d, u)) with
    | Ok (d, u) =>
        let r1 := reg_MarkStakedKnown (burnTxHash d) (burnOutIdx d) u r in
        match applyDeposit (pub_hex (de_pub d)) (de_pub d) (de_amount d) height r1 with
        | Ok r2 => (r2, Ok ())
        | Err e => (r1, Err e)
        end
    | Err e => (r, Err e)
    end
  else (r, Err "replay: invalid stake extra length").

Fixpoint ReplayBlockStakeTxs (height : Z) (txs : list Transaction) (r : Registry) : Registry * result () :=
  match txs with
  | [] => (r, Ok ())
  | tx :: rest =>
      if negb (IsStake tx) then ReplayBlockStakeTxs height rest r
      else match replayOneTxLocked height r tx with
           | (r', Ok _) => ReplayBlockStakeTxs height rest r'
           | (r', Err e) => (r', Err e)
           end
  end.

End Authority.

(** ** Queries *)

Definition is_status (st : ValidatorStatus) (e : ValidatorEntry) : bool := bool_decide (Status e = st).

Definition hexLe (a b : ValidatorPubKey) : Prop := String.leb (pub_hex a) (pub_hex b) = true.
#[global] Instance hexLe_dec : RelDecision hexLe.
Proof. intros a b. unfold hexLe. apply _. Defined.

(** The entries of the registry, in some order of map iteration. *)
Definition entries (r : Registry) : list (string * ValidatorEntry) := map_to_list (validators r).

Definition activeSetLocked (r : Registry) : list ValidatorPubKey :=
  merge_sort hexLe ((fun ke => PubKey (snd ke)) <$>
    filter (fun ke => is_status ValidatorActive (snd ke) = true) (entries r)).

Definition IsActive (r : Registry) (pub : ValidatorPubKey) : bool :=
  match validators r !! pub_hex pub with Some e => is_status ValidatorActive e | None => false end.

Definition GetEntry (r : Registry) (pub : ValidatorPubKey) : option ValidatorEntry := validators r !! pub_hex pub.

Definition active_count (r : Registry) : nat :=
  length (filter (fun ke => is_status ValidatorActive (snd ke) = true) (entries r)).

Definition Count (r : Registry) : nat * nat := (active_count r, length (entries r)).

(** ** Single operations *)

(** What a lookup yields after one key is replaced and the sentinels demoted. *)
Lemma demoted_lookup (m : gmap string ValidatorEntry) (k : string) :
  (demote <$> m) !! k = demote <$> m !! k.
Proof. apply lookup_fmap. Qed.

Lemma demote_fields (e : ValidatorEntry) :
  PubKey (demote e) = PubKey e /\ StakeNAPR (demote e) = StakeNAPR e /\
  UnbondingQueue (demote e) = UnbondingQueue e /\ StakeGeneration (demote e) = StakeGeneration e /\
  StakeAuthNonce (demote e) = StakeAuthNonce e /\ Seeded (demote e) = false.
Proof. unfold demote. destruct (Seeded e) eqn:E; split_and!; try done. Qed.

Lemma sum_queue (q : list UnbondingEntry) (a : Z) :
  0 <= a -> Forall (fun ub => 0 <= ub_Amount ub) q -> a + sumZ ub_Amount q < U64 ->
  foldl (fun total ub => total +w ub_Amount ub) a q = a + sumZ ub_Amount q.
Proof.
  revert a. induction q as [|x q IH]; intros a Ha Hq Hb; simpl in *; [lia|].
  inversion Hq; subst. assert (0 <= sumZ ub_Amount q).
  { apply sumZ_nonneg. intros y Hy. rewrite list.Forall_forall in H2. by apply H2. }
  rewrite wrap64_small by u64lia. rewrite IH by (done || lia). lia.
Qed.

(** A partial withdrawal moves stake into the unbonding queue and loses
    none: stake plus queued amounts are unchanged, the rest stays at or above the
    minimum, the amount is locked for the unbonding period, status, generation
    and nonce are kept, and no other validator changes. *)
Theorem partial_withdraw_conserves (r r' : Registry) (key : string) (amount height : Z) (e : ValidatorEntry) :
  validators r !! key = Some e -> is_u64 amount -> is_u64 (StakeNAPR e) ->
  Forall (fun ub => 0 <= ub_Amount ub) (UnbondingQueue e) ->
  StakeNAPR e + sumZ ub_Amount (UnbondingQueue e) < U64 ->
  applyPartialWithdraw key amount height r = Ok r' ->
  exists e', validators r' = <[key := e']> (validators r) /\
    StakeNAPR e' + PendingUnbondingNAPR e' = StakeNAPR e + PendingUnbondingNAPR e /\
    effectiveMin r <= StakeNAPR e' < StakeNAPR e /\
    UnbondingQueue e' = UnbondingQueue e ++ [mkUnbonding amount (height +w PartialUnbondingBlocks)] /\
    Status e' = Status e /\ StakeGeneration e' = StakeGeneration e /\
    StakeAuthNonce e' = StakeAuthNonce e /\ gone (Status e) = false.
Proof.
  intros He Ha Hs Hq Hb Hp. unfold applyPartialWithdraw in Hp. rewrite He in Hp.
  apply reject_ok in Hp as [Hg Hp]. apply reject_ok in Hp as [Hz Hp]. apply reject_ok in Hp as [Hle Hp].
  apply reject_ok in Hp as [Hmin Hp]. zbool. apply Ok_inj in Hp as <-.
  rewrite wrap64_small in * by u64lia. eexists. split; [reflexivity|].
  cbn [StakeNAPR UnbondingQueue Status StakeGeneration StakeAuthNonce].
  assert (0 <= sumZ ub_Amount (UnbondingQueue e)).
  { apply sumZ_nonneg. intros y Hy. rewrite list.Forall_forall in Hq. by apply Hq. }
  split_and!; try done; try lia; [|u64lia]. unfold PendingUnbondingNAPR. cbn [UnbondingQueue].
  assert (Hsum : sumZ ub_Amount (UnbondingQueue e ++ [mkUnbonding amount (height +w PartialUnbondingBlocks)])
                 = sumZ ub_Amount (UnbondingQueue e) + amount) by (rewrite sumZ_app; simpl; lia).
  rewrite (sum_queue (UnbondingQueue e)) by (done || u64lia).
  rewrite sum_queue; [rewrite Hsum; lia|lia| |rewrite Hsum; u64lia].
  apply list.Forall_app. split; [done|]. constructor; [simpl; u64lia|constructor].
Qed.

(** A deposit the registry accepts lies between the minimum and the cap; it
    adds exactly the amount to a registered validator (or opens a pending entry,
    or replaces a sentinel), always under a fresh collateral generation, and
    afterwards no sentinel is left. *)
Theorem deposit_effect (r r' : Registry) (key : string) (pub : ValidatorPubKey) (amount height : Z) :
  is_u64 amount -> (forall e, validators r !! key = Some e -> is_u64 (StakeNAPR e) /\ is_u64 (StakeGeneration e)) ->
  applyDeposit key pub amount height r = Ok r' ->
  effectiveMin r <= amount <= MaxStakeNAPR /\
  (exists e', validators r' !! key = Some e' /\ Seeded e' = false /\
    match validators r !! key with
    | Some e => gone (Status e) = false /\ StakeAuthNonce e' = StakeAuthNonce e /\
        if Seeded e then StakeNAPR e' = amount /\ Status e' = ValidatorPending
        else StakeNAPR e' = StakeNAPR e + amount /\ StakeGeneration e' = StakeGeneration e + 1 /\
             Status e' = Status e
    | None => StakeNAPR e' = amount /\ Status e' = ValidatorPending /\ StakeGeneration e' = 1 /\
        StakeAuthNonce e' = 0
    end) /\
  (forall k, k <> key -> validators r' !! k = demote <$> validators r !! k) /\
  (forall k e, validators r' !! k = Some e -> Seeded e = false).
Proof.
  intros Ha Hu Hd. unfold applyDeposit in Hd. apply reject_ok in Hd as [Hmin Hd].
  apply reject_ok in Hd as [Hmax Hd]. zbool. split; [lia|].
  assert (Hshape : exists e0, validators r' = demote <$> <[key := e0]> (validators r) /\ Seeded e0 = false /\
    match validators r !! key with
    | Some e => gone (Status e) = false /\ StakeAuthNonce e0 = StakeAuthNonce e /\
        if Seeded e then StakeNAPR e0 = amount /\ Status e0 = ValidatorPending
        else StakeNAPR e0 = StakeNAPR e + amount /\ StakeGeneration e0 = StakeGeneration e + 1 /\
             Status e0 = Status e
    | None => StakeNAPR e0 = amount /\ Status e0 = ValidatorPending /\ StakeGeneration e0 = 1 /\
        StakeAuthNonce e0 = 0
    end).
  { destruct (validators r !! key) as [e|] eqn:Ek; [|injection Hd as <-; by eexists].
    destruct (Hu e eq_refl) as [Hst Hge]. apply reject_ok in Hd as [Hg Hd].
    destruct (Seeded e) eqn:Es; [injection Hd as <-; by eexists|].
    apply reject_ok in Hd as [Hov Hd]. apply reject_ok in Hd as [Hgen Hd]. zbool. injection Hd as <-.
    exists (top_up e amount). unfold top_up. cbn [Seeded StakeAuthNonce StakeNAPR StakeGeneration Status].
    rewrite !wrap64_small by u64lia. done. }
  destruct Hshape as (e0 & Hv & Hs0 & Hm). rewrite Hv. split_and!.
  - exists e0. rewrite lookup_fmap, lookup_insert_eq. simpl. unfold demote. by rewrite Hs0.
  - intros k Hk. by rewrite lookup_fmap, lookup_insert_ne.
  - intros k e. rewrite lookup_fmap. intros [x [_ ->]]%fmap_Some. apply demote_fields.
Qed.

Definition cap_pub : ValidatorPubKey := replicate 32 x07.
Definition cap_registry : Registry :=
  with_validators (fun _ => {[ pub_hex cap_pub := mkEntry cap_pub MaxStakeNAPR ValidatorActive 1 0 [] false 1 0 ]})
    NewValidatorRegistry.

(** The per-validator cap bounds each deposit, not the stake: a validator at the
    cap can top up past it. *)
Theorem stake_cap_not_enforced :
  exists r', applyDeposit (pub_hex cap_pub) cap_pub MaxStakeNAPR 500 cap_registry = Ok r' /\
    StakeNAPR <$> validators r' !! pub_hex cap_pub = Some (2 * MaxStakeNAPR).
Proof. eexists. split; vm_compute; reflexivity. Qed.

(** ** Witnesses *)

Definition pw_pub : ValidatorPubKey := replicate 32 x09.
Definition pw_entry : ValidatorEntry :=
  mkEntry pw_pub 30000000000000 ValidatorActive 1 0 [mkUnbonding 5 10] false 1 0.
Definition pw_registry : Registry :=
  with_validators (fun _ => {[ pub_hex pw_pub := pw_entry ]}) NewValidatorRegistry.
Definition pw_after : Registry :=
  match applyPartialWithdraw (pub_hex pw_pub) 7 100 pw_registry with Ok r => r | Err _ => pw_registry end.
Definition dep_after : Registry :=
  match applyDeposit (pub_hex pw_pub) pw_pub 10000000000000 100 pw_registry with Ok r => r | Err _ => pw_registry end.

Lemma partial_withdraw_conserves_witness :
  exists e', validators pw_after = <[pub_hex pw_pub := e']> (validators pw_registry) /\
    StakeNAPR e' + PendingUnbondingNAPR e' = 30000000000005.
Proof.
  destruct (partial_withdraw_conserves pw_registry pw_after (pub_hex pw_pub) 7 100 pw_entry)
    as (e' & Hv & Hc & _); [vm_compute; reflexivity|u64lia|simpl; u64lia| |simpl; lia| |].
  - constructor; [simpl; lia|constructor].
  - apply ok_value. vm_compute. reflexivity.
  - exists e'. split; [exact Hv|]. rewrite Hc. vm_compute. reflexivity.
Defined.

Lemma deposit_effect_witness :
  effectiveMin pw_registry <= 10000000000000 <= MaxStakeNAPR /\
  StakeNAPR <$> validators dep_after !! pub_hex pw_pub = Some 40000000000000.
Proof.
  split; [|vm_compute; reflexivity].
  refine (proj1 (deposit_effect pw_registry dep_after (pub_hex pw_pub) pw_pub 10000000000000 100 _ _ _)).
  - u64lia.
  - intros e He. vm_compute in He. injection He as <-. simpl. u64lia.
  - apply ok_value. vm_compute. reflexivity.
Defined.

End Staking.
