(* ===== verification/StakingAtomic.v ===== *)
(** Block atomicity of the validator registry: [ApplyBlockStakeTxs] of
    [core/staking.go] either applies every stake transaction of a block or leaves
    registry and UTXO set as they were, and its rollback closure undoes it. *)

From stdpp Require Import base gmap list strings sorting.
From S2P Require Import Prelude Bytes Undo Crypto Avm StakePayload Transaction Utxo UtxoRollback Staking.
Import Undo Transaction StakePayload Utxo UtxoRollback Staking.

Module StakingAtomic.

(** ** Burned collateral *)

(** The outpoint a stake transaction names as collateral. *)
Definition collateral (tx : Transaction) : option UTXOKey :=
  let outpoint d := (burnTxHash d, burnOutIdx d) in
  if len_is (Extra tx) StakePayloadSizeV2 then
    match DecodeStakeExtraV2 (Extra tx) with Ok d => Some (outpoint d) | Err _ => None end
  else if len_is (Extra tx) StakePayloadSizeV3 then
    match DecodeStakeExtraV3 (Extra tx) with Ok (d, _) => Some (outpoint d) | Err _ => None end
  else if len_is (Extra tx) StakePayloadSizeV4 then
    match DecodeStakeExtraV4 (Extra tx) with Ok (d, _, _) => Some (outpoint d) | Err _ => None end
  else None.

(** An active output under [k] is filed under its own outpoint and one-time key. *)
Definition filed (s : UTXOSet) (k : UTXOKey) : Prop :=
  forall u, utxos s !! k = Some u -> key_of u = k /\ byPubKey s !! u_OneTimePub u = Some u.

Definition by_pub (L : list (UTXOKey * UTXO)) : list (Point32 * UTXO) :=
  (fun ku => (u_OneTimePub (snd ku), snd ku)) <$> L.

(** [s] is [s0] after burning [L], oldest first. *)
Record burned (s0 : UTXOSet) (L : list (UTXOKey * UTXO)) (s : UTXOSet) : Prop := {
  bu_utxos : undoes (utxos s0) L [] (utxos s);
  bu_pubs : undoes (byPubKey s0) (by_pub L) [] (byPubKey s);
  bu_filed : forall k u, (k, u) ∈ L -> key_of u = k /\ byPubKey s0 !! u_OneTimePub u = Some u;
  bu_fresh : NoDup L.*1 /\ (forall k, k ∈ L.*1 -> stakedUTXOs s0 !! k = None);
  bu_staked : stakedUTXOs s = put_all L (stakedUTXOs s0);
  bu_frame : keyImages s = keyImages s0 /\ spentPubKeys s = spentPubKeys s0 /\
    rollbackJournal s = rollbackJournal s0 /\ clsagActivationHeight s = clsagActivationHeight s0 /\
    clsagRecentOutputs s = clsagRecentOutputs s0
}.

Lemma burned_init (s : UTXOSet) : burned s [] s.
Proof.
  constructor; try done; try apply undoes_init; [set_solver|].
  split; [constructor|set_solver].
Qed.

Lemma undone_nil `{Countable K} {A} (m0 m : gmap K A) l : undoes m0 l [] m -> put_all l m = m0.
Proof. by intros [Hu _]. Qed.

(** An output still active was active before, and its one-time key still leads to it. *)
Lemma burned_active (s0 s : UTXOSet) L k u :
  burned s0 L s -> filed s0 k -> utxos s !! k = Some u ->
  utxos s0 !! k = Some u /\ key_of u = k /\ byPubKey s0 !! u_OneTimePub u = Some u /\
  byPubKey s !! u_OneTimePub u = Some u /\ k ∉ L.*1.
Proof.
  intros Hb Hf Hk. assert (Hn : k ∉ L.*1).
  { intros Hin. by rewrite (proj2 (bu_utxos _ _ _ Hb) k Hin) in Hk. }
  assert (H0 : utxos s0 !! k = Some u).
  { rewrite <- (undone_nil _ _ _ (bu_utxos _ _ _ Hb)). by rewrite put_all_ne. }
  destruct (Hf u H0) as [Hkey Hpub]. split_and!; try done.
  rewrite <- (undone_nil _ _ _ (bu_pubs _ _ _ Hb)), put_all_ne in Hpub; [done|].
  intros Hin. apply Hn. unfold by_pub in Hin. rewrite <- list_fmap_compose in Hin.
  apply list_elem_of_fmap in Hin as ([k' u'] & Hp & Hin). simpl in Hp.
  destruct (bu_filed _ _ _ Hb k' u' Hin) as [Hk' Hp']. rewrite <- Hp in Hp'.
  destruct (Hf u H0) as [_ Hpub0]. assert (u = u') as <- by congruence.
  rewrite <- Hkey, Hk'. apply list_elem_of_fmap. by exists (k', u).
Qed.

Lemma burned_mark (s0 s s1 : UTXOSet) L txHash outIdx :
  burned s0 L s -> filed s0 (txHash, outIdx) -> MarkStaked txHash outIdx s = Ok s1 ->
  exists u, burned s0 (L ++ [((txHash, outIdx), u)]) s1.
Proof.
  intros Hb Hf Hm. apply mark_staked_inv in Hm as (u & Hu & Hst & ->). exists u.
  destruct (burned_active _ _ _ _ _ Hb Hf Hu) as (H0 & Hkey & Hp0 & Hp & Hn).
  destruct Hb as [B1 B2 B3 [B4 B4'] B5 B6]. constructor; simpl; try done.
  - by apply undoes_spend.
  - unfold by_pub. rewrite fmap_app. by apply undoes_spend.
  - intros k' u' [Hin|Hin]%elem_of_app; [by apply B3|]. apply list_elem_of_singleton in Hin. by simplify_eq.
  - rewrite fmap_app. split.
    + apply list.NoDup_app. split_and!; [done| |apply NoDup_singleton].
      intros x Hx Hx'. apply list_elem_of_singleton in Hx' as ->. done.
    + intros k' [Hin|Hin]%elem_of_app; [by apply B4'|]. apply list_elem_of_singleton in Hin as ->. simpl.
      by rewrite B5, put_all_ne in Hst.
  - by rewrite put_all_snoc, B5.
Qed.

(** ** Undoing the burns *)

(** Unmarking the keys of [L] in order puts every binding back. *)
Lemma unmark_list (L : list (UTXOKey * UTXO)) (st0 : gmap UTXOKey UTXO) (s : UTXOSet) :
  stakedUTXOs s = put_all L st0 -> NoDup L.*1 -> (forall k, k ∈ L.*1 -> st0 !! k = None) ->
  foldl (fun s k => UnmarkStaked (fst k) (snd k) s) s L.*1 =
  mkSet (put_all L (utxos s)) (keyImages s) (put_all (by_pub L) (byPubKey s)) st0 (spentPubKeys s)
    (rollbackJournal s) (clsagActivationHeight s) (clsagRecentOutputs s).
Proof.
  revert s. induction L as [|[[h i] u] L IH]; intros s Hst Hnd Hfr.
  - destruct s. simpl in *. by rewrite Hst.
  - rewrite fmap_cons in *. apply list.NoDup_cons in Hnd as [Hn Hnd]. cbn [foldl fst snd].
    assert (Hk : stakedUTXOs s !! (h, i) = Some u).
    { rewrite Hst. change (put_all (((h, i), u) :: L) st0) with (put_all L (<[(h, i) := u]> st0)).
      rewrite put_all_ne by done. apply lookup_insert_eq. }
    unfold UnmarkStaked at 2. rewrite Hk. rewrite IH; [done| |done|].
    + simpl. rewrite Hst. change (put_all (((h, i), u) :: L) st0) with (put_all L (<[(h, i) := u]> st0)).
      rewrite <- put_all_delete by done. rewrite delete_insert_id; [done|]. apply Hfr. set_solver.
    + intros k Hin. apply Hfr. set_solver.
Qed.

Lemma burned_undo (s0 s : UTXOSet) L :
  burned s0 L s -> foldl (fun s k => UnmarkStaked (fst k) (snd k) s) s L.*1 = s0.
Proof.
  intros [B1 B2 _ [B4 B4'] B5 (F1 & F2 & F3 & F4 & F5)]. rewrite (unmark_list L (stakedUTXOs s0)) by done.
  rewrite (undone_nil _ _ _ B1), (undone_nil _ _ _ B2), F1, F2, F3, F4, F5. by destruct s0.
Qed.

Lemma burned_unmark (s0 s s1 : UTXOSet) L txHash outIdx :
  burned s0 L s -> filed s0 (txHash, outIdx) -> MarkStaked txHash outIdx s = Ok s1 ->
  UnmarkStaked txHash outIdx s1 = s.
Proof.
  intros Hb Hf Hm. destruct (mark_staked_inv _ _ _ _ Hm) as (u & Hu & _).
  destruct (burned_active _ _ _ _ _ Hb Hf Hu) as (_ & _ & _ & Hp & _). by eapply unmark_marked.
Qed.

(** ** The registry *)

(** [r'] is [r] but for the entries. *)
Definition only_entries (r r' : Registry) : Prop := r' = with_validators (fun _ => validators r') r.

(** [r] is [r0] with the outputs [L] burned, whatever its entries. *)
Definition burned_reg (r0 : Registry) (L : list (UTXOKey * UTXO)) (r : Registry) : Prop :=
  match r_utxos r0, r_utxos r with
  | Some s0, Some s => burned s0 L s
  | None, None => L = []
  | _, _ => False
  end /\ SetUTXOSet (r_utxos r0) (with_validators (fun _ => validators r0) r) = r0.

Lemma burned_reg_init (r : Registry) : burned_reg r [] r.
Proof. split; [destruct (r_utxos r); [apply burned_init|done]|by destruct r]. Qed.

Lemma burned_reg_entries (r0 r r' : Registry) L :
  burned_reg r0 L r -> only_entries r r' -> burned_reg r0 L r'.
Proof. unfold only_entries. intros [H1 H2] ->. by split. Qed.

Section Apply.
Context `{Crypto}.

Lemma deposit_only_entries key pub amount height (r r' : Registry) :
  applyDeposit key pub amount height r = Ok r' -> only_entries r r'.
Proof.
  unfold applyDeposit. intros Hd. apply reject_ok in Hd as [_ Hd]. apply reject_ok in Hd as [_ Hd].
  destruct (validators r !! key) as [e|]; [|by apply Ok_inj in Hd as <-].
  apply reject_ok in Hd as [_ Hd]. destruct (Seeded e); [by apply Ok_inj in Hd as <-|].
  apply reject_ok in Hd as [_ Hd]. apply reject_ok in Hd as [_ Hd]. by apply Ok_inj in Hd as <-.
Qed.

Lemma withdraw_only_entries key height (r r' : Registry) :
  applyWithdraw key height r = Ok r' -> only_entries r r'.
Proof.
  unfold applyWithdraw. destruct (validators r !! key) as [e|]; [|done].
  intros Hd. apply reject_ok in Hd as [_ Hd]. by apply Ok_inj in Hd as <-.
Qed.

Lemma partial_only_entries key amount height (r r' : Registry) :
  applyPartialWithdraw key amount height r = Ok r' -> only_entries r r'.
Proof.
  unfold applyPartialWithdraw. destruct (validators r !! key) as [e|]; [|done].
  intros Hd. do 4 apply reject_ok in Hd as [_ Hd]. by apply Ok_inj in Hd as <-.
Qed.

Lemma legacy_only_entries height p (r r' : Registry) :
  legacy_withdrawal r height p = Ok r' -> only_entries r r'.
Proof.
  unfold legacy_withdrawal. intros Hd. do 3 apply reject_ok in Hd as [_ Hd].
  case_bool_decide; [by eapply withdraw_only_entries|].
  case_bool_decide; [by eapply partial_only_entries|done].
Qed.

Lemma withdrawal_v2_only_entries a height (r r' : Registry) :
  applyWithdrawalV2Locked a height r = Ok r' -> only_entries r r'.
Proof.
  unfold applyWithdrawalV2Locked. intros Hd. apply bind_ok in Hd as (e & _ & Hd).
  apply bind_ok in Hd as (r1 & Hr1 & Hd). apply Ok_inj in Hd as <-.
  assert (Ho : only_entries r r1).
  { case_bool_decide; [apply reject_ok in Hr1 as [_ Hr1]; by eapply withdraw_only_entries|].
    case_bool_decide; [by eapply partial_only_entries|done]. }
  unfold only_entries in *. by rewrite Ho.
Qed.

(** What one stake transaction leaves, whether it is applied or refused. *)
Definition outcome (r0 : Registry) (L : list (UTXOKey * UTXO)) (res : Registry * result (option UTXOKey)) : Prop :=
  match res with
  | (r', Ok (Some k)) => exists u, burned_reg r0 (L ++ [(k, u)]) r'
  | (r', _) => burned_reg r0 L r'
  end.

Lemma plain_outcome r0 L r m :
  burned_reg r0 L r -> (forall r', m = Ok r' -> only_entries r r') -> outcome r0 L (plain r m).
Proof. intros Hb Ho. destruct m as [r'|e]; simpl; [|done]. by eapply burned_reg_entries, Ho. Qed.

Lemma guarded_outcome {A} r0 L r (m : result A) k :
  burned_reg r0 L r -> outcome r0 L k -> outcome r0 L (guarded r m k).
Proof. intros Hb Hk. by destruct m. Qed.

Definition filed_reg (r : Registry) (k : UTXOKey) : Prop :=
  match r_utxos r with Some s => filed s k | None => True end.

Lemma burn_outcome r0 L r d height :
  burned_reg r0 L r -> filed_reg r0 (burnTxHash d, burnOutIdx d) ->
  outcome r0 L (burn_and_deposit d height r).
Proof.
  intros Hb Hf. destruct (Hb) as [Hs Hfr]. unfold burn_and_deposit, reg_MarkStaked, filed_reg in *.
  destruct (r_utxos r) as [s|] eqn:Es; [|by simpl]. destruct (r_utxos r0) as [s0|] eqn:Es0; [|done].
  destruct (MarkStaked (burnTxHash d) (burnOutIdx d) s) as [s1|e] eqn:Em; [|by simpl].
  cbn [mbind result_bind].
  destruct (applyDeposit _ _ _ _ _) as [r2|e] eqn:Ed.
  - destruct (burned_mark _ _ _ _ _ _ Hs Hf Em) as [u Hu]. exists u.
    eapply burned_reg_entries; [|by eapply deposit_only_entries].
    split; simpl; [by rewrite Es0|]. rewrite <- Hfr at 2. by rewrite Es0.
  - simpl. unfold reg_UnmarkStaked. simpl. rewrite (burned_unmark _ _ _ _ _ _ Hs Hf Em), <- Es.
    by replace (SetUTXOSet (r_utxos r) (SetUTXOSet (Some s1) r)) with r by by destruct r.
Qed.

Lemma apply_one_outcome r0 L height r tx :
  burned_reg r0 L r -> (forall k, collateral tx = Some k -> filed_reg r0 k) ->
  outcome r0 L (applyOneTxLocked height r tx).
Proof.
  intros Hb Hf. unfold applyOneTxLocked, collateral in *. destruct (IsStake tx); [|done]. cbn [negb].
  destruct (len_is (Extra tx) StakePayloadSize).
  { apply plain_outcome; [done|]. intros r' Hd. apply bind_ok in Hd as (p & _ & Hd). by eapply legacy_only_entries. }
  destruct (len_is (Extra tx) StakeWithdrawalPayloadSizeV2).
  { apply plain_outcome; [done|]. intros r' Hd. apply bind_ok in Hd as (p & _ & Hd).
    by eapply withdrawal_v2_only_entries. }
  destruct (len_is (Extra tx) StakePayloadSizeV2).
  { destruct (DecodeStakeExtraV2 _) as [d|]; [|done]. apply guarded_outcome, burn_outcome; auto. }
  destruct (len_is (Extra tx) StakePayloadSizeV3).
  { destruct (DecodeStakeExtraV3 _) as [[d ots]|]; [|done]. apply guarded_outcome, burn_outcome; auto. }
  destruct (len_is (Extra tx) StakePayloadSizeV4); [|done].
  destruct (DecodeStakeExtraV4 _) as [[[d ki] proof]|]; [|done]. apply guarded_outcome, burn_outcome; auto.
Qed.

Lemma apply_loop_outcome r0 height txs : forall L r r' keys res,
  burned_reg r0 L r -> (forall tx k, tx ∈ txs -> collateral tx = Some k -> filed_reg r0 k) ->
  apply_loop height txs r L.*1 = (r', keys, res) ->
  exists L', keys = L'.*1 /\ burned_reg r0 L' r'.
Proof.
  induction txs as [|tx txs IH]; intros L r r' keys res Hb Hf Hl; simpl in Hl; [simplify_eq; by eauto|].
  assert (Hrest : forall tx k, tx ∈ txs -> collateral tx = Some k -> filed_reg r0 k)
    by (intros x k Hx; apply Hf; by constructor).
  destruct (IsStake tx); cbn [negb] in Hl; [|by eapply IH].
  assert (Hone := apply_one_outcome r0 L height r tx Hb (fun k => Hf tx k (list_elem_of_here _ _))).
  destruct (applyOneTxLocked height r tx) as [r1 [[k|]|e]]; simpl in Hone.
  - destruct Hone as [u Hu]. eapply (IH (L ++ [(k, u)])); [done..|]. by rewrite fmap_app.
  - by eapply IH.
  - simplify_eq. by eauto.
Qed.

Lemma unmark_all_reg (keys : list UTXOKey) (r : Registry) :
  unmark_all keys r =
  SetUTXOSet ((fun s => foldl (fun s k => UnmarkStaked (fst k) (snd k) s) s keys) <$> r_utxos r) r.
Proof.
  revert r. unfold unmark_all. induction keys as [|k keys IH]; intros r; simpl.
  - destruct r as [? ? [s|] ? ? ? ? ?]; done.
  - rewrite IH. by destruct r as [? ? [s|] ? ? ? ? ?].
Qed.

Lemma rollback_burned (r0 r : Registry) L :
  burned_reg r0 L r -> stake_rollback (validators r0) L.*1 r = r0.
Proof.
  intros [Hs Hfr]. unfold stake_rollback. rewrite unmark_all_reg. cbn [r_utxos with_validators].
  etransitivity; [|exact Hfr]. f_equal. destruct (r_utxos r0) as [s0|], (r_utxos r) as [s|]; try done.
  simpl. f_equal. by apply burned_undo.
Qed.

(** C13: the stake transactions of a block are applied all or none, when every active
    output that a deposit of the block names as collateral is filed in the UTXO set
    under its own outpoint and its one-time key: on an error the registry and its UTXO
    set are exactly as before the block; on success the returned closure, if run on the
    new state, restores them exactly. *)
Theorem stake_block_atomic (txs : list Transaction) (height : Z) (r r' : Registry)
    (res : result (Registry -> Registry)) :
  (forall tx k, tx ∈ txs -> collateral tx = Some k -> filed_reg r k) ->
  ApplyBlockStakeTxs txs height r = (r', res) ->
  match res with Ok rollback => rollback r' = r | Err _ => r' = r end.
Proof.
  intros Hf Ha. unfold ApplyBlockStakeTxs in Ha.
  destruct (negb (existsb IsStake txs)); [by simplify_eq|].
  destruct (apply_loop height txs r []) as [[r1 keys] out] eqn:El.
  destruct (apply_loop_outcome r height txs [] r r1 keys out) as (L & -> & Hb);
    [apply burned_reg_init|done|done|].
  destruct out; simplify_eq; by apply rollback_burned.
Qed.

End Apply.

(** ** Witness *)

(** Two outputs worth the minimum stake, and version 3 deposits that burn them. *)
Definition ex_out (n : byte) : UTXO :=
  mkUTXO (copy_arr 32 [n]) 0 (copy_arr 32 [n]) (zero_arr 32)
    (default (zero_arr 32) (Commit (Crypto := toy_crypto) MinStakeNAPR (copy_arr 32 [n]))) (zero_arr 8) 1 false.
Definition ex_stake_tx (pub n own : byte) : Transaction :=
  mkTx TxVersionStake [] [] 0 (zero_arr 32) [] [] []
    (match EncodeStakeExtraV3 (mkDeposit StakeDeposit (replicate 32 pub) MinStakeNAPR
             (pub :: replicate 63 x00) (copy_arr 32 [n]) 0 (copy_arr 32 [n])) (own :: replicate 63 x00) with
     | Ok b => b | Err _ => [] end) None.
Definition ex_registry : Registry :=
  SetUTXOSet (Some (Add (ex_out x01) (Add (ex_out x02) NewUTXOSet))) NewValidatorRegistry.
(** The second transaction does not prove ownership of its output. *)
Definition ex_bad_block : list Transaction := [ex_stake_tx xaa x01 x01; ex_stake_tx xbb x02 x05].
Definition ex_good_block : list Transaction := [ex_stake_tx xaa x01 x01; ex_stake_tx xbb x02 x02].

Lemma ex_utxos : utxos (Add (ex_out x01) (Add (ex_out x02) NewUTXOSet)) =
  <[key_of (ex_out x01) := ex_out x01]> (<[key_of (ex_out x02) := ex_out x02]> ∅).
Proof. reflexivity. Qed.

Lemma ex_filed (txs : list Transaction) : forall tx k, tx ∈ txs -> collateral tx = Some k -> filed_reg ex_registry k.
Proof.
  intros tx k _ _ u Hu. rewrite ex_utxos in Hu. remember (ex_out x01) as o1 eqn:E1. remember (ex_out x02) as o2 eqn:E2.
  apply lookup_insert_Some in Hu as [[<- <-]|[_ Hu]].
  - split; [done|]. subst. apply (bool_decide_unpack _). vm_compute. exact I.
  - apply lookup_insert_Some in Hu as [[<- <-]|[_ Hu]]; [|done].
    split; [done|]. subst. apply (bool_decide_unpack _). vm_compute. exact I.
Qed.

Lemma stake_block_atomic_witness :
  let bad := ApplyBlockStakeTxs (H := toy_crypto) ex_bad_block 7 ex_registry in
  let good := ApplyBlockStakeTxs (H := toy_crypto) ex_good_block 7 ex_registry in
  is_ok (snd bad) = false /\ fst bad = ex_registry /\
  is_ok (snd good) = true /\ size (validators (fst good)) = 2%nat /\
  match snd good with Ok rollback => rollback (fst good) = ex_registry | Err _ => False end.
Proof.
  intros bad good. split_and!; [vm_compute; reflexivity| |vm_compute; reflexivity|vm_compute; reflexivity|].
  - assert (Hok : is_ok (snd bad) = false) by (vm_compute; reflexivity).
    assert (Hm := stake_block_atomic (H := toy_crypto) ex_bad_block 7 ex_registry (fst bad) (snd bad)
      (ex_filed _) (surjective_pairing _)).
    destruct (snd bad); [discriminate Hok|exact Hm].
  - assert (Hok : is_ok (snd good) = true) by (vm_compute; reflexivity).
    assert (Hm := stake_block_atomic (H := toy_crypto) ex_good_block 7 ex_registry (fst good) (snd good)
      (ex_filed _) (surjective_pairing _)).
    destruct (snd good); [exact Hm|discriminate Hok].
Defined.

End StakingAtomic.
