(* ===== verification/StakingBlock.v ===== *)
(** The block dry run: [ValidateBlockStakeTxs] of [core/staking.go], and its
    agreement with [ApplyBlockStakeTxs]. *)

From stdpp Require Import base gmap list strings sorting.
From S2P Require Import Prelude Bytes Crypto Avm StakePayload Transaction Utxo UtxoRollback Staking StakingAtomic.
Import Transaction StakePayload Utxo UtxoRollback Staking StakingAtomic.

Module StakingBlock.

(** ** The dry run *)

Record shadowEntry := mkShadow {
  sh_stakeNAPR : Z; sh_status : ValidatorStatus; sh_generation : Z; sh_nonce : Z; sh_seeded : bool
}.

#[global] Instance shadowEntry_eq_dec : EqDecision shadowEntry.
Proof. solve_decision. Defined.

Definition shadow_of (v : ValidatorEntry) : shadowEntry :=
  mkShadow (StakeNAPR v) (Status v) (StakeGeneration v) (StakeAuthNonce v) (Seeded v).

(** The state of the dry run.  The transaction indexes the two reservation maps
    hold only appear in messages. *)
Record DryRun := mkDryRun {
  snapshot : gmap string shadowEntry;
  reserved : gset UTXOKey;
  reservedKeyImages : gset KeyImage
}.

Definition set_snapshot (key : string) (se : shadowEntry) (st : DryRun) : DryRun :=
  mkDryRun (<[key := se]> (snapshot st)) (reserved st) (reservedKeyImages st).

Section DryRun.
Context `{Crypto}.

(** The key images of the block's ordinary inputs. *)
Definition blockInputKeyImages (txs : list Transaction) : gset KeyImage :=
  list_to_set (omap (fun inp => CanonicalKeyImage (in_KeyImage inp))
    (concat (Inputs <$> filter (fun tx => IsStake tx = false) txs))).

Definition dry_withdraw (se : shadowEntry) : result shadowEntry :=
  reject gone (sh_status se) with "validator already unbonding/exited" ;;
  Ok (mkShadow (sh_stakeNAPR se) ValidatorUnbonding (sh_generation se) (sh_nonce se) (sh_seeded se)).

Definition dry_partial (effMin amount : Z) (se : shadowEntry) : result shadowEntry :=
  reject gone (sh_status se) with "validator is unbonding/exited; cannot partial withdraw" ;;
  reject amount =? 0 with "partial withdraw amount must be > 0" ;;
  reject sh_stakeNAPR se <=? amount with "withdrawal amount >= current stake" ;;
  let remaining := sh_stakeNAPR se -w amount in
  reject remaining <? effMin with "remaining stake < minimum" ;;
  Ok (mkShadow remaining (sh_status se) (sh_generation se) (sh_nonce se) (sh_seeded se)).

(** Version 1 withdrawals. *)
Definition dry_v1 (r : Registry) (height : Z) (st : DryRun) (p : StakeExtra) : result DryRun :=
  reject bool_decide (se_action p = StakeDeposit) with "StakeDeposit requires v2 payload with UTXO proof" ;;
  reject negb (stakeWithdrawalActivation r =? 0) && (stakeWithdrawalActivation r <=? height)
    with "legacy withdrawal disabled after attested v2 activation" ;;
  reject negb (verifyValidatorSignature r (se_pub p) height
                 (StakeSignMsg (se_action p) (se_pub p) (se_amount p)) (se_sig p))
    with "invalid signature" ;;
  let key := pub_hex (se_pub p) in
  if bool_decide (se_action p = StakeWithdraw) then
    need se from snapshot st !! key else "validator not registered" ;;
    se' ← dry_withdraw se; Ok (set_snapshot key se' st)
  else if bool_decide (se_action p = StakePartialWithdraw) then
    need se from snapshot st !! key else "validator not registered" ;;
    se' ← dry_partial (effectiveMin r) (se_amount p) se; Ok (set_snapshot key se' st)
  else Err "unknown action".

(** Version 2 withdrawals. *)
Definition dry_withdrawal_v2 (r : Registry) (height : Z) (st : DryRun) (a : StakeWithdrawalAuthorizationV2)
    : result DryRun :=
  reject (stakeWithdrawalActivation r =? 0) || (height <? stakeWithdrawalActivation r) ||
         negb (bool_decide (wa_Genesis a = stakeWithdrawalGenesis r)) || (wa_ExpiryHeight a <? height) ||
         (StakeWithdrawalMaxExpiryBlocks <? (wa_ExpiryHeight a -w height)) ||
         negb (verifyValidatorSignature r (wa_PubKey a) height (StakeWithdrawalSignMsgV2 a) (wa_Signature a))
    with "invalid, expired, cross-chain, or pre-activation v2 withdrawal" ;;
  let key := pub_hex (wa_PubKey a) in
  need se from snapshot st !! key else "stale validator nonce, generation, or stake reference" ;;
  reject sh_seeded se || (sh_nonce se =? MaxUint64) || negb (wa_Nonce a =? sh_nonce se +w 1) ||
         negb (wa_Generation a =? sh_generation se) ||
         negb (bool_decide (wa_StakeRef a =
           StakeReferenceV2 (wa_Genesis a) (wa_PubKey a) (sh_generation se) (sh_stakeNAPR se)))
    with "stale validator nonce, generation, or stake reference" ;;
  se' ← (if bool_decide (wa_Action a = StakeWithdraw) then
           reject negb (wa_Amount a =? 0) || gone (sh_status se)
             with "invalid full v2 withdrawal state or amount" ;;
           Ok (mkShadow (sh_stakeNAPR se) ValidatorUnbonding (sh_generation se) (sh_nonce se) (sh_seeded se))
         else if bool_decide (wa_Action a = StakePartialWithdraw) then
           reject (wa_Amount a =? 0) || (sh_stakeNAPR se <=? wa_Amount a) || gone (sh_status se)
             with "invalid partial v2 withdrawal" ;;
           let remaining := sh_stakeNAPR se -w wa_Amount a in
           reject remaining <? effectiveMin r with "partial v2 withdrawal leaves stake below minimum" ;;
           Ok (mkShadow remaining (sh_status se) (sh_generation se) (sh_nonce se) (sh_seeded se))
         else Ok se);
  Ok (set_snapshot key
        (mkShadow (sh_stakeNAPR se') (sh_status se') (sh_generation se') (wa_Nonce a) (sh_seeded se')) st).

(** The stateful deposit checks, the same for versions 2, 3 and 4. *)
Definition dry_deposit (r : Registry) (st : DryRun) (d : DepositExtra) : result DryRun :=
  reject de_amount d <? effectiveMin r with "deposit < minimum" ;;
  reject MaxStakeNAPR <? de_amount d with "deposit exceeds cap" ;;
  let key := pub_hex (de_pub d) in
  se ← match snapshot st !! key with
       | Some se =>
           reject gone (sh_status se) with "validator is unbonding/exited; cannot stake" ;;
           reject MaxUint64 - de_amount d <? sh_stakeNAPR se with "stake top-up overflow" ;;
           reject sh_generation se =? MaxUint64 with "collateral generation exhausted" ;;
           Ok (mkShadow (sh_stakeNAPR se +w de_amount d) (sh_status se) (sh_generation se +w 1)
                 (sh_nonce se) (sh_seeded se))
       | None => Ok (mkShadow (de_amount d) ValidatorPending 1 0 false)
       end;
  Ok (mkDryRun (<[key := se]> (snapshot st)) ({[(burnTxHash d, burnOutIdx d)]} ∪ reserved st)
        (reservedKeyImages st)).

Definition check_reserved (st : DryRun) (d : DepositExtra) : result () :=
  reject bool_decide ((burnTxHash d, burnOutIdx d) ∈ reserved st)
    with "burn UTXO already claimed in this block" ;;
  Ok ().

Definition dry_v4 (r : Registry) (height : Z) (inputs : gset KeyImage) (st : DryRun)
    (d : DepositExtra) (ki : KeyImage) (proof : KeyImageDLEQProof) : result DryRun :=
  _ ← validateStakeDepositV4 r height (stakeKeyImageActivation r) d ki proof true;
  _ ← check_reserved st d;
  need canonical from CanonicalKeyImage ki else "invalid v4 key image" ;;
  reject bool_decide (canonical ∈ inputs) with "collateral key image is also spent in this block" ;;
  reject bool_decide (canonical ∈ reservedKeyImages st) with "collateral key image already reserved" ;;
  st' ← dry_deposit r st d;
  Ok (mkDryRun (snapshot st') (reserved st') ({[canonical]} ∪ reservedKeyImages st')).

(** One stake transaction of the block. *)
Definition dry_tx (r : Registry) (height : Z) (inputs : gset KeyImage) (st : DryRun) (tx : Transaction)
    : result DryRun :=
  let extra := Extra tx in
  if negb (IsStake tx) then Ok st
  else if len_is extra StakePayloadSize then
    p ← DecodeStakeExtra extra; dry_v1 r height st p
  else if len_is extra StakeWithdrawalPayloadSizeV2 then
    a ← DecodeStakeWithdrawalExtraV2 extra; dry_withdrawal_v2 r height st a
  else if len_is extra StakePayloadSizeV2 then
    d ← DecodeStakeExtraV2 extra; _ ← deposit_auth r height d; _ ← check_reserved st d;
    _ ← deposit_utxo_v2 r d; dry_deposit r st d
  else if len_is extra StakePayloadSizeV3 then
    '(d, ots) ← DecodeStakeExtraV3 extra; _ ← deposit_auth r height d; _ ← check_reserved st d;
    _ ← deposit_utxo_v3 r d ots; dry_deposit r st d
  else if len_is extra StakePayloadSizeV4 then
    '(d, ki, proof) ← DecodeStakeExtraV4 extra; dry_v4 r height inputs st d ki proof
  else Err "invalid extra length".

Definition dry_start (r : Registry) : DryRun := mkDryRun (shadow_of <$> validators r) ∅ ∅.

(** The loop, with the state it ends in. *)
Definition dry_run (txs : list Transaction) (height : Z) (r : Registry) : result DryRun :=
  foldM (dry_tx r height (blockInputKeyImages txs)) (dry_start r) txs.

Definition ValidateBlockStakeTxs (txs : list Transaction) (height : Z) (r : Registry) : result () :=
  _ ← dry_run txs height r; Ok ().

End DryRun.

(** ** The dry run decides *)

Definition same_config (r0 r : Registry) : Prop :=
  dynamicMinNAPR r = dynamicMinNAPR r0 /\ stakeWithdrawalGenesis r = stakeWithdrawalGenesis r0 /\
  stakeWithdrawalActivation r = stakeWithdrawalActivation r0 /\
  stakeKeyImageActivation r = stakeKeyImageActivation r0 /\ signatureFork r = signatureFork r0.

(** Outside the reserved outpoints the active and staked outputs are the initial ones. *)
Definition same_outputs (reserved : gset UTXOKey) (o0 o : option UTXOSet) : Prop :=
  match o0, o with
  | Some s0, Some s => forall k, k ∉ reserved ->
      utxos s !! k = utxos s0 !! k /\ stakedUTXOs s !! k = stakedUTXOs s0 !! k
  | None, None => True
  | _, _ => False
  end.

(** The registry [r] the apply loop has reached, seen from the dry run of [r0]. *)
Record simulates (r0 r : Registry) (st : DryRun) : Prop := {
  sim_config : same_config r0 r;
  sim_shadow : forall k, snapshot st !! k = shadow_of <$> validators r !! k;
  sim_seeded : forall k e, validators r !! k = Some e -> Seeded e = false;
  sim_outputs : same_outputs (reserved st) (r_utxos r0) (r_utxos r)
}.

(** No output is both active and staked. *)
Definition unstaked (r : Registry) : Prop :=
  forall s k, r_utxos r = Some s -> is_Some (utxos s !! k) -> stakedUTXOs s !! k = None.

Lemma simulates_init (r : Registry) :
  (forall k e, validators r !! k = Some e -> Seeded e = false) -> simulates r r (dry_start r).
Proof.
  intros Hs. constructor; try done.
  - intros k. apply lookup_fmap.
  - destruct (r_utxos r); simpl; auto.
Qed.

Lemma demote_unseeded (m : gmap string ValidatorEntry) :
  (forall k e, m !! k = Some e -> Seeded e = false) -> demote <$> m = m.
Proof.
  intros Hs. apply map_eq. intros k. rewrite lookup_fmap. destruct (m !! k) as [e|] eqn:E; [|done].
  simpl. unfold demote. by rewrite (Hs k e E).
Qed.

(** Replacing one entry, on both sides. *)
Lemma simulates_entry (r0 r : Registry) (st : DryRun) key e :
  simulates r0 r st -> Seeded e = false ->
  simulates r0 (with_validators <[key := e]> r) (set_snapshot key (shadow_of e) st).
Proof.
  intros [Hc Hsh Hsd Ho] He. constructor; simpl; try done.
  - intros k. destruct (decide (k = key)) as [->|Hne]; [by rewrite !lookup_insert_eq|].
    by rewrite !lookup_insert_ne.
  - intros k e' Hk. apply lookup_insert_Some in Hk as [[_ <-]|[_ Hk]]; [done|by eapply Hsd].
Qed.

Lemma simulates_lookup (r0 r : Registry) (st : DryRun) key se :
  simulates r0 r st -> snapshot st !! key = Some se ->
  exists e, validators r !! key = Some e /\ se = shadow_of e /\ Seeded e = false.
Proof.
  intros Hs Hk. rewrite (sim_shadow _ _ _ Hs) in Hk. apply fmap_Some in Hk as (e & He & ->).
  exists e. split_and!; [done..|]. by eapply sim_seeded.
Qed.

Lemma simulates_min (r0 r : Registry) (st : DryRun) : simulates r0 r st -> effectiveMin r = effectiveMin r0.
Proof. intros Hs. unfold effectiveMin. by destruct (sim_config _ _ _ Hs) as (-> & _). Qed.

Section Refinement.
Context `{Crypto}.

Lemma simulates_signature (r0 r : Registry) (st : DryRun) pub height msg sig :
  simulates r0 r st ->
  verifyValidatorSignature r pub height msg sig = verifyValidatorSignature r0 pub height msg sig.
Proof. intros Hs. unfold verifyValidatorSignature. by destruct (sim_config _ _ _ Hs) as (_ & _ & _ & _ & ->). Qed.

Lemma dry_withdraw_sim r0 r st key height se se' :
  simulates r0 r st -> snapshot st !! key = Some se -> dry_withdraw se = Ok se' ->
  exists r', applyWithdraw key height r = Ok r' /\ simulates r0 r' (set_snapshot key se' st).
Proof.
  intros Hs Hk Hd. destruct (simulates_lookup _ _ _ _ _ Hs Hk) as (e & He & -> & Hse).
  unfold dry_withdraw, applyWithdraw in *. rewrite He. apply reject_ok in Hd as [Hg Hd]. simpl in Hg. rewrite Hg.
  apply Ok_inj in Hd as <-. eexists. split; [reflexivity|]. by apply (simulates_entry r0 r st key (mkEntry _ _ _ _ _ _ _ _ _)).
Qed.

Lemma dry_partial_sim r0 r st key amount height se se' :
  simulates r0 r st -> snapshot st !! key = Some se -> dry_partial (effectiveMin r0) amount se = Ok se' ->
  exists r', applyPartialWithdraw key amount height r = Ok r' /\ simulates r0 r' (set_snapshot key se' st).
Proof.
  intros Hs Hk Hd. destruct (simulates_lookup _ _ _ _ _ Hs Hk) as (e & He & -> & Hse).
  unfold dry_partial, applyPartialWithdraw in *. rewrite He, (simulates_min _ _ _ Hs).
  apply reject_ok in Hd as [H1 Hd]. apply reject_ok in Hd as [H2 Hd]. apply reject_ok in Hd as [H3 Hd].
  apply reject_ok in Hd as [H4 Hd]. simpl in H1, H3, H4. rewrite H1, H2, H3, H4.
  apply Ok_inj in Hd as <-. eexists. split; [reflexivity|]. by apply (simulates_entry r0 r st key (mkEntry _ _ _ _ _ _ _ _ _)).
Qed.

Lemma dry_v1_sim r0 r st height p st' :
  simulates r0 r st -> dry_v1 r0 height st p = Ok st' ->
  exists r', legacy_withdrawal r height p = Ok r' /\ simulates r0 r' st'.
Proof.
  intros Hs Hd. destruct (sim_config _ _ _ Hs) as (_ & _ & Hact & _ & _). unfold dry_v1, legacy_withdrawal in *.
  rewrite Hact, (simulates_signature _ _ _ _ _ _ _ Hs).
  apply reject_ok in Hd as [H1 Hd]. apply reject_ok in Hd as [H2 Hd]. apply reject_ok in Hd as [H3 Hd].
  rewrite H1, H2, H3. case_bool_decide.
  - destruct (snapshot st !! _) as [se|] eqn:Ek; [|done]. apply bind_ok in Hd as (se' & Hse & Hd).
    apply Ok_inj in Hd as <-. by eapply dry_withdraw_sim.
  - case_bool_decide; [|done]. destruct (snapshot st !! _) as [se|] eqn:Ek; [|done].
    apply bind_ok in Hd as (se' & Hse & Hd). apply Ok_inj in Hd as <-. by eapply dry_partial_sim.
Qed.

(** The version 2 checks in the order of [validateWithdrawalV2Locked]. *)
Lemma validate_withdrawal_sim r0 r st height a se e :
  simulates r0 r st -> validators r !! pub_hex (wa_PubKey a) = Some e -> se = shadow_of e -> Seeded e = false ->
  (stakeWithdrawalActivation r0 =? 0) || (height <? stakeWithdrawalActivation r0) ||
    negb (bool_decide (wa_Genesis a = stakeWithdrawalGenesis r0)) || (wa_ExpiryHeight a <? height) ||
    (StakeWithdrawalMaxExpiryBlocks <? (wa_ExpiryHeight a -w height)) ||
    negb (verifyValidatorSignature r0 (wa_PubKey a) height (StakeWithdrawalSignMsgV2 a) (wa_Signature a)) = false ->
  sh_seeded se || (sh_nonce se =? MaxUint64) || negb (wa_Nonce a =? sh_nonce se +w 1) ||
    negb (wa_Generation a =? sh_generation se) ||
    negb (bool_decide (wa_StakeRef a =
      StakeReferenceV2 (wa_Genesis a) (wa_PubKey a) (sh_generation se) (sh_stakeNAPR se))) = false ->
  validateWithdrawalV2Locked a height r = Ok e.
Proof.
  intros Hs He -> Hse H1 H2. destruct (sim_config _ _ _ Hs) as (_ & Hg & Hact & _ & _).
  unfold validateWithdrawalV2Locked. rewrite Hact, Hg, He, (simulates_signature _ _ _ _ _ _ _ Hs), Hse.
  cbn [shadow_of sh_seeded sh_nonce sh_generation sh_stakeNAPR] in H2. rewrite Hse in H2. cbn [orb] in H2.
  apply orb_false_elim in H1 as [H1 ->]. apply orb_false_elim in H1 as [H1 ->].
  apply orb_false_elim in H1 as [H1 ->]. apply orb_false_elim in H1 as [-> ->].
  apply orb_false_elim in H2 as [H2 ->]. by rewrite H2.
Qed.

Lemma decoded_withdrawal_action extra a :
  DecodeStakeWithdrawalExtraV2 extra = Ok a -> wa_Action a = StakeWithdraw \/ wa_Action a = StakePartialWithdraw.
Proof.
  unfold DecodeStakeWithdrawalExtraV2. intros Hd. apply reject_ok in Hd as [_ Hd].
  apply reject_ok in Hd as [Ha Hd]. apply Ok_inj in Hd as <-. unfold is_withdrawal in Ha.
  apply negb_false_iff, orb_true_iff in Ha as [Ha|Ha]; apply bool_decide_eq_true_1 in Ha; auto.
Qed.

(** Recording the nonce, on both sides. *)
Lemma simulates_nonce r0 r st key se n :
  simulates r0 r (set_snapshot key se st) ->
  simulates r0 (with_validators (alter (set_nonce n) key) r)
    (set_snapshot key (mkShadow (sh_stakeNAPR se) (sh_status se) (sh_generation se) n (sh_seeded se)) st).
Proof.
  intros [Hc Hsh Hsd Ho]. constructor; simpl in *; try done.
  - intros k. specialize (Hsh k). destruct (decide (k = key)) as [->|Hne].
    + rewrite lookup_alter_eq. rewrite lookup_insert_eq in *. destruct (validators r !! key); [|done].
      simpl in *. by simplify_eq.
    + by rewrite lookup_insert_ne, lookup_alter_ne in * by done.
  - intros k e Hk. destruct (decide (k = key)) as [->|Hne].
    + rewrite lookup_alter_eq in Hk. apply fmap_Some in Hk as (e0 & He0 & ->). exact (Hsd _ _ He0).
    + rewrite lookup_alter_ne in Hk by done. by eapply Hsd.
Qed.

Lemma dry_withdrawal_v2_sim r0 r st height a st' :
  simulates r0 r st -> wa_Action a = StakeWithdraw \/ wa_Action a = StakePartialWithdraw ->
  dry_withdrawal_v2 r0 height st a = Ok st' ->
  exists r', applyWithdrawalV2Locked a height r = Ok r' /\ simulates r0 r' st'.
Proof.
  intros Hs Hact Hd. unfold dry_withdrawal_v2 in Hd. apply reject_ok in Hd as [H1 Hd].
  destruct (snapshot st !! _) as [se|] eqn:Ek; [|done]. apply reject_ok in Hd as [H2 Hd].
  apply bind_ok in Hd as (se' & Hse' & Hd). apply Ok_inj in Hd as <-.
  destruct (simulates_lookup _ _ _ _ _ Hs Ek) as (e & He & Ese & Hseed).
  unfold applyWithdrawalV2Locked. rewrite (validate_withdrawal_sim r0 r st height a se e) by done.
  cbn [mbind result_bind].
  assert (Hstep : exists r1, (if bool_decide (wa_Action a = StakeWithdraw) then
      reject negb (wa_Amount a =? 0) with "stake withdrawal v2: full exit amount must be zero" ;;
      applyWithdraw (pub_hex (wa_PubKey a)) height r
    else if bool_decide (wa_Action a = StakePartialWithdraw) then
      applyPartialWithdraw (pub_hex (wa_PubKey a)) (wa_Amount a) height r
    else Err "stake withdrawal v2: invalid action") = Ok r1 /\
    simulates r0 r1 (set_snapshot (pub_hex (wa_PubKey a)) se' st)).
  { case_bool_decide as Hw.
    - apply reject_ok in Hse' as [Ha Hse']. apply orb_false_elim in Ha as [-> Hg].
      eapply dry_withdraw_sim; [done..|]. unfold dry_withdraw. by rewrite Hg.
    - rewrite bool_decide_eq_true_2 in Hse' |- * by (by destruct Hact). apply reject_ok in Hse' as [Ha Hse'].
      apply orb_false_elim in Ha as [Ha Hg]. apply orb_false_elim in Ha as [Hz Hl].
      apply reject_ok in Hse' as [Hr Hse'].
      eapply dry_partial_sim; [done..|]. unfold dry_partial. by rewrite Hg, Hz, Hl, Hr. }
  destruct Hstep as (r1 & -> & Hr1). eexists. split; [reflexivity|]. by apply simulates_nonce.
Qed.

Lemma deposit_auth_sim r0 r st height d :
  simulates r0 r st -> deposit_auth r height d = deposit_auth r0 height d.
Proof.
  intros Hs. unfold deposit_auth. rewrite (simulates_signature _ _ _ _ _ _ _ Hs).
  by destruct (sim_config _ _ _ Hs) as (_ & _ & _ & -> & _).
Qed.

(** An unreserved collateral output of [r0] is found, unstaked, in [r] too. *)
Lemma simulates_get r0 r st s0 k :
  simulates r0 r st -> k ∉ reserved st -> r_utxos r0 = Some s0 ->
  exists s, r_utxos r = Some s /\ utxos s !! k = utxos s0 !! k /\ stakedUTXOs s !! k = stakedUTXOs s0 !! k.
Proof.
  intros Hs Hk H0. assert (Ho := sim_outputs _ _ _ Hs). unfold same_outputs in Ho. rewrite H0 in Ho.
  destruct (r_utxos r) as [s|]; [|done]. exists s. split; [done|]. by apply Ho.
Qed.

(** The collateral output exists. *)
Definition has_collateral (r : Registry) (d : DepositExtra) : Prop :=
  exists s, r_utxos r = Some s /\ is_Some (utxos s !! (burnTxHash d, burnOutIdx d)).

Lemma utxo_v2_sim r0 r st d :
  simulates r0 r st -> (burnTxHash d, burnOutIdx d) ∉ reserved st -> deposit_utxo_v2 r0 d = Ok () ->
  deposit_utxo_v2 r d = Ok () /\ has_collateral r0 d.
Proof.
  intros Hs Hk Hd. unfold deposit_utxo_v2, Get in *. destruct (r_utxos r0) as [s0|] eqn:E0; [|done].
  destruct (simulates_get _ _ _ _ _ Hs Hk E0) as (s & -> & -> & _).
  destruct (utxos s0 !! _) eqn:Eu; [|done]. split; [done|]. exists s0. by rewrite Eu.
Qed.

Lemma utxo_v3_sim r0 r st d ots :
  simulates r0 r st -> (burnTxHash d, burnOutIdx d) ∉ reserved st -> deposit_utxo_v3 r0 d ots = Ok () ->
  deposit_utxo_v3 r d ots = Ok () /\ has_collateral r0 d.
Proof.
  intros Hs Hk Hd. unfold deposit_utxo_v3, Get in *. destruct (r_utxos r0) as [s0|] eqn:E0; [|done].
  destruct (simulates_get _ _ _ _ _ Hs Hk E0) as (s & -> & -> & _).
  destruct (utxos s0 !! _) eqn:Eu; [|done]. split; [done|]. exists s0. by rewrite Eu.
Qed.

Lemma utxo_v4_sim r0 r st height d ki proof u :
  simulates r0 r st -> (burnTxHash d, burnOutIdx d) ∉ reserved st ->
  validateStakeDepositV4 r0 height (stakeKeyImageActivation r0) d ki proof true = Ok u ->
  validateStakeDepositV4 r height (stakeKeyImageActivation r) d ki proof false = Ok u /\ has_collateral r0 d.
Proof.
  intros Hs Hk Hd. destruct (sim_config _ _ _ Hs) as (_ & _ & _ & Hact & _). rewrite Hact.
  unfold validateStakeDepositV4, Get in *. rewrite (simulates_signature _ _ _ _ _ _ _ Hs).
  apply reject_ok in Hd as [-> Hd]. apply reject_ok in Hd as [-> Hd]. apply reject_ok in Hd as [-> Hd].
  destruct (r_utxos r0) as [s0|] eqn:E0; [|done]. destruct (simulates_get _ _ _ _ _ Hs Hk E0) as (s & -> & -> & _).
  destruct (utxos s0 !! _) as [u0|] eqn:Eu; [|done]. apply bind_ok in Hd as ([] & -> & Hd). cbn [mbind result_bind].
  apply reject_ok in Hd as [-> Hd]. apply bind_ok in Hd as (spent & _ & Hd). apply reject_ok in Hd as [_ Hd].
  split; [done|]. exists s0. by rewrite Eu.
Qed.

(** Registering the deposit, on both sides. *)
Lemma dry_deposit_sim r0 r st st' d height o :
  simulates r0 r st -> dry_deposit r0 st d = Ok st' ->
  exists e, applyDeposit (pub_hex (de_pub d)) (de_pub d) (de_amount d) height (SetUTXOSet o r) =
      Ok (with_validators <[pub_hex (de_pub d) := e]> (SetUTXOSet o r)) /\ Seeded e = false /\
    st' = mkDryRun (<[pub_hex (de_pub d) := shadow_of e]> (snapshot st))
            ({[(burnTxHash d, burnOutIdx d)]} ∪ reserved st) (reservedKeyImages st).
Proof.
  intros Hs Hd. unfold dry_deposit, applyDeposit in *.
  change (effectiveMin (SetUTXOSet o r)) with (effectiveMin r). rewrite (simulates_min _ _ _ Hs).
  cbn [validators SetUTXOSet].
  apply reject_ok in Hd as [-> Hd]. apply reject_ok in Hd as [-> Hd].
  apply bind_ok in Hd as (se & Hse & Hd). apply Ok_inj in Hd as <-.
  assert (Hput : forall e, Seeded e = false ->
    demoteSeededLocked (with_validators <[pub_hex (de_pub d) := e]> (SetUTXOSet o r)) =
    with_validators <[pub_hex (de_pub d) := e]> (SetUTXOSet o r)).
  { intros e He. unfold demoteSeededLocked, with_validators. simpl. f_equal. apply demote_unseeded.
    intros k e' Hk. apply lookup_insert_Some in Hk as [[_ <-]|[_ Hk]]; [done|]. by eapply sim_seeded. }
  destruct (snapshot st !! _) as [se0|] eqn:Ek.
  - destruct (simulates_lookup _ _ _ _ _ Hs Ek) as (e & He & -> & Hseed). rewrite He, Hseed.
    apply reject_ok in Hse as [H1 Hse]. apply reject_ok in Hse as [H2 Hse]. apply reject_ok in Hse as [H3 Hse].
    simpl in H1, H2, H3. rewrite H1, H2, H3. apply Ok_inj in Hse as <-.
    exists (top_up e (de_amount d)). rewrite Hput by done. done.
  - rewrite (sim_shadow _ _ _ Hs) in Ek. destruct (validators r !! pub_hex (de_pub d)); [done|].
    apply Ok_inj in Hse as <-. rewrite Hput by done. by eexists.
Qed.

Lemma burn_sim r0 r st st' d height :
  simulates r0 r st -> unstaked r0 -> (burnTxHash d, burnOutIdx d) ∉ reserved st -> has_collateral r0 d ->
  dry_deposit r0 st d = Ok st' ->
  exists r', burn_and_deposit d height r = (r', Ok (Some (burnTxHash d, burnOutIdx d))) /\ simulates r0 r' st'.
Proof.
  intros Hs Hun Hk (s0 & E0 & [u Hu]) Hd. set (k := (burnTxHash d, burnOutIdx d)) in *.
  destruct (simulates_get _ _ _ _ _ Hs Hk E0) as (s & Es & Hus & Hst).
  rewrite Hu in Hus. rewrite (Hun s0 k E0) in Hst by by eexists.
  unfold burn_and_deposit, reg_MarkStaked. rewrite Es.
  assert (Hm : is_ok (MarkStaked (burnTxHash d) (burnOutIdx d) s) = true).
  { unfold MarkStaked. fold k. rewrite Hst, Hus, bool_decide_eq_false_2; [done|]. by intros [? ?]. }
  destruct (MarkStaked (burnTxHash d) (burnOutIdx d) s) as [s1|] eqn:Em; [|done]. cbn [mbind result_bind].
  apply mark_staked_inv in Em as (u' & _ & _ & ->). fold k.
  destruct (dry_deposit_sim r0 r st st' d height (Some (with_staked <[k := u']> (with_utxos (delete k)
    (with_byPubKey (delete (u_OneTimePub u')) s)))) Hs Hd) as (e & -> & He & ->).
  eexists. split; [reflexivity|]. destruct (simulates_entry r0 r st (pub_hex (de_pub d)) e Hs He) as [Hc Hsh Hsd Ho].
  constructor; simpl in *; try done. unfold same_outputs in *. rewrite E0, Es in *. fold k.
  intros k' Hk'. simpl. rewrite lookup_delete_ne, lookup_insert_ne by set_solver. apply Ho. set_solver.
Qed.

Lemma check_reserved_ok st d : check_reserved st d = Ok () -> (burnTxHash d, burnOutIdx d) ∉ reserved st.
Proof. unfold check_reserved. intros Hc. apply reject_ok in Hc as [Hc _]. by zbool. Qed.

(** One stake transaction: what the dry run accepts the apply loop applies. *)
Lemma dry_tx_sim r0 r st st' height inputs tx :
  simulates r0 r st -> unstaked r0 -> IsStake tx = true -> dry_tx r0 height inputs st tx = Ok st' ->
  exists r' k, applyOneTxLocked height r tx = (r', Ok k) /\ simulates r0 r' st'.
Proof.
  intros Hs Hun Hst Hd. unfold dry_tx, applyOneTxLocked in *. rewrite Hst in *. cbn [negb] in *.
  destruct (len_is (Extra tx) StakePayloadSize).
  { apply bind_ok in Hd as (p & -> & Hd). cbn [mbind result_bind].
    destruct (dry_v1_sim _ _ _ _ _ _ Hs Hd) as (r' & -> & Hr). by exists r', None. }
  destruct (len_is (Extra tx) StakeWithdrawalPayloadSizeV2).
  { apply bind_ok in Hd as (a & Ha & Hd). rewrite Ha. cbn [mbind result_bind].
    destruct (dry_withdrawal_v2_sim _ _ _ _ _ _ Hs (decoded_withdrawal_action _ _ Ha) Hd) as (r' & -> & Hr).
    by exists r', None. }
  destruct (len_is (Extra tx) StakePayloadSizeV2).
  { apply bind_ok in Hd as (d & -> & Hd). apply bind_ok in Hd as ([] & Hau & Hd).
    apply bind_ok in Hd as ([] & Hre & Hd). apply check_reserved_ok in Hre. apply bind_ok in Hd as ([] & Hut & Hd).
    destruct (utxo_v2_sim _ _ _ _ Hs Hre Hut) as [Hu Hc]. rewrite (deposit_auth_sim _ _ _ _ _ Hs), Hau.
    cbn [mbind result_bind]. rewrite Hu. destruct (burn_sim _ _ _ _ _ height Hs Hun Hre Hc Hd) as (r' & -> & Hr).
    by eexists r', _. }
  destruct (len_is (Extra tx) StakePayloadSizeV3).
  { apply bind_ok in Hd as ([d ots] & -> & Hd). apply bind_ok in Hd as ([] & Hau & Hd).
    apply bind_ok in Hd as ([] & Hre & Hd). apply check_reserved_ok in Hre. apply bind_ok in Hd as ([] & Hut & Hd).
    destruct (utxo_v3_sim _ _ _ _ _ Hs Hre Hut) as [Hu Hc]. rewrite (deposit_auth_sim _ _ _ _ _ Hs), Hau.
    cbn [mbind result_bind]. rewrite Hu. destruct (burn_sim _ _ _ _ _ height Hs Hun Hre Hc Hd) as (r' & -> & Hr).
    by eexists r', _. }
  destruct (len_is (Extra tx) StakePayloadSizeV4); [|done].
  apply bind_ok in Hd as ([[d ki] proof] & -> & Hd). unfold dry_v4 in Hd. apply bind_ok in Hd as (u & Hv & Hd).
  apply bind_ok in Hd as ([] & Hre & Hd). apply check_reserved_ok in Hre.
  destruct (CanonicalKeyImage ki) as [c|]; [|done]. apply reject_ok in Hd as [_ Hd]. apply reject_ok in Hd as [_ Hd].
  apply bind_ok in Hd as (st1 & Hdep & Hd). apply Ok_inj in Hd as <-.
  destruct (utxo_v4_sim _ _ _ _ _ _ _ _ Hs Hre Hv) as [-> Hc]. cbn [guarded].
  destruct (burn_sim _ _ _ _ _ height Hs Hun Hre Hc Hdep) as (r' & -> & [Hcf Hsh Hsd Ho]).
  by eexists r', _.
Qed.

Lemma dry_loop_sim r0 height inputs txs : forall r st st' keys,
  simulates r0 r st -> unstaked r0 -> foldM (dry_tx r0 height inputs) st txs = Ok st' ->
  exists r' keys', apply_loop height txs r keys = (r', keys', Ok ()) /\ simulates r0 r' st'.
Proof.
  induction txs as [|tx txs IH]; intros r st st' keys Hs Hun Hd; cbn [foldM apply_loop] in *.
  - apply Ok_inj in Hd as <-. eauto.
  - apply bind_ok in Hd as (st1 & Htx & Hd). destruct (IsStake tx) eqn:Est.
    + cbn [negb]. destruct (dry_tx_sim _ _ _ _ _ _ _ Hs Hun Est Htx) as (r1 & k & -> & Hs1).
      destruct k; by eapply IH.
    + cbn [negb]. unfold dry_tx in Htx. rewrite Est in Htx. cbn [negb] in Htx. apply Ok_inj in Htx as <-.
      by eapply IH.
Qed.

(** C14: a block the dry run accepts is applied without error, and the registry it
    produces is the one the dry run computed: the same stakes, statuses, collateral
    generations and nonces.  It holds for a registry without sentinels. *)
Theorem dry_run_refines (txs : list Transaction) (height : Z) (r : Registry) (st : DryRun) :
  (forall k e, validators r !! k = Some e -> Seeded e = false) -> unstaked r ->
  dry_run txs height r = Ok st ->
  exists r' rollback, ApplyBlockStakeTxs txs height r = (r', Ok rollback) /\
    shadow_of <$> validators r' = snapshot st.
Proof.
  intros Hseed Hun Hd. unfold ApplyBlockStakeTxs.
  destruct (dry_loop_sim r height _ txs r _ st [] (simulates_init r Hseed) Hun Hd) as (r' & keys & Hl & Hs).
  assert (Hfin : shadow_of <$> validators r' = snapshot st).
  { apply map_eq. intros k. by rewrite lookup_fmap, (sim_shadow _ _ _ Hs). }
  destruct (existsb IsStake txs) eqn:Ex; cbn [negb].
  - rewrite Hl. eauto.
  - exists r, id. split; [done|]. rewrite <- Hfin. f_equal.
    assert (Hno : forall l rr ks, existsb IsStake l = false -> apply_loop height l rr ks = (rr, ks, Ok ())).
    { induction l as [|x l IHl]; intros rr ks Hx; [done|]. simpl in Hx. apply orb_false_elim in Hx as [Hx1 Hx2].
      simpl. rewrite Hx1. by apply IHl. }
    rewrite Hno in Hl by done. by simplify_eq.
Qed.

End Refinement.

(** ** Sentinels *)

Definition dm_registry : Registry :=
  SeedFromObservedProducers [replicate 32 xcc] ex_registry.
Definition dm_withdraw : Transaction :=
  mkTx TxVersionStake [] [] 0 (zero_arr 32) [] [] []
    (match EncodeStakeExtra (mkExtra StakeWithdraw (replicate 32 xcc) 0 (xcc :: replicate 63 x00)) with
     | Ok b => b | Err _ => [] end) None.
Definition dm_block : list Transaction := [ex_stake_tx xaa x01 x01; dm_withdraw].

(** With a sentinel in the registry the dry run does not mirror the apply step:
    the first deposit demotes every sentinel, so a later withdrawal by one passes
    [ValidateBlockStakeTxs] and fails [ApplyBlockStakeTxs]. *)
Theorem dry_run_misses_demotion :
  ValidateBlockStakeTxs (H := toy_crypto) dm_block 7 dm_registry = Ok () /\
  is_ok (snd (ApplyBlockStakeTxs (H := toy_crypto) dm_block 7 dm_registry)) = false.
Proof. split; vm_compute; reflexivity. Qed.

(** ** Witness *)

Definition ex_dry : DryRun :=
  match dry_run (H := toy_crypto) ex_good_block 7 ex_registry with
  | Ok st => st | Err _ => dry_start ex_registry end.

Lemma dry_run_refines_witness :
  size (snapshot ex_dry) = 2%nat /\
  exists r' rollback, ApplyBlockStakeTxs (H := toy_crypto) ex_good_block 7 ex_registry = (r', Ok rollback) /\
    shadow_of <$> validators r' = snapshot ex_dry.
Proof.
  split; [vm_compute; reflexivity|].
  apply (dry_run_refines (H := toy_crypto) ex_good_block 7 ex_registry ex_dry).
  - intros k e He. exfalso. change (validators ex_registry) with (∅ : gmap string ValidatorEntry) in He.
    by rewrite lookup_empty in He.
  - intros s k Hs _. injection Hs as <-. reflexivity.
  - apply ok_value. vm_compute. reflexivity.
Defined.

End StakingBlock.
