(* ===== verification/StakingEpoch.v ===== *)
(** Epoch transitions of the validator set: [UpdateEpoch], [rebalanceLocked],
    [sortedPendingLocked] and [AllEntries] of [core/staking.go].

    The entries come out of a Go map and are ordered by [sort.Slice], which is not
    stable: what order two equal stakes end in is not determined by the code.  The
    order is the parameter [ord]; [sorts] is what [sort.Slice] documents. *)

From stdpp Require Import base gmap list strings sorting.
From S2P Require Import Prelude Bytes Crypto Avm StakePayload Transaction Utxo Staking.
Import Transaction StakePayload Staking.

Module StakingEpoch.

Definition keyed : Type := string * ValidatorEntry.

(** Descending stake. *)
Definition more_stake (a b : keyed) : Prop := StakeNAPR (snd b) <= StakeNAPR (snd a).
#[global] Instance more_stake_dec : RelDecision more_stake.
Proof. intros a b. unfold more_stake. apply _. Defined.
#[global] Instance more_stake_trans : Transitive more_stake.
Proof. intros a b c. unfold more_stake. lia. Qed.
#[global] Instance more_stake_total : Total more_stake.
Proof. intros a b. unfold more_stake. lia. Qed.

(** [sort.Slice] with [a.StakeNAPR > b.StakeNAPR]. *)
Definition sorts (ord : list keyed -> list keyed) : Prop :=
  forall l, ord l ≡ₚ l /\ StronglySorted more_stake (ord l).

(** ** Operations *)

(** Step 1: finish unbonding, drop elapsed queue entries. *)
Definition release (height : Z) (e : ValidatorEntry) : ValidatorEntry :=
  mkEntry (PubKey e) (StakeNAPR e)
    (if is_status ValidatorUnbonding e && (UnbondEndBlock e <=? height) then ValidatorExited else Status e)
    (ActivationEpoch e) (UnbondEndBlock e)
    (filter (fun ub => height < ub_EndBlock ub) (UnbondingQueue e))
    (Seeded e) (StakeGeneration e) (StakeAuthNonce e).

Definition requeue (e : ValidatorEntry) : ValidatorEntry :=
  mkEntry (PubKey e) (StakeNAPR e) ValidatorPending (ActivationEpoch e +w 1) (UnbondEndBlock e)
    (UnbondingQueue e) (Seeded e) (StakeGeneration e) (StakeAuthNonce e).

(** The entries of a status, in map order. *)
Definition with_status (st : ValidatorStatus) (r : Registry) : list keyed :=
  filter (fun ke => is_status st (snd ke) = true) (entries r).

Section Order.
Context (ord : list keyed -> list keyed).

Definition sortedPendingLocked (r : Registry) : list keyed := ord (with_status ValidatorPending r).

(** Step 3: the loop over the pending entries. *)
Fixpoint activate_loop (epoch : Z) (slots activated : nat) (pending : list keyed) (r : Registry) : Registry :=
  match pending with
  | [] => r
  | (k, e) :: rest =>
      if (slots <=? activated)%nat then r
      else if ActivationEpoch e <=? epoch then
        activate_loop epoch slots (S activated) rest (with_validators (alter (set_status ValidatorActive) k) r)
      else activate_loop epoch slots activated rest r
  end.

Definition rebalanceLocked (r : Registry) : Registry :=
  let active := with_status ValidatorActive r in
  if (length active <=? MaxValidators)%nat then r
  else foldl (fun r ke => with_validators (alter requeue (fst ke)) r) r
         (drop MaxValidators (ord active)).

Definition activate (height : Z) (r : Registry) : Registry :=
  let activeCount := active_count r in
  if (activeCount <? MaxValidators)%nat then
    let slots := Nat.min (MaxValidators - activeCount)%nat ChurnLimit in
    activate_loop (height / EpochLength) slots 0 (sortedPendingLocked r) r
  else r.

Definition UpdateEpoch (height : Z) (r : Registry) : Registry * list ValidatorPubKey :=
  let r1 := with_validators (fmap (release height)) r in
  let r2 := activate height r1 in
  let r3 := rebalanceLocked r2 in
  (r3, activeSetLocked r3).

Definition AllEntries (r : Registry) : list ValidatorEntry := snd <$> ord (entries r).

End Order.

(** ** Updating a list of keys *)

Definition alter_all (f : ValidatorEntry -> ValidatorEntry) (ks : list string) (m : gmap string ValidatorEntry)
    : gmap string ValidatorEntry := foldl (fun m k => alter f k m) m ks.

Lemma alter_all_lookup f ks m k :
  NoDup ks -> alter_all f ks m !! k = if bool_decide (k ∈ ks) then f <$> m !! k else m !! k.
Proof.
  revert m. induction ks as [|x ks IH]; intros m Hnd; [done|]. apply list.NoDup_cons in Hnd as [Hx Hnd].
  change (alter_all f (x :: ks) m) with (alter_all f ks (alter f x m)). rewrite IH by done.
  destruct (decide (k = x)) as [->|Hne].
  - rewrite (bool_decide_eq_false_2 (x ∈ ks)), bool_decide_eq_true_2 by set_solver. apply lookup_alter_eq.
  - rewrite lookup_alter_ne by done. by rewrite (bool_decide_ext (k ∈ x :: ks) (k ∈ ks)) by set_solver.
Qed.

(** The entries the activation loop picks. *)
Definition eligible (epoch : Z) (ke : keyed) : Prop := ActivationEpoch (snd ke) <= epoch.
#[global] Instance eligible_dec epoch ke : Decision (eligible epoch ke).
Proof. unfold eligible. apply _. Defined.

Lemma activate_loop_spec epoch slots activated p r :
  activate_loop epoch slots activated p r =
  with_validators (alter_all (set_status ValidatorActive)
    (take (slots - activated) (filter (eligible epoch) p)).*1) r.
Proof.
  revert activated r. induction p as [|[k e] p IH]; intros activated r; cbn [activate_loop].
  - rewrite filter_nil, take_nil. by destruct r.
  - destruct (Nat.leb_spec slots activated) as [Hle|Hlt].
    + replace (slots - activated)%nat with 0%nat by lia. by destruct r.
    + rewrite filter_cons. destruct (Z.leb_spec (ActivationEpoch e) epoch) as [He|He].
      * rewrite decide_True by done. replace (slots - activated)%nat with (S (slots - S activated)) by lia.
        rewrite IH. done.
      * rewrite decide_False by (unfold eligible; simpl; lia). apply IH.
Qed.

(** ** The entries of a status *)

Lemma elem_of_with_status st r k e :
  (k, e) ∈ with_status st r <-> validators r !! k = Some e /\ Status e = st.
Proof.
  unfold with_status, entries. rewrite list_elem_of_filter, elem_of_map_to_list. unfold is_status. simpl.
  rewrite bool_decide_eq_true. tauto.
Qed.

Lemma key_with_status st r k :
  k ∈ (with_status st r).*1 <-> exists e, validators r !! k = Some e /\ Status e = st.
Proof.
  rewrite list_elem_of_fmap. split.
  - intros ([k' e] & -> & Hin). exists e. by apply elem_of_with_status.
  - intros (e & He). exists (k, e). split; [done|]. by apply elem_of_with_status.
Qed.

Lemma NoDup_fst_filter (P : keyed -> Prop) `{forall x, Decision (P x)} (l : list keyed) :
  NoDup l.*1 -> NoDup (filter P l).*1.
Proof. intros Hn. eapply sublist_NoDup; [exact Hn|]. apply fmap_sublist, sublist_filter. Qed.

Lemma NoDup_with_status st r : NoDup (with_status st r).*1.
Proof. apply NoDup_fst_filter, NoDup_fst_map_to_list. Qed.

(** Two registries whose active keys are the list [ks]. *)
Lemma active_count_keys r ks :
  NoDup ks -> (forall k, k ∈ ks <-> exists e, validators r !! k = Some e /\ Status e = ValidatorActive) ->
  active_count r = length ks.
Proof.
  intros Hn Hk. change (active_count r) with (length (with_status ValidatorActive r)).
  transitivity (length (with_status ValidatorActive r).*1); [by rewrite length_fmap|]. apply Permutation_length, NoDup_Permutation; [apply NoDup_with_status|done|].
  intros k. rewrite key_with_status. symmetry. apply Hk.
Qed.

(** ** One epoch *)

(** The parts of an entry no epoch changes. *)
Definition identity (e : ValidatorEntry) :=
  (PubKey e, StakeNAPR e, UnbondEndBlock e, Seeded e, StakeGeneration e, StakeAuthNonce e).

Definition released (height : Z) (r : Registry) : Registry := with_validators (fmap (release height)) r.

(** The keys step 3 activates and step 4 demotes. *)
Definition joining (ord : list keyed -> list keyed) (height : Z) (r : Registry) : list keyed :=
  take (Nat.min (MaxValidators - active_count r) ChurnLimit)
    (filter (eligible (height / EpochLength)) (sortedPendingLocked ord r)).
Definition leaving (ord : list keyed -> list keyed) (r : Registry) : list keyed :=
  drop MaxValidators (ord (with_status ValidatorActive r)).

Lemma release_active height e : Status (release height e) = ValidatorActive <-> Status e = ValidatorActive.
Proof.
  unfold release, is_status. simpl. destruct (bool_decide_reflect (Status e = ValidatorUnbonding)) as [E|E]; [|done].
  destruct (_ <=? _); simpl; rewrite ?E; done.
Qed.

Lemma release_pending height e : Status (release height e) = ValidatorPending <-> Status e = ValidatorPending.
Proof.
  unfold release, is_status. simpl. destruct (bool_decide_reflect (Status e = ValidatorUnbonding)) as [E|E]; [|done].
  destruct (_ <=? _); simpl; rewrite ?E; done.
Qed.

Lemma released_count height r : active_count (released height r) = active_count r.
Proof.
  rewrite (active_count_keys r (with_status ValidatorActive (released height r)).*1); [by rewrite length_fmap|apply NoDup_with_status|].
  intros k. rewrite key_with_status. unfold released. simpl. setoid_rewrite lookup_fmap.
  split; intros (e & He & Hs).
  - apply fmap_Some in He as (e0 & He0 & ->). exists e0. split; [done|]. by apply release_active in Hs.
  - exists (release height e). rewrite He. split; [done|]. by apply release_active.
Qed.

Section Epoch.
Context (ord : list keyed -> list keyed) (Hord : sorts ord).

Lemma NoDup_ord st r : NoDup (ord (with_status st r)).*1.
Proof. rewrite (proj1 (Hord _)). apply NoDup_with_status. Qed.

Lemma NoDup_joining height r : NoDup (joining ord height r).*1.
Proof.
  unfold joining. rewrite fmap_take. eapply sublist_NoDup; [|apply sublist_take].
  apply NoDup_fst_filter, NoDup_ord.
Qed.

Lemma NoDup_leaving r : NoDup (leaving ord r).*1.
Proof. unfold leaving. rewrite fmap_drop. eapply sublist_NoDup; [|apply sublist_drop]. apply NoDup_ord. Qed.

Lemma elem_of_joining height r k e :
  (k, e) ∈ joining ord height r ->
  validators r !! k = Some e /\ Status e = ValidatorPending /\ ActivationEpoch e <= height / EpochLength.
Proof.
  intros Hin. apply elem_of_take in Hin as (i & Hi & _). apply list_elem_of_lookup_2 in Hi.
  apply list_elem_of_filter in Hi as [He Hin]. unfold sortedPendingLocked in Hin. rewrite (proj1 (Hord _)) in Hin.
  apply elem_of_with_status in Hin as [? ?]. done.
Qed.

Lemma joined_count height r :
  active_count (with_validators (alter_all (set_status ValidatorActive) (joining ord height r).*1) r) =
  (active_count r + length (joining ord height r))%nat.
Proof.
  assert (Hj : forall k, k ∈ (joining ord height r).*1 ->
    exists e, validators r !! k = Some e /\ Status e = ValidatorPending).
  { intros k Hin. apply list_elem_of_fmap in Hin as ([k' e] & -> & Hin).
    apply elem_of_joining in Hin as (? & ? & _). by exists e. }
  rewrite (active_count_keys _ ((with_status ValidatorActive r).*1 ++ (joining ord height r).*1)).
  - by rewrite length_app, !length_fmap.
  - apply list.NoDup_app. split_and!; [apply NoDup_with_status| |apply NoDup_joining].
    intros k (e & He & Hs)%key_with_status (e' & He' & Hs')%Hj. congruence.
  - intros k. cbn [validators with_validators]. rewrite alter_all_lookup by apply NoDup_joining.
    rewrite elem_of_app, key_with_status. case_bool_decide as Hin.
    + split; [intros _|by right]. destruct (Hj k Hin) as (e & He & _). exists (set_status ValidatorActive e).
      by rewrite He.
    + tauto.
Qed.

Lemma left_count r :
  (MaxValidators <= active_count r)%nat ->
  active_count (with_validators (alter_all requeue (leaving ord r).*1) r) = MaxValidators.
Proof.
  intros Hge. assert (Hperm := proj1 (Hord (with_status ValidatorActive r))).
  set (l := ord (with_status ValidatorActive r)) in *.
  assert (Hlen : length l = active_count r) by (by rewrite Hperm).
  assert (Hnd : NoDup l.*1) by apply NoDup_ord.
  rewrite (active_count_keys _ (take MaxValidators l).*1).
  - rewrite length_fmap, length_take. unfold keyed in *. lia.
  - rewrite fmap_take. eapply sublist_NoDup; [done|apply sublist_take].
  - intros k. cbn [validators with_validators]. rewrite alter_all_lookup by apply NoDup_leaving.
    rewrite <- (take_drop MaxValidators l), fmap_app in Hnd. apply list.NoDup_app in Hnd as (_ & Hdis & _).
    assert (Hact : k ∈ (take MaxValidators l).*1 \/ k ∈ (drop MaxValidators l).*1 <->
      exists e, validators r !! k = Some e /\ Status e = ValidatorActive).
    { rewrite <- elem_of_app, <- fmap_app, take_drop, Hperm. apply key_with_status. }
    unfold leaving. fold l. case_bool_decide as Hin.
    + split; [intros Ht; by destruct (Hdis k Ht)|]. intros (e & He & Hs).
      apply fmap_Some in He as (e0 & _ & ->). done.
    + tauto.
Qed.

(** With a free slot, the epoch activates [joining] and demotes nobody; without,
    it activates nobody and demotes [leaving]. *)
Lemma update_epoch_cases height r :
  fst (UpdateEpoch ord height r) =
  if (active_count r <? MaxValidators)%nat
  then with_validators (alter_all (set_status ValidatorActive) (joining ord height (released height r)).*1) (released height r)
  else with_validators (alter_all requeue (leaving ord (released height r)).*1) (released height r).
Proof.
  unfold UpdateEpoch, activate. cbn [fst]. change (with_validators (fmap (release height)) r) with (released height r).
  rewrite <- (released_count height r). set (r1 := released height r). 
  destruct (Nat.ltb_spec (active_count r1) MaxValidators) as [Hlt|Hge].
  - rewrite activate_loop_spec, Nat.sub_0_r. fold (joining ord height r1). set (r2 := with_validators _ r1).
    unfold rebalanceLocked. change (length (with_status ValidatorActive r2)) with (active_count r2).
    assert (Hc : (active_count r2 <= MaxValidators)%nat).
    { unfold r2. rewrite joined_count. unfold joining. rewrite length_take. lia. }
    by rewrite (proj2 (Nat.leb_le _ _) Hc).
  - unfold rebalanceLocked. change (length (with_status ValidatorActive r1)) with (active_count r1).
    assert (Hfold : forall (l : list keyed) rr, foldl (fun r ke => with_validators (alter requeue (fst ke)) r) rr l =
      with_validators (alter_all requeue (fst <$> l)) rr).
    { induction l as [|x l IHl]; intros rr; [by destruct rr|]. cbn [foldl]. by rewrite IHl. }
    destruct (Nat.leb_spec (active_count r1) MaxValidators) as [Hle|Hgt]; [|apply Hfold].
    unfold leaving. rewrite drop_ge; [by destruct r1|]. rewrite (proj1 (Hord _)). exact Hle.
Qed.

(** A status change of the epoch, by key. *)
Lemma epoch_lookup height r k :
  validators (fst (UpdateEpoch ord height r)) !! k =
  (if (active_count r <? MaxValidators)%nat then
     if bool_decide (k ∈ (joining ord height (released height r)).*1)
     then fun e => set_status ValidatorActive (release height e) else release height
   else
     if bool_decide (k ∈ (leaving ord (released height r)).*1)
     then fun e => requeue (release height e) else release height) <$> validators r !! k.
Proof.
  rewrite update_epoch_cases. destruct (_ <? _)%nat; cbn [validators with_validators].
  - rewrite alter_all_lookup by apply NoDup_joining. generalize (joining ord height (released height r)).*1 as J. intros J.
    unfold released. cbn [validators with_validators]. rewrite lookup_fmap.
    destruct (bool_decide (k ∈ J)); by destruct (validators r !! k).
  - rewrite alter_all_lookup by apply NoDup_leaving. generalize (leaving ord (released height r)).*1 as J. intros J.
    unfold released. cbn [validators with_validators]. rewrite lookup_fmap.
    destruct (bool_decide (k ∈ J)); by destruct (validators r !! k).
Qed.

Lemma sorted_before (l : list keyed) (n : nat) (P : keyed -> Prop) `{forall x, Decision (P x)} k e k' e' :
  StronglySorted more_stake l -> (k, e) ∈ take n (filter P l) -> (k', e') ∈ filter P l ->
  (k', e') ∉ take n (filter P l) -> StakeNAPR e' <= StakeNAPR e.
Proof.
  intros Hs Hin Hin' Hn.
  assert (Hf : StronglySorted more_stake (filter P l)).
  { clear -Hs. induction Hs as [|x l Hl IH Hx]; [constructor|]. rewrite filter_cons. case_decide; [|done].
    constructor; [done|]. apply list.Forall_forall. intros y Hy. apply list_elem_of_filter in Hy as [_ Hy].
    by eapply list.Forall_forall in Hx. }
  rewrite <- (take_drop n (filter P l)) in Hf, Hin'. apply elem_of_app in Hin' as [|Hin']; [done|].
  by apply (StronglySorted_app_1_elem_of more_stake _ _ (k, e) (k', e')) in Hf.
Qed.

(** What the epoch did to a validator. *)
Definition joins height r k : Prop :=
  exists e e', validators r !! k = Some e /\ Status e = ValidatorPending /\
    validators (fst (UpdateEpoch ord height r)) !! k = Some e' /\ Status e' = ValidatorActive.
Definition leaves height r k : Prop :=
  exists e e', validators r !! k = Some e /\ Status e = ValidatorActive /\
    validators (fst (UpdateEpoch ord height r)) !! k = Some e' /\ Status e' = ValidatorPending.

Lemma joins_joining height r k :
  joins height r k -> (active_count r < MaxValidators)%nat /\ k ∈ (joining ord height (released height r)).*1.
Proof.
  intros (e & e' & He & Hs & He' & Hs'). rewrite epoch_lookup, He in He'. simpl in He'.
  assert (Hrp : Status (release height e) <> ValidatorActive).
  { intros Hc. apply release_active in Hc. congruence. }
  destruct (Nat.ltb_spec (active_count r) MaxValidators) as [Hlt|Hge].
  - case_bool_decide; [done|]. simplify_eq.
  - case_bool_decide; simplify_eq.
Qed.

Lemma joining_eligible height r k :
  k ∈ (joining ord height (released height r)).*1 ->
  exists e, validators r !! k = Some e /\ Status e = ValidatorPending /\
    ActivationEpoch e <= height / EpochLength /\ (k, release height e) ∈ joining ord height (released height r).
Proof.
  intros Hin. apply list_elem_of_fmap in Hin as ([k' e1] & -> & Hin). assert (Hin' := Hin).
  apply elem_of_joining in Hin as (Hk & Hs & Ha). unfold released in Hk. cbn [validators with_validators] in Hk.
  rewrite lookup_fmap in Hk. apply fmap_Some in Hk as (e & He & ->). exists e. split_and!; try done.
  by apply release_pending in Hs.
Qed.

(** The pending entries that may be activated at a height. *)
Definition candidates height r : list keyed :=
  filter (eligible (height / EpochLength)) (with_status ValidatorPending r).

Lemma key_candidates height r k :
  k ∈ (candidates height r).*1 <->
  exists e, validators r !! k = Some e /\ Status e = ValidatorPending /\ ActivationEpoch e <= height / EpochLength.
Proof.
  rewrite list_elem_of_fmap. unfold candidates. split.
  - intros ([k' e] & -> & Hin). apply list_elem_of_filter in Hin as [He Hin].
    apply elem_of_with_status in Hin as [? ?]. by exists e.
  - intros (e & He & Hs & Ha). exists (k, e). split; [done|]. apply list_elem_of_filter. split; [done|].
    by apply elem_of_with_status.
Qed.

Lemma released_candidates height r : length (candidates height (released height r)) = length (candidates height r).
Proof.
  transitivity (length (candidates height (released height r)).*1); [by rewrite length_fmap|].
  transitivity (length (candidates height r).*1); [|by rewrite length_fmap].
  apply Permutation_length, NoDup_Permutation; [apply NoDup_fst_filter, NoDup_with_status..|].
  intros k. rewrite !key_candidates. unfold released. cbn [validators with_validators]. setoid_rewrite lookup_fmap.
  split; intros (e & He & Hs & Ha).
  - apply fmap_Some in He as (e0 & He0 & ->). exists e0. split_and!; try done. by apply release_pending in Hs.
  - exists (release height e). rewrite He. split_and!; try done. by apply release_pending.
Qed.

Lemma joining_length height r :
  length (joining ord height r) =
  Nat.min (Nat.min (MaxValidators - active_count r) ChurnLimit) (length (candidates height r)).
Proof.
  unfold joining, candidates, sortedPendingLocked. rewrite length_take. by rewrite (proj1 (Hord _)).
Qed.

(** C32: an epoch transition ends with exactly as many active validators as the code
    promises: with free slots it activates the lesser of the free slots, the churn
    limit and the eligible candidates; at or over the cap it ends at the cap.  Keys,
    stakes, generations and nonces are untouched, and whoever joins was pending and
    past its activation epoch. *)
Theorem epoch_active_set (height : Z) (r : Registry) :
  let r' := fst (UpdateEpoch ord height r) in
  active_count r' =
    (if (active_count r <? MaxValidators)%nat
     then active_count r + Nat.min (Nat.min (MaxValidators - active_count r) ChurnLimit) (length (candidates height r))
     else MaxValidators)%nat /\
  (active_count r' <= MaxValidators)%nat /\
  (forall k, identity <$> validators r' !! k = identity <$> validators r !! k) /\
  (exists J, (length J <= ChurnLimit)%nat /\ (forall k, joins height r k -> k ∈ J)) /\
  (forall k, joins height r k -> exists e, validators r !! k = Some e /\ ActivationEpoch e <= height / EpochLength).
Proof.
  cbv zeta. assert (Hcount : active_count (fst (UpdateEpoch ord height r)) =
    (if (active_count r <? MaxValidators)%nat
     then active_count r + Nat.min (Nat.min (MaxValidators - active_count r) ChurnLimit) (length (candidates height r))
     else MaxValidators)%nat).
  { rewrite update_epoch_cases. destruct (Nat.ltb_spec (active_count r) MaxValidators) as [Hlt|Hge].
    - by rewrite joined_count, joining_length, released_candidates, released_count.
    - apply left_count. by rewrite released_count. }
  split_and!; [done| | | |].
  - rewrite Hcount. destruct (Nat.ltb_spec (active_count r) MaxValidators); lia.
  - intros k. rewrite epoch_lookup. destruct (validators r !! k) as [e|]; [|done].
    destruct (_ <? _)%nat; case_bool_decide; done.
  - exists (joining ord height (released height r)).*1. split.
    + rewrite length_fmap, joining_length. lia.
    + intros k Hk. by destruct (joins_joining _ _ _ Hk).
  - intros k Hk. apply joins_joining in Hk as [_ Hk].
    apply joining_eligible in Hk as (e & He & _ & Ha & _). by exists e.
Qed.

Lemma leaves_leaving height r k :
  leaves height r k -> (MaxValidators <= active_count r)%nat /\ k ∈ (leaving ord (released height r)).*1.
Proof.
  intros (e & e' & He & Hs & He' & Hs'). rewrite epoch_lookup, He in He'. simpl in He'.
  assert (Hra : Status (release height e) = ValidatorActive) by by apply release_active.
  destruct (Nat.ltb_spec (active_count r) MaxValidators) as [Hlt|Hge].
  - case_bool_decide; simplify_eq. congruence.
  - case_bool_decide; [done|]. simplify_eq. congruence.
Qed.

(** Selection is by stake: a validator that joins has at least the stake of any
    eligible candidate left waiting, and a validator that is demoted has at most the
    stake of any that stays active. *)
Theorem epoch_selects_by_stake (height : Z) (r : Registry) (k k' : string) (e e' : ValidatorEntry) :
  validators r !! k = Some e -> validators r !! k' = Some e' ->
  (joins height r k -> Status e' = ValidatorPending -> ActivationEpoch e' <= height / EpochLength ->
   ~ joins height r k' -> StakeNAPR e' <= StakeNAPR e) /\
  (leaves height r k -> Status e' = ValidatorActive -> ~ leaves height r k' -> StakeNAPR e <= StakeNAPR e').
Proof.
  intros He He'. set (r1 := released height r).
  assert (Hr1 : forall x y, validators r !! x = Some y -> validators r1 !! x = Some (release height y)).
  { intros x y Hxy. unfold r1, released. cbn [validators with_validators]. by rewrite lookup_fmap, Hxy. }
  split.
  - intros Hj Hs' Ha' Hn. destruct (joins_joining _ _ _ Hj) as [Hlt Hin].
    apply joining_eligible in Hin as (e0 & He0 & _ & _ & Hin). assert (e0 = e) as -> by congruence.
    change (StakeNAPR (release height e') <= StakeNAPR (release height e)).
    eapply (sorted_before (sortedPendingLocked ord r1)); [apply (proj2 (Hord _))|exact Hin| |].
    + apply list_elem_of_filter. split; [done|]. unfold sortedPendingLocked. rewrite (proj1 (Hord _)).
      apply elem_of_with_status. split; [by apply Hr1|]. by apply release_pending.
    + intros Hin'. apply Hn. exists e', (set_status ValidatorActive (release height e')). split_and!; try done.
      rewrite epoch_lookup, He', (proj2 (Nat.ltb_lt _ _) Hlt), bool_decide_eq_true_2; [done|].
      apply list_elem_of_fmap. by exists (k', release height e').
  - intros Hl Hs' Hn. destruct (leaves_leaving _ _ _ Hl) as [Hge Hin].
    apply list_elem_of_fmap in Hin as ([k0 e0] & -> & Hin).
    assert (Hact : (k', release height e') ∈ ord (with_status ValidatorActive r1)).
    { rewrite (proj1 (Hord _)). apply elem_of_with_status. split; [by apply Hr1|]. by apply release_active. }
    assert (Hact0 : (k0, e0) ∈ ord (with_status ValidatorActive r1)).
    { eapply elem_of_sublist; [exact Hin|apply sublist_drop]. }
    rewrite (proj1 (Hord _)) in Hact0. apply elem_of_with_status in Hact0 as [Hk0 _]. simpl in He.
    assert (e0 = release height e) as -> by (apply Hr1 in He; congruence).
    change (StakeNAPR (release height e) <= StakeNAPR (release height e')).
    assert (Hsort := proj2 (Hord (with_status ValidatorActive r1))).
    rewrite <- (take_drop MaxValidators (ord (with_status ValidatorActive r1))) in Hact, Hsort.
    apply elem_of_app in Hact as [Hact|Hact].
    + by apply (StronglySorted_app_1_elem_of more_stake _ _ _ _ Hsort Hact Hin).
    + exfalso. apply Hn. exists e', (requeue (release height e')). split_and!; try done.
      rewrite epoch_lookup, He'. replace (active_count r <? MaxValidators)%nat with false by (symmetry; apply Nat.ltb_ge; lia).
      rewrite bool_decide_eq_true_2; [done|]. apply list_elem_of_fmap. by exists (k', release height e').
Qed.

End Epoch.

(** ** Determinism *)

(** No two registered validators have the same stake. *)
Definition distinct_stakes (r : Registry) : Prop :=
  forall k k' e e', validators r !! k = Some e -> validators r !! k' = Some e' ->
    StakeNAPR e = StakeNAPR e' -> k = k'.

Lemma sorts_unique ord ord' st r :
  sorts ord -> sorts ord' -> distinct_stakes r -> ord (with_status st r) = ord' (with_status st r).
Proof.
  intros Ho Ho' Hd. apply (StronglySorted_unique_strong more_stake); [|apply Ho|apply Ho'|].
  - intros [k e] [k' e'] Hx Hy H1 H2. rewrite (proj1 (Ho _)) in Hx. rewrite (proj1 (Ho' _)) in Hy.
    apply elem_of_with_status in Hx as [Hx _]. apply elem_of_with_status in Hy as [Hy _].
    unfold more_stake in *. simpl in *. assert (k = k') as <- by (eapply Hd; [done|done|lia]). congruence.
  - rewrite (proj1 (Ho _)). symmetry. apply Ho'.
Qed.

(** When no two stakes are equal the epoch transition is a function of the
    registry: the order in which the map is walked and ties are broken is
    irrelevant. *)
Theorem epoch_deterministic (ord ord' : list keyed -> list keyed) (height : Z) (r : Registry) :
  sorts ord -> sorts ord' -> distinct_stakes r -> UpdateEpoch ord height r = UpdateEpoch ord' height r.
Proof.
  intros Ho Ho' Hd. assert (Hd1 : distinct_stakes (released height r)).
  { unfold distinct_stakes, released. cbn [validators with_validators]. intros k k' e e'. rewrite !lookup_fmap.
    intros (e0 & He0 & ->)%fmap_Some (e0' & He0' & ->)%fmap_Some Hs. by eapply Hd. }
  assert (Hf : fst (UpdateEpoch ord height r) = fst (UpdateEpoch ord' height r)).
  { rewrite !update_epoch_cases by done. unfold joining, leaving, sortedPendingLocked.
    by rewrite !(sorts_unique ord ord') by done. }
  rewrite (surjective_pairing (UpdateEpoch ord height r)), (surjective_pairing (UpdateEpoch ord' height r)).
  f_equal; [done|]. unfold UpdateEpoch in *. cbn [fst snd] in *. by rewrite Hf.
Qed.

(** Two orders [sort.Slice] may produce. *)
Definition stable_ord (l : list keyed) : list keyed := merge_sort more_stake l.
Definition reverse_ord (l : list keyed) : list keyed := merge_sort more_stake (reverse l).

Lemma stable_sorts : sorts stable_ord.
Proof.
  intros l. split; [apply merge_sort_Permutation|]. apply StronglySorted_merge_sort; apply _.
Qed.

Lemma reverse_sorts : sorts reverse_ord.
Proof.
  intros l. split; [rewrite <- (reverse_Permutation l) at 2; apply merge_sort_Permutation|].
  apply StronglySorted_merge_sort; apply _.
Qed.

Definition tie_entry (n : byte) : keyed :=
  (pub_hex (replicate 32 n), mkEntry (replicate 32 n) MinStakeNAPR ValidatorPending 1 0 [] false 1 0).
Definition tie_registry : Registry :=
  with_validators (fun _ => list_to_map (tie_entry <$> [x01; x02; x03; x04])) NewValidatorRegistry.

(** With equal stakes it is not: four candidates of the minimum stake compete for
    three places and who is left out depends on the unspecified order. *)
Theorem epoch_tie_nondeterministic :
  sorts stable_ord /\ sorts reverse_ord /\
  snd (UpdateEpoch stable_ord 100 tie_registry) <> snd (UpdateEpoch reverse_ord 100 tie_registry).
Proof.
  split_and!; [apply stable_sorts|apply reverse_sorts|]. vm_compute. discriminate.
Qed.

(** ** Elapsed unbonding *)

(** When the lock of a partial withdrawal has elapsed the epoch transition drops
    the queue entry and credits its amount to nobody: the stake, the UTXO set and the
    staked collateral are as before. *)
Theorem elapsed_unbonding_dropped (ord : list keyed -> list keyed) (height : Z) (r : Registry)
    (k : string) (e : ValidatorEntry) :
  sorts ord -> validators r !! k = Some e -> Forall (fun ub => ub_EndBlock ub <= height) (UnbondingQueue e) ->
  let r' := fst (UpdateEpoch ord height r) in
  r_utxos r' = r_utxos r /\
  exists e', validators r' !! k = Some e' /\ UnbondingQueue e' = [] /\ PendingUnbondingNAPR e' = 0 /\
    StakeNAPR e' = StakeNAPR e.
Proof.
  intros Ho He Hq. cbv zeta. split.
  - rewrite update_epoch_cases by done. by destruct (_ <? _)%nat.
  - assert (Hempty : UnbondingQueue (release height e) = []).
    { unfold release. cbn [UnbondingQueue]. clear He. induction Hq as [|x l Hx Hl IH]; [done|].
      rewrite filter_cons, decide_False by lia. done. }
    rewrite epoch_lookup, He by done. unfold PendingUnbondingNAPR.
    destruct (_ <? _)%nat; case_bool_decide; (eexists; split; [reflexivity|]; split; [exact Hempty|]; split; [|done]);
      cbn [set_status requeue UnbondingQueue]; by rewrite Hempty.
Qed.

(** ** Witnesses *)

(** One active validator with an elapsed queue entry, two candidates. *)
Definition ex_entry (n : byte) (stake : Z) (st : ValidatorStatus) (q : list UnbondingEntry) : keyed :=
  (pub_hex (replicate 32 n), mkEntry (replicate 32 n) stake st 1 0 q false 1 0).
Definition ex_epoch : Registry :=
  with_validators (fun _ => list_to_map
    [ex_entry x01 50 ValidatorActive [mkUnbonding 9 90]; ex_entry x02 40 ValidatorPending [];
     ex_entry x03 30 ValidatorPending []]) NewValidatorRegistry.

(** Twenty-two active validators: one over the cap. *)
Definition ex_crowd : Registry :=
  with_validators (fun _ => list_to_map
    (imap (fun i n => ex_entry n (100 + Z.of_nat i) ValidatorActive [])
       [x01; x02; x03; x04; x05; x06; x07; x08; x09; x0a; x0b; x0c; x0d; x0e; x0f; x10; x11; x12; x13; x14; x15; x16]))
    NewValidatorRegistry.

Lemma epoch_active_set_witness :
  active_count ex_epoch = 1%nat /\ active_count (fst (UpdateEpoch stable_ord 100 ex_epoch)) = 3%nat /\
  (active_count (fst (UpdateEpoch stable_ord 100 ex_crowd)) <= MaxValidators)%nat.
Proof.
  split; [vm_compute; reflexivity|]. split.
  - rewrite (proj1 (epoch_active_set stable_ord stable_sorts 100 ex_epoch)). vm_compute. reflexivity.
  - apply (epoch_active_set stable_ord stable_sorts 100 ex_crowd).
Defined.

(** The lowest of the twenty-two is demoted, the highest stays. *)
Lemma epoch_selects_by_stake_witness :
  StakeNAPR (snd (ex_entry x01 100 ValidatorActive [])) <= StakeNAPR (snd (ex_entry x16 121 ValidatorActive [])).
Proof.
  refine (proj2 (epoch_selects_by_stake stable_ord stable_sorts 100 ex_crowd (pub_hex (replicate 32 x01))
    (pub_hex (replicate 32 x16)) _ _ _ _) _ _ _).
  - vm_compute. reflexivity.
  - vm_compute. reflexivity.
  - exists (snd (ex_entry x01 100 ValidatorActive [])), (requeue (snd (ex_entry x01 100 ValidatorActive []))).
    split_and!; vm_compute; reflexivity.
  - reflexivity.
  - intros (e & e' & _ & _ & He' & Hs'). vm_compute in He'. injection He' as <-. discriminate Hs'.
Defined.

Lemma epoch_deterministic_witness :
  UpdateEpoch stable_ord 100 ex_epoch = UpdateEpoch reverse_ord 100 ex_epoch.
Proof.
  apply (epoch_deterministic stable_ord reverse_ord 100 ex_epoch stable_sorts reverse_sorts).
  intros k k' e e' Hk Hk'. apply elem_of_list_to_map_2 in Hk. apply elem_of_list_to_map_2 in Hk'.
  repeat (apply elem_of_cons in Hk as [Hk|Hk]; [injection Hk as -> ->|]); [| | |by apply elem_of_nil in Hk];
  (repeat (apply elem_of_cons in Hk' as [Hk'|Hk']; [injection Hk' as -> ->|]); [| | |by apply elem_of_nil in Hk']);
  done.
Defined.

Lemma elapsed_unbonding_dropped_witness :
  exists e', validators (fst (UpdateEpoch stable_ord 100 ex_epoch)) !! pub_hex (replicate 32 x01) = Some e' /\
    UnbondingQueue e' = [] /\ StakeNAPR e' = 50.
Proof.
  destruct (elapsed_unbonding_dropped stable_ord 100 ex_epoch (pub_hex (replicate 32 x01))
    (snd (ex_entry x01 50 ValidatorActive [mkUnbonding 9 90])) stable_sorts) as (_ & e' & He' & Hq & _ & Hs).
  - vm_compute. reflexivity.
  - constructor; [simpl; lia|constructor].
  - exists e'. split; [exact He'|]. split; [exact Hq|exact Hs].
Defined.

End StakingEpoch.
