(* ===== verification/StakingReplay.v ===== *)
(** Replay protection of version 2 withdrawals across the life of a registry:
    [applyWithdrawalV2Locked] of [core/staking.go] under every later block, epoch
    transition, seeding and configuration change. *)

From stdpp Require Import base gmap list strings sorting.
From S2P Require Import Prelude Bytes Crypto Avm StakePayload Transaction Utxo Staking StakingEpoch.
Import Transaction StakePayload Staking StakingEpoch.

Module StakingReplay.

(** ** The life of a registry *)

Section Life.
Context `{Crypto}.

(** One change of the registry; [ApplyBlockStakeTxs] counts when it succeeds,
    [ProcessStakeTx] and [ReplayBlockStakeTxs] whatever they return. *)
Inductive reg_step : Registry -> Registry -> Prop :=
| step_block txs height r r' rollback :
    ApplyBlockStakeTxs txs height r = (r', Ok rollback) -> reg_step r r'
| step_process tx height r : reg_step r (fst (ProcessStakeTx tx height r))
| step_replay txs height r : reg_step r (fst (ReplayBlockStakeTxs height txs r))
| step_epoch ord height r : sorts ord -> reg_step r (fst (UpdateEpoch ord height r))
| step_seed pubs r : reg_step r (SeedFromObservedProducers pubs r)
| step_min m r : reg_step r (set_dynamicMin m r)
| step_utxos o r : reg_step r (SetUTXOSet o r)
| step_admission h r : reg_step r (SetSignatureAdmissionHeight h r).

(** ** Nonces never go back *)

Definition nonces_u64 (r : Registry) : Prop :=
  forall k e, validators r !! k = Some e -> is_u64 (StakeAuthNonce e).

Definition grows (r r' : Registry) : Prop :=
  forall k e, validators r !! k = Some e ->
    exists e', validators r' !! k = Some e' /\ StakeAuthNonce e <= StakeAuthNonce e'.

(** A change that keeps nonces in range and never lowers one. *)
Definition monotone (r r' : Registry) : Prop := nonces_u64 r -> nonces_u64 r' /\ grows r r'.

Lemma monotone_refl r : monotone r r.
Proof. intros Hn. split; [done|]. intros k e He. exists e. split; [done|lia]. Qed.

Lemma monotone_trans r1 r2 r3 : monotone r1 r2 -> monotone r2 r3 -> monotone r1 r3.
Proof.
  intros H12 H23 H1. destruct (H12 H1) as [H2 G12]. destruct (H23 H2) as [H3 G23]. split; [done|].
  intros k e He. destruct (G12 k e He) as (e2 & He2 & L2). destruct (G23 k e2 He2) as (e3 & He3 & L3).
  exists e3. split; [done|lia].
Qed.

Lemma monotone_entries r r' : validators r' = validators r -> monotone r r'.
Proof. intros Hv Hn. unfold nonces_u64, grows. rewrite Hv. by apply monotone_refl. Qed.

(** Replacing one entry by one with the same nonce. *)
Lemma monotone_keep r key e e' :
  validators r !! key = Some e -> StakeAuthNonce e' = StakeAuthNonce e ->
  monotone r (with_validators <[key := e']> r).
Proof.
  intros He Hs Hn. split.
  - intros k x Hk. simpl in Hk. apply lookup_insert_Some in Hk as [[_ <-]|[_ Hk]]; [rewrite Hs|]; by eapply Hn.
  - intros k x Hk. simpl. destruct (decide (k = key)) as [->|Hne].
    + exists e'. rewrite lookup_insert_eq. split; [done|]. assert (x = e) as -> by congruence. lia.
    + exists x. rewrite lookup_insert_ne by done. split; [done|lia].
Qed.

Lemma monotone_new r key e' :
  validators r !! key = None -> is_u64 (StakeAuthNonce e') -> monotone r (with_validators <[key := e']> r).
Proof.
  intros He Hs Hn. split.
  - intros k x Hk. simpl in Hk. apply lookup_insert_Some in Hk as [[_ <-]|[_ Hk]]; [done|]. by eapply Hn.
  - intros k x Hk. simpl. exists x. rewrite lookup_insert_ne by congruence. split; [done|lia].
Qed.

(** Mapping every entry by a function that keeps the nonce. *)
Lemma monotone_fmap r (f : ValidatorEntry -> ValidatorEntry) :
  (forall e, StakeAuthNonce (f e) = StakeAuthNonce e) -> monotone r (with_validators (fmap f) r).
Proof.
  intros Hf Hn. split; intros k e; simpl.
  - rewrite lookup_fmap. intros (e0 & He0 & ->)%fmap_Some. rewrite Hf. by eapply Hn.
  - intros He. exists (f e). rewrite lookup_fmap, He, Hf. split; [done|lia].
Qed.

Lemma monotone_deposit key pub amount height r r' :
  applyDeposit key pub amount height r = Ok r' -> monotone r r'.
Proof.
  intros Hd. unfold applyDeposit in Hd. apply reject_ok in Hd as [_ Hd]. apply reject_ok in Hd as [_ Hd].
  assert (Hdem : forall rr, monotone r rr -> monotone r (demoteSeededLocked rr)).
  { intros rr Hrr. eapply monotone_trans; [done|]. apply monotone_fmap. intros e. apply demote_fields. }
  destruct (validators r !! key) as [e|] eqn:Ek.
  - apply reject_ok in Hd as [_ Hd]. destruct (Seeded e).
    + apply Ok_inj in Hd as <-. by eapply Hdem, monotone_keep.
    + apply reject_ok in Hd as [_ Hd]. apply reject_ok in Hd as [_ Hd]. apply Ok_inj in Hd as <-.
      by eapply Hdem, monotone_keep.
  - apply Ok_inj in Hd as <-. apply Hdem, monotone_new; [done|]. simpl. u64lia.
Qed.

(** Withdrawals keep every nonce. *)
Definition keeps_nonces (r r' : Registry) : Prop :=
  forall k, StakeAuthNonce <$> validators r' !! k = StakeAuthNonce <$> validators r !! k.

Lemma keeps_monotone r r' : keeps_nonces r r' -> monotone r r'.
Proof.
  intros Hk Hn. split; intros k e He; specialize (Hk k); rewrite He in Hk; simpl in Hk.
  - symmetry in Hk. apply fmap_Some in Hk as (e0 & He0 & ->). by eapply Hn.
  - apply fmap_Some in Hk as (e' & He' & Hs). exists e'. split; [done|lia].
Qed.

Lemma keeps_insert r key e e' :
  validators r !! key = Some e -> StakeAuthNonce e' = StakeAuthNonce e ->
  keeps_nonces r (with_validators <[key := e']> r).
Proof.
  intros He Hs k. simpl. destruct (decide (k = key)) as [->|Hne].
  - rewrite lookup_insert_eq, He. simpl. by rewrite Hs.
  - by rewrite lookup_insert_ne.
Qed.

Lemma withdraw_keeps key height r r' : applyWithdraw key height r = Ok r' -> keeps_nonces r r'.
Proof.
  unfold applyWithdraw. destruct (validators r !! key) as [e|] eqn:Ek; [|done]. intros Hd.
  apply reject_ok in Hd as [_ Hd]. apply Ok_inj in Hd as <-. by eapply keeps_insert.
Qed.

Lemma partial_keeps key amount height r r' : applyPartialWithdraw key amount height r = Ok r' -> keeps_nonces r r'.
Proof.
  unfold applyPartialWithdraw. destruct (validators r !! key) as [e|] eqn:Ek; [|done]. intros Hd.
  do 4 apply reject_ok in Hd as [_ Hd]. apply Ok_inj in Hd as <-. by eapply keeps_insert.
Qed.

Lemma legacy_monotone r height p r' : legacy_withdrawal r height p = Ok r' -> monotone r r'.
Proof.
  unfold legacy_withdrawal. intros Hd. do 3 apply reject_ok in Hd as [_ Hd].
  case_bool_decide; [by eapply keeps_monotone, withdraw_keeps|].
  case_bool_decide; [by eapply keeps_monotone, partial_keeps|done].
Qed.

Lemma replay_v1_monotone r height p r' : replay_v1 r height p = Ok r' -> monotone r r'.
Proof.
  unfold replay_v1. intros Hd. do 3 apply reject_ok in Hd as [_ Hd].
  case_bool_decide; [by eapply keeps_monotone, withdraw_keeps|].
  case_bool_decide; [by eapply keeps_monotone, partial_keeps|].
  case_bool_decide; [by eapply monotone_deposit|done].
Qed.

(** An accepted authorization carries the next nonce and records it. *)
Lemma withdrawal_v2_nonce a height r r' :
  applyWithdrawalV2Locked a height r = Ok r' -> nonces_u64 r ->
  exists e e', validators r !! pub_hex (wa_PubKey a) = Some e /\ wa_Nonce a = StakeAuthNonce e + 1 /\
    is_u64 (wa_Nonce a) /\
    validators r' !! pub_hex (wa_PubKey a) = Some e' /\ StakeAuthNonce e' = wa_Nonce a /\
    (forall k, k <> pub_hex (wa_PubKey a) -> StakeAuthNonce <$> validators r' !! k = StakeAuthNonce <$> validators r !! k).
Proof.
  intros Hd Hn. unfold applyWithdrawalV2Locked in Hd. apply bind_ok in Hd as (e & Hv & Hd).
  apply bind_ok in Hd as (r1 & Hr1 & Hd). apply Ok_inj in Hd as <-.
  assert (Hk : keeps_nonces r r1).
  { case_bool_decide; [apply reject_ok in Hr1 as [_ Hr1]; by eapply withdraw_keeps|].
    case_bool_decide; [by eapply partial_keeps|done]. }
  unfold validateWithdrawalV2Locked in Hv. do 4 apply reject_ok in Hv as [_ Hv].
  destruct (validators r !! _) as [e0|] eqn:Ee; [|done]. apply reject_ok in Hv as [_ Hv].
  apply reject_ok in Hv as [Hnon _]. zbool. assert (Hu := Hn _ _ Ee).
  rewrite wrap64_small in * by u64lia. assert (Hk0 := Hk (pub_hex (wa_PubKey a))). rewrite Ee in Hk0.
  apply fmap_Some in Hk0 as (e1 & He1 & _). exists e0, (set_nonce (wa_Nonce a) e1).
  split_and!; try done; [u64lia| |].
  - simpl. by rewrite lookup_alter_eq, He1.
  - intros k Hne. simpl. by rewrite lookup_alter_ne, Hk.
Qed.

Lemma withdrawal_v2_monotone a height r r' : applyWithdrawalV2Locked a height r = Ok r' -> monotone r r'.
Proof.
  intros Hd Hn. destruct (withdrawal_v2_nonce a height r r' Hd Hn) as (e & e' & He & Hnx & Hu & He' & Hs & Hrest).
  split; intros k x Hx; (destruct (decide (k = pub_hex (wa_PubKey a))) as [->|Hne]; [|specialize (Hrest k Hne); rewrite Hx in Hrest]).
  - assert (x = e') as -> by congruence. by rewrite Hs.
  - symmetry in Hrest. apply fmap_Some in Hrest as (e0 & He0 & ->). by eapply Hn.
  - exists e'. split; [done|]. assert (x = e) as -> by congruence. lia.
  - apply fmap_Some in Hrest as (e0 & He0 & Hs0). exists e0. split; [done|lia].
Qed.

(** ** Every step of the registry *)

Lemma mark_staked_monotone txHash outIdx r r' : reg_MarkStaked txHash outIdx r = Ok r' -> monotone r r'.
Proof.
  unfold reg_MarkStaked. destruct (r_utxos r); [|done]. intros Hd. apply bind_ok in Hd as (s' & _ & Hd).
  apply Ok_inj in Hd as <-. by apply monotone_entries.
Qed.

Lemma burn_and_deposit_monotone d height r : monotone r (fst (burn_and_deposit d height r)).
Proof.
  unfold burn_and_deposit. destruct (reg_MarkStaked _ _ r) as [r1|] eqn:Em; [|apply monotone_refl].
  apply mark_staked_monotone in Em. destruct (applyDeposit _ _ _ _ r1) as [r2|] eqn:Ed; simpl.
  - apply monotone_deposit in Ed. by eapply monotone_trans.
  - eapply monotone_trans; [done|]. by apply monotone_entries.
Qed.

Lemma burn_then_deposit_monotone d height r : monotone r (fst (burn_then_deposit d height r)).
Proof.
  unfold burn_then_deposit. destruct (reg_MarkStaked _ _ r) as [r1|] eqn:Em; [|apply monotone_refl].
  apply mark_staked_monotone in Em. destruct (applyDeposit _ _ _ _ r1) as [r2|] eqn:Ed; simpl; [|done].
  apply monotone_deposit in Ed. by eapply monotone_trans.
Qed.

Lemma plain_monotone r m : (forall r', m = Ok r' -> monotone r r') -> monotone r (fst (plain r m)).
Proof. intros Hm. destruct m; [by apply Hm|apply monotone_refl]. Qed.

Lemma guarded_monotone {A} r (m : result A) k : monotone r (fst k) -> monotone r (fst (guarded r m k)).
Proof. intros Hk. destruct m; [done|apply monotone_refl]. Qed.

Lemma v1_monotone r height extra r' :
  (p ← DecodeStakeExtra extra; legacy_withdrawal r height p) = Ok r' -> monotone r r'.
Proof. intros Hd. apply bind_ok in Hd as (p & _ & Hd). by eapply legacy_monotone. Qed.

Lemma v2_monotone r height extra r' :
  (a ← DecodeStakeWithdrawalExtraV2 extra; applyWithdrawalV2Locked a height r) = Ok r' -> monotone r r'.
Proof. intros Hd. apply bind_ok in Hd as (a & _ & Hd). by eapply withdrawal_v2_monotone. Qed.

Lemma apply_one_monotone height r tx : monotone r (fst (applyOneTxLocked height r tx)).
Proof.
  unfold applyOneTxLocked. destruct (negb (IsStake tx)); [apply monotone_refl|].
  destruct (len_is (Extra tx) StakePayloadSize); [apply plain_monotone, v1_monotone|].
  destruct (len_is (Extra tx) StakeWithdrawalPayloadSizeV2); [apply plain_monotone, v2_monotone|].
  destruct (len_is (Extra tx) StakePayloadSizeV2).
  { destruct (DecodeStakeExtraV2 _) as [d|]; [|apply monotone_refl]. apply guarded_monotone, burn_and_deposit_monotone. }
  destruct (len_is (Extra tx) StakePayloadSizeV3).
  { destruct (DecodeStakeExtraV3 _) as [[d ots]|]; [|apply monotone_refl]. apply guarded_monotone, burn_and_deposit_monotone. }
  destruct (len_is (Extra tx) StakePayloadSizeV4); [|apply monotone_refl].
  destruct (DecodeStakeExtraV4 _) as [[[d ki] proof]|]; [|apply monotone_refl].
  apply guarded_monotone, burn_and_deposit_monotone.
Qed.

Lemma apply_loop_monotone height txs : forall r keys r' keys' res,
  apply_loop height txs r keys = (r', keys', res) -> monotone r r'.
Proof.
  induction txs as [|tx txs IH]; intros r keys r' keys' res Hl; simpl in Hl; [simplify_eq; apply monotone_refl|].
  destruct (negb (IsStake tx)); [by eapply IH|]. assert (H1 := apply_one_monotone height r tx).
  destruct (applyOneTxLocked height r tx) as [r1 [[k|]|e]]; simpl in H1.
  - eapply monotone_trans; [done|by eapply IH].
  - eapply monotone_trans; [done|by eapply IH].
  - by simplify_eq.
Qed.

(** A registry operation whose result replaces the state. *)
Lemma simple_monotone {B} r (m : result Registry) (x : B) (f : string -> B) :
  (forall r', m = Ok r' -> monotone r r') ->
  monotone r (fst (match m with Ok r' => (r', x) | Err e => (r, f e) end)).
Proof. intros Hm. destruct m; [by apply Hm|apply monotone_refl]. Qed.

Lemma process_monotone tx height r : monotone r (fst (ProcessStakeTx tx height r)).
Proof.
  unfold ProcessStakeTx. destruct (negb (IsStake tx)); [apply monotone_refl|].
  destruct (len_is (Extra tx) StakePayloadSize); [apply simple_monotone, v1_monotone|].
  destruct (len_is (Extra tx) StakeWithdrawalPayloadSizeV2); [apply simple_monotone, v2_monotone|].
  destruct (len_is (Extra tx) StakePayloadSizeV2).
  { destruct (DecodeStakeExtraV2 _) as [d|]; [|apply monotone_refl].
    destruct (_ ← deposit_auth _ _ _; _); [apply burn_then_deposit_monotone|apply monotone_refl]. }
  destruct (len_is (Extra tx) StakePayloadSizeV3).
  { destruct (DecodeStakeExtraV3 _) as [[d ots]|]; [|apply monotone_refl].
    destruct (_ ← deposit_auth _ _ _; _); [apply burn_then_deposit_monotone|apply monotone_refl]. }
  destruct (len_is (Extra tx) StakePayloadSizeV4); [|apply monotone_refl].
  destruct (DecodeStakeExtraV4 _) as [[[d ki] proof]|]; [|apply monotone_refl].
  destruct (validateStakeDepositV4 _ _ _ _ _ _ _); [apply burn_then_deposit_monotone|apply monotone_refl].
Qed.

Lemma known_deposit_monotone txHash outIdx u key pub amount height r :
  monotone r (fst (match applyDeposit key pub amount height (reg_MarkStakedKnown txHash outIdx u r) with
                   | Ok r2 => (r2, Ok ())
                   | Err e => (reg_MarkStakedKnown txHash outIdx u r, Err e)
                   end)).
Proof.
  assert (H1 : monotone r (reg_MarkStakedKnown txHash outIdx u r)) by by apply monotone_entries.
  destruct (applyDeposit _ _ _ _ _) as [r2|] eqn:Ed; [|done]. apply monotone_deposit in Ed. exact (monotone_trans _ _ _ H1 Ed).
Qed.

Lemma replay_one_monotone height r tx : monotone r (fst (replayOneTxLocked height r tx)).
Proof.
  unfold replayOneTxLocked. destruct (negb (IsStake tx)); [apply monotone_refl|].
  destruct (len_is (Extra tx) StakePayloadSize).
  { apply simple_monotone. intros r' Hd. apply bind_ok in Hd as (p & _ & Hd). by eapply replay_v1_monotone. }
  destruct (len_is (Extra tx) StakeWithdrawalPayloadSizeV2); [apply simple_monotone, v2_monotone|].
  destruct (len_is (Extra tx) StakePayloadSizeV2).
  { destruct (d ← DecodeStakeExtraV2 _; _) as [d|]; [apply known_deposit_monotone|apply monotone_refl]. }
  destruct (len_is (Extra tx) StakePayloadSizeV3).
  { destruct (DecodeStakeExtraV3 _) as [[d ots]|]; [|apply monotone_refl]. cbn [mbind result_bind].
    destruct (deposit_auth _ _ _); [apply known_deposit_monotone|apply monotone_refl]. }
  destruct (len_is (Extra tx) StakePayloadSizeV4); [|apply monotone_refl].
  destruct (DecodeStakeExtraV4 _) as [[[d ki] proof]|]; [|apply monotone_refl]. cbn [mbind result_bind].
  destruct (validateStakeDepositV4 _ _ _ _ _ _ _) as [u|]; [apply known_deposit_monotone|apply monotone_refl].
Qed.

Lemma replay_block_monotone height txs : forall r, monotone r (fst (ReplayBlockStakeTxs height txs r)).
Proof.
  induction txs as [|tx txs IH]; intros r; [apply monotone_refl|]. cbn [ReplayBlockStakeTxs].
  destruct (negb (IsStake tx)); [apply IH|]. assert (H1 := replay_one_monotone height r tx).
  destruct (replayOneTxLocked height r tx) as [r1 [[]|e]]; [|done]. eapply monotone_trans; [done|apply IH].
Qed.

Lemma epoch_monotone ord height r : sorts ord -> monotone r (fst (UpdateEpoch ord height r)).
Proof.
  intros Ho. apply keeps_monotone. intros k. rewrite epoch_lookup by done.
  destruct (validators r !! k); [|done]. destruct (_ <? _)%nat; by case_bool_decide.
Qed.

Lemma seed_monotone mk pubs : (forall p, StakeAuthNonce (mk p) = 0) -> forall r, monotone r (seed_entries mk pubs r).
Proof.
  intros Hz. induction pubs as [|p pubs IH]; intros r; [apply monotone_refl|]. unfold seed_entries in *. cbn [foldl].
  eapply monotone_trans; [|apply IH]. case_bool_decide as Hs; [apply monotone_refl|].
  apply monotone_new; [by destruct (validators r !! pub_hex p); [destruct Hs|]|]. rewrite Hz. u64lia.
Qed.

Lemma step_monotone r r' : reg_step r r' -> monotone r r'.
Proof.
  intros Hs. destruct Hs.
  - unfold ApplyBlockStakeTxs in *. destruct (negb _); [simplify_eq; apply monotone_refl|].
    destruct (apply_loop height txs r []) as [[r1 keys] [[]|e]] eqn:El; simplify_eq. by eapply apply_loop_monotone.
  - apply process_monotone.
  - apply replay_block_monotone.
  - by apply epoch_monotone.
  - by apply seed_monotone.
  - by apply monotone_entries.
  - by apply monotone_entries.
  - by apply monotone_entries.
Qed.

Lemma life_monotone r r' : rtc reg_step r r' -> monotone r r'.
Proof.
  induction 1 as [|r1 r2 r3 Hs _ IH]; [apply monotone_refl|]. eapply monotone_trans; [by apply step_monotone|done].
Qed.

(** C15: a version 2 withdrawal authorization is good once: after it has been applied
    no sequence of blocks, replays, epochs and seedings brings the registry to a
    state, at any height, in which it is accepted again. *)
Theorem withdrawal_no_replay (a : StakeWithdrawalAuthorizationV2) (height height' : Z) (r r' r'' : Registry) :
  nonces_u64 r -> applyWithdrawalV2Locked a height r = Ok r' -> rtc reg_step r' r'' ->
  is_ok (applyWithdrawalV2Locked a height' r'') = false.
Proof.
  intros Hn Ha Hl. destruct (withdrawal_v2_monotone _ _ _ _ Ha Hn) as [Hn' _].
  destruct (withdrawal_v2_nonce _ _ _ _ Ha Hn) as (_ & e' & _ & _ & _ & He' & Hs' & _).
  destruct (life_monotone _ _ Hl Hn') as [Hn'' Hg]. destruct (Hg _ _ He') as (e'' & He'' & Hle).
  destruct (applyWithdrawalV2Locked a height' r'') as [r3|] eqn:E; [|done].
  destruct (withdrawal_v2_nonce _ _ _ _ E Hn'') as (e & _ & He & Hnx & _).
  assert (e = e'') as -> by congruence. lia.
Qed.

End Life.

(** ** Witness *)

Definition ex_pub : ValidatorPubKey := replicate 32 xaa.
Definition ex_chain : Hash32 := copy_arr 32 [x07].
Definition ex_registered : Registry :=
  mkRegistry {[ pub_hex ex_pub := mkEntry ex_pub 30000000000000 ValidatorActive 0 0 [] false 1 0 ]}
    0 None ex_chain 10 0 None 0.
Definition ex_withdrawal : StakeWithdrawalAuthorizationV2 :=
  mkAuthV2 StakePartialWithdraw ex_pub 5 ex_chain 1 1 60
    (StakeReferenceV2 (H := toy_crypto) ex_chain ex_pub 1 30000000000000) (xaa :: replicate 63 x00).
Definition ex_withdrawn : Registry :=
  match applyWithdrawalV2Locked (H := toy_crypto) ex_withdrawal 20 ex_registered with
  | Ok r => r | Err _ => ex_registered end.
(** An epoch later, with a lower minimum. *)
Definition ex_later : Registry := set_dynamicMin 1 (fst (UpdateEpoch stable_ord 100 ex_withdrawn)).

Lemma withdrawal_no_replay_witness :
  is_ok (applyWithdrawalV2Locked (H := toy_crypto) ex_withdrawal 20 ex_registered) = true /\
  is_ok (applyWithdrawalV2Locked (H := toy_crypto) ex_withdrawal 30 ex_later) = false.
Proof.
  split; [vm_compute; reflexivity|].
  apply (withdrawal_no_replay (H := toy_crypto) ex_withdrawal 20 30 ex_registered ex_withdrawn ex_later).
  - intros k e Hk. unfold ex_registered in Hk. cbn [validators] in Hk.
    apply lookup_singleton_Some in Hk as [_ <-]. simpl. u64lia.
  - apply ok_value. vm_compute. reflexivity.
  - eapply rtc_l; [apply (step_epoch (H := toy_crypto) stable_ord 100), stable_sorts|].
    eapply rtc_l; [apply (step_min (H := toy_crypto) 1)|apply rtc_refl].
Defined.

End StakingReplay.
