(* ===== verification/KeyValue.v ===== *)
(** The database of [store/leveldb.go] as a byte map: the key layout of each
    namespace, atomic batches and the ordered scans the typed methods are built on.

    The engine under it (LevelDB) keeps its keys in the order of [bytes.Compare],
    applies a batch as a whole and in the order of its operations, and an iterator
    visits a range of keys in that order.  A failed read or write ends the method
    that made it, with the store unchanged; the model covers the executions in which
    the engine answers. *)

From stdpp Require Import base gmap list strings sorting.
From S2P Require Import Prelude Bytes Crypto Avm.
Import Avm.

Module KeyValue.

(** ** The store *)

Abbreviation KV := (gmap (list byte) (list byte)) (only parsing).

Inductive batch_op := Put (k v : list byte) | Delete (k : list byte).

Definition apply_op (m : KV) (o : batch_op) : KV :=
  match o with Put k v => <[k := v]> m | Delete k => delete k m end.

(** [db.Write(batch)]. *)
Definition write (b : list batch_op) (m : KV) : KV := foldl apply_op m b.

(** [db.put] and [db.putSync]; [db.del]; [db.has]. *)
Definition put (k v : list byte) (m : KV) : KV := <[k := v]> m.
Definition del (k : list byte) (m : KV) : KV := delete k m.
Definition has (m : KV) (k : list byte) : bool := bool_decide (is_Some (m !! k)).

Definition bytes_le (a b : list byte) : bool := match bytes_compare a b with Gt => false | _ => true end.
Definition key_le (x y : list byte * list byte) : Prop := bytes_le x.1 y.1 = true.
#[export] Instance key_le_dec : RelDecision key_le.
Proof. intros x y. unfold key_le. apply _. Defined.

Definition has_prefix (p k : list byte) : bool := bool_decide (take (length p) k = p).

(** [db.NewIterator(util.BytesPrefix(p))]: the entries under [p], in key order. *)
Definition scan (p : list byte) (m : KV) : list (list byte * list byte) :=
  merge_sort key_le (filter (fun e => has_prefix p e.1 = true) (map_to_list m)).

(** [db.NewIterator(&util.Range{Start: a, Limit: b})]. *)
Definition scan_range (a b : list byte) (m : KV) : list (list byte * list byte) :=
  merge_sort key_le (filter (fun e => bytes_le a e.1 && bytes_lt e.1 b = true) (map_to_list m)).

(** ** Namespaces *)

Definition prefixBlock : list byte := bytes_of_string "b/".
Definition prefixHeight : list byte := bytes_of_string "h/".
Definition prefixUTXO : list byte := bytes_of_string "u/".
Definition prefixKeyImage : list byte := bytes_of_string "k/".
Definition prefixMeta : list byte := bytes_of_string "m/".
Definition prefixTxIdx : list byte := bytes_of_string "t/".
Definition prefixSpentUTXO : list byte := bytes_of_string "su/".
Definition prefixRingMember : list byte := bytes_of_string "rm/".
Definition prefixStakeBlock : list byte := bytes_of_string "sb/".
Definition prefixAVM : list byte := bytes_of_string "a/".
Definition ringSamplingSlotPrefix : list byte := bytes_of_string "rs1/".
Definition ringSamplingReversePrefix : list byte := bytes_of_string "ri1/".

Definition prefixes : list (list byte) :=
  [prefixBlock; prefixHeight; prefixUTXO; prefixKeyImage; prefixMeta; prefixTxIdx; prefixSpentUTXO;
   prefixRingMember; prefixStakeBlock; prefixAVM; ringSamplingSlotPrefix; ringSamplingReversePrefix].

(** ** Keys *)

Definition blockKey (hash : Hash32) : list byte := prefixBlock ++ arr_list hash.
Definition heightKey (h : Z) : list byte := prefixHeight ++ be_encode 8 h.
Definition utxoKey (txHash : Hash32) (outIdx : Z) : list byte := prefixUTXO ++ arr_list txHash ++ le_encode 4 outIdx.
Definition spentUTXOKey (txHash : Hash32) (outIdx : Z) : list byte :=
  prefixSpentUTXO ++ arr_list txHash ++ be_encode 4 outIdx.
Definition stakeBlockKey (h : Z) : list byte := prefixStakeBlock ++ be_encode 8 h.
Definition ringMemberKey (pub : Point32) : list byte := prefixRingMember ++ arr_list pub.
Definition metaKey (key : list byte) : list byte := prefixMeta ++ key.
Definition txIdxKey (txHash : Hash32) : list byte := prefixTxIdx ++ arr_list txHash.
Definition avmKey (key : list byte) : list byte := prefixAVM ++ key.
Definition ringSamplingSlotKey (index : Z) : list byte := ringSamplingSlotPrefix ++ be_encode 8 index.
Definition ringSamplingReverseKey (pub : Point32) : list byte := ringSamplingReversePrefix ++ arr_list pub.
Definition ringSamplingCountKey : list byte := bytes_of_string "m/ring-sampling-v1/count".

#[global] Arguments blockKey : simpl never.
#[global] Arguments heightKey : simpl never.
#[global] Arguments utxoKey : simpl never.
#[global] Arguments spentUTXOKey : simpl never.
#[global] Arguments stakeBlockKey : simpl never.
#[global] Arguments ringMemberKey : simpl never.
#[global] Arguments ringSamplingSlotKey : simpl never.
#[global] Arguments ringSamplingReverseKey : simpl never.

(** [PutMeta], [PutMetaSync] and [GetMeta]. *)
Definition PutMeta (key : list byte) (v : list byte) (m : KV) : KV := put (metaKey key) v m.
Definition GetMeta (m : KV) (key : list byte) : option (list byte) := m !! metaKey key.

(** ** Distinct namespaces *)

Fixpoint clash (p q : list byte) : bool :=
  match p, q with
  | x :: p', y :: q' => if bool_decide (x = y) then clash p' q' else false
  | _, _ => true
  end.

Lemma clash_sound p q x y : clash p q = false -> p ++ x <> q ++ y.
Proof.
  revert q. induction p as [|a p IH]; intros [|b q]; cbn; try done.
  case_bool_decide as Hab; [subst|intros _; congruence]. intros Hc [= E]. by apply (IH q Hc).
Qed.

(** No prefix is the beginning of another one. *)
Lemma prefixes_apart : forallb (fun p => forallb (fun q => bool_decide (p = q) || negb (clash p q)) prefixes) prefixes = true.
Proof. vm_compute. reflexivity. Qed.

Lemma namespaces_apart p q x y : p ∈ prefixes -> q ∈ prefixes -> p <> q -> p ++ x <> q ++ y.
Proof.
  intros Hp Hq Hne. apply clash_sound. assert (H := prefixes_apart).
  rewrite forallb_forall in H. specialize (H p (proj1 (list_elem_of_In _ _) Hp)). cbn beta in H.
  rewrite forallb_forall in H. specialize (H q (proj1 (list_elem_of_In _ _) Hq)). cbn beta in H.
  rewrite bool_decide_eq_false_2 in H by done. cbn in H. by apply negb_true_iff.
Qed.

Ltac in_prefixes := unfold prefixes; repeat (first [left | right]).

(** Two keys of different namespaces. *)
Ltac key_ne :=
  unfold blockKey, heightKey, utxoKey, spentUTXOKey, stakeBlockKey, ringMemberKey, metaKey, txIdxKey, avmKey,
    ringSamplingSlotKey, ringSamplingReverseKey in *;
  apply clash_sound; reflexivity.

Lemma has_prefix_app p k : has_prefix p (p ++ k) = true.
Proof. unfold has_prefix. apply bool_decide_eq_true. by rewrite take_app_length. Qed.

Lemma has_prefix_spec p k : has_prefix p k = true <-> exists s, k = p ++ s.
Proof.
  unfold has_prefix. rewrite bool_decide_eq_true. split.
  - intros E. exists (drop (length p) k). rewrite <- E at 1. by rewrite take_drop.
  - intros (s & ->). by rewrite take_app_length.
Qed.

(** ** The order of keys *)

Lemma bytes_compare_refl a : bytes_compare a a = Eq.
Proof. induction a as [|x a IH]; cbn; [done|]. by rewrite Z.compare_refl. Qed.

Lemma bytes_compare_eq a b : bytes_compare a b = Eq -> a = b.
Proof.
  revert b. induction a as [|x a IH]; intros [|y b]; cbn; try done.
  destruct (Z.compare_spec (byte_to_Z x) (byte_to_Z y)) as [E| |]; try done. intros H. f_equal; [|by apply IH].
  rewrite <- (byte_of_to_Z0 x), <- (byte_of_to_Z0 y). by f_equal.
Qed.

Lemma bytes_compare_antisym a b : bytes_compare b a = CompOpp (bytes_compare a b).
Proof.
  revert b. induction a as [|x a IH]; intros [|y b]; cbn; try done.
  rewrite (Z.compare_antisym (byte_to_Z x) (byte_to_Z y)). destruct (Z.compare _ _); cbn; [apply IH|done|done].
Qed.

Lemma bytes_compare_trans a b c : bytes_compare a b <> Gt -> bytes_compare b c <> Gt ->
  bytes_compare a c <> Gt.
Proof.
  revert b c. induction a as [|x a IH]; intros [|y b] [|z c]; cbn; try done.
  destruct (Z.compare_spec (byte_to_Z x) (byte_to_Z y)) as [E1|E1|E1]; try done;
    destruct (Z.compare_spec (byte_to_Z y) (byte_to_Z z)) as [E2|E2|E2]; try done;
    destruct (Z.compare_spec (byte_to_Z x) (byte_to_Z z)) as [E3|E3|E3]; try done; try lia.
  apply IH.
Qed.

Lemma bytes_le_spec a b : bytes_le a b = true <-> bytes_compare a b <> Gt.
Proof. unfold bytes_le. by destruct (bytes_compare a b). Qed.

#[export] Instance key_le_trans : Transitive key_le.
Proof. intros x y z. unfold key_le. rewrite !bytes_le_spec. apply bytes_compare_trans. Qed.

#[export] Instance key_le_total : Total key_le.
Proof.
  intros x y. unfold key_le. rewrite !bytes_le_spec, (bytes_compare_antisym x.1 y.1).
  destruct (bytes_compare x.1 y.1); [left|left|right]; done.
Qed.

(** The comparison of two lists of one length, from the left or the right end. *)
Lemma bytes_compare_snoc a b x y : length a = length b ->
  bytes_compare (a ++ [x]) (b ++ [y]) =
  match bytes_compare a b with Eq => Z.compare (byte_to_Z x) (byte_to_Z y) | c => c end.
Proof.
  revert b. induction a as [|x' a IH]; intros [|y' b] Hl; try discriminate Hl; cbn.
  - by destruct (Z.compare _ _).
  - destruct (Z.compare (byte_to_Z x') (byte_to_Z y')); [|done|done]. apply IH. simpl in Hl. lia.
Qed.

(** Big-endian keys are ordered as the numbers they encode. *)
Lemma be_compare n a b : 0 <= a < 256 ^ Z.of_nat n -> 0 <= b < 256 ^ Z.of_nat n ->
  bytes_compare (be_encode n a) (be_encode n b) = Z.compare a b.
Proof.
  revert a b. induction n as [|n IH]; intros a b Ha Hb.
  - simpl in Ha, Hb. assert (a = 0) as -> by lia. assert (b = 0) as -> by lia. done.
  - rewrite Nat2Z.inj_succ, Z.pow_succ_r in Ha, Hb by lia. unfold be_encode in *. cbn [le_encode rev].
    rewrite bytes_compare_snoc by (by rewrite !length_rev, !length_le_encode).
    rewrite IH by (split; [apply Z.div_pos|apply Z.div_lt_upper_bound]; lia).
    rewrite !byte_to_of_Z. assert (Da := Z.div_mod a 256). assert (Db := Z.div_mod b 256).
    assert (Ma := Z.mod_pos_bound a 256). assert (Mb := Z.mod_pos_bound b 256).
    destruct (Z.compare_spec (a / 256) (b / 256)) as [E|E|E].
    + destruct (Z.compare_spec (a mod 256) (b mod 256)); symmetry;
        [apply Z.compare_eq_iff|apply Z.compare_lt_iff|apply Z.compare_gt_iff]; lia.
    + symmetry. apply Z.compare_lt_iff. lia.
    + symmetry. apply Z.compare_gt_iff. lia.
Qed.

Lemma bytes_compare_app p a b : bytes_compare (p ++ a) (p ++ b) = bytes_compare a b.
Proof. induction p as [|x p IH]; cbn; [done|]. by rewrite Z.compare_refl. Qed.

(** A key between two keys under [p] is under [p]. *)
Lemma between_prefix p a b k : bytes_compare (p ++ a) k <> Gt -> bytes_compare k (p ++ b) = Lt -> exists s, k = p ++ s.
Proof.
  revert k. induction p as [|x p IH]; intros [|y k]; cbn; [eauto|eauto|done|].
  destruct (Z.compare_spec (byte_to_Z x) (byte_to_Z y)) as [E1|E1|E1]; try done;
    destruct (Z.compare_spec (byte_to_Z y) (byte_to_Z x)) as [E2|E2|E2]; try done; try lia.
  intros H1 H2. destruct (IH k H1 H2) as [s ->]. exists s. f_equal.
  rewrite <- (byte_of_to_Z0 x), <- (byte_of_to_Z0 y). by f_equal.
Qed.

Lemma heightKey_compare a b : is_u64 a -> is_u64 b -> bytes_compare (heightKey a) (heightKey b) = Z.compare a b.
Proof. intros Ha Hb. unfold heightKey. rewrite bytes_compare_app. apply be_compare; u64lia. Qed.

Lemma heightKey_inj a b : is_u64 a -> is_u64 b -> heightKey a = heightKey b -> a = b.
Proof.
  intros Ha Hb E. apply Z.compare_eq_iff. rewrite <- heightKey_compare by done. rewrite E. apply bytes_compare_refl.
Qed.

(** ** Scans *)

Lemma elem_of_scan p m k v : (k, v) ∈ scan p m <-> has_prefix p k = true /\ m !! k = Some v.
Proof.
  unfold scan. rewrite merge_sort_Permutation, list_elem_of_filter, (elem_of_map_to_list m k v). done.
Qed.

Lemma scan_sorted p m : StronglySorted key_le (scan p m).
Proof. apply StronglySorted_merge_sort; apply _. Qed.

Lemma NoDup_filter_keys (P : list byte * list byte -> bool) m :
  NoDup (filter (fun e => P e = true) (map_to_list m)).*1.
Proof.
  assert (Hn := NoDup_fst_map_to_list m). induction (map_to_list m) as [|e l IH]; [constructor|].
  cbn in Hn. apply list.NoDup_cons in Hn as [He Hn]. rewrite filter_cons. destruct (decide _); [|by apply IH].
  cbn. apply list.NoDup_cons. split; [|by apply IH]. intros (e' & E & [_ H']%list_elem_of_filter)%list_elem_of_fmap.
  apply He. rewrite E. by apply list_elem_of_fmap_2.
Qed.

Lemma scan_NoDup p m : NoDup (scan p m).*1.
Proof. unfold scan. rewrite merge_sort_Permutation. apply (NoDup_filter_keys (fun e => has_prefix p e.1)). Qed.

Lemma elem_of_scan_range a b m k v :
  (k, v) ∈ scan_range a b m <-> bytes_le a k = true /\ bytes_lt k b = true /\ m !! k = Some v.
Proof.
  unfold scan_range. rewrite merge_sort_Permutation, list_elem_of_filter, (elem_of_map_to_list m k v). cbn [fst].
  rewrite andb_true_iff. tauto.
Qed.

Lemma scan_range_sorted a b m : StronglySorted key_le (scan_range a b m).
Proof. apply StronglySorted_merge_sort; apply _. Qed.

Lemma scan_range_NoDup a b m : NoDup (scan_range a b m).*1.
Proof. unfold scan_range. rewrite merge_sort_Permutation. apply (NoDup_filter_keys (fun e => bytes_le a e.1 && bytes_lt e.1 b)). Qed.

(** ** Batches *)

Lemma write_app a b m : write (a ++ b) m = write b (write a m).
Proof. apply foldl_app. Qed.

Definition op_key (o : batch_op) : list byte := match o with Put k _ => k | Delete k => k end.

(** A key no operation names keeps its value. *)
Lemma write_other b m k : Forall (fun o => op_key o <> k) b -> write b m !! k = m !! k.
Proof.
  revert m. induction b as [|o b IH]; intros m Hf; [done|]. apply list.Forall_cons in Hf as [Ho Hf].
  unfold write in *. cbn [foldl]. rewrite IH by done.
  destruct o; cbn [apply_op op_key] in *; [by apply lookup_insert_ne|by apply lookup_delete_ne].
Qed.

(** A key has the value of the last operation that names it. *)
Lemma write_last a o b m : Forall (fun o' => op_key o' <> op_key o) b ->
  write (a ++ o :: b) m !! op_key o = match o with Put _ v => Some v | Delete _ => None end.
Proof.
  intros Hf. rewrite write_app. unfold write at 1. cbn [foldl]. fold (write b (apply_op (write a m) o)).
  rewrite write_other by done. destruct o; cbn [apply_op op_key]; [apply lookup_insert_eq|apply lookup_delete_eq].
Qed.

End KeyValue.
