(* ===== verification/BlockStore.v ===== *)
(** Blocks, the canonical tip, AVM state, metadata and the two chain indexes of
    [store/leveldb.go], with the repair and the audit of the height index.

    JSON is the codec of the Go library, a parameter ([BlockJson]) of which the
    methods use the functions named here.  The sale and LPoD ledgers stage their own
    operations in the batch of a block; they are an argument of the commit. *)

From stdpp Require Import base gmap list strings sorting.
From S2P Require Import Prelude Bytes Crypto Avm StakePayload Transaction Block Chain KeyValue.
Import Avm StakePayload Transaction Block KeyValue.

Module BlockStore.

(** ** Records and codec *)

Record StoredBlock := mkStoredBlock {
  sb_Height : Z; sb_PrevHash : Hash32; sb_Hash : Hash32; sb_Timestamp : Z; sb_Round : Z;
  sb_TxCount : Z; sb_TxData : list (list byte)
}.

Class BlockJson := {
  (** [json.Marshal] and [json.Unmarshal] at [StoredBlock]. *)
  marshal_stored : StoredBlock -> list byte;
  unmarshal_stored : list byte -> option StoredBlock;
  (** [json.Unmarshal] at [core.Block]. *)
  unmarshal_block : list byte -> option Block;
  (** [json.Unmarshal] at the probe of the two heights, ["height"] and ["Header"."Height"]. *)
  unmarshal_heights : list byte -> option (Z * Z)
}.

Record AVMWrite := mkAVMWrite { aw_Key : list byte; aw_Value : option (list byte) }.

(** ** Metadata integers *)

(** The little-endian metadata written by [StoreStakingPoolRemaining],
    [StoreTxIdxCompleteHeight] and their siblings, and the shared way to read it. *)
Definition StoreU64 (key : list byte) (n : Z) (m : KV) : KV := PutMeta key (le_encode 8 n) m.
Definition LoadU64 (key : list byte) (m : KV) : result (option Z) :=
  match GetMeta m key with
  | None => Ok None
  | Some v => reject negb (bool_decide (length v = 8%nat)) with "store: metadata corrupted" ;; Ok (Some (le_decode v))
  end.

Definition staking_pool_remaining : list byte := bytes_of_string "staking_pool_remaining".
Definition txidx_complete_height : list byte := bytes_of_string "txidx_complete_height".
Definition tx_total : list byte := bytes_of_string "tx_total".

Definition StoreStakingPoolRemaining (napro : Z) (m : KV) : KV := StoreU64 staking_pool_remaining napro m.
Definition LoadStakingPoolRemaining (m : KV) : result (option Z) := LoadU64 staking_pool_remaining m.
Definition StoreTxIdxCompleteHeight (h : Z) (m : KV) : KV := StoreU64 txidx_complete_height h m.
Definition LoadTxIdxCompleteHeight (m : KV) : result (option Z) := LoadU64 txidx_complete_height m.

(** [StoreTxTotal] keeps an [int64]; an absent counter reads as zero. *)
Definition StoreTxTotal (n : Z) (m : KV) : KV := StoreU64 tx_total (wrap64 n) m.
Definition LoadTxTotal (m : KV) : result Z :=
  v ← LoadU64 tx_total m; Ok (match v with Some n => wrapS64 n | None => 0 end).

Definition guardian_key : list byte := bytes_of_string "guardian_fund_binding_v1".

(** [BindGuardianFundConfig]. *)
Definition BindGuardianFundConfig (height : Z) (genesis : Hash32) (m : KV) : result KV :=
  match GetMeta m guardian_key with
  | Some existing =>
      reject negb (bool_decide (length existing = 40%nat)) with "guardian fund binding is corrupt" ;;
      reject (height =? 0) || negb (le_decode (take 8 existing) =? height) ||
             negb (bool_decide (copy_arr 32 (drop 8 existing) = genesis))
        with "guardian fund configuration conflicts with durable binding" ;;
      Ok m
  | None => if height =? 0 then Ok m else Ok (put (metaKey guardian_key) (le_encode 8 height ++ arr_list genesis) m)
  end.

(** ** Tip *)

Definition tip_hash_key : list byte := metaKey (bytes_of_string "tip/hash").
Definition tip_height_key : list byte := metaKey (bytes_of_string "tip/height").

Definition tip_ops (hash : Hash32) (height : Z) : list batch_op :=
  [Put tip_hash_key (arr_list hash); Put tip_height_key (le_encode 8 height)].

(** [PutTip]: the ledgers' undo operations share the batch. *)
Definition PutTip (undo : result (list batch_op)) (hash : Hash32) (height : Z) (m : KV) : result KV :=
  ops ← undo; Ok (write (ops ++ tip_ops hash height) m).

(** [GetTip]; zero values when nothing is stored. *)
Definition GetTip (m : KV) : Hash32 * Z :=
  match m !! tip_hash_key with
  | None => (zeroHash, 0)
  | Some hb =>
      let hash := copy_arr 32 hb in
      match m !! tip_height_key with
      | Some hbh => if (length hbh <? 8)%nat then (hash, 0) else (hash, le_decode (take 8 hbh))
      | None => (hash, 0)
      end
  end.

(** ** Blocks *)

Section Blocks.
Context `{J : BlockJson}.

Definition block_ops (hash : Hash32) (height : Z) (data : list byte) : list batch_op :=
  [Put (blockKey hash) data; Put (heightKey height) (arr_list hash)].

Definition PutRawBlock (hash : Hash32) (height : Z) (data : list byte) (m : KV) : KV :=
  write (block_ops hash height data) m.
Definition PutBlock (hash : Hash32) (sb : StoredBlock) (m : KV) : KV :=
  PutRawBlock hash (sb_Height sb) (marshal_stored sb) m.

Definition GetRawBlock (m : KV) (hash : Hash32) : option (list byte) := m !! blockKey hash.

Definition GetBlock (m : KV) (hash : Hash32) : result (option StoredBlock) :=
  match GetRawBlock m hash with
  | None => Ok None
  | Some data => need sb from unmarshal_stored data else "unmarshal block" ;; Ok (Some sb)
  end.

Definition GetBlockByHeight (m : KV) (height : Z) : result (option StoredBlock) :=
  match m !! heightKey height with
  | None => Ok None
  | Some hashBytes => GetBlock m (copy_arr 32 hashBytes)
  end.

Definition GetRawBlockByHeight (m : KV) (height : Z) : option (list byte) :=
  hashBytes ← m !! heightKey height; GetRawBlock m (copy_arr 32 hashBytes).

Definition GetCanonicalHash (m : KV) (height : Z) : result (option Hash32) :=
  match m !! heightKey height with
  | None => Ok None
  | Some value =>
      reject negb (bool_decide (length value = 32%nat)) with "store: malformed canonical hash" ;;
      Ok (Some (copy_arr 32 value))
  end.

Definition RepairHeightIndex (height : Z) (hash : Hash32) (m : KV) : KV := put (heightKey height) (arr_list hash) m.

(** [ReadTipOnly], without opening the files. *)
Definition ReadTipOnly (m : KV) : result (Hash32 * Z) :=
  reject negb (bool_decide (length (default [] (m !! tip_hash_key)) = 32%nat))
    with "canonical tip hash metadata missing or malformed" ;;
  let hash : Hash32 := copy_arr 32 (default [] (m !! tip_hash_key)) in
  reject bool_decide (hash = zeroHash) with "canonical tip hash metadata is all zeroes" ;;
  reject negb (bool_decide (length (default [] (m !! tip_height_key)) = 8%nat))
    with "canonical tip height metadata missing or malformed" ;;
  let height := le_decode (default [] (m !! tip_height_key)) in
  reject negb (bool_decide (default [] (m !! heightKey height) = arr_list hash))
    with "canonical tip metadata does not match height index" ;;
  reject negb (has m (blockKey hash)) with "canonical tip block body missing" ;;
  Ok (hash, height).

End Blocks.

(** ** AVM state *)

Definition avm_op (w : AVMWrite) : batch_op :=
  match aw_Value w with Some v => Put (avmKey (aw_Key w)) v | None => Delete (avmKey (aw_Key w)) end.

Definition avmBatch (writes : list AVMWrite) : result (list batch_op) :=
  foldM (fun b w => reject bool_decide (aw_Key w = []) with "store: empty AVM key" ;; Ok (b ++ [avm_op w])) [] writes.

Definition GetAVMState (m : KV) (key : list byte) : result (option (list byte)) :=
  reject bool_decide (key = []) with "store: empty AVM key" ;; Ok (m !! avmKey key).

Definition ApplyAVMState (writes : list AVMWrite) (m : KV) : result KV :=
  b ← avmBatch writes; Ok (write b m).

Definition avm_commit_key (height : Z) : list byte := metaKey (bytes_of_string "avm/commit/" ++ le_encode 8 height).
Definition commitment_op (height : Z) (hash writeSetCommitment : Hash32) : batch_op :=
  Put (avm_commit_key height) (arr_list hash ++ arr_list writeSetCommitment).

Definition GetAVMCommitment (m : KV) (height : Z) : result (option (Hash32 * Hash32)) :=
  match m !! avm_commit_key height with
  | None => Ok None
  | Some value =>
      reject negb (bool_decide (length value = 64%nat)) with "store: malformed AVM commitment" ;;
      Ok (Some (copy_arr 32 (take 32 value), copy_arr 32 (drop 32 value)))
  end.

(** [IterAVMState], as the list of entries it visits. *)
Definition IterAVMState (m : KV) : list (list byte * list byte) :=
  (fun e => (drop (length prefixAVM) e.1, e.2)) <$> scan prefixAVM m.

Definition ReplaceAVMStateAndCommitment (writes : list AVMWrite) (height : Z) (blockHash writeSetCommitment : Hash32)
    (m : KV) : result KV :=
  puts ← foldM (fun b w =>
           match aw_Value w with
           | Some v => reject bool_decide (aw_Key w = []) with "store: invalid AVM replacement entry" ;;
                       Ok (b ++ [Put (avmKey (aw_Key w)) v])
           | None => Err "store: invalid AVM replacement entry"
           end) [] writes;
  Ok (write (((fun e => Delete e.1) <$> scan prefixAVM m) ++ puts ++ [commitment_op height blockHash writeSetCommitment]) m).

(** ** Key images *)

Section KeyImages.
Context `{Crypto}.

Definition keyImageSpentKey (ki : KeyImage) : list byte :=
  match CanonicalKeyImage ki with
  | None => prefixKeyImage ++ arr_list ki
  | Some canonical => prefixKeyImage ++ arr_list canonical
  end.

Definition MarkKeyImageSpent (ki : KeyImage) (m : KV) : KV := put (keyImageSpentKey ki) [x01] m.

Definition DeleteKeyImage (ki : KeyImage) (m : KV) : KV :=
  let m1 := match CanonicalKeyImage ki with Some c => del (prefixKeyImage ++ arr_list c) m | None => m end in
  del (prefixKeyImage ++ arr_list ki) m1.

Definition IsKeyImageSpent (m : KV) (ki : KeyImage) : bool :=
  match CanonicalKeyImage ki with
  | None => has m (prefixKeyImage ++ arr_list ki)
  | Some canonical => has m (prefixKeyImage ++ arr_list canonical)
  end.

Definition IterKeyImages (m : KV) : list KeyImage :=
  (fun e => copy_arr 32 (drop (length prefixKeyImage) e.1)) <$>
    filter (fun e => length (drop (length prefixKeyImage) e.1) = 32%nat) (scan prefixKeyImage m).

(** ** The canonical commit *)

Context `{J : BlockJson}.

(** The key images of one transaction of a committed block. *)
Definition image_ops (tx : Transaction) : result (list batch_op) :=
  let inputs := (fun inp => Put (keyImageSpentKey (in_KeyImage inp)) [x01]) <$> Inputs tx in
  if IsStake tx && bool_decide (length (Extra tx) = StakePayloadSizeV4) then
    p ← DecodeStakeExtraV4 (Extra tx);
    let '(_, ki, _) := p in
    Ok (inputs ++ [Put (keyImageSpentKey ki) [x01]])
  else Ok inputs.

Definition images_batch (data : list byte) : result (list batch_op) :=
  match unmarshal_block data with
  | None => Ok []
  | Some b => foldM (fun ops tx => o ← image_ops tx; Ok (ops ++ o)) [] (Txs b)
  end.

(** [commitRawBlock]: [settlement] is what the sale and LPoD ledgers check and stage. *)
Definition commitRawBlock (hash : Hash32) (height : Z) (data : list byte) (writes : list AVMWrite)
    (writeSetCommitment : Hash32) (settlement : result (list batch_op)) (m : KV) : result KV :=
  avm ← avmBatch writes;
  ledgers ← settlement;
  images ← images_batch data;
  Ok (write (avm ++ ledgers ++ images ++ block_ops hash height data ++ tip_ops hash height ++
             [commitment_op height hash writeSetCommitment]) m).

End KeyImages.

(** ** The transaction index *)

Definition PutTxIdx (txHash : Hash32) (height txIdx : Z) (m : KV) : KV :=
  put (txIdxKey txHash) (be_encode 8 height ++ be_encode 4 (wrap32 txIdx)) m.

Definition tx_entry (val : list byte) : Chain.TxIndexEntry :=
  Chain.mkTxEntry (be_decode (take 8 val)) (be_decode (take 4 (drop 8 val))).

Definition LookupTxIdx (m : KV) (txHash : Hash32) : option Chain.TxIndexEntry :=
  match m !! txIdxKey txHash with
  | None => None
  | Some val => if (length val <? 12)%nat then None else Some (tx_entry val)
  end.

(** [LoadTxIndex]; a nil map when no entry qualifies. *)
Definition LoadTxIndex (minHeight : Z) (m : KV) : option (gmap Hash32 Chain.TxIndexEntry) :=
  let r := foldl (fun acc e =>
    if (length e.1 <? length prefixTxIdx + 32)%nat then acc
    else if (length e.2 <? 12)%nat then acc
    else if be_decode (take 8 e.2) <? minHeight then acc
    else <[copy_arr 32 (drop (length prefixTxIdx) e.1) := tx_entry e.2]> acc) ∅ (scan prefixTxIdx m) in
  if bool_decide (r = ∅) then None else Some r.

(** ** The height index *)

Section HeightIndex.
Context `{J : BlockJson}.

(** [parseBodyHeight]. *)
Definition parseBodyHeight (data : list byte) : option Z :=
  p ← unmarshal_heights data; Some (if p.1 =? 0 then p.2 else p.1).

(** The hash an index entry holds; zero when it is absent or not 32 bytes long. *)
Definition index_hash (v : option (list byte)) : Hash32 :=
  match v with
  | Some v => if bool_decide (length v = 32%nat) then copy_arr 32 v else zeroHash
  | None => zeroHash
  end.

(** The bodies by the height they encode; [true] marks a second claim. *)
Definition body_heights (tipHeight : Z) (m : KV) : gmap Z (Hash32 * bool) :=
  foldl (fun acc e =>
    if (length e.1 <? length prefixBlock + 32)%nat then acc
    else
      match parseBodyHeight e.2 with
      | None => acc
      | Some bh =>
          if tipHeight <? bh then acc
          else match acc !! bh with
               | Some prev => <[bh := (prev.1, true)]> acc
               | None => <[bh := (copy_arr 32 (drop (length prefixBlock) e.1), false)]> acc
               end
      end) ∅ (scan prefixBlock m).

(** The body of an index entry exists and encodes the height. *)
Definition body_ok (m : KV) (hash : Hash32) (h : Z) : bool :=
  match m !! blockKey hash with
  | None => false
  | Some body => match parseBodyHeight body with Some bh => bh =? h | None => false end
  end.

Definition repair_step (byHeight : gmap Z (Hash32 * bool)) (s : KV * Z * Z) (h : Z) : KV * Z * Z :=
  let '(m, repaired, skipped) := s in
  let existingHash := index_hash (m !! heightKey h) in
  if negb (bool_decide (existingHash = zeroHash)) then
    if body_ok m existingHash h then s else (m, repaired, skipped +w 1)
  else
    match byHeight !! h with
    | None => (m, repaired, skipped +w 1)
    | Some (hash, ambiguous) =>
        if ambiguous : bool then (m, repaired, skipped +w 1)
        else (put (heightKey h) (arr_list hash) m, repaired +w 1, skipped)
    end.

Definition RepairAllHeightIndex (tipHeight : Z) (m : KV) : KV * Z * Z :=
  foldl (repair_step (body_heights tipHeight m)) (m, 0, 0) (seqZ 0 (tipHeight + 1)).

(** The entries of the range by height. *)
Definition range_entries (l : list (list byte * list byte)) : gmap Z Hash32 :=
  foldl (fun acc e =>
    if (length e.1 <? length prefixHeight + 8)%nat then acc
    else <[be_decode (take 8 (drop (length prefixHeight) e.1)) := index_hash (Some e.2)]> acc) ∅ l.

Definition note_broken (s : Z * Z) (h : Z) : Z * Z := (s.1 +w 1, if s.1 =? 0 then h else s.2).

Definition CheckAllHeightIndex (tipHeight fromHeight : Z) (m : KV) : Z * Z :=
  if tipHeight =? 0 then (0, 0)
  else
    let from := if tipHeight <? fromHeight then tipHeight else fromHeight in
    let entries := range_entries (scan_range (heightKey from) (heightKey (tipHeight +w 1)) m) in
    foldl (fun s h =>
      match entries !! h with
      | None => note_broken s h
      | Some hash => if bool_decide (hash = zeroHash) then note_broken s h
                     else if body_ok m hash h then s else note_broken s h
      end) (0, 0) (seqZ from (tipHeight - from + 1)).

(** The loop that notes the heights from [expected] up to, not including, [h]. *)
Definition count_gap (s : Z * Z * Z) (h : Z) : Z * Z * Z :=
  let '(missing, firstMissing, expected) := s in
  if h <=? expected then s
  else
    let '(missing', first') := foldl note_broken (missing, firstMissing) (seqZ expected (h - expected)) in
    (missing', first', h).

Definition CountMissingHeights (tipHeight : Z) (m : KV) : Z * Z :=
  if tipHeight =? 0 then (0, 0)
  else
    let s := foldl (fun s e =>
      if (length e.1 <? length prefixHeight + 8)%nat then s
      else
        let h := be_decode (take 8 (drop (length prefixHeight) e.1)) in
        let '(missing, firstMissing, _) := count_gap s h in
        (missing, firstMissing, h +w 1)) (0, 0, 1) (scan_range (heightKey 1) (heightKey (tipHeight +w 1)) m) in
    let '(missing, firstMissing, _) := count_gap s (tipHeight + 1) in
    (missing, firstMissing).

End HeightIndex.

End BlockStore.
