(* ===== verification/BlockStoreProofs.v ===== *)
(** Properties of [BlockStore]: what a canonical commit leaves on disk, the
    key-image index, and the height-index repair, audit and gap count against their
    specifications. *)

From stdpp Require Import base gmap list strings sorting.
From S2P Require Import Prelude Bytes Crypto Avm StakePayload Transaction Block Chain KeyValue BlockStore.
Import Avm StakePayload Transaction Block KeyValue BlockStore.

Module BlockStoreProofs.

(** ** Keys of the metadata namespace *)

Lemma metaKey_inj a b : metaKey a = metaKey b -> a = b.
Proof. unfold metaKey. apply app_inv_head. Qed.

Lemma tip_keys_ne : tip_hash_key <> tip_height_key.
Proof. vm_compute. discriminate. Qed.

Lemma tip_hash_commit_ne h : avm_commit_key h <> tip_hash_key.
Proof. intros E%metaKey_inj. discriminate E. Qed.

Lemma tip_height_commit_ne h : avm_commit_key h <> tip_height_key.
Proof. intros E%metaKey_inj. discriminate E. Qed.

(** ** The canonical commit *)

Section Commit.
Context `{Crypto} `{J : BlockJson}.

(** The operations that close every canonical batch. *)
Definition tail_ops (hash : Hash32) (height : Z) (data : list byte) (c : Hash32) : list batch_op :=
  block_ops hash height data ++ tip_ops hash height ++ [commitment_op height hash c].

Lemma commit_shape hash height data writes c settlement m m' :
  commitRawBlock hash height data writes c settlement m = Ok m' ->
  exists avm ledgers images, avmBatch writes = Ok avm /\ settlement = Ok ledgers /\ images_batch data = Ok images /\
    m' = write (tail_ops hash height data c) (write (avm ++ ledgers ++ images) m).
Proof.
  unfold commitRawBlock. intros (avm & Ha & (ledgers & Hl & (images & Hi & <-%Ok_inj)%bind_ok)%bind_ok)%bind_ok.
  exists avm, ledgers, images. split_and!; [done..|]. by rewrite <- write_app, <- !app_assoc.
Qed.

Lemma tail_lookups hash height data c m :
  let m' := write (tail_ops hash height data c) m in
  m' !! blockKey hash = Some data /\ m' !! heightKey height = Some (arr_list hash) /\
  m' !! tip_hash_key = Some (arr_list hash) /\ m' !! tip_height_key = Some (le_encode 8 height) /\
  m' !! avm_commit_key height = Some (arr_list hash ++ arr_list c).
Proof.
  cbn zeta. unfold tail_ops, block_ops, tip_ops, commitment_op, write. cbn [app foldl apply_op]. split_and!.
  - rewrite !lookup_insert_ne by (unfold tip_hash_key, tip_height_key, avm_commit_key; key_ne). apply lookup_insert_eq.
  - rewrite !lookup_insert_ne by (unfold tip_hash_key, tip_height_key, avm_commit_key; key_ne). apply lookup_insert_eq.
  - rewrite lookup_insert_ne by apply tip_hash_commit_ne.
    rewrite lookup_insert_ne by (apply not_eq_sym, tip_keys_ne). apply lookup_insert_eq.
  - rewrite lookup_insert_ne by apply tip_height_commit_ne. apply lookup_insert_eq.
  - apply lookup_insert_eq.
Qed.

(** A key outside the keys the tail writes. *)
Lemma tail_other hash height data c m k :
  (forall s, k <> prefixBlock ++ s) -> (forall s, k <> prefixHeight ++ s) -> (forall s, k <> prefixMeta ++ s) ->
  write (tail_ops hash height data c) m !! k = m !! k.
Proof.
  intros Hb Hh Hm. apply write_other. unfold tail_ops, block_ops, tip_ops, commitment_op. cbn [app].
  repeat (apply list.Forall_cons; split; [cbn [op_key]; first [apply not_eq_sym, Hb|apply not_eq_sym, Hh|apply not_eq_sym, Hm]|]).
  constructor.
Qed.

Lemma IsKeyImageSpent_key m ki : IsKeyImageSpent m ki = has m (keyImageSpentKey ki).
Proof. unfold IsKeyImageSpent, keyImageSpentKey. by destruct (CanonicalKeyImage ki). Qed.

(** The operation of [b] that marks [ki], and those that mark other images. *)
Definition image_put (o : batch_op) : Prop := exists ki, o = Put (keyImageSpentKey ki) [x01].

Lemma image_ops_put tx ops : image_ops tx = Ok ops -> Forall image_put ops /\
  forall inp, inp ∈ Inputs tx -> Put (keyImageSpentKey (in_KeyImage inp)) [x01] ∈ ops.
Proof.
  unfold image_ops. set (ins := _ <$> Inputs tx).
  assert (Hp : Forall image_put ins).
  { apply list.Forall_forall. intros o (inp & -> & _)%list_elem_of_fmap. eexists. done. }
  assert (Hi : forall inp, inp ∈ Inputs tx -> Put (keyImageSpentKey (in_KeyImage inp)) [x01] ∈ ins).
  { intros inp Hin. unfold ins. apply list_elem_of_fmap. eauto. }
  destruct (IsStake tx && _).
  - intros ([[p ki] pf] & _ & <-%Ok_inj)%bind_ok. split.
    + apply list.Forall_app. split; [done|]. repeat constructor. by exists ki.
    + intros inp Hin. apply elem_of_app. auto.
  - by intros <-%Ok_inj.
Qed.

Lemma images_batch_put data b ops : unmarshal_block data = Some b -> images_batch data = Ok ops ->
  Forall image_put ops /\
  forall tx inp, tx ∈ Txs b -> inp ∈ Inputs tx -> Put (keyImageSpentKey (in_KeyImage inp)) [x01] ∈ ops.
Proof.
  intros Hb. unfold images_batch. rewrite Hb. clear Hb.
  assert (Hgen : forall txs acc ops', foldM (fun ops tx => o ← image_ops tx; Ok (ops ++ o)) acc txs = Ok ops' ->
    Forall image_put acc -> Forall image_put ops' /\ (forall o, o ∈ acc -> o ∈ ops') /\
    forall tx inp, tx ∈ txs -> inp ∈ Inputs tx -> Put (keyImageSpentKey (in_KeyImage inp)) [x01] ∈ ops').
  { induction txs as [|tx txs IH]; intros acc ops' Hf Ha; cbn in Hf.
    - apply Ok_inj in Hf as <-. split_and!; [done|done|]. by intros ?? ?%not_elem_of_nil.
    - apply bind_ok in Hf as (acc1 & (o & Ho & <-%Ok_inj)%bind_ok & Hf). apply image_ops_put in Ho as [Hp Hi].
      destruct (IH _ _ Hf) as (H1 & H2 & H3); [by apply list.Forall_app|]. split_and!; [done| |].
      + intros o' Ho'. apply H2, elem_of_app. by left.
      + intros tx' inp [->|Htx]%elem_of_cons Hin; [|by eapply H3]. apply H2, elem_of_app. right. by apply Hi. }
  intros Hf. destruct (Hgen _ _ _ Hf) as (H1 & _ & H3); [constructor|]. done.
Qed.

Lemma image_put_write ops m ki : Forall image_put ops -> Put (keyImageSpentKey ki) [x01] ∈ ops ->
  write ops m !! keyImageSpentKey ki = Some [x01].
Proof.
  intros Hf Hin. set (k := keyImageSpentKey ki) in *.
  assert (Hgen : forall m0, m0 !! k = Some [x01] \/ Put k [x01] ∈ ops -> write ops m0 !! k = Some [x01]).
  { clear Hin. induction ops as [|o ops IH]; intros m0 Hc; [by destruct Hc as [?|?%not_elem_of_nil]|].
    apply list.Forall_cons in Hf as [[ki' ->] Hf]. unfold write in *. cbn [foldl apply_op]. apply IH; [done|].
    destruct (decide (keyImageSpentKey ki' = k)) as [<-|Hn]; [left; apply lookup_insert_eq|].
    rewrite lookup_insert_ne by done. destruct Hc as [?|[[= E]|?]%elem_of_cons]; [by left|by subst|by right]. }
  apply Hgen. by right.
Qed.

(** A key image of the block is spent after the commit. *)
Lemma commit_images hash height data writes c settlement m m' b tx inp :
  commitRawBlock hash height data writes c settlement m = Ok m' -> unmarshal_block data = Some b ->
  tx ∈ Txs b -> inp ∈ Inputs tx -> IsKeyImageSpent m' (in_KeyImage inp) = true.
Proof.
  intros (avm & ledgers & images & _ & _ & Hi & ->)%commit_shape Hb Htx Hinp.
  destruct (images_batch_put _ _ _ Hb Hi) as [Hp Hin].
  rewrite IsKeyImageSpent_key. unfold has. apply bool_decide_eq_true. exists [x01].
  rewrite tail_other by (unfold keyImageSpentKey; destruct (CanonicalKeyImage _); intros s; key_ne).
  rewrite app_assoc, write_app. apply image_put_write; [done|]. by eapply Hin.
Qed.

Lemma arr32_length (h : Hash32) : length (arr_list h) = 32%nat.
Proof. apply (proj2_sig h). Qed.

(** The lookups of [ReadTipOnly] on the committed store. *)
Lemma read_tip_after m hash height data :
  is_u64 height -> hash <> zeroHash ->
  m !! blockKey hash = Some data -> m !! heightKey height = Some (arr_list hash) ->
  m !! tip_hash_key = Some (arr_list hash) -> m !! tip_height_key = Some (le_encode 8 height) ->
  ReadTipOnly m = Ok (hash, height).
Proof.
  intros Hu Hz Hb Hh Ht1 Ht2. unfold ReadTipOnly. rewrite Ht1, Ht2. cbn [from_option id].
  rewrite arr32_length, copy_arr_list, length_le_encode, le_decode_encode by u64lia.
  rewrite (bool_decide_eq_true_2 (32 = 32)%nat), (bool_decide_eq_true_2 (8 = 8)%nat) by done. cbn [negb].
  rewrite (bool_decide_eq_false_2 _ Hz), Hh. cbn [from_option id].
  rewrite (bool_decide_eq_true_2 (arr_list hash = arr_list hash)) by done. cbn [negb].
  unfold has. rewrite Hb, bool_decide_eq_true_2 by eauto. done.
Qed.

End Commit.

(** ** The height index *)

Section Index.
Context `{J : BlockJson}.

(** The entry of a height is right: it names a body that encodes the height. *)
Definition height_ok (m : KV) (h : Z) : bool :=
  let hash := index_hash (m !! heightKey h) in
  negb (bool_decide (hash = zeroHash)) && body_ok m hash h.

(** The block namespace as the methods of the store leave it: the key of a body is
    the prefix and a hash, and no body lies under the zero hash. *)
Definition bodies_wf (m : KV) : Prop :=
  forall s body, m !! (prefixBlock ++ s) = Some body -> length s = 32%nat /\ copy_arr 32 s <> zeroHash.

Lemma body_ok_height_put m h v hash h' : body_ok (put (heightKey h) v m) hash h' = body_ok m hash h'.
Proof. unfold body_ok, put. by rewrite lookup_insert_ne by key_ne. Qed.

Lemma put_index m h (hash : Hash32) : index_hash (put (heightKey h) (arr_list hash) m !! heightKey h) = hash.
Proof.
  assert (E : put (heightKey h) (arr_list hash) m !! heightKey h = Some (arr_list hash)) by apply lookup_insert_eq.
  rewrite E. unfold index_hash. rewrite bool_decide_eq_true_2 by apply arr32_length. apply copy_arr_list.
Qed.

(** An unambiguous body of the scan is a body of its height. *)
Lemma body_heights_sound tip m h hash :
  bodies_wf m -> body_heights tip m !! h = Some (hash, false) -> body_ok m hash h = true /\ hash <> zeroHash.
Proof.
  intros Hwf. unfold body_heights.
  assert (Hall : forall k v, (k, v) ∈ scan prefixBlock m -> has_prefix prefixBlock k = true /\ m !! k = Some v)
    by (intros; by apply elem_of_scan).
  revert Hall. generalize (scan prefixBlock m). intros l.
  assert (Hgen : forall acc : gmap Z (Hash32 * bool),
    (forall k v, (k, v) ∈ l -> has_prefix prefixBlock k = true /\ m !! k = Some v) ->
    (forall h x, acc !! h = Some (x, false) -> body_ok m x h = true /\ x <> zeroHash) ->
    forall h x, foldl (fun acc e =>
      if (length e.1 <? length prefixBlock + 32)%nat then acc
      else match parseBodyHeight e.2 with
           | None => acc
           | Some bh => if tip <? bh then acc
               else match acc !! bh with
                    | Some prev => <[bh := (prev.1, true)]> acc
                    | None => <[bh := (copy_arr 32 (drop (length prefixBlock) e.1), false)]> acc
                    end
           end) acc l !! h = Some (x, false) -> body_ok m x h = true /\ x <> zeroHash).
  { clear h hash. induction l as [|[k v] l IH]; intros acc Hall Hacc h x Hl; [by apply (Hacc h x)|].
    cbn [foldl] in Hl. revert Hl. apply IH; [intros; apply Hall; by right|]. clear h x. intros h x. cbn [fst snd].
    destruct (length k <? _)%nat; [apply Hacc|]. destruct (parseBodyHeight v) as [bh|] eqn:Eb; [|apply Hacc].
    destruct (tip <? bh); [apply Hacc|]. destruct (acc !! bh) as [prev|].
    - intros [[_ [=]]|[_ Hx]]%lookup_insert_Some. by apply Hacc.
    - intros [[<- [= <-]]|[_ Hx]]%lookup_insert_Some; [|by apply Hacc].
      destruct (Hall k v) as [[s ->]%has_prefix_spec Hk]; [left|].
      change 2%nat with (length prefixBlock). rewrite drop_app_length.
      destruct (Hwf s v Hk) as [Hs Hz]. split; [|done].
      unfold body_ok, blockKey. rewrite arr_list_copy by done. rewrite Hk, Eb. apply Z.eqb_refl. }
  intros Hall Hl. eapply Hgen; [exact Hall| |exact Hl]. intros ?? E. by rewrite lookup_empty in E.
Qed.

(** One step of the repair: other heights are untouched, and the height is right
    afterwards unless it is counted as skipped. *)
Lemma repair_step_spec byH m r k h m' r' k' :
  (forall hash, byH !! h = Some (hash, false) -> body_ok m hash h = true /\ hash <> zeroHash) ->
  0 <= k < MaxUint64 -> repair_step byH (m, r, k) h = (m', r', k') ->
  (m' = m \/ exists hash : Hash32, index_hash (m !! heightKey h) = zeroHash /\ m' = put (heightKey h) (arr_list hash) m) /\
  k' = k + (if height_ok m' h then 0 else 1).
Proof.
  intros Hby Hk. unfold repair_step, height_ok.
  case_bool_decide as Hz; cbn [negb].
  - destruct (byH !! h) as [[hash []]|] eqn:Eb.
    + intros [= <- <- <-]. split; [by left|]. rewrite Hz. rewrite bool_decide_eq_true_2 by done. cbn. rewrite wrap64_small; u64lia.
    + intros [= <- <- <-]. destruct (Hby hash eq_refl) as [Hb Hn]. split; [right; eauto|].
      rewrite (put_index m h hash), (bool_decide_eq_false_2 _ Hn), body_ok_height_put, Hb. cbn. lia.
    + intros [= <- <- <-]. split; [by left|]. rewrite Hz. rewrite bool_decide_eq_true_2 by done. cbn. rewrite wrap64_small; u64lia.
  - destruct (body_ok m _ h) eqn:Eb; intros [= <- <- <-]; (split; [by left|]);
      rewrite (bool_decide_eq_false_2 _ Hz), Eb; cbn; [lia|]. rewrite wrap64_small; u64lia.
Qed.

Definition broken_in (m : KV) (l : list Z) : list Z := filter (fun h => height_ok m h = false) l.

Lemma repair_fold byH l : Forall is_u64 l -> NoDup l -> forall m r k m' r' k',
  (forall h hash, h ∈ l -> byH !! h = Some (hash, false) -> body_ok m hash h = true /\ hash <> zeroHash) ->
  0 <= k -> k + Z.of_nat (length l) <= MaxUint64 ->
  foldl (repair_step byH) (m, r, k) l = (m', r', k') ->
  k' = k + Z.of_nat (length (broken_in m' l)) /\
  (forall key, (forall h, h ∈ l -> key <> heightKey h) -> m' !! key = m !! key) /\
  (forall h, h ∈ l -> index_hash (m !! heightKey h) <> zeroHash -> m' !! heightKey h = m !! heightKey h).
Proof.
  induction l as [|h l IH]; intros Hu Hn m r k m' r' k' Hby Hk Hmax Hf.
  - cbn in Hf. injection Hf as <- <- <-. split_and!; [cbn; lia|done|]. by intros ? ?%not_elem_of_nil.
  - apply list.Forall_cons in Hu as [Hh Hu]. apply list.NoDup_cons in Hn as [Hnin Hn].
    cbn [foldl] in Hf. destruct (repair_step byH (m, r, k) h) as [[m1 r1] k1] eqn:Es. cbn [length] in Hmax.
    destruct (repair_step_spec byH m r k h m1 r1 k1 (fun hash => Hby h hash ltac:(left)) ltac:(lia) Es) as [Hm1 Hk1].
    assert (Hother : forall h', h' ∈ l -> heightKey h' <> heightKey h).
    { intros h' Hin E. apply heightKey_inj in E; [congruence| |done]. rewrite list.Forall_forall in Hu. by apply Hu. }
    assert (Hbody : forall hash h', body_ok m1 hash h' = body_ok m hash h')
      by (intros; destruct Hm1 as [->|(? & _ & ->)]; [done|apply body_ok_height_put]).
    assert (Hm1o : forall key, key <> heightKey h -> m1 !! key = m !! key).
    { intros key Hne. destruct Hm1 as [->|(? & _ & ->)]; [done|]. by apply lookup_insert_ne. }
    destruct (IH Hu Hn m1 r1 k1 m' r' k') as (Hk' & Hkeys & Hkept); [| | |done|].
    { intros h' hash Hin Hb. rewrite Hbody. apply (Hby h' hash); [by right|done]. }
    { destruct (height_ok m1 h); lia. }
    { destruct (height_ok m1 h); lia. }
    assert (Hsame : height_ok m' h = height_ok m1 h).
    { unfold height_ok, body_ok. rewrite (Hkeys (heightKey h)) by (intros h' Hin E; by apply (Hother h' Hin)).
      rewrite (Hkeys (blockKey _)) by (intros; key_ne). done. }
    split_and!.
    + rewrite Hk', Hk1. unfold broken_in. rewrite filter_cons, Hsame. destruct (height_ok m1 h); case_decide; try done; cbn [length]; lia.
    + intros key Hkey. rewrite Hkeys by (intros h' Hin; apply Hkey; by right). apply Hm1o, Hkey. left.
    + intros h' [->|Hin]%elem_of_cons Hnz.
      * rewrite Hkeys by (intros h' Hin E; by apply (Hother h' Hin)). destruct Hm1 as [->|(? & Hz & _)]; [done|]. done.
      * rewrite Hkept; [apply Hm1o; by apply Hother|done|]. rewrite Hm1o by by apply Hother. done.
Qed.

(** ** The audit *)

(** The heights of the entries of the range, where every key is a height key. *)
Definition heights_wf (m : KV) : Prop :=
  forall s v, m !! (prefixHeight ++ s) = Some v -> length s = 8%nat.

Lemma elem_of_height_range lo hi m k v : is_u64 lo -> is_u64 hi -> heights_wf m ->
  (k, v) ∈ scan_range (heightKey lo) (heightKey hi) m <->
  exists h, k = heightKey h /\ lo <= h < hi /\ m !! heightKey h = Some v.
Proof.
  intros Hlo Hhi Hwf. rewrite elem_of_scan_range. split.
  - intros (H1 & H2 & Hk). apply bytes_le_spec in H1.
    assert (Hp : exists s, k = prefixHeight ++ s).
    { apply (between_prefix prefixHeight (be_encode 8 lo) (be_encode 8 hi) k H1). unfold bytes_lt, heightKey in H2.
      destruct (bytes_compare k (prefixHeight ++ be_encode 8 hi)); [discriminate|reflexivity|discriminate]. }
    destruct Hp as [s ->]. assert (Hs := Hwf _ _ Hk). exists (be_decode s).
    assert (Hr := be_decode8_u64 s Hs).
    assert (Es : prefixHeight ++ s = heightKey (be_decode s)) by (unfold heightKey; by rewrite be_encode_decode).
    rewrite Es in *. split; [done|]. split; [|done]. unfold bytes_lt in H2.
    rewrite heightKey_compare in H1, H2 by done.
    destruct (Z.compare_spec lo (be_decode s)); destruct (Z.compare_spec (be_decode s) hi); try done; lia.
  - intros (h & -> & Hh & Hk). assert (is_u64 h) by u64lia. split_and!; [|unfold bytes_lt|done].
    + apply bytes_le_spec. rewrite heightKey_compare by done. intros E%Z.compare_gt_iff. lia.
    + rewrite heightKey_compare by done. rewrite (proj2 (Z.compare_lt_iff _ _)); [done|lia].
Qed.

Lemma heightKey_fields h : is_u64 h ->
  (length (heightKey h) <? length prefixHeight + 8)%nat = false /\
  be_decode (take 8 (drop (length prefixHeight) (heightKey h))) = h.
Proof.
  intros Hh. unfold heightKey. split.
  - apply Nat.ltb_ge. rewrite length_app, length_be_encode. done.
  - rewrite drop_app_length, take_ge by (by rewrite length_be_encode). by apply be_decode_encode8.
Qed.

Lemma range_entries_lookup l h :
  NoDup l.*1 -> Forall (fun e => exists h, is_u64 h /\ e.1 = heightKey h) l -> is_u64 h ->
  range_entries l !! h = (fun v => index_hash (Some v)) <$> (list_to_map l : gmap (list byte) (list byte)) !! heightKey h.
Proof.
  intros Hn Hf Hh. unfold range_entries.
  assert (Hgen : forall l (acc : gmap Z Hash32), Forall (fun e : list byte * list byte => exists h, is_u64 h /\ e.1 = heightKey h) l -> NoDup l.*1 ->
    foldl (fun acc e =>
      if (length e.1 <? length prefixHeight + 8)%nat then acc
      else <[be_decode (take 8 (drop (length prefixHeight) e.1)) := index_hash (Some e.2)]> acc) acc l !! h =
    match (list_to_map l : gmap (list byte) (list byte)) !! heightKey h with
    | Some v => Some (index_hash (Some v)) | None => acc !! h end).
  { clear l Hn Hf. induction l as [|[k v] l IH]; intros acc Hf Hn; [done|].
    apply list.Forall_cons in Hf as [(hk & Hu & Ek) Hf]. cbn in Ek. subst k. cbn in Hn. apply list.NoDup_cons in Hn as [Hnk Hn].
    cbn [foldl fst snd]. destruct (heightKey_fields hk Hu) as [-> ->]. rewrite IH by done. rewrite (list_to_map_cons (M := gmap (list byte))).
    destruct (decide (hk = h)) as [->|Hne].
    - rewrite lookup_insert_eq, not_elem_of_list_to_map_1 by done. by rewrite lookup_insert_eq.
    - assert (heightKey hk <> heightKey h) by (intros E; by apply heightKey_inj in E). by rewrite !lookup_insert_ne. }
  rewrite Hgen by done. destruct (_ !! heightKey h); [done|]. apply lookup_empty.
Qed.

(** Counting with the first one kept: the state after the noted heights [l]. *)
Definition noted (l : list Z) : Z * Z := (Z.of_nat (length l), default 0 (head l)).

Lemma note_broken_noted l h : Z.of_nat (length l) < MaxUint64 -> note_broken (noted l) h = noted (l ++ [h]).
Proof.
  intros Hl. unfold note_broken, noted. cbn [fst snd]. rewrite wrap64_small by u64lia. rewrite length_app.
  destruct l as [|x l]; [done|]. cbn [length head app]. rewrite (proj2 (Z.eqb_neq _ _)) by lia.
  cbn [length from_option id]. f_equal. lia.
Qed.

Lemma note_filter (bad : Z -> bool) l : forall acc, Z.of_nat (length acc + length l) <= MaxUint64 ->
  foldl (fun s h => if bad h then note_broken s h else s) (noted acc) l = noted (acc ++ filter (fun h => bad h = true) l).
Proof.
  induction l as [|h l IH]; intros acc Hl; [by rewrite app_nil_r|]. cbn [foldl length] in *. rewrite filter_cons.
  destruct (bad h) eqn:Eb; case_decide; try done.
  - rewrite note_broken_noted by lia. rewrite IH by (rewrite length_app; cbn [length]; lia). by rewrite <- app_assoc.
  - apply IH. lia.
Qed.

Lemma note_all l acc : Z.of_nat (length acc + length l) <= MaxUint64 ->
  foldl note_broken (noted acc) l = noted (acc ++ l).
Proof.
  intros Hl. assert (H := note_filter (fun _ => true) l acc Hl). cbn in H.
  assert (E : filter (fun _ => true = true) l = l).
  { clear. induction l as [|x l IH]; [done|]. rewrite filter_cons_True by done. by rewrite IH. }
  by rewrite E in H.
Qed.

Lemma entries_of_range m lo hi h : is_u64 lo -> is_u64 hi -> heights_wf m -> lo <= h < hi ->
  range_entries (scan_range (heightKey lo) (heightKey hi) m) !! h = (fun v => index_hash (Some v)) <$> m !! heightKey h.
Proof.
  intros Hlo Hhi Hwf Hh. rewrite range_entries_lookup; [|apply scan_range_NoDup| |u64lia].
  - f_equal. apply option_eq. intros v.
    rewrite <- elem_of_list_to_map by apply scan_range_NoDup. rewrite elem_of_height_range by done. split.
    + intros (h' & E & Hr & Hm). apply heightKey_inj in E as ->; [done|u64lia|u64lia].
    + intros Hm. by exists h.
  - apply list.Forall_forall. intros [k v] Hin. apply elem_of_height_range in Hin as (h' & -> & Hr & _); [|done..].
    exists h'. split; [u64lia|done].
Qed.

(** The audit counts the heights whose entry is wrong and keeps the first. *)
Lemma check_broken tip from m : 0 < tip -> 0 <= from <= tip -> tip < MaxUint64 -> heights_wf m ->
  CheckAllHeightIndex tip from m = noted (broken_in m (seqZ from (tip - from + 1))).
Proof.
  intros Ht Hf Hm Hwf. unfold CheckAllHeightIndex. rewrite (proj2 (Z.eqb_neq _ _)) by lia.
  rewrite (proj2 (Z.ltb_ge _ _)) by lia. rewrite wrap64_small by u64lia.
  assert (Hl : Z.of_nat (length (seqZ from (tip - from + 1))) <= MaxUint64) by (rewrite length_seqZ; lia).
  rewrite <- (app_nil_l (broken_in _ _)). unfold broken_in.
  assert (E : filter (fun h => height_ok m h = false) (seqZ from (tip - from + 1)) =
              filter (fun h => negb (height_ok m h) = true) (seqZ from (tip - from + 1))).
  { apply list_filter_iff. intros h. by rewrite negb_true_iff. }
  rewrite E, <- note_filter by (cbn; lia). change (noted []) with (0, 0).
  assert (Hin : Forall (fun h => from <= h < tip + 1) (seqZ from (tip - from + 1))).
  { apply list.Forall_forall. intros h Hh%elem_of_seqZ. lia. }
  clear E Hl. revert Hin. generalize (seqZ from (tip - from + 1)) (0, 0). intros l.
  induction l as [|h l IH]; intros s Hin; [done|]. apply list.Forall_cons in Hin as [Hh Hin]. cbn [foldl].
  rewrite IH by done. f_equal.
  rewrite entries_of_range by (done || u64lia). unfold height_ok.
  destruct (m !! heightKey h) as [v|]; cbn [fmap option_fmap option_map]; [|done].
  case_bool_decide; [done|]. by destruct (body_ok m (index_hash (Some v)) h).
Qed.

(** ** The gap count *)

Definition absent (m : KV) (h : Z) : bool := bool_decide (m !! heightKey h = None).
Definition gaps (m : KV) (hi : Z) : list Z := filter (fun h => absent m h = true) (seqZ 1 (hi - 1)).

Lemma gaps_extend m e h : 1 <= e <= h -> (forall x, e <= x < h -> absent m x = true) ->
  gaps m h = gaps m e ++ seqZ e (h - e).
Proof.
  intros He Habs. unfold gaps. replace (h - 1) with ((e - 1) + (h - e)) by lia. rewrite seqZ_app by lia.
  rewrite list.filter_app. f_equal. replace (1 + (e - 1)) with e by lia.
  assert (Ha : forall x, x ∈ seqZ e (h - e) -> absent m x = true) by (intros x Hx%elem_of_seqZ; apply Habs; lia).
  revert Ha. generalize (seqZ e (h - e)). intros l. induction l as [|x l IH]; intros Ha; [done|].
  rewrite filter_cons_True by (apply Ha; left). f_equal. apply IH. intros. apply Ha. by right.
Qed.

Lemma gaps_present m h : 1 <= h -> absent m h = false -> gaps m (h + 1) = gaps m h.
Proof.
  intros Hh Hp. unfold gaps. replace (h + 1 - 1) with ((h - 1) + 1) by lia. rewrite seqZ_app by lia.
  rewrite list.filter_app. replace (1 + (h - 1)) with h by lia. change (seqZ h 1) with [0 + h].
  rewrite filter_cons_False by (rewrite Z.add_0_l; by rewrite Hp). apply app_nil_r.
Qed.

Lemma gaps_length m hi : 1 <= hi -> Z.of_nat (length (gaps m hi)) <= hi - 1.
Proof.
  intros Hh. unfold gaps. etransitivity; [apply inj_le, length_filter|]. rewrite length_seqZ. lia.
Qed.

Lemma count_gap_gaps m e h : 1 <= e <= h -> h <= MaxUint64 -> (forall x, e <= x < h -> absent m x = true) ->
  count_gap (noted (gaps m e), e) h = (noted (gaps m h), if h <=? e then e else h).
Proof.
  intros He Hm Habs. unfold count_gap, noted at 1. destruct (Z.leb_spec h e) as [Hle|Hlt].
  - assert (h = e) as -> by lia. done.
  - fold (noted (gaps m e)). assert (Hl := gaps_length m e).
    rewrite note_all by (rewrite length_seqZ; lia). by rewrite <- gaps_extend.
Qed.

Definition gap_step (s : Z * Z * Z) (e : list byte * list byte) : Z * Z * Z :=
  if (length e.1 <? length prefixHeight + 8)%nat then s
  else
    let h := be_decode (take 8 (drop (length prefixHeight) e.1)) in
    let '(missing, firstMissing, _) := count_gap s h in
    (missing, firstMissing, h +w 1).

Lemma gap_fold tip m : tip < MaxUint64 -> forall l hs e,
  l.*1 = heightKey <$> hs -> StronglySorted Z.lt hs -> 1 <= e <= tip + 1 ->
  (forall h, h ∈ hs <-> e <= h <= tip /\ absent m h = false) ->
  exists x, count_gap (foldl gap_step (noted (gaps m e), e) l) (tip + 1) = (noted (gaps m (tip + 1)), x).
Proof.
  intros Hm. induction l as [|[k v] l IH]; intros [|h hs] e El Hs He Hin; try discriminate El.
  - eexists. apply count_gap_gaps; [lia|lia|]. intros x Hx. destruct (absent m x) eqn:Ea; [done|].
    exfalso. apply (not_elem_of_nil x), Hin. split; [lia|done].
  - cbn [fmap list_fmap fst] in El. injection El as -> El. apply StronglySorted_inv in Hs as [Hs Hlt].
    rewrite list.Forall_forall in Hlt. destruct (proj1 (Hin h) ltac:(left)) as [Hh Hp].
    cbn [foldl]. unfold gap_step at 2. cbn [fst]. destruct (heightKey_fields h ltac:(u64lia)) as [-> ->].
    rewrite (count_gap_gaps m e h); [|lia|lia|].
    2: { intros x Hx. destruct (absent m x) eqn:Ea; [done|]. exfalso.
         assert (Hx' : x ∈ h :: hs) by (apply Hin; split; [lia|done]).
         apply elem_of_cons in Hx' as [->|Hx']; [lia|]. specialize (Hlt x Hx'). lia. }
    rewrite wrap64_small by u64lia. unfold noted. fold (noted (gaps m h)). rewrite <- (gaps_present m h) by (done || lia).
    apply (IH hs); [done|done|lia|]. intros x. split.
    + intros Hx. destruct (proj1 (Hin x) ltac:(by right)) as [Hr Ha]. specialize (Hlt x Hx). split; [lia|done].
    + intros [Hr Ha]. assert (Hx : x ∈ h :: hs) by (apply Hin; split; [lia|done]).
      apply elem_of_cons in Hx as [->|Hx]; [lia|done].
Qed.

(** The scan of the range, as the list of present heights in order. *)
Lemma scan_heights m lo hi : is_u64 lo -> is_u64 hi -> heights_wf m ->
  exists hs, (scan_range (heightKey lo) (heightKey hi) m).*1 = heightKey <$> hs /\ StronglySorted Z.lt hs /\
    forall h, h ∈ hs <-> lo <= h < hi /\ absent m h = false.
Proof.
  intros Hlo Hhi Hwf.
  assert (Hs := scan_range_sorted (heightKey lo) (heightKey hi) m). assert (Hn := scan_range_NoDup (heightKey lo) (heightKey hi) m).
  assert (Hmem : forall k v, (k, v) ∈ scan_range (heightKey lo) (heightKey hi) m <->
    exists h, k = heightKey h /\ lo <= h < hi /\ m !! heightKey h = Some v) by (intros; by apply elem_of_height_range).
  revert Hs Hn Hmem. generalize (scan_range (heightKey lo) (heightKey hi) m). intros l Hs Hn Hmem.
  assert (Hgen : exists hs, l.*1 = heightKey <$> hs /\ StronglySorted Z.lt hs /\ Forall (fun h => lo <= h < hi) hs).
  { assert (Hf : forall k v, (k, v) ∈ l -> exists h, k = heightKey h /\ lo <= h < hi) by (intros k v Hin; apply Hmem in Hin; naive_solver).
    clear Hmem. induction l as [|[k v] l IH]; [exists []; repeat constructor|].
    apply StronglySorted_inv in Hs as [Hs Hle]. cbn [fmap list_fmap fst] in Hn. apply list.NoDup_cons in Hn as [Hk Hn].
    destruct IH as (hs & El & Hss & Hr); [done|done|intros; eapply Hf; by right|].
    destruct (Hf k v) as (h & -> & Hh); [left|]. exists (h :: hs). split_and!; [by rewrite !fmap_cons, El| |by constructor].
    apply SSorted_cons; [done|]. apply list.Forall_forall. intros x Hx. rewrite list.Forall_forall in Hr. rewrite list.Forall_forall in Hle.
    assert (Hxl : heightKey x ∈ l.*1) by (rewrite El; by apply list_elem_of_fmap_2).
    apply list_elem_of_fmap in Hxl as ([kx vx] & E & Hxl). cbn in E. subst kx.
    specialize (Hle _ Hxl). unfold key_le in Hle. cbn [fst] in Hle. apply bytes_le_spec in Hle.
    specialize (Hr x Hx). rewrite heightKey_compare in Hle by u64lia.
    destruct (Z.compare_spec h x) as [->|?|?]; [|done|done]. exfalso. apply Hk.
    by apply (list_elem_of_fmap_2 fst) in Hxl. }
  destruct Hgen as (hs & El & Hss & Hr). exists hs. split_and!; [done|done|]. intros h. split.
  - intros Hh. rewrite list.Forall_forall in Hr. split; [by apply Hr|].
    assert (Hxl : heightKey h ∈ l.*1) by (rewrite El; by apply list_elem_of_fmap_2).
    apply list_elem_of_fmap in Hxl as ([kx vx] & E & Hxl). cbn in E. subst kx.
    apply Hmem in Hxl as (h' & E & _ & Hm). unfold absent. apply bool_decide_eq_false. rewrite E, Hm. done.
  - intros [Hb Ha]. unfold absent in Ha. apply bool_decide_eq_false in Ha.
    destruct (m !! heightKey h) as [v|] eqn:Ev; [|done].
    assert (Hin : (heightKey h, v) ∈ l) by (apply Hmem; eauto). apply (list_elem_of_fmap_2 fst) in Hin. cbn in Hin.
    rewrite El in Hin. apply list_elem_of_fmap in Hin as (h' & E & Hh'). apply heightKey_inj in E as ->; [done|u64lia|].
    rewrite list.Forall_forall in Hr. specialize (Hr h' Hh'). u64lia.
Qed.

End Index.

(** ** The AVM write set of a commit *)

(** The value of [key] after a write set: the last write that names it. *)
Definition last_write (writes : list AVMWrite) (key : list byte) (before : option (list byte)) : option (list byte) :=
  foldl (fun cur w => if bool_decide (aw_Key w = key) then aw_Value w else cur) before writes.

Lemma avmBatch_ops writes b : avmBatch writes = Ok b -> b = avm_op <$> writes.
Proof.
  assert (Hg : forall writes acc b,
    foldM (fun b w => reject bool_decide (aw_Key w = []) with "store: empty AVM key" ;; Ok (b ++ [avm_op w])) acc writes = Ok b ->
    b = acc ++ (avm_op <$> writes)).
  { clear. induction writes as [|w ws IH]; intros acc b Hf; cbn in Hf; [apply Ok_inj in Hf as <-; symmetry; apply app_nil_r|].
    apply bind_ok in Hf as (acc1 & [_ <-%Ok_inj]%reject_ok & Hf). apply IH in Hf as ->. by rewrite <- app_assoc. }
  apply Hg.
Qed.

Lemma avmKey_inj a b : avmKey a = avmKey b -> a = b.
Proof. unfold avmKey. apply app_inv_head. Qed.

Lemma write_avm writes m key : write (avm_op <$> writes) m !! avmKey key = last_write writes key (m !! avmKey key).
Proof.
  revert m. induction writes as [|w ws IH]; intros m; [done|]. unfold write, last_write in *. cbn [fmap list_fmap foldl].
  rewrite IH. f_equal. unfold avm_op. case_bool_decide as E.
  - rewrite E. destruct (aw_Value w); cbn [apply_op]; [apply lookup_insert_eq|apply lookup_delete_eq].
  - assert (avmKey (aw_Key w) <> avmKey key) by (intros ?%avmKey_inj; done).
    destruct (aw_Value w); cbn [apply_op]; [by apply lookup_insert_ne|by apply lookup_delete_ne].
Qed.

Lemma commit_avm `{Crypto} `{J : BlockJson} hash height data writes c ledgers m m' key :
  commitRawBlock hash height data writes c (Ok ledgers) m = Ok m' ->
  (forall o s, o ∈ ledgers -> op_key o <> prefixAVM ++ s) ->
  m' !! avmKey key = last_write writes key (m !! avmKey key).
Proof.
  intros (avm & led & images & Ha & Hl & Hi & ->)%commit_shape Hled. apply Ok_inj in Hl as <-.
  apply avmBatch_ops in Ha as ->. rewrite tail_other by (intros s; key_ne). rewrite write_app, write_other; [apply write_avm|].
  apply list.Forall_app. split.
  - apply list.Forall_forall. intros o Ho. by apply Hled.
  - assert (Hp : Forall image_put images).
    { unfold images_batch in Hi. destruct (unmarshal_block data) as [b|] eqn:Eb; [|by apply Ok_inj in Hi as <-].
      eapply images_batch_put; [exact Eb|]. unfold images_batch. by rewrite Eb. }
    eapply list.Forall_impl; [exact Hp|]. intros o [ki ->]. cbn [op_key].
    unfold keyImageSpentKey. destruct (CanonicalKeyImage ki); key_ne.
Qed.

(** ** Theorems *)

(** After a successful canonical commit the store has the block as its tip, for
    the strict reader of the maintenance commands too, with its body, its height
    entry and its AVM commitment; every key image the block spends is spent, and each
    AVM key has the value of its last write in the block. *)
Theorem commit_durable `{Crypto} `{J : BlockJson} (hash : Hash32) (height : Z) (data : list byte)
    (writes : list AVMWrite) (c : Hash32) (ledgers : list batch_op) (m m' : KV) :
  commitRawBlock hash height data writes c (Ok ledgers) m = Ok m' -> is_u64 height -> hash <> zeroHash ->
  (forall o s, o ∈ ledgers -> op_key o <> prefixAVM ++ s) ->
  ReadTipOnly m' = Ok (hash, height) /\ GetTip m' = (hash, height) /\
  GetRawBlock m' hash = Some data /\ GetCanonicalHash m' height = Ok (Some hash) /\
  GetAVMCommitment m' height = Ok (Some (hash, c)) /\
  (forall b tx inp, unmarshal_block data = Some b -> tx ∈ Txs b -> inp ∈ Inputs tx ->
     IsKeyImageSpent m' (in_KeyImage inp) = true) /\
  (forall key, m' !! avmKey key = last_write writes key (m !! avmKey key)).
Proof.
  intros Hc Hu Hz Hled. destruct (commit_shape _ _ _ _ _ _ _ _ Hc) as (avm & led & images & _ & _ & _ & E).
  destruct (tail_lookups hash height data c (write (avm ++ led ++ images) m)) as (L1 & L2 & L3 & L4 & L5).
  rewrite <- E in L1, L2, L3, L4, L5. split_and!.
  - by eapply read_tip_after.
  - unfold GetTip. rewrite L3, L4, copy_arr_list, length_le_encode. cbn [Nat.ltb Nat.leb].
    rewrite take_ge by (by rewrite length_le_encode). by rewrite le_decode_encode by u64lia.
  - exact L1.
  - unfold GetCanonicalHash. rewrite L2, arr32_length, copy_arr_list. done.
  - unfold GetAVMCommitment. rewrite L5, length_app, !arr32_length.
    rewrite take_app_length', drop_app_length' by (symmetry; apply arr32_length). by rewrite !copy_arr_list.
  - intros b tx inp Hb Htx Hinp. by eapply commit_images.
  - intros key. by eapply commit_avm.
Qed.

(** A sweep of the height index leaves exactly the heights it counts as skipped
    for the audit to find: the audit of the repaired store reports that number of
    broken heights, so a sweep that skips nothing leaves a consistent index. No
    entry that named a block is changed. *)
Theorem repair_leaves_skipped `{J : BlockJson} (tip : Z) (m m' : KV) (repaired skipped : Z) :
  0 < tip < MaxUint64 -> bodies_wf m -> heights_wf m ->
  RepairAllHeightIndex tip m = (m', repaired, skipped) ->
  fst (CheckAllHeightIndex tip 0 m') = skipped /\
  (forall h, 0 <= h <= tip -> index_hash (m !! heightKey h) <> zeroHash -> m' !! heightKey h = m !! heightKey h).
Proof.
  intros Ht Hb Hh Hr. unfold RepairAllHeightIndex in Hr.
  assert (Hlen : Z.of_nat (length (seqZ 0 (tip + 1))) <= MaxUint64) by (rewrite length_seqZ; lia).
  assert (Hu : Forall is_u64 (seqZ 0 (tip + 1))) by (apply list.Forall_forall; intros h Hin%elem_of_seqZ; u64lia).
  destruct (repair_fold (body_heights tip m) _ Hu (NoDup_seqZ _ _) m 0 0 m' repaired skipped) as (Hk & Hkeys & Hkept);
    [intros; by eapply body_heights_sound|lia|lia|exact Hr|].
  assert (Hwf' : heights_wf m').
  { intros s v Hs. destruct (decide (Exists (fun h => prefixHeight ++ s = heightKey h) (seqZ 0 (tip + 1)))) as [He|Hn].
    - apply list.Exists_exists in He as (h & _ & E). unfold heightKey in E. apply app_inv_head in E as ->. apply length_be_encode.
    - apply (Hh s v). rewrite <- Hs. symmetry. apply Hkeys. intros h Hin E. apply Hn, list.Exists_exists. eauto. }
  rewrite check_broken by (done || lia). split; [cbn [noted fst]; rewrite Z.sub_0_r; lia|].
  intros h Hr' Hz. apply Hkept; [apply elem_of_seqZ; lia|done].
Qed.

(** The one-pass gap count reports the number of heights from 1 to the tip that
    have no entry, and the lowest of them. *)
Theorem count_missing_exact (tip : Z) (m : KV) :
  0 < tip < MaxUint64 -> heights_wf m ->
  CountMissingHeights tip m =
  (Z.of_nat (length (filter (fun h => m !! heightKey h = None) (seqZ 1 tip))),
   default 0 (head (filter (fun h => m !! heightKey h = None) (seqZ 1 tip)))).
Proof.
  intros Ht Hwf. unfold CountMissingHeights. rewrite (proj2 (Z.eqb_neq _ _)) by lia. rewrite wrap64_small by u64lia.
  destruct (scan_heights m 1 (tip + 1)) as (hs & El & Hs & Hin); [u64lia|u64lia|done|].
  destruct (gap_fold tip m ltac:(lia) (scan_range (heightKey 1) (heightKey (tip + 1)) m) hs 1 El Hs ltac:(lia)) as [x Hx].
  { intros h. rewrite Hin. split; intros [? ?]; (split; [lia|done]). }
  change (noted (gaps m 1), 1) with (0, 0, 1) in Hx. unfold gap_step in Hx. rewrite Hx. unfold noted, gaps.
  replace (tip + 1 - 1) with tip by lia.
  assert (E : filter (fun h => absent m h = true) (seqZ 1 tip) = filter (fun h => m !! heightKey h = None) (seqZ 1 tip)).
  { apply list_filter_iff. intros h. unfold absent. by rewrite bool_decide_eq_true. }
  by rewrite E.
Qed.

(** ** Witnesses *)

Lemma bodies_wf_forall (m : KV) :
  map_Forall (fun k (_ : list byte) => has_prefix prefixBlock k = true ->
    length (drop 2 k) = 32%nat /\ copy_arr 32 (drop 2 k) <> zeroHash) m -> bodies_wf m.
Proof. intros Hm s body Hs. exact (Hm _ _ Hs (has_prefix_app _ _)). Qed.

Lemma heights_wf_forall (m : KV) :
  map_Forall (fun k (_ : list byte) => has_prefix prefixHeight k = true -> length (drop 2 k) = 8%nat) m -> heights_wf m.
Proof. intros Hm s v Hs. exact (Hm _ _ Hs (has_prefix_app _ _)). Qed.

Lemma pair_parts {A B C} (p : A * B * C) (b : B) (c : C) : snd (fst p) = b -> snd p = c -> p = (fst (fst p), b, c).
Proof. destruct p as [[a b'] c']. cbn. by intros -> ->. Qed.

Section Example.
#[local] Existing Instance toy_crypto | 0.
#[local] Instance toy_block_json : BlockJson := {|
  marshal_stored := fun _ => []; unmarshal_stored := fun _ => None;
  unmarshal_block := fun d => if bool_decide (d = [x01]) then Some Chain.ex_b1 else None;
  unmarshal_heights := fun d => match d with x :: _ => Some (0, byte_to_Z x) | [] => None end
|}.

Definition ex_hash (b : byte) : Hash32 := copy_arr 32 [b].
Definition ex_writes : list AVMWrite := [mkAVMWrite [x05] (Some [x09]); mkAVMWrite [x05] (Some [x0a])].
Definition ex_commit : result KV := commitRawBlock (ex_hash x01) 1 [x01] ex_writes (ex_hash x07) (Ok []) ∅.

Definition ex_committed : KV := match ex_commit with Ok m => m | Err _ => ∅ end.

Lemma ex_commit_ok : ex_commit = Ok ex_committed.
Proof. apply ok_value. vm_compute. reflexivity. Qed.

Lemma commit_durable_witness :
  ReadTipOnly ex_committed = Ok (ex_hash x01, 1) /\
  ex_committed !! avmKey [x05] = last_write ex_writes [x05] ((∅ : KV) !! avmKey [x05]).
Proof.
  destruct (commit_durable (ex_hash x01) 1 [x01] ex_writes (ex_hash x07) [] ∅ ex_committed ex_commit_ok)
    as (H1 & _ & _ & _ & _ & _ & H7).
  - u64lia.
  - apply (bool_decide_unpack _). vm_compute. exact I.
  - intros o s Ho. apply not_elem_of_nil in Ho. destruct Ho.
  - split; [exact H1|exact (H7 [x05])].
Defined.

(** Bodies of heights 1 and 2, of which only the first is indexed; no body of height 0. *)
Definition ex_store : KV :=
  PutRawBlock (ex_hash x01) 1 [x01] (put (blockKey (ex_hash x02)) [x02] ∅).
Definition ex_repaired : KV * Z * Z := RepairAllHeightIndex 2 ex_store.

Lemma ex_store_bodies : bodies_wf ex_store.
Proof. apply bodies_wf_forall. apply (bool_decide_unpack _). vm_compute. exact I. Qed.

Lemma ex_store_heights : heights_wf ex_store.
Proof. apply heights_wf_forall. apply (bool_decide_unpack _). vm_compute. exact I. Qed.

Lemma ex_repaired_counts : ex_repaired = (fst (fst ex_repaired), 1, 1).
Proof. apply pair_parts; vm_compute; reflexivity. Qed.

Lemma repair_leaves_skipped_witness : fst (CheckAllHeightIndex 2 0 (fst (fst ex_repaired))) = 1.
Proof.
  exact (proj1 (repair_leaves_skipped 2 ex_store (fst (fst ex_repaired)) 1 1 ltac:(u64lia) ex_store_bodies
    ex_store_heights ex_repaired_counts)).
Defined.

(** Entries at heights 1 and 3 below a tip at 4. *)
Definition ex_gappy : KV := put (heightKey 3) [] (put (heightKey 1) [] ∅).

Lemma ex_gappy_heights : heights_wf ex_gappy.
Proof. apply heights_wf_forall. apply (bool_decide_unpack _). vm_compute. exact I. Qed.

Lemma count_missing_exact_witness : 0 < 4 < MaxUint64 /\ CountMissingHeights 4 ex_gappy = (2, 2).
Proof.
  assert (Ht : 0 < 4 < MaxUint64) by u64lia. split; [exact Ht|].
  rewrite (count_missing_exact 4 ex_gappy Ht ex_gappy_heights). vm_compute. reflexivity.
Defined.

End Example.

End BlockStoreProofs.
