(* ===== verification/OutputStore.v ===== *)
(** Outputs on disk: the UTXO, spent-output and stake-block indexes of
    [store/leveldb.go] and the ring-member sampling index of
    [store/ring_sampling_index.go], [store/ring_sampling.go] and
    [store/ring_sampling_verify.go].

    A reader of the entropy stream is the list of bytes it will yield. *)

From stdpp Require Import base gmap list strings sorting.
From S2P Require Import Prelude Bytes Crypto Transaction Utxo KeyValue.
Import Utxo KeyValue.

Module OutputStore.

(** ** Records *)

Record StoredUTXO := mkStoredUTXO {
  st_TxHash : Hash32; st_OutputIndex : Z; st_OneTimePub : Point32; st_TxPubKey : Point32;
  st_AmountCommit : Commitment; st_EncAmount : arr 8; st_BlockHeight : Z; st_AmountNAPRO : Z; st_ProtocolLocked : bool
}.

#[export] Instance StoredUTXO_eq_dec : EqDecision StoredUTXO.
Proof. solve_decision. Defined.

(** [json.Marshal] and [json.Unmarshal] at [StoredUTXO]. *)
Class UtxoJson := { marshal_utxo : StoredUTXO -> list byte; unmarshal_utxo : list byte -> option StoredUTXO }.

Definition storedToCoreUTXO (u : StoredUTXO) : UTXO :=
  mkUTXO (st_TxHash u) (st_OutputIndex u) (st_OneTimePub u) (st_TxPubKey u) (st_AmountCommit u) (st_EncAmount u)
    (st_BlockHeight u) (st_ProtocolLocked u).

(** ** Spent outputs and stake blocks *)

Definition MarkUTXOSpent (txHash : Hash32) (outIdx : Z) (m : KV) : KV := put (spentUTXOKey txHash outIdx) [x01] m.
Definition UnmarkUTXOSpent (txHash : Hash32) (outIdx : Z) (m : KV) : KV := del (spentUTXOKey txHash outIdx) m.
Definition IsUTXOSpent (m : KV) (txHash : Hash32) (outIdx : Z) : bool := has m (spentUTXOKey txHash outIdx).
Definition SpentUTXOIndexSize (m : KV) : Z := Z.of_nat (length (scan prefixSpentUTXO m)).

(** [IterAllUTXOKeys], as the list of calls it makes. *)
Definition IterAllUTXOKeys (m : KV) : list (Hash32 * Z) :=
  (fun e => let suffix := drop (length prefixUTXO) e.1 in (copy_arr 32 (take 32 suffix), be_decode (drop 32 suffix))) <$>
    filter (fun e => length (drop (length prefixUTXO) e.1) = 36%nat) (scan prefixUTXO m).

Definition PutStakeBlockHeight (h : Z) (m : KV) : KV := put (stakeBlockKey h) [x01] m.
Definition HasStakeBlockIndex (m : KV) : bool := bool_decide (scan prefixStakeBlock m <> []).
Definition IterStakeBlockHeights (m : KV) : list Z :=
  (fun e => be_decode (drop (length prefixStakeBlock) e.1)) <$>
    filter (fun e => length (drop (length prefixStakeBlock) e.1) = 8%nat) (scan prefixStakeBlock m).

Section Outputs.
Context `{J : UtxoJson}.

(** ** The sampling index *)

Definition ringSamplingUint (v : Z) : list byte := be_encode 8 v.

(** [None] says the index is not ready. *)
Definition ringSamplingCount (m : KV) : result (option Z) :=
  match m !! ringSamplingCountKey with
  | None => Ok None
  | Some data => reject negb (bool_decide (length data = 8%nat)) with "ring sampling: malformed count" ;; Ok (Some (be_decode data))
  end.

Definition decodeRingRecord (key data : list byte) : result StoredUTXO :=
  reject negb (bool_decide (length key = (length prefixRingMember + 32)%nat)) || negb (has_prefix prefixRingMember key)
    with "ring sampling: malformed canonical key" ;;
  need u from unmarshal_utxo data else "ring sampling: decode canonical member" ;;
  reject negb (bool_decide (drop (length prefixRingMember) key = arr_list (st_OneTimePub u)))
    with "ring sampling: canonical key/payload mismatch" ;;
  Ok u.

Definition readRingSamplingMember (m : KV) (index : Z) : result StoredUTXO :=
  need data from m !! ringSamplingSlotKey index else "ring sampling: read slot" ;;
  reject negb (bool_decide (length data = 32%nat)) with "ring sampling: malformed slot" ;;
  let pub : Point32 := copy_arr 32 data in
  need reverse from m !! ringSamplingReverseKey pub else "ring sampling: read reverse" ;;
  reject negb (bool_decide (length reverse = 8%nat)) || negb (be_decode reverse =? index)
    with "ring sampling: inconsistent reverse" ;;
  need data from m !! ringMemberKey pub else "ring sampling: read canonical member" ;;
  u ← decodeRingRecord (ringMemberKey pub) data;
  reject st_ProtocolLocked u with "ring sampling: locked member in eligible index" ;;
  Ok u.

(** A member leaves: the last slot moves into its place. *)
Definition stage_remove (m : KV) (pub : Point32) (index count : Z) : result (list batch_op) :=
  let last := count -w 1 in
  moved ← (if index =? last then Ok []
           else
             need lastPub from m !! ringSamplingSlotKey last else "ring sampling: missing tail slot" ;;
             reject negb (bool_decide (length lastPub = 32%nat)) with "ring sampling: missing tail slot" ;;
             let mv : Point32 := copy_arr 32 lastPub in
             reject bool_decide (mv = pub) with "ring sampling: duplicate tail member" ;;
             _ ← readRingSamplingMember m last;
             Ok [Put (ringSamplingSlotKey index) lastPub; Put (ringSamplingReverseKey mv) (ringSamplingUint index)]);
  Ok (moved ++ [Delete (ringSamplingSlotKey last); Delete (ringSamplingReverseKey pub);
                Put ringSamplingCountKey (ringSamplingUint last)]).

(** A member joins in the slot after the last one. *)
Definition stage_append (m : KV) (pub : Point32) (count : Z) : result (list batch_op) :=
  reject count =? MaxUint64 with "ring sampling: population overflow" ;;
  reject has m (ringSamplingSlotKey count) with "ring sampling: occupied append slot" ;;
  Ok [Put (ringSamplingSlotKey count) (arr_list pub); Put (ringSamplingReverseKey pub) (ringSamplingUint count);
      Put ringSamplingCountKey (ringSamplingUint (count +w 1))].

(** [stageRingSamplingChange]: the operations it adds to the batch. *)
Definition stageRingSamplingChange (m : KV) (pub : Point32) (eligible : bool) : result (list batch_op) :=
  ready ← ringSamplingCount m;
  if negb (bool_decide (is_Some ready)) && bool_decide (scan prefixRingMember m <> []) then Ok []
  else
    let count := default 0 ready in
    oldEligible ← (match m !! ringMemberKey pub with
                   | Some oldData => old ← decodeRingRecord (ringMemberKey pub) oldData; Ok (negb (st_ProtocolLocked old))
                   | None => Ok false
                   end);
    reject negb (Bool.eqb oldEligible (has m (ringSamplingReverseKey pub)))
      with "ring sampling: canonical/reverse membership mismatch" ;;
    index ← (if oldEligible : bool then
               let reverse := default [] (m !! ringSamplingReverseKey pub) in
               reject negb (bool_decide (length reverse = 8%nat)) || (count =? 0) with "ring sampling: malformed reverse index" ;;
               let index := be_decode reverse in
               reject (count <=? index) || negb (bool_decide (default [] (m !! ringSamplingSlotKey index) = arr_list pub))
                 with "ring sampling: reverse/slot mismatch" ;;
               Ok index
             else Ok 0);
    if oldEligible && negb eligible then stage_remove m pub index count
    else if negb oldEligible && eligible then stage_append m pub count
    else Ok [Put ringSamplingCountKey (ringSamplingUint count)].

(** ** Outputs *)

Definition PutUTXO (txHash : Hash32) (outIdx : Z) (u : option StoredUTXO) (m : KV) : result KV :=
  need u from u else "nil UTXO" ;;
  let data := marshal_utxo u in
  ops ← stageRingSamplingChange m (st_OneTimePub u) (negb (st_ProtocolLocked u));
  Ok (write ([Put (utxoKey txHash outIdx) data] ++ ops ++ [Put (ringMemberKey (st_OneTimePub u)) data]) m).

Definition GetUTXO (m : KV) (txHash : Hash32) (outIdx : Z) : result (option StoredUTXO) :=
  match m !! utxoKey txHash outIdx with
  | None => Ok None
  | Some data => need u from unmarshal_utxo data else "unmarshal UTXO" ;; Ok (Some u)
  end.

Definition DeleteUTXO (txHash : Hash32) (outIdx : Z) (m : KV) : result KV :=
  u ← GetUTXO m txHash outIdx;
  ops ← (match u with
         | Some u => ops ← stageRingSamplingChange m (st_OneTimePub u) false; Ok (ops ++ [Delete (ringMemberKey (st_OneTimePub u))])
         | None => Ok []
         end);
  Ok (write ([Delete (utxoKey txHash outIdx); Delete (spentUTXOKey txHash outIdx)] ++ ops) m).

Definition LookupRingMember (m : KV) (pub : Point32) : result (option UTXO) :=
  match m !! ringMemberKey pub with
  | None => Ok None
  | Some data =>
      need u from unmarshal_utxo data else "unmarshal UTXO" ;;
      if st_ProtocolLocked u then Ok None else Ok (Some (storedToCoreUTXO u))
  end.

(** [IterUTXOs] and [IterActiveUTXOs], as the list of records visited. *)
Definition IterUTXOs (m : KV) : result (list StoredUTXO) :=
  foldM (fun acc e => need u from unmarshal_utxo e.2 else "unmarshal UTXO" ;; Ok (acc ++ [u])) [] (scan prefixUTXO m).

Definition outpoint_id (u : StoredUTXO) : list byte := arr_list (st_TxHash u) ++ be_encode 4 (st_OutputIndex u).

Definition spent_ids (m : KV) : gset (list byte) :=
  list_to_set (filter (fun s => length s = 36%nat) ((fun e => drop (length prefixSpentUTXO) e.1) <$> scan prefixSpentUTXO m)).

Definition IterActiveUTXOs (m : KV) : result (list StoredUTXO) :=
  us ← IterUTXOs m; Ok (filter (fun u => outpoint_id u ∉ spent_ids m) us).

(** ** Preparation of the index *)

Definition ring_index_marker : list byte := metaKey (bytes_of_string "ring-member-index-v1").

Definition ensureLegacyRingMemberIndex (m : KV) : result KV :=
  if has m ring_index_marker then Ok m
  else
    let m1 := del ringSamplingCountKey m in
    m2 ← foldM (fun m' e => need u from unmarshal_utxo e.2 else "decode UTXO for ring-member backfill" ;;
                            Ok (put (ringMemberKey (st_OneTimePub u)) e.2 m')) m1 (scan prefixUTXO m1);
    Ok (put ring_index_marker [x01] m2).

(** One record of the rebuild: the store and the next ordinal. *)
Definition index_member (s : KV * Z) (e : list byte * list byte) : result (KV * Z) :=
  let '(m, count) := s in
  u ← decodeRingRecord e.1 e.2;
  if st_ProtocolLocked u then Ok (m, count)
  else
    reject count =? MaxUint64 with "ring sampling: population overflow" ;;
    Ok (put (ringSamplingReverseKey (st_OneTimePub u)) (ringSamplingUint count)
          (put (ringSamplingSlotKey count) (arr_list (st_OneTimePub u)) m), count +w 1).

Definition EnsureRingMemberIndex (m : KV) : result KV :=
  m ← ensureLegacyRingMemberIndex m;
  ready ← ringSamplingCount m;
  if bool_decide (is_Some ready) then Ok m
  else
    let m1 := write ((fun e => Delete e.1) <$> scan ringSamplingSlotPrefix m) m in
    let m2 := write ((fun e => Delete e.1) <$> scan ringSamplingReversePrefix m1) m1 in
    s ← foldM index_member (m2, 0) (scan prefixRingMember m2);
    Ok (put ringSamplingCountKey (ringSamplingUint s.2) s.1).

Definition InvalidateRingSamplingIndex (m : KV) : KV := del ringSamplingCountKey m.

(** ** Sampling *)

Definition maxRingSamplingRequest : Z := 4096.
Definition maxRingEntropyRejections : nat := 128.
Definition maxStakedRingExclusions : Z := 1000000.

(** [bits.Len64]. *)
Definition Len64 (x : Z) : Z := if x =? 0 then 0 else Z.log2 x + 1.

Fixpoint draw_ordinal (attempts : nat) (entropy : list byte) (byteCount : nat) (mask size : Z) : result (Z * list byte) :=
  match attempts with
  | O => Err "ring sampling: entropy rejection limit exceeded"
  | S attempts' =>
      reject (length entropy <? byteCount)%nat with "ring sampling: entropy" ;;
      let rest := drop byteCount entropy in
      let value := match take byteCount entropy with
                   | [] => 0
                   | b :: bs => be_decode (byte_of_Z (Z.land (byte_to_Z b) mask) :: bs)
                   end in
      if value <? size then Ok (value, rest) else draw_ordinal attempts' rest byteCount mask size
  end.

Definition uniformRingOrdinal (entropy : list byte) (size : Z) : result (Z * list byte) :=
  reject size =? 0 with "ring sampling: invalid entropy/population" ;;
  if size =? 1 then Ok (0, entropy)
  else
    let width := Len64 (size - 1) in
    let byteCount := (width + 7) / 8 in
    draw_ordinal maxRingEntropyRejections entropy (Z.to_nat byteCount) (Z.shiftr 255 (byteCount * 8 - width)) size.

Record DecoyUTXO := mkDecoy { dc_OneTimePub : Point32; dc_AmountCommit : Commitment }.

Definition at_ordinal (swaps : gmap Z Z) (index : Z) : Z := default index (swaps !! index).

(** The swap of the drawn ordinal with the last remaining one. *)
Definition swap_last (swaps : gmap Z Z) (index remaining : Z) : gmap Z Z :=
  delete (remaining - 1) (<[index := at_ordinal swaps (remaining - 1)]> swaps).

Definition excluded (exclude : gset Point32) (excludeUTXOs : gset UTXOKey) (u : StoredUTXO) : bool :=
  bool_decide (st_OneTimePub u ∈ exclude) || bool_decide ((st_TxHash u, st_OutputIndex u) ∈ excludeUTXOs).

(** The loop of [sampleRingSnapshotExcluding]; [budget] is what is left of
    [count+len(exclude)+len(excludeUTXOs)] draws. *)
Fixpoint sample_loop (budget : nat) (m : KV) (count : nat) (exclude : gset Point32) (excludeUTXOs : gset UTXOKey)
    (remaining : Z) (swaps : gmap Z Z) (seen : gset Point32) (out : list StoredUTXO) (entropy : list byte) :
    result (list StoredUTXO) :=
  if (remaining =? 0) || (count <=? length out)%nat then Ok out
  else
    match budget with
    | O => Err "ring sampling: candidate consistency budget exceeded"
    | S budget' =>
        p ← uniformRingOrdinal entropy remaining;
        let '(index, entropy') := p in
        let ordinal := at_ordinal swaps index in
        u ← readRingSamplingMember m ordinal;
        reject bool_decide (st_OneTimePub u ∈ seen) with "ring sampling: duplicate canonical key" ;;
        sample_loop budget' m count exclude excludeUTXOs (remaining - 1) (swap_last swaps index remaining)
          ({[st_OneTimePub u]} ∪ seen) (if excluded exclude excludeUTXOs u then out else out ++ [u]) entropy'
    end.

(** The last slot is checked before sampling. *)
Definition boundary_member (m : KV) (population : Z) : result () :=
  if 0 <? population then
    match readRingSamplingMember m (population - 1) with Ok _ => Ok () | Err e => Err e end
  else Ok ().

Definition decoys (us : list StoredUTXO) : list DecoyUTXO :=
  (fun u => mkDecoy (st_OneTimePub u) (st_AmountCommit u)) <$> us.

Definition sampleRingSnapshotExcluding (m : KV) (count : Z) (exclude : gset Point32) (excludeUTXOs : gset UTXOKey)
    (entropy : list byte) : result (list DecoyUTXO) :=
  if count <=? 0 then Ok []
  else
    reject (maxRingSamplingRequest <? count) || (maxRingSamplingRequest <? Z.of_nat (size exclude)) ||
           (maxStakedRingExclusions <? Z.of_nat (size excludeUTXOs))
      with "ring sampling: invalid bounded request/entropy" ;;
    ready ← ringSamplingCount m;
    need population from ready else "ring sampling: ordinal index not ready; prepare ring-member index" ;;
    _ ← boundary_member m population;
    reject has m (ringSamplingSlotKey population) with "ring sampling: slot past population boundary" ;;
    sampled ← sample_loop (Z.to_nat count + size exclude + size excludeUTXOs) m (Z.to_nat count) exclude excludeUTXOs
            population ∅ ∅ [] entropy;
    Ok (decoys sampled).

End Outputs.

End OutputStore.
