(* ===== verification/OutputStoreProofs.v ===== *)
(** Properties of [OutputStore]: the sampling index is a bijection between slots and
    unlocked ring members that every output write keeps, sampling draws distinct
    members without bias and within its budget, and the scan of all output keys. *)

From stdpp Require Import base gmap list strings sorting.
From S2P Require Import Prelude Bytes Crypto Transaction Utxo KeyValue OutputStore.
Import Utxo KeyValue OutputStore.

Module OutputStoreProofs.

(** ** Keys *)

Lemma arr_list_inj' n (a b : arr n) : arr_list a = arr_list b -> a = b.
Proof. apply arr_ext. Qed.

Lemma slotKey_inj a b : is_u64 a -> is_u64 b -> ringSamplingSlotKey a = ringSamplingSlotKey b -> a = b.
Proof.
  unfold ringSamplingSlotKey. intros Ha Hb E%app_inv_head.
  rewrite <- (be_decode_encode8 a), <- (be_decode_encode8 b), E by done. done.
Qed.

Lemma reverseKey_inj a b : ringSamplingReverseKey a = ringSamplingReverseKey b -> a = b.
Proof. unfold ringSamplingReverseKey. intros E%app_inv_head. by apply arr_list_inj'. Qed.

Lemma memberKey_inj a b : ringMemberKey a = ringMemberKey b -> a = b.
Proof. unfold ringMemberKey. intros E%app_inv_head. by apply arr_list_inj'. Qed.

Lemma count_key_meta : ringSamplingCountKey = prefixMeta ++ bytes_of_string "ring-sampling-v1/count".
Proof. reflexivity. Qed.

(** Distinct keys of the sampling index. *)
Ltac ring_ne := rewrite ?count_key_meta; key_ne.

Lemma arr32 (a : arr 32) : length (arr_list a) = 32%nat.
Proof. apply (proj2_sig a). Qed.

Lemma be8_length v : length (be_encode 8 v) = 8%nat.
Proof. apply length_be_encode. Qed.

Lemma uint_decode v : is_u64 v -> be_decode (ringSamplingUint v) = v.
Proof. apply be_decode_encode8. Qed.

(** ** Removal that moves the last element *)

Definition swap_remove {A} (i : nat) (l : list A) : list A :=
  match list.last l with Some x => take (length l - 1) (<[i := x]> l) | None => [] end.

Lemma swap_remove_length {A} i (l : list A) : length (swap_remove i l) = (length l - 1)%nat.
Proof.
  unfold swap_remove. destruct (list.last l) eqn:E.
  - rewrite length_take, length_insert. lia.
  - apply list.last_None in E as ->. done.
Qed.

Lemma swap_remove_lookup {A} i (l : list A) x j : list.last l = Some x -> (i < length l)%nat ->
  swap_remove i l !! j = if decide (length l - 1 <= j)%nat then None
                         else if decide (j = i) then Some x else l !! j.
Proof.
  intros Hl Hi. unfold swap_remove. rewrite Hl. destruct (decide (length l - 1 <= j)%nat).
  - apply lookup_take_ge. lia.
  - rewrite lookup_take_lt by lia. destruct (decide (j = i)) as [->|]; [by apply list_lookup_insert_eq|by apply list_lookup_insert_ne].
Qed.

Lemma swap_remove_elem {A} i (l : list A) y : NoDup l -> l !! i = Some y ->
  NoDup (swap_remove i l) /\ forall z, z ∈ swap_remove i l <-> z ∈ l /\ z <> y.
Proof.
  intros Hn Hi. assert (Hlt := lookup_lt_Some _ _ _ Hi).
  destruct (list.last l) as [x|] eqn:Hl; [|by apply list.last_None in Hl as ->].
  assert (Hx : l !! (length l - 1)%nat = Some x) by (rewrite list.last_lookup in Hl; by replace (pred (length l)) with (length l - 1)%nat in Hl by lia).
  assert (Hlk := fun j => swap_remove_lookup i l x j Hl Hlt).
  split.
  - apply NoDup_alt. intros a b z. rewrite !Hlk. destruct (decide _); [done|]. destruct (decide (length l - 1 <= b)%nat); [done|].
    destruct (decide (a = i)) as [->|], (decide (b = i)) as [->|]; try done; intros H1 H2.
    + injection H1 as <-. assert (length l - 1 = b)%nat by (eapply NoDup_lookup; eauto). lia.
    + injection H2 as <-. assert (length l - 1 = a)%nat by (eapply NoDup_lookup; eauto). lia.
    + eapply NoDup_lookup; eauto.
  - intros z. rewrite !list_elem_of_lookup. setoid_rewrite Hlk. split.
    + intros [j Hj]. destruct (decide _); [done|]. destruct (decide (j = i)) as [->|].
      * injection Hj as <-. split; [eauto|]. intros ->. assert (i = length l - 1)%nat by (eapply NoDup_lookup; eauto). lia.
      * split; [eauto|]. intros ->. assert (i = j) by (eapply NoDup_lookup; eauto). done.
    + intros [[j Hj] Hne]. assert (Hjl := lookup_lt_Some _ _ _ Hj).
      destruct (decide (j = length l - 1)%nat) as [->|].
      * exists i. rewrite Hx in Hj. injection Hj as <-. destruct (decide (length l - 1 <= i)%nat).
        -- exfalso. assert (i = length l - 1)%nat as -> by lia. rewrite Hx in Hi. by injection Hi as <-.
        -- by destruct (decide (i = i)).
      * exists j. destruct (decide _); [lia|]. destruct (decide (j = i)) as [->|]; [|done]. rewrite Hi in Hj. by injection Hj as <-.
Qed.

(** ** The index invariant *)

Section Ring.
Context `{J : UtxoJson}.

(** [slots] is the population of the index, in ordinal order: the slot and reverse
    entries are inverse to each other, and the members are the unlocked records of
    the ring-member store. *)
Record ring_valid (m : KV) (slots : list Point32) : Prop := {
  rv_count : m !! ringSamplingCountKey = Some (ringSamplingUint (Z.of_nat (length slots)));
  rv_bound : Z.of_nat (length slots) <= MaxUint64;
  rv_slot : forall i, is_u64 i -> m !! ringSamplingSlotKey i = arr_list <$> slots !! Z.to_nat i;
  rv_rev : forall pub v, m !! ringSamplingReverseKey pub = Some v <->
    exists i, slots !! i = Some pub /\ v = ringSamplingUint (Z.of_nat i);
  rv_nodup : NoDup slots;
  rv_record : forall pub data, m !! ringMemberKey pub = Some data ->
    exists u, unmarshal_utxo data = Some u /\ st_OneTimePub u = pub;
  rv_member : forall pub, pub ∈ slots <->
    exists data u, m !! ringMemberKey pub = Some data /\ unmarshal_utxo data = Some u /\ st_ProtocolLocked u = false
}.

(** The lookups the invariant reads. *)
Definition same_ring (m m' : KV) : Prop :=
  m !! ringSamplingCountKey = m' !! ringSamplingCountKey /\
  (forall i, m !! ringSamplingSlotKey i = m' !! ringSamplingSlotKey i) /\
  (forall p, m !! ringSamplingReverseKey p = m' !! ringSamplingReverseKey p) /\
  (forall p, m !! ringMemberKey p = m' !! ringMemberKey p).

Lemma same_ring_valid m m' slots : same_ring m m' -> ring_valid m slots -> ring_valid m' slots.
Proof.
  intros (E1 & E2 & E3 & E4) [H1 H2 H3 H4 H5 H6 H7]. split; try done.
  - by rewrite <- E1.
  - intros i Hi. rewrite <- E2. by apply H3.
  - intros p v. rewrite <- E3. apply H4.
  - intros p d. rewrite <- E4. apply H6.
  - intros p. rewrite H7. by setoid_rewrite E4.
Qed.

Lemma write_pointwise ops m m' k : m !! k = m' !! k -> write ops m !! k = write ops m' !! k.
Proof.
  revert m m'. induction ops as [|o ops IH]; intros m m' E; [done|]. unfold write in *. cbn [foldl]. apply IH.
  destruct o as [k' v|k']; cbn [apply_op].
  - destruct (decide (k' = k)) as [->|]; [by rewrite !lookup_insert_eq|by rewrite !lookup_insert_ne].
  - destruct (decide (k' = k)) as [->|]; [by rewrite !lookup_delete_eq|by rewrite !lookup_delete_ne].
Qed.

Lemma same_ring_write ops m m' : same_ring m m' -> same_ring (write ops m) (write ops m').
Proof. intros (E1 & E2 & E3 & E4). split_and!; intros; by apply write_pointwise. Qed.

(** Reading a member of a valid index. *)
Lemma decode_valid m slots pub data : ring_valid m slots -> m !! ringMemberKey pub = Some data ->
  exists u, unmarshal_utxo data = Some u /\ st_OneTimePub u = pub /\ decodeRingRecord (ringMemberKey pub) data = Ok u.
Proof.
  intros Hv Hm. destruct (rv_record _ _ Hv _ _ Hm) as (u & Hu & Hp). exists u. split_and!; [done..|].
  unfold decodeRingRecord, ringMemberKey. rewrite length_app, arr32, has_prefix_app, Hu, drop_app_length, Hp.
  rewrite !bool_decide_eq_true_2 by done. done.
Qed.

Lemma read_valid m slots i pub : ring_valid m slots -> slots !! i = Some pub ->
  exists data u, m !! ringMemberKey pub = Some data /\ unmarshal_utxo data = Some u /\ st_OneTimePub u = pub /\
    st_ProtocolLocked u = false /\ readRingSamplingMember m (Z.of_nat i) = Ok u.
Proof.
  intros Hv Hi. assert (Hlt := lookup_lt_Some _ _ _ Hi). assert (Hb := rv_bound _ _ Hv).
  assert (Hu64 : is_u64 (Z.of_nat i)) by u64lia.
  destruct (proj1 (rv_member _ _ Hv pub)) as (data & u & Hm & Hu & Hl); [by eapply list_elem_of_lookup_2|].
  destruct (decode_valid _ _ _ _ Hv Hm) as (u' & Hu' & Hp & Hd). rewrite Hu in Hu'. injection Hu' as <-.
  exists data, u. split_and!; [done..|]. unfold readRingSamplingMember.
  rewrite (rv_slot _ _ Hv _ Hu64), Nat2Z.id, Hi. cbn [fmap option_fmap option_map].
  rewrite arr32, bool_decide_eq_true_2, copy_arr_list by done. cbn [negb].
  rewrite (proj2 (rv_rev _ _ Hv pub _) (ex_intro _ i (conj Hi eq_refl))). unfold ringSamplingUint.
  rewrite be8_length, bool_decide_eq_true_2, be_decode_encode8, Z.eqb_refl by done. cbn [negb orb].
  rewrite Hm, Hd. cbn [mbind result_bind]. by rewrite Hl.
Qed.

Lemma count_valid m slots : ring_valid m slots -> ringSamplingCount m = Ok (Some (Z.of_nat (length slots))).
Proof.
  intros Hv. unfold ringSamplingCount. rewrite (rv_count _ _ Hv). unfold ringSamplingUint.
  assert (Hb := rv_bound _ _ Hv). rewrite be8_length, bool_decide_eq_true_2, be_decode_encode8 by (done || u64lia). done.
Qed.

(** ** One change of the index *)

Lemma be8_inj a b : is_u64 a -> is_u64 b -> ringSamplingUint a = ringSamplingUint b -> a = b.
Proof. unfold ringSamplingUint. intros Ha Hb E. rewrite <- (be_decode_encode8 a), <- (be_decode_encode8 b), E by done. done. Qed.

(** The record of [pub] becomes [rec]; other records keep their place. *)
Definition member_op (pub : Point32) (rec : option (list byte)) : batch_op :=
  match rec with Some data => Put (ringMemberKey pub) data | None => Delete (ringMemberKey pub) end.

(** [rec] holds an unlocked record of [pub] exactly when [eligible]. *)
Definition record_for (pub : Point32) (eligible : bool) (rec : option (list byte)) : Prop :=
  match rec with
  | Some data => exists u, unmarshal_utxo data = Some u /\ st_OneTimePub u = pub /\ st_ProtocolLocked u = negb eligible
  | None => eligible = false
  end.

(** The population after the change. *)
Definition restage (slots : list Point32) (pub : Point32) (eligible : bool) : list Point32 :=
  match list_find (eq pub) slots with
  | Some (i, _) => if eligible then slots else swap_remove i slots
  | None => if eligible then slots ++ [pub] else slots
  end.

Lemma record_lookup m pub rec p :
  apply_op m (member_op pub rec) !! ringMemberKey p = if decide (p = pub) then rec else m !! ringMemberKey p.
Proof.
  unfold member_op. destruct (decide (p = pub)) as [->|Hn].
  - destruct rec; cbn [apply_op]; [apply lookup_insert_eq|apply lookup_delete_eq].
  - assert (ringMemberKey pub <> ringMemberKey p) by (intros ?%memberKey_inj; done).
    destruct rec; cbn [apply_op]; [by apply lookup_insert_ne|by apply lookup_delete_ne].
Qed.

Lemma record_lookup_ne m pub rec k : (forall p, ringMemberKey p <> k) -> apply_op m (member_op pub rec) !! k = m !! k.
Proof. intros Hk. unfold member_op. destruct rec; cbn [apply_op]; [by apply lookup_insert_ne|by apply lookup_delete_ne]. Qed.

(** A store whose count, slots and reverses describe [slots'], with the records of
    [m] apart from that of [pub], is valid. *)
Lemma restaged_valid m m' slots slots' pub eligible rec :
  ring_valid m slots -> record_for pub eligible rec -> NoDup slots' ->
  Z.of_nat (length slots') <= MaxUint64 ->
  (forall p, p ∈ slots' <-> (p = pub /\ eligible = true) \/ (p <> pub /\ p ∈ slots)) ->
  m' !! ringSamplingCountKey = Some (ringSamplingUint (Z.of_nat (length slots'))) ->
  (forall i, is_u64 i -> m' !! ringSamplingSlotKey i = arr_list <$> slots' !! Z.to_nat i) ->
  (forall p v, m' !! ringSamplingReverseKey p = Some v <-> exists i, slots' !! i = Some p /\ v = ringSamplingUint (Z.of_nat i)) ->
  (forall p, m' !! ringMemberKey p = if decide (p = pub) then rec else m !! ringMemberKey p) ->
  ring_valid m' slots'.
Proof.
  intros Hv Hrec Hn Hb Hmem Hc Hs Hr Hm. split; try done.
  - intros p data. rewrite Hm. destruct (decide (p = pub)) as [->|]; [|apply (rv_record _ _ Hv)].
    intros ->. destruct Hrec as (u & ? & ? & _). eauto.
  - intros p. rewrite Hmem, Hm. destruct (decide (p = pub)) as [->|Hp].
    + split.
      * intros [[_ ->]|[? _]]; [|done]. destruct rec as [data|]; [|done]. destruct Hrec as (u & ? & ? & ?). eauto.
      * intros (data & u & -> & Hu & Hl). destruct Hrec as (u' & Hu' & _ & Hl'). left. split; [done|].
        rewrite Hu in Hu'. injection Hu' as <-. rewrite Hl in Hl'. by destruct eligible.
    + rewrite (rv_member _ _ Hv p). naive_solver.
Qed.

Lemma find_some (slots : list Point32) pub i x : list_find (eq pub) slots = Some (i, x) -> slots !! i = Some pub.
Proof. intros (Hi & -> & _)%list_find_Some. done. Qed.

Lemma find_none (slots : list Point32) pub : list_find (eq pub) slots = None -> pub ∉ slots.
Proof. intros Hn Hin. apply list_find_None in Hn. rewrite list.Forall_forall in Hn. by apply (Hn pub). Qed.

(** What the staging reads of the old membership. *)
Lemma stage_reads m slots pub eligible : ring_valid m slots ->
  stageRingSamplingChange m pub eligible =
  match list_find (eq pub) slots with
  | Some (i, _) => if eligible then Ok [Put ringSamplingCountKey (ringSamplingUint (Z.of_nat (length slots)))]
                   else stage_remove m pub (Z.of_nat i) (Z.of_nat (length slots))
  | None => if eligible then stage_append m pub (Z.of_nat (length slots))
            else Ok [Put ringSamplingCountKey (ringSamplingUint (Z.of_nat (length slots)))]
  end.
Proof.
  intros Hv. unfold stageRingSamplingChange. rewrite (count_valid _ _ Hv). cbn [mbind result_bind].
  rewrite (bool_decide_eq_true_2 (is_Some (Some (Z.of_nat (length slots))))) by eauto. cbn [negb andb from_option id].
  assert (Hb := rv_bound _ _ Hv).
  destruct (list_find (eq pub) slots) as [[i x]|] eqn:Ef.
  - apply find_some in Ef. assert (Hlt := lookup_lt_Some _ _ _ Ef).
    destruct (proj1 (rv_member _ _ Hv pub)) as (data & u & Hm & Hu & Hl); [by eapply list_elem_of_lookup_2|].
    destruct (decode_valid _ _ _ _ Hv Hm) as (u' & Hu' & _ & Hd). rewrite Hu in Hu'. injection Hu' as <-.
    assert (Hrev : m !! ringSamplingReverseKey pub = Some (ringSamplingUint (Z.of_nat i))) by (apply (rv_rev _ _ Hv); eauto).
    rewrite Hm, Hd. cbn [mbind result_bind]. rewrite Hl. unfold has. rewrite Hrev.
    rewrite (bool_decide_eq_true_2 (is_Some (Some _))) by eauto. cbn [negb Bool.eqb from_option id].
    rewrite (bool_decide_eq_true_2 (length (ringSamplingUint _) = 8%nat)) by apply be8_length.
    rewrite (proj2 (Z.eqb_neq (Z.of_nat (length slots)) 0)) by lia. cbn [negb orb].
    rewrite (uint_decode (Z.of_nat i)) by u64lia. rewrite (proj2 (Z.leb_gt _ _)) by lia. cbn [orb].
    rewrite (rv_slot _ _ Hv) by u64lia. rewrite Nat2Z.id, Ef. cbn [fmap option_fmap option_map from_option id].
    rewrite bool_decide_eq_true_2 by done. cbn [negb mbind result_bind andb]. by destruct eligible.
  - apply find_none in Ef.
    assert (Hrev : m !! ringSamplingReverseKey pub = None).
    { destruct (m !! ringSamplingReverseKey pub) as [v|] eqn:Er; [|done]. apply (rv_rev _ _ Hv) in Er as (i & Hi & _).
      exfalso. apply Ef. by eapply list_elem_of_lookup_2. }
    assert (Hold : (match m !! ringMemberKey pub with
                    | Some oldData => old ← decodeRingRecord (ringMemberKey pub) oldData; Ok (negb (st_ProtocolLocked old))
                    | None => Ok false
                    end) = Ok false).
    { destruct (m !! ringMemberKey pub) as [data|] eqn:Em; [|done].
      destruct (decode_valid _ _ _ _ Hv Em) as (u & Hu & Hp & ->). cbn [mbind result_bind]. f_equal.
      destruct (st_ProtocolLocked u) eqn:El; [done|]. exfalso. apply Ef, (rv_member _ _ Hv). eauto 10. }
    rewrite Hold. cbn [mbind result_bind]. unfold has. rewrite Hrev.
    rewrite (bool_decide_eq_false_2 (is_Some None)) by (by intros [? ?]). cbn [negb Bool.eqb andb]. by destruct eligible.
Qed.

(** Keeping the population: the count is written again. *)
Lemma keep_valid m slots pub eligible rec :
  ring_valid m slots -> record_for pub eligible rec -> (pub ∈ slots <-> eligible = true) ->
  ring_valid (write ([Put ringSamplingCountKey (ringSamplingUint (Z.of_nat (length slots)))] ++ [member_op pub rec]) m) slots.
Proof.
  intros Hv Hrec Hp. unfold write. cbn [app foldl]. set (m1 := apply_op m _).
  assert (H1 : forall k, ringSamplingCountKey <> k -> m1 !! k = m !! k) by (intros k Hk; by apply lookup_insert_ne).
  eapply (restaged_valid m _ slots slots pub eligible rec Hv Hrec (rv_nodup _ _ Hv) (rv_bound _ _ Hv)).
  - intros p. destruct (decide (p = pub)) as [->|]; naive_solver.
  - rewrite record_lookup_ne by (intros; ring_ne). apply lookup_insert_eq.
  - intros i Hi. rewrite record_lookup_ne by (intros; ring_ne). rewrite H1 by ring_ne. by apply (rv_slot _ _ Hv).
  - intros p v. rewrite record_lookup_ne by (intros; ring_ne). rewrite H1 by ring_ne. apply (rv_rev _ _ Hv).
  - intros p. rewrite record_lookup. by rewrite H1 by ring_ne.
Qed.

(** Appending a member. *)
Lemma append_valid m slots pub rec :
  ring_valid m slots -> record_for pub true rec -> pub ∉ slots -> Z.of_nat (length slots) < MaxUint64 ->
  exists ops, stage_append m pub (Z.of_nat (length slots)) = Ok ops /\ ring_valid (write (ops ++ [member_op pub rec]) m) (slots ++ [pub]).
Proof.
  intros Hv Hrec Hp Hlt. unfold stage_append. rewrite (proj2 (Z.eqb_neq _ _)) by lia.
  assert (Hfree : m !! ringSamplingSlotKey (Z.of_nat (length slots)) = None).
  { rewrite (rv_slot _ _ Hv) by u64lia. rewrite Nat2Z.id, lookup_ge_None_2 by lia. done. }
  unfold has. rewrite Hfree, (bool_decide_eq_false_2 (is_Some None)) by (by intros [? ?]).
  eexists. split; [done|]. rewrite wrap64_small by u64lia. unfold write. cbn [app foldl]. set (m0 := apply_op m _).
  assert (Hl : length (slots ++ [pub]) = S (length slots)) by (rewrite length_app; cbn [length]; lia).
  eapply (restaged_valid m _ slots _ pub true rec Hv Hrec).
  - apply list.NoDup_app. split; [apply (rv_nodup _ _ Hv)|]. split; [|apply NoDup_singleton].
    intros x Hx Hx'. apply list_elem_of_singleton in Hx' as ->. done.
  - rewrite Hl. lia.
  - intros p. rewrite elem_of_app, list_elem_of_singleton. destruct (decide (p = pub)) as [->|]; naive_solver.
  - rewrite record_lookup_ne by (intros; ring_ne). cbn [apply_op]. rewrite lookup_insert_eq, Hl. do 2 f_equal. lia.
  - intros i Hi. rewrite record_lookup_ne by (intros; ring_ne). cbn [apply_op]. rewrite !lookup_insert_ne by ring_ne.
    unfold m0. cbn [apply_op]. destruct (decide (i = Z.of_nat (length slots))) as [->|Hne].
    + rewrite lookup_insert_eq, Nat2Z.id, lookup_app_r, Nat.sub_diag by lia. done.
    + rewrite lookup_insert_ne by (intros E%slotKey_inj; [congruence|u64lia|done]). rewrite (rv_slot _ _ Hv) by done.
      destruct (decide (i < Z.of_nat (length slots))).
      * rewrite lookup_app_l; [done|]. apply Nat2Z.inj_lt. rewrite Z2Nat.id by u64lia. done.
      * rewrite !lookup_ge_None_2; [done| |]; [rewrite Hl|]; apply Nat2Z.inj_le; rewrite Z2Nat.id by u64lia; lia.
  - intros p v. rewrite record_lookup_ne by (intros; ring_ne). cbn [apply_op]. rewrite lookup_insert_ne by ring_ne.
    destruct (decide (p = pub)) as [->|Hne].
    + rewrite lookup_insert_eq. split.
      * intros [= <-]. exists (length slots). split; [|done]. by rewrite lookup_app_r, Nat.sub_diag by lia.
      * intros (i & Hi & ->). apply lookup_app_Some in Hi as [Hi|[Hge Hi]]; [exfalso; apply Hp; by eapply list_elem_of_lookup_2|].
        apply list_lookup_singleton_Some in Hi as [Hz _]. do 3 f_equal. lia.
    + rewrite lookup_insert_ne by (intros ?%reverseKey_inj; done). unfold m0. cbn [apply_op]. rewrite lookup_insert_ne by ring_ne.
      rewrite (rv_rev _ _ Hv). split; intros (i & Hi & ->); exists i; (split; [|done]).
      * apply lookup_app_Some. by left.
      * apply lookup_app_Some in Hi as [Hi|[Hge Hi]]; [done|]. apply list_lookup_singleton_Some in Hi as [_ ?]. congruence.
  - intros p. rewrite record_lookup. destruct (decide (p = pub)); [done|].
    cbn [apply_op]. rewrite !lookup_insert_ne by ring_ne. unfold m0. cbn [apply_op]. by rewrite lookup_insert_ne by ring_ne.
Qed.

(** The move of the last member into slot [i], for a member that is last itself too. *)
Lemma moved_lookups m slots i pub x :
  ring_valid m slots -> slots !! i = Some pub -> list.last slots = Some x ->
  exists moved, stage_remove m pub (Z.of_nat i) (Z.of_nat (length slots)) =
      Ok (moved ++ [Delete (ringSamplingSlotKey (Z.of_nat (length slots) - 1)); Delete (ringSamplingReverseKey pub);
                    Put ringSamplingCountKey (ringSamplingUint (Z.of_nat (length slots) - 1))]) /\
    (forall j, is_u64 j -> write moved m !! ringSamplingSlotKey j =
       if decide (j = Z.of_nat i) then Some (arr_list x) else m !! ringSamplingSlotKey j) /\
    (forall p, write moved m !! ringSamplingReverseKey p =
       if decide (p = x) then Some (ringSamplingUint (Z.of_nat i)) else m !! ringSamplingReverseKey p) /\
    (forall p, write moved m !! ringMemberKey p = m !! ringMemberKey p).
Proof.
  intros Hv Hi Hx. assert (Hlt := lookup_lt_Some _ _ _ Hi). assert (Hb := rv_bound _ _ Hv).
  assert (Hl : slots !! (length slots - 1)%nat = Some x).
  { rewrite list.last_lookup in Hx. by replace (pred (length slots)) with (length slots - 1)%nat in Hx by lia. }
  unfold stage_remove. rewrite wrap64_small by u64lia.
  destruct (Z.eqb_spec (Z.of_nat i) (Z.of_nat (length slots) - 1)) as [E|E].
  - assert (i = length slots - 1)%nat as -> by lia. rewrite Hl in Hi. injection Hi as ->.
    exists []. split; [done|]. cbn [write foldl app]. split_and!; [| |done].
    + intros j Hj. destruct (decide (j = _)) as [->|]; [|done]. rewrite (rv_slot _ _ Hv) by done. by rewrite Nat2Z.id, Hl.
    + intros p. destruct (decide (p = pub)) as [->|]; [|done]. apply (rv_rev _ _ Hv). eauto.
  - assert (Hne : x <> pub).
    { intros ->. assert (i = length slots - 1)%nat by (eapply NoDup_lookup; [apply (rv_nodup _ _ Hv)|done|done]). lia. }
    replace (Z.of_nat (length slots) - 1) with (Z.of_nat (length slots - 1)) by lia.
    rewrite (rv_slot _ _ Hv) by u64lia. rewrite Nat2Z.id, Hl. cbn [fmap option_fmap option_map].
    rewrite (bool_decide_eq_true_2 (length (arr_list x) = 32%nat)) by apply arr32. cbn [negb]. rewrite copy_arr_list.
    rewrite (bool_decide_eq_false_2 _ Hne). destruct (read_valid _ _ _ _ Hv Hl) as (data & u & _ & _ & _ & _ & ->).
    cbn [mbind result_bind]. eexists. split; [done|]. unfold write. cbn [foldl apply_op]. split_and!.
    + intros j Hj. rewrite lookup_insert_ne by ring_ne. destruct (decide (j = Z.of_nat i)) as [->|]; [apply lookup_insert_eq|].
      apply lookup_insert_ne. intros ?%slotKey_inj; [congruence|u64lia|done].
    + intros p. destruct (decide (p = x)) as [->|]; [apply lookup_insert_eq|].
      rewrite lookup_insert_ne by (intros ?%reverseKey_inj; congruence). apply lookup_insert_ne. ring_ne.
    + intros p. rewrite lookup_insert_ne by ring_ne. apply lookup_insert_ne. ring_ne.
Qed.

(** Removing a member. *)
Lemma remove_valid m slots i pub rec :
  ring_valid m slots -> record_for pub false rec -> slots !! i = Some pub ->
  exists ops, stage_remove m pub (Z.of_nat i) (Z.of_nat (length slots)) = Ok ops /\
    ring_valid (write (ops ++ [member_op pub rec]) m) (swap_remove i slots).
Proof.
  intros Hv Hrec Hi. assert (Hlt := lookup_lt_Some _ _ _ Hi). assert (Hb := rv_bound _ _ Hv).
  destruct (list.last slots) as [x|] eqn:Hx; [|by apply list.last_None in Hx as ->].
  destruct (moved_lookups m slots i pub x Hv Hi Hx) as (moved & Hst & Hslot & Hrev & Hrm).
  eexists. split; [exact Hst|]. destruct (swap_remove_elem i slots pub (rv_nodup _ _ Hv) Hi) as [Hn Hmem].
  assert (Hlk := fun j => swap_remove_lookup i slots x j Hx Hlt).
  rewrite <- app_assoc, write_app. revert Hslot Hrev Hrm. generalize (write moved m). intros m1 Hslot Hrev Hrm.
  unfold write. cbn [app foldl]. set (m2 := apply_op _ (Put _ _)).
  assert (Hlen : Z.of_nat (length (swap_remove i slots)) = Z.of_nat (length slots) - 1) by (rewrite swap_remove_length; lia).
  eapply (restaged_valid m _ slots _ pub false rec Hv Hrec Hn); [lia| | | | |].
  - intros p. rewrite Hmem. naive_solver.
  - rewrite record_lookup_ne by (intros; ring_ne). rewrite Hlen. apply lookup_insert_eq.
  - intros j Hj. rewrite record_lookup_ne by (intros; ring_ne). unfold m2. cbn [apply_op].
    rewrite lookup_insert_ne by ring_ne. rewrite lookup_delete_ne by ring_ne. rewrite Hlk.
    destruct (decide (j = Z.of_nat (length slots) - 1)) as [->|Hj1].
    + rewrite lookup_delete_eq. destruct (decide _) as [|Hc]; [done|]. exfalso. apply Hc.
      apply Nat2Z.inj_le. rewrite Z2Nat.id by u64lia. lia.
    + rewrite lookup_delete_ne by (intros ?%slotKey_inj; [congruence|u64lia|done]). rewrite Hslot by done.
      destruct (decide (j = Z.of_nat i)) as [->|Hji].
      * rewrite Nat2Z.id. destruct (decide (length slots - 1 <= i)%nat); [lia|]. by destruct (decide (i = i)).
      * rewrite (rv_slot _ _ Hv) by done. destruct (decide (length slots - 1 <= Z.to_nat j)%nat) as [Hc|Hc].
        -- rewrite lookup_ge_None_2; [done|]. apply Nat2Z.inj_le in Hc. rewrite Z2Nat.id in Hc by u64lia.
           apply Nat2Z.inj_le. rewrite Z2Nat.id by u64lia. lia.
        -- destruct (decide (Z.to_nat j = i)) as [Hc'|]; [|done]. exfalso. apply Hji. rewrite <- Hc', Z2Nat.id by u64lia. done.
  - intros p v. rewrite record_lookup_ne by (intros; ring_ne). unfold m2. cbn [apply_op]. rewrite lookup_insert_ne by ring_ne.
    destruct (decide (p = pub)) as [->|Hp].
    + rewrite lookup_delete_eq. split; [done|]. intros (j & Hj & _). exfalso.
      assert (Hin : pub ∈ swap_remove i slots) by (by eapply list_elem_of_lookup_2). by apply Hmem in Hin as [_ ?].
    + rewrite lookup_delete_ne by (intros ?%reverseKey_inj; done). rewrite lookup_delete_ne by ring_ne. rewrite Hrev.
      assert (Hl : slots !! (length slots - 1)%nat = Some x).
      { rewrite list.last_lookup in Hx. by replace (pred (length slots)) with (length slots - 1)%nat in Hx by lia. }
      destruct (decide (p = x)) as [->|Hpx].
      * assert (Hil : (i < length slots - 1)%nat).
        { destruct (decide (i = length slots - 1)%nat) as [->|]; [|lia]. rewrite Hl in Hi. injection Hi as ->. done. }
        split.
        -- intros [= <-]. exists i. split; [|done]. rewrite Hlk. destruct (decide _); [lia|]. by destruct (decide (i = i)).
        -- intros (j & Hj & ->). rewrite Hlk in Hj. destruct (decide _) as [|Hc]; [done|]. destruct (decide (j = i)) as [->|]; [done|].
           assert (j = length slots - 1)%nat by (eapply NoDup_lookup; [apply (rv_nodup _ _ Hv)|done|done]). lia.
      * rewrite (rv_rev _ _ Hv). setoid_rewrite Hlk. split; intros (j & Hj & ->); exists j; (split; [|done]).
        -- assert (Hjl := lookup_lt_Some _ _ _ Hj). destruct (decide (length slots - 1 <= j)%nat).
           { exfalso. assert (j = length slots - 1)%nat as -> by lia. congruence. }
           destruct (decide (j = i)) as [->|]; [congruence|done].
        -- destruct (decide (length slots - 1 <= j)%nat); [done|]. destruct (decide (j = i)); [congruence|done].
  - intros p. rewrite record_lookup. destruct (decide (p = pub)); [done|].
    unfold m2. cbn [apply_op]. rewrite lookup_insert_ne by ring_ne. rewrite !lookup_delete_ne by ring_ne. apply Hrm.
Qed.

(** A change of one record keeps the index a bijection. *)
Lemma stage_valid m slots pub eligible rec :
  ring_valid m slots -> record_for pub eligible rec -> Z.of_nat (length slots) < MaxUint64 ->
  exists ops, stageRingSamplingChange m pub eligible = Ok ops /\
    ring_valid (write (ops ++ [member_op pub rec]) m) (restage slots pub eligible).
Proof.
  intros Hv Hrec Hlt. rewrite (stage_reads m slots pub eligible Hv). unfold restage.
  destruct (list_find (eq pub) slots) as [[i x]|] eqn:Ef.
  - apply find_some in Ef. destruct eligible; [|by apply remove_valid].
    eexists. split; [done|]. apply keep_valid with (eligible := true); [done|done|]. split; [done|]. intros _. by eapply list_elem_of_lookup_2.
  - apply find_none in Ef. destruct eligible; [by apply append_valid|].
    eexists. split; [done|]. apply keep_valid with (eligible := false); [done|done|]. naive_solver.
Qed.

Lemma restage_elem slots pub eligible p : NoDup slots ->
  p ∈ restage slots pub eligible <-> (p = pub /\ eligible = true) \/ (p <> pub /\ p ∈ slots).
Proof.
  intros Hn. unfold restage. destruct (list_find (eq pub) slots) as [[i x]|] eqn:Ef.
  - apply find_some in Ef. assert (pub ∈ slots) by (by eapply list_elem_of_lookup_2). destruct eligible.
    + destruct (decide (p = pub)) as [->|]; naive_solver.
    + destruct (swap_remove_elem i slots pub Hn Ef) as [_ ->]. naive_solver.
  - apply find_none in Ef. destruct eligible; [rewrite elem_of_app, list_elem_of_singleton|];
      destruct (decide (p = pub)) as [->|]; naive_solver.
Qed.

Lemma same_ring_ops k m o : (forall i, k <> ringSamplingSlotKey i) -> (forall p, k <> ringSamplingReverseKey p) ->
  (forall p, k <> ringMemberKey p) -> k <> ringSamplingCountKey -> op_key o = k -> same_ring m (apply_op m o).
Proof.
  intros H1 H2 H3 H4 Ho. destruct o as [k' v|k']; cbn in Ho; subst k'; cbn [apply_op]; split_and!; intros;
    symmetry; (apply lookup_insert_ne || apply lookup_delete_ne); auto.
Qed.

End Ring.

(** ** The sparse Fisher-Yates permutation *)

(** The ordinals drawn by a sequence of indices, each below what remains. *)
Fixpoint ordinals (swaps : gmap Z Z) (remaining : Z) (ixs : list Z) : list Z :=
  match ixs with
  | [] => []
  | i :: ixs' => at_ordinal swaps i :: ordinals (swap_last swaps i remaining) (remaining - 1) ixs'
  end.

Fixpoint indices_ok (remaining : Z) (ixs : list Z) : Prop :=
  match ixs with [] => True | i :: ixs' => 0 <= i < remaining /\ indices_ok (remaining - 1) ixs' end.

(** The remaining ordinals are those not drawn, each at one index. *)
Record shuffled (N : Z) (swaps : gmap Z Z) (remaining : Z) (drawn : list Z) : Prop := {
  sh_rem : 0 <= remaining <= N;
  sh_inj : forall i j, 0 <= i < remaining -> 0 <= j < remaining -> at_ordinal swaps i = at_ordinal swaps j -> i = j;
  sh_range : forall i, 0 <= i < remaining -> 0 <= at_ordinal swaps i < N /\ at_ordinal swaps i ∉ drawn;
  sh_onto : forall o, 0 <= o < N -> o ∉ drawn -> exists i, 0 <= i < remaining /\ at_ordinal swaps i = o
}.

Lemma shuffled_start N : 0 <= N -> shuffled N ∅ N [].
Proof.
  intros HN. assert (Ha : forall i, at_ordinal ∅ i = i) by (intros; unfold at_ordinal; by rewrite lookup_empty).
  split; [lia| | |].
  - intros i j _ _. by rewrite !Ha.
  - intros i Hi. rewrite Ha. split; [lia|apply not_elem_of_nil].
  - intros o Ho _. exists o. rewrite Ha. done.
Qed.

Lemma at_swap_last swaps i r j : j <> r - 1 ->
  at_ordinal (swap_last swaps i r) j = if decide (j = i) then at_ordinal swaps (r - 1) else at_ordinal swaps j.
Proof.
  intros Hj. unfold swap_last, at_ordinal at 1. rewrite lookup_delete_ne by done.
  destruct (decide (j = i)) as [->|]; [by rewrite lookup_insert_eq|by rewrite lookup_insert_ne].
Qed.

Lemma shuffled_step N swaps r drawn i : shuffled N swaps r drawn -> 0 <= i < r ->
  shuffled N (swap_last swaps i r) (r - 1) (at_ordinal swaps i :: drawn).
Proof.
  intros [H1 H2 H3 H4] Hi. split; [lia| | |].
  - intros a b Ha Hb. rewrite !at_swap_last by lia.
    destruct (decide (a = i)) as [->|], (decide (b = i)) as [->|]; try done; intros E; apply H2 in E; lia.
  - intros a Ha. rewrite at_swap_last by lia. destruct (decide (a = i)) as [->|Hai].
    + destruct (H3 (r - 1)) as [Hr Hd]; [lia|]. split; [done|]. apply not_elem_of_cons. split; [|done].
      intros E. apply H2 in E; lia.
    + destruct (H3 a) as [Hr Hd]; [lia|]. split; [done|]. apply not_elem_of_cons. split; [|done].
      intros E. apply H2 in E; lia.
  - intros o Ho [Hne Hd]%not_elem_of_cons. destruct (H4 o Ho Hd) as (a & Ha & <-).
    destruct (decide (a = r - 1)) as [->|Har].
    + exists i. assert (i <> r - 1) by congruence. split; [lia|]. rewrite at_swap_last by done. by destruct (decide (i = i)).
    + exists a. split; [lia|]. rewrite at_swap_last by done. destruct (decide (a = i)) as [->|]; [congruence|done].
Qed.

Lemma ordinals_sound N ixs : forall swaps r drawn, shuffled N swaps r drawn -> indices_ok r ixs ->
  NoDup (ordinals swaps r ixs) /\ Forall (fun o => 0 <= o < N /\ o ∉ drawn) (ordinals swaps r ixs).
Proof.
  induction ixs as [|i ixs IH]; intros swaps r drawn Hs Hok; cbn; [split; constructor|]. destruct Hok as [Hi Hok].
  destruct (IH _ _ _ (shuffled_step _ _ _ _ _ Hs Hi) Hok) as [Hn Hf]. split.
  - apply list.NoDup_cons. split; [|done]. intros Hin. rewrite list.Forall_forall in Hf. destruct (Hf _ Hin) as [_ Hd].
    apply Hd. left.
  - constructor; [by apply (sh_range _ _ _ _ Hs)|]. eapply list.Forall_impl; [exact Hf|]. intros o [? [_ ?]%not_elem_of_cons]. done.
Qed.

Lemma ordinals_inj N is1 : forall is2 swaps r drawn, shuffled N swaps r drawn -> indices_ok r is1 -> indices_ok r is2 ->
  ordinals swaps r is1 = ordinals swaps r is2 -> is1 = is2.
Proof.
  induction is1 as [|i is1 IH]; intros [|j is2] swaps r drawn Hs H1 H2 E; try discriminate E; [done|].
  cbn in H1, H2. destruct H1 as [Hi H1], H2 as [Hj H2]. cbn [ordinals] in E. injection E as Eo E.
  apply (sh_inj _ _ _ _ Hs) in Eo as ->; [|done..]. f_equal.
  eapply IH; [eapply shuffled_step; eauto|done|done|done].
Qed.

Lemma ordinals_onto N os : forall swaps r drawn, shuffled N swaps r drawn -> NoDup os ->
  Forall (fun o => 0 <= o < N /\ o ∉ drawn) os -> exists ixs, indices_ok r ixs /\ ordinals swaps r ixs = os.
Proof.
  induction os as [|o os IH]; intros swaps r drawn Hs Hn Hf; [by exists []|].
  apply list.NoDup_cons in Hn as [Ho Hn]. apply list.Forall_cons in Hf as [[Hr Hd] Hf].
  destruct (sh_onto _ _ _ _ Hs o Hr Hd) as (i & Hi & Ei).
  destruct (IH _ _ _ (shuffled_step _ _ _ _ _ Hs Hi) Hn) as (ixs & Hok & Eis).
  - apply list.Forall_forall. intros x Hx. rewrite list.Forall_forall in Hf. destruct (Hf x Hx) as [? ?]. split; [done|].
    apply not_elem_of_cons. split; [|done]. rewrite Ei. intros ->. done.
  - exists (i :: ixs). split; [done|]. cbn. by rewrite Ei, Eis.
Qed.

(** ** Drawing below a bound *)

Definition entropy_errors : list string :=
  ["ring sampling: entropy"; "ring sampling: entropy rejection limit exceeded"]%string.

Lemma draw_below attempts : forall entropy bc mask size,
  match draw_ordinal attempts entropy bc mask size with
  | Ok (v, _) => 0 <= v < size
  | Err e => e ∈ entropy_errors
  end.
Proof.
  induction attempts as [|n IH]; intros entropy bc mask size; cbn [draw_ordinal]; [right; left|].
  destruct (length entropy <? bc)%nat; [left|].
  match goal with |- context [if ?v <? size then _ else _] => set (value := v) end.
  destruct (Z.ltb_spec value size); [|apply IH]. split; [|done].
  unfold value. destruct (take bc entropy); [lia|apply be_decode_range].
Qed.

Lemma uniform_below entropy size : 0 < size ->
  match uniformRingOrdinal entropy size with
  | Ok (v, _) => 0 <= v < size
  | Err e => e ∈ entropy_errors
  end.
Proof.
  intros Hs. unfold uniformRingOrdinal. rewrite (proj2 (Z.eqb_neq size 0)) by lia.
  destruct (Z.eqb_spec size 1); [lia|]. apply draw_below.
Qed.

(** ** The sampling loop *)

Section Sample.
Context `{J : UtxoJson}.
Context (m : KV) (slots : list Point32) (exclude : gset Point32) (excludeUTXOs : gset UTXOKey) (count : nat).
Hypothesis Hvalid : ring_valid m slots.

Definition outpoint (u : StoredUTXO) : UTXOKey := (st_TxHash u, st_OutputIndex u).
Definition kept (u : StoredUTXO) : Prop := excluded exclude excludeUTXOs u = false.

(** The records of the population, by ordinal. *)
Definition member_at (o : Z) (u : StoredUTXO) : Prop := readRingSamplingMember m o = Ok u.

(** Distinct members lie at distinct outpoints. *)
Definition outpoints_distinct : Prop :=
  forall o o' u u', 0 <= o < Z.of_nat (length slots) -> 0 <= o' < Z.of_nat (length slots) ->
    member_at o u -> member_at o' u' -> outpoint u = outpoint u' -> o = o'.

Lemma member_exists o : 0 <= o < Z.of_nat (length slots) ->
  exists u, member_at o u /\ slots !! Z.to_nat o = Some (st_OneTimePub u).
Proof.
  intros Ho. destruct (lookup_lt_is_Some_2 slots (Z.to_nat o)) as [p Hp]; [lia|].
  destruct (read_valid m slots (Z.to_nat o) p Hvalid Hp) as (d & u & _ & _ & <- & _ & Hr).
  rewrite Z2Nat.id in Hr by lia. by exists u.
Qed.

Lemma member_pub_inj o o' u u' : 0 <= o < Z.of_nat (length slots) -> 0 <= o' < Z.of_nat (length slots) ->
  member_at o u -> member_at o' u' -> st_OneTimePub u = st_OneTimePub u' -> o = o'.
Proof.
  intros Ho Ho' Hu Hu' E. destruct (member_exists o Ho) as (w & Hw & Lw). destruct (member_exists o' Ho') as (w' & Hw' & Lw').
  unfold member_at in *. rewrite Hu in Hw. injection Hw as <-. rewrite Hu' in Hw'. injection Hw' as <-.
  rewrite E in Lw. assert (Z.to_nat o = Z.to_nat o') by (eapply NoDup_lookup; [apply (rv_nodup _ _ Hvalid)|done|done]). lia.
Qed.

(** Distinct records with an excluded key or outpoint are no more than the exclusions. *)
Lemma excluded_bound us : NoDup (st_OneTimePub <$> us) -> NoDup (outpoint <$> us) ->
  Forall (fun u => excluded exclude excludeUTXOs u = true) us -> (length us <= size exclude + size excludeUTXOs)%nat.
Proof.
  intros Hp Ho He.
  assert (Hsplit : (length us <= length (filter (fun u => st_OneTimePub u ∈ exclude) us) +
                                length (filter (fun u => outpoint u ∈ excludeUTXOs) us))%nat).
  { clear Hp Ho. induction us as [|u us IH]; [done|]. apply list.Forall_cons in He as [Hu He]. specialize (IH He).
    rewrite !filter_cons. cbn [length]. unfold excluded in Hu. apply orb_true_iff in Hu as [Hu|Hu]; apply bool_decide_eq_true in Hu.
    - rewrite (decide_True_pi Hu). destruct (decide (outpoint u ∈ excludeUTXOs)); cbn [length]; lia.
    - change (outpoint u ∈ excludeUTXOs) in Hu. rewrite (decide_True_pi Hu).
      destruct (decide (st_OneTimePub u ∈ exclude)); cbn [length]; lia. }
  assert (H1 : (length (filter (fun u => st_OneTimePub u ∈ exclude) us) <= size exclude)%nat).
  { rewrite <- (length_fmap st_OneTimePub). rewrite <- (size_list_to_set (C := gset Point32)).
    - apply subseteq_size. intros p Hin. apply elem_of_list_to_set in Hin. apply list_elem_of_fmap in Hin as (u & -> & Hin).
      by apply list_elem_of_filter in Hin as [? _].
    - clear -Hp. induction us as [|u us IH]; [constructor|]. cbn in Hp. apply list.NoDup_cons in Hp as [Hu Hp]. rewrite filter_cons.
      destruct (decide _); [|by apply IH]. cbn. apply list.NoDup_cons. split; [|by apply IH].
      intros (w & E & [_ Hw]%list_elem_of_filter)%list_elem_of_fmap. apply Hu. rewrite E. by apply list_elem_of_fmap_2. }
  assert (H2 : (length (filter (fun u => outpoint u ∈ excludeUTXOs) us) <= size excludeUTXOs)%nat).
  { rewrite <- (length_fmap outpoint). rewrite <- (size_list_to_set (C := gset UTXOKey)).
    - apply subseteq_size. intros p Hin. apply elem_of_list_to_set in Hin. apply list_elem_of_fmap in Hin as (u & -> & Hin).
      by apply list_elem_of_filter in Hin as [? _].
    - clear -Ho. induction us as [|u us IH]; [constructor|]. cbn in Ho. apply list.NoDup_cons in Ho as [Hu Ho]. rewrite filter_cons.
      destruct (decide _); [|by apply IH]. cbn. apply list.NoDup_cons. split; [|by apply IH].
      intros (w & E & [_ Hw]%list_elem_of_filter)%list_elem_of_fmap. apply Hu. rewrite E. by apply list_elem_of_fmap_2. }
  lia.
Qed.

(** ** What a finished loop has visited *)

(** Distinct ordinals, their records, and the kept ones in the order of the draws. *)
Record visited (drawn : list Z) (us : list StoredUTXO) : Prop := {
  vi_nodup : NoDup drawn;
  vi_range : Forall (fun o => 0 <= o < Z.of_nat (length slots)) drawn;
  vi_member : Forall2 member_at drawn us
}.

Definition result_of (us : list StoredUTXO) : list StoredUTXO := reverse (filter kept us).

Lemma visited_pubs drawn us : visited drawn us -> NoDup (st_OneTimePub <$> us).
Proof.
  intros [Hn Hr Hf]. induction Hf as [|o u drawn us Hu Hf IH]; [constructor|].
  apply list.NoDup_cons in Hn as [Ho Hn]. apply list.Forall_cons in Hr as [Hro Hr]. cbn. apply list.NoDup_cons. split; [|by apply IH].
  intros (w & E & Hw)%list_elem_of_fmap. apply list_elem_of_lookup in Hw as [k Hk].
  destruct (Forall2_lookup_r _ _ _ _ _ Hf Hk) as (o' & Ho' & Hw). apply list_elem_of_lookup_2 in Ho'.
  rewrite list.Forall_forall in Hr. apply Ho. by rewrite (member_pub_inj o o' u w Hro (Hr _ Ho') Hu Hw E).
Qed.

Lemma visited_outpoints drawn us : outpoints_distinct -> visited drawn us -> NoDup (outpoint <$> us).
Proof.
  intros Hd [Hn Hr Hf]. induction Hf as [|o u drawn us Hu Hf IH]; [constructor|].
  apply list.NoDup_cons in Hn as [Ho Hn]. apply list.Forall_cons in Hr as [Hro Hr]. cbn. apply list.NoDup_cons. split; [|by apply IH].
  intros (w & E & Hw)%list_elem_of_fmap. apply list_elem_of_lookup in Hw as [k Hk].
  destruct (Forall2_lookup_r _ _ _ _ _ Hf Hk) as (o' & Ho' & Hw). apply list_elem_of_lookup_2 in Ho'.
  rewrite list.Forall_forall in Hr. apply Ho. by rewrite (Hd o o' u w Hro (Hr _ Ho') Hu Hw E).
Qed.

Lemma kept_or_excluded us :
  (length us = length (filter kept us) + length (filter (fun u => excluded exclude excludeUTXOs u = true) us))%nat.
Proof.
  induction us as [|u us IH]; [done|]. rewrite !filter_cons. unfold kept in *.
  destruct (excluded exclude excludeUTXOs u); repeat (case_decide; try done); cbn [length]; lia.
Qed.

Lemma NoDup_fmap_filter {B} (g : StoredUTXO -> B) (P : StoredUTXO -> Prop) `{!forall u, Decision (P u)} us :
  NoDup (g <$> us) -> NoDup (g <$> filter P us).
Proof.
  induction us as [|u us IH]; intros Hn; [constructor|]. cbn in Hn. apply list.NoDup_cons in Hn as [Hu Hn].
  rewrite filter_cons. destruct (decide _); [|by apply IH]. cbn. apply list.NoDup_cons. split; [|by apply IH].
  intros (w & E & [_ Hw]%list_elem_of_filter)%list_elem_of_fmap. apply Hu. rewrite E. by apply list_elem_of_fmap_2.
Qed.

(** The excluded records among the visited ones. *)
Lemma skipped_bound drawn us : outpoints_distinct -> visited drawn us ->
  (length us <= length (filter kept us) + (size exclude + size excludeUTXOs))%nat.
Proof.
  intros Hd Hv. rewrite (kept_or_excluded us). apply Nat.add_le_mono_l.
  apply excluded_bound.
  - by apply NoDup_fmap_filter, (visited_pubs drawn).
  - by apply NoDup_fmap_filter, (visited_outpoints drawn).
  - apply list.Forall_forall. by intros u [? _]%list_elem_of_filter.
Qed.

Lemma visited_step drawn us o u : visited drawn us -> o ∉ drawn -> 0 <= o < Z.of_nat (length slots) -> member_at o u ->
  visited (o :: drawn) (u :: us).
Proof. intros [H1 H2 H3] Ho Hr Hu. split; [by apply list.NoDup_cons|by constructor|by constructor]. Qed.

Lemma result_of_cons u us : result_of (u :: us) = if excluded exclude excludeUTXOs u then result_of us else result_of us ++ [u].
Proof.
  unfold result_of. rewrite filter_cons. unfold kept. destruct (excluded exclude excludeUTXOs u); case_decide; try done.
  apply reverse_cons.
Qed.

Lemma result_of_length us : length (result_of us) = length (filter kept us).
Proof. unfold result_of. apply length_reverse. Qed.

(** The loop never runs out of its budget, never meets a duplicate or a broken slot:
    it fails only with its entropy. *)
Lemma sample_loop_spec budget : forall remaining swaps drawn us seen entropy,
  outpoints_distinct -> shuffled (Z.of_nat (length slots)) swaps remaining drawn -> visited drawn us ->
  (forall p, p ∈ seen <-> p ∈ st_OneTimePub <$> us) -> Z.of_nat (length drawn) = Z.of_nat (length slots) - remaining ->
  (length (result_of us) <= count)%nat ->
  (budget + length us = count + size exclude + size excludeUTXOs)%nat ->
  match sample_loop budget m count exclude excludeUTXOs remaining swaps seen (result_of us) entropy with
  | Err e => e ∈ entropy_errors
  | Ok res => exists drawn' us', visited drawn' us' /\ res = result_of us' /\ (length res <= count)%nat /\
      (length res = count \/ length drawn' = length slots)
  end.
Proof.
  induction budget as [|budget IH]; intros remaining swaps drawn us seen entropy Hd Hs Hv Hseen Hlen Hle Hb; cbn [sample_loop].
  - destruct (Z.eqb_spec remaining 0) as [->|Hr]; cbn [orb].
    { exists drawn, us. split_and!; [done|done|done|]. right. lia. }
    destruct (Nat.leb_spec count (length (result_of us))) as [Hc|Hc].
    { exists drawn, us. split_and!; [done|done|done|]. left. lia. }
    exfalso. assert (Hk := skipped_bound _ _ Hd Hv). rewrite <- result_of_length in Hk. lia.
  - destruct (Z.eqb_spec remaining 0) as [->|Hr]; cbn [orb].
    { exists drawn, us. split_and!; [done|done|done|]. right. lia. }
    destruct (Nat.leb_spec count (length (result_of us))) as [Hc|Hc].
    { exists drawn, us. split_and!; [done|done|done|]. left. lia. }
    assert (Hpos : 0 < remaining) by (destruct (sh_rem _ _ _ _ Hs); lia).
    assert (Hu := uniform_below entropy remaining Hpos).
    destruct (uniformRingOrdinal entropy remaining) as [[i entropy']|e]; [|done]. cbn [mbind result_bind].
    destruct (sh_range _ _ _ _ Hs i Hu) as [Ho Hnd]. destruct (member_exists _ Ho) as (u & Hread & Hslot).
    unfold member_at in Hread. rewrite Hread. cbn [mbind result_bind].
    assert (Hv' := visited_step _ _ _ _ Hv Hnd Ho Hread).
    assert (Hfresh : st_OneTimePub u ∉ seen).
    { rewrite Hseen. assert (Hp := visited_pubs _ _ Hv'). cbn in Hp. by apply list.NoDup_cons in Hp as [? _]. }
    rewrite (bool_decide_eq_false_2 _ Hfresh), <- result_of_cons.
    apply (IH _ _ (at_ordinal swaps i :: drawn) (u :: us)); [done|by apply shuffled_step|done| | | |].
    + intros p. rewrite elem_of_union, elem_of_singleton, Hseen. cbn. by rewrite elem_of_cons.
    + cbn [length]. lia.
    + rewrite result_of_cons. destruct (excluded _ _ _); [done|]. rewrite length_app. cbn [length]. lia.
    + cbn [length]. lia.
Qed.

(** Every ordinal is drawn when as many were drawn as there are. *)
Lemma visited_all drawn us o u : visited drawn us -> length drawn = length slots ->
  0 <= o < Z.of_nat (length slots) -> member_at o u -> u ∈ us.
Proof.
  intros [Hn Hr Hf] Hl Ho Hu.
  assert (Hin : o ∈ drawn).
  { assert (Hsub : drawn ⊆+ seqZ 0 (Z.of_nat (length slots))).
    { apply NoDup_submseteq; [done|]. intros x Hx. rewrite list.Forall_forall in Hr. specialize (Hr x Hx). apply elem_of_seqZ. lia. }
    apply submseteq_length_Permutation in Hsub; [|rewrite length_seqZ; lia].
    rewrite Hsub. apply elem_of_seqZ. lia. }
  apply list_elem_of_lookup in Hin as [k Hk]. destruct (Forall2_lookup_l _ _ _ _ _ Hf Hk) as (w & Hw & E).
  unfold member_at in *. rewrite Hu in E. injection E as <-. by eapply list_elem_of_lookup_2.
Qed.

Lemma sample_spec entropy : outpoints_distinct ->
  match sample_loop (count + size exclude + size excludeUTXOs) m count exclude excludeUTXOs (Z.of_nat (length slots)) ∅ ∅ [] entropy with
  | Err e => e ∈ entropy_errors
  | Ok res => NoDup (st_OneTimePub <$> res) /\
      (forall u, u ∈ res -> kept u /\ exists o, 0 <= o < Z.of_nat (length slots) /\ member_at o u) /\
      (length res <= count)%nat /\
      (length res = count \/ forall o u, 0 <= o < Z.of_nat (length slots) -> member_at o u -> kept u -> u ∈ res)
  end.
Proof.
  intros Hd.
  assert (Hl := sample_loop_spec (count + size exclude + size excludeUTXOs) (Z.of_nat (length slots)) ∅ [] [] ∅ entropy Hd
    (shuffled_start _ (Nat2Z.is_nonneg _)) (Build_visited [] [] NoDup_nil_2 (List.Forall_nil _) (List.Forall2_nil _))).
  change (result_of []) with (@nil StoredUTXO) in Hl.
  specialize (Hl ltac:(intros p; split; [set_solver|by intros ?%not_elem_of_nil]) ltac:(cbn; lia) ltac:(cbn; lia) ltac:(cbn; lia)).
  destruct (sample_loop _ _ _ _ _ _ _ _ _ _) as [res|e]; [|done].
  destruct Hl as (drawn & us & Hv & -> & Hle & Hend). split_and!.
  - unfold result_of. rewrite fmap_reverse, reverse_Permutation. by apply NoDup_fmap_filter, (visited_pubs drawn).
  - intros u [Hk Hu]%elem_of_reverse%list_elem_of_filter. split; [done|].
    apply list_elem_of_lookup in Hu as [k Hu]. destruct Hv as [_ Hr Hf].
    destruct (Forall2_lookup_r _ _ _ _ _ Hf Hu) as (o & Ho & Hm). exists o. split; [|done].
    rewrite list.Forall_forall in Hr. apply Hr. by eapply list_elem_of_lookup_2.
  - done.
  - destruct Hend as [?|Hall]; [by left|]. right. intros o u Ho Hm Hk. apply elem_of_reverse, list_elem_of_filter.
    split; [done|]. by eapply visited_all.
Qed.

End Sample.

(** ** Writing and deleting outputs *)

Section Writes.
Context `{J : UtxoJson}.

Lemma put_valid m slots txHash outIdx u :
  ring_valid m slots -> Z.of_nat (length slots) < MaxUint64 -> unmarshal_utxo (marshal_utxo u) = Some u ->
  exists m', PutUTXO txHash outIdx (Some u) m = Ok m' /\
    ring_valid m' (restage slots (st_OneTimePub u) (negb (st_ProtocolLocked u))) /\
    m' !! utxoKey txHash outIdx = Some (marshal_utxo u) /\ m' !! ringMemberKey (st_OneTimePub u) = Some (marshal_utxo u).
Proof.
  intros Hv Hlt Hu.
  destruct (stage_valid m slots (st_OneTimePub u) (negb (st_ProtocolLocked u)) (Some (marshal_utxo u)) Hv) as (ops & Hst & Hres);
    [exists u; by rewrite negb_involutive|done|].
  unfold PutUTXO. rewrite Hst. cbn [mbind result_bind]. eexists. split; [done|].
  assert (Hsame : same_ring m (apply_op m (Put (utxoKey txHash outIdx) (marshal_utxo u))))
    by (eapply same_ring_ops; [..|reflexivity]; intros; ring_ne).
  rewrite write_app. change (write [Put (utxoKey txHash outIdx) (marshal_utxo u)] m) with (apply_op m (Put (utxoKey txHash outIdx) (marshal_utxo u))).
  split_and!.
  - eapply same_ring_valid; [|exact Hres]. by apply same_ring_write.
  - rewrite write_other; [apply lookup_insert_eq|].
    apply list.Forall_app. split; [|by repeat constructor; cbn [op_key]; ring_ne].
    rewrite (stage_reads m slots _ _ Hv) in Hst. revert Hst. unfold stage_append, stage_remove.
    assert (Hk : forall k, (exists s, k = prefixMeta ++ s) \/ (exists s, k = ringSamplingSlotPrefix ++ s) \/ (exists s, k = ringSamplingReversePrefix ++ s) ->
      k <> utxoKey txHash outIdx) by (intros k [[s ->]|[[s ->]|[s ->]]]; key_ne).
    assert (K1 : ringSamplingCountKey <> utxoKey txHash outIdx) by ring_ne.
    assert (K2 : forall i, ringSamplingSlotKey i <> utxoKey txHash outIdx) by (intros; ring_ne).
    assert (K3 : forall p, ringSamplingReverseKey p <> utxoKey txHash outIdx) by (intros; ring_ne).
    destruct (list_find _ _) as [[i x]|]; destruct (negb (st_ProtocolLocked u)).
    + intros <-%Ok_inj. by repeat constructor.
    + intros (moved & Hm & <-%Ok_inj)%bind_ok. apply list.Forall_app. split; [|repeat (constructor; [cbn [op_key]; auto|]); constructor].
      destruct (_ =? _); [apply Ok_inj in Hm as <-; constructor|].
      destruct (m !! ringSamplingSlotKey _) as [lp|]; [|done]. apply reject_ok in Hm as [_ Hm]. apply reject_ok in Hm as [_ Hm].
      apply bind_ok in Hm as (_ & _ & <-%Ok_inj). repeat (constructor; [cbn [op_key]; auto|]). constructor.
    + intros [_ [_ <-%Ok_inj]%reject_ok]%reject_ok. repeat (constructor; [cbn [op_key]; auto|]). constructor.
    + intros <-%Ok_inj. by repeat constructor.
  - rewrite write_app. apply lookup_insert_eq.
Qed.

Lemma delete_valid m slots txHash outIdx ou :
  ring_valid m slots -> Z.of_nat (length slots) < MaxUint64 -> GetUTXO m txHash outIdx = Ok ou ->
  exists m' slots', DeleteUTXO txHash outIdx m = Ok m' /\ ring_valid m' slots' /\
    (forall p, p ∈ slots' <-> p ∈ slots /\ match ou with Some u => p <> st_OneTimePub u | None => True end).
Proof.
  intros Hv Hlt Hg. unfold DeleteUTXO. rewrite Hg. cbn [mbind result_bind].
  assert (Hbase : forall ops, exists m0, write ([Delete (utxoKey txHash outIdx); Delete (spentUTXOKey txHash outIdx)] ++ ops) m = write ops m0 /\ same_ring m m0).
  { intros ops. rewrite write_app. eexists. split; [done|]. unfold write. cbn [foldl].
    assert (S1 : same_ring m (apply_op m (Delete (utxoKey txHash outIdx)))) by (eapply same_ring_ops; [..|reflexivity]; intros; ring_ne).
    assert (S2 := same_ring_ops (spentUTXOKey txHash outIdx) (apply_op m (Delete (utxoKey txHash outIdx))) (Delete (spentUTXOKey txHash outIdx))
      ltac:(intros; ring_ne) ltac:(intros; ring_ne) ltac:(intros; ring_ne) ltac:(ring_ne) eq_refl).
    destruct S1 as (A1 & A2 & A3 & A4), S2 as (B1 & B2 & B3 & B4). split_and!; intros; etransitivity; eauto. }
  destruct ou as [u|].
  - destruct (stage_valid m slots (st_OneTimePub u) false None Hv eq_refl Hlt) as (ops & Hst & Hres).
    rewrite Hst. cbn [mbind result_bind]. destruct (Hbase (ops ++ [Delete (ringMemberKey (st_OneTimePub u))])) as (m0 & E & Hs).
    exists (write (ops ++ [member_op (st_OneTimePub u) None]) m0), (restage slots (st_OneTimePub u) false). split_and!.
    + by rewrite E.
    + eapply same_ring_valid; [|exact Hres]. by apply same_ring_write.
    + intros p. rewrite restage_elem by apply (rv_nodup _ _ Hv). naive_solver.
  - cbn [mbind result_bind]. destruct (Hbase []) as (m0 & E & Hs). exists m0, slots. split_and!.
    + f_equal. exact E.
    + by eapply same_ring_valid.
    + naive_solver.
Qed.

End Writes.

(** ** The scan of all output keys *)

Lemma swapped_index i : 0 <= i < 256 -> be_decode (le_encode 4 i) = i * 16777216.
Proof.
  intros Hi. unfold be_decode. cbn [le_encode rev app le_decode]. rewrite (Z.div_small i 256) by lia.
  rewrite !Zdiv_0_l, !byte_to_of_Z, (Z.mod_small i 256), !Zmod_0_l by lia. lia.
Qed.

Lemma iter_all_key m txHash outIdx v : 0 <= outIdx < 256 -> m !! utxoKey txHash outIdx = Some v ->
  (txHash, outIdx * 16777216) ∈ IterAllUTXOKeys m.
Proof.
  intros Hi Hm. unfold IterAllUTXOKeys. apply list_elem_of_fmap. exists (utxoKey txHash outIdx, v). cbn [fst].
  unfold utxoKey at 1 2. rewrite drop_app_length, take_app_length' by (symmetry; apply arr32).
  rewrite drop_app_length' by (symmetry; apply arr32). rewrite copy_arr_list. split.
  - f_equal. symmetry. apply swapped_index. lia.
  - apply list_elem_of_filter. cbn [fst]. unfold utxoKey at 1. rewrite drop_app_length, length_app, arr32, length_le_encode.
    split; [done|]. apply elem_of_scan. split; [apply has_prefix_app|done].
Qed.

(** ** Theorems *)

(** C40: writing an output keeps the sampling index a bijection between ordinals and
    the unlocked ring members: the write succeeds, and the members afterwards are the
    old ones with the key of the output added, or taken out when it is locked. *)
Theorem put_keeps_index `{J : UtxoJson} (m : KV) (slots : list Point32) (txHash : Hash32) (outIdx : Z) (u : StoredUTXO) :
  ring_valid m slots -> Z.of_nat (length slots) < MaxUint64 -> unmarshal_utxo (marshal_utxo u) = Some u ->
  exists m' slots', PutUTXO txHash outIdx (Some u) m = Ok m' /\ ring_valid m' slots' /\
    (forall p, p ∈ slots' <-> (p = st_OneTimePub u /\ st_ProtocolLocked u = false) \/ (p <> st_OneTimePub u /\ p ∈ slots)) /\
    GetUTXO m' txHash outIdx = Ok (Some u) /\
    LookupRingMember m' (st_OneTimePub u) = Ok (if st_ProtocolLocked u then None else Some (storedToCoreUTXO u)).
Proof.
  intros Hv Hlt Hu. destruct (put_valid m slots txHash outIdx u Hv Hlt Hu) as (m' & Hp & Hv' & H1 & H2).
  exists m'. eexists. split_and!; [done|done| | |].
  - intros p. rewrite restage_elem, negb_true_iff by apply (rv_nodup _ _ Hv). done.
  - unfold GetUTXO. rewrite H1, Hu. done.
  - unfold LookupRingMember. rewrite H2, Hu. by destruct (st_ProtocolLocked u).
Qed.

(** Over a valid index, sampling fails only for lack of entropy; otherwise it
    returns distinct members outside both exclusions, as many as were asked for or
    every member that is not excluded. The budget of draws is always enough. *)
Theorem sampling_sound `{J : UtxoJson} (m : KV) (slots : list Point32) (count : Z) (exclude : gset Point32)
    (excludeUTXOs : gset UTXOKey) (entropy : list byte) :
  ring_valid m slots -> outpoints_distinct m slots -> 0 < count <= maxRingSamplingRequest ->
  Z.of_nat (size exclude) <= maxRingSamplingRequest -> Z.of_nat (size excludeUTXOs) <= maxStakedRingExclusions ->
  match sampleRingSnapshotExcluding m count exclude excludeUTXOs entropy with
  | Err e => e ∈ entropy_errors
  | Ok out => exists us, out = decoys us /\ NoDup (st_OneTimePub <$> us) /\
      (forall u, u ∈ us -> kept exclude excludeUTXOs u /\ st_OneTimePub u ∈ slots) /\
      Z.of_nat (length us) <= count /\
      (Z.of_nat (length us) = count \/
       forall o u, 0 <= o < Z.of_nat (length slots) -> member_at m o u -> kept exclude excludeUTXOs u -> u ∈ us)
  end.
Proof.
  intros Hv Hd Hc He Hx. unfold sampleRingSnapshotExcluding. assert (Hb := rv_bound _ _ Hv).
  rewrite (proj2 (Z.leb_gt _ _)) by lia. rewrite !(proj2 (Z.ltb_ge _ _)) by lia. cbn [orb].
  rewrite (count_valid _ _ Hv). cbn [mbind result_bind].
  assert (Hbm : boundary_member m (Z.of_nat (length slots)) = Ok ()).
  { unfold boundary_member. destruct (Z.ltb_spec 0 (Z.of_nat (length slots))); [|done].
    destruct (member_exists m slots Hv (Z.of_nat (length slots) - 1)) as (u & Hu & _); [lia|]. unfold member_at in Hu. by rewrite Hu. }
  rewrite Hbm. cbn [mbind result_bind].
  assert (Hend : m !! ringSamplingSlotKey (Z.of_nat (length slots)) = None).
  { rewrite (rv_slot _ _ Hv) by u64lia. rewrite Nat2Z.id, lookup_ge_None_2 by lia. done. }
  unfold has. rewrite Hend, (bool_decide_eq_false_2 (is_Some None)) by (by intros [? ?]).
  assert (Hs := sample_spec m slots exclude excludeUTXOs (Z.to_nat count) Hv entropy Hd).
  destruct (sample_loop _ _ _ _ _ _ _ _ _ _) as [us|e]; [|done]. cbn [mbind result_bind].
  destruct Hs as (Hn & Hk & Hl & Hall). exists us. split_and!; [done|done| |lia|].
  - intros u Hu. destruct (Hk u Hu) as [Hkept (o & Ho & Hm)]. split; [done|].
    destruct (member_exists m slots Hv o Ho) as (w & Hw & Hslot). unfold member_at in *. rewrite Hm in Hw. injection Hw as <-.
    by eapply list_elem_of_lookup_2.
  - destruct Hall as [Hall|Hall]; [left; lia|by right].
Qed.

(** The virtual shuffle is unbiased: over a population of [N], each sequence of
    distinct ordinals is drawn by exactly one sequence of indices, each index below
    what remains at its draw. *)
Theorem shuffle_bijective (N : Z) (os : list Z) :
  0 <= N -> NoDup os -> Forall (fun o => 0 <= o < N) os ->
  exists ixs, indices_ok N ixs /\ ordinals ∅ N ixs = os /\
    forall ixs', indices_ok N ixs' -> ordinals ∅ N ixs' = os -> ixs' = ixs.
Proof.
  intros HN Hn Hf. assert (Hs := shuffled_start N HN).
  destruct (ordinals_onto N os ∅ N [] Hs Hn) as (ixs & Hok & E).
  { eapply list.Forall_impl; [exact Hf|]. intros o Ho. split; [done|apply not_elem_of_nil]. }
  exists ixs. split_and!; [done|done|]. intros ixs' Hok' E'. eapply (ordinals_inj N); [exact Hs|done|done|congruence].
Qed.

(** The scan of all output keys decodes the output index with the opposite byte
    order: for an output with index from 1 to 255 it reports the index multiplied by
    2^24, so an output spent before the spent index existed is not found by it. *)
Theorem output_index_swapped (m : KV) (txHash : Hash32) (outIdx : Z) (v : list byte) :
  0 < outIdx < 256 -> m !! utxoKey txHash outIdx = Some v ->
  (txHash, outIdx * 16777216) ∈ IterAllUTXOKeys m /\ outIdx * 16777216 <> outIdx /\
  (forall h o, (h, o) ∈ IterAllUTXOKeys (put (utxoKey txHash outIdx) v ∅) -> o = outIdx * 16777216).
Proof.
  intros Hi Hm. split_and!; [apply (iter_all_key m txHash outIdx v); [lia|done]|lia|].
  intros h o Hin. unfold IterAllUTXOKeys in Hin. apply list_elem_of_fmap in Hin as ([k w] & E & [_ Hin]%list_elem_of_filter).
  apply elem_of_scan in Hin as [_ Hk]. unfold put in Hk. apply lookup_insert_Some in Hk as [[<- <-]|[_ Hk]];
    [|by rewrite lookup_empty in Hk].
  assert (Hin := iter_all_key (put (utxoKey txHash outIdx) v ∅) txHash outIdx v ltac:(lia) (lookup_insert_eq _ _ _)).
  apply (f_equal snd) in E. cbn [snd fst] in E. subst o. unfold utxoKey. rewrite drop_app_length, drop_app_length' by (symmetry; apply arr32).
  apply swapped_index. lia.
Qed.

(** ** Witnesses *)

Section Example.

(** Outputs told apart by their index, and a codec of one byte for them. *)
Definition ex_utxo (n : Z) : StoredUTXO :=
  mkStoredUTXO zeroHash n (copy_arr 32 [byte_of_Z n]) zeroHash zeroHash (zero_arr 8) 1 0 false.
#[local] Instance toy_utxo_json : UtxoJson := {|
  marshal_utxo := fun u => [byte_of_Z (st_OutputIndex u)];
  unmarshal_utxo := fun d => match d with b :: _ => Some (ex_utxo (byte_to_Z b)) | [] => None end
|}.

(** The store of a prepared index without members. *)
Definition ex_empty : KV := {[ringSamplingCountKey := ringSamplingUint 0]}.

Lemma ex_empty_valid : ring_valid ex_empty [].
Proof.
  assert (Hno : forall k, k <> ringSamplingCountKey -> ex_empty !! k = None) by (intros k Hk; by apply lookup_singleton_ne).
  split.
  - apply lookup_singleton_eq.
  - cbn. u64lia.
  - intros i _. apply Hno. ring_ne.
  - intros p v. rewrite Hno by ring_ne. split; [done|]. intros (i & Hi & _). by rewrite lookup_nil in Hi.
  - constructor.
  - intros p d. by rewrite Hno by ring_ne.
  - intros p. split; [by intros ?%not_elem_of_nil|]. intros (d & u & Hm & _). by rewrite Hno in Hm by ring_ne.
Qed.

Lemma put_keeps_index_witness :
  exists m' slots', PutUTXO zeroHash 7 (Some (ex_utxo 7)) ex_empty = Ok m' /\ ring_valid m' slots' /\
    copy_arr 32 [x07] ∈ slots' /\ GetUTXO m' zeroHash 7 = Ok (Some (ex_utxo 7)).
Proof.
  destruct (put_keeps_index ex_empty [] zeroHash 7 (ex_utxo 7) ex_empty_valid) as (m' & slots' & H1 & H2 & H3 & H4 & _).
  - cbn. u64lia.
  - vm_compute. reflexivity.
  - exists m', slots'. split; [exact H1|]. split; [exact H2|]. split; [|exact H4].
    apply H3. left. split; reflexivity.
Defined.

(** Two outputs written, and a sample of one of them. *)
Definition ex_slots : list Point32 := [copy_arr 32 [x01]; copy_arr 32 [x02]].
Definition ex_stored (r : result KV) : KV := match r with Ok m => m | Err _ => ∅ end.
Definition ex_m1 : KV := ex_stored (PutUTXO zeroHash 1 (Some (ex_utxo 1)) ex_empty).
Definition ex_m2 : KV := ex_stored (PutUTXO zeroHash 2 (Some (ex_utxo 2)) ex_m1).

Lemma ex_put_valid m slots slots' n : ring_valid m slots -> Z.of_nat (length slots) < MaxUint64 ->
  unmarshal_utxo (marshal_utxo (ex_utxo n)) = Some (ex_utxo n) ->
  restage slots (st_OneTimePub (ex_utxo n)) true = slots' ->
  ring_valid (ex_stored (PutUTXO zeroHash n (Some (ex_utxo n)) m)) slots'.
Proof. intros Hv Hl Hu <-. destruct (put_valid m slots zeroHash n (ex_utxo n) Hv Hl Hu) as (m' & -> & Hv' & _). exact Hv'. Qed.

Lemma ex_m2_valid : ring_valid ex_m2 ex_slots.
Proof.
  apply (ex_put_valid ex_m1 [copy_arr 32 [x01]]); [|cbn; u64lia|vm_compute; reflexivity|vm_compute; reflexivity].
  apply (ex_put_valid ex_empty []); [exact ex_empty_valid|cbn; u64lia|vm_compute; reflexivity|vm_compute; reflexivity].
Qed.

Lemma ex_outpoints : outpoints_distinct ex_m2 ex_slots.
Proof.
  intros o o' u u' Ho Ho' Hu Hu' E. change (Z.of_nat (length ex_slots)) with 2 in Ho, Ho'.
  assert (H0 : readRingSamplingMember ex_m2 0 = Ok (ex_utxo 1)) by (vm_compute; reflexivity).
  assert (H1 : readRingSamplingMember ex_m2 1 = Ok (ex_utxo 2)) by (vm_compute; reflexivity).
  unfold member_at in *. assert (Ho2 : o = 0 \/ o = 1) by lia. assert (Ho2' : o' = 0 \/ o' = 1) by lia.
  destruct Ho2 as [->| ->], Ho2' as [->| ->]; [done| | |done]; rewrite H0 in *; rewrite H1 in *;
    injection Hu as <-; injection Hu' as <-; discriminate E.
Qed.

Lemma sampling_sound_witness :
  match sampleRingSnapshotExcluding ex_m2 1 ∅ ∅ [x01] with
  | Err e => e ∈ entropy_errors
  | Ok out => exists us, out = decoys us /\ NoDup (st_OneTimePub <$> us) /\
      (forall u, u ∈ us -> kept ∅ ∅ u /\ st_OneTimePub u ∈ ex_slots) /\
      Z.of_nat (length us) <= 1 /\
      (Z.of_nat (length us) = 1 \/
       forall o u, 0 <= o < Z.of_nat (length ex_slots) -> member_at ex_m2 o u -> kept ∅ ∅ u -> u ∈ us)
  end.
Proof.
  apply (sampling_sound ex_m2 ex_slots 1 ∅ ∅ [x01] ex_m2_valid ex_outpoints);
    unfold maxRingSamplingRequest, maxStakedRingExclusions; rewrite ?size_empty; lia.
Defined.

Lemma shuffle_bijective_witness :
  exists ixs, indices_ok 5 ixs /\ ordinals ∅ 5 ixs = [3; 0; 4] /\
    forall ixs', indices_ok 5 ixs' -> ordinals ∅ 5 ixs' = [3; 0; 4] -> ixs' = ixs.
Proof.
  apply (shuffle_bijective 5 [3; 0; 4]); [lia| |].
  - apply (bool_decide_unpack _). vm_compute. exact I.
  - repeat constructor; lia.
Defined.

Lemma output_index_swapped_witness :
  0 < 1 < 256 /\ (zeroHash, 16777216) ∈ IterAllUTXOKeys (put (utxoKey zeroHash 1) [x01] ∅).
Proof.
  assert (H1 : 0 < 1 < 256) by lia. split; [exact H1|].
  exact (proj1 (output_index_swapped (put (utxoKey zeroHash 1) [x01] ∅) zeroHash 1 [x01] H1 (lookup_insert_eq _ _ _))).
Defined.

End Example.

End OutputStoreProofs.
