(* ===== verification/Quorum.v ===== *)
(** Quorum arithmetic and committee lookups of [consensus/poa.go].

    The thresholds of the engine are computed in Go's [float64].  The arithmetic is
    the IEEE 754 binary64 of the Standard Library ([SpecFloat], round to nearest
    even); [f64_int] is the conversion [int(x)], which truncates, and [f64_round]
    is [math.Round].  An out-of-range conversion is implementation-defined in Go:
    the value here is the one of the amd64 instruction. *)

From Stdlib Require Import Floats.SpecFloat.
From stdpp Require Import base gmap list strings.
From S2P Require Import Prelude Bytes Crypto StakePayload Utxo Staking StakingEpoch.
Import Staking StakingEpoch.

Module Quorum.

(** ** Binary64 *)

Definition float64 : Type := spec_float.

(** [float64(n)] for an integer. *)
Definition f64_of_Z (n : Z) : float64 := binary_normalize 53 1024 n 0 false.
Definition f64_mul : float64 -> float64 -> float64 := SFmul 53 1024.
Definition f64_div : float64 -> float64 -> float64 := SFdiv 53 1024.
Definition f64_add : float64 -> float64 -> float64 := SFadd 53 1024.
Definition f64_sub : float64 -> float64 -> float64 := SFsub 53 1024.
Definition f64_lt : float64 -> float64 -> bool := SFltb.

Definition signed (s : bool) (z : Z) : Z := if s then - z else z.

(** The truncation of a finite value, towards zero. *)
Definition f64_trunc (s : bool) (m : positive) (e : Z) : Z := signed s (Z.shiftl (Z.pos m) e).

(** [int(x)]. *)
Definition f64_int (x : float64) : Z :=
  match x with
  | S754_zero _ => 0
  | S754_finite s m e =>
      let z := f64_trunc s m e in
      if (- I63 <=? z) && (z <? I63) then z else - I63
  | _ => - I63
  end.

(** [math.Round]: the nearest integer, halves away from zero; the integers above
    2^52 are their own rounding. *)
Definition f64_round (x : float64) : float64 :=
  match x with
  | S754_finite s m e =>
      if 0 <=? e then x
      else let z := Z.shiftr (Z.shiftl (Z.pos m) 1 + Z.shiftl 1 (- e)) (1 - e) in
           if z =? 0 then S754_zero s else f64_of_Z (signed s z)
  | _ => x
  end.

(** ** The quorum *)

(** [int(float64(n)*e.cfg.BFTThreshold) + 1]. *)
Definition needed (n : nat) (threshold : float64) : Z :=
  wrapS64 (f64_int (f64_mul (f64_of_Z (Z.of_nat n)) threshold) + 1).

(** The literal [0.667], the threshold of the shipped genesis files. *)
Definition two_thirds : float64 := f64_div (f64_of_Z 667) (f64_of_Z 1000).

(** ** The committee *)

(** [activeValidators]: the registry decides unless it has no entry at all. *)
Definition activeValidators (r : option Registry) (bootstrap : list ValidatorPubKey) : list ValidatorPubKey :=
  match r with
  | Some r =>
      let vs := activeSetLocked r in
      if bool_decide (vs <> []) || bool_decide (validators r <> ∅) then vs else bootstrap
  | None => bootstrap
  end.

(** [proposerAt]; [None] is the nil key of an empty committee. *)
Definition proposerAt (vs : list ValidatorPubKey) (round : Z) : option ValidatorPubKey :=
  match vs with
  | [] => None
  | _ => vs !! Z.to_nat (round mod Z.of_nat (length vs))
  end.

Definition isKnownValidator (vs : list ValidatorPubKey) (pub : ValidatorPubKey) : bool :=
  existsb (fun v => pub_equals v pub) vs.

(** ** Facts *)

(** The quorum bounds for every committee size up to [n], by evaluation. *)
Definition quorum_ok (n : nat) : bool :=
  (2 * Z.of_nat n <? 3 * needed n two_thirds) && (needed n two_thirds <=? Z.of_nat n).

Lemma quorum_ok_all : forallb quorum_ok (seq 1 256) = true.
Proof. vm_compute. reflexivity. Qed.

Lemma needed_range n : (1 <= n <= 256)%nat ->
  2 * Z.of_nat n < 3 * needed n two_thirds /\ needed n two_thirds <= Z.of_nat n.
Proof.
  intros Hn. assert (Hq := proj1 (forallb_forall _ _) quorum_ok_all n).
  rewrite in_seq in Hq. specialize (Hq ltac:(lia)). unfold quorum_ok in Hq. zbool. lia.
Qed.

Lemma isKnownValidator_spec vs pub : isKnownValidator vs pub = true <-> pub ∈ vs.
Proof.
  unfold isKnownValidator, pub_equals. rewrite existsb_exists. setoid_rewrite bool_decide_eq_true.
  setoid_rewrite <- list_elem_of_In. naive_solver.
Qed.

Lemma proposerAt_spec vs round : 0 <= round -> vs <> [] ->
  exists v, proposerAt vs round = Some v /\ v ∈ vs.
Proof.
  intros Hr Hv. unfold proposerAt. destruct vs as [|v0 vs]; [done|].
  assert (Hm := Z.mod_pos_bound round (Z.of_nat (length (v0 :: vs))) ltac:(simpl; lia)).
  destruct (lookup_lt_is_Some_2 (v0 :: vs) (Z.to_nat (round mod Z.of_nat (length (v0 :: vs))))) as [v Hl]; [lia|].
  exists v. split; [done|]. by eapply list_elem_of_lookup_2.
Qed.

(** Two sublists of a committee of [n] with more than two thirds of it each share
    more than a third of it. *)
Lemma quorums_overlap {A} `{EqDecision A} (vs xs ys : list A) :
  NoDup xs -> NoDup ys -> xs ⊆ vs -> ys ⊆ vs ->
  2 * Z.of_nat (length vs) < 3 * Z.of_nat (length xs) ->
  2 * Z.of_nat (length vs) < 3 * Z.of_nat (length ys) ->
  Z.of_nat (length vs) < 3 * Z.of_nat (length (filter (.∈ ys) xs)).
Proof.
  intros Hx Hy Hxv Hyv Lx Ly.
  assert (Hout : (length (filter (.∉ ys) xs) + length ys <= length vs)%nat).
  { rewrite <- length_app. apply submseteq_length, NoDup_submseteq.
    - apply list.NoDup_app. split; [by apply list.NoDup_filter|]. split; [|done].
      intros x [Hn _]%list_elem_of_filter. done.
    - intros x [[_ H]%list_elem_of_filter|H]%elem_of_app; auto. }
  assert (length (filter (.∈ ys) xs) + length (filter (.∉ ys) xs) = length xs)%nat; [|lia].
  clear. induction xs as [|x xs IH]; [done|]. rewrite !filter_cons.
  destruct (decide (x ∈ ys)), (decide (x ∉ ys)); simpl; try done; lia.
Qed.

End Quorum.
