(* ===== verification/FinalityStore.v ===== *)
(** The durable finality records: [store/finality.go] and
    [store/finality_migration.go].

    Each record lives under one key of the database as JSON.  A key holds nothing,
    the encoding of a record, or bytes that no longer decode ([Corrupt]); the JSON
    codec of the Standard Library reads back what it wrote.  [io] says whether the
    reads and the synchronous writes of the database succeed. *)

From stdpp Require Import base gmap list strings.
From S2P Require Import Prelude Bytes Crypto Avm.
Import Avm.

Module FinalityStore.

(** ** Records *)

Record FinalityVote := mkFinalityVote { fv_Validator : ValidatorPubKey; fv_Signature : list byte }.

Record FinalityCertificate := mkCertificate {
  fc_Version : Z; fc_Height : Z; fc_BlockHash : Hash32; fc_Votes : list FinalityVote
}.

Record LocalFinalityVote := mkLocalVote {
  lv_Version : Z; lv_Height : Z; lv_BlockHash : Hash32; lv_Validator : ValidatorPubKey; lv_Signature : list byte
}.

#[export] Instance FinalityVote_eq_dec : EqDecision FinalityVote.
Proof. solve_decision. Defined.
#[export] Instance FinalityCertificate_eq_dec : EqDecision FinalityCertificate.
Proof. solve_decision. Defined.
#[export] Instance LocalFinalityVote_eq_dec : EqDecision LocalFinalityVote.
Proof. solve_decision. Defined.

Inductive slot (A : Type) := Missing | Corrupt | Stored (a : A).
Arguments Missing {_}.
Arguments Corrupt {_}.
Arguments Stored {_} _.

Record DB := mkDB { certificateSlot : slot FinalityCertificate; localVoteSlot : slot LocalFinalityVote }.

Record io := mkIO { get_ok : bool; put_ok : bool }.

(** ** The local vote *)

Definition LoadLocalFinalityVote (i : io) (d : DB) : result (option LocalFinalityVote) :=
  reject negb (get_ok i) with "db get" ;;
  match localVoteSlot d with
  | Missing => Ok None
  | Corrupt => Err "finality: corrupt local vote"
  | Stored v => reject negb (lv_Version v =? 1) with "finality: unsupported local vote version" ;; Ok (Some v)
  end.

Definition SaveLocalFinalityVote (i : io) (v : LocalFinalityVote) (d : DB) : result DB :=
  reject negb (lv_Version v =? 1) || bool_decide (lv_BlockHash v = zeroHash) || bool_decide (lv_Signature v = [])
    with "finality: invalid local vote" ;;
  prior ← LoadLocalFinalityVote i d;
  _ ← match prior with
      | Some p =>
          reject lv_Height v <? lv_Height p with "finality: refusing local vote height regression" ;;
          reject (lv_Height v =? lv_Height p) &&
                 (negb (bool_decide (lv_BlockHash v = lv_BlockHash p)) || negb (pub_equals (lv_Validator v) (lv_Validator p)))
            with "finality: conflicting local vote" ;;
          Ok ()
      | None => Ok ()
      end;
  reject negb (put_ok i) with "db put" ;;
  Ok (mkDB (certificateSlot d) (Stored v)).

(** ** The certificate *)

Definition LoadFinalityCertificate (i : io) (d : DB) : result (option FinalityCertificate) :=
  reject negb (get_ok i) with "db get" ;;
  match certificateSlot d with
  | Missing => Ok None
  | Corrupt => Err "finality: corrupt certificate"
  | Stored c => reject negb (fc_Version c =? 1) with "finality: unsupported certificate version" ;; Ok (Some c)
  end.

Definition SaveFinalityCertificate (i : io) (c : FinalityCertificate) (d : DB) : result DB :=
  reject negb (fc_Version c =? 1) || bool_decide (fc_BlockHash c = zeroHash) || bool_decide (fc_Votes c = [])
    with "finality: invalid certificate" ;;
  prior ← LoadFinalityCertificate i d;
  _ ← match prior with
      | Some p =>
          reject fc_Height c <? fc_Height p with "finality: refusing certificate height regression" ;;
          reject (fc_Height c =? fc_Height p) && negb (bool_decide (fc_BlockHash c = fc_BlockHash p))
            with "finality: conflicting certificate" ;;
          Ok ()
      | None => Ok ()
      end;
  reject negb (put_ok i) with "db put" ;;
  Ok (mkDB (Stored c) (localVoteSlot d)).

(** ** The committee migration *)

Definition FinalityCommitteeMigrationVersion : Z := 1.

Record FinalityMigrationApproval := mkApproval { ap_Validator : ValidatorPubKey; ap_Signature : list byte }.

Record FinalityCommitteeMigration := mkMigration {
  fm_Version : Z; fm_Genesis : Hash32; CertificateHeight : Z; CertificateBlockHash : Hash32;
  ApprovalHeight : Z; ApprovalBlockHash : Hash32; BFTThresholdPPM : Z;
  HistoricalCommittee : list ValidatorPubKey; Approvals : list FinalityMigrationApproval
}.

(** The domain ends in a zero byte. *)
Definition finalityCommitteeMigrationDomain : list byte :=
  bytes_of_string "aperod/finality-committee-migration/v1" ++ [x00].

Definition isZeroFinalityKey (key : ValidatorPubKey) : bool :=
  if negb (bool_decide (length key = 32%nat)) then false
  else forallb (fun b => bool_decide (b = x00)) key.

(** One pass over the keys: well formed, strictly after the previous one. *)
Definition next_key (bad unsorted : string) (prev : option ValidatorPubKey) (key : ValidatorPubKey) (malformed : bool) :
    result (option ValidatorPubKey) :=
  reject negb (bool_decide (length key = 32%nat)) || isZeroFinalityKey key || malformed with bad ;;
  reject match prev with Some p => negb (bytes_lt p key) | None => false end with unsorted ;;
  Ok (Some key).

Definition validate_committee (m : FinalityCommitteeMigration) : result (option ValidatorPubKey) :=
  foldM (fun prev v => next_key "finality migration: invalid historical validator key"
                         "finality migration: historical committee must be sorted and unique" prev v false)
    None (HistoricalCommittee m).

Definition validate_approvals (m : FinalityCommitteeMigration) : result (option ValidatorPubKey) :=
  foldM (fun prev a => next_key "finality migration: malformed approval"
                         "finality migration: approvals must be sorted and unique" prev (ap_Validator a)
                         (negb (bool_decide (length (ap_Signature a) = 64%nat))))
    None (Approvals m).

Definition migration_payload (m : FinalityCommitteeMigration) : list byte :=
  finalityCommitteeMigrationDomain ++ be_encode 1 (fm_Version m) ++ arr_list (fm_Genesis m) ++
  be_encode 8 (CertificateHeight m) ++ arr_list (CertificateBlockHash m) ++
  be_encode 8 (ApprovalHeight m) ++ arr_list (ApprovalBlockHash m) ++
  be_encode 4 (BFTThresholdPPM m) ++ be_encode 4 (wrap32 (Z.of_nat (length (HistoricalCommittee m)))) ++
  concat (HistoricalCommittee m).

Definition SigningMessage `{Crypto} (m : FinalityCommitteeMigration) : result Hash32 :=
  reject negb (fm_Version m =? FinalityCommitteeMigrationVersion) || bool_decide (fm_Genesis m = zeroHash) ||
         (CertificateHeight m =? 0) || bool_decide (CertificateBlockHash m = zeroHash) ||
         (ApprovalHeight m <? CertificateHeight m) || bool_decide (ApprovalBlockHash m = zeroHash) ||
         (BFTThresholdPPM m =? 0) || (1000000 <=? BFTThresholdPPM m) ||
         bool_decide (HistoricalCommittee m = []) || (256 <? Z.of_nat (length (HistoricalCommittee m)))
    with "finality migration: invalid header or committee" ;;
  _ ← validate_committee m;
  _ ← validate_approvals m;
  Ok (HashBytes [migration_payload m]).

(** ** Facts *)

(** What a successful save leaves and guarantees. *)
Lemma SaveLocalFinalityVote_ok i v d d' : SaveLocalFinalityVote i v d = Ok d' ->
  d' = mkDB (certificateSlot d) (Stored v) /\ lv_Version v = 1 /\
  (forall p, localVoteSlot d = Stored p -> lv_Height p <= lv_Height v /\
     (lv_Height p = lv_Height v -> lv_BlockHash p = lv_BlockHash v /\ lv_Validator p = lv_Validator v)).
Proof.
  unfold SaveLocalFinalityVote, LoadLocalFinalityVote, pub_equals. intros (Hc & H)%reject_ok.
  apply orb_false_iff in Hc as [[Hv _]%orb_false_iff _].
  apply bind_ok in H as (prior & Hl & H). apply reject_ok in Hl as [_ Hl].
  apply bind_ok in H as ([] & Hp & H). apply reject_ok in H as [_ H]. apply Ok_inj in H as <-. zbool.
  split; [done|]. split; [done|]. intros p Hs. rewrite Hs in Hl. apply reject_ok in Hl as [_ [= <-]].
  apply reject_ok in Hp as [H1 Hp]. apply reject_ok in Hp as [H2 _]. zbool.
  split; [done|]. intros E. rewrite E, Z.eqb_refl in H2. cbn [andb] in H2. zbool. done.
Qed.

Lemma SaveFinalityCertificate_ok i c d d' : SaveFinalityCertificate i c d = Ok d' ->
  d' = mkDB (Stored c) (localVoteSlot d) /\ fc_Version c = 1 /\
  (forall p, certificateSlot d = Stored p -> fc_Height p <= fc_Height c /\
     (fc_Height p = fc_Height c -> fc_BlockHash p = fc_BlockHash c)).
Proof.
  unfold SaveFinalityCertificate, LoadFinalityCertificate. intros (Hc & H)%reject_ok.
  apply orb_false_iff in Hc as [[Hv _]%orb_false_iff _].
  apply bind_ok in H as (prior & Hl & H). apply reject_ok in Hl as [_ Hl].
  apply bind_ok in H as ([] & Hp & H). apply reject_ok in H as [_ H]. apply Ok_inj in H as <-. zbool.
  split; [done|]. split; [done|]. intros p Hs. rewrite Hs in Hl. apply reject_ok in Hl as [_ [= <-]].
  apply reject_ok in Hp as [H1 Hp]. apply reject_ok in Hp as [H2 _]. zbool.
  split; [done|]. intros E. rewrite E, Z.eqb_refl in H2. cbn [andb] in H2. zbool. done.
Qed.

(** The two ways a save cannot go wrong: nothing stored yet, or nothing newer. *)
Definition not_newer (c : FinalityCertificate) (d : DB) : Prop :=
  match certificateSlot d with
  | Missing => True
  | Corrupt => False
  | Stored p => fc_Version p = 1 /\ fc_Height p <= fc_Height c /\
                (fc_Height p = fc_Height c -> fc_BlockHash p = fc_BlockHash c)
  end.

Lemma SaveFinalityCertificate_succeeds i c d :
  get_ok i = true -> put_ok i = true -> fc_Version c = 1 -> fc_BlockHash c <> zeroHash -> fc_Votes c <> [] ->
  not_newer c d -> SaveFinalityCertificate i c d = Ok (mkDB (Stored c) (localVoteSlot d)).
Proof.
  intros Hg Hp Hv Hb Hn Hd. unfold SaveFinalityCertificate, LoadFinalityCertificate.
  rewrite Hg, Hp, Hv, (bool_decide_eq_false_2 _ Hb), (bool_decide_eq_false_2 _ Hn). rewrite !Z.eqb_refl. cbn [negb orb].
  unfold not_newer in Hd. destruct (certificateSlot d) as [| |p]; [done|done|].
  destruct Hd as (Hpv & Hle & Heq). rewrite Hpv, Z.eqb_refl. cbn [negb mbind result_bind]. rewrite (proj2 (Z.ltb_ge _ _) Hle).
  destruct (Z.eqb_spec (fc_Height c) (fc_Height p)) as [E|E]; [|done].
  rewrite (bool_decide_eq_true_2 (fc_BlockHash c = fc_BlockHash p)) by (symmetry; auto). done.
Qed.

Lemma SaveFinalityCertificate_regression i c d p :
  certificateSlot d = Stored p -> fc_Height c < fc_Height p -> is_ok (SaveFinalityCertificate i c d) = false.
Proof.
  intros Hs Hlt. destruct (SaveFinalityCertificate i c d) as [d'|e] eqn:E; [|done].
  apply SaveFinalityCertificate_ok in E as (_ & _ & Hm). destruct (Hm p Hs). lia.
Qed.

End FinalityStore.
