(* ===== verification/Finality.v ===== *)
(** Finality votes of the engine: the vote handlers of [consensus/poa.go] and
    [consensus/finality_migration.go], over the durable records of
    [FinalityStore].

    [Fin] holds the fields of [Engine] the handlers share; a handler that can fail
    after it has changed state returns the state next to its result.  Go visits a
    map in an unspecified order: [order] and [replay_order] are the orders of one
    execution, and the theorems hold for every choice. *)

From stdpp Require Import base gmap list strings.
From S2P Require Import Prelude Bytes Crypto Transaction Block Chain Staking StakingEpoch Quorum FinalityStore.
Import Transaction Block Chain Staking Quorum FinalityStore.

Module Finality.

(** ** Data *)

Record FinalizeMsg := mkVote {
  vt_BlockHash : Hash32; vt_Height : Z; vt_ValidatorPub : ValidatorPubKey; vt_Signature : list byte
}.

(** [futureVoteKey]: height, hash and validator. *)
Definition futureVoteKey : Type := Z * Hash32 * string.

Definition futureVoteWindow : Z := 2.
Definition futureVoteLimit : nat := 256.
Definition votePruneDepth : Z := 256.

Record Fin := mkFin {
  votes : gmap Hash32 (gmap string (list byte));
  finalized : gset Z;
  pendingVoteHeight : gmap Hash32 Z;
  futureVotes : gmap futureVoteKey FinalizeMsg;
  latestLocalVote : option FinalizeMsg;
  lpodFinalizedHashes : gmap Z Hash32;
  (** [cfg.Store]; [None] is a nil store. *)
  db : option DB;
  halted : bool
}.

Definition set_votes (v : gmap Hash32 (gmap string (list byte))) (s : Fin) : Fin :=
  mkFin v (finalized s) (pendingVoteHeight s) (futureVotes s) (latestLocalVote s) (lpodFinalizedHashes s) (db s) (halted s).
Definition set_pending (p : gmap Hash32 Z) (s : Fin) : Fin :=
  mkFin (votes s) (finalized s) p (futureVotes s) (latestLocalVote s) (lpodFinalizedHashes s) (db s) (halted s).
Definition set_future (f : gmap futureVoteKey FinalizeMsg) (s : Fin) : Fin :=
  mkFin (votes s) (finalized s) (pendingVoteHeight s) f (latestLocalVote s) (lpodFinalizedHashes s) (db s) (halted s).
Definition set_local (v : option FinalizeMsg) (s : Fin) : Fin :=
  mkFin (votes s) (finalized s) (pendingVoteHeight s) (futureVotes s) v (lpodFinalizedHashes s) (db s) (halted s).
Definition set_final (f : gset Z) (l : gmap Z Hash32) (s : Fin) : Fin :=
  mkFin (votes s) f (pendingVoteHeight s) (futureVotes s) (latestLocalVote s) l (db s) (halted s).
Definition set_db (d : option DB) (s : Fin) : Fin :=
  mkFin (votes s) (finalized s) (pendingVoteHeight s) (futureVotes s) (latestLocalVote s) (lpodFinalizedHashes s) d (halted s).
Definition halt (s : Fin) : Fin :=
  mkFin (votes s) (finalized s) (pendingVoteHeight s) (futureVotes s) (latestLocalVote s) (lpodFinalizedHashes s) (db s) true.

(** The fields as [NewEngine] makes them. *)
Definition fresh_fin (d : option DB) : Fin := mkFin ∅ ∅ ∅ ∅ None ∅ d false.

(** What the handlers read of the engine: the fork, the committee of the moment
    ([activeValidators]) and [cfg.BFTThreshold]. *)
Record Env := mkEnv {
  fork : option ValidatorAuthorityFork; committee : list ValidatorPubKey; BFTThreshold : float64
}.

Definition quorum (E : Env) : Z := needed (length (committee E)) (BFTThreshold E).

Definition IsFinalized (s : Fin) (h : Z) : bool := bool_decide (h ∈ finalized s).

Section Finality.
Context `{Crypto}.

Definition finalize_message (h : Hash32) : Hash32 :=
  HashBytes [bytes_of_string "aperod/finalize/v1"; arr_list h].

(** The signature check shared by the vote handlers. *)
Definition authentic (f : option ValidatorAuthorityFork) (pub : ValidatorPubKey) (height : Z) (hash : Hash32)
    (sig : list byte) : bool :=
  pub_verify (Authority f pub height) (finalize_message hash) sig.

(** ** [handleVote] *)

Definition vote_key (v : FinalizeMsg) : futureVoteKey := (vt_Height v, vt_BlockHash v, pub_hex (vt_ValidatorPub v)).

(** The vote arrived before its block. *)
Definition stage_vote (c : Chain) (v : FinalizeMsg) (s : Fin) : Fin * result () :=
  match tip c with
  | None => (s, Err "finality vote does not identify a canonical block at its claimed height")
  | Some t =>
      if (vt_Height v <=? height_of t) || (MaxUint64 - futureVoteWindow <? height_of t) ||
         (height_of t +w futureVoteWindow <? vt_Height v)
      then (s, Err "finality vote does not identify a canonical block at its claimed height")
      else if bool_decide (is_Some (GetByHash c (vt_BlockHash v)))
      then (s, Err "finality vote rebinds a known block hash to another height")
      else if bool_decide (is_Some (futureVotes s !! vote_key v)) then (s, Err "duplicate staged finality vote")
      else if (futureVoteLimit <=? size (futureVotes s))%nat then (s, Err "future finality vote queue is full")
      else (set_future (<[vote_key v := v]> (futureVotes s)) s, Ok ())
  end.

(** The votes recorded for a block. *)
Definition votes_for (s : Fin) (h : Hash32) : gmap string (list byte) := default ∅ (votes s !! h).

(** Open the record of a block at its first vote. *)
Definition open_votes (v : FinalizeMsg) (s : Fin) : Fin :=
  if bool_decide (is_Some (votes s !! vt_BlockHash v)) then s
  else set_pending (<[vt_BlockHash v := vt_Height v]> (pendingVoteHeight s))
         (set_votes (<[vt_BlockHash v := ∅]> (votes s)) s).

Definition record_vote (v : FinalizeMsg) (s : Fin) : Fin :=
  set_votes (<[vt_BlockHash v := <[pub_hex (vt_ValidatorPub v) := vt_Signature v]> (votes_for s (vt_BlockHash v))]> (votes s)) s.

(** The certificate votes, from the map entries in the order of one iteration. *)
Definition certificate_vote (e : string * list byte) : result FinalityVote :=
  need raw from hex_decode e.1 else "finality: corrupt in-memory validator identity" ;;
  reject negb (bool_decide (length raw = 32%nat)) with "finality: corrupt in-memory validator identity" ;;
  Ok (mkFinalityVote raw e.2).

Fixpoint certificate_votes (l : list (string * list byte)) : result (list FinalityVote) :=
  match l with
  | [] => Ok []
  | e :: l' => v ← certificate_vote e; vs ← certificate_votes l'; Ok (v :: vs)
  end.

Definition drop_votes (h : Hash32) (s : Fin) : Fin :=
  set_pending (delete h (pendingVoteHeight s)) (set_votes (delete h (votes s)) s).

Definition mark_final (height : Z) (hash : Hash32) (s : Fin) : Fin :=
  set_final ({[height]} ∪ finalized s) (<[height := hash]> (lpodFinalizedHashes s)) s.

(** A save through [cfg.Store], skipped when there is none. *)
Definition save_through (save : DB -> result DB) (s : Fin) : result Fin :=
  match db s with
  | None => Ok s
  | Some d => d' ← save d; Ok (set_db (Some d') s)
  end.

Section Votes.
Variable order : gmap string (list byte) -> list (string * list byte).

(** The quorum is reached. *)
Definition certify (i : io) (v : FinalizeMsg) (s : Fin) : result Fin :=
  vs ← certificate_votes (order (votes_for s (vt_BlockHash v)));
  s' ← save_through (SaveFinalityCertificate i (mkCertificate 1 (vt_Height v) (vt_BlockHash v) vs)) s;
  Ok (drop_votes (vt_BlockHash v) (mark_final (vt_Height v) (vt_BlockHash v) s')).

(** Records far below the voted height are dropped. *)
Definition prune (height : Z) (s : Fin) : Fin :=
  if height <=? votePruneDepth then s
  else
    let pruneBelow := height -w votePruneDepth in
    let stale ht := ht <? pruneBelow in
    let keep (e : Hash32 * gmap string (list byte)) :=
      match pendingVoteHeight s !! e.1 with Some ht => negb (stale ht) | None => true end in
    set_final (filter (fun h => stale h = false) (finalized s))
      (filter (fun e : Z * Hash32 => bool_decide (e.1 ∈ finalized s) && stale e.1 = false) (lpodFinalizedHashes s))
      (set_pending (filter (fun e : Hash32 * Z => stale e.2 = false) (pendingVoteHeight s))
        (set_votes (filter (fun e => keep e = true) (votes s)) s)).

(** The part under the engine's lock, for a vote that names a canonical block. *)
Definition count_vote (E : Env) (i : io) (v : FinalizeMsg) (s : Fin) : Fin * result () :=
  if IsFinalized s (vt_Height v) then (s, Ok ())
  else
    let s1 := open_votes v s in
    if bool_decide (is_Some (votes_for s1 (vt_BlockHash v) !! pub_hex (vt_ValidatorPub v))) then (s1, Ok ())
    else
      let s2 := record_vote v s1 in
      if quorum E <=? Z.of_nat (size (votes_for s2 (vt_BlockHash v))) then
        match certify i v s2 with
        | Ok s3 => (prune (vt_Height v) s3, Ok ())
        | Err e => (s2, Err e)
        end
      else (prune (vt_Height v) s2, Ok ()).

Definition handleVote (E : Env) (i : io) (c : Chain) (v : FinalizeMsg) (s : Fin) : Fin * result () :=
  if negb (isKnownValidator (committee E) (vt_ValidatorPub v)) then (s, Err "vote from unknown validator")
  else if negb (authentic (fork E) (vt_ValidatorPub v) (vt_Height v) (vt_BlockHash v) (vt_Signature v))
  then (s, Err "invalid vote signature")
  else
    match GetByHeight c (vt_Height v) with
    | None => stage_vote c v s
    | Some b =>
        if negb (height_of b =? vt_Height v) || negb (bool_decide (block_Hash b = vt_BlockHash v))
        then (s, Err "finality vote does not identify a canonical block at its claimed height")
        else count_vote E i v s
    end.

(** ** [replayFutureVotes] *)

Section Replay.
Variable replay_order : gmap futureVoteKey FinalizeMsg -> list (futureVoteKey * FinalizeMsg).

Definition due (b : Block) (e : futureVoteKey * FinalizeMsg) : bool :=
  (e.1.1.1 =? height_of b) && bool_decide (e.1.1.2 = block_Hash b).

Definition replayFutureVotes (E : Env) (i : io) (c : Chain) (ob : option Block) (s : Fin) : Fin :=
  match ob with
  | None => s
  | Some b =>
      let replay := snd <$> filter (fun e => due b e = true) (replay_order (futureVotes s)) in
      let s1 := set_future (filter (fun e : futureVoteKey * FinalizeMsg => (e.1.1.1 <=? height_of b) = false) (futureVotes s)) s in
      foldl (fun s v => fst (handleVote E i c v s)) s1 replay
  end.

End Replay.

(** ** [castVote] *)

(** [MyKey]: the private key bytes; the public key is their second half. *)
Definition key_Public (priv : list byte) : ValidatorPubKey := drop 32 priv.

(** The vote this node signs for a block. *)
Definition own_vote (E : Env) (MyKey : list byte) (b : Block) : option FinalizeMsg :=
  sig ← ed25519_sign MyKey (finalize_message (block_Hash b));
  Some (mkVote (block_Hash b) (height_of b) (LocalIdentity (fork E) (key_Public MyKey) (height_of b)) sig).

Definition local_record (v : FinalizeMsg) : LocalFinalityVote :=
  mkLocalVote 1 (vt_Height v) (vt_BlockHash v) (vt_ValidatorPub v) (vt_Signature v).

(** The vote it broadcasts is part of the outcome. *)
Definition castVote (E : Env) (i : io) (c : Chain) (MyKey : list byte) (b : Block) (s : Fin) :
    Fin * result FinalizeMsg :=
  match own_vote E MyKey b with
  | None => (s, Err "locked validator key has been destroyed")
  | Some v =>
      match handleVote E i c v s with
      | (s1, Err e) => (s1, Err e)
      | (s1, Ok _) =>
          match save_through (SaveLocalFinalityVote i (local_record v)) s1 with
          | Err e => (halt s1, Err e)
          | Ok s2 => (set_local (Some v) s2, Ok v)
          end
      end
  end.

End Votes.

(** ** What one vote does *)

Section Cases.
Variable order : gmap string (list byte) -> list (string * list byte).

(** The state with the vote recorded. *)
Definition counted (v : FinalizeMsg) (s : Fin) : Fin := record_vote v (open_votes v s).

Definition admitted (E : Env) (v : FinalizeMsg) : Prop :=
  vt_ValidatorPub v ∈ committee E /\
  authentic (fork E) (vt_ValidatorPub v) (vt_Height v) (vt_BlockHash v) (vt_Signature v) = true.

Inductive vote_effect (E : Env) (i : io) (c : Chain) (v : FinalizeMsg) (s : Fin) : Fin -> Prop :=
| ve_none : vote_effect E i c v s s
| ve_staged :
    admitted E v -> (size (futureVotes s) < futureVoteLimit)%nat -> futureVotes s !! vote_key v = None ->
    vote_effect E i c v s (set_future (<[vote_key v := v]> (futureVotes s)) s)
| ve_counted b s' :
    admitted E v -> GetByHeight c (vt_Height v) = Some b -> height_of b = vt_Height v -> block_Hash b = vt_BlockHash v ->
    vt_Height v ∉ finalized s -> votes_for s (vt_BlockHash v) !! pub_hex (vt_ValidatorPub v) = None ->
    s' = counted v s \/ s' = prune (vt_Height v) (counted v s) \/
    (quorum E <= Z.of_nat (size (votes_for (counted v s) (vt_BlockHash v))) /\
     exists s1, certify order i v (counted v s) = Ok s1 /\ s' = prune (vt_Height v) s1) ->
    vote_effect E i c v s s'.

Lemma votes_for_open v s h : votes_for (open_votes v s) h = votes_for s h.
Proof.
  unfold open_votes. case_bool_decide as Hs; [done|]. unfold votes_for. cbn.
  destruct (decide (h = vt_BlockHash v)) as [->|Hn]; [|by rewrite lookup_insert_ne].
  rewrite lookup_insert_eq. by apply eq_None_not_Some in Hs as ->.
Qed.

Lemma open_votes_dup v s id sig : votes_for s (vt_BlockHash v) !! id = Some sig -> open_votes v s = s.
Proof.
  unfold votes_for, open_votes. intros Hs. destruct (votes s !! vt_BlockHash v) eqn:Ev; [|done].
  by rewrite (bool_decide_eq_true_2 _ (mk_is_Some _ _ eq_refl)).
Qed.

Lemma handleVote_effect E i c v s :
  vote_effect E i c v s (fst (handleVote order E i c v s)).
Proof.
  unfold handleVote.
  destruct (isKnownValidator (committee E) (vt_ValidatorPub v)) eqn:Ek; cbn [negb]; [|constructor].
  apply isKnownValidator_spec in Ek.
  destruct (authentic _ _ _ _ _) eqn:Ea; cbn [negb]; [|constructor].
  assert (Hadm : admitted E v) by done.
  destruct (GetByHeight c (vt_Height v)) as [b|] eqn:Eb.
  - destruct (Z.eqb_spec (height_of b) (vt_Height v)) as [Eh|]; cbn [negb orb]; [|constructor].
    case_bool_decide as Ex; cbn [negb]; [|constructor]. unfold count_vote, IsFinalized.
    case_bool_decide as Ef; [constructor|].
    case_bool_decide as Ed.
    + destruct Ed as [sig Ed]. rewrite votes_for_open in Ed. cbn [fst].
      rewrite (open_votes_dup _ _ _ _ Ed). constructor.
    + rewrite votes_for_open in Ed. apply eq_None_not_Some in Ed. fold (counted v s).
      destruct (Z.leb_spec (quorum E) (Z.of_nat (size (votes_for (counted v s) (vt_BlockHash v))))) as [Hq|Hq].
      * destruct (certify order i v (counted v s)) as [s1|e] eqn:Ec; cbn [fst];
          eapply ve_counted; eauto 10.
      * cbn [fst]. eapply ve_counted; eauto.
  - unfold stage_vote. destruct (tip c) as [t|]; [|constructor].
    destruct (_ || _ || _); [constructor|]. case_bool_decide as E1; [constructor|].
    case_bool_decide as E2; [constructor|]. destruct (Nat.leb_spec futureVoteLimit (size (futureVotes s))); [constructor|].
    apply ve_staged; [done|done|]. by apply eq_None_not_Some.
Qed.

End Cases.

End Finality.

End Finality.
