(* ===== verification/FinalityRestore.v ===== *)
(** Finality across a restart: the restore functions of [consensus/poa.go], the
    committee migration of [consensus/finality_migration.go], and what their checks
    amount to.

    The durable chain is the block store of [BlockStore]; [NewEngine] restores the
    certificate first and the local vote second, and halts on either error. *)

From stdpp Require Import base gmap list strings.
From S2P Require Import Prelude Bytes Crypto Transaction Block Chain Staking KeyValue BlockStore.
From S2P Require Import Quorum FinalityStore Finality.
Import Transaction Block Chain Staking KeyValue BlockStore Quorum FinalityStore Finality.

Module FinalityRestore.

(** The part of the configuration the restore reads. *)
Record RestoreConfig := mkRestoreConfig {
  FinalityMigration : option FinalityCommitteeMigration;
  FinalityMigrationTrustAuthorities : list ValidatorPubKey
}.

Section Restore.
Context `{Crypto} `{J : BlockJson}.
Variable E : Env.

(** [isZeroFinalityValidator]. *)
Definition isZeroFinalityValidator (key : ValidatorPubKey) : bool :=
  if negb (bool_decide (length key = 32%nat)) then false else forallb (fun b => bool_decide (b = x00)) key.

(** A set of distinct keys collected from a list, each checked first. *)
Definition collect {A} (key : A -> ValidatorPubKey) (ok : gset string -> A -> bool) (err : string) (l : list A) :
    result (gset string) :=
  foldM (fun seen a => reject negb (ok seen a) with err ;; Ok ({[pub_hex (key a)]} ∪ seen)) ∅ l.

(** [uint32(math.Round(BFTThreshold * 1_000_000))], when it is a proper fraction. *)
Definition threshold_ppm (threshold : float64) : option Z :=
  match threshold with
  | SpecFloat.S754_nan | SpecFloat.S754_infinity _ => None
  | _ =>
      let r := f64_round (f64_mul threshold (f64_of_Z 1000000)) in
      if f64_lt r (f64_of_Z 1) || negb (f64_lt r (f64_of_Z 1000000)) then None else Some (f64_int r)
  end.

Definition durable_tip_matches (m : KV) (t : Block) : bool :=
  let '(storedHash, storedHeight) := GetTip m in
  (storedHeight =? height_of t) && bool_decide (storedHash = block_Hash t).

(** [GetCanonicalHash] as the callers use it: found and equal. *)
Definition canonical_is (m : KV) (height : Z) (hash : Hash32) : bool :=
  match GetCanonicalHash m height with Ok (Some h) => bool_decide (h = hash) | _ => false end.

Definition verifyFinalityCommitteeMigration (cfg : RestoreConfig) (m : KV) (c : Chain) (certificate : FinalityCertificate) :
    result (list ValidatorPubKey) :=
  need migration from FinalityMigration cfg else "finality migration: missing migration, certificate, or store" ;;
  need g from genesis c else "finality migration: network genesis mismatch" ;;
  need t from tip c else "finality migration: network genesis mismatch" ;;
  reject negb (bool_decide (fm_Genesis migration = block_Hash g)) with "finality migration: network genesis mismatch" ;;
  reject negb (CertificateHeight migration =? fc_Height certificate) ||
         negb (bool_decide (CertificateBlockHash migration = fc_BlockHash certificate))
    with "finality migration: certificate binding mismatch" ;;
  reject height_of t <? ApprovalHeight migration with "finality migration: approval anchor is above the canonical tip" ;;
  reject negb (durable_tip_matches m t) with "finality migration: durable tip does not match the canonical chain" ;;
  reject negb (canonical_is m (ApprovalHeight migration) (ApprovalBlockHash migration))
    with "finality migration: approval anchor is not canonical" ;;
  reject negb (bool_decide (threshold_ppm (BFTThreshold E) = Some (BFTThresholdPPM migration)))
    with "finality migration: quorum rule does not match node configuration" ;;
  let authorities := FinalityMigrationTrustAuthorities cfg in
  reject bool_decide (authorities = []) || (256 <? Z.of_nat (length authorities))
    with "finality migration: explicit trust authorities are required" ;;
  trusted ← collect id (fun seen a => bool_decide (length a = 32%nat) && negb (isZeroFinalityValidator a) &&
                                      bool_decide (pub_hex a ∉ seen))
              "finality migration: malformed or duplicate trust authority" authorities;
  message ← SigningMessage migration;
  verified ← collect ap_Validator (fun seen a => bool_decide (pub_hex (ap_Validator a) ∈ trusted) &&
                 bool_decide (pub_hex (ap_Validator a) ∉ seen) &&
                 pub_verify (Authority (fork E) (ap_Validator a) (ApprovalHeight migration)) message (ap_Signature a))
               "finality migration: invalid, duplicate, or untrusted approval" (Approvals migration);
  reject Z.of_nat (size verified) <? needed (length authorities) (BFTThreshold E)
    with "finality migration: too few approvals" ;;
  Ok (HistoricalCommittee migration).

(** The certified block is on the durable chain, at or below the tip. *)
Definition bound_to_chain (m : KV) (t : Block) (certificate : FinalityCertificate) : result () :=
  reject height_of t <? fc_Height certificate with "finality: certificate is above the canonical tip" ;;
  if fc_Height certificate =? height_of t then
    reject negb (bool_decide (block_Hash t = fc_BlockHash certificate)) with "finality: certificate does not match the canonical tip" ;;
    Ok ()
  else
    reject negb (durable_tip_matches m t) with "finality: stored tip does not match the canonical chain" ;;
    indexed ← GetCanonicalHash m (fc_Height certificate);
    reject negb (bool_decide (indexed = Some (fc_BlockHash certificate)))
      with "finality: certificate does not match the canonical height index" ;;
    need raw from GetRawBlock m (fc_BlockHash certificate) else "finality: certified canonical block body unavailable" ;;
    need b from unmarshal_block raw else "finality: decode certified canonical block" ;;
    reject negb (height_of b =? fc_Height certificate) || negb (bool_decide (block_Hash b = fc_BlockHash certificate))
      with "finality: certified block body does not match the canonical height index" ;;
    Ok ().

(** The votes of the certificate make a quorum of the committee. *)
Definition check_votes (members : list ValidatorPubKey) (certificate : FinalityCertificate) : result () :=
  let ids : gset string := list_to_set (pub_hex <$> members) in
  seen ← collect fv_Validator (fun seen v => bool_decide (pub_hex (fv_Validator v) ∈ ids) &&
             bool_decide (pub_hex (fv_Validator v) ∉ seen) &&
             authentic (fork E) (fv_Validator v) (fc_Height certificate) (fc_BlockHash certificate) (fv_Signature v))
           "finality: invalid, duplicate, or non-committee certificate vote" (fc_Votes certificate);
  reject Z.of_nat (size seen) <? needed (length members) (BFTThreshold E) with "finality: certificate has too few votes" ;;
  Ok ().

Definition restoreFinalityCertificate (cfg : RestoreConfig) (i : io) (m : KV) (c : Chain) (s : Fin) : result Fin :=
  let configured := bool_decide (is_Some (FinalityMigration cfg)) || bool_decide (FinalityMigrationTrustAuthorities cfg <> []) in
  match db s with
  | None => reject configured with "finality: migration configured without a durable store" ;; Ok s
  | Some d =>
      oc ← LoadFinalityCertificate i d;
      match oc with
      | None => reject configured with "finality: migration configured without its durable certificate" ;; Ok s
      | Some certificate =>
          need t from tip c else "finality: certificate is above the canonical tip" ;;
          _ ← bound_to_chain m t certificate;
          members ← (match FinalityMigration cfg with
                     | Some _ => verifyFinalityCommitteeMigration cfg m c certificate
                     | None =>
                         reject bool_decide (FinalityMigrationTrustAuthorities cfg <> [])
                           with "finality: migration authorities configured without a migration file" ;;
                         Ok (committee E)
                     end);
          _ ← check_votes members certificate;
          Ok (mark_final (fc_Height certificate) (fc_BlockHash certificate) s)
      end
  end.

(** ** The local vote *)

(** The walk of [verifyLocalVoteAncestry] from the tip down; [fuel] is the number of
    heights from the tip to the genesis. *)
Fixpoint ancestry (fuel : nat) (m : KV) (height : Z) (hash : Hash32) (voteHeight : Z) (voteHash : Hash32) : result () :=
  match fuel with
  | O => Err "local vote height is below durable genesis"
  | S fuel' =>
      reject negb (canonical_is m height hash) with "canonical height index conflicts with durable tip ancestry" ;;
      need raw from GetRawBlock m hash else "block in local vote ancestry is unavailable" ;;
      need b from unmarshal_block raw else "decode block in local vote ancestry" ;;
      reject negb (height_of b =? height) || negb (bool_decide (block_Hash b = hash))
        with "block body conflicts with durable tip ancestry" ;;
      if height =? voteHeight then
        reject negb (bool_decide (hash = voteHash)) with "local vote block is not an ancestor of the durable tip" ;; Ok ()
      else if height =? 0 then Err "local vote height is below durable genesis"
      else ancestry fuel' m (height - 1) (PrevHash (Header b)) voteHeight voteHash
  end.

Definition verifyLocalVoteAncestry (m : KV) (c : Chain) (voteHeight : Z) (voteHash : Hash32) : result () :=
  let '(tipHash, tipHeight) := GetTip m in
  reject bool_decide (tipHash = zeroHash) || (tipHeight <? voteHeight) with "local vote is above the durable tip" ;;
  need t from tip c else "durable tip does not match the in-memory canonical tip" ;;
  reject negb (height_of t =? tipHeight) || negb (bool_decide (block_Hash t = tipHash))
    with "durable tip does not match the in-memory canonical tip" ;;
  ancestry (Z.to_nat tipHeight + 1) m tipHeight tipHash voteHeight voteHash.

Definition restoreLocalFinalityVote (i : io) (m : KV) (c : Chain) (s : Fin) : result Fin :=
  match db s with
  | None => Ok s
  | Some d =>
      ov ← LoadLocalFinalityVote i d;
      match ov with
      | None => Ok s
      | Some v =>
          reject negb (isKnownValidator (committee E) (lv_Validator v)) with "local vote signer is not a current validator" ;;
          reject negb (authentic (fork E) (lv_Validator v) (lv_Height v) (lv_BlockHash v) (lv_Signature v))
            with "local vote signature is invalid" ;;
          _ ← verifyLocalVoteAncestry m c (lv_Height v) (lv_BlockHash v);
          Ok (set_local (Some (mkVote (lv_BlockHash v) (lv_Height v) (lv_Validator v) (lv_Signature v))) s)
      end
  end.

(** [LatestLocalVote]: a vote off the durable chain halts consensus. *)
Definition LatestLocalVote (m : KV) (c : Chain) (s : Fin) : Fin * option FinalizeMsg :=
  match latestLocalVote s with
  | None => (s, None)
  | Some v =>
      match verifyLocalVoteAncestry m c (vt_Height v) (vt_BlockHash v) with
      | Err _ => (halt s, None)
      | Ok _ => (s, Some v)
      end
  end.

(** The two restores of [NewEngine]; either error halts the engine. *)
Definition restoreFinality (cfg : RestoreConfig) (i : io) (m : KV) (c : Chain) (s : Fin) : Fin :=
  let s1 := match restoreFinalityCertificate cfg i m c s with Ok s' => s' | Err _ => halt s end in
  match restoreLocalFinalityVote i m c s1 with Ok s' => s' | Err _ => halt s1 end.

End Restore.

(** ** What the checks amount to *)

Section Restarts.
Context `{Crypto} `{J : BlockJson}.

(** Members of a set of identities, each once and each checked. *)
Lemma collect_spec {A} (key : A -> ValidatorPubKey) ok err (P : A -> Prop) l (acc seen : gset string) :
  (forall (s : gset string) a, ok s a = true <-> P a /\ pub_hex (key a) ∉ s) ->
  foldM (fun seen a => reject negb (ok seen a) with err ;; Ok ({[pub_hex (key a)]} ∪ seen)) acc l = Ok seen <->
  Forall P l /\ NoDup (pub_hex ∘ key <$> l) /\ Forall (fun a => pub_hex (key a) ∉ acc) l /\
  seen = list_to_set (pub_hex ∘ key <$> l) ∪ acc.
Proof.
  intros Hok. revert acc. induction l as [|a l IH]; intros acc; cbn [foldM].
  { split; [intros ->%Ok_inj|intros (_ & _ & _ & ->)]; [split_and!; [done|constructor|done|]|f_equal]; set_solver. }
  cbn [fmap list_fmap list_to_set]. rewrite list.NoDup_cons, !list.Forall_cons.
  destruct (ok acc a) eqn:Ea; cbn [negb mbind result_bind].
  - apply Hok in Ea as [Ha Hna]. rewrite IH. rewrite list_elem_of_fmap.
    setoid_rewrite not_elem_of_union. setoid_rewrite not_elem_of_singleton. rewrite list.Forall_and, !list.Forall_forall.
    split.
    + intros (HP & Hn & [Hne Hacc] & ->). split_and!; try done; [|set_solver].
      intros (w & Hw & Hin). cbn in Hw. by apply (Hne w Hin).
    + intros ([_ HP] & [Hni Hn] & [_ Hacc] & ->). split_and!; try done; [|set_solver].
      intros w Hw Heq. apply Hni. by exists w.
  - split; [done|]. intros ([Ha _] & _ & [Hna _] & _). assert (ok acc a = true) by by apply Hok. congruence.
Qed.

Lemma collect_ok {A} (key : A -> ValidatorPubKey) ok err (P : A -> Prop) l (seen : gset string) :
  (forall (s : gset string) a, ok s a = true <-> P a /\ pub_hex (key a) ∉ s) ->
  collect key ok err l = Ok seen <->
  Forall P l /\ NoDup (key <$> l) /\ seen = list_to_set (pub_hex ∘ key <$> l).
Proof.
  intros Hok. unfold collect. rewrite (collect_spec key ok err P l ∅ seen Hok), list_fmap_compose.
  rewrite (right_id_L ∅ (∪)). split.
  - intros (HP & Hn & _ & ->). apply list.NoDup_fmap_1 in Hn. done.
  - intros (HP & Hn & ->). split_and!; [done|by apply (list.NoDup_fmap_2 hex_encode)| |done].
    apply list.Forall_forall. set_solver.
Qed.

Lemma collected_size {A} (key : A -> ValidatorPubKey) (l : list A) : NoDup (key <$> l) ->
  size (list_to_set (pub_hex ∘ key <$> l) : gset string) = length l.
Proof.
  intros Hn. rewrite size_list_to_set, length_fmap; [done|]. rewrite list_fmap_compose.
  by apply (list.NoDup_fmap_2 hex_encode).
Qed.

Lemma pub_hex_member (k : ValidatorPubKey) (l : list ValidatorPubKey) :
  pub_hex k ∈ (list_to_set (pub_hex <$> l) : gset string) <-> k ∈ l.
Proof.
  rewrite elem_of_list_to_set, list_elem_of_fmap. split; [|naive_solver].
  intros (k' & Hk & Hin). by apply (inj hex_encode) in Hk as <-.
Qed.

(** The votes of a certificate that count for the committee [members]. *)
Definition certifies (E : Env) (members : list ValidatorPubKey) (cert : FinalityCertificate) : Prop :=
  NoDup (fv_Validator <$> fc_Votes cert) /\
  Forall (fun v => fv_Validator v ∈ members /\
    authentic (fork E) (fv_Validator v) (fc_Height cert) (fc_BlockHash cert) (fv_Signature v) = true) (fc_Votes cert) /\
  needed (length members) (BFTThreshold E) <= Z.of_nat (length (fc_Votes cert)).

Lemma check_votes_spec E members cert : check_votes E members cert = Ok () <-> certifies E members cert.
Proof.
  unfold check_votes, certifies.
  set (P := fun v => fv_Validator v ∈ members /\
    authentic (fork E) (fv_Validator v) (fc_Height cert) (fc_BlockHash cert) (fv_Signature v) = true).
  set (ok := fun (s : gset string) v => _).
  assert (Hok : forall s v, ok s v = true <-> P v /\ pub_hex (fv_Validator v) ∉ s).
  { intros s v. unfold ok, P. rewrite !andb_true_iff, !bool_decide_eq_true, pub_hex_member. tauto. }
  split.
  - intros (seen & Hs & Hq)%bind_ok. apply (collect_ok _ _ _ _ _ _ Hok) in Hs as (HP & Hn & ->).
    apply reject_ok in Hq as [Hq _]. rewrite collected_size in Hq by done. zbool. done.
  - intros (Hn & HP & Hq). rewrite (proj2 (collect_ok _ _ _ _ _ _ Hok)) by eauto. cbn [mbind result_bind].
    rewrite collected_size by done. by rewrite (proj2 (Z.ltb_ge _ _) Hq).
Qed.

(** What the restore asks of the certified block: it is the tip in memory, or below it
    the durable tip is the tip in memory, the height index names the block and its
    stored body has this height and hash.  The ancestry of the durable tip is not part
    of it. *)
Definition on_chain (m : KV) (t : Block) (ht : Z) (h : Hash32) : Prop :=
  (ht = height_of t /\ block_Hash t = h) \/
  (ht < height_of t /\ GetTip m = (block_Hash t, height_of t) /\ GetCanonicalHash m ht = Ok (Some h) /\
   exists raw b, GetRawBlock m h = Some raw /\ unmarshal_block raw = Some b /\ height_of b = ht /\ block_Hash b = h).

Lemma durable_tip_spec m t : durable_tip_matches m t = true <-> GetTip m = (block_Hash t, height_of t).
Proof.
  unfold durable_tip_matches. destruct (GetTip m) as [h ht]. rewrite andb_true_iff, Z.eqb_eq, bool_decide_eq_true. naive_solver.
Qed.

Lemma bound_to_chain_spec m t cert :
  bound_to_chain m t cert = Ok () <-> on_chain m t (fc_Height cert) (fc_BlockHash cert).
Proof.
  unfold bound_to_chain, on_chain. destruct (Z.ltb_spec (height_of t) (fc_Height cert)) as [Hlt|Hle].
  { split; [done|]. intros [[? _]|[? _]]; lia. }
  destruct (Z.eqb_spec (fc_Height cert) (height_of t)) as [He|Hne].
  { case_bool_decide; cbn [negb]; (split; [naive_solver|intros [[_ ?]|[? _]]; [done|lia]]). }
  rewrite <- durable_tip_spec. destruct (durable_tip_matches m t); cbn [negb]; [|split; [done|naive_solver lia]].
  destruct (GetCanonicalHash m (fc_Height cert)) as [oh|e]; cbn [mbind result_bind]; [|split; [done|naive_solver lia]].
  case_bool_decide as Hoh; cbn [negb]; [|split; [done|naive_solver lia]]. subst oh.
  destruct (GetRawBlock m (fc_BlockHash cert)) as [raw|]; [|split; [done|naive_solver lia]].
  destruct (unmarshal_block raw) as [b|] eqn:Eb; [|split; [done|naive_solver lia]].
  destruct (Z.eqb_spec (height_of b) (fc_Height cert)); cbn [negb orb]; [|split; [done|naive_solver lia]].
  case_bool_decide; cbn [negb]; (split; [|naive_solver lia]); [|done]. intros _. right. split; [lia|]. naive_solver.
Qed.

(** A quorum of the trust authorities signed the migration, which names the
    certificate and a canonical anchor block. *)
Definition approved (E : Env) (cfg : RestoreConfig) (m : KV) (c : Chain) (cert : FinalityCertificate)
    (mig : FinalityCommitteeMigration) : Prop :=
  (exists g, genesis c = Some g /\ fm_Genesis mig = block_Hash g) /\
  CertificateHeight mig = fc_Height cert /\ CertificateBlockHash mig = fc_BlockHash cert /\
  canonical_is m (ApprovalHeight mig) (ApprovalBlockHash mig) = true /\
  NoDup (ap_Validator <$> Approvals mig) /\
  (exists message, SigningMessage mig = Ok message /\
     Forall (fun a => ap_Validator a ∈ FinalityMigrationTrustAuthorities cfg /\
       pub_verify (Authority (fork E) (ap_Validator a) (ApprovalHeight mig)) message (ap_Signature a) = true) (Approvals mig)) /\
  needed (length (FinalityMigrationTrustAuthorities cfg)) (BFTThreshold E) <= Z.of_nat (length (Approvals mig)).

Lemma migration_sound E cfg m c cert mig members :
  FinalityMigration cfg = Some mig -> verifyFinalityCommitteeMigration E cfg m c cert = Ok members ->
  members = HistoricalCommittee mig /\ approved E cfg m c cert mig.
Proof.
  intros Hmig. unfold verifyFinalityCommitteeMigration. rewrite Hmig.
  destruct (genesis c) as [g|] eqn:Eg; [|done]. destruct (tip c) as [t|]; [|done].
  intros (H1 & Hv)%reject_ok. apply reject_ok in Hv as (H2 & Hv). apply reject_ok in Hv as (_ & Hv).
  apply reject_ok in Hv as (_ & Hv). apply reject_ok in Hv as (H5 & Hv). apply reject_ok in Hv as (_ & Hv).
  apply reject_ok in Hv as (_ & Hv). apply bind_ok in Hv as (trusted & Ht & Hv). apply bind_ok in Hv as (msg & Hmsg & Hv).
  apply bind_ok in Hv as (verified & Hver & Hv). apply reject_ok in Hv as (Hq & Hv). apply Ok_inj in Hv as <-. zbool.
  apply (collect_ok _ _ _ (fun a => length a = 32%nat /\ isZeroFinalityValidator a = false)) in Ht as (_ & _ & ->); cycle 1.
  { intros s a. unfold id. rewrite !andb_true_iff, !bool_decide_eq_true, negb_true_iff. tauto. }
  rewrite list_fmap_compose, list_fmap_id in Hver.
  apply (collect_ok _ _ _ (fun a => ap_Validator a ∈ FinalityMigrationTrustAuthorities cfg /\
    pub_verify (Authority (fork E) (ap_Validator a) (ApprovalHeight mig)) msg (ap_Signature a) = true)) in Hver as (Hf & Hn & ->); cycle 1.
  { intros s a. rewrite !andb_true_iff, !bool_decide_eq_true, pub_hex_member. tauto. }
  rewrite collected_size in Hq by done. unfold approved. split; [done|]. split_and!; eauto; naive_solver.
Qed.

(** ** The certificate *)

(** Every way the restore of the certificate succeeds. *)
Lemma restore_certificate_cases (E : Env) (cfg : RestoreConfig) (i : io) (m : KV) (c : Chain)
    (s s' : Fin) :
  restoreFinalityCertificate E cfg i m c s = Ok s' ->
  s' = s \/
  exists d cert t members, db s = Some d /\ certificateSlot d = Stored cert /\ tip c = Some t /\
    s' = mark_final (fc_Height cert) (fc_BlockHash cert) s /\
    on_chain m t (fc_Height cert) (fc_BlockHash cert) /\ certifies E members cert /\
    match FinalityMigration cfg with
    | None => members = committee E
    | Some mig => members = HistoricalCommittee mig /\ approved E cfg m c cert mig
    end.
Proof.
  unfold restoreFinalityCertificate. destruct (db s) as [d|]; [|intros (_ & <-%Ok_inj)%reject_ok; by left].
  intros (oc & Hl & Hr)%bind_ok. destruct oc as [cert|]; [|apply reject_ok in Hr as (_ & <-%Ok_inj); by left]. right.
  unfold LoadFinalityCertificate in Hl. apply reject_ok in Hl as (_ & Hl).
  destruct (certificateSlot d) as [| |cert'] eqn:Ec; [done|done|]. apply reject_ok in Hl as (_ & [= <-]).
  destruct (tip c) as [t|] eqn:Et; [|done]. apply bind_ok in Hr as ([] & Hb & Hr). apply bind_ok in Hr as (members & Hm & Hr).
  apply bind_ok in Hr as ([] & Hv & <-%Ok_inj).
  exists d, cert', t, members. split_and!; [done|done|done|done|by apply bound_to_chain_spec|by apply check_votes_spec|].
  destruct (FinalityMigration cfg) as [mig|] eqn:Emig; [by apply migration_sound|].
  by apply reject_ok in Hm as (_ & <-%Ok_inj).
Qed.

(** ** The ancestry walk *)

(** [linked m ht h vh vhash]: durable blocks lead from [h] at [ht] down by their
    [PrevHash] to [vhash] at [vh], each indexed at its height. *)
Inductive linked (m : KV) : Z -> Hash32 -> Z -> Hash32 -> Prop :=
| linked_here ht h raw b :
    canonical_is m ht h = true -> GetRawBlock m h = Some raw -> unmarshal_block raw = Some b ->
    height_of b = ht -> block_Hash b = h -> linked m ht h ht h
| linked_up ht h raw b vh vhash :
    canonical_is m ht h = true -> GetRawBlock m h = Some raw -> unmarshal_block raw = Some b ->
    height_of b = ht -> block_Hash b = h ->
    linked m (ht - 1) (PrevHash (Header b)) vh vhash -> linked m ht h vh vhash.

Lemma linked_le m ht h vh vhash : linked m ht h vh vhash -> vh <= ht.
Proof. induction 1; lia. Qed.

Lemma ancestry_sound fuel m ht h vh vhash : ancestry fuel m ht h vh vhash = Ok () -> linked m ht h vh vhash.
Proof.
  revert ht h. induction fuel as [|fuel IH]; intros ht h Ha; cbn [ancestry] in Ha; [done|].
  apply reject_ok in Ha as (H1 & Ha). destruct (GetRawBlock m h) as [raw|] eqn:Er; [|done].
  destruct (unmarshal_block raw) as [b|] eqn:Eb; [|done]. apply reject_ok in Ha as (H2 & Ha).
  apply orb_false_iff in H2 as [H2 H3]. zbool.
  destruct (Z.eqb_spec ht vh) as [<-|].
  - apply reject_ok in Ha as (H4 & _). zbool. subst vhash. by eapply linked_here.
  - destruct (ht =? 0); [done|]. eapply linked_up; eauto.
Qed.

Lemma ancestry_complete m ht h vh vhash : linked m ht h vh vhash -> 0 <= vh ->
  forall fuel, (Z.to_nat ht < fuel)%nat -> ancestry fuel m ht h vh vhash = Ok ().
Proof.
  intros L Hv. assert (Hle := linked_le _ _ _ _ _ L). revert Hle.
  induction L as [ht h raw b H1 H2 H3 H4 H5|ht h raw b vh vhash H1 H2 H3 H4 H5 L IH]; intros Hle fuel Hf;
    (destruct fuel as [|fuel]; [lia|]); cbn [ancestry]; rewrite H1, H2, H3, H4, H5, Z.eqb_refl, (bool_decide_eq_true_2 _ eq_refl); cbn [negb orb].
  - done.
  - assert (Hlt := linked_le _ _ _ _ _ L). rewrite (proj2 (Z.eqb_neq ht vh)), (proj2 (Z.eqb_neq ht 0)) by lia.
    apply IH; [done|lia..].
Qed.

End Restarts.

End FinalityRestore.
