(* ===== verification/FinalitySafety.v ===== *)
(** What the finality protocol of [Finality] guarantees: every finalized block has
    a quorum of authentic votes, conflicting finalized blocks expose more than a
    third of the committee, a node never broadcasts two votes for one height, and a
    quorum of votes finalizes its block. *)

From stdpp Require Import base gmap list strings.
From S2P Require Import Prelude Bytes Crypto Transaction Block Chain Staking KeyValue BlockStore.
From S2P Require Import Quorum FinalityStore Finality FinalityRestore.
Import Transaction Block Chain Staking KeyValue BlockStore Quorum FinalityStore Finality FinalityRestore.

Module FinalitySafety.

(** ** The life of a node *)

Section Life.
Context `{Crypto} `{J : BlockJson}.

(** [order] visits each entry of a map once. *)
Definition visits (order : gmap string (list byte) -> list (string * list byte)) : Prop :=
  forall m, order m ≡ₚ map_to_list m.

(** The canonical chains of a run hold each block at its height, and two blocks of
    the run that share a hash are one block. *)
Definition chain_in (world : gmap Hash32 Block) (c : Chain) : Prop :=
  forall h b, GetByHeight c h = Some b -> height_of b = h /\ world !! block_Hash b = Some b.

(** So are the tip in memory and the stored bodies a restart reads. *)
Definition boots_in (world : gmap Hash32 Block) (m : KV) (c : Chain) : Prop :=
  (forall t, tip c = Some t -> world !! block_Hash t = Some t) /\
  (forall h raw b, GetRawBlock m h = Some raw -> unmarshal_block raw = Some b -> world !! block_Hash b = Some b).

(** The votes of the certificate in the store. *)
Definition certificate_log (od : option DB) : list FinalizeMsg :=
  match certificateSlot <$> od with
  | Some (Stored cert) => (fun v => mkVote (fc_BlockHash cert) (fc_Height cert) (fv_Validator v) (fv_Signature v)) <$> fc_Votes cert
  | _ => []
  end.

(** The committee a restart checks them against. *)
Definition restart_env (E : Env) (cfg : RestoreConfig) : Env :=
  mkEnv (fork E) (match FinalityMigration cfg with Some mig => HistoricalCommittee mig | None => committee E end)
    (BFTThreshold E).

(** The states of a node with fork [f] whose engine is first made over the database
    [d]: peer votes, accepted blocks, its own votes and restarts, in any order.  A
    restart makes fresh fields over the database of the moment and runs the restores
    of [NewEngine], which can also halt; the first start is one too.  [envs] are the
    environments of the steps so far, [log] the votes handled (the node's own and
    those of a certificate read back among them) and [out] the votes broadcast,
    latest first. *)
Inductive life (world : gmap Hash32 Block) (f : option ValidatorAuthorityFork) (d : option DB) :
    list Env -> list FinalizeMsg -> Fin -> list FinalizeMsg -> Prop :=
| life_start : life world f d [] [] (fresh_fin d) []
| life_vote envs log s out E i c order v :
    life world f d envs log s out -> visits order -> chain_in world c -> fork E = f ->
    life world f d (E :: envs) (v :: log) (fst (handleVote order E i c v s)) out
| life_block envs log s out E i c order ro ob :
    life world f d envs log s out -> visits order -> chain_in world c -> fork E = f ->
    (forall m, ro m ≡ₚ map_to_list m) ->
    life world f d (E :: envs) log (replayFutureVotes order ro E i c ob s) out
| life_cast envs log s out E i c order MyKey b :
    life world f d envs log s out -> visits order -> chain_in world c -> fork E = f ->
    world !! block_Hash b = Some b ->
    life world f d (E :: envs) (option_list (own_vote E MyKey b) ++ log)
      (fst (castVote order E i c MyKey b s))
      (match snd (castVote order E i c MyKey b s) with Ok v => v :: out | Err _ => out end)
| life_restart envs log s out E cfg i m c :
    life world f d envs log s out -> boots_in world m c -> fork E = f ->
    life world f d (restart_env E cfg :: envs) (certificate_log (db s) ++ log)
      (restoreFinality E cfg i m c (fresh_fin (db s))) out.

End Life.

Section Safety.
Context `{Crypto} `{J : BlockJson}.
Context (world : gmap Hash32 Block) (f : option ValidatorAuthorityFork) (d0 : option DB).

(** ** The invariant *)

(** A handled vote for the block [h] by a committee member, at the height of [h]. *)
Definition good_vote (envs : list Env) (log : list FinalizeMsg) (h : Hash32) (v : FinalizeMsg) : Prop :=
  v ∈ log /\ vt_BlockHash v = h /\
  (exists b, world !! h = Some b /\ height_of b = vt_Height v) /\
  (exists E, E ∈ envs /\ vt_ValidatorPub v ∈ committee E) /\
  authentic f (vt_ValidatorPub v) (vt_Height v) h (vt_Signature v) = true.

(** Distinct members whose votes for [h] make the quorum of one of the committees. *)
Definition quorum_for (envs : list Env) (log : list FinalizeMsg) (ht : Z) (h : Hash32) (signers : list FinalizeMsg) : Prop :=
  NoDup (vt_ValidatorPub <$> signers) /\
  Forall (fun v => good_vote envs log h v /\ vt_Height v = ht) signers /\
  exists E, E ∈ envs /\ quorum E <= Z.of_nat (length signers).

Definition certificate_of (ht : Z) (h : Hash32) (signers : list FinalizeMsg) : FinalityCertificate :=
  mkCertificate 1 ht h ((fun v => mkFinalityVote (vt_ValidatorPub v) (vt_Signature v)) <$> signers).

Record fin_ok (envs : list Env) (log : list FinalizeMsg) (s : Fin) : Prop := {
  fi_dom : dom (votes s) = dom (pendingVoteHeight s);
  fi_votes : forall h id sig, votes_for s h !! id = Some sig ->
    exists v, good_vote envs log h v /\ id = pub_hex (vt_ValidatorPub v) /\ sig = vt_Signature v;
  fi_pending : forall h ht, pendingVoteHeight s !! h = Some ht -> exists b, world !! h = Some b /\ height_of b = ht;
  fi_staged : (size (futureVotes s) <= futureVoteLimit)%nat;
  fi_logged : forall k v, futureVotes s !! k = Some v -> k = vote_key v /\ v ∈ log;
  fi_marks : dom (lpodFinalizedHashes s) = finalized s;
  fi_final : forall ht h, lpodFinalizedHashes s !! ht = Some h -> exists signers, quorum_for envs log ht h signers;
  fi_db : forall d, db s = Some d ->
    (exists d', d0 = Some d' /\ certificateSlot d = certificateSlot d') \/
    exists ht h signers, certificateSlot d = Stored (certificate_of ht h signers) /\ quorum_for envs log ht h signers
}.

Lemma good_vote_mono envs envs' log log' h v :
  envs ⊆ envs' -> log ⊆ log' -> good_vote envs log h v -> good_vote envs' log' h v.
Proof. intros He Hl (H1 & H2 & H3 & (E & HE & HM) & H5). unfold good_vote. split_and!; eauto. Qed.

Lemma quorum_for_mono envs envs' log log' ht h l :
  envs ⊆ envs' -> log ⊆ log' -> quorum_for envs log ht h l -> quorum_for envs' log' ht h l.
Proof.
  intros He Hl (H1 & H2 & E & HE & HQ). split; [done|]. split; [|eauto].
  eapply list.Forall_impl; [exact H2|]. intros v [Hv Hh]. split; [|done]. by eapply good_vote_mono.
Qed.

Lemma fin_ok_mono envs envs' log log' s :
  envs ⊆ envs' -> log ⊆ log' -> fin_ok envs log s -> fin_ok envs' log' s.
Proof.
  intros He Hl [H1 H2 H3 H4 H5 H6 H7 H8]. split; try done.
  - intros h id sig Hs. destruct (H2 h id sig Hs) as (v & Hv & ?). eauto using good_vote_mono.
  - intros k v Hk. destruct (H5 k v Hk). split; [done|]. by apply Hl.
  - intros ht h Hm. destruct (H7 ht h Hm) as [l Hq]. eauto using quorum_for_mono.
  - intros d Hd. destruct (H8 d Hd) as [?|(ht & h & l & Hc & Hq)]; [by left|]. right. eauto 6 using quorum_for_mono.
Qed.

(** ** Preservation *)

Section Steps.
Variable order : gmap string (list byte) -> list (string * list byte).
Hypothesis Hvisits : visits order.

Lemma votes_for_record v s h :
  votes_for (record_vote v s) h =
  if decide (h = vt_BlockHash v) then <[pub_hex (vt_ValidatorPub v) := vt_Signature v]> (votes_for s (vt_BlockHash v))
  else votes_for s h.
Proof.
  unfold record_vote, votes_for at 1. cbn. destruct (decide _) as [->|Hn]; [by rewrite lookup_insert_eq|].
  by rewrite lookup_insert_ne.
Qed.

Lemma votes_for_counted v s h :
  votes_for (counted v s) h =
  if decide (h = vt_BlockHash v) then <[pub_hex (vt_ValidatorPub v) := vt_Signature v]> (votes_for s (vt_BlockHash v))
  else votes_for s h.
Proof. unfold counted. rewrite votes_for_record, !votes_for_open. done. Qed.

Lemma counted_rest v s :
  finalized (counted v s) = finalized s /\ futureVotes (counted v s) = futureVotes s /\
  lpodFinalizedHashes (counted v s) = lpodFinalizedHashes s /\ db (counted v s) = db s.
Proof. unfold counted, record_vote, open_votes. by case_bool_decide. Qed.

Lemma counted_pending v s :
  pendingVoteHeight (counted v s) =
  if bool_decide (is_Some (votes s !! vt_BlockHash v)) then pendingVoteHeight s
  else <[vt_BlockHash v := vt_Height v]> (pendingVoteHeight s).
Proof. unfold counted, record_vote, open_votes. by case_bool_decide. Qed.

Lemma counted_ok envs log v b s :
  fin_ok envs log s -> good_vote envs log (vt_BlockHash v) v ->
  world !! vt_BlockHash v = Some b -> height_of b = vt_Height v -> fin_ok envs log (counted v s).
Proof.
  intros [H1 H2 H3 H4 H5 H6 H7 H8] Hg Hb Hh. destruct (counted_rest v s) as (E1 & E2 & E3 & E4).
  split; rewrite ?E1, ?E2, ?E3, ?E4; try done.
  - rewrite counted_pending. unfold counted, record_vote, open_votes. cbn. case_bool_decide as Hs; cbn.
    + rewrite dom_insert_L, H1. apply elem_of_dom in Hs. rewrite H1 in Hs. set_solver.
    + rewrite !dom_insert_L, H1. set_solver.
  - intros h id sig. rewrite votes_for_counted. destruct (decide _) as [->|Hn]; [|apply H2].
    intros [[<- <-]|[Hne Hs]]%lookup_insert_Some; [eauto|]. by apply H2.
  - intros h ht. rewrite counted_pending. case_bool_decide; [apply H3|].
    intros [[<- <-]|[_ Hs]]%lookup_insert_Some; [eauto|]. by apply H3.
Qed.

Lemma prune_ok envs log ht s : fin_ok envs log s -> fin_ok envs log (prune ht s).
Proof.
  intros [H1 H2 H3 H4 H5 H6 H7 H8]. unfold prune. destruct (ht <=? votePruneDepth); [by split|].
  set (below := ht -w votePruneDepth). split; cbn; try done.
  - apply set_eq. intros h. rewrite !elem_of_dom. unfold is_Some. setoid_rewrite map_lookup_filter_Some. cbn.
    split.
    + intros [m [Hm Hk]]. assert (Hd : h ∈ dom (votes s)) by (apply elem_of_dom; eauto). rewrite H1 in Hd.
      apply elem_of_dom in Hd as [p Hp]. rewrite Hp in Hk. apply negb_true_iff in Hk. eexists. eauto.
    + intros [p [Hp Hk]]. assert (Hd : h ∈ dom (pendingVoteHeight s)) by (apply elem_of_dom; eauto). rewrite <- H1 in Hd.
      apply elem_of_dom in Hd as [m Hm]. exists m. split; [done|]. rewrite Hp. by apply negb_true_iff.
  - intros h id sig Hs. apply (H2 h id sig). unfold votes_for in *. cbn in Hs.
    destruct (filter _ (votes s) !! h) as [m|] eqn:Em; [|done]. apply map_lookup_filter_Some in Em as [-> _]. done.
  - intros h p [Hp _]%map_lookup_filter_Some. by apply H3.
  - apply set_eq. intros h. rewrite elem_of_dom, elem_of_filter. unfold is_Some. setoid_rewrite map_lookup_filter_Some. cbn.
    rewrite <- H6, elem_of_dom. split.
    + intros [x [Hx Hk]]. split; [|eauto]. rewrite (bool_decide_eq_true_2 _) in Hk by (apply elem_of_dom; eauto). done.
    + intros [Hk [x Hx]]. exists x. split; [done|]. rewrite Hk. by rewrite andb_false_r.
  - intros p h [Hp _]%map_lookup_filter_Some. by apply H7.
Qed.

Lemma certificate_votes_of (ls : list FinalizeMsg) vs :
  certificate_votes ((fun v => (pub_hex (vt_ValidatorPub v), vt_Signature v)) <$> ls) = Ok vs ->
  vs = (fun v => mkFinalityVote (vt_ValidatorPub v) (vt_Signature v)) <$> ls.
Proof.
  revert vs. induction ls as [|v ls IH]; intros vs Hc; cbn in Hc; [by apply Ok_inj in Hc as <-|].
  apply bind_ok in Hc as (w & Hw & Hc). apply bind_ok in Hc as (ws & Hws & Hc). apply Ok_inj in Hc as <-.
  apply IH in Hws as ->. unfold certificate_vote, pub_hex in Hw. cbn [fst snd] in Hw.
  rewrite hex_decode_encode in Hw. apply reject_ok in Hw as [_ Hw]. by apply Ok_inj in Hw as <-.
Qed.

(** The entries of a map, as the votes behind them. *)
Lemma entries_votes {A B} (P : B -> Prop) (g : B -> A) (l : list A) :
  (forall a, a ∈ l -> exists b, P b /\ a = g b) -> exists bs, l = g <$> bs /\ Forall P bs.
Proof.
  induction l as [|a l IH]; intros Hl; [by exists []|].
  destruct (Hl a) as (b & Hb & ->); [left|]. destruct IH as (bs & -> & Hbs); [intros; apply Hl; by right|].
  exists (b :: bs). split; [done|]. by constructor.
Qed.

Lemma recorded_signers envs log s h b :
  fin_ok envs log s -> world !! h = Some b ->
  exists ls, order (votes_for s h) = (fun v => (pub_hex (vt_ValidatorPub v), vt_Signature v)) <$> ls /\
    NoDup (vt_ValidatorPub <$> ls) /\ length ls = size (votes_for s h) /\
    Forall (fun v => good_vote envs log h v /\ vt_Height v = height_of b) ls.
Proof.
  intros Hs Hb. destruct (entries_votes (fun v => good_vote envs log h v /\ vt_Height v = height_of b)
    (fun v => (pub_hex (vt_ValidatorPub v), vt_Signature v)) (order (votes_for s h))) as (ls & El & Hls).
  { intros [id sig] Hin. rewrite (Hvisits (votes_for s h)) in Hin. apply elem_of_map_to_list in Hin.
    destruct (fi_votes _ _ _ Hs h id sig Hin) as (v & Hv & -> & ->). exists v. split; [split; [done|]|done].
    destruct Hv as (_ & _ & (b' & Hb' & <-) & _). congruence. }
  exists ls. split; [done|]. assert (Hp := Hvisits (votes_for s h)). rewrite El in Hp. split_and!; [| |done].
  - assert (Hn : NoDup (pub_hex <$> (vt_ValidatorPub <$> ls))); [|by eapply list.NoDup_fmap_1].
    rewrite <- list_fmap_compose. apply (fmap_Permutation fst) in Hp. rewrite <- list_fmap_compose in Hp.
    change (fst ∘ _) with (pub_hex ∘ vt_ValidatorPub) in Hp. rewrite Hp. apply NoDup_fst_map_to_list.
  - apply Permutation_length in Hp. rewrite length_fmap in Hp. rewrite Hp. apply length_map_to_list.
Qed.

Lemma certify_ok envs log E i v b s s1 :
  fin_ok envs log s -> E ∈ envs -> world !! vt_BlockHash v = Some b -> height_of b = vt_Height v ->
  quorum E <= Z.of_nat (size (votes_for s (vt_BlockHash v))) ->
  certify order i v s = Ok s1 -> fin_ok envs log s1.
Proof.
  intros Hs HE Hb Hh Hq Hc. destruct (recorded_signers _ _ _ _ _ Hs Hb) as (ls & El & Hn & Hl & Hg).
  assert (Hquorum : quorum_for envs log (vt_Height v) (vt_BlockHash v) ls).
  { split; [done|]. split; [by rewrite <- Hh|]. exists E. by rewrite Hl. }
  unfold certify in Hc. rewrite El in Hc. apply bind_ok in Hc as (vs & Hvs & Hc). apply certificate_votes_of in Hvs as ->.
  apply bind_ok in Hc as (s0 & Hsave & Hc). apply Ok_inj in Hc as <-.
  fold (certificate_of (vt_Height v) (vt_BlockHash v) ls) in Hsave.
  assert (Hd : (s0 = s /\ db s = None) \/
    exists d, s0 = set_db (Some d) s /\ certificateSlot d = Stored (certificate_of (vt_Height v) (vt_BlockHash v) ls)).
  { unfold save_through in Hsave. destruct (db s) as [d|]; [|left; by apply Ok_inj in Hsave as <-]. right.
    apply bind_ok in Hsave as (d' & Hd & Hsave). apply Ok_inj in Hsave as <-.
    apply SaveFinalityCertificate_ok in Hd as (-> & _). eauto. }
  destruct Hs as [H1 H2 H3 H4 H5 H6 H7 H8].
  assert (Hrest : forall s', votes s' = votes s -> pendingVoteHeight s' = pendingVoteHeight s ->
    finalized s' = finalized s -> futureVotes s' = futureVotes s -> lpodFinalizedHashes s' = lpodFinalizedHashes s ->
    (forall d, db s' = Some d -> (exists d', d0 = Some d' /\ certificateSlot d = certificateSlot d') \/
       exists ht h l, certificateSlot d = Stored (certificate_of ht h l) /\ quorum_for envs log ht h l) ->
    fin_ok envs log (drop_votes (vt_BlockHash v) (mark_final (vt_Height v) (vt_BlockHash v) s'))).
  { intros s' E1 E2 E3 E4 E5 E6. split; cbn; rewrite ?E1, ?E2, ?E3, ?E4, ?E5; try done.
    - by rewrite !dom_delete_L, H1.
    - intros h id sig Hin. apply (H2 h id sig). unfold votes_for in *. cbn in Hin. rewrite E1 in Hin.
      destruct (decide (h = vt_BlockHash v)) as [->|]; [by rewrite lookup_delete_eq in Hin|by rewrite lookup_delete_ne in Hin].
    - intros h ht [_ Hp]%lookup_delete_Some. by apply H3.
    - by rewrite dom_insert_L, H6.
    - intros ht h [[<- <-]|[_ Hp]]%lookup_insert_Some; [eauto|by apply H7]. }
  destruct Hd as [[-> Hnone]|(d & -> & Hd)]; apply Hrest; try done.
  cbn. intros d' [= <-]. right. eauto.
Qed.

Lemma handleVote_ok envs log E i c v s :
  fin_ok envs log s -> chain_in world c -> fork E = f -> E ∈ envs -> v ∈ log ->
  fin_ok envs log (fst (handleVote order E i c v s)).
Proof.
  intros Hs Hc Hf HE Hlog. destruct (handleVote_effect order E i c v s) as [|_ Hlt Hnew|b s' [Hmem Hauth] Hb Hh Hx Hfin Hnone Hcase]; [done| |].
  - destruct Hs as [H1 H2 H3 H4 H5 H6 H7 H8]. split; cbn; try done.
    + rewrite map_size_insert_None by done. lia.
    + intros k w [[<- <-]|[_ Hk]]%lookup_insert_Some; [done|by apply H5].
  - destruct (Hc _ _ Hb) as [_ Hw]. rewrite Hx in Hw.
    assert (Hcount : fin_ok envs log (counted v s)).
    { eapply counted_ok; [done| |done|done]. split_and!; eauto. by rewrite <- Hf. }
    destruct Hcase as [->|[->|(Hq & s1 & Hcert & ->)]]; [done|by apply prune_ok|].
    apply prune_ok. eapply certify_ok; eauto.
Qed.

Lemma replay_ok envs log E i c ro ob s :
  fin_ok envs log s -> chain_in world c -> fork E = f -> E ∈ envs -> (forall m, ro m ≡ₚ map_to_list m) ->
  fin_ok envs log (replayFutureVotes order ro E i c ob s).
Proof.
  intros Hs Hc Hf HE Hro. unfold replayFutureVotes. destruct ob as [b|]; [|done].
  assert (Hin : Forall (.∈ log) (snd <$> filter (fun e => due b e = true) (ro (futureVotes s)))).
  { apply list.Forall_forall. intros v ([k v'] & -> & [_ Hk]%list_elem_of_filter)%list_elem_of_fmap.
    rewrite Hro in Hk. apply elem_of_map_to_list in Hk. by apply (fi_logged _ _ _ Hs) in Hk as [_ Hk]. }
  assert (Hs1 : fin_ok envs log (set_future (filter (fun e : futureVoteKey * FinalizeMsg => (e.1.1.1 <=? height_of b) = false) (futureVotes s)) s)).
  { destruct Hs as [H1 H2 H3 H4 H5 H6 H7 H8]. split; cbn; try done.
    - etransitivity; [|exact H4]. apply map_subseteq_size, map_filter_subseteq.
    - intros k v [Hk _]%map_lookup_filter_Some. by apply H5. }
  revert Hin Hs1. generalize (snd <$> filter (fun e => due b e = true) (ro (futureVotes s))).
  generalize (set_future (filter (fun e : futureVoteKey * FinalizeMsg => (e.1.1.1 <=? height_of b) = false) (futureVotes s)) s).
  clear Hs s. intros s l. revert s. induction l as [|v l IH]; intros s Hin Hs; [done|].
  apply list.Forall_cons in Hin as [Hv Hin]. cbn. apply IH; [done|]. by apply handleVote_ok.
Qed.

Lemma cast_ok envs log E i c MyKey b s :
  fin_ok envs log s -> chain_in world c -> fork E = f -> E ∈ envs -> option_list (own_vote E MyKey b) ⊆ log ->
  fin_ok envs log (fst (castVote order E i c MyKey b s)).
Proof.
  intros Hs Hc Hf HE Hlog. unfold castVote. destruct (own_vote E MyKey b) as [v|]; [|done].
  assert (Hh := handleVote_ok envs log E i c v s Hs Hc Hf HE (Hlog v ltac:(left))).
  destruct (handleVote order E i c v s) as [s1 [[]|e]]; [|done]. cbn [fst] in Hh.
  unfold save_through. destruct (db s1) as [d|] eqn:Ed.
  - destruct (SaveLocalFinalityVote i (local_record v) d) as [d'|e] eqn:Esave; cbn [mbind result_bind fst].
    + apply SaveLocalFinalityVote_ok in Esave as (-> & _). destruct Hh as [H1 H2 H3 H4 H5 H6 H7 H8].
      split; cbn; try done. intros d' [= <-]. by apply (H8 d).
    + destruct Hh. by split.
  - destruct Hh. by split.
Qed.

End Steps.

Lemma fresh_ok envs log d :
  (forall d1, d = Some d1 -> (exists d', d0 = Some d' /\ certificateSlot d1 = certificateSlot d') \/
     exists ht h l, certificateSlot d1 = Stored (certificate_of ht h l) /\ quorum_for envs log ht h l) ->
  fin_ok envs log (fresh_fin d).
Proof.
  intros Hd. split; cbn; try done. rewrite map_size_empty. apply Nat.le_0_l.
Qed.

Lemma start_ok : fin_ok [] [] (fresh_fin d0).
Proof. apply fresh_ok. intros d ->. left. eauto. Qed.

(** ** Restarts *)

Lemma set_local_ok envs log v s : fin_ok envs log s -> fin_ok envs log (set_local v s).
Proof. by intros []. Qed.

Lemma halt_ok envs log s : fin_ok envs log s -> fin_ok envs log (halt s).
Proof. by intros []. Qed.

Lemma mark_final_ok envs log ht h q s :
  quorum_for envs log ht h q -> fin_ok envs log s -> fin_ok envs log (mark_final ht h s).
Proof.
  intros Hq [H1 H2 H3 H4 H5 H6 H7 H8]. split; cbn; try done.
  - by rewrite dom_insert_L, H6.
  - intros ht' h' [[<- <-]|[_ Hp]]%lookup_insert_Some; [eauto|by apply H7].
Qed.

(** The block of a certificate that passed the check is a block of the run. *)
Lemma on_chain_world m c t ht h : boots_in world m c -> tip c = Some t -> on_chain m t ht h ->
  exists b, world !! h = Some b /\ height_of b = ht.
Proof.
  intros [Ht Hm] Et [[-> <-]|(_ & _ & _ & raw & b & Hr & Hu & <- & <-)]; [eauto|].
  exists b. split; [|done]. by eapply Hm.
Qed.

Lemma certificate_quorum envs log E cfg members d cert m c t :
  boots_in world m c -> fork E = f -> tip c = Some t -> certificateSlot d = Stored cert ->
  on_chain m t (fc_Height cert) (fc_BlockHash cert) -> certifies E members cert ->
  members = committee (restart_env E cfg) ->
  quorum_for (restart_env E cfg :: envs) (certificate_log (Some d) ++ log) (fc_Height cert) (fc_BlockHash cert)
    (certificate_log (Some d)).
Proof.
  intros Hw Hf Ht Hc Hon (Hn & Hv & Hq) Em. destruct (on_chain_world _ _ _ _ _ Hw Ht Hon) as (b & Hb & Hh).
  unfold certificate_log. cbn [fmap option_fmap option_map]. rewrite Hc. split; [by rewrite <- list_fmap_compose|].
  split; [|exists (restart_env E cfg); split; [left|]; rewrite length_fmap; unfold quorum; by rewrite <- Em].
  apply list.Forall_forall. intros v Hin. assert (Hin' := Hin). apply list_elem_of_fmap in Hin' as (fv & -> & Hfv). cbn.
  rewrite list.Forall_forall in Hv. destruct (Hv fv Hfv) as [Hm Ha]. split; [|done].
  split; [apply elem_of_app; by left|]. split; [done|]. split; [cbn; eauto|].
  split; [exists (restart_env E cfg); split; [left|by rewrite <- Em]|by rewrite <- Hf].
Qed.

Lemma restart_ok envs log s E cfg i m c :
  fin_ok envs log s -> boots_in world m c -> fork E = f ->
  fin_ok (restart_env E cfg :: envs) (certificate_log (db s) ++ log) (restoreFinality E cfg i m c (fresh_fin (db s))).
Proof.
  intros Hs Hw Hf.
  assert (Hfresh : fin_ok (restart_env E cfg :: envs) (certificate_log (db s) ++ log) (fresh_fin (db s))).
  { eapply fin_ok_mono; [| |apply fresh_ok; exact (fi_db _ _ _ Hs)]; [intros ??; by right|intros ?; rewrite elem_of_app; auto]. }
  unfold restoreFinality. cbv zeta. set (s1 := match restoreFinalityCertificate _ _ _ _ _ _ with Ok _ => _ | Err _ => _ end).
  assert (H1 : fin_ok (restart_env E cfg :: envs) (certificate_log (db s) ++ log) s1).
  { subst s1. destruct (restoreFinalityCertificate E cfg i m c (fresh_fin (db s))) as [s'|e] eqn:Er; [|by apply halt_ok].
    apply restore_certificate_cases in Er as [->|(d & cert & t & members & Hd & Hc & Ht & -> & Hon & Hv & Hm)]; [done|].
    cbn in Hd. rewrite Hd in Hfresh |- *. eapply mark_final_ok; [|done]. eapply certificate_quorum; try done.
    unfold restart_env. cbn. destruct (FinalityMigration cfg); [by destruct Hm|done]. }
  clearbody s1. unfold restoreLocalFinalityVote. destruct (db s1) as [d|]; [|done].
  destruct (LoadLocalFinalityVote i d) as [[v|]|e]; cbn [mbind result_bind]; [|done|by apply halt_ok].
  destruct (negb _); cbn [mbind result_bind]; [by apply halt_ok|].
  destruct (negb _); cbn [mbind result_bind]; [by apply halt_ok|].
  destruct (verifyLocalVoteAncestry _ _ _ _); cbn [mbind result_bind]; [by apply set_local_ok|by apply halt_ok].
Qed.

(** A restart leaves the database alone. *)
Lemma restore_db E cfg i m c s : db (restoreFinality E cfg i m c s) = db s.
Proof.
  unfold restoreFinality. cbv zeta. set (s1 := match restoreFinalityCertificate _ _ _ _ _ _ with Ok _ => _ | Err _ => _ end).
  assert (H1 : db s1 = db s).
  { subst s1. destruct (restoreFinalityCertificate E cfg i m c s) as [s'|e] eqn:Er; [|done].
    by apply restore_certificate_cases in Er as [->|(d & cert & t & members & _ & _ & _ & -> & _)]. }
  rewrite <- H1. clearbody s1. unfold restoreLocalFinalityVote. destruct (db s1) as [d|] eqn:Ed; [|done].
  destruct (LoadLocalFinalityVote i d) as [[v|]|e]; cbn [mbind result_bind]; [|done|done].
  destruct (negb _); cbn [mbind result_bind]; [done|]. destruct (negb _); cbn [mbind result_bind]; [done|].
  by destruct (verifyLocalVoteAncestry _ _ _ _).
Qed.

Lemma life_ok envs log s out : life world f d0 envs log s out -> fin_ok envs log s.
Proof.
  induction 1 as [|envs log s out E i c order v _ IH Hv Hc Hf|envs log s out E i c order ro ob _ IH Hv Hc Hf Hro
    |envs log s out E i c order K b _ IH Hv Hc Hf Hw|envs log s out E cfg i m c _ IH Hw Hf].
  - apply start_ok.
  - apply handleVote_ok; [done| |done|done|left|left]. eapply fin_ok_mono; [| |exact IH]; intros ??; by right.
  - apply replay_ok; [done| |done|done|left|done]. eapply fin_ok_mono; [| |exact IH]; [intros ??; by right|done].
  - apply cast_ok; [done| |done|done|left|intros ?; rewrite elem_of_app; auto].
    eapply fin_ok_mono; [| |exact IH]; [intros ??; by right|intros ?; rewrite elem_of_app; auto].
  - by apply (restart_ok envs log s E cfg i m c).
Qed.

End Safety.

(** ** Accountability *)

Section Accountability.
Context `{Crypto} `{J : BlockJson}.
Context (world : gmap Hash32 Block) (f : option ValidatorAuthorityFork).

(** Every step of the run had the committee [V] and the threshold 0.667. *)
Definition constant_committee (V : list ValidatorPubKey) (envs : list Env) : Prop :=
  forall E, E ∈ envs -> committee E = V /\ BFTThreshold E = two_thirds.

Lemma quorum_for_members V envs log ht h signers :
  (1 <= length V <= 256)%nat -> constant_committee V envs -> quorum_for world f envs log ht h signers ->
  (vt_ValidatorPub <$> signers) ⊆ V /\ 2 * Z.of_nat (length V) < 3 * Z.of_nat (length (vt_ValidatorPub <$> signers)).
Proof.
  intros HV Hc (_ & Hg & E & HE & Hq). rewrite length_fmap. split.
  - intros k (v & -> & Hv)%list_elem_of_fmap. rewrite list.Forall_forall in Hg.
    destruct (Hg v Hv) as [(_ & _ & _ & (E' & HE' & Hm) & _) _]. by destruct (Hc E' HE') as [<- _].
  - destruct (Hc E HE) as [E1 E2]. unfold quorum in Hq. rewrite E1, E2 in Hq.
    destruct (needed_range (length V) HV). lia.
Qed.

Lemma signer_vote envs log ht h signers k :
  quorum_for world f envs log ht h signers -> k ∈ vt_ValidatorPub <$> signers ->
  exists v, v ∈ log /\ vt_ValidatorPub v = k /\ vt_Height v = ht /\ vt_BlockHash v = h /\
    authentic f k ht h (vt_Signature v) = true.
Proof.
  intros (_ & Hg & _) (v & -> & Hv)%list_elem_of_fmap. rewrite list.Forall_forall in Hg.
  destruct (Hg v Hv) as [(H1 & H2 & _ & _ & H5) <-]. exists v. split_and!; done.
Qed.

Lemma finalized_accused d1 d2 V envs1 envs2 log1 log2 s1 s2 out1 out2 ht x y :
  life world f d1 envs1 log1 s1 out1 -> life world f d2 envs2 log2 s2 out2 ->
  (1 <= length V <= 256)%nat -> constant_committee V envs1 -> constant_committee V envs2 ->
  lpodFinalizedHashes s1 !! ht = Some x -> lpodFinalizedHashes s2 !! ht = Some y ->
  exists accused : list ValidatorPubKey, NoDup accused /\ (length V < 3 * length accused)%nat /\
    forall k, k ∈ accused -> k ∈ V /\ exists v1 v2, v1 ∈ log1 /\ v2 ∈ log2 /\
      vt_ValidatorPub v1 = k /\ vt_ValidatorPub v2 = k /\ vt_Height v1 = ht /\ vt_Height v2 = ht /\
      vt_BlockHash v1 = x /\ vt_BlockHash v2 = y /\
      authentic f k ht x (vt_Signature v1) = true /\ authentic f k ht y (vt_Signature v2) = true.
Proof.
  intros L1 L2 HV C1 C2 F1 F2.
  destruct (fi_final _ _ _ _ _ _ (life_ok _ _ _ _ _ _ _ L1) ht x F1) as [q1 Q1].
  destruct (fi_final _ _ _ _ _ _ (life_ok _ _ _ _ _ _ _ L2) ht y F2) as [q2 Q2].
  destruct (quorum_for_members _ _ _ _ _ _ HV C1 Q1) as [M1 N1].
  destruct (quorum_for_members _ _ _ _ _ _ HV C2 Q2) as [M2 N2].
  assert (Ho := quorums_overlap V _ _ (proj1 Q1) (proj1 Q2) M1 M2 N1 N2).
  exists (filter (.∈ vt_ValidatorPub <$> q2) (vt_ValidatorPub <$> q1)).
  split; [apply list.NoDup_filter, (proj1 Q1)|]. split; [lia|].
  intros k [K2 K1]%list_elem_of_filter. split; [by apply M1|].
  destruct (signer_vote _ _ _ _ _ _ Q1 K1) as (v1 & ? & ? & ? & ? & ?).
  destruct (signer_vote _ _ _ _ _ _ Q2 K2) as (v2 & ? & ? & ? & ? & ?). exists v1, v2. done.
Qed.

(** ** The node's own votes *)

(** The durable record is at least as high as every vote broadcast, and names the
    block of those at its height. *)
Definition recorded (d : DB) (out : list FinalizeMsg) : Prop :=
  forall v, v ∈ out -> exists p, localVoteSlot d = Stored p /\ vt_Height v <= lv_Height p /\
    (vt_Height v = lv_Height p -> vt_BlockHash v = lv_BlockHash p).

Lemma recorded_same_slot d d' out : localVoteSlot d' = localVoteSlot d -> recorded d out -> recorded d' out.
Proof. unfold recorded. by intros ->. Qed.

Lemma prune_db ht s : db (prune ht s) = db s.
Proof. unfold prune. by destruct (ht <=? votePruneDepth). Qed.

Lemma certify_local order i v s s1 d :
  certify order i v s = Ok s1 -> db s = Some d -> exists d', db s1 = Some d' /\ localVoteSlot d' = localVoteSlot d.
Proof.
  unfold certify, save_through. intros (vs & _ & (s0 & Hs & <-%Ok_inj)%bind_ok)%bind_ok Hd. rewrite Hd in Hs.
  apply bind_ok in Hs as (d' & Hs & <-%Ok_inj). apply SaveFinalityCertificate_ok in Hs as (-> & _). eauto.
Qed.

Lemma handleVote_local order E i c v s d :
  db s = Some d -> exists d', db (fst (handleVote order E i c v s)) = Some d' /\ localVoteSlot d' = localVoteSlot d.
Proof.
  intros Hd. destruct (handleVote_effect order E i c v s) as [| |b s' _ _ _ _ _ _ Hcase]; [eauto|eauto|].
  destruct (counted_rest v s) as (_ & _ & _ & Edb).
  destruct Hcase as [->|[->|(_ & s1 & Hc & ->)]]; rewrite ?prune_db; [rewrite Edb; eauto|rewrite Edb; eauto|].
  eapply certify_local; [done|]. by rewrite Edb.
Qed.

Lemma replay_local order ro E i c ob s d :
  db s = Some d -> exists d', db (replayFutureVotes order ro E i c ob s) = Some d' /\ localVoteSlot d' = localVoteSlot d.
Proof.
  intros Hd. unfold replayFutureVotes. destruct ob as [b|]; [|eauto].
  generalize (snd <$> filter (fun e => due b e = true) (ro (futureVotes s))). intros l.
  match goal with |- context [foldl _ ?s1 l] => assert (Hd1 : db s1 = Some d) by done; revert Hd1; generalize s1 end.
  clear s Hd. intros s Hd. revert s d Hd. induction l as [|v l IH]; intros s d Hd; cbn; [eauto|].
  destruct (handleVote_local order E i c v s d Hd) as (d1 & Hd1 & <-). by apply IH.
Qed.

Lemma cast_recorded order E i c MyKey b s d out :
  db s = Some d -> recorded d out -> exists d', db (fst (castVote order E i c MyKey b s)) = Some d' /\
    recorded d' (match snd (castVote order E i c MyKey b s) with Ok v => v :: out | Err _ => out end) /\
    (forall w, snd (castVote order E i c MyKey b s) = Ok w -> localVoteSlot d' = Stored (local_record w)).
Proof.
  intros Hd Hr. unfold castVote. destruct (own_vote E MyKey b) as [v|]; [|exists d; done].
  destruct (handleVote_local order E i c v s d Hd) as (d1 & Hd1 & Hl).
  destruct (handleVote order E i c v s) as [s1 [[]|e]]; cbn [fst snd] in *;
    [|exists d1; split_and!; [done|by eapply recorded_same_slot|done]].
  unfold save_through. rewrite Hd1.
  destruct (SaveLocalFinalityVote i (local_record v) d1) as [d2|e] eqn:Es; cbn [mbind result_bind fst snd];
    [|exists d1; split_and!; [done|by eapply recorded_same_slot|done]].
  apply SaveLocalFinalityVote_ok in Es as (-> & _ & Hp). eexists. split; [done|]. split; [|by intros w [= <-]].
  intros w [->|Hw]%elem_of_cons; [exists (local_record v); cbn; split_and!; [done|lia|done]|].
  destruct (Hr w Hw) as (p & Hs & H1 & H2). rewrite <- Hl in Hs. destruct (Hp p Hs) as [P1 P2]. cbn in P1, P2.
  exists (local_record v). cbn. split_and!; [done|lia|]. intros Heq.
  destruct P2 as [P2 _]; [lia|]. rewrite H2 by lia. done.
Qed.

Lemma life_recorded d envs log s out :
  life world f (Some d) envs log s out -> exists d', db s = Some d' /\ recorded d' out.
Proof.
  induction 1 as [|envs log s out E i c order v _ IH _ _ _|envs log s out E i c order ro ob _ IH _ _ _ _
    |envs log s out E i c order K b _ IH _ _ _ _|envs log s out E cfg i m c _ IH _ _]; [|destruct IH as (d1 & Hd & Hr)..].
  - exists d. split; [done|]. by intros v Hv%not_elem_of_nil.
  - destruct (handleVote_local order E i c v s d1 Hd) as (d2 & ? & ?). eauto using recorded_same_slot.
  - destruct (replay_local order ro E i c ob s d1 Hd) as (d2 & ? & ?). eauto using recorded_same_slot.
  - destruct (cast_recorded order E i c K b s d1 out Hd Hr) as (d2 & ? & ? & _). eauto.
  - exists d1. by rewrite restore_db.
Qed.

(** A vote is broadcast at the height of its block. *)
Lemma life_broadcast d envs log s out v :
  life world f d envs log s out -> v ∈ out -> exists b, world !! vt_BlockHash v = Some b /\ height_of b = vt_Height v.
Proof.
  induction 1 as [|envs log s out E i c order w _ IH _ _ _|envs log s out E i c order ro ob _ IH _ _ _ _
    |envs log s out E i c order K b _ IH _ _ _ Hb|envs log s out E cfg i m c _ IH _ _]; [by intros ?%not_elem_of_nil|done|done| |done].
  unfold castVote. unfold own_vote. destruct (ed25519_sign K _) as [sig|]; [|done]. cbn [mbind option_bind].
  destruct (handleVote order E i c _ s) as [s1 [[]|e]]; [|done].
  destruct (save_through _ s1); [|done]. cbn [snd]. intros [->|Hv]%elem_of_cons; [cbn; eauto|auto].
Qed.

Lemma broadcast_unique d envs log s out v1 v2 :
  life world f (Some d) envs log s out -> v1 ∈ out -> v2 ∈ out -> vt_Height v1 = vt_Height v2 ->
  vt_BlockHash v1 = vt_BlockHash v2.
Proof.
  intros L. revert v1 v2. remember (Some d) as od eqn:Hod.
  induction L as [|envs log s out E i c order w _ IH _ _ _|envs log s out E i c order ro ob _ IH _ _ _ _
    |envs log s out E i c order K b L IH _ _ _ Hb|envs log s out E cfg i m c _ IH _ _];
    [by intros ?? ?%not_elem_of_nil|by apply IH|by apply IH| |by apply IH].
  subst od. destruct (life_recorded _ _ _ _ _ L) as (d1 & Hd & Hr).
  destruct (cast_recorded order E i c K b s d1 out Hd Hr) as (d2 & _ & Hr2 & Hslot).
  destruct (snd (castVote order E i c K b s)) as [w|e]; [|by apply IH]. specialize (Hslot w eq_refl).
  assert (Hw : forall v, v ∈ w :: out -> vt_Height v = vt_Height w -> vt_BlockHash v = vt_BlockHash w).
  { intros v Hv Hh. destruct (Hr2 v Hv) as (p & Hp & _ & He). rewrite Hslot in Hp. injection Hp as <-. by apply He. }
  intros v1 v2 H1 H2 Hh. apply elem_of_cons in H1 as [->|H1], H2 as [->|H2]; [done| | |by apply IH].
  - symmetry. apply Hw; [by right|done].
  - apply Hw; [by right|done].
Qed.

Lemma finalized_height d V envs log s out ht x :
  life world f d envs log s out -> (1 <= length V <= 256)%nat -> constant_committee V envs ->
  lpodFinalizedHashes s !! ht = Some x -> exists b, world !! x = Some b /\ height_of b = ht.
Proof.
  intros L HV C F. destruct (fi_final _ _ _ _ _ _ (life_ok _ _ _ _ _ _ _ L) ht x F) as [q Q].
  destruct (quorum_for_members _ _ _ _ _ _ HV C Q) as [_ N]. destruct Q as (_ & Hg & _).
  destruct q as [|v q]; [simpl in N; lia|]. apply list.Forall_cons in Hg as [[(_ & _ & Hb & _) <-] _]. done.
Qed.

(** A sublist of the committee of more than a third of it has a member outside any
    minority of a third. *)
Lemma one_honest (V honest accused : list ValidatorPubKey) :
  NoDup accused -> accused ⊆ V -> (length V < 3 * length accused)%nat ->
  (3 * length (filter (.∉ honest) V) <= length V)%nat -> exists k, k ∈ accused /\ k ∈ honest.
Proof.
  intros Hn Hs Hl Hm. destruct (decide (Exists (.∈ honest) accused)) as [He|He]; [by apply list.Exists_exists in He|].
  assert (length accused <= length (filter (.∉ honest) V))%nat; [|lia].
  apply submseteq_length, NoDup_submseteq; [done|]. intros k Hk. apply list_elem_of_filter. split; [|by apply Hs].
  intros Hh. apply He, list.Exists_exists. eauto.
Qed.

End Accountability.

(** ** Theorems *)

(** C36: two nodes that run under one committee of 1 to 256 validators and the threshold
    0.667 never have different blocks finalized at one height, whatever peer votes,
    blocks, own votes and restarts (with the restore of the certificate and of the local
    vote from the store) they went through, as long as at most a third of the committee
    is dishonest. A validator is honest when it runs this code over a durable store and
    every authentic vote of it that either node handled or read back was broadcast by
    it: a vote that castVote counted but then failed to record was not (see the
    findings), so a node that did this is not covered as honest. *)
Theorem finality_safe `{Crypto} `{J : BlockJson} (world : gmap Hash32 Block) (f : option ValidatorAuthorityFork)
    (V honest : list ValidatorPubKey)
    (d : ValidatorPubKey -> DB) (envs : ValidatorPubKey -> list Env) (log : ValidatorPubKey -> list FinalizeMsg)
    (st : ValidatorPubKey -> Fin) (out : ValidatorPubKey -> list FinalizeMsg)
    (d1 d2 : option DB) (envs1 envs2 : list Env) (log1 log2 : list FinalizeMsg) (s1 s2 : Fin)
    (out1 out2 : list FinalizeMsg) (ht : Z) (x y : Hash32) :
  life world f d1 envs1 log1 s1 out1 -> life world f d2 envs2 log2 s2 out2 ->
  (1 <= length V <= 256)%nat -> constant_committee V envs1 -> constant_committee V envs2 ->
  (3 * length (filter (.∉ honest) V) <= length V)%nat ->
  (forall k, k ∈ honest -> life world f (Some (d k)) (envs k) (log k) (st k) (out k)) ->
  (forall v, v ∈ log1 ++ log2 -> vt_ValidatorPub v ∈ honest ->
     authentic f (vt_ValidatorPub v) (vt_Height v) (vt_BlockHash v) (vt_Signature v) = true ->
     exists w, w ∈ out (vt_ValidatorPub v) /\ vt_BlockHash w = vt_BlockHash v) ->
  lpodFinalizedHashes s1 !! ht = Some x -> lpodFinalizedHashes s2 !! ht = Some y -> x = y.
Proof.
  intros L1 L2 HV C1 C2 Hmin Hlife Hsig F1 F2.
  destruct (finalized_accused _ _ _ _ _ _ _ _ _ _ _ _ _ _ _ _ L1 L2 HV C1 C2 F1 F2) as (acc & Hn & Hl & Hacc).
  destruct (one_honest V honest acc Hn) as (k & Hk & Hh); [by intros k Hk; apply Hacc|done|done|].
  destruct (finalized_height _ _ _ _ _ _ _ _ _ _ L1 HV C1 F1) as (bx & Wx & Hx).
  destruct (finalized_height _ _ _ _ _ _ _ _ _ _ L2 HV C2 F2) as (by_ & Wy & Hy).
  destruct (Hacc k Hk) as (_ & v1 & v2 & I1 & I2 & <- & P2 & H1 & H2 & B1 & B2 & A1 & A2).
  destruct (Hsig v1) as (w1 & O1 & E1); [apply elem_of_app; by left|done|by rewrite H1, B1|].
  destruct (Hsig v2) as (w2 & O2 & E2); [apply elem_of_app; by right|by rewrite P2|by rewrite P2, H2, B2|].
  rewrite P2 in O2. specialize (Hlife _ Hh).
  destruct (life_broadcast _ _ _ _ _ _ _ _ Hlife O1) as (b1 & W1 & G1).
  destruct (life_broadcast _ _ _ _ _ _ _ _ Hlife O2) as (b2 & W2 & G2).
  rewrite <- B1, <- B2, <- E1, <- E2. eapply broadcast_unique; [exact Hlife|done|done|].
  rewrite E1, B1, Wx in W1. injection W1 as <-. rewrite E2, B2, Wy in W2. injection W2 as <-. congruence.
Qed.

(** C37: a node with a store never broadcasts votes for two different blocks at one
    height, across restarts: the durable record of its last vote refuses the second. *)
Theorem no_equivocation `{Crypto} `{J : BlockJson} (world : gmap Hash32 Block) (f : option ValidatorAuthorityFork) (d : DB)
    (envs : list Env) (log : list FinalizeMsg) (s : Fin) (out : list FinalizeMsg) (v1 v2 : FinalizeMsg) :
  life world f (Some d) envs log s out -> v1 ∈ out -> v2 ∈ out -> vt_Height v1 = vt_Height v2 ->
  vt_BlockHash v1 = vt_BlockHash v2.
Proof. apply broadcast_unique. Qed.

(** ** Witnesses *)

Lemma life_cast_ok `{Crypto} `{J : BlockJson} world f d envs log s out E i c order MyKey b v r :
  life world f d envs log s out -> visits order -> chain_in world c -> fork E = f -> world !! block_Hash b = Some b ->
  own_vote E MyKey b = Some v -> r = castVote order E i c MyKey b s -> snd r = Ok v ->
  life world f d (E :: envs) (v :: log) (fst r) (v :: out).
Proof.
  intros L Ho Hc Hf Hb Hv -> Hs. assert (Hl := life_cast world f d envs log s out E i c order MyKey b L Ho Hc Hf Hb).
  by rewrite Hv, Hs in Hl.
Qed.

Section Example.
#[local] Existing Instance toy_crypto | 0.
#[local] Instance restore_json : BlockJson := {|
  marshal_stored := fun _ => []; unmarshal_stored := fun _ => None;
  unmarshal_block := fun d => if bool_decide (d = [x01]) then Some ex_b1 else if bool_decide (d = [x02]) then Some ex_b2 else None;
  unmarshal_heights := fun _ => None
|}.

(** The durable chain of [ex_c2]. *)
Definition ex_durable : KV :=
  KeyValue.write (tip_ops (block_Hash ex_b2) 2)
    (PutRawBlock (block_Hash ex_b2) 2 [x02] (PutRawBlock (block_Hash ex_b1) 1 [x01] ∅)).
Definition ex_key : list byte := replicate 64 x07.
Definition ex_pub : ValidatorPubKey := key_Public ex_key.
Definition ex_env : Env := mkEnv None [ex_pub] two_thirds.
Definition ex_io : io := mkIO true true.
Definition ex_world : gmap Hash32 Block := blocks ex_c2.
Definition ex_db : DB := mkDB Missing Missing.
Definition ex_cast : Fin * result FinalizeMsg :=
  castVote map_to_list ex_env ex_io ex_c2 ex_key ex_b1 (fresh_fin (Some ex_db)).
Definition ex_vote : FinalizeMsg := match snd ex_cast with Ok v => v | Err _ => mkVote zeroHash 0 [] [] end.

Lemma chain_in_forall w c :
  map_Forall (fun h b => height_of b = h /\ w !! block_Hash b = Some b) (byHeight c) -> chain_in w c.
Proof. intros Hm h b Hb. exact (Hm h b Hb). Qed.

Lemma ex_chain_in : chain_in ex_world ex_c2.
Proof. apply chain_in_forall. apply (bool_decide_unpack _). vm_compute. exact I. Qed.

Lemma ex_own : own_vote ex_env ex_key ex_b1 = Some ex_vote.
Proof. vm_compute. reflexivity. Qed.

Lemma ex_sent : snd ex_cast = Ok ex_vote.
Proof. vm_compute. reflexivity. Qed.

Lemma ex_cast_eq : ex_cast = castVote map_to_list ex_env ex_io ex_c2 ex_key ex_b1 (fresh_fin (Some ex_db)).
Proof. unfold ex_cast. exact eq_refl. Qed.

Lemma ex_life : life ex_world None (Some ex_db) [ex_env] [ex_vote] (fst ex_cast) [ex_vote].
Proof.
  eapply life_cast_ok; [apply life_start| |exact ex_chain_in| | |exact ex_own|exact ex_cast_eq|exact ex_sent];
    [by intros m|exact eq_refl|vm_compute; reflexivity].
Qed.

Lemma ex_final : lpodFinalizedHashes (fst ex_cast) !! 1 = Some (block_Hash ex_b1).
Proof. vm_compute. reflexivity. Qed.

Lemma ex_constant : constant_committee [ex_pub] [ex_env].
Proof. by intros E ->%list_elem_of_singleton. Qed.

(** The same node after a restart. *)
Definition ex_again : Fin :=
  restoreFinality ex_env (mkRestoreConfig None []) ex_io ex_durable ex_c2 (fresh_fin (db (fst ex_cast))).

Lemma one_of_two {A} (P : A -> Prop) (p q : bool) (x y z : A) :
  (if p then Some x else if q then Some y else None) = Some z -> P x -> P y -> P z.
Proof. destruct p; [by intros [= <-]|]. destruct q; [by intros [= <-]|done]. Qed.

Lemma boots_in_two w m c t :
  tip c = Some t -> w !! block_Hash t = Some t -> w !! block_Hash ex_b1 = Some ex_b1 -> w !! block_Hash ex_b2 = Some ex_b2 ->
  boots_in w m c.
Proof.
  intros Ht Hw H1 H2. split; [by rewrite Ht; intros t' [= <-]|]. intros h raw b _ Hu.
  exact (one_of_two (fun b => w !! block_Hash b = Some b) _ _ _ _ _ Hu H1 H2).
Qed.

Lemma ex_boots : boots_in ex_world ex_durable ex_c2.
Proof. apply (boots_in_two _ _ _ ex_b2); vm_compute; reflexivity. Qed.

Definition ex_log : list FinalizeMsg := certificate_log (db (fst ex_cast)) ++ [ex_vote].
Definition ex_envs : list Env := [restart_env ex_env (mkRestoreConfig None []); ex_env].

Lemma ex_life_again : life ex_world None (Some ex_db) ex_envs ex_log ex_again [ex_vote].
Proof. apply life_restart; [exact ex_life|exact ex_boots|exact eq_refl]. Qed.

Lemma ex_final_again : lpodFinalizedHashes ex_again !! 1 = Some (block_Hash ex_b1).
Proof. vm_compute. reflexivity. Qed.

Lemma ex_log_eq : ex_log = [ex_vote; ex_vote].
Proof. vm_compute. reflexivity. Qed.

Lemma all_same (v w : FinalizeMsg) l : l = [w; w] -> v ∈ [w] ++ l -> v = w.
Proof. intros ->. cbn. rewrite !elem_of_cons, elem_of_nil. naive_solver. Qed.

Lemma ex_constant_again : constant_committee [ex_pub] ex_envs.
Proof. intros E [->|[->|HE%not_elem_of_nil]%elem_of_cons]%elem_of_cons; [done|done|done]. Qed.

Lemma finality_safe_witness : block_Hash ex_b1 = block_Hash ex_b1.
Proof.
  apply (finality_safe ex_world None [ex_pub] [ex_pub] (fun _ => ex_db) (fun _ => [ex_env]) (fun _ => [ex_vote])
    (fun _ => fst ex_cast) (fun _ => [ex_vote]) (Some ex_db) (Some ex_db) [ex_env] ex_envs [ex_vote] ex_log
    (fst ex_cast) ex_again [ex_vote] [ex_vote] 1).
  - exact ex_life.
  - exact ex_life_again.
  - simpl. lia.
  - exact ex_constant.
  - exact ex_constant_again.
  - vm_compute. lia.
  - intros k _. exact ex_life.
  - intros v Hv _ _. exists ex_vote. split; [left|]. rewrite (all_same v ex_vote ex_log ex_log_eq Hv). exact eq_refl.
  - exact ex_final.
  - exact ex_final_again.
Defined.

Lemma no_equivocation_witness : vt_BlockHash ex_vote = vt_BlockHash ex_vote.
Proof.
  exact (no_equivocation ex_world None ex_db [ex_env] [ex_vote] (fst ex_cast) [ex_vote] ex_vote ex_vote
    ex_life (list_elem_of_here ex_vote []) (list_elem_of_here ex_vote []) eq_refl).
Defined.

End Example.

End FinalitySafety.
