(* ===== verification/FinalityLive.v ===== *)
(** Liveness of the vote handlers and soundness of the restart: a quorum of votes
    finalizes its block, a restart marks a block final only for a certificate that
    passes every check, and a stored certificate survives it. *)

From stdpp Require Import base gmap list strings.
From S2P Require Import Prelude Bytes Crypto Transaction Block Chain Staking KeyValue BlockStore.
From S2P Require Import Quorum FinalityStore Finality FinalityRestore FinalitySafety.
Import Transaction Block Chain Staking KeyValue BlockStore Quorum FinalityStore Finality FinalityRestore FinalitySafety.

Module FinalityLive.

(** ** A quorum of votes finalizes its block *)

Section Liveness.
Context `{Crypto} `{J : BlockJson}.
Context (world : gmap Hash32 Block) (f : option ValidatorAuthorityFork) (d0 : option DB).
Context (order : gmap string (list byte) -> list (string * list byte)) (Hvisits : visits order).

Lemma certificate_votes_succeeds (ls : list FinalizeMsg) :
  Forall (fun v => length (vt_ValidatorPub v) = 32%nat) ls ->
  certificate_votes ((fun v => (pub_hex (vt_ValidatorPub v), vt_Signature v)) <$> ls) =
  Ok ((fun v => mkFinalityVote (vt_ValidatorPub v) (vt_Signature v)) <$> ls).
Proof.
  induction 1 as [|v ls Hv _ IH]; [done|]. cbn [fmap list_fmap certificate_votes] in *. rewrite IH.
  unfold certificate_vote, pub_hex. cbn [fst snd]. rewrite hex_decode_encode, Hv. done.
Qed.

Lemma stale_self (ht : Z) : (ht <=? votePruneDepth) = false -> (ht <? ht -w votePruneDepth) = false.
Proof.
  unfold votePruneDepth, wrap64. intros Hh. zbool. apply Z.ltb_ge.
  assert (Hm := Z.mod_le (ht - 256) U64 ltac:(lia) ltac:(reflexivity)). lia.
Qed.

Lemma prune_keeps_votes ht h s :
  pendingVoteHeight s !! h = Some ht -> votes_for (prune ht s) h = votes_for s h.
Proof.
  intros Hp. unfold prune. destruct (ht <=? votePruneDepth) eqn:Ed; [done|]. apply stale_self in Ed.
  unfold votes_for. cbn. destruct (votes s !! h) as [m|] eqn:Em.
  - rewrite (map_lookup_filter_Some_2 _ _ h m); [done|done|]. cbn. by rewrite Hp, Ed.
  - by rewrite (map_lookup_filter_None_2 _ _ h); [|left].
Qed.

Lemma prune_keeps_final ht h s :
  dom (lpodFinalizedHashes s) = finalized s ->
  lpodFinalizedHashes s !! ht = Some h -> lpodFinalizedHashes (prune ht s) !! ht = Some h.
Proof.
  intros Hd Hf. unfold prune. destruct (ht <=? votePruneDepth) eqn:Ed; [done|]. apply stale_self in Ed.
  cbn. apply map_lookup_filter_Some_2; [done|]. cbn. rewrite Ed. by rewrite andb_false_r.
Qed.

Lemma prune_rest ht s : db (prune ht s) = db s /\ (ht ∉ finalized s -> ht ∉ finalized (prune ht s)).
Proof.
  unfold prune. destruct (ht <=? votePruneDepth); [done|]. cbn. split; [done|].
  intros Hn [_ Hi]%elem_of_filter. done.
Qed.

Section Block.
Context (E : Env) (i : io) (c : Chain) (b : Block) (envs : list Env) (log : list FinalizeMsg).
Hypothesis Hchain : chain_in world c.
Hypothesis Hfork : fork E = f.
Hypothesis HE : E ∈ envs.
Hypothesis Hb : GetByHeight c (height_of b) = Some b.
Hypothesis Hkeys : forall E' k, E' ∈ envs -> k ∈ committee E' -> length k = 32%nat.
Hypothesis Hget : get_ok i = true.
Hypothesis Hput : put_ok i = true.
Hypothesis Hzero : block_Hash b <> zeroHash.

(** Not final yet, short of a quorum, and nothing newer in the store. *)
Record waiting (s : Fin) : Prop := {
  w_ok : fin_ok world f d0 envs log s;
  w_open : height_of b ∉ finalized s;
  w_short : Z.of_nat (size (votes_for s (block_Hash b))) < quorum E;
  w_store : forall d, db s = Some d -> not_newer (mkCertificate 1 (height_of b) (block_Hash b) []) d
}.

Definition vote_of (v : FinalizeMsg) : Prop :=
  v ∈ log /\ admitted E v /\ vt_Height v = height_of b /\ vt_BlockHash v = block_Hash b.

Definition final (s : Fin) : Prop :=
  height_of b ∈ finalized s /\ lpodFinalizedHashes s !! height_of b = Some (block_Hash b).

Lemma world_b : world !! block_Hash b = Some b.
Proof. exact (proj2 (Hchain _ _ Hb)). Qed.

Lemma certify_succeeds v s :
  fin_ok world f d0 envs log s -> vt_Height v = height_of b -> vt_BlockHash v = block_Hash b ->
  votes_for s (block_Hash b) <> ∅ ->
  (forall d, db s = Some d -> not_newer (mkCertificate 1 (height_of b) (block_Hash b) []) d) ->
  exists s1, certify order i v s = Ok s1 /\ lpodFinalizedHashes s1 !! height_of b = Some (block_Hash b).
Proof.
  intros Hs Hh Hx Hne Hdb. unfold certify. rewrite Hh, Hx.
  destruct (recorded_signers _ _ _ order Hvisits _ _ _ _ _ Hs world_b) as (ls & El & _ & Hl & Hg). rewrite El.
  rewrite certificate_votes_succeeds; cycle 1.
  { eapply list.Forall_impl; [exact Hg|]. intros w [(_ & _ & _ & (E' & HE' & Hm) & _) _]. by eapply Hkeys. }
  cbn [mbind result_bind]. set (cert := mkCertificate _ _ _ _).
  assert (Hsave : exists s', save_through (SaveFinalityCertificate i cert) s = Ok s').
  { unfold save_through. destruct (db s) as [d|] eqn:Ed; [|eauto].
    rewrite SaveFinalityCertificate_succeeds; [cbn [mbind result_bind]; eauto|done|done|done|done| |exact (Hdb d eq_refl)].
    cbn. intros Hnil. apply fmap_nil_inv in Hnil as ->. apply Hne, map_size_empty_inv. by rewrite <- Hl. }
  destruct Hsave as [s' ->]. cbn [mbind result_bind]. eexists. split; [done|]. cbn. apply lookup_insert_eq.
Qed.

Lemma counted_pending_self v s :
  fin_ok world f d0 envs log s -> vt_Height v = height_of b -> vt_BlockHash v = block_Hash b ->
  pendingVoteHeight (counted v s) !! block_Hash b = Some (height_of b).
Proof.
  intros Hs Hh Hx. rewrite counted_pending, Hx, Hh. case_bool_decide as Hv; [|apply lookup_insert_eq].
  apply elem_of_dom in Hv. rewrite (fi_dom _ _ _ _ _ _ Hs) in Hv. apply elem_of_dom in Hv as [ht Hp]. rewrite Hp.
  destruct (fi_pending _ _ _ _ _ _ Hs _ _ Hp) as (b' & Hw & <-). rewrite world_b in Hw. by injection Hw as <-.
Qed.

Lemma final_stays v s : vote_of v -> final s -> fst (handleVote order E i c v s) = s.
Proof.
  intros (_ & [Hk Ha] & Hh & Hx) [Hf _]. unfold handleVote. apply isKnownValidator_spec in Hk. rewrite Hk, Ha. cbn [negb].
  rewrite Hh, Hb, Z.eqb_refl, Hx, (bool_decide_eq_true_2 _ eq_refl). cbn [negb orb].
  unfold count_vote, IsFinalized. by rewrite Hh, (bool_decide_eq_true_2 _ Hf).
Qed.

Lemma waiting_step v s : vote_of v -> waiting s ->
  let s' := fst (handleVote order E i c v s) in
  final s' \/
  (waiting s' /\ dom (votes_for s' (block_Hash b)) = {[pub_hex (vt_ValidatorPub v)]} ∪ dom (votes_for s (block_Hash b))).
Proof.
  intros (Hlog & [Hk Ha] & Hh & Hx) [Hok Hopen Hshort Hstore]. cbn zeta. unfold handleVote.
  assert (Hk' := proj2 (isKnownValidator_spec _ _) Hk). rewrite Hk', Ha. cbn [negb].
  rewrite Hh, Hb, Z.eqb_refl, Hx, (bool_decide_eq_true_2 _ eq_refl). cbn [negb orb].
  unfold count_vote, IsFinalized. rewrite Hh, (bool_decide_eq_false_2 _ Hopen), Hx, votes_for_open.
  case_bool_decide as Hdup.
  { right. cbn [fst]. destruct Hdup as [sig Hsig]. rewrite (open_votes_dup v s (pub_hex (vt_ValidatorPub v)) sig) by by rewrite Hx.
    split; [done|]. assert (pub_hex (vt_ValidatorPub v) ∈ dom (votes_for s (block_Hash b))) by (apply elem_of_dom; eauto). set_solver. }
  fold (counted v s). destruct (counted_rest v s) as (E1 & _ & E3 & E4).
  assert (Hgood : good_vote world f envs log (vt_BlockHash v) v).
  { split_and!; [done|done| |eauto|]; [rewrite Hx; exists b; by rewrite world_b|by rewrite <- Hfork]. }
  assert (Hcount : fin_ok world f d0 envs log (counted v s)).
  { apply (counted_ok world f d0 order Hvisits envs log v b s Hok Hgood); [rewrite Hx; apply world_b|done]. }
  assert (Hvotes : votes_for (counted v s) (block_Hash b) =
    <[pub_hex (vt_ValidatorPub v) := vt_Signature v]> (votes_for s (block_Hash b))).
  { rewrite votes_for_counted, Hx. by rewrite decide_True. }
  destruct (Z.leb_spec (quorum E) (Z.of_nat (size (votes_for (counted v s) (block_Hash b))))) as [Hq|Hq].
  - left. destruct (certify_succeeds v (counted v s) Hcount Hh Hx) as (s1 & Hc & Hf);
      [rewrite Hvotes; apply insert_non_empty|rewrite E4; exact Hstore|]. rewrite Hc. cbn [fst].
    assert (Hs1 : fin_ok world f d0 envs log s1).
    { eapply (certify_ok world f d0 order Hvisits); [exact Hcount|exact HE| | |rewrite Hx; exact Hq|exact Hc];
        [rewrite Hx; apply world_b|done]. }
    assert (Hp := prune_keeps_final (height_of b) _ _ (fi_marks _ _ _ _ _ _ Hs1) Hf). split; [|done].
    rewrite <- (fi_marks _ _ _ _ _ _ (prune_ok _ _ _ _ _ (height_of b) _ Hs1)). apply elem_of_dom. eauto.
  - right. cbn [fst]. destruct (prune_rest (height_of b) (counted v s)) as [Ed Hn].
    rewrite (prune_keeps_votes (height_of b) (block_Hash b)) by by apply counted_pending_self.
    split; [|by rewrite Hvotes, dom_insert_L].
    split; [by apply prune_ok|apply Hn; by rewrite E1| |rewrite Ed, E4; exact Hstore].
    by rewrite prune_keeps_votes by by apply counted_pending_self.
Qed.

Lemma votes_finalize vs : Forall vote_of vs -> forall s, waiting s ->
  let s' := foldl (fun s v => fst (handleVote order E i c v s)) s vs in
  final s' \/ (waiting s' /\ list_to_set (pub_hex ∘ vt_ValidatorPub <$> vs) ⊆ dom (votes_for s' (block_Hash b)) /\
               dom (votes_for s (block_Hash b)) ⊆ dom (votes_for s' (block_Hash b))).
Proof.
  induction 1 as [|v vs Hv Hvs IH]; intros s Hs; cbn zeta in *.
  { right. split; [done|]. cbn. set_solver. }
  cbn [foldl]. destruct (waiting_step v s Hv Hs) as [Hf|[Hw Hd]].
  - left. revert Hf. generalize (fst (handleVote order E i c v s)). clear -Hvs Hb.
    induction Hvs as [|w vs Hw _ IH]; intros s Hf; [done|]. cbn [foldl]. rewrite final_stays by done. by apply IH.
  - destruct (IH _ Hw) as [Hf|(Hw' & Hin & Hsub)]; [by left|]. right. split; [done|]. cbn. set_solver.
Qed.

Lemma quorum_final vs s : waiting s -> Forall vote_of vs -> NoDup (vt_ValidatorPub <$> vs) ->
  quorum E <= Z.of_nat (length vs) ->
  final (foldl (fun s v => fst (handleVote order E i c v s)) s vs).
Proof.
  intros Hs Hvs Hnd Hq. destruct (votes_finalize vs Hvs s Hs) as [Hf|(Hw & Hin & _)]; [done|].
  exfalso. apply w_short in Hw. apply subseteq_size in Hin. rewrite size_dom in Hin.
  rewrite size_list_to_set, length_fmap in Hin; [lia|].
  rewrite list_fmap_compose. by apply (list.NoDup_fmap_2 hex_encode).
Qed.

End Block.
End Liveness.

(** ** Theorems *)

(** C38: votes of enough distinct committee members for a canonical block, handled in
    any order, finalize it: from every state a run can reach in which the height of the
    block is open, its recorded votes are short of a quorum and the store, if there is
    one, holds no certificate of a higher height, none of another block at this height
    and no unreadable one; with a store whose reads and writes succeed, keys of 32 bytes
    in every committee of the run and a block hash that is not zero. With a higher
    certificate stored the block is not finalized: see [late_quorum_not_final]. *)
Theorem quorum_finalizes `{Crypto} `{J : BlockJson} (world : gmap Hash32 Block) (f : option ValidatorAuthorityFork) (d0 : option DB)
    (envs : list Env) (log : list FinalizeMsg) (s : Fin) (out : list FinalizeMsg)
    (order : gmap string (list byte) -> list (string * list byte)) (E : Env) (i : io) (c : Chain) (b : Block)
    (vs : list FinalizeMsg) :
  life world f d0 envs log s out -> visits order -> chain_in world c -> fork E = f ->
  GetByHeight c (height_of b) = Some b -> block_Hash b <> zeroHash ->
  (forall E' k, E' ∈ E :: envs -> k ∈ committee E' -> length k = 32%nat) ->
  get_ok i = true -> put_ok i = true ->
  height_of b ∉ finalized s -> Z.of_nat (size (votes_for s (block_Hash b))) < quorum E ->
  (forall d, db s = Some d -> not_newer (mkCertificate 1 (height_of b) (block_Hash b) []) d) ->
  NoDup (vt_ValidatorPub <$> vs) ->
  Forall (fun v => admitted E v /\ vt_Height v = height_of b /\ vt_BlockHash v = block_Hash b) vs ->
  quorum E <= Z.of_nat (length vs) ->
  lpodFinalizedHashes (foldl (fun s v => fst (handleVote order E i c v s)) s vs) !! height_of b = Some (block_Hash b).
Proof.
  intros L Ho Hc Hf Hb Hz Hk Hg Hp Hopen Hshort Hdb Hnd Hvs Hq.
  apply (quorum_final world f d0 order Ho E i c b (E :: envs) (vs ++ log)); try done.
  - left.
  - split; [|done..]. eapply fin_ok_mono; [| |by eapply life_ok]; [intros ??; by right|intros ?; rewrite elem_of_app; auto].
  - apply list.Forall_forall. rewrite list.Forall_forall in Hvs. intros v Hv. destruct (Hvs v Hv) as (Ha & Hh & Hx).
    split; [rewrite elem_of_app; by left|done].
Qed.

(** C39: a restart marks a block final only for the certificate in the store, and only
    when it passes every check: the block is the tip in memory, or below it the durable
    tip is the tip in memory, the height index names the block and its stored body has
    this height and hash (see [on_chain]; the ancestry of the durable tip is not
    walked); and a quorum of distinct, authentic votes comes from the committee: the
    current one, or the historical one of a migration which a quorum of the trust
    authorities signed. *)
Theorem restore_certificate_sound `{Crypto} `{J : BlockJson} (E : Env) (cfg : RestoreConfig) (i : io) (m : KV) (c : Chain)
    (s s' : Fin) :
  restoreFinalityCertificate E cfg i m c s = Ok s' ->
  s' = s \/
  exists d cert t members, db s = Some d /\ certificateSlot d = Stored cert /\ tip c = Some t /\
    s' = mark_final (fc_Height cert) (fc_BlockHash cert) s /\
    on_chain m t (fc_Height cert) (fc_BlockHash cert) /\ certifies E members cert /\
    match FinalityMigration cfg with
    | None => members = committee E
    | Some mig => members = HistoricalCommittee mig /\ approved E cfg m c cert mig
    end.
Proof. apply restore_certificate_cases. Qed.

(** The certificate a node stored is accepted when the node restarts under the
    same committee with the block still on its durable chain, and the block is final
    again; [NewEngine] does not halt on it. *)
Theorem certificate_survives_restart `{Crypto} `{J : BlockJson} (world : gmap Hash32 Block) (d0 : DB) (E : Env)
    (envs : list Env) (log : list FinalizeMsg) (s : Fin) (out : list FinalizeMsg) (i : io) (m : KV) (c : Chain)
    (t : Block) (d : DB) (cert : FinalityCertificate) :
  life world (fork E) (Some d0) envs log s out -> (forall E', E' ∈ envs -> E' = E) -> certificateSlot d0 = Missing ->
  db s = Some d -> certificateSlot d = Stored cert -> get_ok i = true ->
  tip c = Some t -> on_chain m t (fc_Height cert) (fc_BlockHash cert) ->
  exists s', restoreFinalityCertificate E (mkRestoreConfig None []) i m c (fresh_fin (db s)) = Ok s' /\
    lpodFinalizedHashes s' !! fc_Height cert = Some (fc_BlockHash cert) /\ halted s' = false.
Proof.
  intros L HE H0 Hd Hs Hg Ht Hon. rewrite Hd. unfold restoreFinalityCertificate, LoadFinalityCertificate. cbn [db fresh_fin].
  destruct (fi_db _ _ _ _ _ _ (life_ok _ _ _ _ _ _ _ L) d Hd) as [(d' & [= <-] & Hc)|(ht & h & q & Hc & Hn & Hq & E' & HE' & Hl)];
    [congruence|]. rewrite Hs in Hc. injection Hc as ->. rewrite Hg, Hs, Ht. cbn [negb mbind result_bind fc_Version certificate_of Z.eqb].
  rewrite (Pos.eqb_refl 1). cbn [negb mbind result_bind].
  rewrite (proj2 (bound_to_chain_spec m t _)) by exact Hon.
  cbn [mbind result_bind FinalityMigration FinalityMigrationTrustAuthorities].
  rewrite (bool_decide_eq_false_2 (@nil ValidatorPubKey <> [])) by by intros []. cbn [mbind result_bind].
  rewrite (proj2 (check_votes_spec E (committee E) _)).
  - cbn [mbind result_bind]. eexists. split; [done|]. cbn. split; [apply lookup_insert_eq|done].
  - unfold certifies. cbn. rewrite <- list_fmap_compose, length_fmap. split; [exact Hn|].
    apply HE in HE' as ->. split; [|exact Hl].
    apply list.Forall_forall. intros fv (v & -> & Hv)%list_elem_of_fmap. rewrite list.Forall_forall in Hq. cbn.
    destruct (Hq v Hv) as [(_ & _ & _ & (E2 & HE2 & Hm) & Ha) <-]. by apply HE in HE2 as ->.
Qed.

(** The restart restores the recorded local vote exactly when its signer is in the
    committee, its signature verifies, and blocks of the durable chain lead from the
    tip, which is also the tip in memory, back to the voted block. *)
Theorem restore_vote_exact `{Crypto} `{J : BlockJson} (E : Env) (i : io) (m : KV) (c : Chain) (s : Fin) (d : DB)
    (v : LocalFinalityVote) :
  db s = Some d -> localVoteSlot d = Stored v -> get_ok i = true -> lv_Version v = 1 -> 0 <= lv_Height v ->
  (exists s', restoreLocalFinalityVote E i m c s = Ok s') <->
  lv_Validator v ∈ committee E /\
  authentic (fork E) (lv_Validator v) (lv_Height v) (lv_BlockHash v) (lv_Signature v) = true /\
  exists t, tip c = Some t /\ GetTip m = (block_Hash t, height_of t) /\ block_Hash t <> zeroHash /\
    linked m (height_of t) (block_Hash t) (lv_Height v) (lv_BlockHash v).
Proof.
  intros Hd Hs Hg Hv Hh. unfold restoreLocalFinalityVote, LoadLocalFinalityVote.
  rewrite Hd, Hg, Hs, Hv, Z.eqb_refl. cbn [negb mbind result_bind]. unfold verifyLocalVoteAncestry.
  destruct (GetTip m) as [th tht]. rewrite <- isKnownValidator_spec. split.
  - intros (s' & Hr). apply reject_ok in Hr as (H1 & Hr). apply reject_ok in Hr as (H2 & Hr).
    apply negb_false_iff in H1, H2. split; [done|]. split; [done|]. apply bind_ok in Hr as ([] & Hr & _).
    apply reject_ok in Hr as (H3 & Hr). destruct (tip c) as [t|]; [|done]. apply reject_ok in Hr as (H4 & Hr).
    apply orb_false_iff in H3 as [H3 _], H4 as [H4 H5]. zbool. subst. exists t. split; [done|]. split; [done|]. split; [done|].
    by eapply ancestry_sound.
  - intros (-> & -> & t & -> & [= -> ->] & Hz & L). cbn [negb]. rewrite (bool_decide_eq_false_2 _ Hz).
    assert (Hle := linked_le _ _ _ _ _ L). rewrite (proj2 (Z.ltb_ge _ _) Hle), Z.eqb_refl, (bool_decide_eq_true_2 _ eq_refl).
    cbn [negb orb]. rewrite (ancestry_complete _ _ _ _ _ L Hh) by lia. eexists. cbn. done.
Qed.

(** Once a certificate is stored, votes finalize no lower height: a quorum that
    completes late for an older block leaves that block not final. *)
Theorem late_quorum_not_final `{Crypto} (order : gmap string (list byte) -> list (string * list byte)) (E : Env) (i : io)
    (c : Chain) (v : FinalizeMsg) (s : Fin) (d : DB) (p : FinalityCertificate) :
  db s = Some d -> certificateSlot d = Stored p -> vt_Height v < fc_Height p -> vt_Height v ∉ finalized s ->
  vt_Height v ∉ finalized (fst (handleVote order E i c v s)).
Proof.
  intros Hd Hp Hlt Hn. destruct (handleVote_effect order E i c v s) as [| |b s' _ _ _ _ _ _ Hcase]; [done|done|].
  destruct (counted_rest v s) as (E1 & _ & _ & E4).
  destruct Hcase as [->|[->|(_ & s1 & Hc & ->)]]; [by rewrite E1|apply prune_rest; by rewrite E1|exfalso].
  unfold certify in Hc. apply bind_ok in Hc as (fvs & _ & Hc). apply bind_ok in Hc as (s2 & Hs & _).
  unfold save_through in Hs. rewrite E4, Hd in Hs. apply bind_ok in Hs as (d' & Hs & _).
  assert (Hr := SaveFinalityCertificate_regression i (mkCertificate 1 (vt_Height v) (vt_BlockHash v) fvs) d p Hp Hlt).
  by rewrite Hs in Hr.
Qed.

(** ** Witnesses *)

Section Witnesses.
#[local] Existing Instance toy_crypto | 0.
#[local] Existing Instance restore_json | 0.

Definition ex_saved : option DB := db (fst ex_cast).
Definition ex_disk : DB := default ex_db ex_saved.
Definition ex_cert : FinalityCertificate := match certificateSlot ex_disk with Stored c => c | _ => mkCertificate 0 0 zeroHash [] end.
Definition ex_record : LocalFinalityVote := match localVoteSlot ex_disk with Stored c => c | _ => mkLocalVote 0 0 zeroHash [] [] end.

Lemma canonical_is_ok m h x : canonical_is m h x = true -> GetCanonicalHash m h = Ok (Some x).
Proof. unfold canonical_is. destruct (GetCanonicalHash m h) as [[y|]|]; [|done..]. by intros ->%bool_decide_eq_true. Qed.

Lemma ex_cert_on_chain : on_chain ex_durable ex_b2 1 (block_Hash ex_b1).
Proof.
  right. split; [vm_compute; reflexivity|]. split; [apply (bool_decide_unpack _); vm_compute; exact I|].
  split; [apply canonical_is_ok; vm_compute; reflexivity|].
  exists [x01], ex_b1. split; [vm_compute; reflexivity|]. split; [vm_compute; reflexivity|]. split; vm_compute; reflexivity.
Qed.

Lemma quorum_finalizes_witness :
  lpodFinalizedHashes (foldl (fun s v => fst (handleVote map_to_list ex_env ex_io ex_c2 v s)) (fresh_fin (Some ex_db)) [ex_vote])
    !! height_of ex_b1 = Some (block_Hash ex_b1).
Proof.
  apply (quorum_finalizes ex_world None (Some ex_db) [] [] (fresh_fin (Some ex_db)) [] map_to_list ex_env ex_io ex_c2
    ex_b1 [ex_vote]).
  - apply life_start.
  - by intros m.
  - exact ex_chain_in.
  - exact eq_refl.
  - vm_compute. reflexivity.
  - apply (bool_decide_unpack _). vm_compute. exact I.
  - intros E' k ->%list_elem_of_singleton ->%list_elem_of_singleton. vm_compute. reflexivity.
  - exact eq_refl.
  - exact eq_refl.
  - apply (bool_decide_unpack _). vm_compute. exact I.
  - vm_compute. reflexivity.
  - intros d [= <-]. exact I.
  - apply (bool_decide_unpack _). vm_compute. exact I.
  - apply list.Forall_singleton. split; [split|split; vm_compute; reflexivity].
    + apply (bool_decide_unpack _). vm_compute. exact I.
    + vm_compute. reflexivity.
  - vm_compute. discriminate.
Defined.

Lemma ex_disk_eq : db (fst ex_cast) = Some ex_disk.
Proof. vm_compute. reflexivity. Qed.
Lemma ex_cert_eq : certificateSlot ex_disk = Stored ex_cert.
Proof. vm_compute. reflexivity. Qed.
Lemma ex_tip2 : tip ex_c2 = Some ex_b2.
Proof. vm_compute. reflexivity. Qed.
Lemma ex_cert_fields : fc_Height ex_cert = 1 /\ fc_BlockHash ex_cert = block_Hash ex_b1.
Proof. split; vm_compute; reflexivity. Qed.

Lemma certificate_survives_restart_witness :
  exists s', restoreFinalityCertificate ex_env (mkRestoreConfig None []) ex_io ex_durable ex_c2 (fresh_fin (db (fst ex_cast))) = Ok s' /\
    lpodFinalizedHashes s' !! fc_Height ex_cert = Some (fc_BlockHash ex_cert) /\ halted s' = false.
Proof.
  apply (certificate_survives_restart ex_world ex_db ex_env [ex_env] [ex_vote] (fst ex_cast) [ex_vote] ex_io ex_durable ex_c2
    ex_b2 ex_disk ex_cert).
  - exact ex_life.
  - by intros E' ->%list_elem_of_singleton.
  - exact eq_refl.
  - exact ex_disk_eq.
  - exact ex_cert_eq.
  - exact eq_refl.
  - exact ex_tip2.
  - destruct ex_cert_fields as [-> ->]. exact ex_cert_on_chain.
Defined.

Definition ex_restored : result Fin :=
  restoreFinalityCertificate ex_env (mkRestoreConfig None []) ex_io ex_durable ex_c2 (fresh_fin (Some ex_disk)).
Definition ex_restored_fin : Fin := match ex_restored with Ok s => s | Err _ => fresh_fin None end.
Lemma ex_restored_value : ex_restored = Ok ex_restored_fin.
Proof. apply ok_value. vm_compute. reflexivity. Qed.
Lemma ex_restored_ok :
  restoreFinalityCertificate ex_env (mkRestoreConfig None []) ex_io ex_durable ex_c2 (fresh_fin (Some ex_disk)) = Ok ex_restored_fin.
Proof. assert (Hr := ex_restored_value). unfold ex_restored in Hr at 1. exact Hr. Qed.
Lemma ex_restored_new : 1 ∈ finalized ex_restored_fin.
Proof. apply (bool_decide_unpack _). vm_compute. exact I. Qed.

Lemma fresh_not_final s d h : s = fresh_fin d -> h ∉ finalized s.
Proof. intros ->. apply not_elem_of_empty. Qed.

Lemma restore_certificate_sound_witness :
  exists d cert members, certificateSlot d = Stored cert /\ certifies ex_env members cert.
Proof.
  destruct (restore_certificate_sound ex_env (mkRestoreConfig None []) ex_io ex_durable ex_c2 (fresh_fin (Some ex_disk))
    ex_restored_fin ex_restored_ok) as [He|(d & cert & t & members & _ & Hc & _ & _ & _ & Hv & _)].
  - destruct (fresh_not_final _ _ _ He ex_restored_new).
  - exists d, cert, members. exact (conj Hc Hv).
Defined.

Lemma ex_record_eq : localVoteSlot ex_disk = Stored ex_record.
Proof. vm_compute. reflexivity. Qed.

Lemma restore_vote_exact_witness : exists t, tip ex_c2 = Some t /\
  linked ex_durable (height_of t) (block_Hash t) (lv_Height ex_record) (lv_BlockHash ex_record).
Proof.
  destruct (proj1 (restore_vote_exact ex_env ex_io ex_durable ex_c2 (fresh_fin (Some ex_disk)) ex_disk ex_record
    eq_refl ex_record_eq eq_refl ltac:(vm_compute; reflexivity) ltac:(vm_compute; discriminate)))
    as (_ & _ & t & Ht & _ & _ & L).
  - exists (set_local (Some ex_vote) (fresh_fin (Some ex_disk))). vm_compute. reflexivity.
  - exists t. exact (conj Ht L).
Defined.

Definition ex_newer : DB := mkDB (Stored (mkCertificate 1 2 (block_Hash ex_b2) [])) Missing.

Lemma late_quorum_not_final_witness :
  vt_Height ex_vote ∉ finalized (fst (handleVote map_to_list ex_env ex_io ex_c2 ex_vote (fresh_fin (Some ex_newer)))).
Proof.
  apply (late_quorum_not_final map_to_list ex_env ex_io ex_c2 ex_vote (fresh_fin (Some ex_newer)) ex_newer
    (mkCertificate 1 2 (block_Hash ex_b2) [])); [exact eq_refl|exact eq_refl|vm_compute; reflexivity|].
  apply not_elem_of_empty.
Defined.

End Witnesses.

End FinalityLive.
