(* ===== verification/Scanner.v ===== *)
(** Outputs with a public opening and the wallet that finds them:
    [BuildLPoDPayoutOutput] of [core/lpod_position.go] and [core/wallet_scanner.go].

    The theorem of the file: a payout built for the address of a wallet is found by the
    scan of its block, with its amount, and the wallet can spend and open it. *)

From stdpp Require Import base gmap list strings.
From S2P Require Import Prelude Bytes Crypto GroupOrder Curve Pedersen Stealth Transaction Utxo CryptoImpl.
Import Curve Pedersen Stealth Transaction Utxo.

Module Scanner.

Definition byte_xor (a b : byte) : byte := byte_of_Z (Z.lxor (byte_to_Z a) (byte_to_Z b)).

Section Scanner.
Context {hs : Hashes} {ed : Edwards} {b58 : Base58} {sgn : CryptoImpl.Ed25519}.

#[local] Existing Instance CryptoImpl.impl_crypto.

(** ** Amounts *)

Definition amount_stream (s : arr 32) : list byte := arr_list (HashBytes [bytes_of_string "aperod/amount-enc/v1"; arr_list s]).

Definition EncryptAmount (amount : Z) (s : arr 32) : arr 8 :=
  copy_arr 8 (zip_with byte_xor (le_encode 8 amount) (amount_stream s)).

Definition decryptAmount (enc : arr 8) (s : arr 32) : Z :=
  le_decode (zip_with byte_xor (arr_list enc) (amount_stream s)).

(** ** The payout of [core/lpod_position.go] *)

(** The encoding of the ephemeral scalar; the zero scalar is replaced by one. *)
Definition payout_ephemeral (address : string) (height : Z) (parent digest : Hash32) : arr 32 :=
  let b := s_Bytes (SetUniformBytes (arr_list (sha512_sum
    (bytes_of_string "aperod/lpod/payout-ephemeral/v1" ++ arr_list parent ++ arr_list digest ++ le_encode 8 height ++
     bytes_of_string address)))) in
  if bool_decide (b = zero_arr 32) then copy_arr 32 [x01] else b.

Definition BuildLPoDPayoutOutput (address : string) (amount height : Z) (parent digest : Hash32) : result Output :=
  reject amount =? 0 with "lpod: zero payout" ;;
  '(_, spend, view) ← DecodeAddress address;
  stealth ← CreateStealthOutputFromEphemeralBytes spend view (payout_ephemeral address height parent digest);
  commit ← Pedersen.Commit amount (Pedersen.DeterministicPaymentBlind (HsScalar stealth) amount);
  Ok (mkOutput (Stealth.OneTimePub stealth) (Stealth.TxPubKey stealth) commit (EncryptAmount amount (HsScalar stealth))).

(** ** The scanner *)

Record OwnedUTXO := mkOwned { ow_UTXO : UTXO; ow_HsScalar : arr 32; Amount : Z; Blind : BlindFactor }.

Record WalletScanner := mkScanner { viewPriv : arr 32; spendPub : Point32; viewPub : Point32; networkByte : NetworkByte }.

Definition scan_output (s : WalletScanner) (height : Z) (hash : Hash32) (e : nat * Output) : option OwnedUTXO :=
  let '(i, out) := e in
  match ScanForOutput (viewPriv s) (spendPub s) (TxPubKey out) (OneTimePub out) with
  | Ok (Some h) =>
      Some (mkOwned (mkUTXO hash (wrap32 (Z.of_nat i)) (OneTimePub out) (TxPubKey out) (AmountCommit out) (EncAmount out) height false)
        h (decryptAmount (EncAmount out) h) (zero_arr 32))
  | _ => None
  end.

Definition ScanBlock (s : WalletScanner) (b : Block) : list OwnedUTXO :=
  tx ← Txs b; omap (scan_output s (Height (Header b)) (Hash tx)) (imap pair (Outputs tx)).

(** [ScanChain]: the loop ends at the first height without a block, or after the last. *)
Fixpoint scan_heights (s : WalletScanner) (GetByHeight : Z -> option Block) (heights : list Z) : list OwnedUTXO :=
  match heights with
  | [] => []
  | h :: rest =>
      match GetByHeight h with
      | Some b => ScanBlock s b ++ scan_heights s GetByHeight rest
      | None => []
      end
  end.

Definition ScanChain (s : WalletScanner) (GetByHeight : Z -> option Block) (startHeight endHeight : Z) : list OwnedUTXO :=
  scan_heights s GetByHeight (seqZ startHeight (endHeight - startHeight + 1)).

Definition Balance (utxos : list OwnedUTXO) : Z := foldl (fun total u => total +w Amount u) 0 utxos.

(** ** Properties *)

Lemma byte_xor_cancel (a b : byte) : byte_xor (byte_xor a b) b = a.
Proof.
  unfold byte_xor. pose proof (byte_to_Z_range a) as Ha. pose proof (byte_to_Z_range b) as Hb.
  assert (Hx : 0 <= Z.lxor (byte_to_Z a) (byte_to_Z b) < 2 ^ 8).
  { assert (H0 : 0 <= Z.lxor (byte_to_Z a) (byte_to_Z b)) by (apply Z.lxor_nonneg; lia). split; [done|].
    destruct (decide (Z.lxor (byte_to_Z a) (byte_to_Z b) = 0)) as [->|Hn]; [lia|].
    apply Z.log2_lt_pow2; [lia|]. eapply Z.le_lt_trans; [apply Z.log2_lxor; lia|].
    assert (Hl : forall n, 0 <= n < 256 -> Z.log2 n < 8).
    { intros n Hr. pose proof (Z.log2_le_mono n 255 ltac:(lia)) as Hm. change (Z.log2 255) with 7 in Hm. lia. }
    apply Z.max_lub_lt; by apply Hl. }
  rewrite byte_to_of_Z, Z.mod_small by lia.
  rewrite Z.lxor_assoc, Z.lxor_nilpotent, Z.lxor_0_r. apply byte_of_to_Z0.
Qed.

Lemma xor_stream_cancel (l k : list byte) :
  (length l <= length k)%nat -> zip_with byte_xor (zip_with byte_xor l k) k = l.
Proof.
  revert k. induction l as [|b l IH]; intros [|c k] Hk; simpl in *; [done..|lia|].
  rewrite byte_xor_cancel, IH by lia. done.
Qed.

(** Decryption inverts encryption under the same shared scalar. *)
Theorem decrypt_encrypt (amount : Z) (s : arr 32) : is_u64 amount -> decryptAmount (EncryptAmount amount s) s = amount.
Proof.
  intros Hu. unfold decryptAmount, EncryptAmount.
  assert (Hl : length (amount_stream s) = 32%nat) by apply arr_length.
  assert (Hz : length (zip_with byte_xor (le_encode 8 amount) (amount_stream s)) = 8%nat)
    by (rewrite length_zip_with, length_le_encode, Hl; done).
  rewrite arr_list_copy by (by rewrite Hz). rewrite xor_stream_cancel by (rewrite length_le_encode, Hl; lia).
  apply le_decode_encode. unfold is_u64 in Hu. lia.
Qed.

End Scanner.

Section Payout.
Context {hs : Hashes} {ed : Edwards} {laws : EdwardsLaws} {b58 : Base58} {sgn : CryptoImpl.Ed25519}.

#[local] Existing Instance CryptoImpl.impl_crypto.

(** The encoding always decodes, to a scalar that is not zero. *)
Lemma payout_ephemeral_scalar (address : string) (height : Z) (parent digest : Hash32) :
  exists r, SetCanonicalBytes (arr_list (payout_ephemeral address height parent digest)) = Some r /\ sval r <> 0.
Proof.
  unfold payout_ephemeral. set (b := SetUniformBytes _). case_bool_decide as Hz.
  - destruct (canonical_total (arr_list (copy_arr 32 [x01]))) as [r Hr]; [apply arr_length|by vm_compute|].
    exists r. split; [done|]. apply canonical_bytes in Hr as [_ Hr]. rewrite <- Hr. by vm_compute.
  - exists b. split; [apply SetCanonicalBytes_scalar|]. intros E. apply Hz. apply arr_ext. rewrite scalar_bytes, E. by vm_compute.
Qed.

(** A payout for the address of a wallet is an output the wallet finds when it scans the
    block, with the amount that was paid; the commitment opens with the blinding factor
    derived from the scalar the scan recovers, and the sum of that scalar and the spend
    key is the key of the output. *)
Theorem payout_found (net : NetworkByte) (spend view : scalar) (amount height : Z) (parent digest : Hash32) (out : Output) :
  (forall b, b58_Decode (b58_Encode b) = b) -> known_net net -> is_u64 amount ->
  let S := p_Bytes (ScalarBaseMult spend) in
  let V := p_Bytes (ScalarBaseMult view) in
  let w := mkScanner (s_Bytes view) S V net in
  BuildLPoDPayoutOutput (EncodeAddress net S V) amount height parent digest = Ok out ->
  forall i hash h, exists o x,
    scan_output w h hash (i, out) = Some o /\ Amount o = amount /\ u_TxHash (ow_UTXO o) = hash /\
    Pedersen.Commit amount (Pedersen.DeterministicPaymentBlind (ow_HsScalar o) amount) = Ok (AmountCommit out) /\
    AddScalars (ow_HsScalar o) (s_Bytes spend) = Ok x /\ scalarMulBase x = Ok (OneTimePub out).
Proof.
  intros Hb Hn Hu S V w E i hash h. unfold BuildLPoDPayoutOutput in E. apply reject_ok in E as [_ E].
  rewrite address_roundtrip in E by done. cbn [mbind result_bind] in E.
  apply bind_ok in E as (st & Est & E). apply bind_ok in E as (commit & Ec & E). injection E as <-.
  unfold CreateStealthOutputFromEphemeralBytes in Est.
  destruct (payout_ephemeral_scalar (EncodeAddress net S V) height parent digest) as (r & Hr & _). rewrite Hr in Est.
  unfold createStealthOutputWithScalar in Est. unfold S, V in Est. rewrite !PointFromBytes_point in Est.
  cbn [errorf mbind result_bind] in Est. injection Est as <-. cbn [HsScalar Stealth.OneTimePub Stealth.TxPubKey] in *.
  set (k := hashToScalar _ _) in *.
  assert (Hscan : ScanForOutput (s_Bytes view) S (p_Bytes (ScalarBaseMult r)) (p_Bytes (ScalarBaseMult k ⊕ ScalarBaseMult spend)) = Ok (Some (s_Bytes k))).
  { unfold ScanForOutput. rewrite ScalarFromBytes_scalar. cbn [errorf mbind result_bind].
    unfold S. rewrite !PointFromBytes_point. cbn [mbind result_bind]. rewrite <- shared_secret. fold k.
    by rewrite bool_decide_eq_false_2 by (intros []; done). }
  destruct (scan_sound _ _ _ _ _ Hscan) as (x & Hx & Hk).
  eexists _, x. split; [|split; [|split; [|split; [|split]]]].
  - unfold scan_output. cbn [viewPriv spendPub w TxPubKey OneTimePub]. rewrite Hscan. reflexivity.
  - cbn [Amount]. by apply decrypt_encrypt.
  - reflexivity.
  - exact Ec.
  - exact Hx.
  - exact Hk.
Qed.

End Payout.

End Scanner.
