(* ===== verification/LPoDCheckpoint.v ===== *)
(** The data of LPoD deposits and their checkpoints: [store/lpod.go], the records of
    [store/lpod_positions.go], [store/lpod_migration.go], [store/genesis_vesting.go] and
    [store/genesis_vesting_funding.go], with the commitments a block signs.

    [encoding/json] at the types that are hashed is the class [LPoDJson].  The registry
    snapshots and the audit maps of a settlement are audit evidence no decision reads;
    they are left out. *)

From stdpp Require Import base gmap list strings.
From S2P Require Import Prelude Bytes Crypto Transaction LPoD.
Import Transaction.

Module LPoDCheckpoint.

(** ** Constants *)

Definition LPoDV3NominalCirculationMaxNAPRO : Z := 10000000000 * LPoD.Unit.
Definition LPoDV3NominalBasis : string := "nominal_genesis_allocation_and_vesting".
Definition LPoDV3EligibilityRule : string :=
  "UNISSUED_UNLOCKED_PUBLIC_ALLOCATION_EXCLUDING_ISSUED_WALLET_UTXOS_VALIDATOR_BUDGET_DEVELOPER_VESTING_GUARDIAN_AND_ALL_OTHER_RESERVES".

(** ** Data *)

Record ValidatorStake := mkStake { vs_Amount : Z; vs_Active : bool }.
(** The zero value of a missing key. *)
Definition noStake : ValidatorStake := mkStake 0 false.

Record Position := mkPos {
  p_Deposit : LPoDPositionAction; p_Nonce : Z; UnlockHeight : Z; Returned : bool;
  Due : Z; APRCarry : Z; Withdrawn : Z; EffectiveVault : option Point32; RouteHeight : Z; AutoReturned : bool
}.
Definition newPosition (a : LPoDPositionAction) : Position := mkPos a 0 0 false 0 0 0 None 0 false.

Record NominalSnapshot := mkSnapshot {
  Basis : string; NominalCirculatingBefore : Z; EligibleNominal : Z; PreexistingGuardianReservation : Z;
  ns_ValidatorRemaining : Z; EligibilityRule : string
}.

Record Allocation := mkAllocation {
  al_Version : Z; PositionLifecycleVersion : Z; al_Genesis : Hash32; al_FundingHeight : Z; FundingBlock : Hash32;
  ReconciliationRoot : Hash32; HistoricalIssued : Z; al_Remaining : Z; ValidatorRemaining : Z;
  InitialValidatorRemaining : Z; TailIssued : Z; DeclaredSaleRemaining : Z; SnapshotRoot : Hash32;
  al_FundingParent : Hash32; TrustAssumption : string; NominalEligible : Z; al_NominalSnapshot : option NominalSnapshot
}.

Record Attestation := mkAttestation { at_Validator : ValidatorPubKey; at_Signature : list byte }.

Record VestingFunding := mkFunding {
  vf_Version : Z; vf_Genesis : Hash32; Snapshot : Hash32; vf_Height : Z; vf_Recipient : string; Reserve : Z;
  OtherAllocations : Z; Trust : string; vf_LiquidityRecipient : string; LiquidityAmount : Z; LiquidityTrust : string;
  Attestations : list Attestation
}.

(** [PaidHeights] is an array of ten. *)
Record VestingState := mkVesting {
  vg_Basis : string; vg_Genesis : Hash32; FundingHeight : Z; FundingParent : Hash32; Recipient : string;
  FundingDebit : Z; SourceSnapshot : Hash32; FundingProof : option VestingFunding; OriginalNonCirculating : Z;
  OtherNonCirculating : Z; Remaining : Z; Paid : Z; PaidHeights : list Z; LiquidityRecipient : string; LiquidityPaid : Z
}.

Record Checkpoint := mkCheckpoint {
  GenesisVesting : option VestingState; State : LPoD.State; Carries : gmap string LPoD.Carry;
  cp_Allocation : option Allocation; Positions : gmap string Position;
  PrincipalDeposited : Z; PrincipalLocked : Z; PrincipalReturned : Z
}.

(** [LPoDSettlement]; [M] is the migration witness. *)
Record Settlement (M : Type) := mkSettlement {
  GenesisVestingActivationHeight : Z; GenesisVestingFunding : option VestingFunding; Parent : Hash32;
  Vaults : list LPoD.Vault; Migration : option M; PositionProtocol : bool; sm_Timestamp : Z; Proposer : string;
  sm_Leader : string; Stake : gmap string ValidatorStake; PreviousStake : gmap string ValidatorStake;
  Transactions : list Transaction
}.
Arguments mkSettlement {M}. Arguments GenesisVestingActivationHeight {M}. Arguments GenesisVestingFunding {M}.
Arguments Parent {M}. Arguments Vaults {M}. Arguments Migration {M}. Arguments PositionProtocol {M}.
Arguments sm_Timestamp {M}. Arguments Proposer {M}. Arguments sm_Leader {M}. Arguments Stake {M}.
Arguments PreviousStake {M}. Arguments Transactions {M}.

#[export] Instance LPoDPositionAction_eq_dec : EqDecision LPoDPositionAction.
Proof. solve_decision. Defined.
#[export] Instance ValidatorStake_eq_dec : EqDecision ValidatorStake.
Proof. solve_decision. Defined.
#[export] Instance Attestation_eq_dec : EqDecision Attestation.
Proof. solve_decision. Defined.
#[export] Instance VestingFunding_eq_dec : EqDecision VestingFunding.
Proof. solve_decision. Defined.
#[export] Instance VestingState_eq_dec : EqDecision VestingState.
Proof. solve_decision. Defined.
#[export] Instance Position_eq_dec : EqDecision Position.
Proof. solve_decision. Defined.

(** What the commitment of a version 1 allocation covers. *)
Record legacyLPoDAllocation := mkLegacyAllocation {
  la_Version : Z; la_PositionLifecycleVersion : Z; la_Genesis : Hash32; la_FundingHeight : Z; la_FundingBlock : Hash32;
  la_ReconciliationRoot : Hash32; la_HistoricalIssued : Z; la_Remaining : Z; la_ValidatorRemaining : Z;
  la_InitialValidatorRemaining : Z; la_TailIssued : Z
}.

Record LegacyCheckpoint := mkLegacy {
  lg_State : LPoD.State; lg_Carries : gmap string LPoD.Carry; lg_Allocation : legacyLPoDAllocation;
  lg_Positions : gmap string Position; lg_PrincipalDeposited : Z; lg_PrincipalLocked : Z; lg_PrincipalReturned : Z
}.

(** [encoding/json] at the types whose encodings are hashed. *)
Class LPoDJson := {
  Marshal_checkpoint : Checkpoint -> list byte;
  Marshal_legacy : LegacyCheckpoint -> list byte;
  Marshal_snapshot : NominalSnapshot -> list byte;
  Marshal_funding : VestingFunding -> list byte
}.

Section Commitments.
Context `{Crypto} `{LPoDJson}.

Definition without_block (a : Allocation) : Allocation :=
  mkAllocation (al_Version a) (PositionLifecycleVersion a) (al_Genesis a) (al_FundingHeight a) (zero_arr 32)
    (ReconciliationRoot a) (HistoricalIssued a) (al_Remaining a) (ValidatorRemaining a) (InitialValidatorRemaining a)
    (TailIssued a) (DeclaredSaleRemaining a) (SnapshotRoot a) (al_FundingParent a) (TrustAssumption a)
    (NominalEligible a) (al_NominalSnapshot a).

Definition legacy_allocation (a : Allocation) : legacyLPoDAllocation :=
  mkLegacyAllocation (al_Version a) (PositionLifecycleVersion a) (al_Genesis a) (al_FundingHeight a) (FundingBlock a)
    (ReconciliationRoot a) (HistoricalIssued a) (al_Remaining a) (ValidatorRemaining a) (InitialValidatorRemaining a)
    (TailIssued a).

Definition Digest (c : Checkpoint) : Hash32 :=
  let domain := bytes_of_string "aperod/lpod/checkpoint/v1" in
  match cp_Allocation c with
  | Some a0 =>
      let a := without_block a0 in
      if al_Version a =? 1 then
        HashBytes [domain; Marshal_legacy (mkLegacy (State c) (Carries c) (legacy_allocation a) (Positions c)
          (PrincipalDeposited c) (PrincipalLocked c) (PrincipalReturned c))]
      else
        HashBytes [domain; Marshal_checkpoint (mkCheckpoint (GenesisVesting c) (State c) (Carries c) (Some a) (Positions c)
          (PrincipalDeposited c) (PrincipalLocked c) (PrincipalReturned c))]
  | None => HashBytes [domain; Marshal_checkpoint c]
  end.

(** [LPoDNominalSnapshot.Root] and [valid]. *)
Definition Root (s : NominalSnapshot) : Hash32 :=
  HashBytes [bytes_of_string "aperod/lpod/nominal-reclassification/snapshot/v3"; Marshal_snapshot s].

Definition valid (s : NominalSnapshot) (eligible validatorRemaining : Z) (root : Hash32) : bool :=
  bool_decide (Basis s = LPoDV3NominalBasis) && (EligibleNominal s <=? NominalCirculatingBefore s) &&
  (NominalCirculatingBefore s <=? LPoDV3NominalCirculationMaxNAPRO) && (EligibleNominal s =? eligible) &&
  (PreexistingGuardianReservation s =? 0) && (ns_ValidatorRemaining s =? validatorRemaining) &&
  bool_decide (EligibilityRule s = LPoDV3EligibilityRule) && bool_decide (Root s = root).

End Commitments.

End LPoDCheckpoint.
