(* ===== verification/GenesisVesting.v ===== *)
(** The vesting reserve of the development fund: [store/genesis_vesting.go] and
    [store/genesis_vesting_funding.go].

    The schedule has ten tranches; [PaidHeights] is the array of the heights that paid
    them, a list of length ten here.  A preview funds the reserve at its activation
    height and pays every tranche that is due; the theorems show that the tranches are
    paid in order, once each, never before their date and never beyond the reserve, and
    that what a block pays is what the reserve loses. *)

From stdpp Require Import base gmap list strings.
From S2P Require Import Prelude Bytes Crypto Transaction LPoD LPoDCheckpoint.
Import Transaction LPoDCheckpoint.

Module GenesisVesting.

Definition GenesisVestingRecipient : string :=
  "aproegAWbHEE8wunGatJwGLM68f3hskmbQmT8HJik9s827DymS2jScRb2hxqAgD34qfXwfQKKDCoj2okTWeVwsi2CXtA9Ybr76".
Definition GenesisVestingReserve : Z := 849010000 * LPoD.Unit.
Definition GenesisVestingBasis : string := "attested-genesis-team-allocation-reclassification/v1".
Definition GenesisNominalTotal : Z := 10000000000 * LPoD.Unit.
Definition GenesisVestingTrust : string := "operator-attested-exclusive-unissued-development-genesis-reserve/v1".
Definition GenesisLiquidityTrust : string :=
  "operator-attested-exclusive-unissued-initial-liquidity-genesis-allocation/v1".
Definition GenesisLiquidityAmount : Z := 300000000 * 100000000.

(** [time.Date(year, time.February, day, 0, 0, 0, 0, time.UTC).UnixNano()]: the leap
    days and years since 1970, the days of January, and the days of the month before. *)
Definition leaps (year : Z) : Z := year / 4 - year / 100 + year / 400.
Definition february_nano (year day : Z) : Z :=
  (365 * (year - 1970) + (leaps (year - 1) - leaps 1969) + 31 + (day - 1)) * 86400 * 1000000000.

Definition GenesisVestingTranche (index : Z) : result (Z * Z) :=
  reject (index <? 0) || (10 <=? index) with "genesis vesting: invalid tranche" ;;
  Ok (february_nano (2027 + index) 10, if index =? 9 then 84910000 * LPoD.Unit else 84900000 * LPoD.Unit).

(** The loops over [PaidHeights] drop the error of [GenesisVestingTranche]. *)
Definition tranche (i : nat) : Z * Z :=
  match GenesisVestingTranche (Z.of_nat i) with Ok t => t | Err _ => (0, 0) end.
Definition deadline (i : nat) : Z := (tranche i).1.
Definition tranche_amount (i : nat) : Z := (tranche i).2.

(** One tranche in the loop of [Validate]: the sum paid, the last height and whether an
    unpaid tranche was seen. *)
Definition check_paid (fundingHeight height : Z) (s : Z * Z * bool) (e : nat * Z) : result (Z * Z * bool) :=
  let '(paid, previous, gap) := s in
  let '(i, h) := e in
  if h =? 0 then Ok (paid, previous, true)
  else
    reject gap || (h <? fundingHeight) || (height <? h) || (h <? previous) with "genesis vesting: invalid payment sequence" ;;
    Ok (paid +w tranche_amount i, h, gap).

Definition Validate (v : option VestingState) (genesis : Hash32) (height : Z) : result () :=
  match v with
  | None => Ok ()
  | Some v =>
      reject negb (bool_decide (vg_Basis v = GenesisVestingBasis)) || negb (bool_decide (vg_Genesis v = genesis)) ||
             bool_decide (genesis = zero_arr 32) || bool_decide (FundingParent v = zero_arr 32) || (FundingHeight v =? 0) ||
             (height <? FundingHeight v) || negb (bool_decide (Recipient v = GenesisVestingRecipient)) ||
             negb (FundingDebit v =? GenesisVestingReserve) || bool_decide (SourceSnapshot v = zero_arr 32) ||
             (OriginalNonCirculating v <? GenesisVestingReserve) || (GenesisNominalTotal <? OriginalNonCirculating v) ||
             negb (OtherNonCirculating v =? OriginalNonCirculating v -w GenesisVestingReserve)
        with "genesis vesting: invalid funded allocation" ;;
      '(paid, _, _) ← foldM (check_paid (FundingHeight v) height) (0, 0, false) (imap pair (PaidHeights v));
      reject negb (paid =? Paid v) || (GenesisVestingReserve <? paid) || negb (Remaining v =? GenesisVestingReserve -w paid)
        with "genesis vesting: non-conserved reserve" ;;
      match FundingProof v with
      | Some f =>
          if vf_Version f =? 2 then
            reject negb (bool_decide (LiquidityRecipient v = vf_LiquidityRecipient f)) ||
                   negb (LiquidityPaid v =? GenesisLiquidityAmount)
              with "genesis vesting: liquidity release differs from exclusive funding intent" ;; Ok ()
          else
            reject negb (LiquidityPaid v =? 0) || negb (bool_decide (LiquidityRecipient v = EmptyString))
              with "genesis vesting: undeclared liquidity release" ;; Ok ()
      | None =>
          reject negb (LiquidityPaid v =? 0) || negb (bool_decide (LiquidityRecipient v = EmptyString))
            with "genesis vesting: undeclared liquidity release" ;; Ok ()
      end
  end.

Section Funding.
Context `{Crypto} `{LPoDJson}.

Definition without_attestations (f : VestingFunding) : VestingFunding :=
  mkFunding (vf_Version f) (vf_Genesis f) (Snapshot f) (vf_Height f) (vf_Recipient f) (Reserve f) (OtherAllocations f)
    (Trust f) (vf_LiquidityRecipient f) (LiquidityAmount f) (LiquidityTrust f) [].

Definition Message (f : option VestingFunding) : Hash32 :=
  match f with
  | None => zero_arr 32
  | Some f => HashBytes [bytes_of_string "aperod/genesis-development-funding/v1" ++ [x00] ++ Marshal_funding (without_attestations f)]
  end.

(** What a version 2 declaration adds. *)
Definition check_liquidity (a : Allocation) (f : VestingFunding) : result () :=
  reject negb (OtherAllocations f =? GenesisNominalTotal - GenesisVestingReserve - GenesisLiquidityAmount) ||
         negb (LiquidityAmount f =? GenesisLiquidityAmount) || bool_decide (vf_LiquidityRecipient f = EmptyString) ||
         bool_decide (vf_LiquidityRecipient f = GenesisVestingRecipient) || negb (bool_decide (LiquidityTrust f = GenesisLiquidityTrust))
    with "genesis vesting: distinct exclusive liquidity declaration required" ;;
  reject match DecodeAddress (vf_LiquidityRecipient f) with
         | Some (network, _, _) => negb (bool_decide (network = MainnetByte))
         | None => true
         end
    with "genesis vesting: invalid liquidity address" ;;
  reject match al_NominalSnapshot a with
         | Some n => (NominalCirculatingBefore n <? NominalEligible a) ||
                     (NominalCirculatingBefore n -w NominalEligible a <? GenesisLiquidityAmount)
         | None => true
         end
    with "genesis vesting: liquidity exceeds distinct nominal available bound" ;;
  Ok ().

Definition check_attestation (f : VestingFunding) (seen : gset string) (t : Attestation) : result (gset string) :=
  let id := pub_hex (at_Validator t) in
  reject bool_decide (id ∈ seen) || negb (pub_verify (at_Validator t) (Message (Some f)) (at_Signature t))
    with "genesis vesting: invalid or duplicate funding signature" ;;
  Ok ({[id]} ∪ seen).

Definition validate (f : option VestingFunding) (a : option Allocation) (height : Z) : result () :=
  match f, a with
  | Some f, Some a =>
      reject (negb (vf_Version f =? 1) && negb (vf_Version f =? 2)) || negb (bool_decide (vf_Genesis f = al_Genesis a)) ||
             negb (bool_decide (Snapshot f = SnapshotRoot a)) || negb (vf_Height f =? height) ||
             negb (bool_decide (vf_Recipient f = GenesisVestingRecipient)) || negb (Reserve f =? GenesisVestingReserve) ||
             negb (bool_decide (Trust f = GenesisVestingTrust)) || len_is (Attestations f) 0 ||
             Nat.ltb 512 (length (Attestations f))
        with "genesis vesting: separate purpose-bound funding attestation required" ;;
      _ ← (if vf_Version f =? 1 then
             reject negb (OtherAllocations f =? GenesisNominalTotal - GenesisVestingReserve) || negb (LiquidityAmount f =? 0) ||
                    negb (bool_decide (vf_LiquidityRecipient f = EmptyString)) || negb (bool_decide (LiquidityTrust f = EmptyString))
               with "genesis vesting: legacy declaration cannot authorize liquidity" ;; Ok ()
           else check_liquidity a f);
      _ ← foldM (check_attestation f) ∅ (Attestations f);
      Ok ()
  | _, _ => Err "genesis vesting: separate purpose-bound funding attestation required"
  end.

(** Sums of stakes are big integers. *)
Definition active_total (stake : gmap string ValidatorStake) : Z :=
  sumZ (fun e : string * ValidatorStake => if vs_Active e.2 then vs_Amount e.2 else 0) (map_to_list stake).

Definition add_signer (stake : gmap string ValidatorStake) (signed : Z) (t : Attestation) : result Z :=
  match stake !! pub_hex (at_Validator t) with
  | Some s =>
      reject negb (vs_Active s) || (vs_Amount s =? 0) with "genesis vesting: funding signer is not an active validator" ;;
      Ok (signed + vs_Amount s)
  | None => Err "genesis vesting: funding signer is not an active validator"
  end.

Definition verifyQuorum (f : option VestingFunding) (a : option Allocation) (height : Z) (stake : gmap string ValidatorStake)
    : result () :=
  _ ← validate f a height;
  signed ← foldM (add_signer stake) 0 (match f with Some f => Attestations f | None => [] end);
  reject (active_total stake =? 0) || (signed * 3 <=? active_total stake * 2)
    with "genesis vesting: funding lacks canonical two-thirds quorum" ;;
  Ok ().

(** ** The source of the reserve *)

Definition nominalNonCirculatingBound (a : option Allocation) : result Z :=
  match a with
  | Some a =>
      match al_NominalSnapshot a with
      | Some n =>
          reject negb (al_Version a =? 3) || negb (valid n (NominalEligible a) (InitialValidatorRemaining a) (SnapshotRoot a))
            with "genesis vesting: authenticated v3 nominal snapshot required" ;;
          let circulating := NominalCirculatingBefore n in
          reject (GenesisNominalTotal <? circulating) || (GenesisNominalTotal -w circulating <? InitialValidatorRemaining a)
            with "genesis vesting: original 10B allocation exceeded" ;;
          Ok (GenesisNominalTotal -w circulating -w InitialValidatorRemaining a)
      | None => Err "genesis vesting: authenticated v3 nominal snapshot required"
      end
  | None => Err "genesis vesting: authenticated v3 nominal snapshot required"
  end.

Definition validateSource (v : option VestingState) (a : option Allocation) (height : Z) : result () :=
  match v with
  | None => Ok ()
  | Some s =>
      need al from a else "genesis vesting: missing allocation" ;;
      _ ← Validate v (al_Genesis al) height;
      _ ← validate (FundingProof s) a (FundingHeight s);
      bound ← nominalNonCirculatingBound a;
      reject negb (OriginalNonCirculating s =? bound) || negb (bool_decide (SourceSnapshot s = SnapshotRoot al)) ||
             (FundingHeight s <=? al_FundingHeight al)
        with "genesis vesting: source differs from signed genesis accounting" ;;
      Ok ()
  end.

(** ** The preview of a block *)

Definition set_paid (i : nat) (height : Z) (v : VestingState) : VestingState :=
  mkVesting (vg_Basis v) (vg_Genesis v) (FundingHeight v) (FundingParent v) (Recipient v) (FundingDebit v) (SourceSnapshot v)
    (FundingProof v) (OriginalNonCirculating v) (OtherNonCirculating v) (Remaining v -w tranche_amount i)
    (Paid v +w tranche_amount i) (<[i := height]> (PaidHeights v)) (LiquidityRecipient v) (LiquidityPaid v).

(** One tranche of the payment loop of [previewGenesisVesting]. *)
Definition pay_step (timestamp height : Z) (v : VestingState) (i : nat) : result VestingState :=
  if negb (default 0 (PaidHeights v !! i) =? 0) || (timestamp <? deadline i) then Ok v
  else
    reject Remaining v <? tranche_amount i with "genesis vesting: reserve exhausted" ;;
    Ok (set_paid i height v).

(** The reserve at its activation. *)
Definition fundReserve (a : Allocation) (f : VestingFunding) (parent : Hash32) (height bound : Z) : VestingState :=
  let v2 := vf_Version f =? 2 in
  mkVesting GenesisVestingBasis (al_Genesis a) height parent GenesisVestingRecipient GenesisVestingReserve (SnapshotRoot a)
    (Some f) bound (bound -w GenesisVestingReserve) GenesisVestingReserve 0 (replicate 10 0)
    (if v2 then vf_LiquidityRecipient f else EmptyString) (if v2 then GenesisLiquidityAmount else 0).

Definition activate {M} (before : Checkpoint) (r : Settlement M) (height : Z) : result VestingState :=
  _ ← verifyQuorum (GenesisVestingFunding r) (cp_Allocation before) height (Stake r);
  bound ← nominalNonCirculatingBound (cp_Allocation before);
  need a from cp_Allocation before else "panic: nil allocation" ;;
  reject negb (height =? GenesisVestingActivationHeight r) || (height <=? al_FundingHeight a) ||
         (bound <? GenesisVestingReserve) || bool_decide (Parent r = zero_arr 32)
    with "genesis vesting: invalid activation or insufficient unallocated genesis budget" ;;
  reject negb (bool_decide (is_Some (DecodeAddress GenesisVestingRecipient))) with "genesis vesting: invalid recipient" ;;
  need f from GenesisVestingFunding r else "panic: nil funding" ;;
  Ok (fundReserve a f (Parent r) height bound).

(** The vesting of the checkpoint after the block; [next] is its allocation. *)
Definition previewGenesisVesting {M} (before : Checkpoint) (next : option Allocation) (r : Settlement M) (height : Z)
    : result (option VestingState) :=
  if bool_decide (GenesisVesting before = None) &&
     ((GenesisVestingActivationHeight r =? 0) || (height <? GenesisVestingActivationHeight r))
  then Ok None
  else
    reject match cp_Allocation before with Some a => negb (al_Version a =? 3) | None => true end || negb (PositionProtocol r)
      with "genesis vesting: funded v3 canonical nominal allocation required" ;;
    v ← match GenesisVesting before with
        | None => activate before r height
        | Some v =>
            reject negb (GenesisVestingActivationHeight r =? FundingHeight v)
              with "genesis vesting: activation cannot be disabled or changed after funding" ;;
            _ ← validateSource (Some v) (cp_Allocation before) (LPoD.LastHeight (State before));
            Ok v
        end;
    v ← foldM (pay_step (sm_Timestamp r) height) v (seq 0 10);
    _ ← validateSource (Some v) next height;
    Ok (Some v).

(** What the block of [height] pays out. *)
Definition paymentAt (v : option VestingState) (height : Z) : Z :=
  match v with
  | None => 0
  | Some v =>
      if height =? 0 then 0
      else fold_left (fun amount (e : nat * Z) => if e.2 =? height then amount +w tranche_amount e.1 else amount)
             (imap pair (PaidHeights v)) 0
  end.

(** [CheckGenesisVestingConfig] over what it reads of the database: the checkpoint, the
    sale state and the height of the tip. *)
Definition CheckGenesisVestingConfig {T} (checkpoint : result (option Checkpoint)) (sale : result (option T)) (tip : result Z)
    (height : Z) (proof : option VestingFunding) : result () :=
  c ← checkpoint;
  match c ≫= GenesisVesting with
  | Some v =>
      reject negb (height =? FundingHeight v) || bool_decide (proof = None) ||
             negb (bool_decide (Message proof = Message (FundingProof v)))
        with "genesis vesting: committed funding configuration cannot change" ;;
      validate proof (c ≫= cp_Allocation) height
  | None =>
      if height =? 0 then
        reject negb (bool_decide (proof = None)) with "genesis vesting: funding file without activation" ;; Ok ()
      else
        saleState ← sale;
        reject bool_decide (is_Some saleState) with "genesis vesting: active sales require a versioned shared reserve transition" ;;
        tipHeight ← tip;
        reject height <=? tipHeight with "genesis vesting: activation already missed" ;;
        need c from c else "genesis vesting: canonical v3 funding prerequisite missing" ;;
        _ ← validate proof (cp_Allocation c) height;
        bound ← nominalNonCirculatingBound (cp_Allocation c);
        reject bound <? GenesisVestingReserve with "genesis vesting: original nominal cap exhausted" ;;
        Ok ()
  end.

End Funding.

(** ** The schedule *)

Lemma deadline_mono (i j : nat) : (i <= j < 10)%nat -> deadline i <= deadline j.
Proof.
  intros Hij. assert (Hall : forallb (fun j => forallb (fun i => deadline i <=? deadline j) (seq 0 (S j))) (seq 0 10) = true) by by vm_compute.
  rewrite forallb_forall in Hall. specialize (Hall j). rewrite forallb_forall in Hall.
  apply Z.leb_le, Hall; apply in_seq; lia.
Qed.

(** The tranches add up to the reserve. *)
Definition due_sum (k : nat) (hs : list Z) : Z := sumZ (fun e : nat * Z => tranche_amount e.1) (imap (fun i => pair (k + i)%nat) hs).

(** What the tranches with a height pay. *)
Definition paid_sum (k : nat) (hs : list Z) : Z :=
  sumZ (fun e : nat * Z => if e.2 =? 0 then 0 else tranche_amount e.1) (imap (fun i => pair (k + i)%nat) hs).

Lemma tranche_amount_nonneg (i : nat) : 0 <= tranche_amount i.
Proof.
  unfold tranche_amount, tranche, GenesisVestingTranche. destruct (_ || _); simpl; [done|]. by destruct (_ =? 9).
Qed.

Lemma imap_from {A} (k : nat) (x : A) (l : list A) :
  imap (fun i => pair (k + i)%nat) (x :: l) = (k, x) :: imap (fun i => pair (S k + i)%nat) l.
Proof. rewrite imap_cons, Nat.add_0_r. f_equal. apply imap_ext. intros i y _. simpl. f_equal. lia. Qed.

Lemma due_sum_cons k x hs : due_sum k (x :: hs) = tranche_amount k + due_sum (S k) hs.
Proof. unfold due_sum. by rewrite imap_from. Qed.

Lemma paid_sum_cons k x hs : paid_sum k (x :: hs) = (if x =? 0 then 0 else tranche_amount k) + paid_sum (S k) hs.
Proof. unfold paid_sum. by rewrite imap_from. Qed.

Lemma paid_sum_bounds (k : nat) (hs : list Z) : 0 <= paid_sum k hs <= due_sum k hs.
Proof.
  revert k. induction hs as [|x hs IH]; intros k; [done|]. rewrite paid_sum_cons, due_sum_cons.
  specialize (IH (S k)). pose proof (tranche_amount_nonneg k). destruct (x =? 0); lia.
Qed.

Lemma due_sum_all (hs : list Z) : length hs = 10%nat -> due_sum 0 hs = GenesisVestingReserve.
Proof. intros Hl. do 11 (destruct hs as [|? hs]; [done || (by vm_compute)|]). done. Qed.

(** The heights of a valid state: those of the paid tranches, in order, and then none. *)
Fixpoint ordered (fundingHeight height previous : Z) (hs : list Z) : Prop :=
  match hs with
  | [] => True
  | x :: rest =>
      if x =? 0 then Forall (eq 0) rest
      else fundingHeight <= x <= height /\ previous <= x /\ ordered fundingHeight height x rest
  end.

Lemma check_gap (fh h : Z) (k : nat) (paid previous : Z) (hs : list Z) s :
  foldM (check_paid fh h) (paid, previous, true) (imap (fun i => pair (k + i)%nat) hs) = Ok s <->
  Forall (eq 0) hs /\ s = (paid, previous, true).
Proof.
  revert k. induction hs as [|x hs IH]; intros k; [simpl; naive_solver|]. rewrite imap_from. cbn [foldM check_paid].
  rewrite list.Forall_cons. destruct (Z.eqb_spec x 0) as [->|Hx]; cbn [mbind result_bind orb]; [rewrite IH; naive_solver|]. split; [done|naive_solver].
Qed.

Lemma paid_sum_zero (k : nat) (hs : list Z) : Forall (eq 0) hs -> paid_sum k hs = 0.
Proof. intros Hz. revert k. induction Hz as [|x hs <- _ IH]; intros k; [done|]. by rewrite paid_sum_cons, IH. Qed.

Lemma check_ordered (fh h : Z) (k : nat) (paid previous : Z) (hs : list Z) :
  0 <= paid -> is_u64 (paid + due_sum k hs) ->
  (forall p q g, foldM (check_paid fh h) (paid, previous, false) (imap (fun i => pair (k + i)%nat) hs) = Ok (p, q, g) ->
     ordered fh h previous hs /\ p = paid + paid_sum k hs) /\
  (ordered fh h previous hs -> exists q g,
     foldM (check_paid fh h) (paid, previous, false) (imap (fun i => pair (k + i)%nat) hs) = Ok (paid + paid_sum k hs, q, g)).
Proof.
  revert k paid previous. induction hs as [|x hs IH]; intros k paid previous Hp Hu.
  - simpl. split; [intros p q g [= <- <- <-]; split; [done|unfold paid_sum; simpl; lia]|]. intros _. exists previous, false.
    unfold paid_sum. simpl. by rewrite Z.add_0_r.
  - rewrite imap_from. cbn [foldM check_paid ordered]. rewrite paid_sum_cons. rewrite due_sum_cons in Hu.
    pose proof (tranche_amount_nonneg k) as Ht. pose proof (paid_sum_bounds (S k) hs) as Hb.
    destruct (Z.eqb_spec x 0) as [->|Hx]; cbn [mbind result_bind].
    + split.
      * intros p q g E. apply check_gap in E as [Hz [= -> _ _]]. split; [done|]. rewrite paid_sum_zero by done. lia.
      * intros Hz. exists previous, true. rewrite paid_sum_zero, !Z.add_0_r by done. by apply check_gap.
    + rewrite (wrap64_small (paid + tranche_amount k)) by u64lia.
      destruct (IH (S k) (paid + tranche_amount k) x) as [IH1 IH2]; [lia|u64lia|]. cbn [orb].
      destruct (_ || _) eqn:Eb; cbn [mbind result_bind].
      * split; [done|]. intros (Hr & Hq & _). exfalso. repeat (apply orb_true_iff in Eb as [Eb|Eb]); zbool; lia.
      * zbool. split.
        -- intros p q g E. apply IH1 in E as [Ho ->]. split; [done|lia].
        -- intros (_ & _ & Ho). destruct (IH2 Ho) as (q & g & E). exists q, g. rewrite E. do 3 f_equal. lia.
Qed.

(** The heights after the payment loop of a block of [height] at [timestamp]. *)
Definition pay_height (timestamp height : Z) (i : nat) (x : Z) : Z :=
  if negb (x =? 0) || (timestamp <? deadline i) then x else height.

Definition paid_heights (timestamp height : Z) (k : nat) (hs : list Z) : list Z :=
  imap (fun i => pay_height timestamp height (k + i)) hs.

Lemma paid_heights_cons t h k x hs : paid_heights t h k (x :: hs) = pay_height t h k x :: paid_heights t h (S k) hs.
Proof. unfold paid_heights. rewrite imap_cons, Nat.add_0_r. f_equal. apply imap_ext. intros i y _. simpl. f_equal. lia. Qed.

Lemma unpaid_ordered (fh h t : Z) (k : nat) (previous : Z) (hs : list Z) :
  0 < fh <= h -> previous <= h -> (k + length hs <= 10)%nat -> Forall (eq 0) hs -> ordered fh h previous (paid_heights t h k hs).
Proof.
  intros Hf Hp Hk Hz. revert k previous Hp Hk. induction Hz as [|x hs <- Hz IH]; intros k previous Hp Hk; [done|]. simpl in Hk.
  rewrite paid_heights_cons. unfold pay_height. cbn [ordered]. simpl. destruct (Z.ltb_spec t (deadline k)) as [Hd|Hd].
  - rewrite Z.eqb_refl. clear IH. assert (Hd' : forall j, (k <= j < 10)%nat -> t < deadline j) by (intros j Hj; pose proof (deadline_mono k j Hj); lia).
    assert (Hgen : forall j, (k <= j)%nat -> (j + length hs <= 10)%nat -> Forall (eq 0) (paid_heights t h j hs)); [|apply Hgen; lia].
    clear Hd Hk. induction Hz as [|y hs <- _ IHz]; intros j Hj1 Hj2; [constructor|]. simpl in Hj2. rewrite paid_heights_cons.
    constructor; [|apply IHz; lia]. unfold pay_height. simpl. by rewrite (proj2 (Z.ltb_lt t (deadline j)) (Hd' j ltac:(lia))).
  - rewrite (proj2 (Z.eqb_neq h 0)) by lia. split_and!; [lia..|]. apply IH; lia.
Qed.

Lemma ordered_paid (fh h h' t : Z) (k : nat) (previous : Z) (hs : list Z) :
  0 < fh <= h' -> h <= h' -> previous <= h' -> (k + length hs <= 10)%nat -> ordered fh h previous hs ->
  ordered fh h' previous (paid_heights t h' k hs).
Proof.
  intros Hf Hh. revert k previous. induction hs as [|x hs IH]; intros k previous Hp Hk Ho; [done|]. cbn [ordered length] in Ho, Hk.
  destruct (Z.eqb_spec x 0) as [->|Hx].
  - apply unpaid_ordered; try done. by constructor.
  - destruct Ho as (Hr & Hq & Ho). rewrite paid_heights_cons. unfold pay_height. rewrite (proj2 (Z.eqb_neq x 0)) by done. cbn [negb orb ordered].
    rewrite (proj2 (Z.eqb_neq x 0)) by done. split_and!; [lia..|]. apply IH; [lia|lia|done].
Qed.

(** The tranches a block adds are those it pays. *)
Lemma paid_sum_grows (t h : Z) (k : nat) (hs : list Z) : paid_sum k hs <= paid_sum k (paid_heights t h k hs).
Proof.
  revert k. induction hs as [|x hs IH]; intros k; [done|]. rewrite paid_heights_cons, !paid_sum_cons. specialize (IH (S k)).
  pose proof (tranche_amount_nonneg k). unfold pay_height. destruct (Z.eqb_spec x 0) as [->|Hx]; cbn [negb orb].
  - destruct (t <? deadline k); [rewrite Z.eqb_refl; lia|]. destruct (h =? 0); lia.
  - rewrite (proj2 (Z.eqb_neq x 0)) by done. lia.
Qed.

Lemma payment_sum (t h : Z) (k : nat) (hs : list Z) (n : Z) :
  h <> 0 -> Forall (fun x => x <> h) hs -> 0 <= n -> is_u64 (n + due_sum k hs) ->
  fold_left (fun amount (e : nat * Z) => if e.2 =? h then amount +w tranche_amount e.1 else amount)
    (imap (fun i => pair (k + i)%nat) (paid_heights t h k hs)) n = n + (paid_sum k (paid_heights t h k hs) - paid_sum k hs).
Proof.
  intros Hh Hx. revert k n. induction Hx as [|x hs Hx _ IH]; intros k n Hn Hu; [unfold paid_sum, paid_heights; simpl; lia|].
  rewrite paid_heights_cons, imap_from, !paid_sum_cons, due_sum_cons in *. cbn [fold_left fst snd].
  pose proof (tranche_amount_nonneg k) as Ht. pose proof (paid_sum_bounds (S k) hs) as Hb. unfold pay_height.
  destruct (Z.eqb_spec x 0) as [->|Hx0]; cbn [negb orb].
  - destruct (t <? deadline k).
    + rewrite (proj2 (Z.eqb_neq 0 h)), Z.eqb_refl by lia. rewrite IH by (try done; u64lia). lia.
    + rewrite Z.eqb_refl, (proj2 (Z.eqb_neq h 0)) by done. rewrite wrap64_small by u64lia. rewrite IH by (try done; u64lia). lia.
  - rewrite (proj2 (Z.eqb_neq x h)), (proj2 (Z.eqb_neq x 0)) by done. rewrite IH by (try done; u64lia). lia.
Qed.

(** A state with other payments. *)
Definition with_payments (heights : list Z) (paid left_over : Z) (v : VestingState) : VestingState :=
  mkVesting (vg_Basis v) (vg_Genesis v) (FundingHeight v) (FundingParent v) (Recipient v) (FundingDebit v) (SourceSnapshot v)
    (FundingProof v) (OriginalNonCirculating v) (OtherNonCirculating v) left_over paid heights (LiquidityRecipient v) (LiquidityPaid v).

Lemma pay_loop (t h : Z) (v : VestingState) (pre hs : list Z) :
  h <> 0 -> PaidHeights v = pre ++ hs -> 0 <= Paid v -> is_u64 (Paid v + due_sum (length pre) hs) -> is_u64 (Remaining v) ->
  due_sum (length pre) hs - paid_sum (length pre) hs <= Remaining v ->
  let paid := paid_sum (length pre) (paid_heights t h (length pre) hs) - paid_sum (length pre) hs in
  foldM (pay_step t h) v (seq (length pre) (length hs)) =
    Ok (with_payments (pre ++ paid_heights t h (length pre) hs) (Paid v + paid) (Remaining v - paid) v).
Proof.
  intros Hh. revert v pre. induction hs as [|x hs IH]; intros v pre Hv Hp Hu Hr Hle.
  - simpl. unfold paid_sum. simpl. rewrite Z.sub_diag, Z.add_0_r, Z.sub_0_r. unfold paid_heights. simpl. rewrite <- Hv. by destruct v.
  - cbn [length seq foldM]. rewrite paid_heights_cons, !paid_sum_cons, due_sum_cons in *. set (k := length pre) in *.
    pose proof (tranche_amount_nonneg k) as Ht. pose proof (paid_sum_bounds (S k) hs) as Hb.
    assert (Hlook : PaidHeights v !! k = Some x) by (rewrite Hv; by apply list_lookup_middle).
    assert (Hpre : S k = length (pre ++ [pay_height t h k x])) by (rewrite length_app; simpl; lia).
    assert (Hstep : pay_step t h v k = if negb (x =? 0) || (t <? deadline k) then Ok v
                     else reject Remaining v <? tranche_amount k with "genesis vesting: reserve exhausted" ;; Ok (set_paid k h v))
      by (unfold pay_step; by rewrite Hlook).
    rewrite Hstep. clear Hstep. unfold pay_height in *. destruct (negb (x =? 0) || (t <? deadline k)) eqn:E; cbn [mbind result_bind].
    + rewrite Hpre, IH; rewrite <- ?Hpre; try done.
      * f_equal. f_equal; [by rewrite <- app_assoc|destruct (x =? 0); lia..].
      * rewrite <- app_assoc. exact Hv.
      * u64lia.
      * destruct (x =? 0); lia.
    + apply orb_false_iff in E as [E1 _]. apply negb_false_iff, Z.eqb_eq in E1. subst x. rewrite Z.eqb_refl, Z.add_0_l, (proj2 (Z.eqb_neq h 0)) in * by done.
      rewrite (proj2 (Z.ltb_ge _ _)) by lia. cbn [mbind result_bind].
      assert (Hset : set_paid k h v = with_payments (pre ++ h :: hs) (Paid v + tranche_amount k) (Remaining v - tranche_amount k) v).
      { unfold set_paid, with_payments. rewrite !wrap64_small by u64lia. f_equal. rewrite Hv. unfold k.
        rewrite insert_app_r_alt by lia. by rewrite Nat.sub_diag. }
      rewrite Hset, Hpre, IH; rewrite <- ?Hpre; cbn [with_payments PaidHeights Paid Remaining]; try done.
      * unfold with_payments. cbn [vg_Basis vg_Genesis FundingHeight FundingParent Recipient FundingDebit SourceSnapshot
          FundingProof OriginalNonCirculating OtherNonCirculating LiquidityRecipient LiquidityPaid]. f_equal. f_equal; [lia|lia|by rewrite <- app_assoc].
      * by rewrite <- app_assoc.
      * lia.
      * u64lia.
      * u64lia.
      * lia.
Qed.

(** ** The preview of a funded reserve *)

Section Preview.
Context `{Crypto} `{LPoDJson}.

Lemma Validate_inv (v : VestingState) (genesis : Hash32) (h : Z) :
  length (PaidHeights v) = 10%nat -> Validate (Some v) genesis h = Ok () ->
  ordered (FundingHeight v) h 0 (PaidHeights v) /\ Paid v = paid_sum 0 (PaidHeights v) /\
  Remaining v = GenesisVestingReserve - paid_sum 0 (PaidHeights v) /\ FundingHeight v <> 0 /\ FundingHeight v <= h.
Proof.
  intros Hl E. unfold Validate in E. apply reject_ok in E as [C1 E]. apply bind_ok in E as ([[p q] g] & E1 & E). apply reject_ok in E as [C2 _]. zbool.
  pose proof (due_sum_all _ Hl) as Hd. pose proof (paid_sum_bounds 0 (PaidHeights v)) as Hb.
  destruct (check_ordered (FundingHeight v) h 0 0 0 (PaidHeights v)) as [HC _]; [lia|by rewrite Hd|].
  destruct (HC p q g E1) as [Ho ->]. rewrite Z.add_0_l in *. rewrite Hd in Hb. rewrite wrap64_small in * by (unfold GenesisVestingReserve, LPoD.Unit in *; u64lia).
  split_and!; try done.
Qed.

(** Payments in order keep a state valid at a later height. *)
Lemma Validate_paid (v : VestingState) (genesis : Hash32) (h h' : Z) (hs : list Z) :
  Validate (Some v) genesis h = Ok () -> h <= h' -> length hs = 10%nat -> ordered (FundingHeight v) h' 0 hs ->
  Validate (Some (with_payments hs (paid_sum 0 hs) (GenesisVestingReserve - paid_sum 0 hs) v)) genesis h' = Ok ().
Proof.
  intros E Hh Hl Ho. unfold Validate in *. apply reject_ok in E as [C1 E]. apply bind_ok in E as (s & _ & E). destruct s as [[p q] g].
  apply reject_ok in E as [_ E]. cbn [with_payments vg_Basis vg_Genesis FundingHeight FundingParent Recipient FundingDebit SourceSnapshot
    FundingProof OriginalNonCirculating OtherNonCirculating LiquidityRecipient LiquidityPaid PaidHeights Paid Remaining].
  pose proof (due_sum_all _ Hl) as Hd. pose proof (paid_sum_bounds 0 hs) as Hb. rewrite Hd in Hb.
  assert (Hu : is_u64 (GenesisVestingReserve - paid_sum 0 hs)) by (unfold GenesisVestingReserve, LPoD.Unit in *; u64lia).
  apply reject_ok. split.
  - repeat (apply orb_false_iff in C1 as [C1 ?]). repeat (apply orb_false_iff; split); try done. zbool. apply Z.ltb_ge. lia.
  - destruct (check_ordered (FundingHeight v) h' 0 0 0 hs) as [_ HC]; [lia|by rewrite Hd|]. destruct (HC Ho) as (q' & g' & E1).
    rewrite Z.add_0_l in E1. apply bind_ok. exists (paid_sum 0 hs, q', g'). split; [exact E1|]. apply reject_ok. split; [|exact E].
    rewrite (wrap64_small _ Hu), !Z.eqb_refl. cbn [negb orb]. rewrite orb_false_r. apply Z.ltb_ge. lia.
Qed.

(** The parts of an allocation the source of the reserve depends on. *)
Definition same_source (a a' : Allocation) : Prop :=
  al_Genesis a' = al_Genesis a /\ SnapshotRoot a' = SnapshotRoot a /\ al_FundingHeight a' = al_FundingHeight a /\
  al_Version a' = al_Version a /\ NominalEligible a' = NominalEligible a /\
  InitialValidatorRemaining a' = InitialValidatorRemaining a /\ al_NominalSnapshot a' = al_NominalSnapshot a.

Lemma validateSource_paid (v : VestingState) (a a' : Allocation) (h h' : Z) (hs : list Z) :
  validateSource (Some v) (Some a) h = Ok () -> same_source a a' -> h <= h' -> length hs = 10%nat -> ordered (FundingHeight v) h' 0 hs ->
  validateSource (Some (with_payments hs (paid_sum 0 hs) (GenesisVestingReserve - paid_sum 0 hs) v)) (Some a') h' = Ok ().
Proof.
  intros E (S1 & S2 & S3 & S4 & S5 & S6 & S7) Hh Hl Ho. unfold validateSource in *. apply bind_ok in E as ([] & EV & E). apply bind_ok in E as ([] & EF & E).
  apply bind_ok in E as (b & EB & E). rewrite S1, S2, S3. rewrite (Validate_paid v _ h h' hs EV) by done. cbn [mbind result_bind].
  assert (EF' : validate (FundingProof v) (Some a') (FundingHeight v) = Ok ()).
  { rewrite <- EF. unfold validate, check_liquidity. destruct (FundingProof v); [|done]. by rewrite S1, S2, S5, S7. }
  assert (EB' : nominalNonCirculatingBound (Some a') = Ok b).
  { rewrite <- EB. unfold nominalNonCirculatingBound. by rewrite S2, S4, S5, S6, S7. }
  cbn [with_payments FundingProof FundingHeight OriginalNonCirculating SourceSnapshot]. rewrite EF'. cbn [mbind result_bind]. rewrite EB'. exact E.
Qed.

Lemma heights_before (fh h previous : Z) (hs : list Z) : 0 < h -> ordered fh h previous hs -> Forall (fun x => x <> h + 1) hs.
Proof.
  intros Hh. revert previous. induction hs as [|x hs IH]; intros previous Ho; [done|]. cbn [ordered] in Ho. destruct (Z.eqb_spec x 0) as [->|Hx].
  - constructor; [lia|]. eapply list.Forall_impl; [exact Ho|]. intros y <-. lia.
  - destruct Ho as (Hr & _ & Ho). constructor; [lia|]. by eapply IH.
Qed.

(** A funded reserve that is valid at one height can be previewed for the next, at
    any time: the block pays exactly the unpaid tranches whose date has passed and no
    other, the heights of those paid before stay, what it pays out is what the reserve
    loses, paid and remaining add up to the reserve, and the state is valid again; the
    errors for an exhausted reserve and a broken payment sequence cannot occur. *)
Theorem vesting_schedule {M} (before : Checkpoint) (v : VestingState) (a a' : Allocation) (r : Settlement M) (height : Z) :
  GenesisVesting before = Some v -> cp_Allocation before = Some a -> PositionProtocol r = true ->
  GenesisVestingActivationHeight r = FundingHeight v -> length (PaidHeights v) = 10%nat -> 0 <= FundingHeight v ->
  validateSource (Some v) (Some a) (LPoD.LastHeight (State before)) = Ok () -> same_source a a' ->
  height = LPoD.LastHeight (State before) + 1 ->
  exists v', previewGenesisVesting before (Some a') r height = Ok (Some v') /\
    PaidHeights v' = imap (pay_height (sm_Timestamp r) height) (PaidHeights v) /\
    paymentAt (Some v') height = Paid v' - Paid v /\ 0 <= Paid v <= Paid v' /\ Paid v' + Remaining v' = GenesisVestingReserve /\
    validateSource (Some v') (Some a') height = Ok ().
Proof.
  intros Hv Ha Hp Hact Hl Hf Hs Hsame Hh. set (last := LPoD.LastHeight (State before)) in *. set (t := sm_Timestamp r).
  assert (Hver : al_Version a = 3).
  { unfold validateSource in Hs. apply bind_ok in Hs as (u1 & _ & Hs). apply bind_ok in Hs as (u2 & _ & Hs). apply bind_ok in Hs as (b & Hs & _).
    unfold nominalNonCirculatingBound in Hs. destruct (al_NominalSnapshot a); [|done]. apply reject_ok in Hs as [C _]. by zbool. }
  assert (HV : Validate (Some v) (al_Genesis a) last = Ok ()) by (unfold validateSource in Hs; by apply bind_ok in Hs as ([] & Hs & _)).
  destruct (Validate_inv v _ last Hl HV) as (Ho & EP & ER & Hfn & Hfl).
  pose proof (due_sum_all _ Hl) as Hd. pose proof (paid_sum_bounds 0 (PaidHeights v)) as Hb. rewrite Hd in Hb.
  assert (HR : is_u64 GenesisVestingReserve) by done.
  assert (Ho' : ordered (FundingHeight v) height 0 (paid_heights t height 0 (PaidHeights v))) by (apply (ordered_paid _ last); lia || done).
  assert (Hl' : length (paid_heights t height 0 (PaidHeights v)) = 10%nat) by (unfold paid_heights; by rewrite length_imap).
  set (hs' := paid_heights t height 0 (PaidHeights v)) in *.
  pose proof (validateSource_paid v a a' last height hs' Hs Hsame ltac:(lia) Hl' Ho') as Hs'.
  set (v' := with_payments hs' (paid_sum 0 hs') (GenesisVestingReserve - paid_sum 0 hs') v) in *.
  exists v'. split_and!.
  - unfold previewGenesisVesting. rewrite Hv, bool_decide_eq_false_2 by done. cbn [andb]. rewrite Ha, Hver, Hp. cbn [negb orb Z.eqb Pos.eqb].
    rewrite Hact, Z.eqb_refl. cbn [negb]. fold last. rewrite Hs. cbn [mbind result_bind].
    pose proof (pay_loop t height v [] (PaidHeights v) ltac:(lia) eq_refl ltac:(lia) ltac:(rewrite EP; cbn [length]; rewrite Hd; unfold GenesisVestingReserve, LPoD.Unit in *; u64lia)
      ltac:(u64lia) ltac:(cbn [length]; lia)) as Hloop.
    cbn [length app] in Hloop. rewrite Hl in Hloop. fold hs' in Hloop.
    assert (Ev : with_payments hs' (Paid v + (paid_sum 0 hs' - paid_sum 0 (PaidHeights v))) (Remaining v - (paid_sum 0 hs' - paid_sum 0 (PaidHeights v))) v = v').
    { unfold v'. f_equal; lia. }
    rewrite Ev in Hloop. fold t. rewrite Hloop. cbn [mbind result_bind]. rewrite Hs'. done.
  - done.
  - unfold paymentAt. rewrite (proj2 (Z.eqb_neq height 0)) by lia. cbn [v' with_payments PaidHeights Paid].
    rewrite EP. transitivity (0 + (paid_sum 0 hs' - paid_sum 0 (PaidHeights v))); [|lia].
    apply (payment_sum t height 0 (PaidHeights v) 0); [lia| |lia|by rewrite Z.add_0_l, Hd].
    subst height. apply (heights_before (FundingHeight v) last 0); [lia|done].
  - lia.
  - rewrite EP. cbn [v' with_payments Paid]. apply paid_sum_grows.
  - cbn [v' with_payments Paid Remaining]. lia.
  - exact Hs'.
Qed.

End Preview.

End GenesisVesting.
