(* ===== verification/LPoDPositions.v ===== *)
(** Deposits of the LPoD protocol: [store/lpod_positions.go], [store/lpod_vault_rank.go],
    and the reward debit of [store/lpod.go].

    A checkpoint binds the accounts of [LPoD] to the positions that own its liability
    and its principal; a block accrues every position, applies the signed deposits and
    withdrawals, routes the positions of vaults that left, and settles.  The canonical
    block of the parent height, the checkpoint of the tip and the one a migration
    creates are what the store reads of the database, and arguments here.  Go visits a
    map in any order: [iter] is the order of the positions; the other loops over maps
    build a map or end in a sort. *)

From stdpp Require Import base gmap list sorting strings.
From S2P Require Import Prelude Bytes Crypto Curve Pedersen Stealth Transaction Block LPoD LPoDCheckpoint GenesisVesting.
Import Transaction Block LPoDCheckpoint.

Module LPoDPositions.

Definition LPoDMaxPositions : nat := 4096.
Definition LPoDMaxElapsedNS : Z := 15000000000.
Definition lpodAPRDenominator : Z := 100 * LPoD.YearSeconds * 1000000000.
Definition lpodMaxVaultNAPRO : Z := 100000000 * LPoD.Unit.
Definition minValidator : Z := 100000 * LPoD.Unit.

(** ** Positions *)

Definition lpodAdd (a b : Z) : result Z :=
  reject (MaxUint64 -w a <? b) with "lpod: amount overflow" ;; Ok (a +w b).

Definition lpodPositionID (a : LPoDPositionAction) : string := hex_encode (arr_list (pa_PositionID a)).
Definition lpodVaultID (a : LPoDPositionAction) : string := hex_encode (arr_list (pa_Vault a)).

Definition LPoDEffectiveVault (p : Position) : Point32 := default (pa_Vault (p_Deposit p)) (EffectiveVault p).
Definition lpodPositionVaultID (p : Position) : string := hex_encode (arr_list (LPoDEffectiveVault p)).

(** [p.Deposit.Amount - p.Withdrawn]. *)
Definition remaining (p : Position) : Z := pa_Amount (p_Deposit p) -w Withdrawn p.

(** What the owner signs to withdraw [amount]. *)
Definition withdrawalOf (p : Position) (amount : Z) : LPoDPositionAction :=
  let d := p_Deposit p in
  mkPosition LPoDWithdraw (pa_Genesis d) (pa_PositionID d) (pa_Vault d) (p_Nonce p +w 1) (pa_Beneficiary d)
    (pa_Owner d) (pa_SourceTx d) (pa_SourceIndex d) (pa_SourcePub d) (pa_Amount d) (pa_Blind d) amount.

Definition LPoDWithdrawalAmount (p : Position) (a : LPoDPositionAction) : result Z :=
  reject Returned p || negb (UnlockHeight p =? 0) || (pa_Amount (p_Deposit p) <=? Withdrawn p) || (p_Nonce p =? MaxUint64)
    with "lpod: unknown, closed or exhausted position" ;;
  reject negb (bool_decide (withdrawalOf p (pa_WithdrawAmount a) = a))
    with "lpod: withdrawal changes ownership, source, vault or nonce" ;;
  let amount := if pa_WithdrawAmount a =? 0 then remaining p else pa_WithdrawAmount a in
  reject (remaining p <? amount) with "lpod: withdrawal exceeds remaining principal" ;;
  Ok amount.

(** The position after a withdrawal of [amount] in the block of [height]. *)
Definition withdrawn (p : Position) (amount height : Z) : Position :=
  let w := Withdrawn p +w amount in
  let returned := w =? pa_Amount (p_Deposit p) in
  mkPos (p_Deposit p) (p_Nonce p +w 1) (if returned then height else UnlockHeight p) returned (Due p) (APRCarry p) w
    (EffectiveVault p) (RouteHeight p) (AutoReturned p).

Definition set_due (d : Z) (p : Position) : Position :=
  mkPos (p_Deposit p) (p_Nonce p) (UnlockHeight p) (Returned p) d (APRCarry p) (Withdrawn p) (EffectiveVault p)
    (RouteHeight p) (AutoReturned p).
Definition set_accrued (d carry : Z) (p : Position) : Position :=
  mkPos (p_Deposit p) (p_Nonce p) (UnlockHeight p) (Returned p) d carry (Withdrawn p) (EffectiveVault p)
    (RouteHeight p) (AutoReturned p).
Definition set_route (v : option Point32) (h : Z) (p : Position) : Position :=
  mkPos (p_Deposit p) (p_Nonce p) (UnlockHeight p) (Returned p) (Due p) (APRCarry p) (Withdrawn p) v h (AutoReturned p).
Definition refunded (height : Z) (p : Position) : Position :=
  mkPos (p_Deposit p) (p_Nonce p) height true (Due p) (APRCarry p) (pa_Amount (p_Deposit p)) (EffectiveVault p)
    (RouteHeight p) true.

(** Map entries read with the zero value. *)
Abbreviation stake_of m v := (default noStake (m !! v)).
Abbreviation amount_of m v := (default 0 (m !! v)).

(** [sort.Strings] *)
Definition str_le (a b : string) : Prop := String.leb a b = true.

#[export] Instance str_le_dec : RelDecision str_le.
Proof. intros a b. unfold str_le. apply _. Defined.

Definition sorted_keys {A} (m : gmap string A) : list string := merge_sort str_le (map_to_list m).*1.

(** ** Ranking and routing: [store/lpod_vault_rank.go] *)

Record VaultRank := mkRank { vr_ID : string; ValidatorStakeNAPRO : Z; vr_GuardianStake : Z; vr_TotalStake : Z }.

Definition rank_before (a b : VaultRank) : Prop :=
  vr_TotalStake b < vr_TotalStake a \/ (vr_TotalStake a = vr_TotalStake b /\ str_le (vr_ID a) (vr_ID b)).

#[export] Instance rank_before_dec a b : Decision (rank_before a b).
Proof. unfold rank_before. apply _. Defined.

Definition rank_of (guardians : gmap string Z) (e : string * ValidatorStake) : option VaultRank :=
  let '(id, stake) := e in
  if bool_decide (id = EmptyString) || negb (vs_Active stake) || (vs_Amount stake <? minValidator) then None
  else match lpodAdd (vs_Amount stake) (amount_of guardians id) with
       | Ok total => Some (mkRank id (vs_Amount stake) (amount_of guardians id) total)
       | Err _ => None
       end.

Definition LPoDEligibleVaults (stakes : gmap string ValidatorStake) (guardians : gmap string Z) : list VaultRank :=
  take 21 (merge_sort rank_before (omap (rank_of guardians) (map_to_list stakes))).

(** One candidate of [lpodRouteDestination]; the best so far is [""] at the start. *)
Definition route_step (source : string) (sourceBefore principal : Z) (stakes : gmap string ValidatorStake)
    (totals : gmap string Z) (eligible : gset string) (best : string * Z) (id : string) : result (string * Z) :=
  let stake := stake_of stakes id in
  if bool_decide (id = source) || negb (bool_decide (id ∈ eligible)) || negb (vs_Active stake) || (vs_Amount stake <? minValidator)
  then Ok best
  else
    total ← lpodAdd (vs_Amount stake) (amount_of totals id);
    if (sourceBefore <? total) || (lpodMaxVaultNAPRO <? total) || (lpodMaxVaultNAPRO -w total <? principal) then Ok best
    else if bool_decide (best.1 = EmptyString) || (best.2 <? total) then Ok (id, total) else Ok best.

Definition lpodRouteDestination (source : string) (sourceBefore principal : Z) (stakes : gmap string ValidatorStake)
    (totals : gmap string Z) (eligible : gset string) : result string :=
  best ← foldM (route_step source sourceBefore principal stakes totals eligible) (EmptyString, 0) (sorted_keys stakes);
  Ok best.1.

Section Positions.
Variable iter : gmap string Position -> list (string * Position).

Definition guardian_step (totals : gmap string Z) (e : string * Position) : result (gmap string Z) :=
  let '(_, p) := e in
  if Returned p then Ok totals
  else n ← lpodAdd (amount_of totals (lpodPositionVaultID p)) (remaining p); Ok (<[lpodPositionVaultID p := n]> totals).

(** [None] is the nil checkpoint. *)
Definition LPoDEffectiveGuardianTotals (c : option Checkpoint) : result (gmap string Z) :=
  match c with Some c => foldM guardian_step ∅ (iter (Positions c)) | None => Ok ∅ end.

(** ** Validity of a checkpoint *)

Definition corrupt_position (lastHeight : Z) (id : string) (p : Position) : bool :=
  let d := p_Deposit p in
  negb (bool_decide (id = lpodPositionID d)) || negb (bool_decide (pa_Action d = LPoDDeposit)) || negb (pa_Nonce d =? 0) ||
  negb (pa_WithdrawAmount d =? 0) || (pa_Amount d =? 0) || (pa_Amount d <? Withdrawn p) ||
  negb (Bool.eqb (Returned p) (Withdrawn p =? pa_Amount d)) ||
  (negb (AutoReturned p) && negb (Bool.eqb (p_Nonce p =? 0) (Withdrawn p =? 0))) ||
  (AutoReturned p && negb (Returned p)) ||
  (lpodAPRDenominator <=? APRCarry p) || negb (Bool.eqb (UnlockHeight p =? 0) (negb (Returned p))) || (lastHeight <? UnlockHeight p).

Definition corrupt_route (lastHeight : Z) (p : Position) : bool :=
  match EffectiveVault p with
  | Some v => bool_decide (v = pa_Vault (p_Deposit p)) || (RouteHeight p =? 0) || (lastHeight <? RouteHeight p)
  | None => false
  end.

Definition check_position (lastHeight : Z) (s : Z * Z) (e : string * Position) : result (Z * Z) :=
  let '(locked, due) := s in
  let '(id, p) := e in
  reject corrupt_position lastHeight id p with "lpod: corrupt canonical position" ;;
  reject corrupt_route lastHeight p with "lpod: corrupt effective vault route" ;;
  locked ← (if Returned p then Ok locked else lpodAdd locked (remaining p));
  due ← lpodAdd due (Due p);
  Ok (locked, due).

Definition validatePositions (c : Checkpoint) : result () :=
  reject (LPoDMaxPositions <? size (Positions c))%nat with "lpod: position capacity exceeded" ;;
  '(locked, due) ← foldM (check_position (LPoD.LastHeight (State c))) (0, 0) (iter (Positions c));
  match lpodAdd (PrincipalLocked c) (PrincipalReturned c) with
  | Ok total =>
      reject negb (total =? PrincipalDeposited c) || negb (locked =? PrincipalLocked c) ||
             (bool_decide (is_Some (cp_Allocation c)) && negb (due =? LPoD.UnfundedLiability (State c)))
        with "lpod: principal or position liability conservation failed" ;; Ok ()
  | Err _ => Err "lpod: principal or position liability conservation failed"
  end.

End Positions.

(** ** The transition of a block *)

Section Transition.
Context `{Crypto} `{Json} `{LPoDJson} {M : Type}.
Variable iter : gmap string Position -> list (string * Position).
Variables (r : Settlement M) (height : Z).

(** The positions that go on, the principal of every vault, the vaults of this block
    and the vault each prior position is entitled at. *)
Record Work := mkWork {
  wk_next : gmap string Position; wk_totals : gmap string Z; wk_vaults : gset string; wk_entitled : gmap string string
}.

Definition carry_over (w : Work) (e : string * Position) : result Work :=
  let '(id, p) := e in
  if Returned p && (Due p =? 0) then Ok w
  else
    let v := lpodPositionVaultID p in
    totals ← (if UnlockHeight p =? 0
              then n ← lpodAdd (amount_of (wk_totals w) v) (remaining p); Ok (<[v := n]> (wk_totals w))
              else Ok (wk_totals w));
    Ok (mkWork (<[id := p]> (wk_next w)) totals ({[v]} ∪ wk_vaults w) (<[id := v]> (wk_entitled w))).

(** A vault that leaves in this block is still judged by its prior stake. *)
Definition routing_stake (v : string) : ValidatorStake :=
  let stake := stake_of (Stake r) v in
  let prior := stake_of (PreviousStake r) v in
  if negb (vs_Active stake) && vs_Active prior then prior else stake.

Record Accrual := mkAccrual {
  ac_next : gmap string Position; ac_accrual : gmap string Z; ac_arrears : gmap string Z
}.

Definition accrue (elapsed : Z) (totals : gmap string Z) (s : Accrual) (e : string * Position) : result Accrual :=
  let '(id, p) := e in
  let v := lpodPositionVaultID p in
  owed ← lpodAdd (amount_of (ac_arrears s) v) (Due p);
  let arrears := <[v := owed]> (ac_arrears s) in
  let stake := routing_stake v in
  if negb (UnlockHeight p =? 0) || negb (vs_Active stake) then Ok (mkAccrual (ac_next s) (ac_accrual s) arrears)
  else
    total ← lpodAdd (vs_Amount stake) (amount_of totals v);
    tier ← LPoD.TierFor (if lpodMaxVaultNAPRO <? total then lpodMaxVaultNAPRO else total);
    let n := remaining p * LPoD.APRPercent tier * elapsed + APRCarry p in
    let q := Z.quot n lpodAPRDenominator in
    reject negb (is_u64b q) with "lpod: accrued liability overflow" ;;
    due ← lpodAdd (Due p) q;
    earned ← lpodAdd (amount_of (ac_accrual s) v) q;
    Ok (mkAccrual (<[id := set_accrued due (Z.rem n lpodAPRDenominator) p]> (ac_next s)) (<[v := earned]> (ac_accrual s)) arrears).

(** The state the operations and the routing change. *)
Record Ops := mkOps {
  op_next : gmap string Position; op_totals : gmap string Z; op_vaults : gset string;
  op_deposited : Z; op_locked : Z; op_returned : Z
}.

Definition apply_deposit (s : Ops) (a : LPoDPositionAction) : result Ops :=
  let id := lpodPositionID a in
  let v := lpodVaultID a in
  reject bool_decide (is_Some (op_next s !! id)) || (LPoDMaxPositions <=? size (op_next s))%nat
    with "lpod: replayed deposit or position capacity reached" ;;
  let stake := stake_of (Stake r) v in
  reject negb (vs_Active stake) with "lpod: deposits require an active authenticated validator" ;;
  total ← lpodAdd (vs_Amount stake) (amount_of (op_totals s) v);
  total ← lpodAdd total (pa_Amount a);
  reject match LPoD.TierFor total with Ok tier => pa_Amount a <? LPoD.MinimumDeposit tier | Err _ => true end
    with "lpod: deposit outside vault tier limits" ;;
  deposited ← lpodAdd (op_deposited s) (pa_Amount a);
  locked ← lpodAdd (op_locked s) (pa_Amount a);
  n ← lpodAdd (amount_of (op_totals s) v) (pa_Amount a);
  Ok (mkOps (<[id := newPosition a]> (op_next s)) (<[v := n]> (op_totals s)) ({[v]} ∪ op_vaults s) deposited locked (op_returned s)).

Definition apply_withdrawal (s : Ops) (a : LPoDPositionAction) : result Ops :=
  let id := lpodPositionID a in
  need p from op_next s !! id else "lpod: unknown or replayed withdrawal" ;;
  amount ← LPoDWithdrawalAmount p a;
  returned ← lpodAdd (op_returned s) amount;
  let v := lpodPositionVaultID p in
  Ok (mkOps (<[id := withdrawn p amount height]> (op_next s)) (<[v := amount_of (op_totals s) v -w amount]> (op_totals s))
        (op_vaults s) (op_deposited s) (op_locked s -w amount) returned).

Definition apply_operation (genesis : Hash32) (s : Ops) (tx : Transaction) : result Ops :=
  if negb (IsLPoDPosition tx) then Ok s
  else
    a ← positionAction tx;
    reject negb (bool_decide (pa_Genesis a = genesis)) with "lpod: position belongs to another chain" ;;
    if bool_decide (pa_Action a = LPoDDeposit) then apply_deposit s a
    else if bool_decide (pa_Action a = LPoDWithdraw) then apply_withdrawal s a
    else Ok s.

(** What every vault held before this block, with its prior stake. *)
Definition before_total (m : gmap string Z) (e : string * Z) : result (gmap string Z) :=
  let '(source, guardian) := e in
  n ← lpodAdd (vs_Amount (stake_of (PreviousStake r) source)) guardian; Ok (<[source := n]> m).

(** A position whose vault left moves to another vault, or its principal returns. *)
Definition route_position (sourceBefore : gmap string Z) (eligible : gset string) (s : Ops) (id : string) : result Ops :=
  need p from op_next s !! id else "panic: position of a key" ;;
  if Returned p then Ok s
  else
    let source := lpodPositionVaultID p in
    let sourceStake := stake_of (Stake r) source in
    if vs_Active sourceStake && (minValidator <=? vs_Amount sourceStake) then Ok s
    else
      let rest := remaining p in
      best ← lpodRouteDestination source (amount_of sourceBefore source) rest (Stake r) (op_totals s) eligible;
      let totals := <[source := amount_of (op_totals s) source -w rest]> (op_totals s) in
      if bool_decide (best = EmptyString) then
        returned ← lpodAdd (op_returned s) rest;
        Ok (mkOps (<[id := refunded height p]> (op_next s)) totals (op_vaults s) (op_deposited s) (op_locked s -w rest) returned)
      else
        match hex_decode best with
        | Some raw =>
            reject negb (len_is raw 32) with "lpod: invalid lifecycle destination" ;;
            let destination := copy_arr 32 raw in
            let p1 := if bool_decide (destination = pa_Vault (p_Deposit p)) then set_route None 0 p
                      else set_route (Some destination) height p in
            n ← lpodAdd (amount_of totals best) rest;
            Ok (mkOps (<[id := p1]> (op_next s)) (<[best := n]> totals) ({[best]} ∪ op_vaults s)
                  (op_deposited s) (op_locked s) (op_returned s))
        | None => Err "lpod: invalid lifecycle destination"
        end.

Definition prior_total (m : gmap string Z) (e : string * Position) : result (gmap string Z) :=
  let '(_, p) := e in
  let v := lpodPositionVaultID p in
  if UnlockHeight p =? 0 then n ← lpodAdd (amount_of m v) (remaining p); Ok (<[v := n]> m) else Ok m.

Definition LPoDRewardFor (rest : Z) : Z :=
  if rest =? 0 then LPoD.Unit else if rest <? 3 * LPoD.Unit then rest else 3 * LPoD.Unit.

(** The line of a vault in the settlement. *)
Definition vault_line (validatorRemaining : Z) (priorTotals accrual arrears : gmap string Z) (id : string) : result LPoD.Vault :=
  let stake := routing_stake id in
  total ← lpodAdd (vs_Amount stake) (amount_of priorTotals id);
  let total := if negb (vs_Active stake) || (total <? minValidator) then minValidator else total in
  let total := if lpodMaxVaultNAPRO <? total then lpodMaxVaultNAPRO else total in
  let guardian := amount_of priorTotals id in
  let total := if total <? guardian then guardian else total in
  income ← (if bool_decide (id = Proposer r)
            then reject negb (vs_Active stake) with "lpod: proposer has no authenticated active stake" ;;
                 Ok (LPoDRewardFor validatorRemaining)
            else Ok 0);
  Ok (LPoD.mkVault id total guardian income 0 (Some (amount_of accrual id)) (amount_of arrears id)).

Definition mapM_result {X Y} (f : X -> result Y) (l : list X) : result (list Y) :=
  foldM (fun ys x => y ← f x; Ok (ys ++ [y])) [] l.

Definition elapsed_of (parent : Block) : Z :=
  let elapsed := wrap64 (sm_Timestamp r - Timestamp (Header parent)) in
  if LPoDMaxElapsedNS <? elapsed then LPoDMaxElapsedNS else elapsed.

(** The positions after accrual, operations and routing, with the vaults to settle. *)
Definition positionTransition (parent : result Block) (before : Checkpoint)
    : result (Checkpoint * list LPoD.Vault * gmap string string) :=
  need al from cp_Allocation before else "lpod: positions require reconciled allocation" ;;
  _ ← validatePositions iter before;
  parent ← parent;
  reject negb (bool_decide (block_Hash parent = Parent r)) || (sm_Timestamp r <=? Timestamp (Header parent))
    with "lpod: nonmonotonic or noncanonical accrual clock" ;;
  w ← foldM carry_over (mkWork ∅ ∅ {[Proposer r]} ∅) (iter (Positions before));
  ac ← foldM (accrue (elapsed_of parent) (wk_totals w)) (mkAccrual (wk_next w) ∅ ∅) (iter (wk_next w));
  ops ← foldM (apply_operation (al_Genesis al))
    (mkOps (ac_next ac) (wk_totals w) (wk_vaults w) (PrincipalDeposited before) (PrincipalLocked before) (PrincipalReturned before))
    (Transactions r);
  sourceBefore ← foldM before_total ∅ (map_to_list (op_totals ops));
  let eligible := list_to_set (vr_ID <$> LPoDEligibleVaults (Stake r) (op_totals ops)) in
  routed ← foldM (route_position sourceBefore eligible) ops (sorted_keys (op_next ops));
  priorTotals ← foldM prior_total ∅ (iter (Positions before));
  vaults ← mapM_result (vault_line (ValidatorRemaining al) priorTotals (ac_accrual ac) (ac_arrears ac))
    (merge_sort str_le (elements (op_vaults routed)));
  Ok (mkCheckpoint (GenesisVesting before) (State before) (Carries before) (cp_Allocation before) (op_next routed)
        (op_deposited routed) (op_locked routed) (op_returned routed), vaults, wk_entitled w).

(** ** The settlement *)

Definition with_reward (remaining tail : Z) (a : Allocation) : Allocation :=
  mkAllocation (al_Version a) (PositionLifecycleVersion a) (al_Genesis a) (al_FundingHeight a) (FundingBlock a)
    (ReconciliationRoot a) (HistoricalIssued a) (al_Remaining a) remaining (InitialValidatorRemaining a) tail
    (DeclaredSaleRemaining a) (SnapshotRoot a) (al_FundingParent a) (TrustAssumption a) (NominalEligible a) (al_NominalSnapshot a).

Definition add_income (income : Z) (v : LPoD.Vault) : result Z :=
  reject MaxUint64 -w income <? LPoD.ActualIncome v with "lpod: income overflow" ;; Ok (income +w LPoD.ActualIncome v).

Definition lpodRewardDebit (before : option Allocation) (vaults : list LPoD.Vault) : result (option Allocation) :=
  match before with
  | None => Ok None
  | Some a =>
      income ← foldM add_income 0 vaults;
      reject negb (income =? LPoDRewardFor (ValidatorRemaining a)) with "lpod: reward differs from authorized pool/tail schedule" ;;
      if 0 <? ValidatorRemaining a then Ok (Some (with_reward (ValidatorRemaining a -w income) (TailIssued a) a))
      else
        reject MaxUint64 -w TailIssued a <? income with "lpod: tail issuance overflow" ;;
        Ok (Some (with_reward (ValidatorRemaining a) (TailIssued a +w income) a))
  end.

(** What the positions entitled at a vault are owed. *)
Definition owed_step (entitled : gmap string string) (vault : string) (next : gmap string Position) (due : Z) (id : string) : result Z :=
  need p from next !! id else "panic: position of a key" ;;
  if bool_decide (default EmptyString (entitled !! id) = vault) then lpodAdd due (Due p) else Ok due.

(** One share of the payment of a vault: the payment left, what is still owed, and the
    positions. *)
Definition share_step (entitled : gmap string string) (vault : string) (s : Z * Z * gmap string Position) (id : string)
    : result (Z * Z * gmap string Position) :=
  let '(rest, due, next) := s in
  need p from next !! id else "panic: position of a key" ;;
  if negb (bool_decide (default EmptyString (entitled !! id) = vault)) || (Due p =? 0) then Ok s
  else
    let paid := wrap64 (rest * Due p / due) in
    Ok (rest -w paid, due -w Due p, <[id := set_due (Due p -w paid) p]> next).

Definition distribute (entitled : gmap string string) (ids : list string) (next : gmap string Position) (payment : LPoD.Payment)
    : result (gmap string Position) :=
  due ← foldM (owed_step entitled (LPoD.VaultID payment) next) 0 ids;
  '(rest, _, next) ← foldM (share_step entitled (LPoD.VaultID payment)) (LPoD.Angels payment, due, next) ids;
  reject negb (rest =? 0) with "lpod: proportional payout rounding did not conserve funds" ;;
  Ok next.

(** The accounts and the positions after the block, with the payments of its vaults. *)
Definition settlePositions (parent : result Block) (before : Checkpoint) : result (Checkpoint * list LPoD.Payment) :=
  '(next, vaults, entitled) ← positionTransition parent before;
  '(state, carries, payments) ← LPoD.Settle (State before) (Carries before) height vaults;
  allocation ← lpodRewardDebit (cp_Allocation before) vaults;
  positions ← foldM (distribute entitled (sorted_keys (Positions next))) (Positions next) payments;
  let next := mkCheckpoint (GenesisVesting next) state carries allocation positions
    (PrincipalDeposited next) (PrincipalLocked next) (PrincipalReturned next) in
  _ ← validatePositions iter next;
  Ok (next, payments).

Definition with_vesting (v : option VestingState) (c : Checkpoint) : Checkpoint :=
  mkCheckpoint v (State c) (Carries c) (cp_Allocation c) (Positions c) (PrincipalDeposited c) (PrincipalLocked c)
    (PrincipalReturned c).

Definition previewPositions (parent : result Block) (before : Checkpoint) : result (Checkpoint * list LPoD.Payment) :=
  '(next, payments) ← settlePositions parent before;
  vesting ← GenesisVesting.previewGenesisVesting before (cp_Allocation next) r height;
  Ok (with_vesting vesting next, payments).

(** ** The payout of a block *)

Variable BuildOutput : string -> Z -> Z -> Hash32 -> Hash32 -> result Output.

(** The closure [add]. *)
Definition pay (amounts : gmap string Z) (address : string) (n : Z) : result (gmap string Z) :=
  total ← lpodAdd (amount_of amounts address) n; Ok (<[address := total]> amounts).

Definition pay_leader (amounts : gmap string Z) (p : LPoD.Payment) : result (gmap string Z) :=
  if 0 <? LPoD.PayLeader p then
    reject negb (bool_decide (LPoD.VaultID p = Proposer r)) with "lpod: non-proposer leader reward" ;;
    pay amounts (sm_Leader r) (LPoD.PayLeader p)
  else Ok amounts.

(** What a position receives: its share of the income, and the principal it takes back. *)
Definition entitlement (before accrued : gmap string Position) (e : string * Position) : result Z :=
  let '(id, p) := e in
  let oldDue := default 0 (Due <$> accrued !! id) in
  reject oldDue <? Due p with "lpod: invalid payout entitlement" ;;
  let n := oldDue -w Due p in
  let priorWithdrawn := default 0 (Withdrawn <$> before !! id) in
  reject Withdrawn p <? priorWithdrawn with "lpod: principal return counter decreased" ;;
  if priorWithdrawn <? Withdrawn p then lpodAdd n (Withdrawn p -w priorWithdrawn) else Ok n.

Definition pay_position (before accrued : gmap string Position) (amounts : gmap string Z) (e : string * Position)
    : result (gmap string Z) :=
  n ← entitlement before accrued e; pay amounts (pa_Beneficiary (p_Deposit e.2)) n.

Definition pay_vesting (after : Checkpoint) (amounts : gmap string Z) : result (gmap string Z) :=
  match GenesisVesting after with
  | None => Ok amounts
  | Some v =>
      need al from cp_Allocation after else "panic: nil allocation" ;;
      _ ← GenesisVesting.Validate (Some v) (al_Genesis al) height;
      amounts ← pay amounts (Recipient v) (GenesisVesting.paymentAt (Some v) height);
      if (height =? FundingHeight v) && (0 <? LiquidityPaid v) then pay amounts (LiquidityRecipient v) (LiquidityPaid v)
      else Ok amounts
  end.

(** The amounts by address. *)
Definition payout_amounts (before : option Checkpoint) (accrued after : Checkpoint) (payments : list LPoD.Payment)
    : result (gmap string Z) :=
  amounts ← foldM pay_leader ∅ payments;
  amounts ← foldM (pay_position (default ∅ (Positions <$> before)) (Positions accrued)) amounts (iter (Positions after));
  pay_vesting after amounts.

Definition payout_addresses (amounts : gmap string Z) : list string :=
  merge_sort str_le (filter (fun e => 0 < e.2) (map_to_list amounts)).*1.

(** [before] is the checkpoint of the tip, [migrated] the one its migration creates. *)
Definition PayoutLPoD (parent : result Block) (before : option Checkpoint) (migrated : result Checkpoint)
    (after : Checkpoint) (payments : list LPoD.Payment) : result Transaction :=
  base ← match before with
         | Some c => if bool_decide (cp_Allocation c = None) then migrated else Ok c
         | None => migrated
         end;
  '(accrued, _, _) ← positionTransition parent base;
  amounts ← payout_amounts before accrued after payments;
  let digest := Digest after in
  outputs ← mapM_result (fun a => BuildOutput a (amount_of amounts a) height (Parent r) digest) (payout_addresses amounts);
  Ok (mkTx TxVersionLPoDPayout [] outputs 0 (zero_arr 32) [] [] [] (Marshal_payout (mkPayoutAuth (sm_Leader r) digest)) None).

End Transition.

End LPoDPositions.
