(* ===== verification/LPoDPositionsProofs.v ===== *)
(** Properties of [LPoDPositions]: the accounts, the principal and the entitlements of
    the positions agree in every checkpoint a settlement reaches, the distribution of a
    vault's payment is exact, and a payout pays what the checkpoints say is owed. *)

From stdpp Require Import base gmap list sorting strings.
From S2P Require Import Prelude Bytes Crypto Transaction Block LPoD LPoDCheckpoint GenesisVesting LPoDPositions.
Import Transaction Block LPoDCheckpoint LPoDPositions.

Module LPoDPositionsProofs.

(** ** Sums over maps *)

Section MapSum.
Context {A : Type}.
Implicit Types (f g : string -> A -> Z) (m : gmap string A).

Definition msum f m : Z := sumZ (fun e => f e.1 e.2) (map_to_list m).

Lemma msum_empty f : msum f ∅ = 0.
Proof. unfold msum. by rewrite map_to_list_empty. Qed.

Lemma msum_fresh f m k x : m !! k = None -> msum f (<[k := x]> m) = f k x + msum f m.
Proof. intros Hk. unfold msum. rewrite (sumZ_Permutation _ _ _ (map_to_list_insert m k x Hk)). done. Qed.

Lemma msum_delete f m k x : m !! k = Some x -> msum f m = f k x + msum f (delete k m).
Proof. intros Hk. unfold msum. rewrite <- (sumZ_Permutation _ _ _ (map_to_list_delete m k x Hk)). done. Qed.

Lemma msum_update f m k x y : m !! k = Some y -> msum f (<[k := x]> m) = msum f m - f k y + f k x.
Proof.
  intros Hk. rewrite <- insert_delete_eq, (msum_fresh f) by apply lookup_delete_eq.
  rewrite (msum_delete f m k y Hk). lia.
Qed.

Lemma msum_ext f g m : (forall k x, m !! k = Some x -> f k x = g k x) -> msum f m = msum g m.
Proof. intros E. apply sumZ_ext. intros [k x] Hin. apply E. by apply elem_of_map_to_list. Qed.

Lemma msum_nonneg f m : (forall k x, m !! k = Some x -> 0 <= f k x) -> 0 <= msum f m.
Proof. intros E. apply sumZ_nonneg. intros [k x] Hin. apply E. by apply elem_of_map_to_list. Qed.

Lemma msum_member f m k x :
  (forall k x, m !! k = Some x -> 0 <= f k x) -> m !! k = Some x -> f k x <= msum f m.
Proof.
  intros E Hk. rewrite (msum_delete f m k x Hk). enough (0 <= msum f (delete k m)) by lia.
  apply msum_nonneg. intros k' x' Hk'. apply lookup_delete_Some in Hk' as [_ Hk']. by apply E.
Qed.

Lemma msum_plus f g m : msum (fun k x => f k x + g k x) m = msum f m + msum g m.
Proof. unfold msum. induction (map_to_list m) as [|e l IH]; simpl; lia. Qed.

Lemma msum_zero f m : (forall k x, m !! k = Some x -> f k x = 0) -> msum f m = 0.
Proof.
  intros E. rewrite (msum_ext f (fun _ _ => 0) m E). unfold msum. induction (map_to_list m) as [|e l IH]; simpl; lia.
Qed.

(** A sum over groups of keys is the sum over all of them. *)
Lemma pick_none (g : string) (n : Z) (vs : list string) :
  g ∉ vs -> sumZ (fun v => if bool_decide (g = v) then n else 0) vs = 0.
Proof.
  induction vs as [|v vs IH]; intros Hg; simpl; [done|]. apply not_elem_of_cons in Hg as [Hv Hg].
  rewrite bool_decide_eq_false_2, IH by done. done.
Qed.

Lemma pick_one (g : string) (n : Z) (vs : list string) :
  NoDup vs -> g ∈ vs \/ n = 0 -> sumZ (fun v => if bool_decide (g = v) then n else 0) vs = n.
Proof.
  intros Hnd Hg. destruct (decide (n = 0)) as [->|Hn].
  { clear. induction vs as [|v vs IH]; simpl; [done|]. rewrite IH. by case_bool_decide. }
  destruct Hg as [Hg|]; [|done]. induction Hnd as [|v vs Hv Hnd IH]; [by apply not_elem_of_nil in Hg|]. simpl.
  case_bool_decide as E.
  - subst v. rewrite pick_none by done. lia.
  - rewrite IH; [lia|]. by apply elem_of_cons in Hg as [?|?].
Qed.

Lemma msum_groups f m (group : string -> string) (vs : list string) :
  NoDup vs -> (forall k x, m !! k = Some x -> group k ∈ vs \/ f k x = 0) ->
  sumZ (fun v => msum (fun k x => if bool_decide (group k = v) then f k x else 0) m) vs = msum f m.
Proof.
  intros Hnd Hg. unfold msum.
  assert (Hl : forall e, e ∈ map_to_list m -> group e.1 ∈ vs \/ f e.1 e.2 = 0)
    by (intros [k x] Hin; apply Hg; by apply elem_of_map_to_list).
  induction (map_to_list m) as [|e l IH]; simpl.
  - clear. induction vs as [|v vs IHv]; simpl; [done|]. lia.
  - rewrite <- IH by (intros e' He'; apply Hl; by right).
    transitivity (sumZ (fun v => if bool_decide (group e.1 = v) then f e.1 e.2 else 0) vs +
      sumZ (fun v => sumZ (fun e => if bool_decide (group e.1 = v) then f e.1 e.2 else 0) l) vs);
      [|by rewrite pick_one by (auto; apply Hl; left)].
    clear. induction vs as [|v vs IHv]; simpl; lia.
Qed.

End MapSum.

(** ** Ranges and arithmetic *)

Lemma lpodAdd_ok (a b c : Z) : is_u64 a -> is_u64 b -> lpodAdd a b = Ok c <-> c = a + b /\ is_u64 (a + b).
Proof.
  intros Ha Hb. unfold lpodAdd. rewrite reject_ok, Z.ltb_ge, (wrap64_small (MaxUint64 - a)) by u64lia. split.
  - intros [Hle [= <-]]. rewrite wrap64_small by u64lia. u64lia.
  - intros [-> Hab]. rewrite wrap64_small by done. split; [u64lia|done].
Qed.

(** The fields of a position, as values of their Go types. *)
Definition pos_u64 (p : Position) : Prop :=
  is_u64 (pa_Amount (p_Deposit p)) /\ is_u64 (Withdrawn p) /\ is_u64 (Due p) /\ is_u64 (p_Nonce p) /\ is_u64 (APRCarry p).

Definition checkpoint_u64 (c : Checkpoint) : Prop :=
  map_Forall (fun _ p => pos_u64 p) (Positions c) /\ is_u64 (PrincipalDeposited c) /\ is_u64 (PrincipalLocked c) /\
  is_u64 (PrincipalReturned c) /\ LPoD.state_u64 (State c) /\
  map_Forall (fun _ c => 0 <= LPoD.APR c /\ 0 <= LPoD.Leader c) (Carries c).

Lemma remaining_u64 (p : Position) : is_u64 (remaining p).
Proof. apply wrap64_range. Qed.

Lemma remaining_eq (p : Position) :
  pos_u64 p -> Withdrawn p <= pa_Amount (p_Deposit p) -> remaining p = pa_Amount (p_Deposit p) - Withdrawn p.
Proof. intros (? & ? & _) ?. unfold remaining. apply wrap64_small. u64lia. Qed.

(** ** Validity of a checkpoint *)

Definition locked_of (_ : string) (p : Position) : Z := if Returned p then 0 else remaining p.
Definition due_of (_ : string) (p : Position) : Z := Due p.

Definition valid_position (h : Z) (id : string) (p : Position) : Prop :=
  corrupt_position h id p = false /\ corrupt_route h p = false.

Lemma locked_of_range id p : is_u64 (locked_of id p).
Proof. unfold locked_of. destruct (Returned p); [u64lia|apply remaining_u64]. Qed.

Lemma check_positions_ok (h a b a' b' : Z) (l : list (string * Position)) :
  is_u64 a -> is_u64 b -> Forall (fun e => pos_u64 e.2) l ->
  foldM (check_position h) (a, b) l = Ok (a', b') <->
  Forall (fun e => valid_position h e.1 e.2) l /\
  a' = a + sumZ (fun e => locked_of e.1 e.2) l /\ b' = b + sumZ (fun e => due_of e.1 e.2) l /\ is_u64 a' /\ is_u64 b'.
Proof.
  intros Ha Hb Hl. revert a b Ha Hb. induction Hl as [|[id p] l Hp Hl IH]; intros a b Ha Hb; simpl.
  - rewrite !Z.add_0_r. split; [by intros [= -> ->]|]. by intros (_ & -> & -> & _).
  - rewrite bind_ok. unfold check_position. rewrite list.Forall_cons. cbn [fst snd] in *.
    assert (Hd : is_u64 (Due p)) by (destruct Hp as (_ & _ & ? & _); done).
    pose proof (remaining_u64 p) as Hr. pose proof (locked_of_range id p) as Hlr. split.
    + intros ([a1 b1] & E1 & E2). apply reject_ok in E1 as [C1 E1]. apply reject_ok in E1 as [C2 E1].
      apply bind_ok in E1 as (a2 & Ea & E1). apply bind_ok in E1 as (b2 & Eb & E1). injection E1 as <- <-.
      apply lpodAdd_ok in Eb as [-> Hb2]; [|done..].
      assert (Ea2 : a2 = a + locked_of id p /\ is_u64 a2).
      { unfold locked_of. destruct (Returned p); [injection Ea as <-; rewrite Z.add_0_r; done|].
        apply lpodAdd_ok in Ea as [-> ?]; done. }
      destruct Ea2 as [-> Ha2]. apply IH in E2 as (F & -> & -> & Ha' & Hb'); [|done..].
      unfold valid_position, due_of. split_and!; try done; lia.
    + intros ([[C1 C2] F] & -> & -> & Ha' & Hb').
      assert (Hs1 : 0 <= sumZ (fun e => locked_of e.1 e.2) l) by (apply sumZ_nonneg; intros e _; pose proof (locked_of_range e.1 e.2); u64lia).
      assert (Hs2 : 0 <= sumZ (fun e => due_of e.1 e.2) l).
      { apply sumZ_nonneg. intros e He. destruct (proj1 (list.Forall_forall _ _) Hl e He) as (_ & _ & ? & _). unfold due_of. u64lia. }
      unfold due_of in *. exists (a + locked_of id p, b + Due p). rewrite C1, C2. split.
      * apply bind_ok. exists (a + locked_of id p). split.
        { unfold locked_of in *. destruct (Returned p); [by rewrite Z.add_0_r|]. apply lpodAdd_ok; [done..|]. split; [done|u64lia]. }
        apply bind_ok. exists (b + Due p). split; [|done]. apply lpodAdd_ok; [done..|]. split; [done|u64lia].
      * apply IH; [u64lia..|]. split_and!; try done; lia.
Qed.

Section Validity.
Variable iter : gmap string Position -> list (string * Position).
Hypothesis iter_perm : forall m, iter m ≡ₚ map_to_list m.

Lemma iter_sum (f : string -> Position -> Z) m : sumZ (fun e => f e.1 e.2) (iter m) = msum f m.
Proof. unfold msum. by apply sumZ_Permutation. Qed.

Lemma iter_Forall (P : string -> Position -> Prop) m : Forall (fun e => P e.1 e.2) (iter m) <-> map_Forall P m.
Proof.
  rewrite list.Forall_forall. split.
  - intros Hf k p Hk. apply (Hf (k, p)). rewrite (iter_perm m). by apply elem_of_map_to_list.
  - intros Hf [k p] Hin. rewrite (iter_perm m) in Hin. apply Hf. by apply elem_of_map_to_list.
Qed.

(** What [validatePositions] accepts. *)
Record checkpoint_ok (c : Checkpoint) : Prop := {
  ck_size : (size (Positions c) <= LPoDMaxPositions)%nat;
  ck_valid : map_Forall (valid_position (LPoD.LastHeight (State c))) (Positions c);
  ck_locked : msum locked_of (Positions c) = PrincipalLocked c;
  ck_principal : PrincipalLocked c + PrincipalReturned c = PrincipalDeposited c;
  ck_due : is_u64 (msum due_of (Positions c));
  ck_liability : is_Some (cp_Allocation c) -> msum due_of (Positions c) = LPoD.UnfundedLiability (State c)
}.

Lemma validatePositions_ok (c : Checkpoint) :
  checkpoint_u64 c -> validatePositions iter c = Ok () <-> checkpoint_ok c.
Proof.
  intros (Hp & Hd & Hl & Hr & Hs & _). unfold validatePositions. rewrite reject_ok, bind_ok.
  assert (HF : Forall (fun e => pos_u64 e.2) (iter (Positions c))) by (apply (iter_Forall (fun _ p => pos_u64 p)); done).
  assert (HU : is_u64 (LPoD.UnfundedLiability (State c))) by (destruct Hs as (_ & _ & _ & _ & _ & _ & _ & ? & _); done).
  split.
  - intros [Hsz ([locked due] & E & E2)]. apply check_positions_ok in E as (F & -> & -> & H1 & H2); [|u64lia..|done].
    rewrite !Z.add_0_l, !iter_sum in *.
    destruct (lpodAdd (PrincipalLocked c) (PrincipalReturned c)) as [total|] eqn:Ea; [|done].
    apply lpodAdd_ok in Ea as [-> Ht]; [|done..]. apply reject_ok in E2 as [E2 _]. zbool.
    split; try done.
    + apply Nat.ltb_ge in Hsz. done.
    + by apply iter_Forall.
    + intros Ha. destruct (bool_decide_reflect (is_Some (cp_Allocation c))); [|done]. simpl in *. by zbool.
  - intros [K1 K2 K3 K4 K5 K6]. split; [by apply Nat.ltb_ge|].
    exists (msum locked_of (Positions c), msum due_of (Positions c)). split.
    + apply check_positions_ok; [u64lia..|done|]. rewrite !Z.add_0_l, !iter_sum.
      split_and!; try done; [|by rewrite K3]. by apply iter_Forall.
    + rewrite (proj2 (lpodAdd_ok _ _ _ Hl Hr)) by (split; [reflexivity|by rewrite K4]).
      rewrite K3, K4, !Z.eqb_refl. simpl.
      destruct (bool_decide_reflect (is_Some (cp_Allocation c))) as [Ha|]; [|done]. rewrite K6, Z.eqb_refl by done. done.
Qed.

End Validity.

(** ** Single positions *)

(** Prove that a disjunction of tests fails. *)
Ltac all_false :=
  repeat (apply orb_false_iff; split);
  first [ done | apply Z.ltb_ge; lia | apply Z.leb_gt; lia | apply Z.eqb_neq; lia | by apply bool_decide_eq_false
        | apply negb_false_iff; first [done | by apply bool_decide_eq_true | apply Z.eqb_eq; lia] ].

Lemma valid_position_mono (h h' : Z) (id : string) (p : Position) :
  h <= h' -> valid_position h id p -> valid_position h' id p.
Proof.
  intros Hh [C1 C2]. unfold valid_position, corrupt_position, corrupt_route in *. zbool. split.
  - all_false.
  - destruct (EffectiveVault p); [|done]. zbool. all_false.
Qed.

(** The facts a valid position provides. *)
Record position_facts (h : Z) (id : string) (p : Position) : Prop := {
  pf_id : id = lpodPositionID (p_Deposit p);
  pf_action : pa_Action (p_Deposit p) = LPoDDeposit;
  pf_amount : pa_Amount (p_Deposit p) <> 0;
  pf_withdrawn : Withdrawn p <= pa_Amount (p_Deposit p);
  pf_returned : Returned p = (Withdrawn p =? pa_Amount (p_Deposit p));
  pf_unlock : (UnlockHeight p =? 0) = negb (Returned p);
  pf_auto : AutoReturned p = true -> Returned p = true;
  pf_carry : APRCarry p < lpodAPRDenominator
}.

Lemma valid_facts (h : Z) (id : string) (p : Position) : valid_position h id p -> position_facts h id p.
Proof.
  intros [C _]. unfold corrupt_position in C. zbool. split; try done; try lia.
  - by apply Bool.eqb_prop.
  - by apply Bool.eqb_prop.
  - intros Ha. rewrite Ha in *. simpl in *. by zbool.
Qed.

(** Only the amounts due and the carry may change without losing validity. *)
Lemma valid_set_accrued (h : Z) (id : string) (p : Position) (d c : Z) :
  0 <= c < lpodAPRDenominator -> valid_position h id p -> valid_position h id (set_accrued d c p).
Proof.
  intros Hc [C1 C2]. split; [|exact C2]. unfold corrupt_position in *. cbn [set_accrued p_Deposit Withdrawn Returned AutoReturned
    p_Nonce UnlockHeight APRCarry]. zbool. all_false.
Qed.

Lemma valid_set_due (h : Z) (id : string) (p : Position) (d : Z) :
  valid_position h id p -> valid_position h id (set_due d p).
Proof. intros [C1 C2]. split; [exact C1|exact C2]. Qed.

Lemma valid_new (h : Z) (a : LPoDPositionAction) :
  pa_Action a = LPoDDeposit -> pa_Nonce a = 0 -> pa_WithdrawAmount a = 0 -> pa_Amount a <> 0 -> is_u64 (pa_Amount a) -> 0 <= h ->
  valid_position h (lpodPositionID a) (newPosition a).
Proof.
  intros Ha Hn Hw Hz Hu Hh. split; [|done]. unfold corrupt_position. cbn [newPosition p_Deposit Withdrawn Returned AutoReturned
    p_Nonce UnlockHeight APRCarry]. rewrite Ha, Hn, Hw. rewrite !bool_decide_eq_true_2 by done.
  assert ((pa_Amount a =? 0) = false) as -> by by apply Z.eqb_neq.
  assert ((pa_Amount a <? 0) = false) as -> by (apply Z.ltb_ge; u64lia).
  assert ((0 =? pa_Amount a) = false) as -> by (apply Z.eqb_neq; lia).
  assert ((h <? 0) = false) as -> by (apply Z.ltb_ge; lia). done.
Qed.

(** A withdrawal a position accepts takes some of what remains. *)
Lemma withdrawal_amount (h : Z) (id : string) (p : Position) (a : LPoDPositionAction) (n : Z) :
  pos_u64 p -> is_u64 (pa_WithdrawAmount a) -> valid_position h id p -> LPoDWithdrawalAmount p a = Ok n ->
  Returned p = false /\ UnlockHeight p = 0 /\ p_Nonce p <> MaxUint64 /\ 0 < n <= pa_Amount (p_Deposit p) - Withdrawn p.
Proof.
  intros Hu Ha Hv E. apply valid_facts in Hv as F. unfold LPoDWithdrawalAmount in E.
  apply reject_ok in E as [C1 E]. apply reject_ok in E as [_ E]. apply reject_ok in E as [C2 E]. injection E as <-.
  rewrite (remaining_eq p Hu (pf_withdrawn _ _ _ F)) in *. zbool. split_and!; try done.
  destruct (Z.eqb_spec (pa_WithdrawAmount a) 0); u64lia.
Qed.

Lemma withdrawn_valid (h : Z) (id : string) (p : Position) (n : Z) :
  pos_u64 p -> 0 < h -> valid_position h id p -> Returned p = false -> UnlockHeight p = 0 -> p_Nonce p <> MaxUint64 ->
  0 < n <= pa_Amount (p_Deposit p) - Withdrawn p ->
  valid_position h id (withdrawn p n h) /\ pos_u64 (withdrawn p n h) /\ Due (withdrawn p n h) = Due p /\
  locked_of id (withdrawn p n h) = locked_of id p - n /\ Withdrawn (withdrawn p n h) = Withdrawn p + n /\ p_Deposit (withdrawn p n h) = p_Deposit p.
Proof.
  intros Hu Hh [C1 C2] Hr Hun Hn Hb. assert (F := valid_facts h id p (conj C1 C2)).
  pose proof (pf_auto _ _ _ F) as Hauto. rewrite Hr in Hauto.
  assert (Hau : AutoReturned p = false) by (destruct (AutoReturned p); [by discriminate Hauto|done]).
  destruct Hu as (U1 & U2 & U3 & U4 & U5).
  assert (Ew : Withdrawn p +w n = Withdrawn p + n) by (apply wrap64_small; u64lia).
  assert (En : p_Nonce p +w 1 = p_Nonce p + 1) by (apply wrap64_small; u64lia).
  assert (Hv : valid_position h id (withdrawn p n h)).
  { split; [|exact C2]. unfold corrupt_position in *. cbn [withdrawn p_Deposit Withdrawn Returned AutoReturned p_Nonce UnlockHeight APRCarry].
    rewrite Ew, En, Hau. rewrite Hau in C1. zbool.
    assert ((Withdrawn p + n =? 0) = false) as -> by (apply Z.eqb_neq; u64lia).
    assert ((p_Nonce p + 1 =? 0) = false) as -> by (apply Z.eqb_neq; u64lia).
    assert ((pa_Amount (p_Deposit p) <? Withdrawn p + n) = false) as -> by (apply Z.ltb_ge; lia).
    rewrite Bool.eqb_reflx, orb_false_r. simpl.
    destruct (Z.eqb_spec (Withdrawn p + n) (pa_Amount (p_Deposit p))).
    - rewrite (proj2 (Z.eqb_neq h 0)) by lia. rewrite (proj2 (Z.ltb_ge h h)) by lia. simpl.
      all_false.
    - rewrite Hun. rewrite (proj2 (Z.ltb_ge h 0)) by lia. simpl.
      all_false. }
  split_and!; try done.
  - unfold pos_u64. cbn [withdrawn p_Deposit Withdrawn Due p_Nonce APRCarry]. rewrite Ew, En. split_and!; try done; u64lia.
  - unfold locked_of. rewrite Hr. rewrite (remaining_eq p) by (try done; lia). cbn [withdrawn Returned]. rewrite Ew.
    destruct (Z.eqb_spec (Withdrawn p + n) (pa_Amount (p_Deposit p))); [lia|].
    unfold remaining. cbn [withdrawn p_Deposit Withdrawn]. rewrite Ew. rewrite wrap64_small by u64lia. lia.
Qed.

Lemma refunded_valid (h : Z) (id : string) (p : Position) :
  pos_u64 p -> 0 < h -> valid_position h id p -> Returned p = false ->
  valid_position h id (refunded h p) /\ pos_u64 (refunded h p) /\ Due (refunded h p) = Due p /\
  locked_of id (refunded h p) = locked_of id p - remaining p /\ Withdrawn (refunded h p) = Withdrawn p + remaining p.
Proof.
  intros Hu Hh Hv Hr. assert (F := valid_facts _ _ _ Hv). destruct Hv as [C1 C2].
  pose proof (remaining_eq p Hu (pf_withdrawn _ _ _ F)) as Hrem. split_and!.
  - split; [|exact C2]. unfold corrupt_position in *. cbn [refunded p_Deposit Withdrawn Returned AutoReturned p_Nonce UnlockHeight APRCarry].
    zbool. rewrite Z.eqb_refl, (proj2 (Z.ltb_ge _ _) (Z.le_refl _)), (proj2 (Z.eqb_neq h 0)), (proj2 (Z.ltb_ge h h)) by lia. simpl.
    all_false.
  - destruct Hu as (? & ? & ? & ? & ?). split_and!; done.
  - done.
  - unfold locked_of. rewrite Hr. cbn [refunded Returned]. lia.
  - cbn [refunded Withdrawn]. lia.
Qed.

Lemma routed_valid (h : Z) (id : string) (p : Position) (v : option Point32) (rh : Z) :
  valid_position h id p -> (forall x, v = Some x -> x <> pa_Vault (p_Deposit p) /\ 0 < rh <= h) ->
  valid_position h id (set_route v rh p).
Proof.
  intros [C1 C2] Hv. split; [exact C1|]. unfold corrupt_route. cbn [set_route EffectiveVault RouteHeight p_Deposit].
  destruct v as [x|]; [|done]. destruct (Hv x eq_refl) as [Hx Hr].
  rewrite bool_decide_eq_false_2 by done. rewrite (proj2 (Z.eqb_neq rh 0)), (proj2 (Z.ltb_ge h rh)) by lia. done.
Qed.

(** ** The transition, stage by stage *)

Section Stages.
Context `{Crypto} `{Json} `{LPoDJson} {M : Type}.
Variable iter : gmap string Position -> list (string * Position).
Hypothesis iter_perm : forall m, iter m ≡ₚ map_to_list m.
Variables (r : Settlement M) (height : Z).

Lemma iter_keys m : NoDup (iter m).*1.
Proof. rewrite (iter_perm m). apply NoDup_fst_map_to_list. Qed.

Lemma iter_map m : list_to_map (iter m) = m.
Proof. rewrite <- (list_to_map_to_list m) at 2. apply list_to_map_proper; [apply iter_keys|apply iter_perm]. Qed.

(** A position that is kept: not closed, or still owed. *)
Definition kept (e : string * Position) : Prop := Returned e.2 && (Due e.2 =? 0) = false.

Record carried (proposer : string) (l : list (string * Position)) (w : Work) : Prop := {
  cr_next : wk_next w = filter kept (list_to_map l);
  cr_entitled : wk_entitled w = lpodPositionVaultID <$> wk_next w;
  cr_proposer : proposer ∈ wk_vaults w;
  cr_vaults : map_Forall (fun _ p => lpodPositionVaultID p ∈ wk_vaults w) (wk_next w)
}.

Lemma carry_over_spec (proposer : string) (l : list (string * Position)) (w : Work) :
  NoDup l.*1 -> foldM carry_over (mkWork ∅ ∅ {[proposer]} ∅) l = Ok w -> carried proposer l w.
Proof.
  revert w. induction l as [|[id p] l IH] using rev_ind; intros w Hnd E.
  - injection E as <-. split; simpl; [by rewrite map_filter_empty|by rewrite fmap_empty|set_solver|apply map_Forall_empty].
  - rewrite fmap_app, list.NoDup_app in Hnd. destruct Hnd as (Hnd & Hd & _). rewrite foldM_app in E.
    apply bind_ok in E as (w1 & E1 & E2). cbn [foldM] in E2. apply bind_ok in E2 as (w2 & E2 & E3). injection E3 as <-.
    assert (Hid : id ∉ l.*1) by (intros Hin; apply (Hd id Hin); left).
    destruct (IH w1 Hnd E1) as [K1 K2 K3 K4]. unfold carry_over in E2.
    assert (Hl : (list_to_map (l ++ [(id, p)]) : gmap string Position) = <[id := p]> (list_to_map l)).
    { rewrite list_to_map_snoc by done. done. }
    assert (Hn : (list_to_map l : gmap string Position) !! id = None) by by apply not_elem_of_list_to_map_1.
    destruct (Returned p && (Due p =? 0)) eqn:Ek.
    + injection E2 as <-. split; try done. rewrite Hl, map_filter_insert_False, delete_id by (unfold kept; simpl; congruence). done.
    + apply bind_ok in E2 as (t & _ & E2). injection E2 as <-. split; cbn [wk_next wk_entitled wk_vaults].
      * rewrite Hl, map_filter_insert_True, K1 by done. done.
      * by rewrite fmap_insert, K2.
      * set_solver.
      * apply map_Forall_insert_2; [set_solver|]. eapply map_Forall_impl; [exact K4|]. simpl. set_solver.
Qed.

(** *** Accrual *)

Definition owed_to (ent : string -> string) (v : string) (id : string) (p : Position) : Z :=
  if bool_decide (ent id = v) then Due p else 0.

(** [p'] is [p] with some interest. *)
Definition accrued_from (p p' : Position) : Prop :=
  exists d c, p' = set_accrued d c p /\ Due p <= d /\ is_u64 d /\ 0 <= c < lpodAPRDenominator.

Record accrued (m : gmap string Position) (ent : string -> string) (l : list (string * Position)) (s : Accrual) : Prop := {
  ad_rest : forall id, id ∉ l.*1 -> ac_next s !! id = m !! id;
  ad_done : forall id, option_Forall2 accrued_from (m !! id) (ac_next s !! id);
  ad_accrual : forall v, is_u64 (amount_of (ac_accrual s) v) /\ is_u64 (amount_of (ac_arrears s) v);
  ad_arrears : forall v, amount_of (ac_arrears s) v = sumZ (fun e => owed_to ent v e.1 e.2) l;
  ad_owed : forall v, msum (owed_to ent v) (ac_next s) = msum (owed_to ent v) m + amount_of (ac_accrual s) v
}.

Lemma accrued_refl (p : Position) : pos_u64 p -> APRCarry p < lpodAPRDenominator -> accrued_from p p.
Proof.
  intros (_ & _ & Hd & _ & Hc) Hb. exists (Due p), (APRCarry p). split_and!; try done; try u64lia. by destruct p.
Qed.

Lemma amount_insert (m : gmap string Z) (v v' : string) (n : Z) :
  amount_of (<[v := n]> m) v' = if bool_decide (v = v') then n else amount_of m v'.
Proof. case_bool_decide; [subst; by rewrite lookup_insert_eq|by rewrite lookup_insert_ne]. Qed.

Lemma accrue_spec (elapsed : Z) (totals : gmap string Z) (m : gmap string Position) (ent : string -> string)
    (l : list (string * Position)) (s : Accrual) :
  is_u64 elapsed ->
  map_Forall (fun id p => pos_u64 p /\ valid_position height id p /\ ent id = lpodPositionVaultID p) m ->
  (forall id p, (id, p) ∈ l -> m !! id = Some p) -> NoDup l.*1 ->
  foldM (accrue r elapsed totals) (mkAccrual m ∅ ∅) l = Ok s -> accrued m ent l s.
Proof.
  intros He Hm. revert s. induction l as [|[id p] l IH] using rev_ind; intros s Hl Hnd E.
  - injection E as <-. split; simpl; try done.
    + intros id. destruct (m !! id) as [p|] eqn:Ep; [|constructor]. destruct (Hm _ _ Ep) as (Hu & Hv & _). constructor.
      apply accrued_refl; [done|]. apply (valid_facts _ _ _ Hv).
    + intros v. rewrite lookup_empty. symmetry. apply Z.add_0_r.
  - rewrite fmap_app, list.NoDup_app in Hnd. destruct Hnd as (Hnd & Hd & _). rewrite foldM_app in E.
    apply bind_ok in E as (s1 & E1 & E2). cbn [foldM] in E2. apply bind_ok in E2 as (s2 & E2 & E3). injection E3 as <-.
    assert (Hid : id ∉ l.*1) by (intros Hin; apply (Hd id Hin); left).
    assert (Hp : m !! id = Some p) by (apply Hl; set_solver).
    destruct (Hm _ _ Hp) as (Hu & Hv & Hent).
    destruct (IH s1) as [K1 K2 K3 K4 K5]; [intros; apply Hl; set_solver|done|done|].
    pose proof (K1 id Hid) as Hcur. rewrite Hp in Hcur.
    assert (Hdue : is_u64 (Due p)) by apply Hu. pose proof (valid_facts _ _ _ Hv) as F.
    unfold accrue in E2. apply bind_ok in E2 as (owed & Eo & E2).
    apply lpodAdd_ok in Eo as [-> Ho]; [|apply K3|done].
    set (v0 := lpodPositionVaultID p) in *.
    assert (Harr : forall v, amount_of (<[v0 := amount_of (ac_arrears s1) v0 + Due p]> (ac_arrears s1)) v =
                             sumZ (fun e => owed_to ent v e.1 e.2) (l ++ [(id, p)])).
    { intros v. rewrite amount_insert, sumZ_app. cbn [sumZ fst snd]. unfold owed_to at 2. rewrite Hent.
      case_bool_decide; [subst v|]; rewrite K4; lia. }
    assert (Harru : forall v, is_u64 (amount_of (<[v0 := amount_of (ac_arrears s1) v0 + Due p]> (ac_arrears s1)) v)).
    { intros v. rewrite amount_insert. case_bool_decide; [done|apply K3]. }
    destruct (negb (UnlockHeight p =? 0) || negb (vs_Active (routing_stake r v0))) eqn:Es.
    + injection E2 as <-. split; cbn [ac_next ac_accrual ac_arrears]; try done.
      * intros i Hi. apply K1. set_solver.
      * intros v. split; [apply K3|apply Harru].
    + apply bind_ok in E2 as (total & _ & E2). apply bind_ok in E2 as (tier & Ht & E2).
      apply reject_ok in E2 as [Hq E2]. apply negb_false_iff, is_u64b_spec in Hq.
      set (n := remaining p * LPoD.APRPercent tier * elapsed + APRCarry p) in *.
      apply bind_ok in E2 as (due & Ed & E2). apply lpodAdd_ok in Ed as [-> Hdu]; [|done..].
      apply bind_ok in E2 as (earned & Ee & E2). apply lpodAdd_ok in Ee as [-> Heu]; [|apply K3|done]. injection E2 as <-.
      apply LPoD.TierFor_in in Ht as [Ht _]. apply LPoD.tier_percent in Ht as [_ Ht].
      assert (Hn : 0 <= n) by (pose proof (remaining_u64 p); assert (0 <= APRCarry p) by apply Hu; unfold n; u64lia || nia).
      assert (Hden : 0 < lpodAPRDenominator) by by vm_compute.
      pose proof (Z.rem_bound_pos n lpodAPRDenominator Hn Hden) as Hrb.
      split; cbn [ac_next ac_accrual ac_arrears]; try done.
      * intros i Hi. rewrite lookup_insert_ne by set_solver. apply K1. set_solver.
      * intros i. destruct (decide (i = id)) as [->|Hne]; [|rewrite lookup_insert_ne by done; apply K2].
        rewrite lookup_insert_eq, Hp. constructor. eexists _, _. split_and!; [reflexivity|u64lia|done|lia|lia].
      * intros v. split; [|apply Harru]. rewrite amount_insert. case_bool_decide; [done|apply K3].
      * intros v. rewrite (msum_update _ _ _ _ p Hcur), K5, amount_insert. unfold owed_to at 2 3. rewrite Hent. fold v0.
        cbn [set_accrued Due]. case_bool_decide; [subst v|]; lia.
Qed.


(** *** Operations and routing *)

(** What the decoding of an action guarantees. *)
Lemma action_facts (tx : Transaction) (a : LPoDPositionAction) :
  positionAction tx = Ok a ->
  pa_Amount a <> 0 /\ (pa_Action a = LPoDDeposit -> pa_Nonce a = 0 /\ pa_WithdrawAmount a = 0).
Proof.
  intros E. unfold positionAction in E. apply reject_ok in E as [_ E].
  destruct (Unmarshal_position (Extra tx)) as [b|]; [|done]. apply reject_ok in E as [_ E]. apply reject_ok in E as [C E].
  do 4 apply reject_ok in E as [_ E].
  assert (Hd : forall c, check_position_deposit tx b = Ok c -> c = b /\ pa_Nonce b = 0 /\ pa_WithdrawAmount b = 0).
  { intros c Ec. unfold check_position_deposit in Ec. destruct (Inputs tx) as [|inp [|]]; [done| |done].
    destruct (Signatures tx) as [|? [|[proof|] ?]]; try done. apply reject_ok in Ec as [C' Ec].
    destruct (Commit _ _); [|done]. apply reject_ok in Ec as [_ Ec]. apply reject_ok in Ec as [_ Ec]. injection Ec as <-. zbool. done. }
  case_bool_decide as Ew.
  - apply reject_ok in E as [_ E]. injection E as <-. zbool. split; [done|]. intros Ea. rewrite Ea in Ew. by discriminate Ew.
  - apply Hd in E as (-> & ? & ?). zbool. done.
Qed.

Variables (before : Checkpoint) (ent : string -> string) (vs : gset string) (W : string -> Z).

Definition prior_withdrawn (id : string) : Z := default 0 (Withdrawn <$> Positions before !! id).

(** No deposit of the block reopens a position of the checkpoint. *)
Definition fresh_deposits : Prop :=
  forall tx a, tx ∈ Transactions r -> positionAction tx = Ok a -> pa_Action a = LPoDDeposit ->
    Positions before !! lpodPositionID a = None.

Definition actions_u64 : Prop :=
  forall tx a, tx ∈ Transactions r -> positionAction tx = Ok a -> is_u64 (pa_Amount a) /\ is_u64 (pa_WithdrawAmount a).

Definition taken_back (id : string) (p : Position) : Z := Withdrawn p - prior_withdrawn id.

Record ops_ok (s : Ops) : Prop := {
  oo_pos : map_Forall (fun id p => pos_u64 p /\ valid_position height id p) (op_next s);
  oo_size : (size (op_next s) <= LPoDMaxPositions)%nat;
  oo_locked : msum locked_of (op_next s) = op_locked s;
  oo_principal : op_locked s + op_returned s = op_deposited s;
  oo_u64 : is_u64 (op_deposited s) /\ is_u64 (op_locked s) /\ is_u64 (op_returned s);
  oo_owed : forall v, msum (owed_to ent v) (op_next s) = W v;
  oo_due : map_Forall (fun id p => Due p = 0 \/ ent id ∈ vs) (op_next s);
  oo_back : fresh_deposits ->
    msum taken_back (op_next s) = op_returned s - PrincipalReturned before /\
    map_Forall (fun id p => 0 <= taken_back id p) (op_next s)
}.

Hypothesis height_pos : 0 < height.

(** Replacing a position by one that returned [n] and is owed the same. *)
Lemma ops_return (s : Ops) (id : string) (p p' : Position) (n : Z) totals vaults :
  ops_ok s -> op_next s !! id = Some p -> 0 <= n ->
  valid_position height id p' -> pos_u64 p' -> Due p' = Due p -> locked_of id p' = locked_of id p - n ->
  Withdrawn p' = Withdrawn p + n -> is_u64 (op_returned s + n) ->
  ops_ok (mkOps (<[id := p']> (op_next s)) totals vaults (op_deposited s) (op_locked s -w n) (op_returned s + n)).
Proof.
  intros [O1 O2 O3 O4 (O5 & O6 & O7) O8 O9 O10] Hp Hn Hv Hu Hd Hl Hw Hr.
  assert (Hle : n <= op_locked s).
  { rewrite <- O3. etransitivity; [|eapply (msum_member locked_of); [|exact Hp]].
    - pose proof (locked_of_range id p'). u64lia.
    - intros k x _. pose proof (locked_of_range k x). u64lia. }
  assert (El : op_locked s -w n = op_locked s - n) by (apply wrap64_small; u64lia).
  split; cbn [op_next op_locked op_returned op_deposited].
  - apply map_Forall_insert_2; done.
  - by rewrite map_size_insert_Some.
  - rewrite (msum_update _ _ _ _ p Hp), O3, El. lia.
  - rewrite El. lia.
  - rewrite El. split_and!; u64lia.
  - intros v. rewrite (msum_update _ _ _ _ p Hp), O8. unfold owed_to. rewrite Hd. case_bool_decide; lia.
  - apply map_Forall_insert_2; [|done]. rewrite Hd. by apply (O9 id).
  - intros Hf. destruct (O10 Hf) as [B1 B2]. split.
    + rewrite (msum_update _ _ _ _ p Hp), B1. unfold taken_back. lia.
    + apply map_Forall_insert_2; [|done]. specialize (B2 _ _ Hp). unfold taken_back in *. simpl in *. lia.
Qed.

Lemma operation_ok (genesis : Hash32) (s s' : Ops) (tx : Transaction) :
  actions_u64 -> tx ∈ Transactions r -> ops_ok s -> apply_operation r height genesis s tx = Ok s' -> ops_ok s'.
Proof.
  intros Hact Htx O E. unfold apply_operation in E. destruct (negb (IsLPoDPosition tx)); [by injection E as <-|].
  apply bind_ok in E as (a & Ea & E). apply reject_ok in E as [_ E].
  destruct (action_facts _ _ Ea) as [Ham Had]. destruct (Hact _ _ Htx Ea) as [Hau Haw].
  case_bool_decide as Ed; [|case_bool_decide as Ew; [|by injection E as <-]].
  - unfold apply_deposit in E. apply reject_ok in E as [C E]. apply orb_false_iff in C as [Cn Cs].
    apply bool_decide_eq_false in Cn. apply Nat.leb_gt in Cs. apply reject_ok in E as [_ E].
    apply bind_ok in E as (t1 & _ & E). apply bind_ok in E as (t2 & _ & E). apply reject_ok in E as [_ E].
    destruct O as [O1 O2 O3 O4 (O5 & O6 & O7) O8 O9 O10].
    apply bind_ok in E as (d & Edep & E). apply lpodAdd_ok in Edep as [-> Hd']; [|done..].
    apply bind_ok in E as (lk & Elk & E). apply lpodAdd_ok in Elk as [-> Hl']; [|done..].
    apply bind_ok in E as (n & _ & E). injection E as <-.
    assert (Hnone : op_next s !! lpodPositionID a = None) by (apply eq_None_not_Some; done).
    destruct (Had Ed) as [Hn Hw].
    assert (Hloc : locked_of (lpodPositionID a) (newPosition a) = pa_Amount a).
    { unfold locked_of, remaining. cbn [newPosition Returned Withdrawn p_Deposit]. rewrite Z.sub_0_r. by apply wrap64_small. }
    split; cbn [op_next op_locked op_returned op_deposited].
    + apply map_Forall_insert_2; [|done]. split; [|apply valid_new; try done; lia].
      unfold pos_u64. cbn [newPosition p_Deposit Withdrawn Due p_Nonce APRCarry]. split_and!; try done; u64lia.
    + rewrite map_size_insert_None by done. lia.
    + rewrite (msum_fresh _ _ _ _ Hnone), O3, Hloc. lia.
    + lia.
    + done.
    + intros v. rewrite (msum_fresh _ _ _ _ Hnone), O8. unfold owed_to. cbn [newPosition Due]. by case_bool_decide.
    + apply map_Forall_insert_2; [|done]. by left.
    + intros Hf. destruct (O10 Hf) as [B1 B2].
      assert (Ht : taken_back (lpodPositionID a) (newPosition a) = 0).
      { unfold taken_back, prior_withdrawn. rewrite (Hf tx a) by done. done. }
      split; [rewrite (msum_fresh _ _ _ _ Hnone), B1, Ht; lia|]. apply map_Forall_insert_2; [by rewrite Ht|done].
  - unfold apply_withdrawal in E. destruct (op_next s !! lpodPositionID a) as [p|] eqn:Ep; [|done].
    apply bind_ok in E as (n & En & E). destruct (oo_pos _ O _ _ Ep) as [Hpu Hpv].
    destruct (withdrawal_amount _ _ _ _ _ Hpu Haw Hpv En) as (Hr & Hun & Hno & Hb).
    apply bind_ok in E as (ret & Er & E). assert (Hnu : is_u64 n) by (destruct Hpu as (? & ? & _); u64lia).
    destruct (oo_u64 _ O) as (_ & _ & Hret). apply lpodAdd_ok in Er as [-> Hr']; [|done..]. injection E as <-.
    destruct (withdrawn_valid height _ p n Hpu height_pos Hpv Hr Hun Hno Hb) as (V1 & V2 & V3 & V4 & V5 & _).
    eapply ops_return; try done. lia.
Qed.

Lemma operations_ok (genesis : Hash32) (s s' : Ops) :
  actions_u64 -> ops_ok s -> foldM (apply_operation r height genesis) s (Transactions r) = Ok s' -> ops_ok s'.
Proof.
  intros Hact O E. assert (Hall : forall tx, tx ∈ Transactions r -> tx ∈ Transactions r) by done.
  revert Hall E. generalize (Transactions r) at 1 3 as txs. intros txs. revert s O.
  induction txs as [|tx txs IH]; intros s O Hall E; cbn [foldM] in E; [by injection E as <-|].
  apply bind_ok in E as (s1 & E1 & E2). apply (IH s1).
  - eapply operation_ok; [done|apply Hall; left|done|done].
  - intros t Ht. apply Hall. by right.
  - done.
Qed.

Lemma route_ok (sourceBefore : gmap string Z) (eligible : gset string) (s s' : Ops) (id : string) :
  ops_ok s -> route_position r height sourceBefore eligible s id = Ok s' -> ops_ok s'.
Proof.
  intros O E. unfold route_position in E. destruct (op_next s !! id) as [p|] eqn:Ep; [|done].
  destruct (oo_pos _ O _ _ Ep) as [Hpu Hpv]. destruct (Returned p) eqn:Er; [by injection E as <-|].
  cbv zeta in E. destruct (_ && _); [by injection E as <-|]. apply bind_ok in E as (best & _ & E).
  case_bool_decide.
  - apply bind_ok in E as (ret & Eret & E). destruct (oo_u64 _ O) as (_ & _ & Hret).
    apply lpodAdd_ok in Eret as [-> Hr]; [|done|apply remaining_u64]. injection E as <-.
    destruct (refunded_valid height _ p Hpu height_pos Hpv Er) as (V1 & V2 & V3 & V4 & V5).
    eapply ops_return; try done. pose proof (remaining_u64 p). u64lia.
  - destruct (hex_decode best) as [raw|]; [|done]. apply reject_ok in E as [_ E]. apply bind_ok in E as (n & _ & E). injection E as <-.
    set (p1 := if bool_decide _ then _ else _).
    assert (Hp1 : valid_position height id p1 /\ pos_u64 p1 /\ Due p1 = Due p /\ locked_of id p1 = locked_of id p /\ Withdrawn p1 = Withdrawn p).
    { subst p1. case_bool_decide as Ed; (split; [|split_and!; done]); apply routed_valid; try done.
      intros x [= <-]. split; [done|lia]. }
    destruct Hp1 as (V1 & V2 & V3 & V4 & V5). clearbody p1.
    destruct O as [O1 O2 O3 O4 O5 O8 O9 O10]. split; cbn [op_next op_locked op_returned op_deposited]; try done.
    + apply map_Forall_insert_2; done.
    + by rewrite map_size_insert_Some.
    + rewrite (msum_update _ _ _ _ p Ep). lia.
    + intros v. rewrite (msum_update _ _ _ _ p Ep), O8. unfold owed_to. rewrite V3. lia.
    + apply map_Forall_insert_2; [|done]. rewrite V3. by apply (O9 id).
    + intros Hf. destruct (O10 Hf) as [B1 B2]. split.
      * rewrite (msum_update _ _ _ _ p Ep), B1. unfold taken_back. lia.
      * apply map_Forall_insert_2; [|done]. specialize (B2 _ _ Ep). unfold taken_back in *. simpl in *. lia.
Qed.

(** A vault never leaves the set of those to settle. *)
Lemma operation_vaults (genesis : Hash32) (s s' : Ops) (tx : Transaction) :
  apply_operation r height genesis s tx = Ok s' -> op_vaults s ⊆ op_vaults s'.
Proof.
  unfold apply_operation. intros E. destruct (negb _); [by injection E as <-|]. apply bind_ok in E as (a & _ & E).
  apply reject_ok in E as [_ E]. case_bool_decide; [|case_bool_decide; [|by injection E as <-]].
  - unfold apply_deposit in E. peel E. injection E as <-. simpl. set_solver.
  - unfold apply_withdrawal in E. peel E. injection E as <-. simpl. set_solver.
Qed.

Lemma route_vaults (sourceBefore : gmap string Z) (eligible : gset string) (s s' : Ops) (id : string) :
  route_position r height sourceBefore eligible s id = Ok s' -> op_vaults s ⊆ op_vaults s'.
Proof.
  unfold route_position. intros E. destruct (op_next s !! id) as [p|]; [|done]. destruct (Returned p); [by injection E as <-|].
  cbv zeta in E. destruct (_ && _); [by injection E as <-|]. apply bind_ok in E as (best & _ & E). case_bool_decide.
  - apply bind_ok in E as (ret & _ & E). injection E as <-. simpl. set_solver.
  - destruct (hex_decode best); [|done]. apply reject_ok in E as [_ E]. apply bind_ok in E as (n & _ & E). injection E as <-. simpl. set_solver.
Qed.

End Stages.

(** ** The whole transition *)

Lemma msum_filter {A} (f : string -> A -> Z) (P : string * A -> Prop) `{!forall e, Decision (P e)} (m : gmap string A) :
  (forall k x, m !! k = Some x -> ~ P (k, x) -> f k x = 0) -> msum f (filter P m) = msum f m.
Proof.
  induction m as [|k x m Hk IH] using map_ind; intros Hz; [done|].
  assert (E : msum f (filter P m) = msum f m).
  { apply IH. intros k' x' Hk'. apply Hz. rewrite lookup_insert_ne; [done|]. intros ->. congruence. }
  rewrite (msum_fresh f) by done. destruct (decide (P (k, x))) as [Hp|Hp].
  - rewrite map_filter_insert_True by done. rewrite (msum_fresh f), E; [done|]. apply map_lookup_filter_None. by left.
  - rewrite map_filter_insert_False, delete_id by done. rewrite (Hz k x), E; [lia| |done]. apply lookup_insert_eq.
Qed.

Lemma msum_related {A B} (R : A -> B -> Prop) (f : string -> A -> Z) (g : string -> B -> Z) (m1 : gmap string A) (m2 : gmap string B) :
  (forall k, option_Forall2 R (m1 !! k) (m2 !! k)) -> (forall k x y, m1 !! k = Some x -> m2 !! k = Some y -> R x y -> f k x = g k y) ->
  msum f m1 = msum g m2.
Proof.
  revert m2. induction m1 as [|k x m1 Hk IH] using map_ind; intros m2 HR Hfg.
  - assert (m2 = ∅) as ->; [|by rewrite !msum_empty].
    apply map_empty. intros k. specialize (HR k). rewrite lookup_empty in HR. by inversion HR.
  - pose proof (HR k) as Hx. rewrite lookup_insert_eq in Hx. inversion Hx as [? y Hxy E1 E2|]; subst.
    rewrite (msum_fresh f) by done. rewrite (msum_delete g m2 k y) by done. f_equal; [apply (Hfg k); [apply lookup_insert_eq|done|done]|].
    apply IH.
    + intros k'. destruct (decide (k' = k)) as [->|Hne]; [rewrite Hk, lookup_delete_eq; constructor|].
      rewrite lookup_delete_ne by done. specialize (HR k'). by rewrite lookup_insert_ne in HR.
    + intros k' x' y' Hk' Hy'. apply lookup_delete_Some in Hy' as [Hne Hy']. apply Hfg; [|done]. by rewrite lookup_insert_ne.
Qed.

Lemma size_related {A B} (R : A -> B -> Prop) (m1 : gmap string A) (m2 : gmap string B) :
  (forall k, option_Forall2 R (m1 !! k) (m2 !! k)) -> size m1 = size m2.
Proof.
  intros HR. rewrite <- !size_dom. f_equal. apply set_eq. intros k. rewrite !elem_of_dom.
  specialize (HR k). by inversion HR.
Qed.

Lemma mapM_result_inv {X Y} (f : X -> result Y) (l : list X) (ys : list Y) :
  mapM_result f l = Ok ys -> Forall2 (fun x y => f x = Ok y) l ys.
Proof.
  revert ys. induction l as [|x l IH] using rev_ind; intros ys E; [by injection E as <-|].
  unfold mapM_result in E. rewrite foldM_app in E. apply bind_ok in E as (ys1 & E1 & E2). cbn [foldM] in E2.
  apply bind_ok in E2 as (ys2 & E2 & E3). injection E3 as <-. apply bind_ok in E2 as (y & Ey & E2). injection E2 as <-.
  apply Forall2_app; [by apply IH|]. by constructor.
Qed.

Section Whole.
Context `{Crypto} `{Json} `{LPoDJson} {M : Type}.
Variable iter : gmap string Position -> list (string * Position).
Hypothesis iter_perm : forall m, iter m ≡ₚ map_to_list m.
Variables (r : Settlement M) (height : Z).

(** The numbers of a settlement, as values of their Go types. *)
Definition settlement_u64 : Prop :=
  actions_u64 r /\ map_Forall (fun _ s => is_u64 (vs_Amount s)) (Stake r) /\ map_Forall (fun _ s => is_u64 (vs_Amount s)) (PreviousStake r).

Definition vault_of (entitled : gmap string string) (id : string) : string := default EmptyString (entitled !! id).

(** What the transition hands to the settlement. *)
Record transition_ok (before next : Checkpoint) (vaults : list LPoD.Vault) (entitled : gmap string string) : Prop := {
  tr_ops : exists totals vs, ops_ok r height before (vault_of entitled) vs
    (fun v => msum (owed_to (vault_of entitled) v) (Positions next))
    (mkOps (Positions next) totals vs (PrincipalDeposited next) (PrincipalLocked next) (PrincipalReturned next)) /\
    vs ⊆ list_to_set (LPoD.ID <$> vaults);
  tr_same : State next = State before /\ Carries next = Carries before /\ cp_Allocation next = cp_Allocation before /\
    GenesisVesting next = GenesisVesting before;
  tr_ids : NoDup (LPoD.ID <$> vaults);
  tr_vaults : Forall (fun v => LPoD.vault_u64 v /\
    exists x, LPoD.ExactAccrual v = Some x /\ x + LPoD.Arrears v = msum (owed_to (vault_of entitled) (LPoD.ID v)) (Positions next)) vaults;
  tr_arrears : sumZ LPoD.Arrears vaults = msum due_of (Positions before);
  tr_income : exists a, cp_Allocation before = Some a /\
    Forall (fun v => LPoD.ActualIncome v = if bool_decide (LPoD.ID v = Proposer r) then LPoDRewardFor (ValidatorRemaining a) else 0) vaults /\
    Proposer r ∈ LPoD.ID <$> vaults
}.

Lemma stake_u64 (m : gmap string ValidatorStake) (v : string) :
  map_Forall (fun _ s => is_u64 (vs_Amount s)) m -> is_u64 (vs_Amount (stake_of m v)).
Proof. intros Hm. destruct (m !! v) as [s|] eqn:E; simpl; [by apply (Hm v)|u64lia]. Qed.

Lemma prior_totals_u64 (m m' : gmap string Z) (l : list (string * Position)) :
  (forall v, is_u64 (amount_of m v)) -> foldM prior_total m l = Ok m' -> forall v, is_u64 (amount_of m' v).
Proof.
  intros Hm. apply (foldM_inv prior_total (fun m => forall v, is_u64 (amount_of m v))); [|done].
  intros s [id p] s' Hs E. unfold prior_total in E. destruct (UnlockHeight p =? 0); [|by injection E as <-].
  apply bind_ok in E as (n & En & E). injection E as <-. apply lpodAdd_ok in En as [-> Hn]; [|apply Hs|apply remaining_u64].
  intros v. rewrite amount_insert. case_bool_decide; [done|apply Hs].
Qed.

Lemma vault_line_ok (vr : Z) (totals accrual arrears : gmap string Z) (id : string) (v : LPoD.Vault) :
  settlement_u64 -> is_u64 vr -> (forall v, is_u64 (amount_of totals v)) -> (forall v, is_u64 (amount_of accrual v)) ->
  (forall v, is_u64 (amount_of arrears v)) -> vault_line r vr totals accrual arrears id = Ok v ->
  LPoD.vault_u64 v /\ LPoD.ID v = id /\ LPoD.ExactAccrual v = Some (amount_of accrual id) /\ LPoD.Arrears v = amount_of arrears id /\
  LPoD.ActualIncome v = if bool_decide (id = Proposer r) then LPoDRewardFor vr else 0.
Proof.
  intros (_ & Hs1 & Hs2) Hvr Ht Ha Hd E. unfold vault_line in E.
  assert (Hst : is_u64 (vs_Amount (routing_stake r id))) by (unfold routing_stake; destruct (_ && _); by apply stake_u64).
  apply bind_ok in E as (total & Et & E). apply lpodAdd_ok in Et as [-> Htu]; [|done|apply Ht].
  cbv zeta in E. set (t3 := if _ <? amount_of totals id then _ else _) in *.
  assert (Ht3 : is_u64 t3).
  { subst t3. assert (is_u64 minValidator) by done. assert (is_u64 lpodMaxVaultNAPRO) by done. specialize (Ht id).
    repeat match goal with |- context [if ?c then _ else _] => destruct c end; done. }
  clearbody t3. apply bind_ok in E as (income & Ei & E). injection E as <-.
  assert (Hi : income = if bool_decide (id = Proposer r) then LPoDRewardFor vr else 0).
  { case_bool_decide; [by apply reject_ok in Ei as [_ [= <-]]|by injection Ei as <-]. }
  assert (Hiu : is_u64 income).
  { rewrite Hi. unfold LPoDRewardFor. case_bool_decide; [|u64lia]. destruct (vr =? 0); [done|]. destruct (vr <? _); done. }
  unfold LPoD.vault_u64. cbn [LPoD.TotalStake LPoD.GuardianStake LPoD.ActualIncome LPoD.ElapsedSeconds LPoD.Arrears LPoD.ExactAccrual LPoD.ID].
  split_and!; try done; try apply Ht; try apply Hd; try apply Ha. intros x [= <-]. apply Ha.
Qed.


(** The positions that start the block, and the accounts before its operations. *)
Lemma kept_positions (before : Checkpoint) (w : Work) :
  checkpoint_u64 before -> checkpoint_ok before -> LPoD.LastHeight (State before) <= height ->
  carried (Proposer r) (iter (Positions before)) w ->
  wk_next w = filter kept (Positions before) /\
  map_Forall (fun id p => pos_u64 p /\ valid_position height id p /\ vault_of (wk_entitled w) id = lpodPositionVaultID p) (wk_next w) /\
  msum locked_of (wk_next w) = PrincipalLocked before /\ msum due_of (wk_next w) = msum due_of (Positions before) /\
  (size (wk_next w) <= LPoDMaxPositions)%nat.
Proof.
  intros (Hu & _) [K1 K2 K3 _ _ _] Hh [C1 C2 _ _]. rewrite iter_map in C1 by done. rewrite C2, C1. split_and!.
  - done.
  - intros id p Hp. pose proof Hp as Hf. apply map_lookup_filter_Some in Hp as [Hp _]. split_and!.
    + by apply (Hu id).
    + eapply valid_position_mono; [exact Hh|]. by apply K2.
    + unfold vault_of. rewrite lookup_fmap, Hf. done.
  - rewrite msum_filter; [done|]. intros id p Hp Hk. unfold kept, locked_of in *. simpl in Hk.
    destruct (Returned p); [done|]. exfalso. by apply Hk.
  - apply msum_filter. intros id p Hp Hk. unfold kept, due_of in *. simpl in Hk.
    destruct (Returned p); simpl in Hk; [|by destruct Hk]. destruct (Z.eqb_spec (Due p) 0); [done|by destruct Hk].
  - etransitivity; [|exact K1]. apply map_subseteq_size, map_filter_subseteq.
Qed.

Lemma start_ops (before : Checkpoint) (w : Work) (ac : Accrual) totals :
  checkpoint_u64 before -> checkpoint_ok before -> LPoD.LastHeight (State before) <= height ->
  carried (Proposer r) (iter (Positions before)) w ->
  accrued (wk_next w) (vault_of (wk_entitled w)) (iter (wk_next w)) ac ->
  ops_ok r height before (vault_of (wk_entitled w)) (wk_vaults w) (fun v => msum (owed_to (vault_of (wk_entitled w)) v) (ac_next ac))
    (mkOps (ac_next ac) totals (wk_vaults w) (PrincipalDeposited before) (PrincipalLocked before) (PrincipalReturned before)).
Proof.
  intros Hu Hok Hh HC [_ A2 _ _ _]. destruct (kept_positions _ _ Hu Hok Hh HC) as (E & F & L1 & _ & S1).
  assert (HA : forall id p', ac_next ac !! id = Some p' -> exists p, wk_next w !! id = Some p /\ accrued_from p p').
  { intros id p' Hp'. specialize (A2 id). rewrite Hp' in A2. inversion A2; eauto. }
  destruct Hu as (Hpu & U1 & U2 & U3 & _). destruct Hok as [_ _ _ K4 _ _].
  split; cbn [op_next op_locked op_returned op_deposited]; try done.
  - intros id p' Hp'. destruct (HA _ _ Hp') as (p & Hp & d & c & -> & D1 & D2 & D3). destruct (F _ _ Hp) as (Pu & Pv & _).
    split; [|by apply valid_set_accrued]. destruct Pu as (P1 & P2 & P3 & P4 & P5).
    unfold pos_u64. cbn [set_accrued p_Deposit Withdrawn Due p_Nonce APRCarry]. split_and!; try done; try lia.
    assert (lpodAPRDenominator < U64) by by vm_compute. u64lia.
  - by rewrite <- (size_related _ _ _ A2).
  - rewrite <- L1. symmetry. apply (msum_related accrued_from); [exact A2|]. by intros k x y _ _ (d & c & -> & _).
  - intros id p' Hp'. right. destruct (HA _ _ Hp') as (p & Hp & _). destruct (F _ _ Hp) as (_ & _ & ->).
    by apply (cr_vaults _ _ _ HC id).
  - intros _.
    assert (Hz : forall id p', ac_next ac !! id = Some p' -> taken_back before id p' = 0).
    { intros id p' Hp'. destruct (HA _ _ Hp') as (p & Hp & d & c & -> & _). rewrite E in Hp. apply map_lookup_filter_Some in Hp as [Hp _].
      unfold taken_back, prior_withdrawn. rewrite Hp. simpl. lia. }
    split; [rewrite msum_zero by done; lia|]. intros id p' Hp'. simpl. rewrite (Hz _ _ Hp'). done.
Qed.

(** The loops after accrual keep the accounts, and only add vaults. *)
Lemma ops_loops (genesis : Hash32) (before : Checkpoint) (ent : string -> string) (vs : gset string) (W : string -> Z)
    (s ops routed : Ops) (sourceBefore : gmap string Z) (eligible : gset string) (ids : list string) :
  actions_u64 r -> 0 < height -> ops_ok r height before ent vs W s ->
  foldM (apply_operation r height genesis) s (Transactions r) = Ok ops ->
  foldM (route_position r height sourceBefore eligible) ops ids = Ok routed ->
  ops_ok r height before ent vs W routed /\ op_vaults s ⊆ op_vaults routed.
Proof.
  intros Ha Hh O E1 E2. split.
  - eapply (foldM_inv (route_position r height sourceBefore eligible)); [| |exact E2].
    + intros s0 id s1 O0. eapply route_ok; eauto.
    + eapply operations_ok; eauto.
  - transitivity (op_vaults ops).
    + eapply (foldM_inv (apply_operation r height genesis) (fun x => op_vaults s ⊆ op_vaults x)); [|done|exact E1].
      intros s0 tx s1 Hs E. etransitivity; [exact Hs|]. by eapply operation_vaults.
    + eapply (foldM_inv (route_position r height sourceBefore eligible) (fun x => op_vaults ops ⊆ op_vaults x)); [|done|exact E2].
      intros s0 id s1 Hs E. etransitivity; [exact Hs|]. by eapply route_vaults.
Qed.

(** The lines of the vaults, from their identifiers. *)
Lemma vault_lines (vr : Z) (totals accrual arrears : gmap string Z) (ids : list string) (vaults : list LPoD.Vault) :
  settlement_u64 -> is_u64 vr -> (forall v, is_u64 (amount_of totals v)) -> (forall v, is_u64 (amount_of accrual v)) ->
  (forall v, is_u64 (amount_of arrears v)) -> mapM_result (vault_line r vr totals accrual arrears) ids = Ok vaults ->
  LPoD.ID <$> vaults = ids /\ LPoD.Arrears <$> vaults = (fun v => amount_of arrears v) <$> ids /\
  Forall (fun v => LPoD.vault_u64 v /\ LPoD.ExactAccrual v = Some (amount_of accrual (LPoD.ID v)) /\
    LPoD.Arrears v = amount_of arrears (LPoD.ID v) /\
    LPoD.ActualIncome v = if bool_decide (LPoD.ID v = Proposer r) then LPoDRewardFor vr else 0) vaults.
Proof.
  intros Hs Hv Ht Ha Hd E. apply mapM_result_inv in E. induction E as [|id v ids vaults E _ IH]; [done|].
  destruct IH as (I1 & I2 & I3). destruct (vault_line_ok _ _ _ _ _ _ Hs Hv Ht Ha Hd E) as (V1 & V2 & V3 & V4 & V5).
  split_and!.
  - by rewrite fmap_cons, I1, V2.
  - by rewrite !fmap_cons, I2, V4.
  - constructor; [|done]. rewrite V2, V3, V4, V5. done.
Qed.

Lemma positionTransition_ok (parent : result Block) (before next : Checkpoint) (vaults : list LPoD.Vault) (entitled : gmap string string) :
  settlement_u64 -> checkpoint_u64 before -> (forall a, cp_Allocation before = Some a -> is_u64 (ValidatorRemaining a)) ->
  height = LPoD.LastHeight (State before) + 1 ->
  positionTransition iter r height parent before = Ok (next, vaults, entitled) ->
  checkpoint_ok before /\ transition_ok before next vaults entitled.
Proof.
  intros Hset Hu Hal Hh E. unfold positionTransition in E.
  destruct (cp_Allocation before) as [al|] eqn:Eal; [|done]. apply bind_ok in E as ([] & Ev & E).
  apply validatePositions_ok in Ev; [|done..]. split; [done|].
  apply bind_ok in E as (pb & _ & E). apply reject_ok in E as [_ E].
  apply bind_ok in E as (w & Ew & E). apply bind_ok in E as (ac & Eac & E). apply bind_ok in E as (ops & Eops & E).
  apply bind_ok in E as (sb & _ & E). cbv zeta in E. apply bind_ok in E as (routed & Ert & E).
  apply bind_ok in E as (pt & Ept & E). apply bind_ok in E as (vl & Evl & E). injection E as <- <- <-.
  assert (HC : carried (Proposer r) (iter (Positions before)) w) by (eapply carry_over_spec; [exact iter_perm|by apply iter_keys|exact Ew]).
  assert (Hlh : 0 <= LPoD.LastHeight (State before)) by (destruct Hu as (_ & _ & _ & _ & Hs & _); unfold LPoD.state_u64 in Hs; u64lia).
  destruct (kept_positions _ _ Hu Ev ltac:(lia) HC) as (EK & FK & LK & DK & SK).
  assert (HA : accrued (wk_next w) (vault_of (wk_entitled w)) (iter (wk_next w)) ac).
  { eapply accrue_spec; [exact iter_perm| |exact FK| |by apply iter_keys|exact Eac].
    - unfold elapsed_of. destruct (_ <? _); [done|apply wrap64_range].
    - intros id p Hin. rewrite (iter_perm (wk_next w)) in Hin. by apply elem_of_map_to_list. }
  pose proof (start_ops _ _ _ (wk_totals w) Hu Ev ltac:(lia) HC HA) as O.
  destruct (ops_loops _ _ _ _ _ _ _ _ _ _ _ (proj1 Hset) ltac:(lia) O Eops Ert) as [O' Hvs]. cbn [op_vaults] in Hvs.
  assert (Hpt : forall v, is_u64 (amount_of pt v)).
  { apply (prior_totals_u64 ∅ pt _ ltac:(intros v; rewrite lookup_empty; simpl; u64lia) Ept). }
  destruct (vault_lines _ _ _ _ _ _ Hset (Hal _ eq_refl) Hpt (fun v => proj1 (ad_accrual _ _ _ _ HA v)) (fun v => proj2 (ad_accrual _ _ _ _ HA v)) Evl)
    as (V1 & V2 & V3).
  set (ids := merge_sort str_le (elements (op_vaults routed))) in *.
  assert (Hids : ids ≡ₚ elements (op_vaults routed)) by apply merge_sort_Permutation.
  assert (Hnd : NoDup ids) by (rewrite Hids; apply NoDup_elements).
  assert (Hin : forall v, v ∈ ids <-> v ∈ op_vaults routed) by (intros v; rewrite Hids; apply elem_of_elements).
  assert (Harr : forall v, amount_of (ac_arrears ac) v = msum (owed_to (vault_of (wk_entitled w)) v) (wk_next w)).
  { intros v. rewrite (ad_arrears _ _ _ _ HA). by apply iter_sum. }
  split.
  - exists (op_totals routed), (wk_vaults w). destruct O' as [O1 O2 O3 O4 O5 O6 O7 O8]. split.
    + split; try done.
    + rewrite V1. intros v Hv. apply elem_of_list_to_set, Hin, Hvs, Hv.
  - done.
  - by rewrite V1.
  - eapply list.Forall_impl; [exact V3|]. intros v (A1 & A2 & A3 & _). split; [done|]. eexists. split; [exact A2|].
    cbn [Positions]. rewrite (oo_owed _ _ _ _ _ _ _ O'), (ad_owed _ _ _ _ HA), A3, Harr. lia.
  - transitivity (sumZ id (LPoD.Arrears <$> vl)); [by rewrite sumZ_fmap|]. rewrite V2, sumZ_fmap. unfold id.
    rewrite <- DK, <- (msum_groups due_of (wk_next w) (vault_of (wk_entitled w)) ids Hnd).
    + apply sumZ_ext. intros v _. rewrite Harr. done.
    + intros k p Hp. left. apply Hin, Hvs. destruct (FK _ _ Hp) as (_ & _ & ->). by apply (cr_vaults _ _ _ HC k).
  - exists al. split; [done|]. split.
    + eapply list.Forall_impl; [exact V3|]. intros v (_ & _ & _ & A4). exact A4.
    + rewrite V1. apply Hin, Hvs, HC.
Qed.

End Whole.

(** ** The distribution of a payment *)

Section Distribution.
Variable entitled : gmap string string.
Abbreviation ent := (vault_of entitled).

(** Two positions that differ at most in what is due. *)
Definition same_but_due (p p' : Position) : Prop := exists d, p' = set_due d p /\ 0 <= d <= Due p.

Lemma same_but_due_refl p : 0 <= Due p -> same_but_due p p.
Proof. intros Hp. exists (Due p). split; [by destruct p|lia]. Qed.

Lemma same_but_due_trans p q s : same_but_due p q -> same_but_due q s -> same_but_due p s.
Proof. intros (d & -> & ?) (d' & -> & Hd). exists d'. split; [done|]. cbn [set_due Due] in Hd. lia. Qed.

Definition dues_u64 (m : gmap string Position) : Prop := map_Forall (fun _ p => is_u64 (Due p)) m.

(** The sum over a list of keys. *)
Definition lsum (f : string -> Position -> Z) (m : gmap string Position) (ids : list string) : Z :=
  sumZ (fun id => match m !! id with Some p => f id p | None => 0 end) ids.

Lemma owed_range v id p : is_u64 (Due p) -> 0 <= owed_to ent v id p <= Due p.
Proof. unfold owed_to. case_bool_decide; u64lia. Qed.

Lemma lsum_nonneg v m ids : dues_u64 m -> 0 <= lsum (owed_to ent v) m ids.
Proof.
  intros Hm. apply sumZ_nonneg. intros id _. destruct (m !! id) as [p|] eqn:E; [|lia].
  pose proof (owed_range v id p (Hm _ _ E)). lia.
Qed.

Lemma owed_sum (v : string) (m : gmap string Position) (ids : list string) (n : Z) :
  dues_u64 m -> is_u64 n -> Forall (fun id => is_Some (m !! id)) ids -> is_u64 (n + lsum (owed_to ent v) m ids) ->
  foldM (owed_step entitled v m) n ids = Ok (n + lsum (owed_to ent v) m ids).
Proof.
  intros Hm. revert n. induction ids as [|id ids IH]; intros n Hn Hids Hs; cbn [foldM]; [unfold lsum; simpl; by rewrite Z.add_0_r|].
  apply list.Forall_cons in Hids as [[p Hp] Hids]. unfold lsum in *. cbn [sumZ] in *. rewrite Hp in *.
  pose proof (owed_range v id p (Hm _ _ Hp)) as Ho. pose proof (lsum_nonneg v m ids Hm) as Hl. unfold lsum in Hl.
  assert (E : owed_step entitled v m n id = Ok (n + owed_to ent v id p)).
  { unfold owed_step. rewrite Hp. unfold owed_to, vault_of in *. case_bool_decide; [|by rewrite Z.add_0_r].
    apply lpodAdd_ok; [done|by apply (Hm id)|]. split; [done|u64lia]. }
  rewrite E. cbn [mbind result_bind]. rewrite IH; [f_equal; lia|u64lia|done|]. by rewrite <- Z.add_assoc.
Qed.

(** The share of a position is at most what it is owed, and leaves enough for none. *)
Lemma share_bounds (rest d due : Z) :
  0 <= rest <= due -> 0 < d <= due -> 0 <= rest * d / due <= d /\ rest * d / due <= rest /\ rest - rest * d / due <= due - d.
Proof.
  intros Hr Hd. assert (Hq := Z.div_mod (rest * d) due ltac:(lia)). assert (Hm := Z.mod_pos_bound (rest * d) due ltac:(lia)).
  set (q := rest * d / due) in *. assert (0 <= q) by (apply Z.div_pos; nia).
  split_and!; try done; try nia.
Qed.

Record shared (v : string) (m m' : gmap string Position) (paid : Z) : Prop := {
  sh_rel : forall id, option_Forall2 same_but_due (m !! id) (m' !! id);
  sh_owed : msum (owed_to ent v) m' = msum (owed_to ent v) m - paid;
  sh_other : forall id, ent id <> v -> m' !! id = m !! id
}.

Lemma related_refl (m : gmap string Position) : dues_u64 m -> forall id, option_Forall2 same_but_due (m !! id) (m !! id).
Proof.
  intros Hm id. destruct (m !! id) as [p|] eqn:E; constructor. apply same_but_due_refl. specialize (Hm _ _ E). simpl in Hm. u64lia.
Qed.

Lemma related_trans (m1 m2 m3 : gmap string Position) :
  (forall id, option_Forall2 same_but_due (m1 !! id) (m2 !! id)) -> (forall id, option_Forall2 same_but_due (m2 !! id) (m3 !! id)) ->
  forall id, option_Forall2 same_but_due (m1 !! id) (m3 !! id).
Proof.
  intros H1 H2 id. specialize (H1 id). specialize (H2 id). destruct H1 as [p q Hpq|]; inversion H2; subst; constructor.
  by eapply same_but_due_trans.
Qed.

Lemma related_u64 (m m' : gmap string Position) :
  (forall id, option_Forall2 same_but_due (m !! id) (m' !! id)) -> dues_u64 m -> dues_u64 m'.
Proof.
  intros HR Hm id p' Hp'. specialize (HR id). rewrite Hp' in HR. inversion HR as [p ? (d & -> & Hd) E|]; subst.
  symmetry in E. specialize (Hm _ _ E). cbn [set_due Due] in *. u64lia.
Qed.

Lemma share_loop (v : string) (ids : list string) (m : gmap string Position) (rest due : Z) :
  dues_u64 m -> NoDup ids -> Forall (fun id => is_Some (m !! id)) ids -> due = lsum (owed_to ent v) m ids ->
  0 <= rest <= due -> is_u64 due ->
  exists m', foldM (share_step entitled v) (rest, due, m) ids = Ok (0, 0, m') /\ shared v m m' rest.
Proof.
  revert m rest due. induction ids as [|id ids IH]; intros m rest due Hm Hnd Hids -> Hr Hdu.
  - unfold lsum in *. simpl in *. assert (rest = 0) as -> by lia. exists m. split; [done|]. split; [by apply related_refl|lia|done].
  - apply list.NoDup_cons in Hnd as [Hid Hnd]. apply list.Forall_cons in Hids as [[p Hp] Hids].
    assert (El : lsum (owed_to ent v) m (id :: ids) = owed_to ent v id p + lsum (owed_to ent v) m ids) by (unfold lsum; simpl; by rewrite Hp).
    rewrite El in *. pose proof (lsum_nonneg v m ids Hm) as Hl. pose proof (Hm _ _ Hp) as Hpu. simpl in Hpu. cbn [foldM].
    destruct (negb (bool_decide (ent id = v)) || (Due p =? 0)) eqn:Es.
    + assert (Eo : owed_to ent v id p = 0).
      { unfold owed_to. apply orb_true_iff in Es as [Es|Es]; [|apply Z.eqb_eq in Es; by case_bool_decide].
        apply negb_true_iff, bool_decide_eq_false in Es. by rewrite bool_decide_eq_false_2. }
      assert (E : forall d, share_step entitled v (rest, d, m) id = Ok (rest, d, m)).
      { intros d. unfold share_step. rewrite Hp. unfold vault_of in Es. by rewrite Es. }
      rewrite E. cbn [mbind result_bind]. rewrite Eo, Z.add_0_l in *. by apply IH.
    + apply orb_false_iff in Es as [Es1 Es2]. pose proof Es1 as Es1'. apply negb_false_iff, bool_decide_eq_true in Es1'. pose proof Es2 as Es2'. apply Z.eqb_neq in Es2'.
      assert (Eo : owed_to ent v id p = Due p) by (unfold owed_to; by rewrite bool_decide_eq_true_2). rewrite Eo in *.
      set (due := Due p + lsum (owed_to ent v) m ids) in *.
      destruct (share_bounds rest (Due p) due) as (Q1 & Q2 & Q3); [lia|u64lia|].
      set (q := rest * Due p / due) in *.
      assert (E : share_step entitled v (rest, due, m) id = Ok (rest - q, due - Due p, <[id := set_due (Due p - q) p]> m)).
      { unfold share_step. rewrite Hp. unfold vault_of in Es1. rewrite Es1, Es2. cbn [orb]. fold q.
        rewrite !(wrap64_small q), !wrap64_small by u64lia. done. }
      rewrite E. cbn [mbind result_bind]. set (m1 := <[id := _]> m) in *.
      assert (Hrel : forall k, option_Forall2 same_but_due (m !! k) (m1 !! k)).
      { intros k. unfold m1. destruct (decide (k = id)) as [->|]; [|rewrite lookup_insert_ne by done; by apply related_refl].
        rewrite lookup_insert_eq, Hp. constructor. exists (Due p - q). split; [done|lia]. }
      assert (Hls : lsum (owed_to ent v) m1 ids = lsum (owed_to ent v) m ids).
      { apply sumZ_ext. intros k Hk. unfold m1. rewrite lookup_insert_ne; [done|]. intros ->. done. }
      destruct (IH m1 (rest - q) (due - Due p)) as (m' & Em & [R1 R2 R3]); try done.
      * by apply (related_u64 m).
      * eapply list.Forall_impl; [exact Hids|]. intros k Hk. unfold m1. destruct (decide (k = id)) as [->|]; [by rewrite lookup_insert_eq|by rewrite lookup_insert_ne].
      * rewrite Hls. unfold due. lia.
      * lia.
      * u64lia.
      * exists m'. split; [done|]. split.
        -- by eapply related_trans.
        -- rewrite R2. unfold m1. rewrite (msum_update _ _ _ _ p Hp). unfold owed_to at 2 3. rewrite Es1'. rewrite bool_decide_eq_true_2 by done.
           cbn [set_due Due]. lia.
        -- intros k Hk. rewrite (R3 k Hk). unfold m1. rewrite lookup_insert_ne; [done|]. intros ->. done.
Qed.

(** [ids] are the keys of [m]. *)
Definition keys_of (m : gmap string Position) (ids : list string) : Prop := NoDup ids /\ forall id, id ∈ ids <-> is_Some (m !! id).

Lemma keys_related (m m' : gmap string Position) (ids : list string) :
  (forall id, option_Forall2 same_but_due (m !! id) (m' !! id)) -> keys_of m ids -> keys_of m' ids.
Proof.
  intros HR [Hnd Hk]. split; [done|]. intros id. rewrite Hk. specialize (HR id). split; intros [x E]; inversion HR; simplify_eq; eauto; congruence.
Qed.

Lemma sorted_keys_of (m : gmap string Position) : keys_of m (sorted_keys m).
Proof.
  unfold sorted_keys. split.
  - rewrite merge_sort_Permutation. apply NoDup_fst_map_to_list.
  - intros id. rewrite merge_sort_Permutation, list_elem_of_fmap. split.
    + intros ([k x] & -> & Hin). apply elem_of_map_to_list in Hin. by exists x.
    + intros [x Hx]. exists (id, x). split; [done|]. by apply elem_of_map_to_list.
Qed.

Lemma lsum_all (f : string -> Position -> Z) (m : gmap string Position) (ids : list string) :
  keys_of m ids -> lsum f m ids = msum f m.
Proof.
  intros [Hnd Hk]. unfold lsum. rewrite (sumZ_Permutation _ ids (map_to_list m).*1).
  - rewrite sumZ_fmap. apply sumZ_ext. intros [k x] Hin. apply elem_of_map_to_list in Hin. simpl. by rewrite Hin.
  - apply NoDup_Permutation; [done|apply NoDup_fst_map_to_list|]. intros id. rewrite Hk, list_elem_of_fmap. split.
    + intros [x Hx]. exists (id, x). split; [done|]. by apply elem_of_map_to_list.
    + intros ([k x] & -> & Hin). apply elem_of_map_to_list in Hin. by exists x.
Qed.

(** A payment of at most what a vault's positions are owed is distributed in full. *)
Lemma distribute_ok (m : gmap string Position) (ids : list string) (p : LPoD.Payment) :
  dues_u64 m -> keys_of m ids -> is_u64 (msum (owed_to ent (LPoD.VaultID p)) m) ->
  0 <= LPoD.Angels p <= msum (owed_to ent (LPoD.VaultID p)) m ->
  exists m', distribute entitled ids m p = Ok m' /\ shared (LPoD.VaultID p) m m' (LPoD.Angels p).
Proof.
  intros Hm Hids Hu Hp. set (v := LPoD.VaultID p) in *. pose proof (lsum_all (owed_to ent v) m ids Hids) as El.
  assert (Hf : Forall (fun id => is_Some (m !! id)) ids) by (apply list.Forall_forall; intros k Hk; by apply Hids).
  destruct (share_loop v ids m (LPoD.Angels p) (lsum (owed_to ent v) m ids)) as (m' & E & Hsh); try done;
    [apply Hids|lia|by rewrite El|].
  exists m'. split; [|done]. unfold distribute. fold v. rewrite owed_sum; [|done|u64lia|done|by rewrite Z.add_0_l, El].
  cbn [mbind result_bind]. rewrite Z.add_0_l, E. done.
Qed.

Lemma shared_other (v v' : string) (m m' : gmap string Position) (paid : Z) :
  shared v m m' paid -> v' <> v -> msum (owed_to ent v') m' = msum (owed_to ent v') m.
Proof.
  intros [R1 _ R3] Hne. symmetry. apply (msum_related same_but_due); [done|]. intros k x y Hx Hy _. unfold owed_to.
  case_bool_decide as Ek; [|done]. rewrite R3 in Hy by congruence. congruence.
Qed.

(** All payments of a settlement. *)
Lemma distribute_all (ids : list string) (ps : list LPoD.Payment) (m : gmap string Position) :
  dues_u64 m -> keys_of m ids -> NoDup (LPoD.VaultID <$> ps) ->
  Forall (fun p => 0 <= LPoD.Angels p /\ 0 <= LPoD.Unfunded p /\ is_u64 (LPoD.Angels p + LPoD.Unfunded p) /\
    msum (owed_to ent (LPoD.VaultID p)) m = LPoD.Angels p + LPoD.Unfunded p) ps ->
  exists m', foldM (distribute entitled ids) m ps = Ok m' /\
    (forall id, option_Forall2 same_but_due (m !! id) (m' !! id)) /\
    (forall id, ent id ∉ LPoD.VaultID <$> ps -> m' !! id = m !! id) /\
    Forall (fun p => msum (owed_to ent (LPoD.VaultID p)) m' = LPoD.Unfunded p) ps.
Proof.
  revert m. induction ps as [|p ps IH]; intros m Hm Hids Hnd Hps.
  - exists m. split_and!; try done. by apply related_refl.
  - rewrite fmap_cons in Hnd. apply list.NoDup_cons in Hnd as [Hv Hnd]. apply list.Forall_cons in Hps as [(P1 & P2 & P3 & P4) Hps].
    destruct (distribute_ok m ids p) as (m1 & E1 & Hsh); try done; [by rewrite P4|lia|].
    pose proof (sh_rel _ _ _ _ Hsh) as R1.
    assert (Hne : forall q, q ∈ ps -> LPoD.VaultID q <> LPoD.VaultID p).
    { intros q Hq E. apply Hv. rewrite <- E. apply list_elem_of_fmap. eauto. }
    destruct (IH m1) as (m' & E' & R' & O' & F'); [by apply (related_u64 m)|by apply (keys_related m)|done| |].
    { apply list.Forall_forall. intros q Hq. rewrite (shared_other _ _ _ _ _ Hsh) by by apply Hne.
      exact (proj1 (list.Forall_forall _ _) Hps q Hq). }
    exists m'. split_and!.
    + cbn [foldM]. rewrite E1. exact E'.
    + by eapply related_trans.
    + intros id Hid. rewrite fmap_cons in Hid. apply not_elem_of_cons in Hid as [Hid1 Hid2].
      rewrite O' by done. by apply (sh_other _ _ _ _ Hsh).
    + constructor; [|done].
      transitivity (msum (owed_to ent (LPoD.VaultID p)) m1); [|rewrite (sh_owed _ _ _ _ Hsh), P4; lia].
      symmetry. apply (msum_related same_but_due); [done|]. intros k x y Hx Hy _. unfold owed_to.
      case_bool_decide as Ek; [|done]. rewrite O' in Hy by by rewrite Ek. congruence.
Qed.

End Distribution.

(** ** The settlement of a block *)

Section Settlement.
Context `{Crypto} `{Json} `{LPoDJson} {M : Type}.
Variable iter : gmap string Position -> list (string * Position).
Hypothesis iter_perm : forall m, iter m ≡ₚ map_to_list m.
Variables (r : Settlement M) (height : Z).

(** What a settlement starts from: a settlement and a checkpoint of values of their Go
    types, and a tail issuance that is not about to overflow. *)
Definition settlement_inputs (before : Checkpoint) : Prop :=
  settlement_u64 r /\ checkpoint_u64 before /\
  (forall a, cp_Allocation before = Some a ->
     is_u64 (ValidatorRemaining a) /\ is_u64 (TailIssued a) /\ is_u64 (TailIssued a + LPoD.Unit)).

Lemma Settle_height (s next : LPoD.State) carries vaults out pays :
  is_u64 (LPoD.LastHeight s) -> LPoD.Settle s carries height vaults = Ok (next, out, pays) -> height = LPoD.LastHeight s + 1.
Proof.
  intros Hu E. unfold LPoD.Settle in E. apply bind_ok in E as ([] & _ & E). apply reject_ok in E as [C _]. zbool.
  rewrite wrap64_small in *; u64lia.
Qed.

Lemma payment_ids (vaults : list LPoD.Vault) (pays : list LPoD.Payment) :
  Forall2 LPoD.payment_for vaults pays -> LPoD.VaultID <$> pays = LPoD.ID <$> vaults.
Proof. induction 1 as [|v p vs ps (E & _) _ IH]; [done|]. by rewrite !fmap_cons, E, IH. Qed.

(** The income of the vaults is the reward of the schedule. *)
Lemma income_is_reward (before next : Checkpoint) (vaults : list LPoD.Vault) entitled (a : Allocation) :
  cp_Allocation before = Some a -> is_u64 (ValidatorRemaining a) -> transition_ok r height before next vaults entitled ->
  foldM add_income 0 vaults = Ok (LPoDRewardFor (ValidatorRemaining a)).
Proof.
  intros Ea Hu T. destruct (tr_income _ _ _ _ _ _ T) as (a' & Ea' & Hi & Hp). rewrite Ea in Ea'. injection Ea' as <-.
  set (n := LPoDRewardFor (ValidatorRemaining a)) in *.
  assert (Hn : is_u64 n).
  { unfold n, LPoDRewardFor. destruct (_ =? 0); [done|]. destruct (_ <? _); done. }
  assert (Hs : sumZ LPoD.ActualIncome vaults = n).
  { rewrite <- (pick_one (Proposer r) n (LPoD.ID <$> vaults) (tr_ids _ _ _ _ _ _ T)) by auto. rewrite sumZ_fmap. apply sumZ_ext.
    intros v Hv. rewrite (proj1 (list.Forall_forall _ _) Hi v Hv). rewrite (bool_decide_ext _ (Proposer r = LPoD.ID v)); done. }
  assert (Hnn : Forall (fun v => 0 <= LPoD.ActualIncome v) vaults).
  { eapply list.Forall_impl; [exact Hi|]. intros v ->. case_bool_decide; u64lia. }
  assert (Hgen : forall k, 0 <= k -> is_u64 (k + sumZ LPoD.ActualIncome vaults) -> foldM add_income k vaults = Ok (k + sumZ LPoD.ActualIncome vaults)).
  { clear -Hnn. induction Hnn as [|v vs Hv Hvs IH]; intros k Hk Hu; cbn [foldM sumZ] in *; [by rewrite Z.add_0_r|].
    assert (0 <= sumZ LPoD.ActualIncome vs) by (apply sumZ_nonneg; by apply list.Forall_forall).
    assert (E : add_income k v = Ok (k + LPoD.ActualIncome v)).
    { unfold add_income. rewrite (wrap64_small (MaxUint64 - k)) by u64lia.
      rewrite (proj2 (Z.ltb_ge _ _)) by u64lia. rewrite wrap64_small by u64lia. done. }
    rewrite E. cbn [mbind result_bind]. rewrite IH; [f_equal; lia|lia|]. by rewrite <- Z.add_assoc. }
  rewrite Hgen; [by rewrite Hs|lia|by rewrite Hs].
Qed.

Lemma reward_debit_ok (before next : Checkpoint) (vaults : list LPoD.Vault) entitled :
  settlement_inputs before -> transition_ok r height before next vaults entitled ->
  exists a, lpodRewardDebit (cp_Allocation before) vaults = Ok (Some a) /\
    is_u64 (ValidatorRemaining a) /\ is_u64 (TailIssued a).
Proof.
  intros (_ & _ & Ha) T. destruct (tr_income _ _ _ _ _ _ T) as (a & Ea & _). destruct (Ha a Ea) as (H2 & H3 & H4).
  rewrite Ea. unfold lpodRewardDebit. rewrite (income_is_reward _ _ _ _ a Ea H2 T). cbn [mbind result_bind].
  rewrite Z.eqb_refl. cbn [negb]. set (n := LPoDRewardFor (ValidatorRemaining a)).
  assert (Hn : n <= LPoD.Unit \/ 0 < ValidatorRemaining a /\ 0 <= n <= ValidatorRemaining a).
  { unfold n, LPoDRewardFor, is_u64 in *. destruct (Z.eqb_spec (ValidatorRemaining a) 0); [lia|]. right.
    destruct (Z.ltb_spec (ValidatorRemaining a) (3 * LPoD.Unit)); unfold LPoD.Unit in *; lia. }
  assert (Hn0 : 0 <= n <= 3 * LPoD.Unit).
  { unfold n, LPoDRewardFor, is_u64, LPoD.Unit in *. destruct (Z.eqb_spec (ValidatorRemaining a) 0); [lia|].
    destruct (Z.ltb_spec (ValidatorRemaining a) (3 * 100000000)); lia. }
  destruct (Z.ltb_spec 0 (ValidatorRemaining a)).
  - eexists. split; [reflexivity|]. cbn [with_reward ValidatorRemaining TailIssued]. split; [apply wrap64_range|done].
  - assert (Hle : n <= LPoD.Unit) by (destruct Hn; lia).
    rewrite (wrap64_small (MaxUint64 - TailIssued a)) by u64lia. rewrite (proj2 (Z.ltb_ge _ _)) by u64lia.
    eexists. split; [reflexivity|]. cbn [with_reward ValidatorRemaining TailIssued]. split; [done|apply wrap64_range].
Qed.

(** The checkpoint a settlement ends with. *)
Record settled (before next after : Checkpoint) (state : LPoD.State) (payments : list LPoD.Payment) (entitled : gmap string string) : Prop := {
  st_valid : checkpoint_ok after;
  st_u64 : checkpoint_u64 after;
  st_state : State after = state /\ LPoD.LastHeight state = LPoD.LastHeight (State before) + 1;
  st_principal : PrincipalDeposited after = PrincipalDeposited next /\ PrincipalLocked after = PrincipalLocked next /\
    PrincipalReturned after = PrincipalReturned next;
  st_positions : forall id, option_Forall2 same_but_due (Positions next !! id) (Positions after !! id);
  st_paid : msum due_of (Positions after) = msum due_of (Positions next) - sumZ LPoD.Angels payments;
  st_vaults : Forall (fun p => msum (owed_to (vault_of entitled) (LPoD.VaultID p)) (Positions after) = LPoD.Unfunded p) payments
}.

Lemma after_positions (before next : Checkpoint) (vaults : list LPoD.Vault) entitled state carries payments positions :
  checkpoint_u64 before -> checkpoint_ok before -> is_Some (cp_Allocation before) ->
  LPoD.Settle (State before) (Carries before) height vaults = Ok (state, carries, payments) ->
  transition_ok r height before next vaults entitled ->
  (forall id, option_Forall2 same_but_due (Positions next !! id) (positions !! id)) ->
  Forall (fun p => msum (owed_to (vault_of entitled) (LPoD.VaultID p)) positions = LPoD.Unfunded p) payments ->
  forall v a, settled before next
    (mkCheckpoint v state carries a positions (PrincipalDeposited next) (PrincipalLocked next) (PrincipalReturned next)) state payments entitled.
Proof.
  intros Hu Hok Hal ES T HR HF v a. pose proof Hu as (_ & _ & _ & _ & Hsu & Hcu).
  assert (Hin : LPoD.settle_inputs (State before) (Carries before) vaults).
  { split_and!; try done. eapply list.Forall_impl; [exact (tr_vaults _ _ _ _ _ _ T)|]. by intros x []. }
  destruct (LPoD.settle_carries_valid _ _ _ _ _ _ _ Hin ES) as [_ Hcv].
  destruct (LPoD.Settle_inv _ _ _ _ _ _ _ Hin ES) as (acc & _ & _ & Hhu & Hh & -> & -> & _ & _ & HL).
  destruct HL as [L1 L2 _ _ L5 _ L7 _ _ _ L11]. cbn [LPoD.acc_state] in *.
  destruct (tr_ops _ _ _ _ _ _ T) as (tot & vs & O & Hvs). destruct O as [O1 O2 O3 O4 O5 O6 O7 _]. cbn [op_next op_locked op_returned op_deposited] in *.
  pose proof (payment_ids _ _ L5) as Hids.
  assert (Hdues : forall id p', positions !! id = Some p' -> exists p, Positions next !! id = Some p /\ same_but_due p p').
  { intros id p' E. specialize (HR id). rewrite E in HR. inversion HR; subst; eauto. }
  assert (Hgroup : forall m, (forall id, option_Forall2 same_but_due (Positions next !! id) (m !! id)) ->
            msum due_of m = sumZ (fun w => msum (owed_to (vault_of entitled) w) m) (LPoD.VaultID <$> payments)).
  { intros m Hm. rewrite Hids. symmetry. apply (msum_groups due_of m (vault_of entitled)); [apply (tr_ids _ _ _ _ _ _ T)|].
    intros id p' E. specialize (Hm id). rewrite E in Hm. inversion Hm as [p ? (d & -> & Hd) Ep|]; subst. symmetry in Ep. specialize (O7 _ _ Ep).
    unfold due_of. cbn [set_due Due]. destruct O7 as [Hz|Hz]; [right; lia|left]. apply Hvs in Hz. by apply elem_of_list_to_set in Hz. }
  assert (HD : msum due_of positions = sumZ LPoD.Unfunded payments).
  { rewrite (Hgroup _ HR), sumZ_fmap. apply sumZ_ext. intros p Hp. exact (proj1 (list.Forall_forall _ _) HF p Hp). }
  assert (HN : msum due_of (Positions next) = sumZ (fun p => LPoD.Angels p + LPoD.Unfunded p) payments).
  { rewrite (Hgroup (Positions next)).
    - rewrite sumZ_fmap. clear -L5 T. pose proof (tr_vaults _ _ _ _ _ _ T) as Hv. clear T. revert Hv. induction L5 as [|w p vs ps Hp _ IH]; intros Hv; [done|].
      apply list.Forall_cons in Hv as [(_ & x & Hx & E) Hv]. cbn [sumZ]. rewrite IH by done. f_equal. destruct Hp as (Ei & _ & _ & _ & _ & _ & Hp).
      by rewrite (Hp x Hx), E, Ei.
    - intros id. specialize (HR id). destruct (Positions next !! id) as [p|]; constructor. inversion HR as [? ? (d & _ & Hd)|]; subst.
      exists (Due p). split; [by destruct p|lia]. }
  assert (HUL : msum due_of positions = LPoD.UnfundedLiability (LPoD.acc_state acc)).
  { rewrite HD, L11, (tr_arrears _ _ _ _ _ _ T), (ck_liability _ Hok Hal). lia. }
  assert (Hpos : map_Forall (fun id p => pos_u64 p /\ valid_position height id p) positions).
  { intros id p' E. destruct (Hdues _ _ E) as (p & Ep & d & -> & Hd). destruct (O1 _ _ Ep) as [(P1 & P2 & P3 & P4 & P5) Pv].
    split; [|by apply valid_set_due]. unfold pos_u64. cbn [set_due p_Deposit Withdrawn Due p_Nonce APRCarry]. split_and!; try done; u64lia. }
  destruct O5 as (U1 & U2 & U3). destruct L1 as (S1 & S2 & S3 & S4 & S5 & S6 & S7 & S8 & S9 & _).
  split; cbn [State Positions PrincipalDeposited PrincipalLocked PrincipalReturned Carries cp_Allocation]; try done.
  - split; cbn [State Positions PrincipalDeposited PrincipalLocked PrincipalReturned Carries cp_Allocation LPoD.with_height LPoD.LastHeight LPoD.UnfundedLiability]; try done.
    + by rewrite <- (size_related _ _ _ HR).
    + intros id p' E. apply (Hpos _ _ E).
    + rewrite <- O3. symmetry. apply (msum_related same_but_due); [done|]. by intros k x y _ _ (d & -> & _).
    + by rewrite HUL.
  - unfold checkpoint_u64. cbn [State Positions PrincipalDeposited PrincipalLocked PrincipalReturned Carries]. split_and!; try done.
    intros id p' E. apply (Hpos _ _ E).
  - rewrite HD, HN. clear. induction payments as [|p ps IH]; simpl; lia.
Qed.


(** The payments are what the distribution needs. *)
Lemma payments_due (before next : Checkpoint) (vaults : list LPoD.Vault) entitled (payments : list LPoD.Payment) :
  transition_ok r height before next vaults entitled -> Forall2 LPoD.payment_for vaults payments ->
  Forall (fun p => 0 <= LPoD.Angels p /\ 0 <= LPoD.Unfunded p /\ is_u64 (LPoD.Angels p + LPoD.Unfunded p) /\
    msum (owed_to (vault_of entitled) (LPoD.VaultID p)) (Positions next) = LPoD.Angels p + LPoD.Unfunded p) payments.
Proof.
  intros T HP. pose proof (tr_vaults _ _ _ _ _ _ T) as Hv. clear T. revert Hv.
  induction HP as [|w p vs ps Hp _ IH]; intros Hv; [done|]. apply list.Forall_cons in Hv as [(_ & x & Hx & E) Hv].
  destruct Hp as (Ei & _ & HA & HU & _ & Hs & Hp). constructor; [|by apply IH]. split_and!; try done. by rewrite (Hp x Hx), E, Ei.
Qed.

(** C11: a settlement that gets past its transition and the accounting of its vaults
    completes. For a settlement and a checkpoint of values of their Go types, with a
    tail issuance that has room for one more reward, and any order of the map of
    positions: when positionTransition and then Settle on its vaults succeed, so does
    the rest of the block: every payment of a vault is distributed to the unit among the
    positions entitled to it, what they are still owed being its unfunded part; the
    errors for a payout that does not conserve its funds and for a reward off the
    schedule cannot occur, and the checkpoint passes its validation: the principal
    deposited is what is locked and returned, the positions hold what is locked, and the
    unfunded liability is what they are owed. *)
Theorem settlement_completes (parent : result Block) (before next : Checkpoint) (vaults : list LPoD.Vault) entitled state carries payments :
  settlement_inputs before -> positionTransition iter r height parent before = Ok (next, vaults, entitled) ->
  LPoD.Settle (State before) (Carries before) height vaults = Ok (state, carries, payments) ->
  exists after, settlePositions iter r height parent before = Ok (after, payments) /\
    settled before next after state payments entitled.
Proof.
  intros Hin ET ES. pose proof Hin as (Hset & Hu & Hal).
  assert (Hh : height = LPoD.LastHeight (State before) + 1).
  { eapply Settle_height; [|exact ES]. destruct Hu as (_ & _ & _ & _ & (? & ? & ? & ? & ? & ? & ? & ? & ? & ?) & _). done. }
  destruct (positionTransition_ok iter iter_perm r height parent before next vaults entitled Hset Hu
    (fun a Ea => proj1 (Hal a Ea)) Hh ET) as [Hok T].
  destruct (reward_debit_ok before next vaults entitled Hin T) as (a & Ea & _).
  assert (Hsi : LPoD.settle_inputs (State before) (Carries before) vaults).
  { destruct Hu as (_ & _ & _ & _ & Hsu & Hcu). split_and!; try done.
    eapply list.Forall_impl; [exact (tr_vaults _ _ _ _ _ _ T)|]. by intros x []. }
  pose proof (LPoD.settle_payment_plan _ _ _ _ _ _ _ Hsi ES) as HP.
  destruct (tr_ops _ _ _ _ _ _ T) as (tot & vs & O & _).
  assert (Hd : dues_u64 (Positions next)).
  { intros id p E. destruct (oo_pos _ _ _ _ _ _ _ O id p E) as [(_ & _ & ? & _) _]. done. }
  destruct (distribute_all entitled (sorted_keys (Positions next)) payments (Positions next) Hd (sorted_keys_of _)) as (m' & ED & HR & _ & HF).
  { rewrite (payment_ids _ _ HP). apply (tr_ids _ _ _ _ _ _ T). }
  { by eapply payments_due. }
  assert (Hsome : is_Some (cp_Allocation before)) by (destruct (tr_income _ _ _ _ _ _ T) as (a0 & E0 & _); eauto).
  pose proof (after_positions before next vaults entitled state carries payments m' Hu Hok Hsome ES T HR HF (GenesisVesting next) (Some a)) as HS.
  eexists. split; [|exact HS]. unfold settlePositions. rewrite ET. cbn [mbind result_bind]. rewrite ES. cbn [mbind result_bind].
  rewrite Ea. cbn [mbind result_bind]. rewrite ED. cbn [mbind result_bind].
  rewrite (proj2 (validatePositions_ok iter iter_perm _ (st_u64 _ _ _ _ _ _ HS)) (st_valid _ _ _ _ _ _ HS)). done.
Qed.

(** A settlement that returns went through these steps. *)
Lemma settlePositions_inv (parent : result Block) (before after : Checkpoint) (payments : list LPoD.Payment) :
  settlement_inputs before -> settlePositions iter r height parent before = Ok (after, payments) ->
  exists next vaults entitled state carries, positionTransition iter r height parent before = Ok (next, vaults, entitled) /\
    LPoD.Settle (State before) (Carries before) height vaults = Ok (state, carries, payments) /\
    settled before next after state payments entitled /\ transition_ok r height before next vaults entitled.
Proof.
  intros Hin E. pose proof E as E0. unfold settlePositions in E. apply bind_ok in E as ([[next vaults] entitled] & ET & E).
  apply bind_ok in E as ([[state carries] pays] & ES & E). apply bind_ok in E as (a & _ & E). apply bind_ok in E as (ps & _ & E).
  apply bind_ok in E as (u & _ & E). injection E as _ <-.
  destruct (settlement_completes parent before next vaults entitled state carries pays Hin ET ES) as (after' & E' & HS).
  rewrite E0 in E'. injection E' as <-. exists next, vaults, entitled, state, carries. split_and!; try done.
  destruct Hin as (Hset & Hu & Hal). apply (positionTransition_ok iter iter_perm r height parent before next vaults entitled Hset Hu
    (fun a Ea => proj1 (Hal a Ea))); [|done]. eapply Settle_height; [|exact ES].
  destruct Hu as (_ & _ & _ & _ & (? & ? & ? & ? & ? & ? & ? & ? & ? & ?) & _). done.
Qed.

End Settlement.

(** ** The payout *)

Section PayAll.

Definition amounts_total (m : gmap string Z) : Z := msum (fun _ n => n) m.

(** The part of a list of payments that goes to one address. *)
Definition paid_to (a : string) (l : list (string * Z)) : Z := sumZ (fun e => if bool_decide (e.1 = a) then e.2 else 0) l.

Lemma paid_to_app a l1 l2 : paid_to a (l1 ++ l2) = paid_to a l1 + paid_to a l2.
Proof. apply sumZ_app. Qed.

Lemma amount_le_total (m : gmap string Z) (a : string) :
  (forall a, 0 <= amount_of m a) -> 0 <= amount_of m a <= amounts_total m.
Proof.
  intros Hm. split; [apply Hm|].
  assert (Hn : forall k n, m !! k = Some n -> 0 <= n) by (intros k n E; specialize (Hm k); by rewrite E in Hm).
  destruct (m !! a) as [n|] eqn:E; simpl.
  - by apply (msum_member (fun _ n => n) m a n).
  - by apply msum_nonneg.
Qed.

Lemma total_insert (m : gmap string Z) (a : string) (n : Z) :
  amounts_total (<[a := amount_of m a + n]> m) = amounts_total m + n.
Proof.
  unfold amounts_total. destruct (m !! a) as [k|] eqn:E; simpl; [rewrite (msum_update _ _ _ _ _ E)|rewrite msum_fresh by done]; lia.
Qed.

(** Payments that fit the machine word in total are all made. *)
Lemma pay_all (l : list (string * Z)) (m : gmap string Z) :
  Forall (fun e => 0 <= e.2) l -> (forall a, 0 <= amount_of m a) -> is_u64 (amounts_total m + sumZ snd l) ->
  exists m', foldM (fun m e => pay m e.1 e.2) m l = Ok m' /\ (forall a, amount_of m' a = amount_of m a + paid_to a l) /\
    amounts_total m' = amounts_total m + sumZ snd l.
Proof.
  intros Hl. revert m. induction Hl as [|[a n] l Hn Hl IH]; intros m Hm Hu; simpl in *.
  - exists m. rewrite Z.add_0_r. split_and!; try done. intros a. unfold paid_to. simpl. lia.
  - assert (Hs : 0 <= sumZ snd l) by (apply sumZ_nonneg; by apply list.Forall_forall).
    pose proof (amount_le_total m a Hm) as Ha.
    assert (E : pay m a n = Ok (<[a := amount_of m a + n]> m)).
    { assert (U1 : is_u64 (amount_of m a)) by u64lia. assert (U2 : is_u64 n) by u64lia. assert (U3 : is_u64 (amount_of m a + n)) by u64lia.
      unfold pay. rewrite (proj2 (lpodAdd_ok (amount_of m a) n (amount_of m a + n) U1 U2)) by done. done. }
    rewrite E. cbn [mbind result_bind]. destruct (IH (<[a := amount_of m a + n]> m)) as (m' & E' & P & T).
    + intros b. rewrite amount_insert. case_bool_decide; [lia|apply Hm].
    + by rewrite total_insert, <- Z.add_assoc.
    + exists m'. split_and!; [done| |rewrite T, total_insert; lia]. intros b. rewrite P, amount_insert. unfold paid_to. cbn [sumZ fst snd].
      case_bool_decide; [subst b|]; lia.
Qed.

Lemma foldM_ext {S A} (f g : S -> A -> result S) (s : S) (l : list A) :
  (forall s a, a ∈ l -> f s a = g s a) -> foldM f s l = foldM g s l.
Proof.
  revert s. induction l as [|a l IH]; intros s E; [done|]. cbn [foldM]. rewrite E by left. destruct (g s a); [|done].
  apply IH. intros s' b Hb. apply E. by right.
Qed.

Lemma foldM_fmap {S A B} (f : S -> B -> result S) (g : A -> B) (s : S) (l : list A) :
  foldM f s (g <$> l) = foldM (fun s a => f s (g a)) s l.
Proof. revert s. induction l as [|a l IH]; intros s; [done|]. simpl. destruct (f s (g a)); [apply IH|done]. Qed.

Lemma filter_keys {A} (P : string * A -> Prop) `{!forall e, Decision (P e)} (l : list (string * A)) :
  NoDup l.*1 -> NoDup (filter P l).*1.
Proof.
  induction l as [|[k x] l IH]; intros Hnd; [done|]. rewrite fmap_cons in Hnd. apply list.NoDup_cons in Hnd as [Hk Hnd].
  rewrite filter_cons. case_decide; [|by apply IH]. rewrite fmap_cons. apply list.NoDup_cons. split; [|by apply IH].
  intros Hin. apply Hk. apply list_elem_of_fmap in Hin as (e & -> & He). apply list_elem_of_filter in He as [_ He].
  apply list_elem_of_fmap. eauto.
Qed.

(** The addresses of a payout: those with an amount, once each. *)
Lemma payout_addresses_spec (m : gmap string Z) :
  NoDup (payout_addresses m) /\ forall a, a ∈ payout_addresses m <-> 0 < amount_of m a.
Proof.
  unfold payout_addresses. split; [rewrite merge_sort_Permutation; apply filter_keys, NoDup_fst_map_to_list|].
  intros a. rewrite merge_sort_Permutation, list_elem_of_fmap. split.
  - intros ([k n] & -> & Hk). apply list_elem_of_filter in Hk as [Hn Hk]. apply elem_of_map_to_list in Hk. simpl. by rewrite Hk.
  - intros Hn. destruct (m !! a) as [n|] eqn:En; simpl in Hn; [|lia]. exists (a, n). split; [done|].
    apply list_elem_of_filter. split; [done|]. by apply elem_of_map_to_list.
Qed.

Lemma payout_addresses_total (m : gmap string Z) :
  (forall a, 0 <= amount_of m a) -> sumZ (fun a => amount_of m a) (payout_addresses m) = amounts_total m.
Proof.
  intros Hm. unfold payout_addresses, amounts_total, msum. rewrite (sumZ_Permutation _ _ _ (merge_sort_Permutation _ _)), sumZ_fmap.
  assert (Hl : forall e, e ∈ map_to_list m -> amount_of m e.1 = e.2 /\ 0 <= e.2).
  { intros [k n] He. apply elem_of_map_to_list in He. specialize (Hm k). simpl. rewrite He in *. done. }
  clear Hm. revert Hl. induction (map_to_list m) as [|e l IH]; intros Hl; [done|]. destruct (Hl e ltac:(left)) as [E1 E2].
  rewrite filter_cons. simpl. rewrite <- IH by (intros e' He'; apply Hl; by right). case_decide; simpl; [by rewrite E1|]. simpl in *. lia.
Qed.

Lemma mapM_result_total {X Y} (f : X -> result Y) (l : list X) :
  (forall x, x ∈ l -> exists y, f x = Ok y) -> exists ys, mapM_result f l = Ok ys.
Proof.
  intros Hf. enough (Hg : forall acc, exists ys, foldM (fun ys x => y ← f x; Ok (ys ++ [y])) acc l = Ok ys) by apply Hg.
  induction l as [|x l IH]; intros acc; [by eexists|].
  destruct (Hf x ltac:(left)) as [y Ey]. simpl. rewrite Ey. apply IH. intros x' Hx'. apply Hf. by right.
Qed.

End PayAll.

Section Payout.
Context `{Crypto} `{Json} `{LPoDJson} {M : Type}.
Variable iter : gmap string Position -> list (string * Position).
Hypothesis iter_perm : forall m, iter m ≡ₚ map_to_list m.
Variables (r : Settlement M) (height : Z).

(** What each part of a payout pays: the leader's share, what a position is paid and takes
    back, and the vesting of the block. *)
Definition leader_payments (payments : list LPoD.Payment) : list (string * Z) :=
  (fun p => (sm_Leader r, LPoD.PayLeader p)) <$> filter (fun p => 0 < LPoD.PayLeader p) payments.

Definition position_amount (before next : Checkpoint) (id : string) (p : Position) : Z :=
  (default 0 (Due <$> Positions next !! id) - Due p) + (Withdrawn p - prior_withdrawn before id).

Definition position_payments (before next after : Checkpoint) : list (string * Z) :=
  (fun e => (pa_Beneficiary (p_Deposit e.2), position_amount before next e.1 e.2)) <$> iter (Positions after).

Definition vesting_payments (after : Checkpoint) : list (string * Z) :=
  match GenesisVesting after with
  | None => []
  | Some v => (Recipient v, GenesisVesting.paymentAt (Some v) height) ::
      (if (height =? FundingHeight v) && (0 <? LiquidityPaid v) then [(LiquidityRecipient v, LiquidityPaid v)] else [])
  end.

Definition payout_list (before next after : Checkpoint) (payments : list LPoD.Payment) : list (string * Z) :=
  leader_payments payments ++ position_payments before next after ++ vesting_payments after.

Lemma leader_loop (payments : list LPoD.Payment) (m : gmap string Z) :
  Forall (fun p => 0 < LPoD.PayLeader p -> LPoD.VaultID p = Proposer r) payments ->
  foldM (pay_leader r) m payments = foldM (fun m e => pay m e.1 e.2) m (leader_payments payments).
Proof.
  intros Hp. revert m. induction Hp as [|p ps Hp Hps IH]; intros m; [done|]. unfold leader_payments in *. cbn [foldM].
  rewrite filter_cons. destruct (Z.ltb_spec 0 (LPoD.PayLeader p)) as [Hl|Hl].
  - assert (E : pay_leader r m p = pay m (sm_Leader r) (LPoD.PayLeader p)).
    { unfold pay_leader. rewrite (proj2 (Z.ltb_lt _ _) Hl), bool_decide_eq_true_2 by auto. done. }
    rewrite E, decide_True by done. simpl. destruct (pay m (sm_Leader r) (LPoD.PayLeader p)); [apply IH|done].
  - assert (E : pay_leader r m p = Ok m) by (unfold pay_leader; by rewrite (proj2 (Z.ltb_ge _ _) Hl)).
    rewrite E, decide_False by lia. apply IH.
Qed.

Lemma leader_total (payments : list LPoD.Payment) :
  Forall (fun p => 0 <= LPoD.PayLeader p) payments ->
  Forall (fun e => 0 <= e.2) (leader_payments payments) /\ sumZ snd (leader_payments payments) = sumZ LPoD.PayLeader payments.
Proof.
  unfold leader_payments. induction 1 as [|p ps Hp _ [IH1 IH2]]; [done|]. rewrite filter_cons. case_decide; simpl.
  - split; [by constructor|]. by rewrite <- IH2.
  - split; [done|]. rewrite IH2. lia.
Qed.

Lemma vesting_loop (after : Checkpoint) (m : gmap string Z) :
  (forall v, GenesisVesting after = Some v ->
     exists al, cp_Allocation after = Some al /\ GenesisVesting.Validate (Some v) (al_Genesis al) height = Ok ()) ->
  pay_vesting height after m = foldM (fun m e => pay m e.1 e.2) m (vesting_payments after).
Proof.
  intros Hv. unfold pay_vesting, vesting_payments. destruct (GenesisVesting after) as [v|]; [|done].
  destruct (Hv v eq_refl) as (al & -> & ->). cbn [mbind result_bind foldM fst snd].
  destruct (pay m (Recipient v) _) as [m'|]; [|done]. cbn [mbind result_bind]. destruct (_ && _); [|done].
  cbn [foldM fst snd]. by destruct (pay m' _ _).
Qed.

Lemma vesting_nonneg (after : Checkpoint) : Forall (fun e => 0 <= e.2) (vesting_payments after).
Proof.
  unfold vesting_payments. destruct (GenesisVesting after) as [v|]; [|done]. constructor.
  - simpl. destruct (height =? 0); [done|]. assert (Hn : 0 <= 0) by done. revert Hn. generalize 0 at 2 4 as n.
    induction (imap pair (PaidHeights v)) as [|e l IH]; intros n Hn; simpl; [done|]. apply IH.
    destruct (e.2 =? height); [|done]. pose proof (wrap64_range (n + GenesisVesting.tranche_amount e.1)). u64lia.
  - destruct (height =? FundingHeight v); [|constructor]. simpl. destruct (Z.ltb_spec 0 (LiquidityPaid v)); [|constructor].
    repeat constructor. simpl. lia.
Qed.


(** What the positions are paid, in a settlement without reopened deposits. *)
Record positions_paid (before next after : Checkpoint) (payments : list LPoD.Payment) : Prop := {
  pp_entitled : forall id p, Positions after !! id = Some p -> is_u64 (position_amount before next id p) ->
    entitlement (Positions before) (Positions next) (id, p) = Ok (position_amount before next id p);
  pp_nonneg : map_Forall (fun id p => 0 <= position_amount before next id p) (Positions after);
  pp_total : msum (position_amount before next) (Positions after) =
    sumZ LPoD.Angels payments + (PrincipalReturned after - PrincipalReturned before)
}.

Lemma positions_paid_ok (before next after : Checkpoint) (vaults : list LPoD.Vault) entitled state payments :
  settlement_inputs r before -> fresh_deposits r before -> transition_ok r height before next vaults entitled ->
  settled before next after state payments entitled -> positions_paid before next after payments.
Proof.
  intros (_ & Hu & _) Hf T S. destruct (tr_ops _ _ _ _ _ _ T) as (tot & vs & O & _).
  destruct (oo_back _ _ _ _ _ _ _ O Hf) as [B1 B2]. cbn [op_next op_returned] in *.
  assert (Hp : forall id p, Positions after !! id = Some p -> exists q d, Positions next !! id = Some q /\ p = set_due d q /\
            0 <= d <= Due q /\ is_u64 (Due q) /\ is_u64 (Withdrawn q) /\ 0 <= taken_back before id q).
  { intros id p E. pose proof (st_positions _ _ _ _ _ _ S id) as HR. rewrite E in HR. inversion HR as [q ? (d & -> & Hd) Eq|]; subst.
    symmetry in Eq. exists q, d. destruct (oo_pos _ _ _ _ _ _ _ O _ _ Eq) as [(_ & ? & ? & _) _]. split_and!; try done; try lia. by apply (B2 id). }
  assert (Hprior : forall id, is_u64 (prior_withdrawn before id)).
  { intros id. unfold prior_withdrawn. destruct (Positions before !! id) as [p|] eqn:E; simpl; [|u64lia].
    destruct Hu as (Hpos & _). by apply (Hpos id). }
  split.
  - intros id p E Hn. destruct (Hp id p E) as (q & d & Eq & -> & Hd & Hdu & Hwu & Ht). specialize (Hprior id).
    unfold entitlement, position_amount, taken_back in *. rewrite Eq in *.
    change (default 0 (Withdrawn <$> Positions before !! id)) with (prior_withdrawn before id). set (w := prior_withdrawn before id) in *.
    clearbody w. simpl in *.
    assert ((Due q <? d) = false) as -> by (apply Z.ltb_ge; lia). assert ((Withdrawn q <? w) = false) as -> by (apply Z.ltb_ge; lia).
    rewrite (wrap64_small (Due q - d)) by u64lia. destruct (Z.ltb_spec w (Withdrawn q)).
    + rewrite (wrap64_small (Withdrawn q - w)) by u64lia. apply lpodAdd_ok; [u64lia..|]. done.
    + f_equal. lia.
  - intros id p E. destruct (Hp id p E) as (q & d & Eq & -> & Hd & _ & _ & Ht). unfold position_amount. rewrite Eq.
    unfold taken_back in Ht. cbn [fmap option_fmap option_map default from_option set_due Due Withdrawn]. unfold Datatypes.id in *. lia.
  - transitivity (msum (fun id p => default 0 (Due <$> Positions next !! id) - Due p) (Positions after) + msum (taken_back before) (Positions after)).
    { rewrite <- msum_plus. apply msum_ext. intros k x _. unfold position_amount, taken_back. done. }
    assert (E1 : msum (taken_back before) (Positions after) = msum (taken_back before) (Positions next)).
    { symmetry. apply (msum_related same_but_due); [apply (st_positions _ _ _ _ _ _ S)|]. by intros k x y _ _ (d & -> & _). }
    assert (E2 : msum (fun id p => default 0 (Due <$> Positions next !! id) - Due p) (Positions after) + msum due_of (Positions after) = msum due_of (Positions next)).
    { rewrite <- msum_plus. symmetry. apply (msum_related same_but_due); [apply (st_positions _ _ _ _ _ _ S)|].
      intros k x y Hx _ _. rewrite Hx. unfold due_of. simpl. lia. }
    pose proof (st_paid _ _ _ _ _ _ S) as E3. destruct (st_principal _ _ _ _ _ _ S) as (_ & _ & E4). lia.
Qed.

Lemma position_loop (before next after : Checkpoint) (payments : list LPoD.Payment) (m : gmap string Z) :
  positions_paid before next after payments -> is_u64 (msum (position_amount before next) (Positions after)) ->
  foldM (pay_position (Positions before) (Positions next)) m (iter (Positions after)) =
  foldM (fun m e => pay m e.1 e.2) m (position_payments before next after).
Proof.
  intros [P1 P2 _] Hu. unfold position_payments. rewrite foldM_fmap. apply foldM_ext. intros s [id p] Hin.
  rewrite (iter_perm (Positions after)) in Hin. apply elem_of_map_to_list in Hin. unfold pay_position.
  rewrite P1; [done|done|]. pose proof (P2 _ _ Hin) as Hn. simpl in Hn.
  pose proof (msum_member (position_amount before next) (Positions after) id p P2 Hin). u64lia.
Qed.

Lemma leader_is_proposer (before next : Checkpoint) (vaults : list LPoD.Vault) entitled (payments : list LPoD.Payment) :
  transition_ok r height before next vaults entitled -> Forall2 LPoD.payment_for vaults payments ->
  Forall (fun p => 0 <= LPoD.PayLeader p /\ (0 < LPoD.PayLeader p -> LPoD.VaultID p = Proposer r)) payments.
Proof.
  intros T HP. destruct (tr_income _ _ _ _ _ _ T) as (a & _ & Hi & _). clear T. revert Hi.
  induction HP as [|v p vs ps Hp _ IH]; intros Hi; [done|]. apply list.Forall_cons in Hi as [Hv Hi]. constructor; [|by apply IH].
  destruct Hp as (Ei & HL & _). rewrite Hv in HL. rewrite Ei. case_bool_decide; [split; [lia|done]|split; lia].
Qed.

(** The vesting of a previewed checkpoint is valid at its height. *)
Lemma preview_valid (parent : result Block) (before after : Checkpoint) (payments : list LPoD.Payment) :
  previewPositions iter r height parent before = Ok (after, payments) ->
  exists after0, settlePositions iter r height parent before = Ok (after0, payments) /\ after = with_vesting (GenesisVesting after) after0 /\
  forall v, GenesisVesting after = Some v ->
    exists al, cp_Allocation after = Some al /\ GenesisVesting.Validate (Some v) (al_Genesis al) height = Ok ().
Proof.
  intros E. unfold previewPositions in E. apply bind_ok in E as ([after0 pays] & Es & E). apply bind_ok in E as (vst & Ev & E). injection E as <- <-.
  exists after0. split; [done|]. split; [done|]. intros v Hv. cbn [with_vesting GenesisVesting cp_Allocation] in *. subst vst.
  unfold GenesisVesting.previewGenesisVesting in Ev. destruct (bool_decide _ && _); [done|]. apply reject_ok in Ev as [_ Ev].
  apply bind_ok in Ev as (v0 & _ & Ev). apply bind_ok in Ev as (v1 & _ & Ev). apply bind_ok in Ev as (u & Es' & Ev). injection Ev as ->.
  unfold GenesisVesting.validateSource in Es'. destruct (cp_Allocation after0) as [al|]; [|done]. exists al. split; [done|].
  apply bind_ok in Es' as ([] & E' & _). exact E'.
Qed.

(** C12: the payout of a block pays what the checkpoints say is owed, to the unit. For a
    block previewed from a checkpoint (as in [settlement_completes]) whose deposits
    reopen no position of it, with a total payout of 64 bits and outputs that can be
    built for every address owed: the payout transaction has exactly one output for
    every address owed more than zero, of exactly this amount: the leader's shares if it
    is the leader's, what its positions were paid of their accrued dues and took back of
    their principal, and the vesting and liquidity released by the block if it is their
    recipient; and the amounts add up to the leader and angel payments, the principal
    returned and the release. *)
Theorem payout_exact (BuildOutput : string -> Z -> Z -> Hash32 -> Hash32 -> result Output) (parent : result Block)
    (before after : Checkpoint) (migrated : result Checkpoint) (payments : list LPoD.Payment) :
  settlement_inputs r before -> fresh_deposits r before -> previewPositions iter r height parent before = Ok (after, payments) ->
  let total := sumZ LPoD.PayLeader payments + sumZ LPoD.Angels payments +
    (PrincipalReturned after - PrincipalReturned before) + sumZ snd (vesting_payments after) in
  is_u64 total ->
  exists next vaults entitled, positionTransition iter r height parent before = Ok (next, vaults, entitled) /\
  let owed := fun a => paid_to a (payout_list before next after payments) in
  ((forall a, 0 < owed a -> exists out, BuildOutput a (owed a) height (Parent r) (Digest after) = Ok out) ->
   exists tx addresses, PayoutLPoD iter r height BuildOutput parent (Some before) migrated after payments = Ok tx /\
     NoDup addresses /\ (forall a, a ∈ addresses <-> 0 < owed a) /\
     Forall2 (fun a out => BuildOutput a (owed a) height (Parent r) (Digest after) = Ok out) addresses (Outputs tx) /\
     sumZ owed addresses = total).
Proof.
  intros Hin Hf E total Ht. destruct (preview_valid _ _ _ _ E) as (after0 & Es & Eaft & Hvest).
  destruct (settlePositions_inv iter iter_perm r height parent before after0 payments Hin Es) as (next & vaults & entitled & state & carries & ET & ES & HS & T).
  pose proof (positions_paid_ok _ _ _ _ _ _ _ Hin Hf T HS) as HPP0.
  assert (HPP : positions_paid before next after payments) by (rewrite Eaft; destruct HPP0; by split). clear HPP0.
  assert (Hsi : LPoD.settle_inputs (State before) (Carries before) vaults).
  { destruct Hin as (_ & (_ & _ & _ & _ & Hsu & Hcu) & _). split_and!; try done.
    eapply list.Forall_impl; [exact (tr_vaults _ _ _ _ _ _ T)|]. by intros x []. }
  pose proof (leader_is_proposer _ _ _ _ _ T (LPoD.settle_payment_plan _ _ _ _ _ _ _ Hsi ES)) as HL.
  destruct (leader_total payments) as [HL1 HL2]; [eapply list.Forall_impl; [exact HL|]; by intros x []|].
  exists next, vaults, entitled. split; [done|]. intros owed Hb.
  set (pl := payout_list before next after payments) in *.
  assert (Hpp : sumZ snd (position_payments before next after) = msum (position_amount before next) (Positions after)).
  { unfold position_payments. rewrite sumZ_fmap. cbn [snd]. by apply (iter_sum iter iter_perm (position_amount before next)). }
  pose proof (pp_total _ _ _ _ HPP) as Hpt.
  assert (Htot : sumZ snd pl = total).
  { unfold pl, payout_list. rewrite !sumZ_app, HL2, Hpp, Hpt. unfold total. lia. }
  assert (Hnn : Forall (fun e => 0 <= e.2) pl).
  { unfold pl, payout_list. apply Forall_app_2; [done|]. apply Forall_app_2; [|apply vesting_nonneg].
    unfold position_payments. apply list.Forall_forall. intros e He. apply list_elem_of_fmap in He as ([id p] & -> & He).
    rewrite (iter_perm (Positions after)) in He. apply elem_of_map_to_list in He. by apply (pp_nonneg _ _ _ _ HPP id). }
  assert (HLn : 0 <= sumZ snd (leader_payments payments)) by (apply sumZ_nonneg; by apply list.Forall_forall).
  assert (HVn : 0 <= sumZ snd (vesting_payments after)).
  { apply sumZ_nonneg. apply list.Forall_forall. apply vesting_nonneg. }
  assert (HPn : 0 <= msum (position_amount before next) (Positions after)) by (apply msum_nonneg; apply (pp_nonneg _ _ _ _ HPP)).
  destruct (pay_all pl ∅ Hnn) as (amounts & Ea & Hamt & Htm).
  { intros a. by rewrite lookup_empty. }
  { unfold amounts_total. rewrite msum_empty, Z.add_0_l, Htot. done. }
  assert (Hamounts : payout_amounts iter r height (Some before) next after payments = Ok amounts).
  { unfold payout_amounts. rewrite leader_loop by (eapply list.Forall_impl; [exact HL|]; by intros x []).
    unfold pl, payout_list in Ea. rewrite foldM_app in Ea. apply bind_ok in Ea as (m1 & E1 & Ea). rewrite E1. cbn [mbind result_bind].
    rewrite foldM_app in Ea. apply bind_ok in Ea as (m2 & E2 & Ea).
    change (default ∅ (Positions <$> Some before)) with (Positions before).
    rewrite (position_loop _ _ _ payments) by (try done; unfold total in Ht; u64lia). rewrite E2. cbn [mbind result_bind].
    rewrite vesting_loop by done. exact Ea. }
  assert (Howed : forall a, amount_of amounts a = owed a).
  { intros a. rewrite Hamt, lookup_empty. cbn [default from_option]. done. }
  destruct (payout_addresses_spec amounts) as [Hnd Hpos].
  assert (Hall : exists outs, mapM_result (fun a => BuildOutput a (amount_of amounts a) height (Parent r) (Digest after)) (payout_addresses amounts) = Ok outs).
  { apply mapM_result_total. intros a Ha. rewrite Howed. apply Hb. rewrite <- Howed. by apply Hpos. }
  destruct Hall as [outs Houts]. eexists _, (payout_addresses amounts). split_and!.
  - unfold PayoutLPoD. destruct (tr_income _ _ _ _ _ _ T) as (al & Eal & _). rewrite Eal, bool_decide_eq_false_2 by done.
    cbn [mbind result_bind]. rewrite ET. cbn [mbind result_bind]. rewrite Hamounts. cbn [mbind result_bind]. rewrite Houts. reflexivity.
  - done.
  - intros a. by rewrite Hpos, Howed.
  - cbn [Outputs]. apply mapM_result_inv in Houts. eapply list.Forall2_impl; [exact Houts|]. intros a out Eo. rewrite <- Howed. exact Eo.
  - rewrite (sumZ_ext owed (fun a => amount_of amounts a)) by (intros a _; by rewrite Howed).
    rewrite payout_addresses_total, Htm; [unfold amounts_total; by rewrite msum_empty, Z.add_0_l|].
    intros a. rewrite Hamt, lookup_empty. simpl. unfold paid_to. apply sumZ_nonneg. intros e He. case_bool_decide; [|done].
    by apply (proj1 (list.Forall_forall _ _) Hnn e).
Qed.

End Payout.

End LPoDPositionsProofs.
