(* ===== verification/LPoDExample.v ===== *)
(** A worked block of the LPoD protocol: a deposit, a partial withdrawal and a vault that
    leaves, with the witnesses of [LPoDPositionsProofs]. *)

From stdpp Require Import base gmap list sorting strings.
From S2P Require Import Prelude Bytes Crypto Transaction Block LPoD LPoDCheckpoint GenesisVesting LPoDPositions LPoDPositionsProofs.
Import Transaction Block LPoDCheckpoint LPoDPositions LPoDPositionsProofs.

Module LPoDExample.

Definition ex_owner1 : string := "alice".
Definition ex_owner2 : string := "bob".
Definition ex_genesis : Hash32 := copy_arr 32 [x01].
Definition ex_vault1 : Point32 := copy_arr 32 [x11].
Definition ex_vault2 : Point32 := copy_arr 32 [x22].
Definition ex_id (source : Hash32) : Hash32 :=
  HashBytes (H := toy_crypto) [bytes_of_string "aperod/lpod/position-id/v1"; arr_list source].

Definition ex_action (action : byte) (source vault : byte) (owner : string) (nonce amount withdraw : Z) : LPoDPositionAction :=
  let src := copy_arr 32 [source] in
  mkPosition action ex_genesis (ex_id src) (copy_arr 32 [vault]) nonce owner (copy_arr 32 (bytes_of_string owner)) src 0
    (copy_arr 32 [source]) (amount * LPoD.Unit) (zero_arr 32) (withdraw * LPoD.Unit).

Definition ex_first : LPoDPositionAction := ex_action x01 x31 x11 ex_owner1 0 10000 0.
Definition ex_second : LPoDPositionAction := ex_action x01 x32 x22 ex_owner2 0 5000 0.
Definition ex_deposit : LPoDPositionAction := ex_action x01 x33 x11 ex_owner2 0 2000 0.
Definition ex_withdrawal : LPoDPositionAction := ex_action x02 x31 x11 ex_owner1 1 10000 4000.

(** JSON of the two actions. *)
Definition ex_json : Json := {|
  Marshal_position := fun a => [pa_Action a];
  Unmarshal_position := fun b => if bool_decide (b = [x01]) then Some ex_deposit else Some ex_withdrawal;
  Marshal_position_id := fun _ source _ => arr_list source;
  Marshal_payout := fun a => bytes_of_string (po_Leader a) ++ arr_list (po_Digest a);
  Unmarshal_payout := fun _ => None
|}.

Definition ex_lpod_json : LPoDJson := {|
  Marshal_checkpoint := fun c => le_encode 8 (PrincipalLocked c) ++ le_encode 8 (LPoD.Balance (State c));
  Marshal_legacy := fun c => le_encode 8 (lg_PrincipalLocked c);
  Marshal_snapshot := fun n => le_encode 8 (EligibleNominal n);
  Marshal_funding := fun f => le_encode 8 (vf_Height f)
|}.

#[local] Existing Instance toy_crypto | 0.
#[local] Existing Instance ex_json | 0.
#[local] Existing Instance ex_lpod_json | 0.

Definition ex_sig (ki : byte) : MLSAGSignature :=
  {| C0 := zero_arr 32; SS := []; MLSAGKeyImage := copy_arr 32 [ki]; BlindSS := []; ValueSS := []; LinkR := zero_arr 32; LinkS := zero_arr 32 |}.

Definition ex_deposit_tx : Transaction :=
  mkTx TxVersionLPoDPosition
    [mkInput (copy_arr 32 [x44]) (LPoDOwnershipRing (pa_SourcePub ex_deposit))
       (default (zero_arr 32) (Commit (pa_Amount ex_deposit) (pa_Blind ex_deposit))) [] (zero_arr 32) x00]
    [] 0 (zero_arr 32) [] [Some (ex_sig x43); Some (ex_sig x44)] [] [x01] None.
Definition ex_withdrawal_tx : Transaction :=
  mkTx TxVersionLPoDPosition [] [] 0 (zero_arr 32) [] [Some (ex_sig x45)] [] [x02] None.

Definition ex_vault_id (v : Point32) : string := hex_encode (arr_list v).

Definition ex_stakes (active : bool) : gmap string ValidatorStake :=
  {[ex_vault_id ex_vault1 := mkStake (500000 * LPoD.Unit) true; ex_vault_id ex_vault2 := mkStake (200000 * LPoD.Unit) active]}.

Definition ex_parent : Block := mkBlock (mkHeader 9 (zero_arr 32) (zero_arr 32) 1000000000 0 [] 0 0 []) [].

Definition ex_settlement : Settlement unit :=
  mkSettlement 0 None (block_Hash ex_parent) [] None true 7000000000 (ex_vault_id ex_vault1) "carol" (ex_stakes false) (ex_stakes true)
    [ex_withdrawal_tx; ex_deposit_tx].

Definition ex_allocation : Allocation :=
  mkAllocation 3 1 ex_genesis 9 (zero_arr 32) (zero_arr 32) 0 (6000000000 * LPoD.Unit) (1000000000 * LPoD.Unit) (1000000000 * LPoD.Unit) 0
    0 (zero_arr 32) (zero_arr 32) EmptyString 0 None.

Definition ex_before : Checkpoint :=
  mkCheckpoint None (LPoD.mkState LPoD.InitialNAPRO LPoD.InitialNAPRO 0 0 0 0 0 1234 1234 9) ∅ (Some ex_allocation)
    {[lpodPositionID ex_first := newPosition ex_first;
      lpodPositionID ex_second := mkPos ex_second 0 0 false 1234 0 0 None 0 false]}
    (15000 * LPoD.Unit) (15000 * LPoD.Unit) 0.

Definition ex_iter (m : gmap string Position) : list (string * Position) := map_to_list m.

Lemma ex_iter_perm (m : gmap string Position) : ex_iter m ≡ₚ map_to_list m.
Proof. done. Qed.

Abbreviation ex_transition := (positionTransition ex_iter ex_settlement 10 (Ok ex_parent) ex_before).
Abbreviation ex_preview := (previewPositions ex_iter ex_settlement 10 (Ok ex_parent) ex_before).

#[local] Instance pos_u64_dec p : Decision (pos_u64 p).
Proof. unfold pos_u64. apply _. Defined.

Lemma ex_actions (tx : Transaction) (a : LPoDPositionAction) :
  tx ∈ Transactions ex_settlement -> positionAction tx = Ok a ->
  is_u64 (pa_Amount a) /\ is_u64 (pa_WithdrawAmount a) /\ (pa_Action a = LPoDDeposit -> Positions ex_before !! lpodPositionID a = None).
Proof.
  intros Htx Ha. assert (Et : tx = ex_withdrawal_tx \/ tx = ex_deposit_tx) by (by apply elem_of_cons in Htx as [->|Htx]; [left|right; apply list_elem_of_singleton in Htx]).
  assert (Ea : a = ex_withdrawal \/ a = ex_deposit).
  { destruct Et as [-> | ->].
    - assert (E : positionAction ex_withdrawal_tx = Ok ex_withdrawal) by (vm_compute; reflexivity). rewrite E in Ha. injection Ha as <-. by left.
    - assert (E : positionAction ex_deposit_tx = Ok ex_deposit) by (vm_compute; reflexivity). rewrite E in Ha. injection Ha as <-. by right. }
  destruct Ea as [-> | ->].
  - split_and!; [apply (bool_decide_unpack _); vm_compute; exact I..|]. intros E. discriminate E.
  - split_and!; [apply (bool_decide_unpack _); vm_compute; exact I..|]. intros _. apply eq_None_not_Some. apply (bool_decide_unpack _). vm_compute. exact I.
Qed.

Lemma ex_settlement_inputs : settlement_inputs ex_settlement ex_before.
Proof.
  split; [|split].
  - split; [|split].
    + intros tx a Htx Ha. split; eapply ex_actions; eauto.
    + apply (bool_decide_unpack _). vm_compute. exact I.
    + apply (bool_decide_unpack _). vm_compute. exact I.
  - unfold checkpoint_u64. split_and!; try (apply (bool_decide_unpack _); vm_compute; exact I).
  - intros a [= <-]. split_and!; apply (bool_decide_unpack _); vm_compute; exact I.
Qed.

Lemma ex_fresh_deposits : fresh_deposits ex_settlement ex_before.
Proof. intros tx a Htx Ha Hd. by eapply ex_actions. Qed.

Lemma both_ok {X Y} (m : result X) (f : X -> result Y) :
  is_ok (m ≫= f) = true -> exists x y, m = Ok x /\ f x = Ok y.
Proof. destruct m as [x|]; [|done]. cbn. destruct (f x) as [y|] eqn:E; [|done]. eauto. Qed.

Definition ok_such {X} (P : X -> bool) (m : result X) : bool := match m with Ok x => P x | Err _ => false end.

Lemma ok_and {X} (P : X -> bool) (m : result X) : ok_such P m = true -> exists x, m = Ok x /\ P x = true.
Proof. destruct m; [eauto|done]. Qed.

Lemma ex_run : is_ok (ex_transition ≫= fun x => LPoD.Settle (State ex_before) (Carries ex_before) 10 x.1.2) = true.
Proof. vm_compute. reflexivity. Qed.

(** The payments of the vaults are distributed, the withdrawal and the refund return nine
    thousand units of principal, and what is left is locked. *)
Lemma settlement_completes_witness :
  exists after payments, settlePositions ex_iter ex_settlement 10 (Ok ex_parent) ex_before = Ok (after, payments) /\ checkpoint_ok after.
Proof.
  destruct (both_ok ex_transition (fun x => LPoD.Settle (State ex_before) (Carries ex_before) 10 x.1.2) ex_run)
    as ([[next vaults] entitled] & [[state carries] payments] & E1 & E2).
  destruct (settlement_completes ex_iter ex_iter_perm ex_settlement 10 (Ok ex_parent) ex_before next vaults entitled
    state carries payments ex_settlement_inputs E1 E2) as (after & E & HS).
  exists after, payments. exact (conj E (st_valid _ _ _ _ _ _ HS)).
Defined.

Definition ex_total (after : Checkpoint) (payments : list LPoD.Payment) : Z :=
  sumZ LPoD.PayLeader payments + sumZ LPoD.Angels payments +
    (PrincipalReturned after - PrincipalReturned ex_before) + sumZ snd (vesting_payments 10 after).

Definition ex_good (x : Checkpoint * list LPoD.Payment) : bool :=
  is_u64b (ex_total x.1 x.2) && (0 <? ex_total x.1 x.2).

Lemma ex_fits : ok_such ex_good ex_preview = true.
Proof. vm_compute. reflexivity. Qed.

Definition ex_output (address : string) (n h : Z) (parent digest : Hash32) : result Output :=
  Ok (mkOutput (copy_arr 32 (bytes_of_string address)) (zero_arr 32) (copy_arr 32 (le_encode 8 n)) (zero_arr 8)).

(** Alice receives her withdrawal and interest, Bob his refund and his arrears, and Carol
    the leader's share. *)
Lemma payout_exact_witness :
  exists after payments tx, previewPositions ex_iter ex_settlement 10 (Ok ex_parent) ex_before = Ok (after, payments) /\
    PayoutLPoD ex_iter ex_settlement 10 ex_output (Ok ex_parent) (Some ex_before) (Err "none") after payments = Ok tx /\
    0 < ex_total after payments.
Proof.
  destruct (ok_and ex_good ex_preview ex_fits) as ([after payments] & E & Hb).
  unfold ex_good in Hb. apply andb_true_iff in Hb as [Hu Hp]. apply is_u64b_spec in Hu. apply Z.ltb_lt in Hp. cbn [fst snd] in *.
  destruct (payout_exact ex_iter ex_iter_perm ex_settlement 10 ex_output (Ok ex_parent) ex_before after (Err "none") payments
    ex_settlement_inputs ex_fresh_deposits E Hu) as (next & vaults & entitled & _ & HP).
  destruct HP as (tx & addresses & Et & _); [by intros a _; eexists|].
  exists after, payments, tx. exact (conj E (conj Et Hp)).
Defined.

End LPoDExample.
