(* ===== verification/Economics.v ===== *)
(** Rewards and fees of [consensus/poa.go]: the reward schedule, the staking pool,
    the dynamic base fee, and the policies every block must satisfy for its
    coinbase, its fees, its guardian fund and its key images.

    The base fee step is computed in Go's [float64], as in [Quorum]. *)

From stdpp Require Import base gmap list strings.
From S2P Require Import Prelude Bytes Crypto Avm Transaction Block Chain Reward Quorum.
Import Transaction Block Chain Reward Quorum.

Module Economics.

(** ** Configuration *)

(** The fields of [Config] that rewards and fees read; [LPoDHeight] and [SaleHeight]
    are the heights of the two migrations, [None] when one is not configured. *)
Record Config := mkConfig {
  BlockRewardNAPR : Z; StakingPoolNAPR : Z; TailRewardNAPR : Z;
  RewardAuthorizationActivationHeight : Z; GuardianFundActivationHeight : Z; GuardianFundChainAnchor : Hash32;
  RingCTV4ActivationHeight : Z; RingCTCLSAGActivationHeight : Z; AVMActivationHeight : Z;
  AVMGasBurnActivationHeight : Z; LPoDHeight : option Z; SaleHeight : option Z
}.

Definition lpodActive (c : Config) (height : Z) : bool :=
  match LPoDHeight c with Some h => h <=? height | None => false end.

(** ** The reward schedule *)

Definition defaultTailRewardNAPR : Z := 100000000.
Definition DefaultPoolBlockRewardNAPR : Z := 300000000.
Definition DefaultBlockRewardNAPR : Z := 500000000.
Definition AuthorizedBlockRewardNAPR : Z := 10000000.
Definition mainnetRewardAuthorizationHeight : Z := 1750000.
Definition mainnetRewardCutoverHeight : Z := 2394572.
Definition mainnetRewardGenesisHash : Hash32 := copy_arr 32
  (byte_of_Z <$> [200; 253; 232; 108; 23; 100; 165; 96; 62; 171; 214; 217; 197; 108; 158; 71;
   180; 207; 6; 216; 141; 41; 154; 85; 102; 86; 148; 71; 62; 44; 81; 47]).

Definition historicalMainnetReward (genesisHash : Hash32) (activation height : Z) : bool :=
  bool_decide (genesisHash = mainnetRewardGenesisHash) && (activation =? mainnetRewardAuthorizationHeight) &&
  (mainnetRewardAuthorizationHeight <=? height) && (height <? mainnetRewardCutoverHeight).

Definition HalvingIntervalBlocks : Z := 21024000.

Definition blockRewardAtHeight (base height : Z) : Z :=
  let era := height / HalvingIntervalBlocks in
  if 64 <=? era then 0 else Z.shiftr base era.

(** ** The base fee *)

Definition targetBlockSizeBytes : Z := 500000.
(** [0.125], exact in binary. *)
Definition baseFeeMaxChangePct : float64 := f64_div (f64_of_Z 1) (f64_of_Z 8).

Definition nextBaseFee (current blockSizeBytes : Z) : Z :=
  let current := if current =? 0 then InitialBaseFeePerByte else current in
  let diff := f64_sub (f64_of_Z blockSizeBytes) (f64_of_Z targetBlockSizeBytes) in
  let delta := f64_mul (f64_mul (f64_of_Z current) (f64_div diff (f64_of_Z targetBlockSizeBytes))) baseFeeMaxChangePct in
  let next := wrapS64 (wrapS64 current + f64_int (f64_round delta)) in
  wrap64 (if next <? MinBaseFeePerByte then MinBaseFeePerByte else next).

(** ** Burned fees and tips *)

(** A transaction of the loop of [blockFeeStatsWithAVMGasBurn]: what it burns and
    what it requires; [None] is the saturated result. *)
Definition fee_parts (baseFee : Z) (burnAVMGas : bool) (tx : Transaction) : option (Z * Z) :=
  let minFee := MinFeeAt tx baseFee in
  let burnForTx := if Fee tx <? minFee then Fee tx else minFee in
  p ← (match BurnAmount (Some tx) with
       | Some b => if (MaxUint64 - b <? burnForTx) || (MaxUint64 - b <? minFee) then None else Some (burnForTx +w b, minFee +w b)
       | None => Some (burnForTx, minFee)
       end);
  if burnAVMGas && IsAVM tx then
    match Avm.AVMGasFee (match AVM tx with Some a => Avm.GasLimit a | None => 0 end) with
    | Ok gasFee => if (MaxUint64 - gasFee <? p.1) || (MaxUint64 - gasFee <? p.2) then None else Some (p.1 +w gasFee, p.2 +w gasFee)
    | Err _ => None
    end
  else Some p.

(** The results [(burned, tipTotal)]. *)
Fixpoint fee_stats (baseFee : Z) (burnAVMGas : bool) (burned tips : Z) (txs : list Transaction) : Z * Z :=
  match txs with
  | [] => (burned, tips)
  | tx :: rest =>
      if IsCoinbase tx || IsStake tx then fee_stats baseFee burnAVMGas burned tips rest
      else match fee_parts baseFee burnAVMGas tx with
           | None => (MaxUint64, 0)
           | Some (burnForTx, requiredFee) =>
               let tips' := if requiredFee <? Fee tx then tips +w (Fee tx -w requiredFee) else tips in
               if MaxUint64 - burnForTx <? burned then (MaxUint64, tips')
               else fee_stats baseFee burnAVMGas (burned +w burnForTx) tips' rest
           end
  end.

Definition blockFeeStatsWithAVMGasBurn (txs : list Transaction) (baseFee : Z) (burnAVMGas : bool) : Z * Z :=
  fee_stats baseFee burnAVMGas 0 0 txs.

Definition blockFeeStats (txs : list Transaction) (baseFee : Z) : Z * Z := blockFeeStatsWithAVMGasBurn txs baseFee false.

Definition blockFeeStatsAtHeight (c : Config) (txs : list Transaction) (baseFee height : Z) : Z * Z :=
  let burnAVMGas := (0 <? AVMGasBurnActivationHeight c) && (AVMGasBurnActivationHeight c <=? height) in
  blockFeeStatsWithAVMGasBurn txs baseFee burnAVMGas.

Section Policies.
Context `{Crypto}.
(** The chain and the fee field of the engine. *)
Variables (c : Config) (chain : Chain) (baseFee : Z).

Definition usesHistoricalMainnetReward (height : Z) : bool :=
  match genesis chain with
  | Some g => historicalMainnetReward (block_Hash g) (RewardAuthorizationActivationHeight c) height
  | None => false
  end.

Definition expectedBaseFee : Z := if baseFee =? 0 then InitialBaseFeePerByte else baseFee.

Definition expectedBaseFeeAt (height : Z) : Z :=
  if (0 <? RingCTV4ActivationHeight c) && (height =? RingCTV4ActivationHeight c) then InitialBaseFeePerByte
  else if lpodActive c height then
    match tip chain with
    | Some parent =>
        if height_of parent +w 1 =? height then nextBaseFee (BaseFee (Header parent)) (block_Size parent) else expectedBaseFee
    | None => expectedBaseFee
    end
  else expectedBaseFee.

Definition authorizedRewardAmount (height : Z) (txs : list Transaction) : result Z :=
  if usesHistoricalMainnetReward height then Ok DefaultPoolBlockRewardNAPR
  else
    let base := blockRewardAtHeight AuthorizedBlockRewardNAPR height in
    let tips := (blockFeeStatsAtHeight c txs (expectedBaseFeeAt height) height).2 in
    reject MaxUint64 - tips <? base with "authorized block reward plus tips overflows uint64" ;;
    Ok (base +w tips).

Definition expectedAuthorizedRewardAmount (b : Block) : result Z := authorizedRewardAmount (height_of b) (Txs b).

(** ** The coinbase *)

Definition maxCoinbasesPerBlock : nat := 11.

(** A supply-creating transaction. *)
Definition is_mint (tx : Transaction) : bool := IsCoinbase tx && negb (IsStake tx).

(** One transaction of the loop: the coinbases so far and whether another
    transaction was seen. *)
Definition coinbase_step (s : nat * bool) (tx : Transaction) : result (nat * bool) :=
  if is_mint tx then
    reject s.2 with "coinbase tx appears after a non-coinbase tx" ;; Ok (S s.1, s.2)
  else Ok (s.1, true).

(** The function [validateCoinbasePolicy] of the era before the reward authorization. *)
Definition legacyCoinbasePolicy (b : Block) : result () :=
  s ← foldM coinbase_step (0%nat, false) (Txs b);
  reject bool_decide (maxCoinbasesPerBlock < s.1)%nat with "too many coinbase transactions" ;; Ok ().

(** The method; [validateLPoD] is the policy of the LPoD era. *)
Definition validateCoinbasePolicy (validateLPoD : Block -> result ()) (b : Block) : result () :=
  if lpodActive c (height_of b) then validateLPoD b
  else
    _ ← legacyCoinbasePolicy b;
    let coinbases := filter (fun tx => is_mint tx = true) (Txs b) in
    let rewardActivation := RewardAuthorizationActivationHeight c in
    if (0 <? rewardActivation) && (rewardActivation <=? height_of b) then
      expectedAmount ← expectedAuthorizedRewardAmount b;
      if expectedAmount =? 0 then
        reject negb (bool_decide (coinbases = [])) with "validator reward era has ended" ;; Ok ()
      else match coinbases with
           | [cb] =>
               auth ← ValidateAuthorizedRewardTx (Some cb) (height_of b) (PrevHash (Header b)) (ValidatorPub (Header b));
               reject negb (ra_Amount auth =? expectedAmount) with "authorized reward amount does not match consensus amount" ;; Ok ()
           | _ => Err "authorized reward block must contain exactly one coinbase transaction"
           end
    else Ok ().

(** ** Fees *)

Definition fee_exempt (tx : Transaction) : bool :=
  IsCoinbase tx || IsStake tx || IsLPoD tx || IsLPoDPosition tx || IsLPoDPayout tx || IsSale tx.

Record Totals := mkTotals { totalFees : Z; totalMinimum : Z; totalAVMGas : Z }.

(** The gas charge of a transaction: the required fee and the gas of the block. *)
Definition charge_gas (tx : Transaction) (requiredFee gas : Z) : result (Z * Z) :=
  if IsAVM tx then
    let gasLimit := match AVM tx with Some a => Avm.GasLimit a | None => 0 end in
    reject Avm.AVMMaxBlockGas -w gas <? gasLimit with "transaction exceeds AVM block gas limit" ;;
    match Avm.AVMGasFee gasLimit with
    | Ok gasFee =>
        reject MaxUint64 - gasFee <? requiredFee with "AVM gas fee requirement overflows uint64" ;;
        Ok (requiredFee +w gasFee, gas +w gasLimit)
    | Err _ => Err "AVM gas fee requirement overflows uint64"
    end
  else Ok (requiredFee, gas).

Definition charge_burn (tx : Transaction) (requiredFee : Z) : result Z :=
  match BurnAmount (Some tx) with
  | Some b => reject MaxUint64 - b <? requiredFee with "intentional burn fee requirement overflows uint64" ;; Ok (requiredFee +w b)
  | None => Ok requiredFee
  end.

Definition charge_tx (expected : Z) (t : Totals) (tx : Transaction) : result Totals :=
  if fee_exempt tx then Ok t
  else
    let minFee := MinFeeAt tx expected in
    p ← charge_gas tx minFee (totalAVMGas t);
    requiredFee ← charge_burn tx p.1;
    reject Fee tx <? requiredFee with "fee below consensus minimum" ;;
    reject MaxUint64 - Fee tx <? totalFees t with "aggregate transaction fees overflow uint64" ;;
    reject MaxUint64 - minFee <? totalMinimum t with "aggregate minimum fees overflow uint64" ;;
    Ok (mkTotals (totalFees t +w Fee tx) (totalMinimum t +w minFee) p.2).

Definition validateBlockEconomics (b : Block) : result () :=
  if (0 <? RingCTV4ActivationHeight c) && (height_of b <? RingCTV4ActivationHeight c) then Ok ()
  else
    let expected := expectedBaseFeeAt (height_of b) in
    reject BaseFee (Header b) =? 0 with "base fee must be explicitly committed after activation" ;;
    reject negb (BaseFee (Header b) =? expected) with "base fee mismatch" ;;
    _ ← foldM (charge_tx expected) (mkTotals 0 0 0) (Txs b);
    Ok ().

(** ** The guardian fund *)

Definition validateGuardianConfig : result () :=
  let active := GuardianFundActivationHeight c in
  let anchor := GuardianFundChainAnchor c in
  if active =? 0 then
    reject negb (bool_decide (anchor = zeroHash)) with "guardian fund genesis anchor configured while activation is disabled" ;; Ok ()
  else
    need g from genesis chain else "guardian fund requires canonical genesis" ;;
    reject bool_decide (anchor = zeroHash) || negb (bool_decide (block_Hash g = anchor))
      with "guardian fund chain anchor is not the canonical genesis block hash" ;;
    Ok ().

Context `{Json}.

(** One transaction of the loop: the guardian transactions so far. *)
Definition guardian_step (b : Block) (count : nat) (itx : nat * Transaction) : result nat :=
  let '(i, tx) := itx in
  if negb (IsGuardianFund tx) then Ok count
  else
    let active := GuardianFundActivationHeight c in
    reject (active =? 0) || negb (height_of b =? active) with "guardian fund tx is not permitted at height" ;;
    let expectedIndex := match Txs b with t0 :: _ => if IsCoinbase t0 then 1%nat else 0%nat | [] => 0%nat end in
    reject negb (bool_decide (i = expectedIndex)) || negb (GuardianFundTxAt (Some tx) (GuardianFundChainAnchor c) active)
      with "guardian fund tx is not canonical" ;;
    Ok (S count).

Definition validateGuardianFund (b : Block) : result () :=
  _ ← validateGuardianConfig;
  let active := GuardianFundActivationHeight c in
  count ← foldM (guardian_step b) 0%nat (imap pair (Txs b));
  reject (0 <? active) && (height_of b =? active) && negb (bool_decide (count = 1%nat))
    with "guardian fund transaction missing or duplicated at activation height" ;;
  Ok ().

(** ** Versions *)

Definition validateVersionWithSales (tx : Transaction) (height activation : Z) : result () :=
  if IsSale tx then
    match SaleHeight c with
    | Some h => reject height <? h with "sale: inactive transaction version" ;; _ ← saleAuthorization tx; Ok ()
    | None => Err "sale: inactive transaction version"
    end
  else ValidateTxVersionAtHeight (Some tx) height activation [RingCTCLSAGActivationHeight c; AVMActivationHeight c].

Definition validateRingCTV4Activation (validateLPoD : Block -> result ()) (b : Block) : result () :=
  _ ← validateLPoD b;
  _ ← validateGuardianFund b;
  foldM (fun _ tx => validateVersionWithSales tx (height_of b) (RingCTV4ActivationHeight c)) () (Txs b).

End Policies.

(** ** Key images of a block *)

Definition image_step (seen : gset KeyImage) (inp : RingInput) : result (gset KeyImage) :=
  reject bool_decide (in_KeyImage inp ∈ seen) with "duplicate key image" ;;
  Ok ({[in_KeyImage inp]} ∪ seen).

Definition spending_inputs (txs : list Transaction) : list RingInput :=
  concat (Inputs <$> filter (fun tx => (IsCoinbase tx || IsStake tx) = false) txs).

Definition blockKeyImageCheck (b : Block) : result () :=
  _ ← foldM (fun seen tx => if IsCoinbase tx || IsStake tx then Ok seen else foldM image_step seen (Inputs tx)) ∅ (Txs b);
  Ok ().

(** ** The staking pool *)

(** [stakingPoolInit], [stakingPoolRemaining] (-1 is a disabled pool) and [tailRewardNAPR]. *)
Record Pool := mkPool { stakingPoolInit : Z; stakingPoolRemaining : Z; tailRewardNAPR : Z }.

(** The pool [NewEngine] sets up; [stored] is the balance the store has, if any. *)
Definition initPool (c : Config) (stored : option Z) : Pool :=
  if 0 <? StakingPoolNAPR c then
    mkPool (StakingPoolNAPR c)
      (match stored with Some rem => wrapS64 rem | None => wrapS64 (StakingPoolNAPR c) end)
      (if TailRewardNAPR c =? 0 then defaultTailRewardNAPR else TailRewardNAPR c)
  else mkPool 0 (-1) 0.

Definition StakingPoolRemaining (p : Pool) : Z :=
  if stakingPoolRemaining p <? 0 then MaxUint64 else stakingPoolRemaining p.

Definition RewardMode (p : Pool) : string :=
  if stakingPoolRemaining p <? 0 then "legacy_mint"
  else if stakingPoolRemaining p =? 0 then "tail_emission" else "pool".

Definition blockRewardNAPRAt (c : Config) (p : Pool) (height : Z) : Z :=
  let base := if BlockRewardNAPR c =? 0 then
                if 0 <? stakingPoolInit p then DefaultPoolBlockRewardNAPR else DefaultBlockRewardNAPR
              else BlockRewardNAPR c in
  if (0 <? stakingPoolInit p) && (stakingPoolRemaining p =? 0) then tailRewardNAPR p
  else if 0 <? stakingPoolInit p then
    let remaining := stakingPoolRemaining p in
    if (0 <? remaining) && (remaining <? base) then remaining else base
  else blockRewardAtHeight base height.

Definition CurrentBlockRewardNAPR `{Crypto} (c : Config) (chain : Chain) (p : Pool) : Z :=
  let height := ChainHeight chain +w 1 in
  let activation := RewardAuthorizationActivationHeight c in
  if (0 <? activation) && (activation <=? height) && negb (lpodActive c height) then
    if usesHistoricalMainnetReward c chain height then DefaultPoolBlockRewardNAPR
    else blockRewardAtHeight AuthorizedBlockRewardNAPR height
  else blockRewardNAPRAt c p height.

(** [DecrementPool] outside the LPoD era with a store: the pool after the block, and
    the balance it persists. *)
Definition DecrementPool (c : Config) (height : Z) (p : Pool) : Pool * option Z :=
  let activation := RewardAuthorizationActivationHeight c in
  if stakingPoolInit p =? 0 then (p, None)
  else if (0 <? activation) && (activation <=? height) then (p, None)
  else
    let amount := if BlockRewardNAPR c =? 0 then DefaultPoolBlockRewardNAPR else BlockRewardNAPR c in
    let cur := stakingPoolRemaining p in
    if cur <=? 0 then (p, None)
    else
      let deduct := if cur <? amount then cur else amount in
      let next := wrapS64 (cur -w deduct) in
      (mkPool (stakingPoolInit p) next (tailRewardNAPR p), Some (wrap64 next)).

(** ** The schedule *)

Lemma blockReward_le base h : 0 <= base -> blockRewardAtHeight base h <= Z.shiftr base (h / HalvingIntervalBlocks).
Proof.
  intros Hb. unfold blockRewardAtHeight. destruct (64 <=? _); [|done]. by apply Z.shiftr_nonneg.
Qed.

(** What the schedule can still pay from height [h] on. *)
Definition outlook (base h : Z) : Z :=
  (2 * HalvingIntervalBlocks - h mod HalvingIntervalBlocks) * Z.shiftr base (h / HalvingIntervalBlocks).

Lemma outlook_step base h : 0 <= base -> 0 <= h -> blockRewardAtHeight base h + outlook base (h + 1) <= outlook base h.
Proof.
  intros Hb Hh. assert (Hr := blockReward_le base h Hb). unfold outlook.
  unfold HalvingIntervalBlocks in *.
  assert (Hm := Z.mod_pos_bound h 21024000 ltac:(lia)). assert (Hd := Z.div_mod h 21024000 ltac:(lia)).
  set (e := h / 21024000) in *. assert (He : 0 <= e) by (apply Z.div_pos; lia).
  set (r := Z.shiftr base e) in *. assert (Hr0 : 0 <= r) by by apply Z.shiftr_nonneg.
  destruct (decide (h mod 21024000 = 21024000 - 1)) as [El|El].
  - assert (E1 : (h + 1) / 21024000 = e + 1).
    { symmetry. apply (Z.div_unique _ _ _ 0); lia. }
    assert (E2 : (h + 1) mod 21024000 = 0).
    { symmetry. apply (Z.mod_unique _ _ (e + 1)); lia. }
    rewrite E1, E2, El. assert (Hh2 : 2 * Z.shiftr base (e + 1) <= r).
    { rewrite <- Z.shiftr_shiftr by lia. fold r. rewrite Z.shiftr_div_pow2 by lia. change (2 ^ 1) with 2.
      assert (Hx := Z.mul_div_le r 2 ltac:(lia)). lia. }
    nia.
  - assert (E1 : (h + 1) / 21024000 = e).
    { symmetry. apply (Z.div_unique _ _ _ (h mod 21024000 + 1)); lia. }
    assert (E2 : (h + 1) mod 21024000 = h mod 21024000 + 1).
    { symmetry. apply (Z.mod_unique _ _ e); lia. }
    rewrite E1, E2. fold r. nia.
Qed.

Lemma emission_outlook base n : 0 <= base ->
  sumZ (blockRewardAtHeight base) (seqZ 0 (Z.of_nat n)) + outlook base (Z.of_nat n) <= outlook base 0.
Proof.
  intros Hb. induction n as [|n IH]; [apply Z.le_refl|]. rewrite seqZ_S, sumZ_app. cbn [sumZ].
  assert (Hs := outlook_step base (Z.of_nat n) Hb (Nat2Z.is_nonneg n)).
  replace (Z.of_nat (S n)) with (Z.of_nat n + 1) by lia. rewrite Z.add_0_l. lia.
Qed.

(** ** Fees *)

Lemma BurnAmount_u64 tx b : BurnAmount tx = Some b -> is_u64 b.
Proof.
  unfold BurnAmount. destruct tx as [tx|]; [|done]. unfold parseIntentionalBurnExtra.
  destruct (_ || _); [done|]. destruct (negb _) eqn:El; [done|]. destruct (_ =? 0); [done|]. intros [= <-].
  unfold len_is in El. zbool. assert (Hr := le_decode_range (drop (length intentionalBurnPrefix) (Extra tx))).
  rewrite length_drop, El in Hr. replace (length intentionalBurnPrefix + 8 - length intentionalBurnPrefix)%nat with 8%nat in Hr by lia.
  exact Hr.
Qed.

Lemma MinFeeAt_u64 tx f : is_u64 (MinFeeAt tx f).
Proof. unfold MinFeeAt. destruct (_ && _); [u64lia|apply wrap64_range]. Qed.

Lemma AVMGasFee_u64 g x : Avm.AVMGasFee g = Ok x -> is_u64 x.
Proof. unfold Avm.AVMGasFee. intros (_ & <-%Ok_inj)%reject_ok. apply wrap64_range. Qed.

(** The transactions whose fees the statistics split. *)
Definition pays (tx : Transaction) : bool := negb (IsCoinbase tx || IsStake tx).

(** What a transaction burns and tips. *)
Definition tip_of (parts : Z * Z) (tx : Transaction) : Z := if parts.2 <? Fee tx then Fee tx - parts.2 else 0.

(** A charged transaction splits its fee exactly. *)
Lemma charge_splits expected burnAVMGas t t' tx :
  is_u64 (Fee tx) -> fee_exempt tx = false -> charge_tx expected t tx = Ok t' ->
  is_u64 (totalFees t) ->
  totalFees t' = totalFees t + Fee tx /\ totalFees t' <= MaxUint64 /\
  exists parts, fee_parts expected burnAVMGas tx = Some parts /\ 0 <= parts.1 <= Fee tx /\
    parts.1 + tip_of parts tx = Fee tx.
Proof.
  intros Hf Hex Hc Ht. unfold charge_tx in Hc. rewrite Hex in Hc.
  assert (Hm := MinFeeAt_u64 tx expected). set (m := MinFeeAt tx expected) in *.
  apply bind_ok in Hc as ([req gas] & Hg & Hc). apply bind_ok in Hc as (req' & Hb & Hc). cbn [fst snd] in *.
  apply reject_ok in Hc as (Hge & Hc). apply reject_ok in Hc as (Hsum & Hc). apply reject_ok in Hc as (_ & <-%Ok_inj). zbool.
  cbn [totalFees]. rewrite wrap64_small by u64lia. split; [done|]. split; [u64lia|].
  (* the gas and the burn fit above the minimum *)
  assert (Hgas : exists g, 0 <= g /\ req = m + g /\ m + g <= MaxUint64 /\
    (IsAVM tx = true -> Avm.AVMGasFee (match AVM tx with Some a => Avm.GasLimit a | None => 0 end) = Ok g) /\
    (IsAVM tx = false -> g = 0)).
  { unfold charge_gas in Hg. destruct (IsAVM tx).
    - apply reject_ok in Hg as (_ & Hg). destruct (Avm.AVMGasFee _) as [g|] eqn:Eg; [|done].
      apply reject_ok in Hg as (Ho & Hg). apply Ok_inj in Hg. injection Hg as Hr _. apply AVMGasFee_u64 in Eg as Hgr. zbool.
      rewrite wrap64_small in Hr by u64lia. exists g. split_and!; [u64lia|done|u64lia|done|done].
    - apply Ok_inj in Hg. injection Hg as <- _. exists 0. split_and!; [lia|lia|u64lia|done|done]. }
  destruct Hgas as (g & Hg0 & -> & Hgm & Hg1 & Hg2).
  assert (Hburn : exists x, 0 <= x /\ req' = m + g + x /\ req' <= MaxUint64 /\
    match BurnAmount (Some tx) with Some b => b = x | None => x = 0 end).
  { unfold charge_burn in Hb. destruct (BurnAmount (Some tx)) as [x|] eqn:Ex.
    - apply reject_ok in Hb as (Ho & Hb). apply Ok_inj in Hb. apply BurnAmount_u64 in Ex. zbool.
      rewrite wrap64_small in Hb by u64lia. exists x. split_and!; [u64lia|done|u64lia|done].
    - apply Ok_inj in Hb as <-. exists 0. split_and!; [lia|lia|done|done]. }
  destruct Hburn as (x & Hx0 & -> & Hxm & Hx).
  unfold fee_parts. fold m. rewrite (proj2 (Z.ltb_ge (Fee tx) m)) by lia.
  set (p := (m + x, m + x)).
  assert (Hp : (match BurnAmount (Some tx) with
       | Some b => if (MaxUint64 - b <? m) || (MaxUint64 - b <? m) then None else Some (m +w b, m +w b)
       | None => Some (m, m) end) = Some p).
  { subst p. destruct (BurnAmount (Some tx)) as [b|]; [subst b|subst x; by rewrite Z.add_0_r].
    rewrite (proj2 (Z.ltb_ge _ _)) by lia. cbn [orb]. by rewrite wrap64_small by u64lia. }
  rewrite Hp. cbn [mbind option_bind]. subst p. cbn [fst snd]. unfold tip_of.
  destruct (burnAVMGas && IsAVM tx) eqn:Ea.
  - apply andb_true_iff in Ea as [_ Ea]. rewrite (Hg1 Ea), (proj2 (Z.ltb_ge _ _)) by lia. cbn [orb].
    rewrite wrap64_small by u64lia. eexists. split; [done|]. cbn [fst snd]. split; [u64lia|].
    destruct (Z.ltb_spec (m + x + g) (Fee tx)); u64lia.
  - eexists. split; [done|]. cbn [fst snd]. split; [u64lia|]. destruct (Z.ltb_spec (m + x) (Fee tx)); u64lia.
Qed.

(** A protocol transaction without a fee neither burns nor tips. *)
Lemma free_parts expected burnAVMGas tx :
  Fee tx = 0 -> BurnAmount (Some tx) = None -> IsAVM tx = false -> fee_parts expected burnAVMGas tx = Some (0, MinFeeAt tx expected).
Proof.
  intros Hf Hb Ha. unfold fee_parts. rewrite Hb, Ha, andb_false_r, Hf. cbn [mbind option_bind].
  assert (Hm := MinFeeAt_u64 tx expected). destruct (Z.ltb_spec 0 (MinFeeAt tx expected)); [done|].
  by replace (MinFeeAt tx expected) with 0 by u64lia.
Qed.

(** The fees of the transactions that are neither coinbases nor stakes: the fee field
    of a stake transaction enters no rule and no sum of the code. *)
Definition fees (txs : list Transaction) : Z := sumZ Fee (filter (fun tx => pays tx = true) txs).

(** The exempt transactions other than coinbases and stakes are free. *)
Definition protocol_free (tx : Transaction) : Prop :=
  fee_exempt tx = true -> pays tx = true -> Fee tx = 0 /\ BurnAmount (Some tx) = None.

Lemma exempt_not_avm tx : fee_exempt tx = true -> pays tx = true -> IsAVM tx = false.
Proof.
  unfold fee_exempt, pays. intros He Hp. apply negb_true_iff in Hp. rewrite Hp in He. cbn [orb] in He.
  unfold IsLPoD, IsLPoDPosition, IsLPoDPayout, IsSale, IsAVM, is_version in *.
  destruct (bool_decide (Version tx = TxVersionAVM)) eqn:Ea; [|done]. zbool. rewrite Ea in He. done.
Qed.

Lemma fees_cons tx txs : fees (tx :: txs) = (if pays tx then Fee tx else 0) + fees txs.
Proof. unfold fees. rewrite filter_cons. destruct (pays tx) eqn:E; [by rewrite decide_True|by rewrite decide_False]. Qed.

Lemma fee_stats_split expected burnAVMGas txs : forall t t' burned tips,
  Forall (fun tx => is_u64 (Fee tx) /\ protocol_free tx) txs ->
  foldM (charge_tx expected) t txs = Ok t' ->
  0 <= burned -> 0 <= tips -> burned + tips = totalFees t -> totalFees t <= MaxUint64 ->
  let r := fee_stats expected burnAVMGas burned tips txs in
  r.1 + r.2 = totalFees t + fees txs /\ 0 <= r.1 /\ 0 <= r.2 /\ r.1 + r.2 <= MaxUint64.
Proof.
  induction txs as [|tx txs IH]; intros t t' burned tips Hall Hc Hb0 Ht0 Hsum Hmax; cbn zeta.
  { cbn. lia. }
  apply list.Forall_cons in Hall as [[Hf Hfree] Hall]. cbn [foldM] in Hc. apply bind_ok in Hc as (t1 & H1 & Hc).
  rewrite fees_cons. cbn [fee_stats]. unfold pays in *.
  destruct (IsCoinbase tx || IsStake tx) eqn:Ep; cbn [negb].
  { assert (Hx : fee_exempt tx = true) by (unfold fee_exempt; rewrite Ep; done). unfold charge_tx in H1. rewrite Hx in H1.
    apply Ok_inj in H1 as <-. specialize (IH t t' burned tips Hall Hc Hb0 Ht0 Hsum Hmax). cbn zeta in IH. lia. }
  destruct (fee_exempt tx) eqn:Ex.
  - destruct (Hfree Ex) as [E0 Eb]; [unfold pays; by rewrite Ep|].
    rewrite (free_parts _ _ _ E0 Eb) by (apply exempt_not_avm; [done|unfold pays; by rewrite Ep]).
    unfold charge_tx in H1. rewrite Ex in H1. apply Ok_inj in H1 as <-.
    assert (Hm := MinFeeAt_u64 tx expected). rewrite E0, (proj2 (Z.ltb_ge (MinFeeAt tx expected) 0)) by u64lia.
    rewrite (proj2 (Z.ltb_ge (MaxUint64 - 0) burned)) by u64lia. rewrite Z.add_0_r, wrap64_small by u64lia.
    specialize (IH t t' burned tips Hall Hc Hb0 Ht0 Hsum Hmax). cbn zeta in IH. lia.
  - destruct (charge_splits expected burnAVMGas t t1 tx Hf Ex H1) as (E1 & Hle & [x req] & -> & Hx & Hxt); [u64lia|].
    cbn [fst snd] in *. unfold tip_of in Hxt. cbn [snd] in Hxt.
    rewrite (proj2 (Z.ltb_ge (MaxUint64 - x) burned)) by u64lia.
    set (tips' := if req <? Fee tx then tips +w (Fee tx -w req) else tips).
    assert (Htips : tips' = tips + (Fee tx - x)).
    { subst tips'. destruct (Z.ltb_spec req (Fee tx)) as [Hlt|Hge]; [|lia].
      rewrite (wrap64_small (Fee tx - req)) by u64lia. rewrite wrap64_small by u64lia. lia. }
    rewrite Htips, (wrap64_small (burned + x)) by u64lia.
    specialize (IH t1 t' (burned + x) (tips + (Fee tx - x)) Hall Hc ltac:(lia) ltac:(lia) ltac:(lia) ltac:(lia)).
    cbn zeta in IH. lia.
Qed.

(** ** Key images *)

Lemma image_fold l : forall seen r,
  foldM image_step seen l = Ok r <->
  NoDup (in_KeyImage <$> l) /\ Forall (fun inp => in_KeyImage inp ∉ seen) l /\ r = list_to_set (in_KeyImage <$> l) ∪ seen.
Proof.
  induction l as [|inp l IH]; intros seen r; cbn [foldM].
  { split; [intros <-%Ok_inj|intros (_ & _ & ->)].
    - split; [constructor|]. split; [constructor|]. cbn. by rewrite (left_id_L ∅ (∪)).
    - cbn. by rewrite (left_id_L ∅ (∪)). }
  cbn [fmap list_fmap list_to_set]. rewrite list.NoDup_cons, list.Forall_cons.
  destruct (decide (in_KeyImage inp ∈ seen)) as [Hin|Hin].
  { unfold image_step at 2. rewrite bool_decide_eq_true_2 by done. split; [done|naive_solver]. }
  replace (image_step seen inp) with (Ok ({[in_KeyImage inp]} ∪ seen)) by
    (unfold image_step; by rewrite bool_decide_eq_false_2).
  cbn [mbind result_bind]. rewrite IH, list_elem_of_fmap. setoid_rewrite not_elem_of_union. setoid_rewrite not_elem_of_singleton.
  rewrite list.Forall_and, !list.Forall_forall. split.
  - intros (Hn & [Hne Hs] & ->). split_and!; try done; [|set_solver]. intros (w & Hw & Hi). by apply (Hne w Hi).
  - intros ([Hni Hn] & [_ Hs] & ->). split_and!; try done; [|set_solver]. intros w Hw He. apply Hni. by exists w.
Qed.

Lemma image_fold_txs txs : forall seen,
  foldM (fun seen tx => if IsCoinbase tx || IsStake tx then Ok seen else foldM image_step seen (Inputs tx)) seen txs =
  foldM image_step seen (spending_inputs txs).
Proof.
  unfold spending_inputs. induction txs as [|tx txs IH]; intros seen; [done|]. cbn [foldM]. rewrite filter_cons.
  destruct (IsCoinbase tx || IsStake tx).
  - rewrite decide_False by done. cbn [mbind result_bind]. apply IH.
  - rewrite decide_True by done. cbn [fmap list_fmap concat]. rewrite foldM_app.
    destruct (foldM image_step seen (Inputs tx)); [apply IH|done].
Qed.

(** ** Gas *)

Definition gas_of (tx : Transaction) : Z := match AVM tx with Some a => Avm.GasLimit a | None => 0 end.
Definition block_gas (txs : list Transaction) : Z := sumZ gas_of (filter (fun tx => IsAVM tx = true) txs).

Lemma charge_gas_total expected t t' tx :
  0 <= gas_of tx -> 0 <= totalAVMGas t <= Avm.AVMMaxBlockGas -> charge_tx expected t tx = Ok t' ->
  (IsAVM tx = true -> fee_exempt tx = false) ->
  totalAVMGas t' = totalAVMGas t + (if IsAVM tx then gas_of tx else 0) /\ 0 <= totalAVMGas t' <= Avm.AVMMaxBlockGas.
Proof.
  intros Hg Ht Hc Hex. unfold charge_tx in Hc. assert (HM : Avm.AVMMaxBlockGas = 10000000) by reflexivity.
  destruct (fee_exempt tx) eqn:Ex.
  { apply Ok_inj in Hc as <-. destruct (IsAVM tx); [by specialize (Hex eq_refl)|]. lia. }
  apply bind_ok in Hc as ([req gas] & Hgas & Hc). apply bind_ok in Hc as (req' & _ & Hc).
  apply reject_ok in Hc as (_ & Hc). apply reject_ok in Hc as (_ & Hc). apply reject_ok in Hc as (_ & <-%Ok_inj).
  cbn [totalAVMGas snd]. unfold charge_gas in Hgas. fold (gas_of tx) in Hgas. destruct (IsAVM tx).
  - apply reject_ok in Hgas as (Hle & Hgas). destruct (Avm.AVMGasFee _); [|done].
    apply reject_ok in Hgas as (_ & Hgas). apply Ok_inj in Hgas. injection Hgas as _ <-. zbool.
    rewrite wrap64_small in Hle by u64lia. rewrite wrap64_small by u64lia. lia.
  - apply Ok_inj in Hgas. injection Hgas as _ <-. lia.
Qed.

Lemma gas_fold expected txs : forall t t',
  Forall (fun tx => 0 <= gas_of tx /\ (IsAVM tx = true -> fee_exempt tx = false)) txs ->
  0 <= totalAVMGas t <= Avm.AVMMaxBlockGas -> foldM (charge_tx expected) t txs = Ok t' ->
  totalAVMGas t + block_gas txs <= Avm.AVMMaxBlockGas.
Proof.
  induction txs as [|tx txs IH]; intros t t' Hall Ht Hc; [unfold block_gas; simpl; lia|].
  apply list.Forall_cons in Hall as [[Hg Hx] Hall]. cbn [foldM] in Hc. apply bind_ok in Hc as (t1 & H1 & Hc).
  destruct (charge_gas_total expected t t1 tx Hg Ht H1 Hx) as [E Hr]. specialize (IH t1 t' Hall Hr Hc).
  unfold block_gas in *. rewrite filter_cons. destruct (IsAVM tx).
  - rewrite decide_True by done. cbn [sumZ]. lia.
  - rewrite decide_False by done. lia.
Qed.

Lemma avm_not_exempt tx : IsAVM tx = true -> Inputs tx <> [] -> fee_exempt tx = false.
Proof.
  unfold IsAVM, fee_exempt, IsCoinbase, IsStake, IsLPoD, IsLPoDPosition, IsLPoDPayout, IsSale, is_version.
  intros Ha Hi. zbool. rewrite Ha. rewrite (bool_decide_eq_false_2 (Inputs tx = [])) by done. done.
Qed.

(** ** The guardian fund *)

Section Guardian.
Context `{Crypto} `{Json}.

Lemma guardian_fold c b l count n : foldM (guardian_step c b) count l = Ok n ->
  (n <= count)%nat \/ exists itx, itx ∈ l /\ IsGuardianFund itx.2 = true /\
    BuildGuardianFundTx (GuardianFundChainAnchor c) (GuardianFundActivationHeight c) = Ok itx.2.
Proof.
  revert count. induction l as [|[i tx] l IH]; intros count Hf; cbn [foldM] in Hf; [apply Ok_inj in Hf as <-; by left|].
  apply bind_ok in Hf as (k & Hs & Hf). unfold guardian_step in Hs.
  destruct (IsGuardianFund tx) eqn:Eg; cbn [negb] in Hs.
  - right. exists (i, tx). split; [left|]. split; [done|]. apply reject_ok in Hs as (_ & Hs). apply reject_ok in Hs as (Hc & _).
    apply orb_false_iff in Hc as [_ Hc]. apply negb_false_iff in Hc. cbn [snd].
    unfold GuardianFundTxAt in Hc. apply andb_true_iff in Hc as [_ Hc].
    destruct (BuildGuardianFundTx _ _) as [e|]; [|done]. apply bool_decide_eq_true in Hc. by subst.
  - apply Ok_inj in Hs as <-. destruct (IH count Hf) as [?|(itx & Hi & ?)]; [by left|]. right. exists itx. split; [by right|done].
Qed.

(** The guardian transaction carries no fee, and the economics of a block exempts
    every other protocol transaction from the minimum fee but not this one. *)
Lemma guardian_unpaid anchor height tx expected t : is_u64 expected ->
  BuildGuardianFundTx anchor height = Ok tx -> is_ok (charge_tx expected t tx) = false.
Proof.
  intros He. unfold BuildGuardianFundTx. intros (_ & Hb)%reject_ok. destruct (Commit _ _) as [cm|]; [|done]. apply Ok_inj in Hb.
  assert (Hx : fee_exempt tx = false) by by subst. assert (Ha : IsAVM tx = false) by by subst.
  assert (Hf : Fee tx = 0) by by subst.
  assert (Hsz : Size tx = 204).
  { subst tx. unfold Size. cbn [Extra Inputs Outputs Signatures RangeProofs AVM]. rewrite length_guardianFundExtra. done. }
  assert (Hm : 0 < MinFeeAt tx expected).
  { rewrite MinFeeAt_spec by (rewrite ?Hsz; u64lia). rewrite Hsz. unfold InitialBaseFeePerByte.
    destruct (Z.eqb_spec expected 0); u64lia. }
  clear Hb Hsz. assert (Hmu := MinFeeAt_u64 tx expected).
  unfold charge_tx, charge_gas, charge_burn. rewrite Hx, Ha, Hf. cbn [mbind result_bind fst snd].
  destruct (BurnAmount (Some tx)) as [x|] eqn:Ex; cbn [mbind result_bind].
  - apply BurnAmount_u64 in Ex. destruct (Z.ltb_spec (MaxUint64 - x) (MinFeeAt tx expected)); [done|]. cbn [mbind result_bind].
    rewrite wrap64_small by u64lia. destruct (Z.ltb_spec 0 (MinFeeAt tx expected + x)); [done|u64lia].
  - destruct (Z.ltb_spec 0 (MinFeeAt tx expected)); [done|lia].
Qed.

(** A fold that accepts every step visited each element. *)
Lemma charge_all expected tx txs : forall t t', foldM (charge_tx expected) t txs = Ok t' -> tx ∈ txs ->
  exists u, is_ok (charge_tx expected u tx) = true.
Proof.
  induction txs as [|y txs IH]; intros t t' Hf Hin; [by apply elem_of_nil in Hin|]. cbn [foldM] in Hf.
  apply bind_ok in Hf as (t1 & H1 & Hf). apply elem_of_cons in Hin as [->|Hin]; [|by eapply IH].
  exists t. by rewrite H1.
Qed.

End Guardian.

(** ** The coinbase *)

Section Coinbase.
Context `{Crypto}.

Lemma coinbase_fold txs : forall n seen n' seen', foldM coinbase_step (n, seen) txs = Ok (n', seen') <->
  exists cbs rest, txs = cbs ++ rest /\ Forall (fun tx => is_mint tx = true) cbs /\
    Forall (fun tx => is_mint tx = false) rest /\ (seen = true -> cbs = []) /\
    n' = (n + length cbs)%nat /\ seen' = seen || negb (bool_decide (rest = [])).
Proof.
  induction txs as [|tx txs IH]; intros n seen n' seen'; cbn [foldM].
  { split.
    - intros E. apply Ok_inj in E. injection E as <- <-. exists [], []. split_and!; try done; simpl; first [lia|by rewrite orb_false_r].
    - intros (cbs & rest & E & _ & _ & _ & -> & ->). symmetry in E. apply app_nil in E as [-> ->]. simpl.
      by rewrite orb_false_r, Nat.add_0_r. }
  unfold coinbase_step at 2. destruct (is_mint tx) eqn:Em; cbn [fst snd].
  - destruct seen; cbn [mbind result_bind].
    { split; [done|]. intros (cbs & rest & E & Hc & Hr & Hs & _). rewrite (Hs eq_refl) in E. simpl in E. subst rest.
      apply list.Forall_cons in Hr as [Hr _]. congruence. }
    rewrite IH. split.
    + intros (cbs & rest & -> & Hc & Hr & _ & -> & ->). exists (tx :: cbs), rest. split_and!; try done; first [by constructor|simpl; lia].
    + intros (cbs & rest & E & Hc & Hr & _ & -> & ->). destruct cbs as [|c0 cbs].
      { simpl in E. subst rest. apply list.Forall_cons in Hr as [Hr _]. congruence. }
      injection E as <- ->. apply list.Forall_cons in Hc as [_ Hc]. exists cbs, rest. split_and!; try done; simpl; lia.
  - cbn [mbind result_bind]. rewrite IH. split.
    + intros (cbs & rest & -> & Hc & Hr & Hs & -> & ->). rewrite (Hs eq_refl) in *. exists [], (tx :: rest).
      split_and!; try done; first [by constructor|by destruct seen].
    + intros (cbs & rest & E & Hc & Hr & Hs & -> & ->). destruct cbs as [|c0 cbs].
      * simpl in E. subst rest. apply list.Forall_cons in Hr as [_ Hr]. exists [], txs. split_and!; try done. by destruct seen.
      * injection E as <- ->. apply list.Forall_cons in Hc as [Hc _]. congruence.
Qed.

Lemma mints_prefix cbs rest : Forall (fun tx => is_mint tx = true) cbs -> Forall (fun tx => is_mint tx = false) rest ->
  filter (fun tx => is_mint tx = true) (cbs ++ rest) = cbs.
Proof.
  intros Hc Hr. induction cbs as [|tx cbs IH]; cbn [app].
  - induction rest as [|tx rest IHr]; [done|]. apply list.Forall_cons in Hr as [E Hr].
    rewrite filter_cons, decide_False by congruence. by apply IHr.
  - apply list.Forall_cons in Hc as [E Hc]. rewrite filter_cons, decide_True by done. f_equal. by apply IH.
Qed.

End Coinbase.


(** ** Results *)

(** What a block that satisfies the fee rules passed, one transaction at a time. *)
Lemma economics_charged c chain baseFee b :
  validateBlockEconomics c chain baseFee b = Ok () ->
  (0 < RingCTV4ActivationHeight c /\ height_of b < RingCTV4ActivationHeight c) \/
  (BaseFee (Header b) = expectedBaseFeeAt c chain baseFee (height_of b) /\
   exists t, foldM (charge_tx (expectedBaseFeeAt c chain baseFee (height_of b))) (mkTotals 0 0 0) (Txs b) = Ok t).
Proof.
  unfold validateBlockEconomics. destruct (_ && _) eqn:E; [intros _; left; zbool; lia|]. intros Hv. right.
  apply reject_ok in Hv as (_ & Hv). apply reject_ok in Hv as (Hb & Hv). apply bind_ok in Hv as (t & Ht & _).
  split; [by zbool|by exists t].
Qed.

(** From the RingCTV4 activation height on, in a block that satisfies the fee
    rules, the fees of the transactions that are neither coinbases nor stakes split
    exactly into the two sums the emission uses: burned and tips are not negative, add
    up to these fees and fit 64 bits, so that no sum saturates. The fees are 64-bit
    values and the protocol transactions that are exempt from the fee rules (LPoD and
    sale) carry none and burn none. The fee field of a stake transaction enters neither
    sum, and whether a reward pays the tips out is not part of the claim. *)
Theorem fees_conserved (c : Config) (chain : Chain) (baseFee : Z) (b : Block) :
  RingCTV4ActivationHeight c <= height_of b ->
  Forall (fun tx => is_u64 (Fee tx) /\ protocol_free tx) (Txs b) ->
  validateBlockEconomics c chain baseFee b = Ok () ->
  let r := blockFeeStatsAtHeight c (Txs b) (expectedBaseFeeAt c chain baseFee (height_of b)) (height_of b) in
  r.1 + r.2 = fees (Txs b) /\ 0 <= r.1 /\ 0 <= r.2 /\ fees (Txs b) <= MaxUint64.
Proof.
  intros Hh Hall Hv. apply economics_charged in Hv as [?|(_ & t & Ht)]; [lia|]. cbn zeta.
  assert (Hs := fee_stats_split _ (if 0 <? AVMGasBurnActivationHeight c then AVMGasBurnActivationHeight c <=? height_of b else false)
    (Txs b) (mkTotals 0 0 0) t 0 0 Hall Ht). cbn [totalFees] in Hs. cbn zeta in Hs.
  unfold blockFeeStatsAtHeight, blockFeeStatsWithAVMGasBurn.
  replace ((0 <? AVMGasBurnActivationHeight c) && (AVMGasBurnActivationHeight c <=? height_of b)) with
    (if 0 <? AVMGasBurnActivationHeight c then AVMGasBurnActivationHeight c <=? height_of b else false) by done.
  destruct Hs as (E & H1 & H2 & H3); [lia..|u64lia|]. rewrite Z.add_0_l in E. rewrite <- E. done.
Qed.

(** The block gas limit holds for every block that satisfies the fee rules. *)
Theorem block_gas_bounded (c : Config) (chain : Chain) (baseFee : Z) (b : Block) :
  RingCTV4ActivationHeight c <= height_of b ->
  Forall (fun tx => 0 <= gas_of tx /\ (IsAVM tx = true -> Inputs tx <> [])) (Txs b) ->
  validateBlockEconomics c chain baseFee b = Ok () -> block_gas (Txs b) <= Avm.AVMMaxBlockGas.
Proof.
  intros Hh Hall Hv. apply economics_charged in Hv as [?|(_ & t & Ht)]; [lia|].
  apply (gas_fold _ _ _ t) in Ht; [cbn in Ht; lia| |done].
  apply (list.Forall_impl _ _ _ Hall). intros tx [Hg Hi]. split; [done|]. intros Ha. by apply avm_not_exempt; [|apply Hi].
Qed.

(** Whatever height the chain reaches, the scheduled rewards of all its blocks
    together stay below twice the first era: the supply they mint is bounded. *)
Theorem emission_bounded (base : Z) (n : nat) : 0 <= base ->
  sumZ (blockRewardAtHeight base) (seqZ 0 (Z.of_nat n)) <= 2 * base * HalvingIntervalBlocks.
Proof.
  intros Hb. assert (He := emission_outlook base n Hb).
  assert (H0 : outlook base 0 = 2 * base * HalvingIntervalBlocks).
  { unfold outlook. change (0 / HalvingIntervalBlocks) with 0. change (0 mod HalvingIntervalBlocks) with 0.
    rewrite Z.shiftr_0_r. lia. }
  assert (Hn : 0 <= outlook base (Z.of_nat n)).
  { unfold outlook. apply Z.mul_nonneg_nonneg; [|by apply Z.shiftr_nonneg].
    assert (Hm := Z.mod_pos_bound (Z.of_nat n) HalvingIntervalBlocks ltac:(done)).
    unfold HalvingIntervalBlocks in *. lia. }
  lia.
Qed.

(** C30: outside the LPoD era and from the activation height of reward authorizations
    on, when the reward for the block can be computed, the block passes the coinbase
    policy exactly when its supply-creating transactions come first and are the one
    reward of this amount, authorized for this height, parent and proposer, or none when
    the amount is zero. *)
Theorem reward_exact `{Crypto} (c : Config) (chain : Chain) (baseFee : Z)
    (validateLPoD : Block -> result ()) (b : Block) (amount : Z) :
  lpodActive c (height_of b) = false -> 0 < RewardAuthorizationActivationHeight c <= height_of b ->
  expectedAuthorizedRewardAmount c chain baseFee b = Ok amount ->
  validateCoinbasePolicy c chain baseFee validateLPoD b = Ok () <->
  exists cbs rest, Txs b = cbs ++ rest /\ Forall (fun tx => is_mint tx = true) cbs /\
    Forall (fun tx => is_mint tx = false) rest /\
    if amount =? 0 then cbs = []
    else exists cb auth, cbs = [cb] /\ ra_Amount auth = amount /\
      ValidateAuthorizedRewardTx (Some cb) (height_of b) (PrevHash (Header b)) (ValidatorPub (Header b)) = Ok auth.
Proof.
  intros Hl Ha He. unfold validateCoinbasePolicy, legacyCoinbasePolicy. rewrite Hl.
  replace ((0 <? RewardAuthorizationActivationHeight c) && (RewardAuthorizationActivationHeight c <=? height_of b)) with true
    by (symmetry; apply andb_true_intro; lia).
  rewrite He. cbn [mbind result_bind]. split.
  - intros Hv. apply bind_ok in Hv as ([] & Hf & Hv). apply bind_ok in Hf as ([n seen] & Hf & _).
    apply coinbase_fold in Hf as (cbs & rest & Et & Hc & Hr & _). exists cbs, rest. split; [done|]. split; [done|]. split; [done|].
    rewrite Et, mints_prefix in Hv by done. destruct (amount =? 0).
    + apply reject_ok in Hv as (Hn & _). by zbool.
    + destruct cbs as [|cb [|? ?]]; try done. apply bind_ok in Hv as (auth & Hauth & Hv). apply reject_ok in Hv as (Hn & _).
      zbool. by exists cb, auth.
  - intros (cbs & rest & Et & Hc & Hr & Hx).
    assert (Hlen : (length cbs <= 1)%nat).
    { destruct (amount =? 0); [subst cbs; simpl; lia|]. destruct Hx as (cb & auth & -> & _). simpl. lia. }
    assert (Hf : foldM coinbase_step (0%nat, false) (Txs b) = Ok (length cbs, negb (bool_decide (rest = [])))).
    { apply coinbase_fold. exists cbs, rest. by split_and!. }
    rewrite Hf. cbn [mbind result_bind fst].
    rewrite (bool_decide_eq_false_2 (maxCoinbasesPerBlock < length cbs)%nat) by (unfold maxCoinbasesPerBlock; lia).
    cbn [mbind result_bind]. rewrite Et, mints_prefix by done. destruct (amount =? 0) eqn:E0.
    + subst cbs. done.
    + destruct Hx as (cb & auth & -> & <- & ->). cbn [mbind result_bind]. by rewrite Z.eqb_refl.
Qed.

(** At the guardian fund's activation height the chain cannot continue: the block must
    contain the guardian transaction, whose fee is zero, and the fee rules require the
    minimum fee of it; no block satisfies both once the fee rules are in force. *)
Theorem guardian_fund_halts `{Crypto} `{Json} (c : Config) (chain : Chain) (baseFee : Z) (b : Block) :
  height_of b = GuardianFundActivationHeight c -> 0 < GuardianFundActivationHeight c ->
  RingCTV4ActivationHeight c <= GuardianFundActivationHeight c -> is_u64 (BaseFee (Header b)) ->
  validateGuardianFund c chain b = Ok () -> is_ok (validateBlockEconomics c chain baseFee b) = false.
Proof.
  intros Hh Hpos Hle Hu Hg. destruct (validateBlockEconomics c chain baseFee b) as [[]|] eqn:Hv; [|done]. exfalso.
  apply economics_charged in Hv as [?|(Hb & t & Ht)]; [lia|]. unfold validateGuardianFund in Hg.
  apply bind_ok in Hg as (_ & _ & Hg). apply bind_ok in Hg as (count & Hf & Hg). apply reject_ok in Hg as (Hc & _).
  rewrite Hh, Z.eqb_refl, (proj2 (Z.ltb_lt 0 _)) in Hc by done. cbn [andb] in Hc. zbool. subst count.
  apply guardian_fold in Hf as [?|([i tx] & Hin & _ & Hbuild)]; [lia|].
  apply elem_of_lookup_imap_1 in Hin as (j & y & Ey & Hj). injection Ey as _ <-.
  assert (Htx := list_elem_of_lookup_2 _ _ _ Hj).
  destruct (charge_all _ _ _ _ _ Ht Htx) as (u & Hok). rewrite <- Hb in Hok.
  assert (Hg := guardian_unpaid _ _ _ _ u Hu Hbuild). cbn [snd] in Hg. congruence.
Qed.

(** The check of a block's key images accepts exactly the blocks whose spending
    inputs have pairwise different key images. *)
Theorem key_images_distinct (b : Block) :
  blockKeyImageCheck b = Ok () <-> NoDup (in_KeyImage <$> spending_inputs (Txs b)).
Proof.
  unfold blockKeyImageCheck. rewrite image_fold_txs. split.
  - intros Hv. apply bind_ok in Hv as (r & Hf & _). by apply image_fold in Hf as (Hn & _).
  - intros Hn. assert (Hf : foldM image_step ∅ (spending_inputs (Txs b)) =
      Ok (list_to_set (in_KeyImage <$> spending_inputs (Txs b)) ∪ ∅)).
    { apply image_fold. split; [done|]. split; [|done]. apply list.Forall_forall. intros x _. apply not_elem_of_empty. }
    by rewrite Hf.
Qed.


(** ** The pool over a run of blocks *)

Definition pool_amount (c : Config) : Z := if BlockRewardNAPR c =? 0 then DefaultPoolBlockRewardNAPR else BlockRewardNAPR c.
(** The pool is charged for a height before the reward authorization. *)
Definition charged (c : Config) (h : Z) : bool :=
  negb ((0 <? RewardAuthorizationActivationHeight c) && (RewardAuthorizationActivationHeight c <=? h)).
Definition run_pool (c : Config) (hs : list Z) (p : Pool) : Pool := fold_left (fun p h => (DecrementPool c h p).1) hs p.

Lemma DecrementPool_step c h p : 0 < stakingPoolInit p -> 0 <= stakingPoolRemaining p < I63 -> 0 < pool_amount c < I63 ->
  (DecrementPool c h p).1 = mkPool (stakingPoolInit p)
    (Z.max 0 (stakingPoolRemaining p - if charged c h then pool_amount c else 0)) (tailRewardNAPR p).
Proof.
  intros Hi Hr Ha. destruct p as [init rem tail]. cbn [stakingPoolInit stakingPoolRemaining tailRewardNAPR] in *.
  unfold DecrementPool. cbn [stakingPoolInit stakingPoolRemaining tailRewardNAPR]. unfold charged. fold (pool_amount c).
  rewrite (proj2 (Z.eqb_neq init 0)) by lia.
  destruct (_ && _); cbn [negb fst]; [f_equal; lia|].
  destruct (Z.leb_spec rem 0); cbn [fst]; [f_equal; lia|]. f_equal.
  destruct (Z.ltb_spec rem (pool_amount c)).
  - rewrite (wrap64_small (rem - rem)) by u64lia. rewrite wrapS64_small by (unfold is_i64; u64lia). lia.
  - rewrite wrap64_small by u64lia. rewrite wrapS64_small by (unfold is_i64; u64lia). lia.
Qed.

(** Over any run of blocks the pool pays one block reward for every height before
    the reward authorization and stops at exactly zero: it is never overdrawn, and a
    drained pool never turns into the disabled one. *)
Theorem pool_never_overdrawn (c : Config) (hs : list Z) (p : Pool) :
  0 < stakingPoolInit p -> 0 <= stakingPoolRemaining p < I63 -> 0 < pool_amount c < I63 ->
  stakingPoolRemaining (run_pool c hs p) =
    Z.max 0 (stakingPoolRemaining p - pool_amount c * Z.of_nat (length (filter (fun h => charged c h = true) hs))) /\
  stakingPoolInit (run_pool c hs p) = stakingPoolInit p.
Proof.
  revert p. induction hs as [|h hs IH]; intros p Hi Hr Ha; [split; [cbn -[Z.mul]; lia|done]|].
  cbn [run_pool fold_left]. rewrite (DecrementPool_step c h p Hi Hr Ha).
  destruct (IH (mkPool (stakingPoolInit p) (Z.max 0 (stakingPoolRemaining p - if charged c h then pool_amount c else 0))
    (tailRewardNAPR p))) as [E1 E2]; cbn [stakingPoolInit stakingPoolRemaining] in *; [done|destruct (charged c h); lia|done|].
  split; [|exact E2]. unfold run_pool in E1. rewrite E1. rewrite filter_cons. destruct (charged c h).
  - rewrite decide_True by done. cbn [length]. lia.
  - rewrite decide_False by done. lia.
Qed.

(** ** The base fee step *)

(** The base fee never falls below the minimum. *)
Lemma next_base_fee_floor current size : MinBaseFeePerByte <= nextBaseFee current size < U64.
Proof.
  unfold nextBaseFee. cbn zeta. set (next := wrapS64 _). assert (Hn : next < I63).
  { subst next. unfold wrapS64. assert (Hm := Z.mod_pos_bound (wrapS64 (if current =? 0 then InitialBaseFeePerByte else current) +
      f64_int (f64_round (f64_mul (f64_mul (f64_of_Z (if current =? 0 then InitialBaseFeePerByte else current))
        (f64_div (f64_sub (f64_of_Z size) (f64_of_Z targetBlockSizeBytes)) (f64_of_Z targetBlockSizeBytes))) baseFeeMaxChangePct)) + I63)
      U64 ltac:(done)). unfold wrapS64 in *. u64lia. }
  clearbody next. unfold MinBaseFeePerByte. destruct (Z.ltb_spec next 50); rewrite wrap64_small by u64lia; u64lia.
Qed.

(** A block of the target size keeps the fee; the adjustment is proportional to the
    fill beyond it and not capped at one eighth: a block of 4 MB raises it by 87.5%. *)
Example next_base_fee_steps :
  nextBaseFee 1000 500000 = 1000 /\ nextBaseFee 1000 1000000 = 1125 /\ nextBaseFee 1000 0 = 875 /\
  nextBaseFee 1000 4000000 = 1875 /\ nextBaseFee 50 0 = 50 /\ nextBaseFee 0 500000 = 200.
Proof. vm_compute. split_and!; reflexivity. Qed.


(** ** Witnesses *)

Definition ex_config : Config := mkConfig 0 1000 0 5 3 (block_Hash (H := toy_crypto) ex_g) 2 2 2 2 None None.
Definition ex_econ_chain : Chain := ex_c2.
Definition ex_econ_block (height : Z) (txs : list Transaction) : Block :=
  mkBlock (mkHeader height ex_parent (zero_arr 32) 1000 0 ex_priv 0 200 []) txs.

(** Version 5 transactions that pay more than the minimum. *)
Definition ex_paying (fee : Z) : Transaction := mkTx TxVersionCLSAG [ex_input] [amb_out x01] fee (zero_arr 32) [] [] [] [] None.

Lemma fees_conserved_witness :
  let b := ex_econ_block 9 [ex_paying 900000; ex_paying 1000000] in
  let r := blockFeeStatsAtHeight ex_config (Txs b) (expectedBaseFeeAt ex_config ex_econ_chain 200 9) 9 in
  r.1 + r.2 = 1900000 /\ 0 < r.1 /\ 0 < r.2.
Proof.
  intros b r.
  assert (Hf := fees_conserved ex_config ex_econ_chain 200 b ltac:(done)). cbn zeta in Hf.
  fold b in Hf. change (height_of b) with 9 in Hf. fold r in Hf. destruct Hf as [E _].
  - repeat constructor; done.
  - vm_compute. reflexivity.
  - split; [exact E|]. split; vm_compute; reflexivity.
Defined.

Lemma emission_bounded_witness :
  sumZ (blockRewardAtHeight AuthorizedBlockRewardNAPR) (seqZ 0 (Z.of_nat 3)) <= 420480000000000.
Proof. exact (emission_bounded AuthorizedBlockRewardNAPR 3 ltac:(done)). Defined.

Definition ex_econ_reward : Transaction :=
  match BuildAuthorizedRewardTx (H := toy_crypto) "addr" 10000000 7 ex_parent ex_priv with
  | Ok tx => tx | Err _ => emptyTx x00 end.

Lemma reward_exact_witness :
  validateCoinbasePolicy (H := toy_crypto) ex_config ex_econ_chain 200 (fun _ => Ok ())
    (ex_econ_block 7 [ex_econ_reward]) = Ok ().
Proof.
  apply (reward_exact (H := toy_crypto) ex_config ex_econ_chain 200 (fun _ => Ok ()) (ex_econ_block 7 [ex_econ_reward]) 10000000).
  - reflexivity.
  - split; done.
  - vm_compute. reflexivity.
  - exists [ex_econ_reward], []. split; [reflexivity|]. split; [constructor; [vm_compute; reflexivity|constructor]|].
    split; [constructor|]. cbn [Z.eqb].
    destruct (ValidateAuthorizedRewardTx (H := toy_crypto) (Some ex_econ_reward) 7 ex_parent ex_priv) as [auth|] eqn:E;
      [|exfalso; revert E; vm_compute; discriminate].
    exists ex_econ_reward, auth. split; [reflexivity|]. split; [|exact E].
    assert (Ha : (match ValidateAuthorizedRewardTx (H := toy_crypto) (Some ex_econ_reward) 7 ex_parent ex_priv with
      | Ok a => ra_Amount a | Err _ => 0 end) = 10000000) by (vm_compute; reflexivity).
    rewrite E in Ha. exact Ha.
Defined.

Definition ex_guardian : Transaction :=
  match BuildGuardianFundTx (H := toy_crypto) (GuardianFundChainAnchor ex_config) 3 with Ok tx => tx | Err _ => emptyTx x00 end.

Lemma guardian_fund_halts_witness :
  validateGuardianFund (H := toy_crypto) (H0 := toy_json) ex_config ex_c0 (ex_econ_block 3 [ex_guardian]) = Ok () /\
  is_ok (validateBlockEconomics ex_config ex_c0 200 (ex_econ_block 3 [ex_guardian])) = false.
Proof.
  assert (Hg : validateGuardianFund (H := toy_crypto) (H0 := toy_json) ex_config ex_c0 (ex_econ_block 3 [ex_guardian]) = Ok ())
    by (vm_compute; reflexivity).
  split; [exact Hg|].
  apply (guardian_fund_halts (H := toy_crypto) (H0 := toy_json) ex_config ex_c0 200 (ex_econ_block 3 [ex_guardian]));
    [reflexivity|done|done|change (is_u64 200); u64lia|exact Hg].
Defined.

Lemma pool_never_overdrawn_witness :
  stakingPoolRemaining (run_pool (mkConfig 300 1000 0 5 0 zeroHash 0 0 0 0 None None) [1; 2; 3; 4; 5; 6] (mkPool 1000 1000 7)) = 0.
Proof.
  exact (proj1 (pool_never_overdrawn (mkConfig 300 1000 0 5 0 zeroHash 0 0 0 0 None None) [1; 2; 3; 4; 5; 6] (mkPool 1000 1000 7)
    ltac:(done) ltac:(done) ltac:(done))).
Defined.

End Economics.
