(* ===== verification/Wasm.v ===== *)
(** The static checks of contract code: [avm/validate.go].

    Decoding a module and counting its imported functions are the third-party [wabin]
    library, a class here; the walk over the bytes of every function body, which
    decides what a contract may contain and what it pays up front, is the source's. *)

From stdpp Require Import base list strings.
From S2P Require Import Prelude Bytes Avm.

Module Wasm.

Definition MaxCodeSize : Z := 1048576.
Definition MaxMemoryPages : Z := 512.
Definition MaxInputSize : Z := 65536.
Definition MaxStateKeySize : Z := 64.
Definition MaxStateValue : Z := 65536.
Definition MaxAdmissionNestingDepth : Z := 128.

Definition allowedImports : list (list byte) :=
  bytes_of_string <$> ["consume_gas"; "state_read"; "state_write"; "input_read"; "output_write"].

(** ** Modules *)

(** The value types and the external type of the encoding that the checks name. *)
Definition ValueTypeI32 : byte := x7f.
Definition ValueTypeI64 : byte := x7e.
Definition ValueTypeF32 : byte := x7d.
Definition ValueTypeF64 : byte := x7c.
Definition ExternTypeFunc : byte := x00.

(** The sections of a decoded module that the checks read; a global without a type is
    the nil pointer. *)
Record FuncType := mkFuncType { Params : list byte; Results : list byte }.
Record Import := mkImport { im_Type : byte; im_Module : list byte; im_Name : list byte }.
Record MemoryType := mkMemory { mem_Min : Z; mem_Max : Z; IsMaxEncoded : bool }.
Record CodeBody := mkBody { LocalTypes : list byte; Body : list byte }.
Record WasmModule := mkModule {
  TypeSection : list FuncType; GlobalSection : list (option byte); ImportSection : list Import;
  MemorySection : option MemoryType; CodeSection : list CodeBody
}.

(** [wabinbinary.DecodeModule] and [Module.ImportFuncCount]. *)
Class WasmDecoder := {
  DecodeModule : list byte -> option WasmModule;
  ImportFuncCount : WasmModule -> Z;
  ImportFuncCount_u32 : forall m, is_u32 (ImportFuncCount m)
}.

(** [ValidationReport]. *)
Record ValidationReport := mkReport { InstructionCount : Z; StaticGas : Z; Imports : list (list byte) }.
#[export] Instance ValidationReport_eq_dec : EqDecision ValidationReport.
Proof. solve_decision. Defined.

(** ** Opcodes *)

Definition in_span (lo hi op : Z) : bool := (lo <=? op) && (op <=? hi).

Definition OpcodeBlock : Z := 2.
Definition OpcodeLoop : Z := 3.
Definition OpcodeIf : Z := 4.
Definition OpcodeEnd : Z := 11.
Definition OpcodeBr : Z := 12.
Definition OpcodeBrIf : Z := 13.
Definition OpcodeBrTable : Z := 14.
Definition OpcodeCall : Z := 16.
Definition OpcodeCallIndirect : Z := 17.

Definition is_branch (op : Z) : bool :=
  (op =? OpcodeLoop) || (op =? OpcodeBr) || (op =? OpcodeBrIf) || (op =? OpcodeBrTable).
(** [local.get], [local.set], [local.tee], [global.get] and [global.set]. *)
Definition is_variable (op : Z) : bool := (op =? 32) || (op =? 33) || (op =? 34) || (op =? 35) || (op =? 36).
(** From [i32.load] to [i64.store32]. *)
Definition is_memory (op : Z) : bool := in_span 40 62 op.
Definition is_float_memory (op : Z) : bool := (op =? 42) || (op =? 43) || (op =? 56) || (op =? 57).
(** [memory.size] and [memory.grow]. *)
Definition is_memory_size (op : Z) : bool := (op =? 63) || (op =? 64).
(** [i32.const] and [i64.const]. *)
Definition is_const (op : Z) : bool := (op =? 65) || (op =? 66).

Definition isNoImmediateIntegerOpcode (op : Z) : bool :=
  (op =? 0) || (op =? 1) || (op =? 5) || (op =? 11) || (op =? 15) || (op =? 26) || (op =? 27) ||
  in_span 69 90 op || in_span 103 138 op || in_span 167 177 op || in_span 192 196 op.

Definition isFloatingOpcode (op : Z) : bool :=
  (op =? 42) || (op =? 43) || (op =? 56) || (op =? 57) || (op =? 67) || (op =? 68) ||
  in_span 91 102 op || in_span 139 166 op || in_span 178 191 op.

(** ** Immediates *)

Definition continues (b : byte) : bool := 128 <=? byte_to_Z b.

(** The loop of [readU32]; [i] is the index, [value] the bits so far. *)
Fixpoint readU32_loop (fuel : nat) (i value : Z) (data : list byte) : option (Z * nat) :=
  match fuel, data with
  | O, _ | _, [] => None
  | S fuel', b :: data' =>
      let value := Z.lor value (wrap32 (Z.shiftl (Z.land (byte_to_Z b) 127) (7 * i))) in
      if continues b then readU32_loop fuel' (i + 1) value data' else Some (value, S (Z.to_nat i))
  end.

(** The value and the number of bytes read; [None] is [io.ErrUnexpectedEOF]. *)
Definition readU32 (data : list byte) : option (Z * nat) := readU32_loop 5 0 0 data.

Fixpoint skip_loop (fuel i : nat) (data : list byte) : option nat :=
  match fuel, data with
  | O, _ | _, [] => None
  | S fuel', b :: data' => if continues b then skip_loop fuel' (S i) data' else Some (S i)
  end.

Definition skipSignedLEB (data : list byte) (maxBytes : nat) : option nat := skip_loop maxBytes 0 data.

Definition skipBlockType (data : list byte) : result nat :=
  match data with
  | [] => Err "unexpected EOF"
  | b :: _ =>
      if bool_decide (b = x40) || bool_decide (b = ValueTypeI32) || bool_decide (b = ValueTypeI64) then Ok 1%nat
      else if bool_decide (b = ValueTypeF32) || bool_decide (b = ValueTypeF64)
           then Err "floating-point block type is forbidden"
      else need n from skipSignedLEB data 10 else "unexpected EOF" ;; Ok n
  end.

(** ** Function bodies *)

(** One turn of the [switch]: the bytes after the opcode and its immediates, and the
    nesting depth. *)
Definition instruction_step (importCount maxDepth : Z) (op : Z) (rest : list byte) (depth : Z) : result (list byte * Z) :=
  if is_branch op then Err "loops and branches require AVM v2 basic-block metering"
  else if op =? OpcodeCallIndirect then Err "indirect calls are forbidden"
  else if op =? OpcodeCall then
    need r from readU32 rest else "decode call index" ;;
    reject importCount <=? r.1 with "calls to local functions are forbidden in AVM v1" ;;
    Ok (drop r.2 rest, depth)
  else if (op =? OpcodeBlock) || (op =? OpcodeIf) then
    let depth := depth + 1 in
    reject (0 <? maxDepth) && (maxDepth <? depth) with "admission nesting exceeds the limit" ;;
    n ← skipBlockType rest;
    Ok (drop n rest, depth)
  else if op =? OpcodeEnd then Ok (rest, if 0 <? depth then depth - 1 else depth)
  else if is_variable op then
    need r from readU32 rest else "decode variable index" ;; Ok (drop r.2 rest, depth)
  else if is_memory op then
    reject is_float_memory op with "floating-point memory instructions are forbidden" ;;
    need r from readU32 rest else "decode memory immediate" ;;
    let rest := drop r.2 rest in
    need r from readU32 rest else "decode memory immediate" ;;
    Ok (drop r.2 rest, depth)
  else if is_memory_size op then
    need r from readU32 rest else "decode memory index" ;; Ok (drop r.2 rest, depth)
  else if is_const op then
    need n from skipSignedLEB rest 10 else "decode integer constant" ;; Ok (drop n rest, depth)
  else if isFloatingOpcode op then Err "floating-point opcode is forbidden"
  else if (op =? 252) || (op =? 253) || (op =? 254) then Err "extended, SIMD and atomic opcodes are forbidden in AVM v1"
  else if isNoImmediateIntegerOpcode op then Ok (rest, depth)
  else Err "opcode is not allowed in AVM v1".

(** The loop over the body; every turn consumes a byte, so the length is enough fuel. *)
Fixpoint instructions_loop (fuel : nat) (importCount maxDepth count depth : Z) (body : list byte) : result Z :=
  match body with
  | [] => Ok count
  | op :: rest =>
      match fuel with
      | O => Err "out of fuel"
      | S fuel' =>
          s ← instruction_step importCount maxDepth (byte_to_Z op) rest depth;
          instructions_loop fuel' importCount maxDepth (count +w 1) s.2 s.1
      end
  end.

Definition validateInstructionsBounded (body : list byte) (importCount maxDepth : Z) : result Z :=
  instructions_loop (length body) importCount maxDepth 0 0 body.

Definition validateInstructions (body : list byte) (importCount : Z) : result Z :=
  validateInstructionsBounded body importCount 0.

(** ** Modules *)

Definition isFloatType (t : byte) : bool := bool_decide (t = ValueTypeF32) || bool_decide (t = ValueTypeF64).
Definition hasFloatType (types : list byte) : bool := existsb isFloatType types.

Definition check_import (names : list (list byte)) (imp : Import) : result (list (list byte)) :=
  reject negb (bool_decide (im_Type imp = ExternTypeFunc)) with "avm: only function imports are allowed" ;;
  reject negb (bool_decide (im_Module imp = bytes_of_string "apro")) with "avm: import module is forbidden" ;;
  reject negb (bool_decide (im_Name imp ∈ allowedImports)) with "avm: host function is not in the v1 ABI" ;;
  Ok (names ++ [im_Name imp]).

Definition check_body (importCount maxDepth : Z) (count : Z) (body : CodeBody) : result Z :=
  reject hasFloatType (LocalTypes body) with "avm: function has floating-point locals" ;;
  n ← validateInstructionsBounded (Body body) importCount maxDepth;
  Ok (count +w n).

Definition check_memory (om : option MemoryType) : result () :=
  match om with
  | Some m =>
      reject MaxMemoryPages <? mem_Min m with "avm: initial memory exceeds the limit" ;;
      reject IsMaxEncoded m && (MaxMemoryPages <? mem_Max m) with "avm: maximum memory exceeds the limit" ;;
      Ok ()
  | None => Ok ()
  end.

Section Validate.
Context `{WasmDecoder}.

Definition validateModule (code : list byte) (maxDepth : Z) : result ValidationReport :=
  reject bool_decide (code = []) with "avm: empty Wasm module" ;;
  reject MaxCodeSize <? Avm.zlen code with "avm: Wasm module is too large" ;;
  need m from DecodeModule code else "avm: decode Wasm" ;;
  reject existsb (fun f => hasFloatType (Params f) || hasFloatType (Results f)) (TypeSection m)
    with "avm: floating-point function types are forbidden" ;;
  reject existsb (fun g => match g with Some t => isFloatType t | None => false end) (GlobalSection m)
    with "avm: floating-point globals are forbidden" ;;
  imports ← foldM check_import [] (ImportSection m);
  _ ← check_memory (MemorySection m);
  count ← foldM (check_body (ImportFuncCount m) maxDepth) 0 (CodeSection m);
  Ok (mkReport count (100 +w count) imports).

Definition ValidateModule (code : list byte) : result ValidationReport := validateModule code 0.

End Validate.

(** ** The grammar of permitted code *)

(** A LEB128 number of at most [max] bytes: every byte but the last has its high bit
    set. *)
Fixpoint leb (max : nat) (l : list byte) : bool :=
  match max, l with
  | S max', b :: l' => if continues b then leb max' l' else bool_decide (l' = [])
  | _, _ => false
  end.

Definition leb_value (l : list byte) : Z := match readU32 l with Some r => r.1 | None => 0 end.

Definition block_type (l : list byte) : bool :=
  match l with
  | [] => false
  | b :: l' =>
      if bool_decide (b ∈ [x40; ValueTypeI32; ValueTypeI64]) then bool_decide (l' = [])
      else negb (isFloatType b) && leb 10 l
  end.

(** The permitted opcodes without immediates: [unreachable], [nop], [else], [end],
    [return], [drop] and [select]; the comparisons, the arithmetic, the conversions and
    the sign extensions of the integer types. *)
Definition plain_opcodes : list Z :=
  [0; 1; 5; 11; 15; 26; 27] ++ seqZ 69 22 ++ seqZ 103 36 ++ seqZ 167 11 ++ seqZ 192 5.

(** One permitted instruction with its immediates. *)
Inductive instruction (importCount : Z) : list byte -> Prop :=
| in_call b l : byte_to_Z b = OpcodeCall -> leb 5 l = true -> leb_value l < importCount -> instruction importCount (b :: l)
| in_block b l : byte_to_Z b = OpcodeBlock \/ byte_to_Z b = OpcodeIf -> block_type l = true -> instruction importCount (b :: l)
| in_variable b l : is_variable (byte_to_Z b) = true -> leb 5 l = true -> instruction importCount (b :: l)
| in_memory b l k : is_memory (byte_to_Z b) = true -> is_float_memory (byte_to_Z b) = false ->
    leb 5 l = true -> leb 5 k = true -> instruction importCount (b :: l ++ k)
| in_memory_size b l : is_memory_size (byte_to_Z b) = true -> leb 5 l = true -> instruction importCount (b :: l)
| in_const b l : is_const (byte_to_Z b) = true -> leb 10 l = true -> instruction importCount (b :: l)
| in_plain b : byte_to_Z b ∈ plain_opcodes -> instruction importCount [b].

Lemma plain_opcode_spec op : op ∈ plain_opcodes <-> isNoImmediateIntegerOpcode op = true.
Proof.
  unfold plain_opcodes, isNoImmediateIntegerOpcode, in_span. rewrite !elem_of_app, !elem_of_seqZ, !elem_of_cons, elem_of_nil. lia.
Qed.

(** ** Reading immediates *)

Lemma readU32_loop_spec fuel : forall i v data r, 0 <= i -> readU32_loop fuel i v data = Some r <->
  exists l rest, data = l ++ rest /\ leb fuel l = true /\ r.2 = (Z.to_nat i + length l)%nat /\ readU32_loop fuel i v l = Some r.
Proof.
  induction fuel as [|fuel IH]; intros i v data r Hi; simpl.
  { split; [done|]. by intros (l & rest & _ & ? & _). }
  destruct data as [|b data].
  { split; [done|]. intros (l & rest & E & Hl & _). symmetry in E. apply app_nil in E as [-> ->]. done. }
  destruct (continues b) eqn:Eb.
  - rewrite IH by lia. split.
    + intros (l & rest & -> & Hl & Hn & Hr). exists (b :: l), rest. simpl. rewrite Eb. split_and!; try done; lia.
    + intros (l & rest & E & Hl & Hn & Hr). destruct l as [|b' l]; [done|]. injection E as <- ->. simpl in *. rewrite Eb in *.
      exists l, rest. split_and!; try done; lia.
  - split.
    + intros [= <-]. exists [b], data. simpl. rewrite Eb. split_and!; try done; simpl; lia.
    + intros (l & rest & E & Hl & Hn & Hr). destruct l as [|b' l]; [done|]. injection E as <- ->. simpl in Hr. by rewrite Eb in Hr.
Qed.

Lemma leb_reads l : leb 5 l = true -> exists r, readU32 l = Some r /\ r.2 = length l.
Proof.
  intros Hl.
  assert (Hg : forall n i v l, 0 <= i -> leb n l = true -> exists r, readU32_loop n i v l = Some r /\ r.2 = (Z.to_nat i + length l)%nat).
  { clear. intros n. induction n as [|n IH]; intros i v [|b l] Hi Hl; simpl in *; try done. destruct (continues b).
    - destruct (IH (i + 1) (Z.lor v (wrap32 (Z.shiftl (Z.land (byte_to_Z b) 127) (7 * i)))) l ltac:(lia) Hl) as (r & Hr & Hn).
      exists r. split; [done|lia].
    - zbool. subst l. eexists. split; [done|]. simpl. lia. }
  destruct (Hg 5%nat 0 0 l ltac:(lia) Hl) as (r & Hr & Hn). by exists r.
Qed.

(** Reading a [uint32] consumes a number of at most five bytes. *)
Lemma readU32_spec data r : readU32 data = Some r <->
  exists l rest, data = l ++ rest /\ leb 5 l = true /\ r = (leb_value l, length l).
Proof.
  unfold readU32 at 1. rewrite readU32_loop_spec by lia. split.
  - intros (l & rest & -> & Hl & Hn & Hr). exists l, rest. split_and!; try done. unfold leb_value, readU32. rewrite Hr.
    destruct r. simpl in *. by rewrite Hn.
  - intros (l & rest & -> & Hl & ->). exists l, rest. split_and!; try done. destruct (leb_reads l Hl) as (r & Hr & Hn).
    unfold leb_value. rewrite Hr. destruct r. simpl in *. by rewrite <- Hn.
Qed.

Lemma skip_loop_spec fuel : forall i data n, skip_loop fuel i data = Some n <->
  exists l rest, data = l ++ rest /\ leb fuel l = true /\ n = (i + length l)%nat.
Proof.
  induction fuel as [|fuel IH]; intros i data n; simpl.
  { split; [done|]. by intros (l & rest & _ & ? & _). }
  destruct data as [|b data].
  { split; [done|]. intros (l & rest & E & Hl & _). symmetry in E. apply app_nil in E as [-> ->]. done. }
  destruct (continues b) eqn:Eb.
  - rewrite IH. split.
    + intros (l & rest & -> & Hl & ->). exists (b :: l), rest. simpl. rewrite Eb. split_and!; try done; lia.
    + intros (l & rest & E & Hl & Hn). destruct l as [|b' l]; [done|]. injection E as <- ->. simpl in *. rewrite Eb in Hl.
      exists l, rest. split_and!; try done; lia.
  - split.
    + intros [= <-]. exists [b], data. simpl. rewrite Eb. split_and!; try done; lia.
    + intros (l & rest & E & Hl & ->). destruct l as [|b' l]; [done|]. injection E as <- ->. simpl in Hl. rewrite Eb in Hl. zbool.
      subst l. f_equal. simpl. lia.
Qed.

Lemma skipSignedLEB_spec data max n : skipSignedLEB data max = Some n <->
  exists l rest, data = l ++ rest /\ leb max l = true /\ n = length l.
Proof. apply skip_loop_spec. Qed.

Lemma skipBlockType_spec data n : skipBlockType data = Ok n <->
  exists l rest, data = l ++ rest /\ block_type l = true /\ n = length l.
Proof.
  unfold skipBlockType. destruct data as [|b data].
  { split; [done|]. intros (l & rest & E & Hl & _). symmetry in E. apply app_nil in E as [-> ->]. done. }
  assert (Hin : bool_decide (b = x40) || bool_decide (b = ValueTypeI32) || bool_decide (b = ValueTypeI64) =
    bool_decide (b ∈ [x40; ValueTypeI32; ValueTypeI64])) by by destruct b.
  rewrite Hin. destruct (bool_decide (b ∈ _)) eqn:Eb.
  - split.
    + intros <-%Ok_inj. exists [b], data. split; [done|]. split; [|done]. unfold block_type. by rewrite Eb.
    + intros (l & rest & E & Hl & ->). destruct l as [|b' l]; [done|]. injection E as <- ->. unfold block_type in Hl.
      rewrite Eb in Hl. zbool. by subst.
  - fold (isFloatType b). destruct (isFloatType b) eqn:Ef.
    + split; [done|]. intros (l & rest & E & Hl & _). destruct l as [|b' l]; [done|]. injection E as <- ->.
      unfold block_type in Hl. rewrite Eb, Ef in Hl. done.
    + destruct (skipSignedLEB (b :: data) 10) as [k|] eqn:Ek.
      * apply skipSignedLEB_spec in Ek as (l & rest & E & Hl & ->). split.
        -- intros <-%Ok_inj. exists l, rest. split; [done|]. split; [|done]. destruct l as [|b' l]; [done|].
           injection E as <- ->. unfold block_type. by rewrite Eb, Ef, Hl.
        -- intros (l' & rest' & E' & Hl' & ->). f_equal.
           assert (Hs : skipSignedLEB (b :: data) 10 = Some (length l)) by (apply skipSignedLEB_spec; eauto).
           assert (Hs' : skipSignedLEB (b :: data) 10 = Some (length l')).
           { apply skipSignedLEB_spec. exists l', rest'. split_and!; try done. destruct l' as [|b' l']; [done|].
             injection E' as <- _. unfold block_type in Hl'. rewrite Eb, Ef in Hl'. done. }
           congruence.
      * split; [done|]. intros (l' & rest' & E' & Hl' & ->). exfalso.
        assert (Hs' : skipSignedLEB (b :: data) 10 = Some (length l')); [|congruence].
        apply skipSignedLEB_spec. exists l', rest'. split_and!; try done. destruct l' as [|b' l']; [done|].
        injection E' as <- _. unfold block_type in Hl'. rewrite Eb, Ef in Hl'. done.
Qed.

(** ** The walk over a body *)

Definition nesting (op depth : Z) : Z :=
  if (op =? OpcodeBlock) || (op =? OpcodeIf) then depth + 1
  else if op =? OpcodeEnd then (if 0 <? depth then depth - 1 else depth) else depth.

Ltac opcodes := unfold is_branch, is_variable, is_memory, is_float_memory, is_memory_size, is_const, isNoImmediateIntegerOpcode,
  isFloatingOpcode, in_span, nesting, OpcodeBlock, OpcodeLoop, OpcodeIf, OpcodeEnd, OpcodeBr, OpcodeBrIf, OpcodeBrTable, OpcodeCall,
  OpcodeCallIndirect in *.
(** Decide the tests of the [switch] that come before the one that holds. *)
Ltac skip_tests := repeat match goal with
  | |- (if ?c then _ else _) = _ =>
      first [replace c with false by (symmetry; opcodes; lia) | replace c with true by (symmetry; opcodes; lia)]
  end; cbv beta iota zeta.

Ltac no_nesting := unfold nesting;
  repeat match goal with |- context [if ?c then _ else _] => replace c with false by (symmetry; opcodes; lia) end; reflexivity.

Lemma drop_length_app {A} (l k : list A) : drop (length l) (l ++ k) = k.
Proof. apply drop_app_length. Qed.

(** Every turn of the loop reads exactly one permitted instruction. *)
Lemma instruction_step_ok ic md b rest depth rest' depth' :
  instruction_step ic md (byte_to_Z b) rest depth = Ok (rest', depth') ->
  exists im, rest = im ++ rest' /\ instruction ic (b :: im) /\ depth' = nesting (byte_to_Z b) depth.
Proof.
  set (op := byte_to_Z b). unfold instruction_step.
  destruct (is_branch op) eqn:E1; [done|]. destruct (op =? OpcodeCallIndirect) eqn:E2; [done|].
  destruct (op =? OpcodeCall) eqn:E3.
  { destruct (readU32 rest) as [r|] eqn:Er; [|done]. apply readU32_spec in Er as (l & k & -> & Hl & ->). cbn [fst snd].
    intros (Hc & E)%reject_ok. apply Ok_inj in E. injection E as <- <-. rewrite drop_length_app. zbool. exists l. split; [done|].
    split; [by apply in_call|no_nesting]. }
  destruct ((op =? OpcodeBlock) || (op =? OpcodeIf)) eqn:E4.
  { intros (_ & E)%reject_ok. apply bind_ok in E as (n & Hn & E). apply skipBlockType_spec in Hn as (l & k & -> & Hl & ->).
    apply Ok_inj in E. injection E as <- <-. rewrite drop_length_app. exists l. split; [done|].
    split; [apply in_block; [opcodes; lia|done]|]. unfold nesting. by rewrite E4. }
  destruct (op =? OpcodeEnd) eqn:E5.
  { intros E%Ok_inj. injection E as <- <-. exists []. split; [done|]. split; [apply in_plain, plain_opcode_spec; opcodes; lia|].
    unfold nesting. by rewrite E4, E5. }
  assert (Hn : nesting op depth = depth) by (unfold nesting; by rewrite E4, E5). rewrite Hn.
  destruct (is_variable op) eqn:E6.
  { destruct (readU32 rest) as [r|] eqn:Er; [|done]. apply readU32_spec in Er as (l & k & -> & Hl & ->). cbn [fst snd].
    intros E%Ok_inj. injection E as <- <-. rewrite drop_length_app. exists l. split; [done|]. split; [by apply in_variable|done]. }
  destruct (is_memory op) eqn:E7.
  { intros (Hf & E)%reject_ok. revert E. destruct (readU32 rest) as [r|] eqn:Er; [|done].
    apply readU32_spec in Er as (l & k & -> & Hl & ->). cbn [fst snd]. rewrite drop_length_app.
    destruct (readU32 k) as [r|] eqn:Er; [|done]. apply readU32_spec in Er as (l' & k' & -> & Hl' & ->). cbn [fst snd].
    rewrite drop_length_app. intros E%Ok_inj. injection E as <- <-. exists (l ++ l'). split; [by rewrite app_assoc|].
    split; [by apply in_memory|done]. }
  destruct (is_memory_size op) eqn:E8.
  { destruct (readU32 rest) as [r|] eqn:Er; [|done]. apply readU32_spec in Er as (l & k & -> & Hl & ->). cbn [fst snd].
    intros E%Ok_inj. injection E as <- <-. rewrite drop_length_app. exists l. split; [done|]. split; [by apply in_memory_size|done]. }
  destruct (is_const op) eqn:E9.
  { destruct (skipSignedLEB rest 10) as [n|] eqn:Er; [|done]. apply skipSignedLEB_spec in Er as (l & k & -> & Hl & ->).
    intros E%Ok_inj. injection E as <- <-. rewrite drop_length_app. exists l. split; [done|]. split; [by apply in_const|done]. }
  destruct (isFloatingOpcode op) eqn:E11; [done|]. destruct ((op =? 252) || (op =? 253) || (op =? 254)); [done|]. destruct (isNoImmediateIntegerOpcode op) eqn:E10; [|done].
  intros E%Ok_inj. injection E as <- <-. exists []. split; [done|]. split; [by apply in_plain, plain_opcode_spec|done].
Qed.

Lemma read_app l k : leb 5 l = true -> readU32 (l ++ k) = Some (leb_value l, length l).
Proof. intros Hl. apply readU32_spec. eauto. Qed.
Lemma skip_app max l k : leb max l = true -> skipSignedLEB (l ++ k) max = Some (length l).
Proof. intros Hl. apply skipSignedLEB_spec. eauto. Qed.

(** Without a nesting limit every permitted instruction is read. *)
Lemma instruction_step_complete ic b im rest depth : instruction ic (b :: im) ->
  instruction_step ic 0 (byte_to_Z b) (im ++ rest) depth = Ok (rest, nesting (byte_to_Z b) depth).
Proof.
  intros Hi. unfold instruction_step. inversion Hi as [b' l Hb Hl Hv|b' l Hb Hl|b' l Hb Hl|b' l k Hb Hf Hl Hk|b' l Hb Hl|b' l Hb Hl|b' Hb];
    subst; set (op := byte_to_Z b) in *.
  - skip_tests. rewrite (read_app _ _ Hl). cbn [fst snd]. rewrite drop_length_app. rewrite (proj2 (Z.leb_gt _ _)) by lia.
    do 2 f_equal. no_nesting.
  - skip_tests. assert (Hn : skipBlockType (im ++ rest) = Ok (length im)) by (apply skipBlockType_spec; eauto). rewrite Hn.
    cbn [mbind result_bind]. rewrite drop_length_app. do 2 f_equal. unfold nesting.
    replace ((op =? OpcodeBlock) || (op =? OpcodeIf)) with true by (symmetry; opcodes; lia). done.
  - skip_tests. rewrite (read_app _ _ Hl). cbn [snd]. rewrite drop_length_app. do 2 f_equal. no_nesting.
  - skip_tests. rewrite <- app_assoc, (read_app _ _ Hl). cbn [snd]. rewrite drop_length_app, (read_app _ _ Hk). cbn [snd].
    rewrite drop_length_app. do 2 f_equal. no_nesting.
  - skip_tests. rewrite (read_app _ _ Hl). cbn [snd]. rewrite drop_length_app. do 2 f_equal. no_nesting.
  - skip_tests. rewrite (skip_app _ _ _ Hl), drop_length_app. do 2 f_equal. no_nesting.
  - apply plain_opcode_spec in Hb. destruct (op =? OpcodeEnd) eqn:Ee.
    + skip_tests. cbn [app]. do 2 f_equal. unfold nesting. rewrite Ee.
      replace ((op =? OpcodeBlock) || (op =? OpcodeIf)) with false by (symmetry; opcodes; lia). done.
    + skip_tests. cbn [app]. do 2 f_equal. unfold nesting. rewrite Ee.
      replace ((op =? OpcodeBlock) || (op =? OpcodeIf)) with false by (symmetry; opcodes; lia). done.
Qed.

(** A nesting limit only refuses more. *)
Lemma instruction_step_limit ic md op rest depth r :
  instruction_step ic md op rest depth = Ok r -> instruction_step ic 0 op rest depth = Ok r.
Proof.
  unfold instruction_step. destruct (is_branch op); [done|]. destruct (op =? OpcodeCallIndirect); [done|].
  destruct (op =? OpcodeCall); [done|]. destruct ((op =? OpcodeBlock) || (op =? OpcodeIf)); [|done].
  by intros (_ & E)%reject_ok.
Qed.

Lemma instructions_loop_limit fuel ic md : forall count depth body n,
  instructions_loop fuel ic md count depth body = Ok n -> instructions_loop fuel ic 0 count depth body = Ok n.
Proof.
  induction fuel as [|fuel IH]; intros count depth [|op body] n; simpl; try done. intros E.
  apply bind_ok in E as (r & Hs & E). apply instruction_step_limit in Hs. rewrite Hs. by apply IH.
Qed.

Lemma instructions_loop_ok fuel ic md : forall count depth body n,
  instructions_loop fuel ic md count depth body = Ok n -> 0 <= count -> count + Z.of_nat fuel < U64 ->
  exists is_, body = concat is_ /\ n = count + Z.of_nat (length is_) /\ Forall (instruction ic) is_ /\ (length is_ <= fuel)%nat.
Proof.
  induction fuel as [|fuel IH]; intros count depth [|op body] n; simpl; try done.
  - intros <-%Ok_inj _ _. exists []. split_and!; try done. simpl. lia.
  - intros <-%Ok_inj _ _. exists []. split_and!; try done; simpl; lia.
  - intros E H0 Hm. apply bind_ok in E as ([rest' d'] & Hs & E). cbn [fst snd] in E.
    apply instruction_step_ok in Hs as (im & -> & Hi & _).
    rewrite wrap64_small in E by u64lia. destruct (IH _ _ _ _ E) as (is_ & -> & -> & Hall & Hlen); [lia..|].
    exists ((op :: im) :: is_). split_and!; [done|simpl; lia|by constructor|simpl; lia].
Qed.

Lemma instructions_loop_complete ic is_ : forall fuel count depth, Forall (instruction ic) is_ ->
  (length is_ <= fuel)%nat -> 0 <= count -> count + Z.of_nat fuel < U64 ->
  instructions_loop fuel ic 0 count depth (concat is_) = Ok (count + Z.of_nat (length is_)).
Proof.
  induction is_ as [|i is_ IH]; intros fuel count depth Hall Hlen H0 Hm; cbn [concat length].
  { destruct fuel; simpl; f_equal; lia. }
  apply list.Forall_cons in Hall as [Hi Hall]. cbn [length] in Hlen. destruct fuel as [|fuel]; [lia|].
  destruct i as [|b im]; [by inversion Hi|]. cbn [app instructions_loop].
  rewrite (instruction_step_complete _ _ _ _ _ Hi). cbn [mbind result_bind fst snd]. rewrite wrap64_small by u64lia.
  rewrite IH by (try done; lia). f_equal. lia.
Qed.

Lemma concat_length_ge ic is_ : Forall (instruction ic) is_ -> (length is_ <= length (concat is_))%nat.
Proof.
  induction 1 as [|i is_ Hi Hall IH]; [done|]. cbn [concat length]. rewrite length_app.
  assert (1 <= length i)%nat by (inversion Hi; simpl; lia). lia.
Qed.

(** C29: The check of a function body accepts exactly the sequences of permitted
    instructions, and counts them: every byte belongs to one instruction of the
    grammar, and the loop ends for every body. *)
Theorem validate_instructions_grammar (ic : Z) (body : list byte) (n : Z) : Avm.zlen body < U64 ->
  validateInstructions body ic = Ok n <->
  exists is_, body = concat is_ /\ n = Z.of_nat (length is_) /\ Forall (instruction ic) is_.
Proof.
  intros Hb. unfold Avm.zlen in Hb. unfold validateInstructions, validateInstructionsBounded. split.
  - intros E. apply instructions_loop_ok in E as (is_ & -> & -> & Hall & _); [|lia..]. by exists is_.
  - intros (is_ & -> & -> & Hall). apply instructions_loop_complete; [done|by apply (concat_length_ge ic)|lia..].
Qed.

(** No permitted instruction is a loop, a branch, an indirect call or a floating-point
    instruction with an immediate, and a permitted call has an imported target. *)
Definition opcode_permitted (op : Z) : bool :=
  negb (is_branch op) && negb (op =? OpcodeCallIndirect) && negb (isFloatingOpcode op) && (op <? 252).

Lemma instruction_permitted ic b im : instruction ic (b :: im) ->
  opcode_permitted (byte_to_Z b) = true /\ (byte_to_Z b = OpcodeCall -> leb_value im < ic).
Proof.
  intros Hi. inversion Hi; subst; rewrite ?plain_opcode_spec in *;
    (split; [unfold opcode_permitted; opcodes; lia|]); try (opcodes; lia).
Qed.

(** The conversions from floating point, which the comment on [ValidateModule] excludes
    ("v1 is integer-only"), are in the list of integer opcodes. *)
Example float_conversions_permitted :
  validateInstructions [x00; xa8; xaa; xae; xb0; x0b] 0 = Ok 6 /\ isFloatingOpcode 168 = false.
Proof. split; vm_compute; reflexivity. Qed.

Section Results.
Context `{WasmDecoder}.

Lemma check_body_limit ic md c b n : check_body ic md c b = Ok n -> check_body ic 0 c b = Ok n.
Proof.
  unfold check_body, validateInstructionsBounded. intros (-> & Hk)%reject_ok. apply bind_ok in Hk as (j & Hj & Hk).
  apply instructions_loop_limit in Hj. by rewrite Hj.
Qed.

Lemma check_bodies_limit ic md bodies : forall c n,
  foldM (check_body ic md) c bodies = Ok n -> foldM (check_body ic 0) c bodies = Ok n.
Proof.
  induction bodies as [|b bodies IH]; intros c n; [done|]. cbn [foldM]. intros E. apply bind_ok in E as (k & Hk & E).
  rewrite (check_body_limit _ _ _ _ _ Hk). by apply IH.
Qed.

(** What the pool admits with a nesting limit, consensus accepts with the same report. *)
Lemma validateModule_limit code md r : validateModule code md = Ok r -> ValidateModule code = Ok r.
Proof.
  unfold ValidateModule, validateModule. intros E. apply reject_ok in E as (-> & E). apply reject_ok in E as (-> & E).
  destruct (DecodeModule code) as [m|]; [|done]. apply reject_ok in E as (-> & E). apply reject_ok in E as (-> & E).
  apply bind_ok in E as (names & -> & E). apply bind_ok in E as ([] & Hm & E). apply bind_ok in E as (c & Hc & E).
  cbn [mbind result_bind]. rewrite Hm. cbn [mbind result_bind]. by rewrite (check_bodies_limit _ _ _ _ _ Hc).
Qed.

Lemma validateModule_range code md r : validateModule code md = Ok r ->
  0 <= InstructionCount r < U64 /\ 0 <= StaticGas r < U64 /\ code <> [].
Proof.
  unfold validateModule. intros E. apply reject_ok in E as (Hne & E). apply reject_ok in E as (_ & E).
  destruct (DecodeModule code) as [m|]; [|done]. apply reject_ok in E as (_ & E). apply reject_ok in E as (_ & E).
  apply bind_ok in E as (names & _ & E). apply bind_ok in E as ([] & _ & E). apply bind_ok in E as (c & Hc & E).
  apply Ok_inj in E as <-. cbn [InstructionCount StaticGas]. split; [|split; [apply wrap64_range|by zbool]].
  refine (foldM_inv _ (fun c => 0 <= c < U64) 0 c _ _ _ Hc); [|lia]. intros c0 b c1 _ Hs. unfold check_body in Hs.
  apply reject_ok in Hs as (_ & Hs). apply bind_ok in Hs as (k & _ & Hs). apply Ok_inj in Hs as <-. apply wrap64_range.
Qed.

(** Every import of a validated module is a host function of the ABI. *)
Lemma validateModule_imports code md r m : validateModule code md = Ok r -> DecodeModule code = Some m ->
  Forall (fun i => im_Type i = ExternTypeFunc /\ im_Name i ∈ allowedImports) (ImportSection m).
Proof.
  unfold validateModule. intros E Hm. apply reject_ok in E as (_ & E). apply reject_ok in E as (_ & E).
  rewrite Hm in E. apply reject_ok in E as (_ & E). apply reject_ok in E as (_ & E).
  apply bind_ok in E as (names & Hi & _). revert Hi. generalize ([] : list (list byte)).
  induction (ImportSection m) as [|i l IH]; intros acc Hi; [constructor|]. cbn [foldM] in Hi.
  apply bind_ok in Hi as (acc' & Hs & Hi). unfold check_import in Hs. apply reject_ok in Hs as (Ht & Hs).
  apply reject_ok in Hs as (_ & Hs). apply reject_ok in Hs as (Hn & _). zbool. constructor; [done|by apply (IH acc')].
Qed.

End Results.

Lemma validate_instructions_grammar_witness :
  exists is_, [x20; x80; x01; x10; x00; x0b] = concat is_ /\ 3 = Z.of_nat (length is_) /\ Forall (instruction 2) is_.
Proof.
  apply (proj1 (validate_instructions_grammar 2 [x20; x80; x01; x10; x00; x0b] 3 ltac:(done))). vm_compute. reflexivity.
Defined.

End Wasm.
