(* ===== verification/AvmState.v ===== *)
(** The state boundary of the contract engine: [avm/state.go] and [avm/leveldb_store.go].

    [Store] is a class of operations with laws: a store behaves as a partial function
    from non-empty keys to values.  The memory store, the overlay over any lawful store
    and the node's key-value database are its instances. *)

From stdpp Require Import base gmap list sorting.
From S2P Require Import Prelude Bytes Avm KeyValue BlockStore.

Import Avm KeyValue.

Module AvmState.

Record Write := mkWrite { Key : list byte; Value : option (list byte) }.
#[export] Instance Write_eq_dec : EqDecision Write.
Proof. solve_decision. Defined.

(** ** The interface *)

Class Store (S : Type) := {
  Get : S -> list byte -> result (option (list byte));
  Apply : list Write -> S -> result S
}.

(** What a store holds, as a function; a write of [None] deletes. *)
Definition upd (f : list byte -> option (list byte)) (w : Write) : list byte -> option (list byte) :=
  fun k => if decide (k = Key w) then Value w else f k.
Definition upds (f : list byte -> option (list byte)) (ws : list Write) : list byte -> option (list byte) := fold_left upd ws f.

Definition no_empty (ws : list Write) : bool := forallb (fun w => negb (bool_decide (Key w = []))) ws.

(** A store is lawful when reading a non-empty key reads its contents and applying
    writes with non-empty keys succeeds and performs them in order, while an empty key
    makes the whole set fail. *)
Class LawfulStore (S : Type) `{Store S} := {
  view : S -> list byte -> option (list byte);
  Get_view : forall s k, k <> [] -> Get s k = Ok (view s k);
  Apply_view : forall ws s, no_empty ws = true -> exists s', Apply ws s = Ok s' /\ forall k, k <> [] -> view s' k = upds (view s) ws k;
  Apply_empty : forall ws s, no_empty ws = false -> is_ok (Apply ws s) = false
}.

(** Two stores that hold the same. *)
Definition same_view (f g : list byte -> option (list byte)) : Prop := forall k, k <> [] -> f k = g k.

#[export] Instance same_view_equiv : Equivalence same_view.
Proof.
  split; [by intros f k|intros f g Hfg k Hk; by rewrite Hfg|]. intros f g h Hfg Hgh k Hk. by rewrite Hfg, Hgh.
Qed.

#[export] Instance upd_proper : Proper (same_view ==> eq ==> same_view) upd.
Proof. intros f g Hfg w w' <- k Hk. unfold upd. destruct (decide _); [done|by apply Hfg]. Qed.

#[export] Instance upds_proper : Proper (same_view ==> eq ==> same_view) upds.
Proof.
  intros f g Hfg ws ws' <-. revert f g Hfg. induction ws as [|w ws IH]; intros f g Hfg; [done|]. apply (IH (upd f w) (upd g w)).
  by rewrite Hfg.
Qed.

(** ** Ordered writes *)

Definition byte_le (a b : list byte) : Prop := bytes_le a b = true.
#[export] Instance byte_le_dec : RelDecision byte_le.
Proof. intros a b. unfold byte_le. apply _. Defined.
#[export] Instance byte_le_trans : Transitive byte_le.
Proof. intros a b c. unfold byte_le. rewrite !bytes_le_spec. apply bytes_compare_trans. Qed.
#[export] Instance byte_le_total : Total byte_le.
Proof.
  intros a b. unfold byte_le. rewrite !bytes_le_spec, (bytes_compare_antisym a b). destruct (bytes_compare a b); simpl; auto;
    by left.
Qed.
#[export] Instance byte_le_antisymm : AntiSymm (=) byte_le.
Proof.
  intros a b. unfold byte_le. rewrite !bytes_le_spec, (bytes_compare_antisym a b). intros Hab Hba.
  apply bytes_compare_eq. destruct (bytes_compare a b); simpl in *; done.
Qed.

(** A map of staged writes, listed by sorted key: [Writes] and [orderedWrites]. *)
Definition ordered_writes (m : gmap (list byte) (option (list byte))) : list Write :=
  (fun k => mkWrite k (default None (m !! k))) <$> merge_sort byte_le (map_to_list m).*1.

(** ** The memory store *)

Record MemoryStore := mkMemory { data : gmap (list byte) (list byte) }.
Definition NewMemoryStore : MemoryStore := mkMemory ∅.

Definition memory_write (m : gmap (list byte) (list byte)) (w : Write) : gmap (list byte) (list byte) :=
  match Value w with None => delete (Key w) m | Some v => <[Key w := v]> m end.

#[export] Instance memory_store : Store MemoryStore := {
  Get := fun s k => Ok (data s !! k);
  Apply := fun ws s =>
    reject negb (no_empty ws) with "avm state: empty key" ;;
    Ok (mkMemory (fold_left memory_write ws (data s)))
}.

Definition memory_Writes (s : MemoryStore) : list Write := ordered_writes (Some <$> data s).

(** ** The overlay *)

Record OverlayStore (S : Type) := mkOverlay { base : S; staged : gmap (list byte) (option (list byte)) }.
Arguments mkOverlay {S} _ _.
Arguments base {S} _.
Arguments staged {S} _.

Definition NewOverlayStore {S} (b : S) : OverlayStore S := mkOverlay b ∅.

Definition stage (m : gmap (list byte) (option (list byte))) (w : Write) : gmap (list byte) (option (list byte)) :=
  <[Key w := Value w]> m.

#[export] Instance overlay_store {S} `{Store S} : Store (OverlayStore S) := {
  Get := fun o k => match staged o !! k with Some v => Ok v | None => Get (base o) k end;
  Apply := fun ws o =>
    reject negb (no_empty ws) with "avm overlay: empty key" ;;
    Ok (mkOverlay (base o) (fold_left stage ws (staged o)))
}.

Definition Writes {S} (o : OverlayStore S) : list Write := ordered_writes (staged o).

(** ** The database *)

Definition toStoreWrites (ws : list Write) : list BlockStore.AVMWrite :=
  (fun w => BlockStore.mkAVMWrite (Key w) (Value w)) <$> ws.

(** [LevelStore] over an open database. *)
Record LevelStore := mkLevel { DB : gmap (list byte) (list byte) }.

#[export] Instance level_store : Store LevelStore := {
  Get := fun s k => BlockStore.GetAVMState (DB s) k;
  Apply := fun ws s => mkLevel <$> BlockStore.ApplyAVMState (toStoreWrites ws) (DB s)
}.

(** ** The state of one transaction *)

(** [prefix] is the contract identifier followed by a slash. *)
Record transactionState (S : Type) := mkTxState { ts_base : S; prefix : list byte; ts_writes : gmap (list byte) (option (list byte)) }.
Arguments mkTxState {S} _ _ _.
Arguments ts_base {S} _.
Arguments prefix {S} _.
Arguments ts_writes {S} _.

Definition contract_prefix (contractID : arr 32) : list byte := arr_list contractID ++ bytes_of_string "/".

Definition newTransactionState {S} (b : S) (contractID : arr 32) : transactionState S := mkTxState b (contract_prefix contractID) ∅.

Definition namespaced {S} (s : transactionState S) (key : list byte) : list byte := prefix s ++ key.

Definition ts_get {S} `{Store S} (s : transactionState S) (key : list byte) : result (option (list byte)) :=
  match ts_writes s !! namespaced s key with Some v => Ok v | None => Get (ts_base s) (namespaced s key) end.

Definition ts_put {S} (s : transactionState S) (key value : list byte) : transactionState S :=
  mkTxState (ts_base s) (prefix s) (<[namespaced s key := Some value]> (ts_writes s)).

Definition orderedWrites {S} (s : transactionState S) : list Write := ordered_writes (ts_writes s).

(** ** Updates *)

Lemma upds_app f a b : upds f (a ++ b) = upds (upds f a) b.
Proof. apply fold_left_app. Qed.

Lemma upds_ext f g ws : (forall k, f k = g k) -> forall k, upds f ws k = upds g ws k.
Proof.
  revert f g. induction ws as [|w ws IH]; intros f g Hfg k; [apply Hfg|]. apply IH. intros k'. unfold upd. by rewrite Hfg.
Qed.

Lemma upds_other f ws k : Forall (fun w => Key w <> k) ws -> upds f ws k = f k.
Proof.
  intros Hall. revert f. induction Hall as [|w ws Hw Hall IH]; intros f; [done|]. cbn [upds fold_left].
  fold (upds (upd f w) ws). rewrite IH. unfold upd. by rewrite decide_False.
Qed.

Lemma upds_once f ws w : NoDup (Key <$> ws) -> w ∈ ws -> upds f ws (Key w) = Value w.
Proof.
  intros Hnd Hin. apply list_elem_of_split in Hin as (a & b & ->). rewrite fmap_app in Hnd. cbn [fmap list_fmap] in Hnd.
  apply list.NoDup_app in Hnd as (_ & _ & Hnd). apply list.NoDup_cons in Hnd as [Hb _].
  rewrite upds_app. cbn [upds fold_left]. fold (upds (upd (upds f a) w) b). rewrite upds_other.
  - unfold upd. by rewrite decide_True.
  - apply list.Forall_forall. intros x Hx E. apply Hb. rewrite <- E. apply list_elem_of_fmap. eauto.
Qed.

Lemma no_empty_spec ws : no_empty ws = true <-> Forall (fun w => Key w <> []) ws.
Proof.
  unfold no_empty. induction ws as [|w ws IH]; simpl; [done|]. rewrite andb_true_iff, IH, list.Forall_cons, negb_true_iff,
    bool_decide_eq_false. done.
Qed.

Lemma no_empty_app a b : no_empty (a ++ b) = no_empty a && no_empty b.
Proof. apply forallb_app. Qed.

(** ** The listing of a write map *)

Lemma ordered_keys m : Key <$> ordered_writes m = merge_sort byte_le (map_to_list m).*1.
Proof. unfold ordered_writes. rewrite <- list_fmap_compose. apply list_fmap_id. Qed.

Lemma ordered_keys_perm m : Key <$> ordered_writes m ≡ₚ (map_to_list m).*1.
Proof. rewrite ordered_keys. apply merge_sort_Permutation. Qed.

Lemma ordered_NoDup m : NoDup (Key <$> ordered_writes m).
Proof. rewrite ordered_keys_perm. apply NoDup_fst_map_to_list. Qed.

Lemma ordered_length m : length (ordered_writes m) = size m.
Proof. rewrite <- (length_fmap Key), ordered_keys_perm, length_fmap. apply length_map_to_list. Qed.

Lemma elem_of_ordered m w : w ∈ ordered_writes m <-> m !! Key w = Some (Value w).
Proof.
  unfold ordered_writes. rewrite list_elem_of_fmap. split.
  - intros (k & -> & Hk). rewrite merge_sort_Permutation in Hk. apply list_elem_of_fmap in Hk as ([k' v] & -> & Hk).
    apply elem_of_map_to_list in Hk. cbn. by rewrite Hk.
  - intros Hw. exists (Key w). split; [destruct w; cbn in *; by rewrite Hw|]. rewrite merge_sort_Permutation.
    apply list_elem_of_fmap. exists (Key w, Value w). split; [done|]. by apply elem_of_map_to_list.
Qed.

(** Applying the listing has the effect of the map, whatever the order was. *)
Lemma upds_ordered f m k : upds f (ordered_writes m) k = default (f k) (m !! k).
Proof.
  destruct (m !! k) as [v|] eqn:E; cbn [default].
  - apply (upds_once f (ordered_writes m) (mkWrite k v)); [apply ordered_NoDup|]. by apply elem_of_ordered.
  - apply upds_other. apply list.Forall_forall. intros w Hw <-. apply elem_of_ordered in Hw. congruence.
Qed.

(** The listing does not depend on the iteration order of the map: any enumeration of
    its keys gives the same list. *)
Lemma ordered_canonical m l : l ≡ₚ (map_to_list m).*1 ->
  (fun k => mkWrite k (default None (m !! k))) <$> merge_sort byte_le l = ordered_writes m.
Proof.
  intros Hl. unfold ordered_writes. f_equal. apply (StronglySorted_unique byte_le).
  - apply (StronglySorted_merge_sort byte_le).
  - apply (StronglySorted_merge_sort byte_le).
  - by rewrite !merge_sort_Permutation.
Qed.

Lemma no_empty_ordered m : m !! [] = None -> no_empty (ordered_writes m) = true.
Proof.
  intros Hm. apply no_empty_spec, list.Forall_forall. intros w Hw E. apply elem_of_ordered in Hw. rewrite E in Hw. congruence.
Qed.

(** ** The instances are lawful *)

Lemma memory_writes_view ws : forall m k, fold_left memory_write ws m !! k = upds (fun k => m !! k) ws k.
Proof.
  induction ws as [|w ws IH]; intros m k; [done|]. cbn [fold_left]. rewrite IH. apply (upds_ext _ (upd (fun k => m !! k) w)).
  intros k'. unfold memory_write, upd. destruct (decide (k' = Key w)) as [->|Hne]; destruct (Value w) as [v|].
  - apply lookup_insert_eq.
  - apply lookup_delete_eq.
  - by rewrite lookup_insert_ne by done.
  - by rewrite lookup_delete_ne by done.
Qed.

#[export] Program Instance memory_lawful : LawfulStore MemoryStore := {| view := fun s k => data s !! k |}.
Next Obligation. done. Qed.
Next Obligation.
  intros ws s Hw. exists (mkMemory (fold_left memory_write ws (data s))). cbn. rewrite Hw. split; [done|]. intros k _.
  apply memory_writes_view.
Qed.
Next Obligation. intros ws s Hw. cbn. by rewrite Hw. Qed.

Lemma staged_view ws f : forall m k,
  default (f k) (fold_left stage ws m !! k) = upds (fun k => default (f k) (m !! k)) ws k.
Proof.
  induction ws as [|w ws IH]; intros m k; [done|]. cbn [fold_left]. rewrite IH.
  apply (upds_ext _ (upd (fun k => default (f k) (m !! k)) w)).
  intros k'. unfold stage, upd. destruct (decide (k' = Key w)) as [->|Hne]; [by rewrite lookup_insert_eq|].
  by rewrite lookup_insert_ne by done.
Qed.

#[export] Program Instance overlay_lawful {S} `{LawfulStore S} : LawfulStore (OverlayStore S) :=
  {| view := fun o k => default (view (base o) k) (staged o !! k) |}.
Next Obligation. intros S ? ? o k Hk. cbn. destruct (staged o !! k); [done|by apply Get_view]. Qed.
Next Obligation.
  intros S ? ? ws o Hw. exists (mkOverlay (base o) (fold_left stage ws (staged o))). cbn. rewrite Hw. split; [done|].
  intros k Hk. apply staged_view.
Qed.
Next Obligation. intros S ? ? ws o Hw. cbn. by rewrite Hw. Qed.

(** ** The database is lawful *)

Definition op_of (w : Write) : batch_op := BlockStore.avm_op (BlockStore.mkAVMWrite (Key w) (Value w)).

Lemma avmBatch_ok ws : forall b, no_empty ws = true ->
  foldM (fun b w => reject bool_decide (BlockStore.aw_Key w = []) with "store: empty AVM key" ;; Ok (b ++ [BlockStore.avm_op w]))
    b (toStoreWrites ws) = Ok (b ++ (op_of <$> ws)).
Proof.
  induction ws as [|w ws IH]; intros b Hw; cbn [toStoreWrites fmap list_fmap foldM]; [by rewrite app_nil_r|].
  cbn [no_empty forallb] in Hw. apply andb_true_iff in Hw as [Hk Hw]. zbool. cbn [BlockStore.aw_Key].
  rewrite bool_decide_eq_false_2 by done. cbn [mbind result_bind]. rewrite (IH _ Hw), <- app_assoc. done.
Qed.

Lemma avmBatch_empty ws : forall b, no_empty ws = false ->
  is_ok (foldM (fun b w => reject bool_decide (BlockStore.aw_Key w = []) with "store: empty AVM key" ;;
    Ok (b ++ [BlockStore.avm_op w])) b (toStoreWrites ws)) = false.
Proof.
  induction ws as [|w ws IH]; intros b Hw; [done|]. cbn [toStoreWrites fmap list_fmap foldM].
  cbn [no_empty forallb] in Hw. cbn [BlockStore.aw_Key]. destruct (bool_decide (Key w = [])); [done|]. cbn [mbind result_bind].
  by apply IH.
Qed.

Lemma write_upds ws : forall m k, write (op_of <$> ws) m !! avmKey k = upds (fun k => m !! avmKey k) ws k.
Proof.
  induction ws as [|w ws IH]; intros m k; [done|]. cbn [fmap list_fmap write foldl]. fold (write (op_of <$> ws) (apply_op m (op_of w))).
  rewrite IH. apply (upds_ext _ (upd (fun k => m !! avmKey k) w)). intros k'. unfold upd, op_of, BlockStore.avm_op.
  cbn [BlockStore.aw_Key BlockStore.aw_Value]. destruct (decide (k' = Key w)) as [->|Hne]; destruct (Value w); cbn [apply_op].
  - apply lookup_insert_eq.
  - apply lookup_delete_eq.
  - apply lookup_insert_ne. unfold avmKey. intros E. by apply app_inv_head in E.
  - apply lookup_delete_ne. unfold avmKey. intros E. by apply app_inv_head in E.
Qed.

#[export] Program Instance level_lawful : LawfulStore LevelStore := {| view := fun s k => DB s !! avmKey k |}.
Next Obligation. intros s k Hk. cbn. unfold BlockStore.GetAVMState. by rewrite bool_decide_eq_false_2. Qed.
Next Obligation.
  intros ws s Hw. cbn. unfold BlockStore.ApplyAVMState, BlockStore.avmBatch. rewrite (avmBatch_ok ws [] Hw). cbn.
  eexists. split; [done|]. intros k _. cbn. apply write_upds.
Qed.
Next Obligation.
  intros ws s Hw. cbn. unfold BlockStore.ApplyAVMState, BlockStore.avmBatch. apply (avmBatch_empty ws []) in Hw.
  by destruct (foldM _ _ _).
Qed.

(** ** The overlay as a transaction *)

Section Overlay.
Context {S} `{LawfulStore S}.

(** The overlay never touches its base, and never stages an empty key. *)
Lemma overlay_apply_ok (o o' : OverlayStore S) ws : Apply ws o = Ok o' ->
  no_empty ws = true /\ base o' = base o /\ staged o' = fold_left stage ws (staged o).
Proof. cbn. intros (Hw & <-%Ok_inj)%reject_ok. zbool. done. Qed.

Lemma staged_no_empty ws : forall m, no_empty ws = true -> m !! [] = None -> fold_left stage ws m !! [] = None.
Proof.
  induction ws as [|w ws IH]; intros m Hw Hm; [done|]. cbn [no_empty forallb] in Hw. apply andb_true_iff in Hw as [Hk Hw]. zbool.
  cbn [fold_left]. apply IH; [done|]. unfold stage. by rewrite lookup_insert_ne.
Qed.

(** Committing an overlay writes what it shows. *)
Lemma overlay_commit (o : OverlayStore S) : staged o !! [] = None ->
  exists b', Apply (Writes o) (base o) = Ok b' /\ same_view (view b') (view o).
Proof.
  intros Hs. destruct (Apply_view (Writes o) (base o) (no_empty_ordered _ Hs)) as (b' & Hb & Hv). exists b'. split; [done|].
  intros k Hk. rewrite (Hv k Hk). unfold Writes. rewrite upds_ordered. done.
Qed.

Definition apply_all {T} `{Store T} (wss : list (list Write)) (s : T) : result T := foldM (fun s ws => Apply ws s) s wss.

Lemma overlay_transact (b : S) (wss : list (list Write)) (o : OverlayStore S) :
  apply_all wss (NewOverlayStore b) = Ok o ->
  base o = b /\ exists b' direct, Apply (Writes o) b = Ok b' /\ apply_all wss b = Ok direct /\
    same_view (view b') (view direct) /\ same_view (view o) (view direct).
Proof.
  intros Ho.
  assert (Hg : forall wss o0 o (d : S), apply_all wss o0 = Ok o -> staged o0 !! [] = None -> same_view (view o0) (view d) ->
    base o = base o0 /\ staged o !! [] = None /\ exists direct, apply_all wss d = Ok direct /\ same_view (view o) (view direct)).
  { clear. unfold apply_all. induction wss as [|ws wss IH]; intros o0 o d Ho Hs Hv; cbn [foldM] in *.
    { apply Ok_inj in Ho as <-. split; [done|]. split; [done|]. by exists d. }
    apply bind_ok in Ho as (o1 & H1 & Ho). destruct (overlay_apply_ok _ _ _ H1) as (Hw & Hb & Hst).
    destruct (Apply_view ws d Hw) as (d1 & Hd1 & Hv1).
    destruct (Apply_view ws o0 Hw) as (o1' & Ho1 & Hv2). rewrite H1 in Ho1. apply Ok_inj in Ho1 as <-.
    destruct (IH o1 o d1 Ho) as (Eb & Es & direct & Hd & Hvd).
    - rewrite Hst. by apply staged_no_empty.
    - intros k Hk. rewrite (Hv1 k Hk), (Hv2 k Hk). by apply upds_proper.
    - split; [by rewrite Eb|]. split; [done|]. exists direct. by rewrite Hd1. }
  destruct (Hg wss (NewOverlayStore b) o b Ho) as (Eb & Es & direct & Hd & Hv); [apply lookup_empty| |].
  { intros k Hk. unfold view at 1. cbn. by rewrite lookup_empty. }
  split; [done|]. destruct (overlay_commit o Es) as (b' & Hb' & Hv'). rewrite Eb in Hb'. exists b', direct. split_and!; try done.
  by rewrite Hv'.
Qed.

(** The overlay is a transaction: whatever write sets it accepts, the base is untouched
    until the commit, the one sorted write set of the commit is always accepted, and the
    base then holds exactly what it would hold had it taken the write sets directly. *)
Theorem overlay_transaction (b : S) (wss : list (list Write)) (o : OverlayStore S) :
  apply_all wss (NewOverlayStore b) = Ok o ->
  base o = b /\ exists b' direct, Apply (Writes o) b = Ok b' /\ apply_all wss b = Ok direct /\
    same_view (view b') (view direct) /\ same_view (view o) (view direct).
Proof. apply overlay_transact. Qed.

End Overlay.

Lemma overlay_transaction_witness :
  let w1 := [mkWrite [x02] (Some [x05]); mkWrite [x01] (Some [])] in
  let w2 := [mkWrite [x02] None; mkWrite [x03] (Some [x07])] in
  exists b' direct, Apply [mkWrite [x01] (Some []); mkWrite [x02] None; mkWrite [x03] (Some [x07])] (mkLevel ∅) = Ok b' /\
    apply_all [w1; w2] (mkLevel ∅) = Ok direct /\ same_view (view b') (view direct).
Proof.
  intros w1 w2. destruct (apply_all [w1; w2] (NewOverlayStore (mkLevel ∅))) as [o|] eqn:Ho; [|discriminate Ho].
  destruct (overlay_transaction (mkLevel ∅) [w1; w2] o Ho) as (_ & b' & direct & Hb & Hd & Hv & _).
  exists b', direct. split; [|split; [exact Hd|exact Hv]]. rewrite <- Hb. f_equal. apply Ok_inj in Ho as <-.
  vm_compute. reflexivity.
Defined.

End AvmState.
