(* ===== verification/AvmEngine.v ===== *)
(** The contract engine: [avm/engine.go].

    The WebAssembly runtime (wazero) is third-party: a class gives the compilation, the
    instantiation and the calls of a module as a tree of host calls ([Guest]), finite
    because validated modules have no loops.  The host functions, the metering and the
    commit are the source's.  A host function that calls [fail] closes the module, and the
    runtime then ends the call with an error; a Go panic in a host function ends it too. *)

From stdpp Require Import base gmap list strings.
From S2P Require Import Prelude Bytes Avm KeyValue Wasm AvmState.
Import Wasm AvmState.

Module AvmEngine.

Definition ErrOutOfGas : string := "avm: out of gas".
Definition ErrReadOnlyWrite : string := "avm: write attempted in read-only execution".

Definition GasStateRead : Z := 25.
Definition GasStateWrite : Z := 100.
Definition GasInputRead : Z := 10.
Definition GasOutputWrite : Z := 10.

Record Access := mkAccess { a_Key : list byte; a_Write : bool }.
#[export] Instance Access_eq_dec : EqDecision Access.
Proof. solve_decision. Defined.

Record ExecutionRequest := mkRequest {
  ContractID : arr 32; Code : list byte; Entry : list byte; Input : list byte;
  GasLimit : Z; ReadOnly : bool; AccessList : list Access
}.
Record ExecutionResult := mkResult { GasUsed : Z; ReturnData : list byte; StateWrites : Z; ModuleReport : ValidationReport }.

Definition emptyReport : ValidationReport := mkReport 0 0 [].
Definition emptyResult : ExecutionResult := mkResult 0 [] 0 emptyReport.

(** ** The guest *)

(** The linear memory of a module. *)
Class GuestMemory := {
  Mem : Type;
  mem_Read : Mem -> Z -> Z -> option (list byte);
  mem_Write : Mem -> Z -> list byte -> option Mem;
  mem_Read_length : forall m p n l, mem_Read m p n = Some l -> Avm.zlen l = n
}.

(** A call of a host function with its arguments as the runtime passes them, 64-bit
    stack values. *)
Inductive HostCall :=
| consume_gas (amount : Z)
| state_read (keyPtr keyLen outPtr outCap : Z)
| state_write (keyPtr keyLen valuePtr valueLen : Z)
| input_read (outPtr outCap : Z)
| output_write (ptr length : Z).

(** What a module does until it returns: it traps, or it calls the host with its memory
    and continues with the value returned and the memory the host left. *)
Inductive Guest `{GuestMemory} (A : Type) :=
| GRet (a : A)
| GTrap
| GCall (call : HostCall) (m : option Mem) (k : Z -> option Mem -> Guest A).
Arguments GRet {_ _} _.
Arguments GTrap {_ _}.
Arguments GCall {_ _} _ _ _.

Class WasmRuntime `{GuestMemory} := {
  Compiled : Type;
  ModuleInstance : Type;
  CompileModule : list byte -> option Compiled;
  (** The instantiation, which runs the start section. *)
  InstantiateModule : Compiled -> Guest ModuleInstance;
  (** The numbers of parameters and results of an exported function. *)
  ExportedFunction : ModuleInstance -> list byte -> option (nat * nat);
  CallFunction : ModuleInstance -> list byte -> Guest ()
}.

(** ** The session *)

Record executionSession (S : Type) := mkSession {
  request : ExecutionRequest; state : transactionState S; gasUsed : Z; output : list byte;
  err : option string; access : gmap (list byte) bool
}.
Arguments mkSession {S} _ _ _ _ _ _.
Arguments request {S} _.
Arguments state {S} _.
Arguments gasUsed {S} _.
Arguments output {S} _.
Arguments err {S} _.
Arguments access {S} _.

Section Host.
Context {S : Type} `{Store S} `{GuestMemory}.

Definition with_gas (g : Z) (s : executionSession S) : executionSession S :=
  mkSession (request s) (state s) g (output s) (err s) (access s).
Definition with_err (e : option string) (s : executionSession S) : executionSession S :=
  mkSession (request s) (state s) (gasUsed s) (output s) e (access s).
Definition with_state (t : transactionState S) (s : executionSession S) : executionSession S :=
  mkSession (request s) t (gasUsed s) (output s) (err s) (access s).
Definition with_output (o : list byte) (s : executionSession S) : executionSession S :=
  mkSession (request s) (state s) (gasUsed s) o (err s) (access s).

Definition charge (amount : Z) (s : executionSession S) : executionSession S * bool :=
  if GasLimit (request s) -w gasUsed s <? amount then (with_err (Some ErrOutOfGas) (with_gas (GasLimit (request s)) s), false)
  else (with_gas (gasUsed s +w amount) s, true).

Definition fail (e : string) (s : executionSession S) : executionSession S :=
  match err s with None => with_err (Some e) s | Some _ => s end.

(** The outcome of a host function: a value and the memory, or the end of the run. *)
Definition outcome : Type := executionSession S * option (Z * option Mem).

Definition failed (e : string) (s : executionSession S) : outcome := (fail e s, None).

Definition readMemory (m : option Mem) (offset length : Z) : option (list byte) := m' ← m; mem_Read m' offset length.

(** [uint32(len(value)) > outCap || !module.Memory().Write(outPtr, value)], and the
    value returned; without a memory the call panics. *)
Definition write_out (m : option Mem) (outPtr outCap : Z) (value : list byte) (e : string) (s : executionSession S) : outcome :=
  if outCap <? wrap32 (Avm.zlen value) then failed e s
  else match m with
       | None => (s, None)
       | Some m' => match mem_Write m' outPtr value with
                    | None => failed e s
                    | Some m'' => (s, Some (wrap32 (Avm.zlen value), Some m''))
                    end
       end.

Definition noValue : Z := 4294967295.

Definition valid_key (key : list byte) : bool := negb (bool_decide (key = [])) && (Avm.zlen key <=? MaxStateKeySize).

Definition host_state_read (keyPtr keyLen outPtr outCap : Z) (m : option Mem) (s : executionSession S) : outcome :=
  let '(s, ok) := charge (GasStateRead +w keyLen) s in
  if negb ok then failed ErrOutOfGas s
  else match readMemory m keyPtr keyLen with
  | None => failed "avm: invalid state key" s
  | Some key =>
      if negb (valid_key key) then failed "avm: invalid state key" s
      else match access s !! key with
      | None => failed "avm: undeclared state read" s
      | Some _ =>
          match ts_get (state s) key with
          | Err _ => failed "avm: state read" s
          | Ok None => (s, Some (noValue, m))
          | Ok (Some value) => write_out m outPtr outCap value "avm: state read output buffer too small" s
          end
      end
  end.

Definition host_state_write (keyPtr keyLen valuePtr valueLen : Z) (m : option Mem) (s : executionSession S) : outcome :=
  let '(s, ok) := charge (GasStateWrite +w keyLen +w valueLen) s in
  if negb ok then failed ErrOutOfGas s
  else if ReadOnly (request s) then failed ErrReadOnlyWrite s
  else match readMemory m keyPtr keyLen, readMemory m valuePtr valueLen with
  | Some key, Some value =>
      if negb (valid_key key) || (MaxStateValue <? Avm.zlen value) then failed "avm: invalid state write" s
      else match access s !! key with
      | Some true => (with_state (ts_put (state s) key value) s, Some (0, m))
      | _ => failed "avm: undeclared state write" s
      end
  | _, _ => failed "avm: invalid state write" s
  end.

Definition host_input_read (outPtr outCap : Z) (m : option Mem) (s : executionSession S) : outcome :=
  let '(s, ok) := charge (GasInputRead +w Avm.zlen (Input (request s))) s in
  if negb ok then failed ErrOutOfGas s
  else write_out m outPtr outCap (Input (request s)) "avm: input buffer too small" s.

Definition host_output_write (ptr length : Z) (m : option Mem) (s : executionSession S) : outcome :=
  let '(s, ok) := charge (GasOutputWrite +w length) s in
  if negb ok then failed ErrOutOfGas s
  else if MaxStateValue <? length then failed "avm: output exceeds the limit" s
  else match readMemory m ptr length with
  | None => failed "avm: invalid output memory" s
  | Some out => (with_output out s, Some (0, m))
  end.

(** [instantiateHost]: the functions of the module [apro], with the conversion of the
    stack values to their parameter types. *)
Definition host_call (c : HostCall) (m : option Mem) (s : executionSession S) : outcome :=
  match c with
  | consume_gas amount =>
      let '(s, ok) := charge (wrap64 amount) s in if ok then (s, Some (0, m)) else failed ErrOutOfGas s
  | state_read keyPtr keyLen outPtr outCap => host_state_read (wrap32 keyPtr) (wrap32 keyLen) (wrap32 outPtr) (wrap32 outCap) m s
  | state_write keyPtr keyLen valuePtr valueLen =>
      host_state_write (wrap32 keyPtr) (wrap32 keyLen) (wrap32 valuePtr) (wrap32 valueLen) m s
  | input_read outPtr outCap => host_input_read (wrap32 outPtr) (wrap32 outCap) m s
  | output_write ptr length => host_output_write (wrap32 ptr) (wrap32 length) m s
  end.

(** A run of the guest against the session; [None] is an error of the runtime. *)
Fixpoint run {A} (g : Guest A) (s : executionSession S) : executionSession S * option A :=
  match g with
  | GRet a => (s, Some a)
  | GTrap => (s, None)
  | GCall c m k =>
      match host_call c m s with
      | (s', None) => (s', None)
      | (s', Some (v, m')) => run (k v m') s'
      end
  end.

End Host.
Arguments outcome S {_}.

(** ** Execution *)

Record Engine (S : Type) := mkEngine { store : S; open : bool }.
Arguments mkEngine {S} _ _.
Arguments store {S} _.
Arguments open {S} _.

Definition NewEngine {S} (s : S) : Engine S := mkEngine s true.
Definition Close {S} (e : Engine S) : Engine S := mkEngine (store e) false.

Definition declare (m : gmap (list byte) bool) (a : Access) : result (gmap (list byte) bool) :=
  reject bool_decide (a_Key a = []) || (MaxStateKeySize <? Avm.zlen (a_Key a)) with "avm: access key size" ;;
  reject bool_decide (is_Some (m !! a_Key a)) with "avm: duplicate access key" ;;
  Ok (<[a_Key a := a_Write a]> m).

Definition newSession {S} (r : ExecutionRequest) (st : S) (acc : gmap (list byte) bool) : executionSession S :=
  mkSession r (newTransactionState st (ContractID r)) 0 [] None acc.

Section Execute.
Context {S : Type} `{Store S} `{WasmDecoder} `{WasmRuntime}.

(** The module run: instantiation, the entry function and its call, in a session that
    has paid for its static gas; an error before the call reports no gas. *)
Definition execute_module (r : ExecutionRequest) (s : executionSession S) : executionSession S * result () :=
  match CompileModule (Code r) with
  | None => (with_gas 0 s, Err "avm: compile module")
  | Some compiled =>
      match run (InstantiateModule compiled) s with
      | (s, None) => (with_gas 0 s, Err "avm: instantiate module")
      | (s, Some inst) =>
          match ExportedFunction inst (Entry r) with
          | None => (with_gas 0 s, Err "avm: entry function is not exported")
          | Some (params, results) =>
              if negb (bool_decide (params = O)) || negb (bool_decide (results = O))
              then (with_gas 0 s, Err "avm: entry function must have signature () -> ()")
              else match run (CallFunction inst (Entry r)) s with
                   | (s, None) => (s, Err (match err s with Some e => e | None => "avm: contract trapped" end))
                   | (s, Some _) => (s, Ok ())
                   end
          end
      end
  end.

(** The result of the source's [Execute] is both the record and the error. *)
Definition Execute (e : Engine S) (r0 : ExecutionRequest) : Engine S * ExecutionResult * result () :=
  let r := if bool_decide (Entry r0 = []) then
             mkRequest (ContractID r0) (Code r0) (bytes_of_string "run") (Input r0) (GasLimit r0) (ReadOnly r0) (AccessList r0)
           else r0 in
  if MaxInputSize <? Avm.zlen (Input r) then (e, emptyResult, Err "avm: input is too large")
  else match ValidateModule (Code r) with
  | Err m => (e, emptyResult, Err m)
  | Ok report =>
      let res0 := mkResult 0 [] 0 report in
      match foldM declare ∅ (AccessList r) with
      | Err m => (e, res0, Err m)
      | Ok acc =>
          let '(s, ok) := charge (StaticGas report +w Avm.zlen (Input r)) (newSession r (store e) acc) in
          if negb ok then (e, mkResult (GasLimit r) [] 0 report, Err ErrOutOfGas)
          else if negb (open e) then (e, res0, Err "avm: engine is closed")
          else
            let '(s, outcome) := execute_module r s in
            match outcome with
            | Err m => (e, mkResult (gasUsed s) [] 0 report, Err m)
            | Ok _ =>
                let writes := orderedWrites (state s) in
                let res := mkResult (gasUsed s) (output s) (Avm.zlen writes) report in
                if ReadOnly r then (e, res, if bool_decide (writes = []) then Ok () else Err ErrReadOnlyWrite)
                else match Apply writes (store e) with
                     | Err _ => (e, res, Err "avm: commit state")
                     | Ok st => (mkEngine st (open e), res, Ok ())
                     end
            end
      end
  end.

End Execute.

(** ** The session invariant *)

(** What a staged write cost at least. *)
Definition write_cost (w : list byte * option (list byte)) : Z :=
  GasStateWrite + (Avm.zlen w.1 - 33) + Avm.zlen (default [] w.2).
Definition writes_cost (m : gmap (list byte) (option (list byte))) : Z := sumZ write_cost (map_to_list m).

Lemma writes_cost_insert k v m : m !! k = None -> writes_cost (<[k := v]> m) = write_cost (k, v) + writes_cost m.
Proof. intros Hk. unfold writes_cost. by rewrite (sumZ_Permutation _ _ _ (map_to_list_insert m k v Hk)). Qed.

Lemma contract_prefix_length id : length (contract_prefix id) = 33%nat.
Proof. unfold contract_prefix. by rewrite length_app, arr_length. Qed.

Lemma zlen_nonneg {A} (l : list A) : 0 <= Avm.zlen l.
Proof. unfold Avm.zlen. lia. Qed.

Section Invariant.
Context {S : Type} `{Store S} `{GuestMemory}.
Variables (r : ExecutionRequest) (st : S) (acc : gmap (list byte) bool) (start : Z).
Hypothesis (Hlimit : is_u64 (GasLimit r)).

Definition good_write (k : list byte) (v : option (list byte)) : Prop :=
  exists key value, k = contract_prefix (ContractID r) ++ key /\ v = Some value /\ acc !! key = Some true /\
    valid_key key = true /\ Avm.zlen value <= MaxStateValue.

Lemma good_write_cost k v : good_write k v -> GasStateWrite <= write_cost (k, v).
Proof.
  intros (key & value & -> & -> & _). unfold write_cost. cbn [fst snd default].
  assert (Hv := zlen_nonneg value). unfold Avm.zlen. rewrite length_app, contract_prefix_length. lia.
Qed.

Record session_ok (s : executionSession S) : Prop := {
  so_request : request s = r;
  so_base : ts_base (state s) = st;
  so_prefix : prefix (state s) = contract_prefix (ContractID r);
  so_access : access s = acc;
  so_start : 0 <= start;
  so_gas : start <= gasUsed s <= GasLimit r;
  so_writes : forall k v, ts_writes (state s) !! k = Some v -> good_write k v;
  so_readonly : ReadOnly r = true -> ts_writes (state s) = ∅;
  so_paid : writes_cost (ts_writes (state s)) <= gasUsed s - start
}.

(** Replacing a staged write costs no more than adding it. *)
Lemma writes_cost_put k v m : (forall k v, m !! k = Some v -> good_write k v) ->
  writes_cost (<[k := v]> m) <= write_cost (k, v) + writes_cost m.
Proof.
  intros Hm. destruct (m !! k) as [v0|] eqn:E; [|by rewrite writes_cost_insert].
  rewrite <- insert_delete_eq, writes_cost_insert by apply lookup_delete_eq.
  assert (Ho := good_write_cost _ _ (Hm k v0 E)). unfold GasStateWrite in Ho.
  rewrite <- (insert_id m k v0 E) at 2. rewrite <- (insert_delete_eq m), writes_cost_insert by apply lookup_delete_eq. lia.
Qed.

Lemma charge_ok amount s s' ok : session_ok s -> 0 <= amount -> charge amount s = (s', ok) ->
  session_ok s' /\ state s' = state s /\ (ok = true -> gasUsed s' = gasUsed s + amount).
Proof.
  intros [Hr Hb Hp Ha Hz Hg Hw Hro Hpaid] Hamt. unfold charge. rewrite Hr. unfold is_u64 in Hlimit.
  rewrite wrap64_small by u64lia. destruct (Z.ltb_spec (GasLimit r - gasUsed s) amount); intros [= <- <-].
  - split; [|done]. split; cbn; try done; lia.
  - rewrite wrap64_small by u64lia. split; [|done]. split; cbn; try done; lia.
Qed.

Lemma fail_ok e s : session_ok s -> session_ok (fail e s).
Proof. intros [Hr Hb Hp Ha Hz Hg Hw Hro Hpaid]. unfold fail. destruct (err s); split; done. Qed.

Lemma output_ok o s : session_ok s -> session_ok (with_output o s).
Proof. intros [Hr Hb Hp Ha Hz Hg Hw Hro Hpaid]. split; done. Qed.

Lemma write_out_ok m p c v e s : session_ok s -> session_ok (write_out m p c v e s).1.
Proof.
  intros Hs. unfold write_out, failed. destruct (_ <? _); [by apply fail_ok|]. destruct m; [|done].
  destruct (mem_Write _ _ _); [done|by apply fail_ok].
Qed.

(** A state write was charged, on top of the gas before, for its key and value. *)
Lemma put_ok key value s : session_ok s -> access s !! key = Some true -> valid_key key = true ->
  Avm.zlen value <= MaxStateValue -> ReadOnly (request s) = false ->
  writes_cost (ts_writes (state s)) + GasStateWrite + Avm.zlen key + Avm.zlen value <= gasUsed s - start ->
  session_ok (with_state (ts_put (state s) key value) s).
Proof.
  intros [Hr Hb Hp Ha Hz Hg Hw Hro Hpaid] Hk Hv Hl Hr0 Hc. rewrite Ha in Hk. rewrite Hr in Hr0.
  assert (Hgood : good_write (namespaced (state s) key) (Some value)).
  { exists key, value. unfold namespaced. by rewrite Hp. }
  split; cbn; try done.
  - intros k v. destruct (decide (k = namespaced (state s) key)) as [->|Hne].
    + rewrite lookup_insert_eq. by intros [= <-].
    + rewrite lookup_insert_ne by done. apply Hw.
  - congruence.
  - assert (Hput := writes_cost_put (namespaced (state s) key) (Some value) _ Hw).
    assert (Hcost : write_cost (namespaced (state s) key, Some value) = GasStateWrite + Avm.zlen key + Avm.zlen value).
    { unfold write_cost, namespaced. simpl. rewrite Hp. unfold Avm.zlen. rewrite length_app, contract_prefix_length. lia. }
    lia.
Qed.

Lemma wrap32_range x : is_u32 (wrap32 x).
Proof. apply Z.mod_pos_bound. lia. Qed.

Lemma host_state_write_ok kp kl vp vl m s : session_ok s -> is_u32 kl -> is_u32 vl ->
  session_ok (host_state_write kp kl vp vl m s).1.
Proof.
  intros Hs Hkl Hvl. unfold host_state_write. 
  assert (Hamt : GasStateWrite +w kl +w vl = 100 + kl + vl).
  { unfold GasStateWrite. rewrite (wrap64_small (100 + kl)) by u64lia. apply wrap64_small. u64lia. }
  assert (Hnn : 0 <= 100 + kl + vl) by u64lia. rewrite Hamt.
  destruct (charge _ s) as [s' ok] eqn:Ec. destruct (charge_ok _ _ _ _ Hs Hnn Ec) as (Hs' & Hst & Hg).
  destruct ok; cbn [negb]; [|by apply fail_ok]. specialize (Hg eq_refl).
  destruct (ReadOnly (request s')) eqn:Er; [by apply fail_ok|].
  destruct (readMemory m kp kl) as [key|] eqn:Ek; [|by apply fail_ok].
  destruct (readMemory m vp vl) as [value|] eqn:Ev; [|by apply fail_ok].
  destruct (_ || _) eqn:Eb; [by apply fail_ok|]. zbool.
  destruct (access s' !! key) as [[]|] eqn:Ea; [|by apply fail_ok|by apply fail_ok].
  cbn [fst]. apply put_ok; try done.
  assert (Hlen : forall q n l, readMemory m q n = Some l -> Avm.zlen l = n).
  { intros q n l. unfold readMemory. destruct m as [m0|]; [|done]. apply mem_Read_length. }
  rewrite (Hlen _ _ _ Ek), (Hlen _ _ _ Ev), Hst. assert (Hpaid := so_paid s Hs). unfold GasStateWrite. lia.
Qed.

Lemma host_call_ok c m s : session_ok s -> session_ok (host_call c m s).1.
Proof.
  intros Hs. destruct c as [a|kp kl op oc|kp kl vp vl|op oc|p n]; cbn [host_call].
  - destruct (charge _ s) as [s' ok] eqn:Ec.
    destruct (charge_ok _ _ _ _ Hs (proj1 (wrap64_range a)) Ec) as (Hs' & _). destruct ok; [done|by apply fail_ok].
  - unfold host_state_read. destruct (charge _ s) as [s' ok] eqn:Ec.
    destruct (charge_ok _ _ _ _ Hs (proj1 (wrap64_range _)) Ec) as (Hs' & _).
    destruct ok; cbn [negb]; [|by apply fail_ok]. destruct (readMemory _ _ _) as [key|]; [|by apply fail_ok].
    destruct (valid_key key); [|by apply fail_ok]. destruct (access s' !! key); [|by apply fail_ok].
    destruct (ts_get _ _) as [[v|]|]; [by apply write_out_ok|done|by apply fail_ok].
  - apply host_state_write_ok; [done|apply wrap32_range|apply wrap32_range].
  - unfold host_input_read. destruct (charge _ s) as [s' ok] eqn:Ec.
    destruct (charge_ok _ _ _ _ Hs (proj1 (wrap64_range _)) Ec) as (Hs' & _).
    destruct ok; cbn [negb]; [|by apply fail_ok]. by apply write_out_ok.
  - unfold host_output_write. destruct (charge _ s) as [s' ok] eqn:Ec.
    destruct (charge_ok _ _ _ _ Hs (proj1 (wrap64_range _)) Ec) as (Hs' & _).
    destruct ok; cbn [negb]; [|by apply fail_ok]. destruct (_ <? _); [by apply fail_ok|].
    destruct (readMemory _ _ _) as [o|]; [by apply output_ok|by apply fail_ok].
Qed.

Lemma run_ok {A} (g : Guest A) : forall s, session_ok s -> session_ok (run g s).1.
Proof.
  induction g as [a| |c m k IH]; intros s Hs; [done|done|]. cbn [run]. assert (Hc := host_call_ok c m s Hs).
  destruct (host_call c m s) as [s' [[v m']|]]; [by apply IH|done].
Qed.

End Invariant.

(** ** Executions *)

Lemma declare_fold l : forall m acc, foldM declare m l = Ok acc ->
  forall k w, acc !! k = Some w -> m !! k = Some w \/ mkAccess k w ∈ l.
Proof.
  induction l as [|a l IH]; intros m acc Hf k w Hk; cbn [foldM] in Hf; [apply Ok_inj in Hf as <-; by left|].
  apply bind_ok in Hf as (m1 & Hd & Hf). unfold declare in Hd. apply reject_ok in Hd as (_ & Hd). apply reject_ok in Hd as (_ & Hd).
  apply Ok_inj in Hd as <-. destruct (IH _ _ Hf k w Hk) as [Hl|Hl]; [|right; by right].
  destruct (decide (k = a_Key a)) as [->|Hne].
  - rewrite lookup_insert_eq in Hl. injection Hl as <-. right. destruct a. by left.
  - rewrite lookup_insert_ne in Hl by done. by left.
Qed.

Definition with_entry (r : ExecutionRequest) : ExecutionRequest :=
  if bool_decide (Entry r = []) then
    mkRequest (ContractID r) (Code r) (bytes_of_string "run") (Input r) (GasLimit r) (ReadOnly r) (AccessList r)
  else r.

Lemma with_entry_fields r : ContractID (with_entry r) = ContractID r /\ Code (with_entry r) = Code r /\ Input (with_entry r) = Input r /\
  GasLimit (with_entry r) = GasLimit r /\ ReadOnly (with_entry r) = ReadOnly r /\ AccessList (with_entry r) = AccessList r.
Proof. unfold with_entry. by case_bool_decide. Qed.

Section Results.
Context {S : Type} `{LawfulStore S} `{WasmDecoder} `{WasmRuntime}.

Lemma newSession_ok r (st : S) acc : is_u64 (GasLimit r) -> session_ok r st acc 0 (newSession r st acc).
Proof.
  intros Hl. unfold is_u64 in Hl. split; try done; cbn; try lia; try (intros k v; by rewrite lookup_empty).
Qed.

(** A session whose gas is above a new start keeps the invariant from there on, while
    nothing is staged. *)
Lemma session_restart r (st : S) acc s : session_ok r st acc 0 s -> ts_writes (state s) = ∅ -> session_ok r st acc (gasUsed s) s.
Proof.
  intros [Hr Hb Hp Ha Hz Hg Hw Hro Hpaid] He. split; try done; [lia..|]. rewrite He. unfold writes_cost.
  rewrite map_to_list_empty. cbn. lia.
Qed.

Lemma execute_module_ok r (st : S) acc start s s' o : is_u64 (GasLimit r) -> session_ok r st acc start s ->
  execute_module r s = (s', o) -> (o = Ok () -> session_ok r st acc start s') /\ (gasUsed s' = 0 \/ start <= gasUsed s' <= GasLimit r).
Proof.
  intros Hl Hs. unfold execute_module. destruct (CompileModule (Code r)) as [cm|]; [|intros [= <- <-]; split; [done|by left]].
  assert (Hr1 := run_ok r st acc start Hl (InstantiateModule cm) s Hs).
  destruct (run (InstantiateModule cm) s) as [s1 [inst|]]; [|intros [= <- <-]; split; [done|by left]].
  destruct (ExportedFunction inst (Entry r)) as [[p q]|]; [|intros [= <- <-]; split; [done|by left]].
  destruct (_ || _); [intros [= <- <-]; split; [done|by left]|].
  assert (Hr2 := run_ok r st acc start Hl (CallFunction inst (Entry r)) s1 Hr1).
  destruct (run (CallFunction inst (Entry r)) s1) as [s2 [u|]]; intros [= <- <-].
  - split; [done|]. right. apply (so_gas _ _ _ _ _ Hr2).
  - split; [done|]. right. apply (so_gas _ _ _ _ _ Hr2).
Qed.

(** What a finished execution is: an error leaves the engine as it was; a success was
    charged, ran in a good session, and committed exactly its staged writes. *)
Lemma Execute_ok e r e' res : is_u64 (GasLimit r) -> Execute (S := S) e r = (e', res, Ok ()) ->
  exists report acc s, ValidateModule (Code r) = Ok report /\ foldM declare ∅ (AccessList r) = Ok acc /\
    session_ok (with_entry r) (store e) acc (StaticGas report +w Avm.zlen (Input r)) s /\
    GasUsed res = gasUsed s /\ ReturnData res = output s /\ StateWrites res = Avm.zlen (orderedWrites (state s)) /\
    Avm.zlen (Input r) <= MaxInputSize /\ open e' = open e /\
    if ReadOnly r then e' = e /\ ts_writes (state s) = ∅ else Apply (orderedWrites (state s)) (store e) = Ok (store e').
Proof.
  intros Hl. unfold Execute. fold (with_entry r). destruct (with_entry_fields r) as (Eid & Ecode & Ein & Eg & Ero & Eal).
  rewrite Ecode, Ein, Eg, Ero, Eal. destruct (Z.ltb_spec MaxInputSize (Avm.zlen (Input r))); [done|].
  destruct (ValidateModule (Code r)) as [report|] eqn:Ev; [|done].
  destruct (foldM declare ∅ (AccessList r)) as [acc|] eqn:Ea; [|done].
  assert (Hl' : is_u64 (GasLimit (with_entry r))) by by rewrite Eg.
  destruct (charge _ _) as [s0 ok] eqn:Ec.
  destruct (charge_ok (with_entry r) (store e) acc 0 Hl' _ _ _ _ (newSession_ok _ _ acc Hl') (proj1 (wrap64_range _)) Ec)
    as (Hs0 & Hst & Hg). destruct ok; cbn [negb]; [|done]. specialize (Hg eq_refl).
  assert (Hs1 : session_ok (with_entry r) (store e) acc (StaticGas report +w Avm.zlen (Input r)) s0).
  { replace (StaticGas report +w Avm.zlen (Input r)) with (gasUsed s0) by (rewrite Hg; cbn; lia). apply session_restart; [done|].
    by rewrite Hst. }
  destruct (open e) eqn:Eo; [|done]. cbn [negb].
  destruct (execute_module (with_entry r) s0) as [s o] eqn:Em.
  destruct (execute_module_ok _ _ _ _ _ _ _ Hl' Hs1 Em) as (Hs & _). destruct o as [[]|m]; [|done]. specialize (Hs eq_refl).
  destruct (ReadOnly r) eqn:Er.
  - assert (Hn := so_readonly _ _ _ _ _ Hs Ero). intros [= <- <- _]. exists report, acc, s. by split_and!.
  - destruct (Apply _ _) as [st'|] eqn:Ep; [|done]. intros [= <- <-]. exists report, acc, s. by split_and!.
Qed.

Lemma Execute_err e r e' res m : Execute (S := S) e r = (e', res, Err m) -> e' = e.
Proof.
  unfold Execute. destruct (_ <? _); [by intros [= <-]|]. destruct (ValidateModule _); [|by intros [= <-]].
  destruct (foldM _ _ _); [|by intros [= <-]]. destruct (charge _ _) as [s0 []]; cbn [negb]; [|by intros [= <-]].
  destruct (open e); cbn [negb]; [|by intros [= <-]].
  destruct (execute_module _ s0) as [s [[]|]]; [|by intros [= <-]].
  destruct (ReadOnly _); [case_bool_decide; [done|by intros [= <-]]|]. destruct (Apply _ _); [done|by intros [= <-]].
Qed.

Lemma orderedWrites_cost r (st : S) acc start s : session_ok r st acc start s ->
  Avm.zlen (orderedWrites (state s)) * GasStateWrite <= gasUsed s - start /\
  no_empty (orderedWrites (state s)) = true /\
  forall w, w ∈ orderedWrites (state s) -> good_write r acc (Key w) (Value w).
Proof.
  intros Hs. assert (Hgood : forall w, w ∈ orderedWrites (state s) -> good_write r acc (Key w) (Value w)).
  { intros w Hw. apply elem_of_ordered in Hw. apply (so_writes _ _ _ _ _ Hs _ _ Hw). }
  split_and!; [|apply no_empty_ordered|done].
  - assert (Hp := so_paid _ _ _ _ _ Hs). unfold Avm.zlen, orderedWrites. rewrite ordered_length.
    rewrite <- length_map_to_list. unfold writes_cost in Hp.
    assert (Hall : forall kv, kv ∈ map_to_list (ts_writes (state s)) -> GasStateWrite <= write_cost kv).
    { intros [k v] Hkv. apply elem_of_map_to_list in Hkv. apply (good_write_cost r acc). by apply (so_writes _ _ _ _ _ Hs). }
    revert Hp. generalize (gasUsed s - start). induction (map_to_list (ts_writes (state s))) as [|kv l IH]; intros z Hp; [cbn in *; lia|].
    cbn [sumZ length] in *. assert (Hk := Hall kv ltac:(left)).
    assert (Hrest := IH ltac:(intros; apply Hall; by right) (z - write_cost kv) ltac:(lia)). lia.
  - destruct (ts_writes (state s) !! []) as [v|] eqn:E; [|done].
    destruct (so_writes _ _ _ _ _ Hs _ _ E) as (key & value & Ek & _). apply (f_equal length) in Ek.
    rewrite length_app, contract_prefix_length in Ek. done.
Qed.

Lemma Execute_confined (e e' : Engine S) (r : ExecutionRequest) (res : ExecutionResult) (o : result ()) :
  is_u64 (GasLimit r) -> Execute e r = (e', res, o) ->
  match o with
  | Err _ => e' = e
  | Ok _ =>
      (forall k, k <> [] -> view (store e') k <> view (store e) k -> ReadOnly r = false /\
         exists key value, k = contract_prefix (ContractID r) ++ key /\ mkAccess key true ∈ AccessList r /\
           view (store e') k = Some value /\ Avm.zlen value <= MaxStateValue) /\
      exists report, ValidateModule (Code r) = Ok report /\
        (StaticGas report +w Avm.zlen (Input r)) + StateWrites res * GasStateWrite <= GasUsed res <= GasLimit r
  end.
Proof.
  intros Hl He. destruct o as [[]|m]; [|by apply Execute_err in He].
  apply Execute_ok in He as (report & acc & s & Hv & Ha & Hs & Eg & _ & Ew & _ & _ & Hc); [|done].
  destruct (orderedWrites_cost _ _ _ _ _ Hs) as (Hcost & Hne & Hgood).
  destruct (with_entry_fields r) as (Eid & _ & _ & Elim & _). assert (Hg := so_gas _ _ _ _ _ Hs). rewrite Elim in Hg.
  split; [|exists report; split; [done|]; rewrite Eg, Ew; lia].
  intros k Hk Hd. destruct (ReadOnly r) eqn:Er; [by destruct Hc as [-> _]|]. split; [done|].
  destruct (Apply_view (orderedWrites (state s)) (store e) Hne) as (st' & Ha' & Hview). rewrite Hc in Ha'.
  apply Ok_inj in Ha' as <-. rewrite (Hview k Hk) in *. unfold orderedWrites in *. rewrite upds_ordered in *.
  destruct (ts_writes (state s) !! k) as [v|] eqn:E; [|done].
  destruct (so_writes _ _ _ _ _ Hs _ _ E) as (key & value & -> & -> & Hacc & _ & Hlen). rewrite Eid in *.
  exists key, value. split_and!; try done. destruct (declare_fold _ _ _ Ha _ _ Hacc) as [Hx|Hx]; [by rewrite lookup_empty in Hx|done].
Qed.

(** C21: A contract call is confined: an execution that fails leaves the state as it was, and
    one that succeeds changes only keys of its own contract that its access list
    declares writable, stays within its gas limit, and has paid its static gas, its
    input and every state write. *)
Theorem execution_confined (e e' : Engine S) (r : ExecutionRequest) (res : ExecutionResult) (o : result ()) :
  is_u64 (GasLimit r) -> Execute e r = (e', res, o) ->
  match o with
  | Err _ => e' = e
  | Ok _ =>
      (forall k, k <> [] -> view (store e') k <> view (store e) k -> ReadOnly r = false /\
         exists key value, k = contract_prefix (ContractID r) ++ key /\ mkAccess key true ∈ AccessList r /\
           view (store e') k = Some value /\ Avm.zlen value <= MaxStateValue) /\
      exists report, ValidateModule (Code r) = Ok report /\
        (StaticGas report +w Avm.zlen (Input r)) + StateWrites res * GasStateWrite <= GasUsed res <= GasLimit r
  end.
Proof. apply Execute_confined. Qed.

End Results.

(** ** Executions on different stores *)

Section Simulation.
Context {S T : Type} `{Store S} `{Store T} `{GuestMemory}.
Variables (r : ExecutionRequest) (acc : gmap (list byte) bool).

(** The stores answer the declared reads of the contract alike. *)
Definition agree (a : S) (b : T) : Prop := forall key, is_Some (acc !! key) ->
  Get a (contract_prefix (ContractID r) ++ key) = Get b (contract_prefix (ContractID r) ++ key).

(** Two sessions that differ in their base store only. *)
Record sim (s : executionSession S) (t : executionSession T) : Prop := {
  sim_request : request s = request t;
  sim_prefix : prefix (state s) = contract_prefix (ContractID r) /\ prefix (state t) = contract_prefix (ContractID r);
  sim_writes : ts_writes (state s) = ts_writes (state t);
  sim_gas : gasUsed s = gasUsed t;
  sim_output : output s = output t;
  sim_err : err s = err t;
  sim_access : access s = acc /\ access t = acc;
  sim_base : agree (ts_base (state s)) (ts_base (state t))
}.

(** The outcomes of a host function in two such sessions. *)
Definition sim_outcome (x : outcome S) (y : outcome T) : Prop := sim x.1 y.1 /\ x.2 = y.2.

Ltac sims := split; cbn; try done; congruence.

Lemma charge_sim a s t : sim s t -> sim (charge a s).1 (charge a t).1 /\ (charge a s).2 = (charge a t).2.
Proof.
  intros Hs. pose proof Hs as [Hr [Hp Hq] Hw Hg Ho He [Ha Hb] Hbase]. unfold charge. rewrite Hr, Hg.
  destruct (_ <? _); (split; [sims|done]).
Qed.

Lemma failed_sim e s t : sim s t -> sim_outcome (failed e s) (failed e t).
Proof.
  intros Hs. pose proof Hs as [Hr [Hp Hq] Hw Hg Ho He [Ha Hb] Hbase]. unfold failed, fail, sim_outcome. rewrite He.
  destruct (err t); (split; [first [exact Hs|sims]|done]).
Qed.

Lemma write_out_sim m p c v e s t : sim s t -> sim_outcome (write_out m p c v e s) (write_out m p c v e t).
Proof.
  intros Hs. unfold write_out. destruct (_ <? _); [by apply failed_sim|]. destruct m; [|done].
  destruct (mem_Write _ _ _); [done|by apply failed_sim].
Qed.

Lemma ts_get_sim key s t : sim s t -> is_Some (acc !! key) -> ts_get (state s) key = ts_get (state t) key.
Proof.
  intros [_ [Hp Hq] Hw _ _ _ _ Hbase] Hk. unfold ts_get, namespaced. rewrite Hw, Hp, Hq.
  destruct (ts_writes (state t) !! _); [done|]. by apply Hbase.
Qed.

Lemma put_sim key v s t : sim s t -> sim (with_state (ts_put (state s) key v) s) (with_state (ts_put (state t) key v) t).
Proof.
  intros [Hr [Hp Hq] Hw Hg Ho He [Ha Hb] Hbase]. split; try done. cbn. unfold namespaced. by rewrite Hw, Hp, Hq.
Qed.

Lemma host_call_sim c m s t : sim s t -> sim_outcome (host_call c m s) (host_call c m t).
Proof.
  intros Hs. destruct c as [a|kp kl op oc|kp kl vp vl|op oc|p n]; cbn [host_call];
    unfold host_state_read, host_state_write, host_input_read, host_output_write.
  - destruct (charge_sim (wrap64 a) s t Hs) as [Hc Eo]. destruct (charge _ s) as [s' ok], (charge _ t) as [t' ok']. cbn in Hc, Eo.
    subst ok'. destruct ok; [done|by apply failed_sim].
  - destruct (charge_sim (GasStateRead +w wrap32 kl) s t Hs) as [Hc Eo].
    destruct (charge _ s) as [s' ok], (charge _ t) as [t' ok']. cbn in Hc, Eo. subst ok'.
    destruct ok; cbn [negb]; [|by apply failed_sim]. destruct (readMemory _ _ _) as [key|]; [|by apply failed_sim].
    destruct (valid_key key); [|by apply failed_sim]. cbn [negb]. destruct (sim_access _ _ Hc) as [Ea Eb]. rewrite Ea, Eb.
    destruct (acc !! key) eqn:Ek; [|by apply failed_sim]. rewrite (ts_get_sim key s' t' Hc) by by rewrite Ek.
    destruct (ts_get (state t') key) as [[v|]|]; [by apply write_out_sim|done|by apply failed_sim].
  - destruct (charge_sim (GasStateWrite +w wrap32 kl +w wrap32 vl) s t Hs) as [Hc Eo].
    destruct (charge _ s) as [s' ok], (charge _ t) as [t' ok']. cbn in Hc, Eo. subst ok'.
    destruct ok; cbn [negb]; [|by apply failed_sim]. rewrite (sim_request _ _ Hc).
    destruct (ReadOnly _); [by apply failed_sim|]. destruct (readMemory m _ _) as [key|]; [|by apply failed_sim].
    destruct (readMemory m _ _) as [value|]; [|by apply failed_sim]. destruct (_ || _); [by apply failed_sim|].
    destruct (sim_access _ _ Hc) as [Ea Eb]. rewrite Ea, Eb.
    destruct (acc !! key) as [[]|]; [|by apply failed_sim|by apply failed_sim]. split; [by apply put_sim|done].
  - rewrite (sim_request _ _ Hs). destruct (charge_sim (GasInputRead +w Avm.zlen (Input (request t))) s t Hs) as [Hc Eo].
    destruct (charge _ s) as [s' ok], (charge _ t) as [t' ok']. cbn in Hc, Eo. subst ok'.
    destruct ok; cbn [negb]; [|by apply failed_sim]. rewrite (sim_request _ _ Hc). by apply write_out_sim.
  - destruct (charge_sim (GasOutputWrite +w wrap32 n) s t Hs) as [Hc Eo].
    destruct (charge _ s) as [s' ok], (charge _ t) as [t' ok']. cbn in Hc, Eo. subst ok'.
    destruct ok; cbn [negb]; [|by apply failed_sim]. destruct (_ <? _); [by apply failed_sim|].
    destruct (readMemory _ _ _) as [o|]; [|by apply failed_sim].
    split; [|done]. destruct Hc as [Hr [Hp Hq] Hw Hg Ho He [Ha Hb] Hbase]. sims.
Qed.

Lemma run_sim {A} (g : Guest A) : forall s t, sim s t -> sim (run g s).1 (run g t).1 /\ (run g s).2 = (run g t).2.
Proof.
  induction g as [a| |c m k IH]; intros s t Hs; [done|done|]. cbn [run]. destruct (host_call_sim c m s t Hs) as [Hc Ho].
  destruct (host_call c m s) as [s' o], (host_call c m t) as [t' o']. cbn in Hc, Ho. subst o'.
  destruct o as [[v m']|]; [by apply IH|done].
Qed.

Lemma with_gas_sim g s t : sim s t -> sim (with_gas g s) (with_gas g t).
Proof. intros [Hr [Hp Hq] Hw Hg Ho He [Ha Hb] Hbase]. sims. Qed.

Context `{!WasmRuntime}.

Lemma execute_module_sim s t : sim s t ->
  sim (execute_module r s).1 (execute_module r t).1 /\ (execute_module r s).2 = (execute_module r t).2.
Proof.
  intros Hs. unfold execute_module. destruct (CompileModule (Code r)) as [cm|]; [|split; [by apply with_gas_sim|done]].
  destruct (run_sim (InstantiateModule cm) s t Hs) as [Hx Eo].
  destruct (run (InstantiateModule cm) s) as [s1 o], (run (InstantiateModule cm) t) as [t1 o']. cbn in Hx, Eo. subst o'.
  destruct o as [inst|]; [|split; [by apply with_gas_sim|done]].
  destruct (ExportedFunction inst (Entry r)) as [[p q]|]; [|split; [by apply with_gas_sim|done]].
  destruct (_ || _); [split; [by apply with_gas_sim|done]|].
  destruct (run_sim (CallFunction inst (Entry r)) s1 t1 Hx) as [Hy Eo].
  destruct (run _ s1) as [s2 o], (run _ t1) as [t2 o']. cbn in Hy, Eo. subst o'.
  destruct o; [done|]. split; [done|]. cbn. by rewrite (sim_err _ _ Hy).
Qed.

End Simulation.

Section Isolation.
Context {S T : Type} `{LawfulStore S} `{LawfulStore T} `{WasmDecoder} `{WasmRuntime}.

(** The stores hold the same under every key the request declares. *)
Definition agree_declared (r : ExecutionRequest) (f g : list byte -> option (list byte)) : Prop :=
  forall a, a ∈ AccessList r -> f (contract_prefix (ContractID r) ++ a_Key a) = g (contract_prefix (ContractID r) ++ a_Key a).

Lemma prefixed_not_empty id key : contract_prefix id ++ key <> [].
Proof. intros E. apply (f_equal length) in E. rewrite length_app, contract_prefix_length in E. done. Qed.

(** What two calls have in common: either neither engine changed, or both committed the
    same write set. *)
Definition same_commit (e1 e1' : Engine S) (e2 e2' : Engine T) : Prop :=
  (e1' = e1 /\ e2' = e2) \/
  exists ws, no_empty ws = true /\ Apply ws (store e1) = Ok (store e1') /\ Apply ws (store e2) = Ok (store e2') /\
    open e1' = open e1 /\ open e2' = open e2.

(** Both calls returned without a commit. *)
Ltac unchanged X1 X2 := injection X1 as <- <- <-; injection X2 as <- <- <-; split_and!; try done; by left.

Lemma Execute_agree (e1 e1' : Engine S) (e2 e2' : Engine T) r res1 res2 o1 o2 :
  open e1 = open e2 -> agree_declared r (view (store e1)) (view (store e2)) ->
  Execute e1 r = (e1', res1, o1) -> Execute e2 r = (e2', res2, o2) ->
  res1 = res2 /\ o1 = o2 /\ same_commit e1 e1' e2 e2'.
Proof.
  intros Hopen Hagree X1 X2.
  unfold Execute in X1, X2. fold (with_entry r) in X1, X2. destruct (with_entry_fields r) as (Eid & Ecode & Ein & Eg & Ero & Eal).
  rewrite Ecode, Ein, Eg, Ero, Eal in X1, X2.
  destruct (_ <? _); [by unchanged X1 X2|]. destruct (ValidateModule (Code r)) as [report|m]; [|by unchanged X1 X2].
  destruct (foldM declare ∅ (AccessList r)) as [acc|m] eqn:Ea; [|by unchanged X1 X2].
  assert (Hsim : sim (with_entry r) acc (newSession (with_entry r) (store e1) acc) (newSession (with_entry r) (store e2) acc)).
  { split; try done. cbn. intros key [w Hk]. rewrite !Get_view by apply prefixed_not_empty. f_equal. rewrite Eid.
    destruct (declare_fold _ _ _ Ea _ _ Hk) as [Hx|Hx]; [by rewrite lookup_empty in Hx|]. apply (Hagree _ Hx). }
  destruct (charge_sim _ _ (StaticGas report +w Avm.zlen (Input r)) _ _ Hsim) as [Hc Eo].
  destruct (charge _ _) as [s ok]. destruct (charge _ _) as [t ok']. cbn in Hc, Eo. subst ok'.
  destruct ok; cbn [negb] in X1, X2; [|by unchanged X1 X2]. rewrite <- Hopen in X2.
  destruct (open e1) eqn:Eop; cbn [negb] in X1, X2; [|by unchanged X1 X2].
  destruct (execute_module_sim _ _ _ _ Hc) as [Hm Eo].
  destruct (execute_module (with_entry r) s) as [s1 o]. destruct (execute_module (with_entry r) t) as [t1 o']. cbn in Hm, Eo. subst o'.
  rewrite <- (sim_gas _ _ _ _ Hm), <- (sim_output _ _ _ _ Hm) in X2.
  assert (Ew : orderedWrites (state t1) = orderedWrites (state s1)) by (unfold orderedWrites; by rewrite (sim_writes _ _ _ _ Hm)).
  rewrite Ew in X2. destruct o as [[]|m]; [|by unchanged X1 X2]. destruct (ReadOnly r); [by unchanged X1 X2|].
  destruct (no_empty (orderedWrites (state s1))) eqn:En.
  - destruct (Apply_view _ (store e1) En) as (a & Ha & _). destruct (Apply_view _ (store e2) En) as (b & Hb & _).
    rewrite Ha in X1. rewrite Hb in X2. injection X1 as <- <- <-. injection X2 as <- <- <-. split_and!; try done.
    right. exists (orderedWrites (state s1)). by rewrite <- Hopen.
  - assert (F1 := Apply_empty _ (store e1) En). assert (F2 := Apply_empty _ (store e2) En).
    destruct (Apply _ (store e1)); [done|]. destruct (Apply _ (store e2)); [done|]. by unchanged X1 X2.
Qed.

(** C28: Contracts are isolated: the outcome of a call is a function of the request and of
    the declared keys of the contract alone.  On two stores of any kind that agree on
    those keys, the call returns the same result and error and makes the same writes. *)
Theorem execution_isolated (e1 e1' : Engine S) (e2 e2' : Engine T) (r : ExecutionRequest)
    (res1 res2 : ExecutionResult) (o1 o2 : result ()) :
  open e1 = open e2 -> agree_declared r (view (store e1)) (view (store e2)) ->
  Execute e1 r = (e1', res1, o1) -> Execute e2 r = (e2', res2, o2) ->
  res1 = res2 /\ o1 = o2 /\
  exists ws, same_view (view (store e1')) (upds (view (store e1)) ws) /\ same_view (view (store e2')) (upds (view (store e2)) ws).
Proof.
  intros Hopen Hagree X1 X2. destruct (Execute_agree _ _ _ _ _ _ _ _ _ Hopen Hagree X1 X2) as (Er & Eo & Hc).
  split; [done|]. split; [done|]. destruct Hc as [[-> ->]|(ws & Hw & Ha & Hb & _)]; [by exists []|].
  exists ws. destruct (Apply_view ws (store e1) Hw) as (x & Hx & Vx). destruct (Apply_view ws (store e2) Hw) as (y & Hy & Vy).
  rewrite Ha in Hx. rewrite Hb in Hy. apply Ok_inj in Hx as <-, Hy as <-. by split.
Qed.

End Isolation.

(** ** A concrete runtime *)

(** A memory is a list of bytes. *)
Definition toy_read (m : list byte) (p n : Z) : option (list byte) :=
  if (0 <=? p) && (0 <=? n) && (p + n <=? Avm.zlen m) then Some (take (Z.to_nat n) (drop (Z.to_nat p) m)) else None.
Definition toy_write (m : list byte) (p : Z) (v : list byte) : option (list byte) :=
  if (0 <=? p) && (p + Avm.zlen v <=? Avm.zlen m)
  then Some (take (Z.to_nat p) m ++ v ++ drop (Z.to_nat p + length v) m) else None.

Lemma toy_read_length m p n l : toy_read m p n = Some l -> Avm.zlen l = n.
Proof.
  unfold toy_read, Avm.zlen. destruct (_ && _) eqn:E; [|done]. intros [= <-]. rewrite length_take, length_drop. zbool. lia.
Qed.

#[local] Instance toy_memory : GuestMemory := {|
  Mem := list byte; mem_Read := toy_read; mem_Write := toy_write; mem_Read_length := toy_read_length |}.

(** Modules whose code is one function body with two imports. *)
#[local] Program Instance toy_decoder : WasmDecoder := {|
  DecodeModule := fun code => Some (mkModule [] []
    [Wasm.mkImport ExternTypeFunc (bytes_of_string "apro") (bytes_of_string "state_read");
     Wasm.mkImport ExternTypeFunc (bytes_of_string "apro") (bytes_of_string "state_write")] None [mkBody [] code]);
  ImportFuncCount := fun _ => 2 |}.
Next Obligation. intros m. cbn. u64lia. Qed.

(** A counter: it reads the byte under the key [k], if any, and stores it increased. *)
Definition counter (m : list byte) : Guest () :=
  GCall (state_read 0 1 1 1) (Some m) (fun n m' =>
    let v := match m' with Some [_; b] => byte_to_Z b | _ => 0 end in
    let next := if n =? noValue then 1 else v + 1 in
    GCall (state_write 0 1 1 1) (Some [x6b; byte_of_Z next]) (fun _ _ => GRet tt)).

#[local] Instance toy_runtime : WasmRuntime := {|
  Compiled := list byte; ModuleInstance := list byte; CompileModule := Some;
  InstantiateModule := GRet; ExportedFunction := fun _ _ => Some (O, O);
  CallFunction := fun _ _ => counter [x6b; x00] |}.

Definition ex_request (limit : Z) (declared : list Access) : ExecutionRequest :=
  mkRequest (copy_arr 32 [x09]) [x00; x0b] [] [] limit false declared.
Definition ex_declared : list Access := [mkAccess [x6b] true].
Definition ex_engine : Engine MemoryStore := NewEngine NewMemoryStore.
Definition ex_counted : Engine MemoryStore * ExecutionResult * result () := Execute ex_engine (ex_request 1000 ex_declared).

(** Two calls count to two; an undeclared key, or too little gas, fails. *)
Example counter_runs :
  ex_counted.2 = Ok () /\ GasUsed ex_counted.1.2 = 230 /\
  view (store ex_counted.1.1) (contract_prefix (copy_arr 32 [x09]) ++ [x6b]) = Some [x01] /\
  view (store (Execute ex_counted.1.1 (ex_request 1000 ex_declared)).1.1) (contract_prefix (copy_arr 32 [x09]) ++ [x6b]) = Some [x02] /\
  (Execute ex_engine (ex_request 1000 [])).2 = Err "avm: undeclared state read" /\
  (Execute ex_engine (ex_request 229 ex_declared)).2 = Err ErrOutOfGas.
Proof. split_and!; vm_compute; reflexivity. Qed.

Lemma ex_counted_ok : Execute ex_engine (ex_request 1000 ex_declared) = (ex_counted.1.1, ex_counted.1.2, Ok ()).
Proof. vm_compute. reflexivity. Qed.

Lemma ex_limit : is_u64 (GasLimit (ex_request 1000 ex_declared)).
Proof. change (is_u64 1000). u64lia. Qed.

Lemma execution_confined_witness :
  let r := ex_request 1000 ex_declared in
  exists report, ValidateModule (Code r) = Ok report /\
    (StaticGas report +w Avm.zlen (Input r)) + StateWrites ex_counted.1.2 * GasStateWrite <= GasUsed ex_counted.1.2 <= GasLimit r.
Proof.
  intros r. destruct (execution_confined ex_engine ex_counted.1.1 r ex_counted.1.2 (Ok ()) ex_limit ex_counted_ok) as [_ K].
  exact K.
Defined.

(** The same call on the database, next to foreign keys. *)
Definition ex_level : Engine LevelStore := NewEngine (mkLevel {[KeyValue.avmKey [x01] := [x02]]}).
Definition ex_on_level : Engine LevelStore * ExecutionResult * result () := Execute ex_level (ex_request 1000 ex_declared).

Lemma ex_on_level_ok : Execute ex_level (ex_request 1000 ex_declared) = (ex_on_level.1.1, ex_on_level.1.2, Ok ()).
Proof. vm_compute. reflexivity. Qed.

Lemma execution_isolated_witness : ex_counted.1.2 = ex_on_level.1.2.
Proof.
  assert (Ha : agree_declared (ex_request 1000 ex_declared) (view (store ex_engine)) (view (store ex_level))).
  { intros a Ha. apply list_elem_of_singleton in Ha as ->. vm_compute. reflexivity. }
  destruct (execution_isolated ex_engine ex_counted.1.1 ex_level ex_on_level.1.1 (ex_request 1000 ex_declared)
    ex_counted.1.2 ex_on_level.1.2 (Ok ()) (Ok ()) eq_refl Ha ex_counted_ok ex_on_level_ok) as (Er & _).
  exact Er.
Defined.

End AvmEngine.
