(* ===== verification/AvmBlock.v ===== *)
(** Contract transactions of a block: [avm/block_executor.go].

    A block is executed in an overlay over the canonical state; its effects are one sorted
    write set, which consensus commits with the block. *)

From stdpp Require Import base gmap list strings.
From S2P Require Import Prelude Bytes Crypto Avm Transaction Block KeyValue BlockStore BlockStoreProofs.
From S2P Require Import Wasm AvmState AvmEngine.
Import Transaction Block KeyValue Wasm AvmState AvmEngine.

Module AvmBlock.

Definition codePrefix : list byte := xff :: bytes_of_string "avm/c/".
Definition noncePrefix : list byte := xff :: bytes_of_string "avm/n/".
Definition receiptPrefix : list byte := xff :: bytes_of_string "avm/r/".

Definition contractCodeKey (contractID : Hash32) : list byte := codePrefix ++ arr_list contractID.
Definition signerNonceKey (signer : arr 32) : list byte := noncePrefix ++ arr_list signer.
Definition receiptKey (txHash : Hash32) : list byte := receiptPrefix ++ arr_list txHash.

Record Receipt := mkReceipt {
  r_TxHash : Hash32; r_ContractID : Hash32; r_GasUsed : Z; r_ReturnData : list byte; r_StateWrites : Z
}.

(** The fields of [PreparedBlock] that execution fills; [LPoD] and [Sale] are added later. *)
Record PreparedBlock := mkPrepared {
  p_Height : Z; p_BlockHash : Hash32; p_Receipts : list Receipt; p_Writes : list Write; WriteSetCommitment : Hash32
}.

Definition encodeNonce (nonce : Z) : list byte := le_encode 8 nonce.

Definition encodeReceipt (r : Receipt) : list byte :=
  arr_list (r_TxHash r) ++ arr_list (r_ContractID r) ++ le_encode 8 (r_GasUsed r) ++ le_encode 8 (wrap64 (r_StateWrites r)) ++
  le_encode 4 (wrap32 (Avm.zlen (r_ReturnData r))) ++ r_ReturnData r.

(** The parts of one write in the commitment; a nil value has length zero. *)
Definition write_parts (w : Write) : list (list byte) :=
  [le_encode 4 (wrap32 (Avm.zlen (Key w))); Key w; le_encode 4 (wrap32 (Avm.zlen (default [] (Value w)))); default [] (Value w)].

Definition hash_parts (ws : list Write) : list (list byte) :=
  bytes_of_string "APRO/AVM/STATE-COMMITMENT/V1" :: concat (write_parts <$> ws).

Section Nonce.
Context {S : Type} `{Store S}.

Definition loadNonce (st : S) (signer : arr 32) : result Z :=
  value ← Get st (signerNonceKey signer);
  match value with
  | None => Ok 0
  | Some v => reject negb (bool_decide (length v = 8%nat)) with "stored nonce has wrong size" ;; Ok (le_decode v)
  end.

Definition SignerNonce : S -> arr 32 -> result Z := loadNonce.

End Nonce.

Definition access_list (p : Avm.AVMPayload) : list Access :=
  (fun a => AvmEngine.mkAccess (Avm.Key a) (Avm.Write a)) <$> Avm.AccessList p.

Definition payload_request (p : Avm.AVMPayload) (code : list byte) : ExecutionRequest :=
  mkRequest (Avm.ContractID p) code (Avm.Entry p) (Avm.Calldata p) (Avm.GasLimit p) false (access_list p).

(** The code a payload runs: its own, for a contract that does not exist yet, or the stored one. *)
Definition load_code {S} `{Store S} (st : S) (p : Avm.AVMPayload) : result (list byte) :=
  if bool_decide (Avm.Action p = Avm.AVMDeployContract) then
    stored ← Get st (contractCodeKey (Avm.ContractID p));
    reject bool_decide (is_Some stored) with "contract already exists" ;; Ok (Avm.Code p)
  else if bool_decide (Avm.Action p = Avm.AVMExecuteContract) then
    stored ← Get st (contractCodeKey (Avm.ContractID p));
    need code from stored else "contract not found" ;; Ok code
  else Err "unknown action".

Section Executor.
Context `{Crypto} `{WasmDecoder} `{WasmRuntime}.

Definition hashWrites (ws : list Write) : Hash32 := HashBytes (hash_parts ws).

Section Store.
Context {S : Type} `{Store S}.

(** The writes of the executor itself: the nonce, the deployed code and the receipt. *)
Definition metadata_writes (p : Avm.AVMPayload) (r : Receipt) : list Write :=
  [mkWrite (signerNonceKey (Avm.Signer p)) (Some (encodeNonce (Avm.Nonce p +w 1)))] ++
  (if bool_decide (Avm.Action p = Avm.AVMDeployContract)
   then [mkWrite (contractCodeKey (Avm.ContractID p)) (Some (Avm.Code p))] else []) ++
  [mkWrite (receiptKey (r_TxHash r)) (Some (encodeReceipt r))].

(** One transaction of the loop, against the engine's store. *)
Definition execute_tx (st : S) (tx : Transaction) : result (S * option Receipt) :=
  if negb (IsAVM tx) then Ok (st, None)
  else
    _ ← Avm.Validate (AVM tx);
    need payload from AVM tx else "avm payload is required" ;;
    expectedNonce ← loadNonce st (Avm.Signer payload);
    reject negb (Avm.Nonce payload =? expectedNonce) with "unexpected nonce" ;;
    code ← load_code st payload;
    let '(e, res, outcome) := Execute (NewEngine st) (payload_request payload code) in
    _ ← outcome;
    let receipt := mkReceipt (Hash tx) (Avm.ContractID payload) (GasUsed res) (ReturnData res) (StateWrites res) in
    st' ← Apply (metadata_writes payload receipt) (store e);
    Ok (st', Some receipt).

Definition execute_txs (s : S * list Receipt) (txs : list Transaction) : result (S * list Receipt) :=
  foldM (fun s tx => r ← execute_tx s.1 tx; Ok (r.1, s.2 ++ match r.2 with Some x => [x] | None => [] end)) s txs.

End Store.

Definition PrepareBlock {S} `{Store S} (st : S) (b : Block) : result PreparedBlock :=
  s ← execute_txs (NewOverlayStore st, []) (Txs b);
  let writes := Writes s.1 in
  Ok (mkPrepared (Height (Header b)) (block_Hash b) s.2 writes (hashWrites writes)).

(** [st] is the canonical store; the payload is not nil. *)
Definition ValidateMempoolAdmission {S} `{Store S} (st : S) (p : Avm.AVMPayload) : result () :=
  code ← load_code st p;
  _ ← validateModule code MaxAdmissionNestingDepth;
  let '(_, _, outcome) := Execute (NewEngine (NewOverlayStore st)) (payload_request p code) in
  outcome.

End Executor.

(** ** Stores that hold the same *)

Section Agree.
Context `{Crypto} `{WasmDecoder} `{WasmRuntime}.
Context {S T : Type} `{LawfulStore S} `{LawfulStore T}.

Definition equiv_stores (a : S) (b : T) : Prop := same_view (view a) (view b).

Lemma Get_equiv a b k : equiv_stores a b -> k <> [] -> Get a k = Get b k.
Proof. intros Hab Hk. rewrite !Get_view by done. by rewrite Hab. Qed.

Lemma Apply_equiv a b ws a' b' : equiv_stores a b -> Apply ws a = Ok a' -> Apply ws b = Ok b' -> equiv_stores a' b'.
Proof.
  intros Hab Ha Hb. destruct (no_empty ws) eqn:Hw; [|apply (Apply_empty _ a) in Hw; by rewrite Ha in Hw].
  destruct (Apply_view ws a Hw) as (x & Hx & Vx). destruct (Apply_view ws b Hw) as (y & Hy & Vy).
  rewrite Ha in Hx. rewrite Hb in Hy. apply Ok_inj in Hx as <-, Hy as <-. intros k Hk. rewrite (Vx k Hk), (Vy k Hk).
  by apply upds_proper.
Qed.

Lemma Apply_total ws (a : S) : no_empty ws = true -> exists a', Apply ws a = Ok a'.
Proof. intros Hw. destruct (Apply_view ws a Hw) as (a' & Ha & _). by exists a'. Qed.

Lemma metadata_no_empty p r : no_empty (metadata_writes p r) = true.
Proof. unfold metadata_writes. by case_bool_decide. Qed.

(** A transaction does the same on both: it fails on both, or it succeeds on both with
    the same receipt and the same sequence of write sets. *)
Definition commits (ws : list (list Write)) (a a' : S) (b b' : T) : Prop :=
  apply_all ws a = Ok a' /\ apply_all ws b = Ok b'.

Lemma loadNonce_equiv a b signer : equiv_stores a b -> loadNonce a signer = loadNonce b signer.
Proof. intros Hab. unfold loadNonce. by rewrite (Get_equiv a b _ Hab). Qed.

Lemma load_code_equiv a b p : equiv_stores a b -> load_code a p = load_code b p.
Proof. intros Hab. unfold load_code. by rewrite (Get_equiv a b _ Hab). Qed.

Lemma execute_tx_equiv a b tx : equiv_stores a b ->
  match execute_tx a tx, execute_tx b tx with
  | Ok (a', r), Ok (b', r') => r = r' /\ exists ws, commits ws a a' b b' /\ Forall (fun w => no_empty w = true) ws
  | Err e, Err e' => e = e'
  | _, _ => False
  end.
Proof.
  intros Hab. unfold execute_tx. destruct (IsAVM tx); cbn [negb]; [|split; [done|by exists []]].
  destruct (Avm.Validate (AVM tx)); [|done]. cbn [mbind result_bind]. destruct (AVM tx) as [p|]; [|done].
  rewrite (loadNonce_equiv a b _ Hab). destruct (loadNonce b _) as [n|]; [|done]. cbn [mbind result_bind].
  destruct (negb _); [done|]. rewrite (load_code_equiv a b _ Hab). destruct (load_code b p) as [code|]; [|done].
  cbn [mbind result_bind].
  assert (Hagree : agree_declared (payload_request p code) (view a) (view b)).
  { intros x _. apply Hab, prefixed_not_empty. }
  destruct (Execute (NewEngine a) (payload_request p code)) as [[e1 res1] o1] eqn:E1.
  destruct (Execute (NewEngine b) (payload_request p code)) as [[e2 res2] o2] eqn:E2.
  destruct (Execute_agree (NewEngine a) e1 (NewEngine b) e2 _ _ _ _ _ eq_refl Hagree E1 E2) as (<- & <- & Hc). destruct o1 as [[]|m]; [|done].
  cbn [mbind result_bind]. set (meta := metadata_writes p _).
  assert (Hmeta : no_empty meta = true) by apply metadata_no_empty.
  destruct (Apply_view meta (store e1) Hmeta) as (a' & Ha & _). destruct (Apply_view meta (store e2) Hmeta) as (b' & Hb & _).
  rewrite Ha, Hb. cbn [mbind result_bind]. split; [done|].
  destruct Hc as [[-> ->]|(ws & Hw & Ha1 & Hb1 & _)].
  - exists [meta]. split; [|by repeat constructor]. cbn [store NewEngine] in *. unfold commits, apply_all. cbn [foldM].
    by rewrite Ha, Hb.
  - exists [ws; meta]. split; [|by repeat constructor]. cbn [store NewEngine] in *. unfold commits, apply_all. cbn [foldM].
    rewrite Ha1, Hb1. cbn [mbind result_bind]. by rewrite Ha, Hb.
Qed.

Lemma apply_all_equiv wss : forall a b a' b', equiv_stores a b -> apply_all wss a = Ok a' -> apply_all wss b = Ok b' ->
  equiv_stores a' b'.
Proof.
  induction wss as [|ws wss IH]; intros a b a' b' Hab Ha Hb; unfold apply_all in *; cbn [foldM] in *.
  - by apply Ok_inj in Ha as <-, Hb as <-.
  - apply bind_ok in Ha as (a1 & Ha1 & Ha). apply bind_ok in Hb as (b1 & Hb1 & Hb).
    eapply IH; [|exact Ha|exact Hb]. by apply (Apply_equiv a b ws).
Qed.

Lemma execute_txs_equiv txs : forall a b rs, equiv_stores a b ->
  match execute_txs (a, rs) txs, execute_txs (b, rs) txs with
  | Ok (a', r), Ok (b', r') => r = r' /\ exists ws, commits ws a a' b b' /\ Forall (fun w => no_empty w = true) ws
  | Err e, Err e' => e = e'
  | _, _ => False
  end.
Proof.
  unfold execute_txs. induction txs as [|tx txs IH]; intros a b rs Hab; cbn [foldM]; [split; [done|by exists []]|].
  cbn [fst snd]. assert (Ht := execute_tx_equiv a b tx Hab).
  destruct (execute_tx a tx) as [[a1 r]|], (execute_tx b tx) as [[b1 r']|]; try done. cbn [mbind result_bind fst snd].
  destruct Ht as (<- & ws & [Ha Hb] & Hws).
  assert (Hab1 : equiv_stores a1 b1) by by apply (apply_all_equiv ws a b).
  specialize (IH a1 b1 (rs ++ match r with Some x => [x] | None => [] end) Hab1).
  destruct (foldM _ (a1, _) txs) as [[a2 r2]|], (foldM _ (b1, _) txs) as [[b2 r2']|]; try done.
  destruct IH as (<- & ws' & [Ha' Hb'] & Hws'). split; [done|]. exists (ws ++ ws'). split.
  - unfold commits, apply_all in *. rewrite !foldM_app, Ha, Hb. by split.
  - by apply list.Forall_app.
Qed.

End Agree.

(** ** Executing a block *)

Lemma overlay_fold_staged {S} `{Store S} wss : forall (o o' : OverlayStore S), apply_all wss o = Ok o' ->
  base o' = base o /\ staged o' = fold_left stage (concat wss) (staged o).
Proof.
  unfold apply_all. induction wss as [|ws wss IH]; intros o o' Ho; cbn [foldM] in Ho; [by apply Ok_inj in Ho as <-|].
  apply bind_ok in Ho as (o1 & Ho1 & Ho). apply overlay_apply_ok in Ho1 as (_ & Eb & Es). apply IH in Ho as (Eb' & Es').
  split; [congruence|]. cbn [concat]. by rewrite fold_left_app, <- Es.
Qed.

Section Fresh.
Context {S T : Type} `{LawfulStore S} `{LawfulStore T}.

Lemma fresh_overlay_equiv (a : S) (b : T) : equiv_stores a b -> equiv_stores (NewOverlayStore a) b.
Proof. intros Hab k Hk. change (default (view a k) (staged (NewOverlayStore a) !! k) = view b k). cbn. rewrite lookup_empty. by apply Hab. Qed.

End Fresh.

Section Prepared.
Context `{Crypto} `{WasmDecoder} `{WasmRuntime}.
Context {S T : Type} `{LawfulStore S} `{LawfulStore T}.

Lemma prepare_effect (st : S) (b : Block) :
  match PrepareBlock st b with
  | Ok p => exists committed direct, Apply (p_Writes p) st = Ok committed /\
      execute_txs (st, []) (Txs b) = Ok (direct, p_Receipts p) /\ same_view (view committed) (view direct)
  | Err e => execute_txs (st, []) (Txs b) = Err e
  end.
Proof.
  unfold PrepareBlock.
  assert (Hx := execute_txs_equiv (Txs b) (NewOverlayStore st) st [] (fresh_overlay_equiv st st (fun k _ => eq_refl))).
  destruct (execute_txs (NewOverlayStore st, []) (Txs b)) as [[o rs]|], (execute_txs (st, []) (Txs b)) as [[direct rs']|]; try done;
    [|cbn; by rewrite Hx].
  destruct Hx as (<- & wss & [Ho Hd] & _). cbn [mbind result_bind fst snd p_Writes p_Receipts].
  destruct (overlay_transact st wss o Ho) as (_ & committed & direct' & Hc & Hd' & Hv & _).
  rewrite Hd in Hd'. apply Ok_inj in Hd' as <-. by exists committed, direct.
Qed.

(** Preparing a block is executing its transactions one after another: it fails with
    the error of the first one that fails and otherwise produces one write set whose
    commit leaves the state that direct execution leaves, and the same receipts. *)
Theorem prepare_sequential (st : S) (b : Block) :
  match PrepareBlock st b with
  | Ok p => exists committed direct, Apply (p_Writes p) st = Ok committed /\
      execute_txs (st, []) (Txs b) = Ok (direct, p_Receipts p) /\ same_view (view committed) (view direct)
  | Err e => execute_txs (st, []) (Txs b) = Err e
  end.
Proof. apply prepare_effect. Qed.

(** Execution is deterministic: nodes whose contract state is the same, whatever
    kind of store holds it, prepare the same receipts, writes and commitment for a
    block, or refuse it with the same error. *)
Theorem prepare_deterministic (a : S) (c : T) (b : Block) :
  same_view (view a) (view c) -> PrepareBlock a b = PrepareBlock c b.
Proof.
  intros Hac. unfold PrepareBlock.
  assert (Hov : equiv_stores (NewOverlayStore a) (NewOverlayStore c)).
  { intros k Hk. cbn. rewrite lookup_empty. by apply Hac. }
  assert (Hx := execute_txs_equiv (Txs b) (NewOverlayStore a) (NewOverlayStore c) [] Hov).
  destruct (execute_txs (NewOverlayStore a, []) (Txs b)) as [[o rs]|], (execute_txs (NewOverlayStore c, []) (Txs b)) as [[o' rs']|];
    try done; [|cbn; by rewrite Hx].
  destruct Hx as (<- & wss & [Ho Ho'] & _). apply overlay_fold_staged in Ho as [_ Es]. apply overlay_fold_staged in Ho' as [_ Es'].
  cbn [mbind result_bind fst snd]. unfold Writes. by rewrite Es, Es'.
Qed.

End Prepared.

(** ** Name spaces *)

Definition metadata : list byte := xff :: bytes_of_string "avm/".

(** The identifier does not begin like the executor's own keys; identifiers of deployed
    contracts are SHA-256 digests. *)
Definition metadata_free (id : Hash32) : Prop := take 5 (arr_list id) <> metadata.

Definition is_metadata (k : list byte) : Prop := take 5 k = metadata.

Lemma codeKey_metadata id : is_metadata (contractCodeKey id).
Proof. done. Qed.
Lemma nonceKey_metadata s : is_metadata (signerNonceKey s).
Proof. done. Qed.
Lemma receiptKey_metadata h : is_metadata (receiptKey h).
Proof. done. Qed.

Lemma storage_not_metadata id key : metadata_free id -> ~ is_metadata (contract_prefix id ++ key).
Proof.
  unfold metadata_free, is_metadata, contract_prefix. rewrite <- app_assoc, take_app_le; [done|]. rewrite arr_length. lia.
Qed.

(** Without that condition the name spaces overlap: the storage of a contract whose
    identifier begins like the nonce keys contains the nonces of other signers. *)
Lemma storage_overlaps_nonces (signer : arr 32) (id : Hash32) (key : list byte) :
  arr_list id = noncePrefix ++ take 25 (arr_list signer) -> drop 25 (arr_list signer) = bytes_of_string "/" ++ key ->
  contract_prefix id ++ key = signerNonceKey signer.
Proof.
  intros Hid Hkey. unfold contract_prefix, signerNonceKey. rewrite Hid, <- !app_assoc. f_equal.
  rewrite <- Hkey. apply take_drop.
Qed.

Lemma contract_prefix_inj id id' key key' : contract_prefix id ++ key = contract_prefix id' ++ key' -> id = id' /\ key = key'.
Proof.
  intros E. apply Avm.app_inj_prefix in E as [E ->]; [|by rewrite !contract_prefix_length]. split; [|done].
  unfold contract_prefix in E. apply app_inv_tail in E. by apply arr_ext.
Qed.

Lemma nonceKey_inj s s' : signerNonceKey s = signerNonceKey s' -> s = s'.
Proof. unfold signerNonceKey. intros E. apply app_inv_head in E. by apply arr_ext. Qed.
Lemma codeKey_inj s s' : contractCodeKey s = contractCodeKey s' -> s = s'.
Proof. unfold contractCodeKey. intros E. apply app_inv_head in E. by apply arr_ext. Qed.
Lemma nonce_not_code s id : signerNonceKey s <> contractCodeKey id.
Proof. done. Qed.
Lemma nonce_not_receipt s h : signerNonceKey s <> receiptKey h.
Proof. done. Qed.
Lemma code_not_receipt id h : contractCodeKey id <> receiptKey h.
Proof. done. Qed.

(** ** What a transaction changes *)

Definition payload_of (tx : Transaction) : option Avm.AVMPayload := if IsAVM tx then AVM tx else None.

Section Effects.
Context `{Crypto} `{WasmDecoder} `{WasmRuntime}.
Context {S : Type} `{LawfulStore S}.

(** An accepted payload, with what was checked and done for it. *)
Record executed (st st' : S) (tx : Transaction) (p : Avm.AVMPayload) : Prop := {
  ex_valid : Avm.Validate (Some p) = Ok ();
  ex_nonce : loadNonce st (Avm.Signer p) = Ok (Avm.Nonce p);
  ex_code : Avm.Action p = Avm.AVMDeployContract -> view st (contractCodeKey (Avm.ContractID p)) = None;
  ex_effect : exists mid r, r_TxHash r = Hash tx /\ Apply (metadata_writes p r) mid = Ok st' /\
    forall k, k <> [] -> view mid k <> view st k -> exists key value, k = contract_prefix (Avm.ContractID p) ++ key /\
      AvmEngine.mkAccess key true ∈ access_list p /\ view mid k = Some value
}.

Lemma validated_gas p : Avm.Validate (Some p) = Ok () -> is_u64 (Avm.GasLimit p).
Proof.
  unfold Avm.Validate. intros Hv. apply bind_ok in Hv as ([] & _ & Hv). apply reject_ok in Hv as [_ Hv].
  apply reject_ok in Hv as [_ Hv]. apply reject_ok in Hv as [Hg _]. zbool. unfold Avm.AVMMinGasLimit, Avm.AVMMaxGasLimit, Avm.AVMMaxBlockGas in *.
  u64lia.
Qed.

Lemma execute_tx_effects st tx st' r : execute_tx st tx = Ok (st', r) ->
  match payload_of tx with None => st' = st /\ r = None | Some p => executed st st' tx p end.
Proof.
  unfold execute_tx, payload_of. destruct (IsAVM tx); cbn [negb]; [|intros E%Ok_inj; by injection E as <- <-].
  intros E. apply bind_ok in E as ([] & Hv & E). destruct (AVM tx) as [p|]; [|done].
  apply bind_ok in E as (n & Hn & E). apply reject_ok in E as (En & E). zbool. subst n. apply bind_ok in E as (code & Hcode & E).
  destruct (Execute (NewEngine st) (payload_request p code)) as [[e res] o] eqn:Ex. apply bind_ok in E as ([] & -> & E).
  apply bind_ok in E as (st1 & Ha & E). apply Ok_inj in E. injection E as <- <-. split; [done|done| |].
  - intros Hd. unfold load_code in Hcode. rewrite bool_decide_eq_true_2 in Hcode by done. rewrite Get_view in Hcode by done.
    cbn [mbind result_bind] in Hcode. apply reject_ok in Hcode as (Hcode & _). zbool. by rewrite <- eq_None_not_Some in Hcode.
  - exists (store e). eexists. split; [|split; [exact Ha|]]; [done|]. intros k Hk Hd.
    assert (Hl : is_u64 (GasLimit (payload_request p code))) by by apply validated_gas.
    destruct (Execute_confined (NewEngine st) e (payload_request p code) res (Ok ()) Hl Ex) as [Hc _].
    destruct (Hc k Hk Hd) as (_ & key & value & -> & Hin & Hval & _). exists key, value. by split_and!.
Qed.

Lemma metadata_view p r mid st' : Apply (metadata_writes p r) mid = Ok st' -> forall k, k <> [] ->
  view st' k = (if decide (k = receiptKey (r_TxHash r)) then Some (encodeReceipt r)
    else if decide (k = contractCodeKey (Avm.ContractID p) /\ Avm.Action p = Avm.AVMDeployContract) then Some (Avm.Code p)
    else if decide (k = signerNonceKey (Avm.Signer p)) then Some (encodeNonce (Avm.Nonce p +w 1)) else view mid k).
Proof.
  intros Ha k Hk. destruct (Apply_view _ mid (metadata_no_empty p r)) as (x & Hx & Vx). rewrite Ha in Hx. apply Ok_inj in Hx as <-.
  rewrite (Vx k Hk). unfold metadata_writes, upds. case_bool_decide as Hd; cbn [app fold_left]; unfold upd; cbn [Key Value].
  - repeat case_decide; naive_solver.
  - repeat case_decide; naive_solver.
Qed.

(** A key that is neither metadata of the payload nor storage of its contract keeps its
    value. *)
Lemma executed_frame st st' tx p k : executed st st' tx p -> k <> [] ->
  k <> receiptKey (Hash tx) -> k <> signerNonceKey (Avm.Signer p) ->
  (k = contractCodeKey (Avm.ContractID p) -> Avm.Action p <> Avm.AVMDeployContract) ->
  (forall key, AvmEngine.mkAccess key true ∈ access_list p -> k <> contract_prefix (Avm.ContractID p) ++ key) ->
  view st' k = view st k.
Proof.
  intros [_ _ _ (mid & r & Er & Ha & Hmid)] Hk Hr Hn Hc Hs. rewrite (metadata_view _ _ _ _ Ha k Hk), Er.
  rewrite decide_False by done. rewrite decide_False by naive_solver. rewrite decide_False by done.
  destruct (decide (view mid k = view st k)) as [|Hd]; [done|]. destruct (Hmid k Hk Hd) as (key & value & -> & Hin & _).
  exfalso. by apply (Hs key Hin).
Qed.

Lemma executed_nonce st st' tx p : executed st st' tx p -> is_u64 (Avm.Nonce p) ->
  loadNonce st' (Avm.Signer p) = Ok (Avm.Nonce p +w 1).
Proof.
  intros [_ _ _ (mid & r & Er & Ha & Hmid)] Hu. unfold loadNonce. rewrite Get_view by done. rewrite (metadata_view _ _ _ _ Ha) by done.
  rewrite decide_False by done. rewrite decide_False by naive_solver. rewrite decide_True by done. cbn [mbind result_bind].
  rewrite bool_decide_eq_true_2 by apply length_le_encode. cbn [negb]. f_equal. apply le_decode_encode, wrap64_range.
Qed.

End Effects.

(** ** Runs of transactions *)

Section Runs.
Context `{Crypto} `{WasmDecoder} `{WasmRuntime}.
Context {S : Type} `{LawfulStore S}.

Definition payloads (txs : list Transaction) : list Avm.AVMPayload := omap payload_of txs.
Definition signer_nonces (signer : arr 32) (txs : list Transaction) : list Z :=
  Avm.Nonce <$> filter (fun p => Avm.Signer p = signer) (payloads txs).

(** The contracts a run names have digests for identifiers, and nonces fit. *)
Definition well_named (txs : list Transaction) : Prop :=
  Forall (fun p => metadata_free (Avm.ContractID p) /\ is_u64 (Avm.Nonce p)) (payloads txs).

Lemma execute_txs_cons st rs tx txs st' rs' : execute_txs (st, rs) (tx :: txs) = Ok (st', rs') ->
  exists st1 r, execute_tx st tx = Ok (st1, r) /\
    execute_txs (st1, rs ++ match r with Some x => [x] | None => [] end) txs = Ok (st', rs').
Proof.
  unfold execute_txs. cbn [foldM fst snd]. intros E. apply bind_ok in E as (s1 & E1 & E).
  apply bind_ok in E1 as ([st1 r] & Ht & E1). apply Ok_inj in E1 as <-. by exists st1, r.
Qed.

Lemma payloads_cons tx txs : payloads (tx :: txs) = match payload_of tx with Some p => p :: payloads txs | None => payloads txs end.
Proof. unfold payloads. cbn. by destruct (payload_of tx). Qed.

(** Rule for runs: a property of stores that every executed payload of the run keeps. *)
Lemma run_inv (P : S -> Prop) txs : forall st rs st' rs', execute_txs (st, rs) txs = Ok (st', rs') -> P st ->
  (forall st st' tx p, tx ∈ txs -> payload_of tx = Some p -> executed st st' tx p -> P st -> P st') -> P st'.
Proof.
  induction txs as [|tx txs IH]; intros st rs st' rs' E HP Hstep.
  { unfold execute_txs in E. cbn in E. apply Ok_inj in E. by injection E as <- <-. }
  apply execute_txs_cons in E as (st1 & r & Ht & E). apply (IH _ _ _ _ E).
  - apply execute_tx_effects in Ht. destruct (payload_of tx) as [p|] eqn:Ep; [|by destruct Ht as [-> _]].
    apply (Hstep st st1 tx p); [by left|done|done|done].
  - intros ? ? ? ? Hin. apply Hstep. by right.
Qed.

Lemma well_named_in txs tx p : well_named txs -> tx ∈ txs -> payload_of tx = Some p ->
  metadata_free (Avm.ContractID p) /\ is_u64 (Avm.Nonce p).
Proof.
  intros Hw Hin Hp. unfold well_named in Hw. rewrite list.Forall_forall in Hw. apply Hw. apply list_elem_of_omap. by exists tx.
Qed.

(** C22: no contract call is replayed: in any run of accepted transactions whose
    payloads name no contract whose id begins with the metadata prefix (and carry
    nonces of 64 bits), the nonces of a signer are consecutive, modulo the wrap-around
    of 64 bits, from the stored one on, and the stored nonce has moved past all of
    them.  A contract of another id can write over nonces: see
    [storage_overlaps_nonces]. *)
Theorem nonces_consecutive (txs : list Transaction) (st st' : S) (rs rs' : list Receipt) (signer : arr 32) (n : Z) :
  well_named txs -> execute_txs (st, rs) txs = Ok (st', rs') -> loadNonce st signer = Ok n -> is_u64 n ->
  let k := length (signer_nonces signer txs) in
  signer_nonces signer txs = (fun i => n +w i) <$> seqZ 0 (Z.of_nat k) /\ loadNonce st' signer = Ok (n +w Z.of_nat k).
Proof.
  revert st rs n. induction txs as [|tx txs IH]; intros st rs n Hw E Hn Hu; cbn zeta.
  { unfold execute_txs in E. cbn in E. apply Ok_inj in E. injection E as <- <-. split; [done|].
    change (length (signer_nonces signer [])) with 0%nat. by rewrite Z.add_0_r, wrap64_small. }
  apply execute_txs_cons in E as (st1 & r & Ht & E). apply execute_tx_effects in Ht.
  unfold well_named, signer_nonces in *. rewrite payloads_cons in *.
  destruct (payload_of tx) as [p|] eqn:Ep; [|destruct Ht as [-> ->]; exact (IH _ _ n Hw E Hn Hu)].
  apply list.Forall_cons in Hw as [[Hfree Hnu] Hw]. rewrite filter_cons.
  destruct (decide (Avm.Signer p = signer)) as [Es|Hne].
  - subst signer. rewrite (ex_nonce _ _ _ _ Ht) in Hn. apply Ok_inj in Hn as <-.
    destruct (IH st1 _ (Avm.Nonce p +w 1) Hw E (executed_nonce _ _ _ _ Ht Hnu) (wrap64_range _)) as [IH1 IH2].
    cbn [fmap list_fmap length]. set (l := Avm.Nonce <$> _) in *. set (k := length l) in *.
    assert (Hs : forall i, (Avm.Nonce p +w 1) +w i = Avm.Nonce p +w (i + 1)).
    { intros i. unfold wrap64. rewrite Zplus_mod_idemp_l. f_equal. lia. }
    split.
    + assert (Eseq : seqZ 0 (Z.of_nat (Datatypes.S k)) = 0 :: (Z.add 1 <$> seqZ 0 (Z.of_nat k))).
      { rewrite fmap_add_seqZ. rewrite Nat2Z.inj_succ, <- Z.add_1_l, seqZ_app by lia. done. }
      rewrite Eseq. cbn [fmap list_fmap]. rewrite Z.add_0_r, (wrap64_small (Avm.Nonce p)) by done. f_equal. rewrite IH1.
      rewrite <- list_fmap_compose. apply list_fmap_ext. intros i x _. cbn. by rewrite Hs, (Z.add_comm 1 x).
    + rewrite IH2, Hs. do 2 f_equal. lia.
  - apply (IH st1 _ n Hw E); [|done]. rewrite <- Hn. unfold loadNonce. rewrite !Get_view by done.
    rewrite (executed_frame _ _ _ _ _ Ht); try done.
    + intros En. by apply nonceKey_inj in En as ->.
    + intros key _ Ek. apply (storage_not_metadata _ key Hfree). rewrite <- Ek. apply nonceKey_metadata.
Qed.

(** C20: a run of contract transactions whose payloads name no contract whose id
    begins with the metadata prefix of the executor (and carry nonces of 64 bits)
    protects contracts: deployed code never changes, and the storage of a contract of
    any other id changes only through payloads that execute that contract and declare
    the key writable.  Ids that do begin so escape: see [storage_overlaps_nonces]. *)
Theorem contracts_protected (txs : list Transaction) (st st' : S) (rs rs' : list Receipt) (id : Hash32) :
  well_named txs -> execute_txs (st, rs) txs = Ok (st', rs') ->
  (forall code, view st (contractCodeKey id) = Some code -> view st' (contractCodeKey id) = Some code) /\
  (metadata_free id -> forall key, view st' (contract_prefix id ++ key) <> view st (contract_prefix id ++ key) ->
     exists tx p, tx ∈ txs /\ payload_of tx = Some p /\ Avm.ContractID p = id /\ AvmEngine.mkAccess key true ∈ access_list p).
Proof.
  intros Hw E. split.
  - intros code Hcode. apply (run_inv (fun s => view s (contractCodeKey id) = Some code) txs st rs st' rs' E Hcode).
    intros a a' tx p Hin Hp Hx Ha. destruct (well_named_in _ _ _ Hw Hin Hp) as [Hfree _].
    rewrite (executed_frame _ _ _ _ _ Hx); try done.
    + intros Ec Hd. apply codeKey_inj in Ec as ->. rewrite (ex_code _ _ _ _ Hx Hd) in Ha. done.
    + intros key _ Ek. apply (storage_not_metadata _ key Hfree). rewrite <- Ek. apply codeKey_metadata.
  - intros Hid key Hd.
    destruct (decide (Exists (fun p => Avm.ContractID p = id /\ AvmEngine.mkAccess key true ∈ access_list p) (payloads txs))) as [He|Hn].
    { apply list.Exists_exists in He as (p & Hin & Hp & Hk). apply list_elem_of_omap in Hin as (tx & Hin & Ep). by exists tx, p. }
    exfalso. apply Hd.
    apply (run_inv (fun s => view s (contract_prefix id ++ key) = view st (contract_prefix id ++ key)) txs st rs st' rs' E eq_refl).
    intros a a' tx p Hin Hp Hx Ha. assert (Hm := storage_not_metadata id key Hid).
    rewrite (executed_frame _ _ _ _ _ Hx); [done|apply prefixed_not_empty|..].
    + intros Ek. apply Hm. rewrite Ek. apply receiptKey_metadata.
    + intros Ek. apply Hm. rewrite Ek. apply nonceKey_metadata.
    + intros Ek. exfalso. apply Hm. rewrite Ek. apply codeKey_metadata.
    + intros key' Hk Ek. apply contract_prefix_inj in Ek as [Ei Ek]. apply Hn. apply list.Exists_exists. exists p.
      split; [apply list_elem_of_omap; by exists tx|]. by subst.
Qed.

End Runs.

(** ** Admission *)

Section Admission.
Context `{Crypto} `{WasmDecoder} `{WasmRuntime}.
Context {S : Type} `{LawfulStore S}.

(** What the pool admits executes: a valid payload admitted against the canonical
    state, with the next nonce of its signer, is accepted by the executor in a block on
    that state, nesting limit and sandboxed trial run included. *)
Theorem admission_sound (st : S) (b : Block) (tx : Transaction) (p : Avm.AVMPayload) :
  Txs b = [tx] -> IsAVM tx = true -> AVM tx = Some p -> Avm.Validate (Some p) = Ok () ->
  SignerNonce st (Avm.Signer p) = Ok (Avm.Nonce p) -> ValidateMempoolAdmission st p = Ok () ->
  exists prepared, PrepareBlock st b = Ok prepared /\ length (p_Receipts prepared) = 1%nat.
Proof.
  intros Hb Ha Hp Hv Hn Hadm. unfold PrepareBlock, execute_txs. rewrite Hb. cbn [foldM fst snd].
  assert (Heq : equiv_stores (NewOverlayStore st) st) by by apply fresh_overlay_equiv.
  unfold execute_tx. rewrite Ha, Hp, Hv. cbn [negb mbind result_bind]. rewrite (loadNonce_equiv _ _ _ Heq), (load_code_equiv _ _ _ Heq).
  unfold SignerNonce in Hn. rewrite Hn. cbn [mbind result_bind]. rewrite Z.eqb_refl. cbn [negb].
  unfold ValidateMempoolAdmission in Hadm. apply bind_ok in Hadm as (code & -> & Hadm).
  apply bind_ok in Hadm as (rep & _ & Hadm). cbn [mbind result_bind].
  destruct (Execute (NewEngine (NewOverlayStore st)) (payload_request p code)) as [[e res] o]. rewrite Hadm. cbn [mbind result_bind].
  destruct (Apply_total (metadata_writes p (mkReceipt (Hash tx) (Avm.ContractID p) (GasUsed res) (ReturnData res) (StateWrites res)))
    (store e)) as (st' & Hst); [apply metadata_no_empty|]. rewrite Hst. cbn [mbind result_bind fst snd]. by eexists.
Qed.

End Admission.

(** ** The commitment *)

(** Writes whose sizes fit the length prefixes and that delete nothing; the executor
    makes no others. *)
Definition sized (w : Write) : Prop := Avm.zlen (Key w) < U32 /\ exists v, Value w = Some v /\ Avm.zlen v < U32.

Lemma write_parts_bytes w v : Value w = Some v ->
  concat (write_parts w) = Avm.writeAVMBytes (Key w) ++ Avm.writeAVMBytes v.
Proof. intros E. unfold write_parts, Avm.writeAVMBytes. rewrite E. cbn [from_option id concat]. by rewrite app_nil_r, <- !app_assoc. Qed.

(** The write-set commitment hashes an unambiguous encoding: two write sets with the
    same hashed bytes are the same list of keys and values. *)
Theorem commitment_injective (ws ws' : list Write) :
  Forall sized ws -> Forall sized ws' -> concat (hash_parts ws) = concat (hash_parts ws') -> ws = ws'.
Proof.
  unfold hash_parts. cbn [concat]. intros Hw Hw' E. apply app_inv_head in E. revert ws' Hw' E.
  induction Hw as [|w ws [Hk (v & Hv & Hl)] Hw IH]; intros [|w' ws'] Hw' E; [done|exfalso|exfalso|].
  - cbn [fmap list_fmap concat] in E. unfold write_parts in E. apply (f_equal length) in E. cbn in E. lia.
  - cbn [fmap list_fmap concat] in E. unfold write_parts in E. apply (f_equal length) in E. cbn in E. lia.
  - apply list.Forall_cons in Hw' as [[Hk' (v' & Hv' & Hl')] Hw']. cbn [fmap list_fmap concat] in E.
    rewrite !concat_app, (write_parts_bytes w v Hv), (write_parts_bytes w' v' Hv'), <- ?app_assoc in E.
    apply Avm.writeAVMBytes_inj in E as [Ek E]; [|done..]. apply Avm.writeAVMBytes_inj in E as [Ev E]; [|done..].
    rewrite (IH ws' Hw' E). f_equal. destruct w, w'; cbn in *. congruence.
Qed.

(** A deletion and the write of an empty value have the same encoding. *)
Example commitment_of_deletion k : hash_parts [mkWrite k None] = hash_parts [mkWrite k (Some [])].
Proof. done. Qed.

(** ** The canonical commit *)

(** [CommitCanonicalBlock]; [settlement] is what the LPoD and sale effects stage. *)
Definition CommitCanonicalBlock `{Crypto} `{J : BlockStore.BlockJson} (st : LevelStore) (b : Block) (rawBlock : list byte)
    (p : PreparedBlock) (settlement : result (list batch_op)) : result LevelStore :=
  reject negb (p_Height p =? Height (Header b)) || negb (bool_decide (p_BlockHash p = block_Hash b))
    with "avm: prepared effects do not match block" ;;
  mkLevel <$> BlockStore.commitRawBlock (block_Hash b) (Height (Header b)) rawBlock (toStoreWrites (p_Writes p))
    (WriteSetCommitment p) settlement (DB st).

Lemma last_write_upds ws : forall f k, BlockStoreProofs.last_write (toStoreWrites ws) k (f k) = upds f ws k.
Proof.
  unfold BlockStoreProofs.last_write. induction ws as [|w ws IH]; intros f k; [done|]. cbn [toStoreWrites fmap list_fmap foldl upds fold_left].
  cbn [BlockStore.aw_Key BlockStore.aw_Value]. fold (upds (upd f w) ws). rewrite <- IH. f_equal. unfold upd.
  case_bool_decide as E; [by rewrite decide_True|]. by rewrite decide_False.
Qed.

(** What is prepared names its block. *)
Lemma prepared_for `{Crypto} `{WasmDecoder} `{WasmRuntime} (st : LevelStore) (b : Block) (p : PreparedBlock) :
  PrepareBlock st b = Ok p -> p_Height p = Height (Header b) /\ p_BlockHash p = block_Hash b.
Proof. unfold PrepareBlock. by intros (x & _ & <-%Ok_inj)%bind_ok. Qed.

(** C23: preparing a block and committing it executes it.  For a block of a height
    within 64 bits and ledger operations that stay off the keys of the contract state:
    when the commit succeeds, the durable contract state is the one that executing the
    transactions in order leaves, recorded under the height with the commitment to its
    write set, together with the block.  What was prepared for a block is refused,
    whatever the store, for any block with another height or hash. *)
Theorem commit_executes `{Crypto} `{WasmDecoder} `{WasmRuntime} `{J : BlockStore.BlockJson} (st : LevelStore) (b : Block)
    (raw : list byte) (p : PreparedBlock) (ledgers : list batch_op) :
  PrepareBlock st b = Ok p -> is_u64 (Height (Header b)) ->
  (forall o s, o ∈ ledgers -> op_key o <> prefixAVM ++ s) ->
  (forall st', CommitCanonicalBlock st b raw p (Ok ledgers) = Ok st' ->
     exists direct, execute_txs (st, []) (Txs b) = Ok (direct, p_Receipts p) /\ same_view (view st') (view direct) /\
       BlockStore.GetAVMCommitment (DB st') (Height (Header b)) = Ok (Some (block_Hash b, hashWrites (p_Writes p))) /\
       BlockStore.GetRawBlock (DB st') (block_Hash b) = Some raw) /\
  (forall st1 b1 raw1 settlement, Height (Header b1) <> Height (Header b) \/ block_Hash b1 <> block_Hash b ->
     is_ok (CommitCanonicalBlock st1 b1 raw1 p settlement) = false).
Proof.
  intros Hp Hu Hled. split; cycle 1.
  { intros st1 b1 raw1 settlement Hd. destruct (prepared_for _ _ _ Hp) as [Eh Ex]. unfold CommitCanonicalBlock.
    rewrite Eh, Ex. destruct (Z.eqb_spec (Height (Header b)) (Height (Header b1))) as [E|]; [|done]. cbn [negb orb].
    rewrite bool_decide_eq_false_2; [done|]. intros E2. by destruct Hd as [Hd|Hd]; apply Hd. }
  intros st' Hc. assert (Hs := prepare_effect st b). rewrite Hp in Hs. destruct Hs as (committed & direct & Ha & Hd & Hv).
  exists direct. split; [done|]. unfold CommitCanonicalBlock in Hc. apply reject_ok in Hc as (_ & Hc).
  destruct (BlockStore.commitRawBlock _ _ _ _ _ _ _) as [m'|] eqn:Em; [|done]. apply Ok_inj in Hc as <-. split; [|split].
  - intros k Hk. rewrite <- (Hv k Hk). change (view (mkLevel m') k) with (m' !! avmKey k).
    rewrite (BlockStoreProofs.commit_avm _ _ _ _ _ _ _ _ k Em Hled). change (DB st !! avmKey k) with (view st k).
    rewrite last_write_upds.
    destruct (no_empty (p_Writes p)) eqn:Hn; [|apply (Apply_empty _ st) in Hn; by rewrite Ha in Hn].
    destruct (Apply_view (p_Writes p) st Hn) as (x & Hx & Vx). rewrite Ha in Hx. apply Ok_inj in Hx as <-. by rewrite (Vx k Hk).
  - destruct (BlockStoreProofs.commit_shape _ _ _ _ _ _ _ _ Em) as (avm & led & images & _ & _ & _ & E).
    destruct (BlockStoreProofs.tail_lookups (block_Hash b) (Height (Header b)) raw (WriteSetCommitment p)
      (write (avm ++ led ++ images) (DB st))) as (_ & _ & _ & _ & L5). rewrite <- E in L5. cbn [DB].
    unfold BlockStore.GetAVMCommitment. rewrite L5, length_app, !arr_length. cbn [Nat.add].
    rewrite take_app_length', drop_app_length' by (symmetry; apply arr_length). rewrite !copy_arr_list.
    unfold PrepareBlock in Hp. apply bind_ok in Hp as (s & _ & Hp). by apply Ok_inj in Hp as <-.
  - destruct (BlockStoreProofs.commit_shape _ _ _ _ _ _ _ _ Em) as (avm & led & images & _ & _ & _ & E).
    destruct (BlockStoreProofs.tail_lookups (block_Hash b) (Height (Header b)) raw (WriteSetCommitment p)
      (write (avm ++ led ++ images) (DB st))) as (L1 & _). by rewrite <- E in L1.
Qed.

(** ** Witnesses *)

Section Example.
#[local] Existing Instance toy_crypto | 0.
#[local] Existing Instance toy_memory | 0.
#[local] Existing Instance toy_decoder | 0.
#[local] Existing Instance toy_runtime | 0.

Definition ex_signer : arr 32 := copy_arr 32 [x09].
Definition ex_payload (deploy : bool) (nonce : Z) : Avm.AVMPayload :=
  let code := [x00; x0b] in
  let id := Avm.DeriveAVMContractID ex_signer 0 code in
  Avm.mkPayload (if deploy then Avm.AVMDeployContract else Avm.AVMExecuteContract) id (if deploy then code else [])
    (bytes_of_string "run") [] 1000 nonce ex_signer (copy_arr 64 [x09]) [Avm.mkAccess [x6b] true].
Definition ex_avm_tx (deploy : bool) (nonce : Z) : Transaction :=
  mkTx TxVersionAVM [] [] 0 (zero_arr 32) [] [] [] [] (Some (ex_payload deploy nonce)).

(** A block that deploys the counter and calls it twice. *)
Definition ex_avm_block : Block :=
  mkBlock (mkHeader 7 (zero_arr 32) (zero_arr 32) 1000 0 [] 0 0 []) [ex_avm_tx true 0; ex_avm_tx false 1; ex_avm_tx false 2].
Definition ex_state : LevelStore := mkLevel ∅.
Definition ex_prepared : PreparedBlock := Eval vm_compute in
  match PrepareBlock ex_state ex_avm_block with Ok p => p | Err _ => mkPrepared 0 (zero_arr 32) [] [] (zero_arr 32) end.

Lemma ex_prepared_ok : PrepareBlock ex_state ex_avm_block = Ok ex_prepared.
Proof. vm_compute. reflexivity. Qed.

(** The deployment runs the code once too. *)
Example counted_to_three :
  upds (view ex_state) (p_Writes ex_prepared) (contract_prefix (Avm.ContractID (ex_payload true 0)) ++ [x6b]) = Some [x03] /\
  r_GasUsed <$> p_Receipts ex_prepared = [230; 230; 230].
Proof. split; vm_compute; reflexivity. Qed.

Definition ex_direct : LevelStore * list Receipt := Eval vm_compute in
  match execute_txs (ex_state, []) (Txs ex_avm_block) with Ok s => s | Err _ => (ex_state, []) end.
Lemma ex_direct_ok : execute_txs (ex_state, []) (Txs ex_avm_block) = Ok (ex_direct.1, ex_direct.2).
Proof. vm_compute. reflexivity. Qed.

Lemma ex_well_named : well_named (Txs ex_avm_block).
Proof.
  unfold well_named. apply list.Forall_forall. intros p Hp.
  assert (Hall : forallb (fun p => negb (bool_decide (take 5 (arr_list (Avm.ContractID p)) = metadata)) && is_u64b (Avm.Nonce p))
    (payloads (Txs ex_avm_block)) = true) by (vm_compute; reflexivity).
  rewrite forallb_True in Hall || apply forallb_forall with (x := p) in Hall; [|by apply list_elem_of_In].
  apply andb_true_iff in Hall as [Hm Hn]. split; [|by apply is_u64b_spec]. unfold metadata_free. by zbool.
Qed.

Lemma prepare_deterministic_witness :
  PrepareBlock ex_state ex_avm_block = PrepareBlock NewMemoryStore ex_avm_block.
Proof. apply (prepare_deterministic ex_state NewMemoryStore ex_avm_block). intros k _. reflexivity. Defined.

Lemma nonces_consecutive_witness :
  signer_nonces ex_signer (Txs ex_avm_block) = (fun i => 0 +w i) <$> seqZ 0 (Z.of_nat (length (signer_nonces ex_signer (Txs ex_avm_block)))).
Proof.
  exact (proj1 (nonces_consecutive (Txs ex_avm_block) ex_state ex_direct.1 [] ex_direct.2 ex_signer 0 ex_well_named ex_direct_ok
    ltac:(vm_compute; reflexivity) ltac:(u64lia))).
Defined.

(** A later call leaves the deployed code in place. *)
Definition ex_next : LevelStore * list Receipt := Eval vm_compute in
  match execute_txs (ex_direct.1, []) [ex_avm_tx false 3] with Ok s => s | Err _ => (ex_state, []) end.
Lemma ex_next_ok : execute_txs (ex_direct.1, []) [ex_avm_tx false 3] = Ok (ex_next.1, ex_next.2).
Proof. vm_compute. reflexivity. Qed.

Lemma ex_next_named : well_named [ex_avm_tx false 3].
Proof.
  constructor; [|constructor]. split; [unfold metadata_free; vm_compute; discriminate|]. change (is_u64 3). u64lia.
Qed.

Lemma contracts_protected_witness :
  view ex_next.1 (contractCodeKey (Avm.ContractID (ex_payload true 0))) = Some [x00; x0b].
Proof.
  apply (proj1 (contracts_protected [ex_avm_tx false 3] ex_direct.1 ex_next.1 [] ex_next.2
    (Avm.ContractID (ex_payload true 0)) ex_next_named ex_next_ok)).
  vm_compute. reflexivity.
Defined.

Lemma admission_sound_witness :
  exists prepared, PrepareBlock ex_state (mkBlock (Header ex_avm_block) [ex_avm_tx true 0]) = Ok prepared /\
    length (p_Receipts prepared) = 1%nat.
Proof.
  apply (admission_sound ex_state (mkBlock (Header ex_avm_block) [ex_avm_tx true 0]) (ex_avm_tx true 0) (ex_payload true 0));
    [reflexivity|reflexivity|reflexivity| | |]; vm_compute; reflexivity.
Defined.

Lemma commitment_injective_witness :
  let w := mkWrite [x01] (Some [x02; x03]) in [w] = [w].
Proof.
  apply (commitment_injective [mkWrite [x01] (Some [x02; x03])] [mkWrite [x01] (Some [x02; x03])]); [..|reflexivity];
    (constructor; [split; [vm_compute; reflexivity|exists [x02; x03]; split; [reflexivity|vm_compute; reflexivity]]|constructor]).
Defined.

#[local] Existing Instance BlockStoreProofs.toy_block_json | 0.

Definition ex_committed : LevelStore := Eval vm_compute in
  match CommitCanonicalBlock ex_state ex_avm_block [x00] ex_prepared (Ok []) with Ok s => s | Err _ => ex_state end.
Lemma ex_committed_ok : CommitCanonicalBlock ex_state ex_avm_block [x00] ex_prepared (Ok []) = Ok ex_committed.
Proof. vm_compute. reflexivity. Qed.

Lemma commit_executes_witness :
  exists direct, execute_txs (ex_state, []) (Txs ex_avm_block) = Ok (direct, p_Receipts ex_prepared) /\
    same_view (view ex_committed) (view direct).
Proof.
  destruct (commit_executes ex_state ex_avm_block [x00] ex_prepared [] ex_prepared_ok) as [Hc _].
  - change (is_u64 7). u64lia.
  - intros o s Ho. apply not_elem_of_nil in Ho. destruct Ho.
  - destruct (Hc ex_committed ex_committed_ok) as (direct & Hd & Hv & _). exists direct. split; [exact Hd|exact Hv].
Defined.

End Example.

End AvmBlock.
