(* ===== verification/AvmCheckpoint.v ===== *)
(** Checkpoints of the contract state: [avm/checkpoint.go].

    The snapshot commitment, drafts and their detached signatures, the two verifiers
    and the form a checkpoint has in its file.  JSON and the file system, which carry
    that form, are not modelled.  A signer is an interface of the source, a record of
    its two operations here. *)

From stdpp Require Import base gmap list strings sorting.
From S2P Require Import Prelude Bytes Crypto Avm StakePayload Transaction KeyValue AvmState.
Import Avm StakePayload Transaction KeyValue AvmState.

Module AvmCheckpoint.

Definition AVMCheckpointVersion : Z := 1.
Definition AVMCheckpointQuorumVersion : Z := 2.
Definition MaxAVMCheckpointReplay : Z := 1000000.
Definition maxAVMCheckpointEntries : Z := 10000000.

Definition avmCheckpointDomain : list byte := bytes_of_string "APRO/AVM/CHECKPOINT/V1" ++ [x00].
Definition avmQuorumCheckpointDomain : list byte := bytes_of_string "APRO/AVM/CHECKPOINT/V2" ++ [x00].
Definition avmStateSnapshotDomain : list byte := bytes_of_string "APRO/AVM/SNAPSHOT-STATE/V1" ++ [x00].

(** ** Data *)

(** A nil value is [None]. *)
Record CheckpointEntry := mkEntry { e_Key : list byte; e_Value : option (list byte) }.
Record CheckpointWitnessSignature := mkWitness { w_PublicKey : ValidatorPubKey; w_Signature : list byte }.

Record AVMCheckpoint := mkCheckpoint {
  Version : Z; ActivationHeight : Z; cp_Height : Z;
  GenesisHash : Hash32; BlockHash : Hash32; StateCommitment : Hash32; WriteSetCommitment : Hash32;
  Entries : list CheckpointEntry;
  WitnessPublicKey : ValidatorPubKey; WitnessSignature : list byte;
  WitnessSignatures : list CheckpointWitnessSignature
}.

#[export] Instance CheckpointEntry_eq_dec : EqDecision CheckpointEntry.
Proof. solve_decision. Defined.
#[export] Instance CheckpointWitnessSignature_eq_dec : EqDecision CheckpointWitnessSignature.
Proof. solve_decision. Defined.
#[export] Instance AVMCheckpoint_eq_dec : EqDecision AVMCheckpoint.
Proof. solve_decision. Defined.

(** [CheckpointSigner]. *)
Record CheckpointSigner := mkSigner { Public : ValidatorPubKey; SignHash : Hash32 -> option (list byte) }.

(** The bytes of a value; a nil slice has none. *)
Definition value_bytes (v : option (list byte)) : list byte := default [] v.

(** ** Authorities *)

Definition all_zero (k : list byte) : bool := forallb (fun b => bool_decide (b = x00)) k.

(** One key of the configuration: the keys parsed so far. *)
Definition parse_authority (authorities : list ValidatorPubKey) (encoded : string) : result (list ValidatorPubKey) :=
  need raw from hex_decode encoded else "avm checkpoint: malformed trusted witness key" ;;
  pub ← ValidatorPubKeyFromBytes raw;
  reject all_zero pub with "avm checkpoint: zero trusted witness key" ;;
  reject bool_decide (pub ∈ authorities) with "avm checkpoint: duplicate trusted witness key" ;;
  Ok (authorities ++ [pub]).

Definition ParseCheckpointAuthorities (configured : list string) : result (list ValidatorPubKey) :=
  reject bool_decide (configured = []) with "avm checkpoint: explicit trusted witness key is required" ;;
  foldM parse_authority [] configured.

Definition checkpointAuthorityAllowed (authorities : list ValidatorPubKey) (key : ValidatorPubKey) : bool :=
  existsb (fun a => pub_equals a key) authorities.

Definition validate_authority (seen : list ValidatorPubKey) (a : ValidatorPubKey) : result (list ValidatorPubKey) :=
  reject negb (bool_decide (length a = 32%nat)) with "avm checkpoint: trusted witness key must be 32 bytes" ;;
  reject all_zero a with "avm checkpoint: zero trusted witness key" ;;
  reject bool_decide (a ∈ seen) with "avm checkpoint: duplicate trusted witness key" ;;
  Ok (a :: seen).

Definition validateCheckpointAuthorities (authorities : list ValidatorPubKey) (threshold : Z) : result () :=
  reject threshold <? 2 with "avm checkpoint: quorum threshold must be at least 2" ;;
  reject Z.of_nat (length authorities) <? threshold with "avm checkpoint: quorum threshold exceeds configured authority count" ;;
  _ ← foldM validate_authority [] authorities;
  Ok ().

(** ** Snapshots *)

Definition entry_bytes (e : CheckpointEntry) : list byte :=
  be_encode 8 (zlen (e_Key e)) ++ e_Key e ++ be_encode 8 (zlen (value_bytes (e_Value e))) ++ value_bytes (e_Value e).

(** What the hasher is fed. *)
Definition snapshot_bytes (entries : list CheckpointEntry) : list byte :=
  avmStateSnapshotDomain ++ be_encode 8 (Z.of_nat (length entries)) ++ concat (entry_bytes <$> entries).

(** The next key is not above the one before. *)
Definition misplaced (previous : option (list byte)) (key : list byte) : bool :=
  match previous with Some p => negb (bytes_lt p key) | None => false end.

(** The order of the keys; [previous] is the key of the entry before. *)
Fixpoint check_entries (previous : option (list byte)) (entries : list CheckpointEntry) : result () :=
  match entries with
  | [] => Ok ()
  | e :: entries' =>
      reject bool_decide (e_Key e = []) with "avm checkpoint: empty state key" ;;
      reject misplaced previous (e_Key e)
        with "avm checkpoint: state entries are not strictly key ordered" ;;
      check_entries (Some (e_Key e)) entries'
  end.

Section Checkpoint.
Context `{Crypto}.

Definition StateSnapshotCommitment (entries : list CheckpointEntry) : result Hash32 :=
  reject maxAVMCheckpointEntries <? Z.of_nat (length entries) with "avm checkpoint: too many state entries" ;;
  _ ← check_entries None entries;
  Ok (sha256 (snapshot_bytes entries)).

(** The order of [sort.Slice] by key. *)
Definition entry_le (a b : CheckpointEntry) : Prop := byte_le (e_Key a) (e_Key b).
#[export] Instance entry_le_dec : RelDecision entry_le.
Proof. intros a b. unfold entry_le. apply _. Defined.

Definition canonicalCheckpointEntries (entries : list CheckpointEntry) : result (list CheckpointEntry) :=
  let canonical := merge_sort entry_le entries in
  _ ← StateSnapshotCommitment canonical;
  Ok canonical.

(** ** Signed messages *)

Definition message_parts (c : AVMCheckpoint) : list (list byte) :=
  [be_encode 4 (Version c); be_encode 8 (ActivationHeight c) ++ be_encode 8 (cp_Height c);
   arr_list (GenesisHash c); arr_list (BlockHash c); arr_list (StateCommitment c); arr_list (WriteSetCommitment c)].

Definition checkpointMessage (c : AVMCheckpoint) : Hash32 :=
  HashBytes (avmCheckpointDomain :: message_parts c ++ [WitnessPublicKey c]).
Definition checkpointQuorumMessage (c : AVMCheckpoint) : Hash32 :=
  HashBytes (avmQuorumCheckpointDomain :: message_parts c).

(** ** Drafts *)

Definition NewQuorumCheckpointDraft (activationHeight height : Z) (genesisHash blockHash writeSetCommitment : Hash32)
    (entries : list CheckpointEntry) : result AVMCheckpoint :=
  reject (activationHeight =? 0) || (height <? activationHeight) with "avm checkpoint: invalid activation or checkpoint height" ;;
  reject bool_decide (genesisHash = zeroHash) || bool_decide (blockHash = zeroHash)
    with "avm checkpoint: zero genesis or checkpoint block hash" ;;
  canonicalEntries ← canonicalCheckpointEntries entries;
  stateCommitment ← StateSnapshotCommitment canonicalEntries;
  Ok (mkCheckpoint AVMCheckpointQuorumVersion activationHeight height genesisHash blockHash stateCommitment
        writeSetCommitment canonicalEntries [] [] []).

(** The checks of the heights and of the chain hashes that the validators share. *)
Definition check_binding (c : AVMCheckpoint) (activationHeight : Z) : result () :=
  reject negb (ActivationHeight c =? activationHeight) || (activationHeight =? 0) with "avm checkpoint: activation height mismatch" ;;
  reject (cp_Height c <? activationHeight) || bool_decide (GenesisHash c = zeroHash) || bool_decide (BlockHash c = zeroHash)
    with "avm checkpoint: invalid height or zero chain hash" ;;
  Ok ().

(** The check of the state commitment that the validators share. *)
Definition check_snapshot (c : AVMCheckpoint) : result () :=
  stateCommitment ← StateSnapshotCommitment (Entries c);
  reject negb (bool_decide (stateCommitment = StateCommitment c)) with "avm checkpoint: state commitment mismatch" ;;
  Ok ().

Definition nonempty {A} (l : list A) : bool := negb (bool_decide (length l = 0%nat)).

Definition ValidateQuorumCheckpointDraft (checkpoint : option AVMCheckpoint) (activationHeight : Z) : result () :=
  need c from checkpoint else "avm checkpoint: nil checkpoint draft" ;;
  reject negb (Version c =? AVMCheckpointQuorumVersion) with "avm checkpoint: expected quorum version" ;;
  _ ← check_binding c activationHeight;
  reject nonempty (WitnessPublicKey c) || nonempty (WitnessSignature c) || nonempty (WitnessSignatures c)
    with "avm checkpoint: expected unsigned quorum draft" ;;
  check_snapshot c.

(** Equal lists of entries, a nil value and an empty one being equal bytes. *)
Fixpoint entries_equal (a b : list CheckpointEntry) : bool :=
  match a, b with
  | [], [] => true
  | x :: a', y :: b' =>
      bool_decide (e_Key x = e_Key y) && bool_decide (value_bytes (e_Value x) = value_bytes (e_Value y)) && entries_equal a' b'
  | _, _ => false
  end.

Definition CheckpointPayloadEqual (left right : option AVMCheckpoint) : bool :=
  match left, right with
  | Some l, Some r =>
      (Version l =? Version r) && (ActivationHeight l =? ActivationHeight r) && (cp_Height l =? cp_Height r) &&
      bool_decide (GenesisHash l = GenesisHash r) && bool_decide (BlockHash l = BlockHash r) &&
      bool_decide (StateCommitment l = StateCommitment r) && bool_decide (WriteSetCommitment l = WriteSetCommitment r) &&
      entries_equal (Entries l) (Entries r)
  | _, _ => false
  end.

(** ** Quorum signatures *)

Definition SignCheckpointDraft (checkpoint : option AVMCheckpoint) (activationHeight : Z) (signer : option CheckpointSigner)
    : result CheckpointWitnessSignature :=
  _ ← ValidateQuorumCheckpointDraft checkpoint activationHeight;
  need c from checkpoint else "avm checkpoint: nil checkpoint draft" ;;
  need s from signer else "avm checkpoint: signer is required" ;;
  reject negb (bool_decide (length (Public s) = 32%nat)) with "avm checkpoint: signer public key must be 32 bytes" ;;
  let message := checkpointQuorumMessage c in
  need signature from SignHash s message else "avm checkpoint: sign quorum draft" ;;
  reject negb (pub_verify (Public s) message signature) with "avm checkpoint: signer returned an invalid signature" ;;
  Ok (mkWitness (Public s) signature).

(** One signature of the loop; [previous] is the key of the signature before. *)
Fixpoint check_signatures (authorities : list ValidatorPubKey) (message : Hash32) (previous : option ValidatorPubKey)
    (signatures : list CheckpointWitnessSignature) : result () :=
  match signatures with
  | [] => Ok ()
  | s :: signatures' =>
      reject misplaced previous (w_PublicKey s)
        with "avm checkpoint: witness signatures are not uniquely key ordered" ;;
      reject negb (checkpointAuthorityAllowed authorities (w_PublicKey s)) with "avm checkpoint: unauthorized witness signature" ;;
      reject negb (pub_verify (w_PublicKey s) message (w_Signature s)) with "avm checkpoint: invalid witness signature" ;;
      check_signatures authorities message (Some (w_PublicKey s)) signatures'
  end.

Definition VerifyCheckpointQuorum (checkpoint : option AVMCheckpoint) (activationHeight : Z)
    (authorities : list ValidatorPubKey) (threshold : Z) : result () :=
  need c from checkpoint else "avm checkpoint: nil checkpoint" ;;
  _ ← validateCheckpointAuthorities authorities threshold;
  reject negb (Version c =? AVMCheckpointQuorumVersion) with "avm checkpoint: quorum mode requires version 2" ;;
  _ ← check_binding c activationHeight;
  reject nonempty (WitnessPublicKey c) || nonempty (WitnessSignature c)
    with "avm checkpoint: quorum checkpoint contains legacy v1 signature fields" ;;
  reject Z.of_nat (length (WitnessSignatures c)) <? threshold with "avm checkpoint: insufficient witness signatures" ;;
  reject bool_decide (length authorities < length (WitnessSignatures c))%nat
    with "avm checkpoint: signature count exceeds configured authority count" ;;
  _ ← check_snapshot c;
  check_signatures authorities (checkpointQuorumMessage c) None (WitnessSignatures c).

(** The order of [sort.Slice] by public key. *)
Definition witness_le (a b : CheckpointWitnessSignature) : Prop := byte_le (w_PublicKey a) (w_PublicKey b).
#[export] Instance witness_le_dec : RelDecision witness_le.
Proof. intros a b. unfold witness_le. apply _. Defined.

Definition with_signatures (signatures : list CheckpointWitnessSignature) (c : AVMCheckpoint) : AVMCheckpoint :=
  mkCheckpoint (Version c) (ActivationHeight c) (cp_Height c) (GenesisHash c) (BlockHash c) (StateCommitment c)
    (WriteSetCommitment c) (Entries c) (WitnessPublicKey c) (WitnessSignature c) signatures.

Definition AttachCheckpointSignatures (draft : option AVMCheckpoint) (signatures : list CheckpointWitnessSignature)
    (activationHeight : Z) (authorities : list ValidatorPubKey) (threshold : Z) : result AVMCheckpoint :=
  _ ← ValidateQuorumCheckpointDraft draft activationHeight;
  need d from draft else "avm checkpoint: nil checkpoint draft" ;;
  _ ← validateCheckpointAuthorities authorities threshold;
  let signed := with_signatures (merge_sort witness_le signatures) d in
  _ ← VerifyCheckpointQuorum (Some signed) activationHeight authorities threshold;
  Ok signed.

(** ** Operator checkpoints *)

Definition with_signature (signature : list byte) (c : AVMCheckpoint) : AVMCheckpoint :=
  mkCheckpoint (Version c) (ActivationHeight c) (cp_Height c) (GenesisHash c) (BlockHash c) (StateCommitment c)
    (WriteSetCommitment c) (Entries c) (WitnessPublicKey c) signature (WitnessSignatures c).

Definition SignCheckpoint (activationHeight height : Z) (genesisHash blockHash writeSetCommitment : Hash32)
    (entries : list CheckpointEntry) (signer : option CheckpointSigner) (authorities : list ValidatorPubKey)
    : result AVMCheckpoint :=
  need s from signer else "avm checkpoint: signer is required" ;;
  let pub := Public s in
  reject negb (bool_decide (length pub = 32%nat)) with "avm checkpoint: signer public key must be 32 bytes" ;;
  reject negb (checkpointAuthorityAllowed authorities pub) with "avm checkpoint: local signer is not an explicitly trusted witness" ;;
  reject (activationHeight =? 0) || (height <? activationHeight) with "avm checkpoint: invalid activation or checkpoint height" ;;
  reject bool_decide (genesisHash = zeroHash) || bool_decide (blockHash = zeroHash)
    with "avm checkpoint: zero genesis or checkpoint block hash" ;;
  canonicalEntries ← canonicalCheckpointEntries entries;
  stateCommitment ← StateSnapshotCommitment canonicalEntries;
  let checkpoint := mkCheckpoint AVMCheckpointVersion activationHeight height genesisHash blockHash stateCommitment
                      writeSetCommitment canonicalEntries pub [] [] in
  need signature from SignHash s (checkpointMessage checkpoint) else "avm checkpoint: sign" ;;
  Ok (with_signature signature checkpoint).

Definition VerifyCheckpoint (checkpoint : option AVMCheckpoint) (activationHeight : Z) (authorities : list ValidatorPubKey)
    : result () :=
  need c from checkpoint else "avm checkpoint: nil checkpoint" ;;
  reject negb (Version c =? AVMCheckpointVersion) with "avm checkpoint: unsupported version" ;;
  reject nonempty (WitnessSignatures c) with "avm checkpoint: legacy v1 checkpoint contains v2 witness signatures" ;;
  _ ← check_binding c activationHeight;
  reject negb (checkpointAuthorityAllowed authorities (WitnessPublicKey c)) with "avm checkpoint: witness is not configured as trusted" ;;
  reject negb (bool_decide (length (WitnessPublicKey c) = 32%nat)) with "avm checkpoint: witness public key must be 32 bytes" ;;
  _ ← check_snapshot c;
  reject negb (pub_verify (WitnessPublicKey c) (checkpointMessage c) (WitnessSignature c))
    with "avm checkpoint: invalid trusted witness signature" ;;
  Ok ().

End Checkpoint.

(** ** The form of the file *)

Record WitnessSignatureWire := mkWitnessWire { ww_PublicKey : string; ww_Signature : string }.
Record CheckpointWire := mkWire {
  wr_Version : Z; wr_ActivationHeight : Z; wr_Height : Z;
  wr_GenesisHash : string; wr_BlockHash : string; wr_StateCommitment : string; wr_WriteSetCommitment : string;
  wr_Entries : list CheckpointEntry; wr_WitnessPublicKey : string; wr_WitnessSignature : string;
  wr_WitnessSignatures : list WitnessSignatureWire
}.

Definition checkpointToWire (c : AVMCheckpoint) : CheckpointWire :=
  mkWire (Version c) (ActivationHeight c) (cp_Height c)
    (hex_encode (arr_list (GenesisHash c))) (hex_encode (arr_list (BlockHash c)))
    (hex_encode (arr_list (StateCommitment c))) (hex_encode (arr_list (WriteSetCommitment c)))
    (Entries c) (hex_encode (WitnessPublicKey c)) (hex_encode (WitnessSignature c))
    ((fun s => mkWitnessWire (hex_encode (w_PublicKey s)) (hex_encode (w_Signature s))) <$> WitnessSignatures c).

Definition decodeHash (encoded : string) : result Hash32 :=
  match hex_decode encoded with
  | Some raw => reject negb (bool_decide (length raw = 32%nat)) with "avm checkpoint: malformed hash" ;; Ok (copy_arr 32 raw)
  | None => Err "avm checkpoint: malformed hash"
  end.

Definition decode_signature (encoded : string) : result (list byte) :=
  match hex_decode encoded with
  | Some raw => reject negb (bool_decide (length raw = 64%nat)) with "avm checkpoint: malformed witness signature" ;; Ok raw
  | None => Err "avm checkpoint: malformed witness signature"
  end.

Definition decode_public_key (encoded : string) : result ValidatorPubKey :=
  need raw from hex_decode encoded else "avm checkpoint: malformed witness public key" ;;
  ValidatorPubKeyFromBytes raw.

Definition decode_witness (acc : list CheckpointWitnessSignature) (w : WitnessSignatureWire) : result (list CheckpointWitnessSignature) :=
  pub ← decode_public_key (ww_PublicKey w);
  signature ← decode_signature (ww_Signature w);
  Ok (acc ++ [mkWitness pub signature]).

Definition checkpointFromWire (w : CheckpointWire) : result AVMCheckpoint :=
  genesisHash ← decodeHash (wr_GenesisHash w);
  blockHash ← decodeHash (wr_BlockHash w);
  stateCommitment ← decodeHash (wr_StateCommitment w);
  writeSetCommitment ← decodeHash (wr_WriteSetCommitment w);
  legacy ← (if negb (bool_decide (wr_WitnessPublicKey w = EmptyString)) || negb (bool_decide (wr_WitnessSignature w = EmptyString)) then
              publicKey ← decode_public_key (wr_WitnessPublicKey w);
              signature ← decode_signature (wr_WitnessSignature w);
              Ok (publicKey, signature)
            else Ok ([], []));
  reject maxAVMCheckpointEntries <? Z.of_nat (length (wr_Entries w)) with "avm checkpoint: too many state entries" ;;
  witnessSignatures ← foldM decode_witness [] (wr_WitnessSignatures w);
  Ok (mkCheckpoint (wr_Version w) (wr_ActivationHeight w) (wr_Height w) genesisHash blockHash stateCommitment
        writeSetCommitment (wr_Entries w) legacy.1 legacy.2 witnessSignatures).

(** ** Lists in the strict order of their keys *)

Definition byte_lt (a b : list byte) : Prop := bytes_lt a b = true.

Lemma byte_lt_spec a b : byte_lt a b <-> bytes_compare a b = Lt.
Proof. unfold byte_lt, bytes_lt. by destruct (bytes_compare a b). Qed.

Lemma byte_lt_irrefl a : ~ byte_lt a a.
Proof. rewrite byte_lt_spec, bytes_compare_refl. done. Qed.

#[export] Instance byte_lt_trans : Transitive byte_lt.
Proof.
  intros a b c Hab Hbc. apply byte_lt_spec. assert (Hle : bytes_compare a c <> Gt).
  { apply (bytes_compare_trans a b c); [rewrite (proj1 (byte_lt_spec a b) Hab)|rewrite (proj1 (byte_lt_spec b c) Hbc)]; done. }
  destruct (bytes_compare a c) eqn:E; [|done|done]. apply bytes_compare_eq in E as ->.
  apply byte_lt_spec in Hab, Hbc. rewrite bytes_compare_antisym, Hab in Hbc. discriminate.
Qed.

Lemma byte_le_lt a b : byte_le a b -> a <> b -> byte_lt a b.
Proof.
  unfold byte_le. rewrite bytes_le_spec, byte_lt_spec. intros Hle Hne. destruct (bytes_compare a b) eqn:E; try done.
  by apply bytes_compare_eq in E.
Qed.

Lemma byte_lt_le a b : byte_lt a b -> byte_le a b.
Proof. unfold byte_le. rewrite bytes_le_spec, byte_lt_spec. by intros ->. Qed.

Section Keyed.
Context {A : Type} (key : A -> list byte).

Definition ascending (l : list A) : Prop := StronglySorted (fun a b => byte_lt (key a) (key b)) l.
(** The key before a list. *)
Definition after (p : option (list byte)) (l : list A) : Prop :=
  match p with Some p => Forall (fun a => byte_lt p (key a)) l | None => True end.

Lemma ascending_NoDup l : ascending l -> NoDup (key <$> l).
Proof.
  induction 1 as [|a l _ IH Hall]; cbn; [constructor|]. constructor; [|done]. intros Hin.
  apply list_elem_of_fmap in Hin as (b & E & Hb). rewrite list.Forall_forall in Hall.
  apply (byte_lt_irrefl (key b)). rewrite <- E at 1. by apply Hall.
Qed.

Lemma after_ascending p a l : after p [a] -> ascending (a :: l) -> after p (a :: l).
Proof.
  destruct p as [p|]; [|done]. cbn. intros Hp Hs. rewrite list.Forall_singleton in Hp. apply StronglySorted_inv in Hs as [_ Hall]. apply list.Forall_cons. split; [done|].
  eapply list.Forall_impl; [exact Hall|]. intros b Hb. by transitivity (key a).
Qed.

Lemma misplaced_spec p a l :
  if misplaced p (key a) then ~ after p (a :: l) else after p [a].
Proof.
  destruct p as [p|]; [|done]. cbn. destruct (bytes_lt p (key a)) eqn:E; cbn.
  - by apply list.Forall_singleton.
  - intros Hl. apply list.Forall_cons in Hl as [Hl _]. unfold byte_lt in Hl. congruence.
Qed.

Lemma ascending_unique l l' : ascending l -> ascending l' -> l ≡ₚ l' -> l = l'.
Proof.
  apply StronglySorted_unique_strong. intros x y _ _ Hxy Hyx. destruct (byte_lt_irrefl (key x)).
  by transitivity (key y).
Qed.

Lemma sort_ascending (R : relation A) `{!RelDecision R} l : (forall a b, R a b <-> byte_le (key a) (key b)) ->
  NoDup (key <$> l) -> ascending (merge_sort R l).
Proof.
  intros HR Hnd. assert (Hs : StronglySorted R (merge_sort R l)).
  { apply StronglySorted_merge_sort; [intros a b c|intros a b]; rewrite !HR; [apply byte_le_trans|apply byte_le_total]. }
  assert (Hn : NoDup (key <$> merge_sort R l)) by by rewrite merge_sort_Permutation.
  revert Hs Hn. generalize (merge_sort R l) as s. clear l Hnd. induction 1 as [|a s _ IH Hall]; [constructor|]. cbn.
  intros [Ha Hn]%list.NoDup_cons. constructor; [by apply IH|]. apply list.Forall_forall. intros b Hb.
  rewrite list.Forall_forall in Hall. apply byte_le_lt; [by apply HR, Hall|]. intros E. apply Ha. rewrite E. by apply list_elem_of_fmap_2.
Qed.

Lemma sort_of_ascending (R : relation A) `{!RelDecision R} l l' : (forall a b, R a b <-> byte_le (key a) (key b)) ->
  ascending l -> l ≡ₚ l' -> merge_sort R l' = l.
Proof.
  intros HR Hl Hp. apply ascending_unique; [|done|by rewrite merge_sort_Permutation].
  apply (sort_ascending R); [done|]. rewrite <- Hp. by apply ascending_NoDup.
Qed.

End Keyed.

(** ** The checks *)

Lemma check_entries_spec p es :
  check_entries p es = Ok () <-> ascending e_Key es /\ after e_Key p es /\ Forall (fun e => e_Key e <> []) es.
Proof.
  revert p. induction es as [|e es IH]; intros p; cbn [check_entries].
  - split; [|done]. intros _. split_and!; [apply SSorted_nil|destruct p; [apply list.Forall_nil|]; done|by apply list.Forall_nil].
  - case_bool_decide as Hk.
    { split; [done|]. intros (_ & _ & Hne). by apply list.Forall_cons in Hne as [??]. }
    assert (Hp := misplaced_spec e_Key p e es). destruct (misplaced p (e_Key e)).
    { split; [done|]. intros (_ & Ha & _). by destruct Hp. }
    rewrite IH. split.
    + intros (Hs & Ha & Hne). assert (Hes : ascending e_Key (e :: es)) by by apply SSorted_cons.
      split_and!; [done|by apply after_ascending|by apply list.Forall_cons].
    + intros (Hs & _ & Hne). apply StronglySorted_inv in Hs as [Hs Ha]. by apply list.Forall_cons in Hne as [_ Hne].
Qed.

Section Checks.
Context `{Crypto}.

Lemma allowed_spec auths k : checkpointAuthorityAllowed auths k = true <-> k ∈ auths.
Proof.
  unfold checkpointAuthorityAllowed, pub_equals. rewrite existsb_exists. split.
  - intros (a & Ha & ->%bool_decide_eq_true). by apply list_elem_of_In.
  - intros Hk. exists k. split; [by apply list_elem_of_In|by apply bool_decide_eq_true].
Qed.

(** A signature of a configured witness over the message. *)
Definition authentic (auths : list ValidatorPubKey) (message : Hash32) (s : CheckpointWitnessSignature) : Prop :=
  w_PublicKey s ∈ auths /\ pub_verify (w_PublicKey s) message (w_Signature s) = true.

Lemma check_signatures_spec auths message p ss :
  check_signatures auths message p ss = Ok () <->
  ascending w_PublicKey ss /\ after w_PublicKey p ss /\ Forall (authentic auths message) ss.
Proof.
  revert p. induction ss as [|s ss IH]; intros p; cbn [check_signatures].
  - split; [|done]. intros _. split_and!; [apply SSorted_nil|destruct p; [apply list.Forall_nil|]; done|by apply list.Forall_nil].
  - assert (Hp := misplaced_spec w_PublicKey p s ss). destruct (misplaced p (w_PublicKey s)).
    { split; [done|]. intros (_ & Ha & _). by destruct Hp. }
    destruct (checkpointAuthorityAllowed auths (w_PublicKey s)) eqn:Ea; cbn [negb].
    2:{ split; [done|]. intros (_ & _ & Hg). apply list.Forall_cons in Hg as [[Hg%allowed_spec _] _]. congruence. }
    destruct (pub_verify _ _ _) eqn:Ev; cbn [negb].
    2:{ split; [done|]. intros (_ & _ & Hg). apply list.Forall_cons in Hg as [[_ Hg] _]. congruence. }
    rewrite IH. split.
    + intros (Hs & Ha & Hg). assert (Hss : ascending w_PublicKey (s :: ss)) by by apply SSorted_cons.
      split_and!; [done|by apply after_ascending|]. apply list.Forall_cons. by repeat split; [apply allowed_spec|..].
    + intros (Hs & _ & Hg). apply StronglySorted_inv in Hs as [Hs Ha]. by apply list.Forall_cons in Hg as [_ Hg].
Qed.

(** Distinct witnesses are no more than there are authorities. *)
Lemma witnesses_bounded auths message ss : NoDup (w_PublicKey <$> ss) -> Forall (authentic auths message) ss ->
  (length ss <= length auths)%nat.
Proof.
  intros Hnd Hall. rewrite <- (length_fmap w_PublicKey). apply submseteq_length, NoDup_submseteq; [done|].
  intros k (s & -> & Hs)%list_elem_of_fmap. rewrite list.Forall_forall in Hall. by apply Hall.
Qed.

Lemma authorities_fold seen auths r : foldM validate_authority seen auths = Ok r ->
  NoDup seen -> NoDup auths /\ Forall (fun a => length a = 32%nat /\ all_zero a = false /\ a ∉ seen) auths.
Proof.
  revert seen. induction auths as [|a auths IH]; intros seen; cbn [foldM]; [by split; [constructor|]|].
  intros Hf Hs. apply bind_ok in Hf as (x & Hx & Hf). unfold validate_authority in Hx.
  apply reject_ok in Hx as (Hl & Hx). apply reject_ok in Hx as (Hz & Hx). apply reject_ok in Hx as (Hd & Hx).
  apply Ok_inj in Hx as <-. zbool. apply IH in Hf as (Hnd & Hall); [|by apply list.NoDup_cons].
  split.
  - apply list.NoDup_cons. split; [|done]. intros Ha. rewrite list.Forall_forall in Hall.
    destruct (Hall a Ha) as (_ & _ & Hn). apply Hn. by left.
  - apply list.Forall_cons. split; [done|]. eapply list.Forall_impl; [exact Hall|]. intros b (Hb & Hbz & Hbs).
    split_and!; try done. intros Hin. apply Hbs. by right.
Qed.

Lemma authorities_ok auths threshold : validateCheckpointAuthorities auths threshold = Ok () ->
  2 <= threshold <= Z.of_nat (length auths) /\ NoDup auths /\ Forall (fun a => length a = 32%nat) auths.
Proof.
  unfold validateCheckpointAuthorities. intros (Ht & E)%reject_ok. apply reject_ok in E as (Hn & E).
  apply bind_ok in E as (r & Hf & _). zbool. apply authorities_fold in Hf as (Hnd & Hall); [|constructor].
  split; [lia|]. split; [done|]. eapply list.Forall_impl; [exact Hall|]. by intros a (? & _).
Qed.

Lemma nonempty_false {A} (l : list A) : nonempty l = false <-> l = [].
Proof. unfold nonempty. rewrite negb_false_iff, bool_decide_eq_true. by destruct l. Qed.

(** What the draft check accepts. *)
Lemma draft_ok d act : ValidateQuorumCheckpointDraft (Some d) act = Ok () <->
  Version d = AVMCheckpointQuorumVersion /\ check_binding d act = Ok () /\
  WitnessPublicKey d = [] /\ WitnessSignature d = [] /\ WitnessSignatures d = [] /\ check_snapshot d = Ok ().
Proof.
  cbn [ValidateQuorumCheckpointDraft]. destruct (Version d =? _) eqn:Ev; cbn [negb];
    [|split; [done|]; intros (E & _); zbool; lia].
  destruct (check_binding d act) as [[]|e]; cbn [mbind result_bind]; [|split; [done|by intros (_ & ? & _)]].
  apply Z.eqb_eq in Ev. rewrite <- !nonempty_false.
  destruct (nonempty (WitnessPublicKey d)), (nonempty (WitnessSignature d)), (nonempty (WitnessSignatures d)); cbn [orb];
    intuition done.
Qed.

(** What the quorum check accepts. *)
Lemma quorum_ok c act auths threshold : VerifyCheckpointQuorum (Some c) act auths threshold = Ok () <->
  validateCheckpointAuthorities auths threshold = Ok () /\
  Version c = AVMCheckpointQuorumVersion /\ check_binding c act = Ok () /\
  WitnessPublicKey c = [] /\ WitnessSignature c = [] /\ check_snapshot c = Ok () /\
  threshold <= Z.of_nat (length (WitnessSignatures c)) /\ ascending w_PublicKey (WitnessSignatures c) /\
  Forall (authentic auths (checkpointQuorumMessage c)) (WitnessSignatures c).
Proof.
  cbn [VerifyCheckpointQuorum]. destruct (validateCheckpointAuthorities auths threshold) as [[]|]; cbn [mbind result_bind];
    [|split; [done|by intros (? & _)]].
  destruct (Version c =? _) eqn:Ev; cbn [negb]; [|split; [done|]; intros (_ & E & _); zbool; lia].
  destruct (check_binding c act) as [[]|e]; cbn [mbind result_bind]; [|split; [done|by intros (_ & _ & ? & _)]].
  apply Z.eqb_eq in Ev. rewrite <- !(nonempty_false (WitnessPublicKey c)), <- !(nonempty_false (WitnessSignature c)).
  destruct (nonempty (WitnessPublicKey c)), (nonempty (WitnessSignature c)); cbn [orb]; try (intuition done).
  destruct (_ <? threshold) eqn:Et; [split; [done|]; intros (_ & _ & _ & _ & _ & _ & Hle & _); zbool; lia|].
  case_bool_decide as Hmax.
  { split; [done|]. intros (_ & _ & _ & _ & _ & _ & _ & Hs & Hall).
    assert (Hb := witnesses_bounded auths _ _ (ascending_NoDup _ _ Hs) Hall). lia. }
  destruct (check_snapshot c) as [[]|]; cbn [mbind result_bind]; [|split; [done|by intros (_ & _ & _ & _ & _ & ? & _)]].
  rewrite check_signatures_spec. zbool. cbn [after]. intuition lia.
Qed.

End Checks.

(** ** What a snapshot commits to *)

(** The lengths of an entry fit their headers, as lengths of slices do. *)
Definition sized_entry (e : CheckpointEntry) : Prop := is_u64 (zlen (e_Key e)) /\ is_u64 (zlen (value_bytes (e_Value e))).

Lemma length_prefix_inj a b x y : is_u64 (zlen a) -> is_u64 (zlen b) ->
  be_encode 8 (zlen a) ++ a ++ x = be_encode 8 (zlen b) ++ b ++ y -> a = b /\ x = y.
Proof.
  intros Ha Hb E. apply app_inj_prefix in E as [El E]; [|by rewrite !length_be_encode].
  apply (f_equal be_decode) in El. rewrite !be_decode_encode8 in El by done.
  apply app_inj_prefix in E; [done|]. unfold zlen in El. lia.
Qed.

Lemma entry_bytes_inj e e' x y : sized_entry e -> sized_entry e' -> entry_bytes e ++ x = entry_bytes e' ++ y ->
  e_Key e = e_Key e' /\ value_bytes (e_Value e) = value_bytes (e_Value e') /\ x = y.
Proof.
  intros [Hk Hv] [Hk' Hv']. unfold entry_bytes. rewrite <- !app_assoc. intros E.
  apply length_prefix_inj in E as [Ek E]; [|done..]. by apply length_prefix_inj in E as [Ev E].
Qed.

Lemma snapshot_bytes_inj es : forall es', Forall sized_entry es -> Forall sized_entry es' ->
  length es = length es' -> concat (entry_bytes <$> es) = concat (entry_bytes <$> es') -> entries_equal es es' = true.
Proof.
  induction es as [|e es IH]; intros [|e' es'] Hs Hs' Hl E; try done.
  apply list.Forall_cons in Hs as [He Hs], Hs' as [He' Hs']. cbn in E.
  apply entry_bytes_inj in E as (Ek & Ev & E); [|done..]. cbn [entries_equal].
  rewrite (bool_decide_eq_true_2 _ Ek), (bool_decide_eq_true_2 _ Ev). apply IH; [done..| |done]. by injection Hl.
Qed.

Section Commitment.
Context `{Crypto}.

Lemma snapshot_commitment_ok es h : StateSnapshotCommitment es = Ok h ->
  Z.of_nat (length es) <= maxAVMCheckpointEntries /\ ascending e_Key es /\ Forall (fun e => e_Key e <> []) es /\ h = sha256 (snapshot_bytes es).
Proof.
  unfold StateSnapshotCommitment. intros (Hm & E)%reject_ok. apply bind_ok in E as ([] & Hc & E). apply Ok_inj in E as <-.
  apply check_entries_spec in Hc as (Ha & _ & Hne). zbool. done.
Qed.

Lemma check_snapshot_ok c : check_snapshot c = Ok () <-> StateSnapshotCommitment (Entries c) = Ok (StateCommitment c).
Proof.
  unfold check_snapshot. destruct (StateSnapshotCommitment (Entries c)) as [h|e]; cbn [mbind result_bind]; [|split; done].
  destruct (bool_decide (h = StateCommitment c)) eqn:E; cbn [negb].
  - apply bool_decide_eq_true in E as ->. done.
  - apply bool_decide_eq_false in E. split; [done|]. by intros ?%Ok_inj.
Qed.

(** Two snapshots with one commitment are the same state, or exhibit a collision. *)
Lemma commitment_binds es es' h : Forall sized_entry es -> Forall sized_entry es' ->
  StateSnapshotCommitment es = Ok h -> StateSnapshotCommitment es' = Ok h ->
  entries_equal es es' = true \/ (snapshot_bytes es <> snapshot_bytes es' /\ sha256 (snapshot_bytes es) = sha256 (snapshot_bytes es')).
Proof.
  intros Hs Hs' (Hm & _ & _ & ->)%snapshot_commitment_ok (Hm' & _ & _ & Hh)%snapshot_commitment_ok.
  destruct (decide (snapshot_bytes es = snapshot_bytes es')) as [E|E]; [left|by right].
  unfold snapshot_bytes in E. apply app_inj_prefix in E as [_ E]; [|done].
  apply app_inj_prefix in E as [El E]; [|by rewrite !length_be_encode].
  apply (f_equal be_decode) in El. unfold maxAVMCheckpointEntries in *. rewrite !be_decode_encode8 in El by u64lia.
  apply snapshot_bytes_inj; [done..|lia|done].
Qed.

(** No entry with a null value, as the drafts of a node have it. *)
Definition valued (es : list CheckpointEntry) : Prop := Forall (fun e => is_Some (e_Value e)) es.

Lemma entries_equal_eq es es' : entries_equal es es' = true -> valued es -> valued es' -> es = es'.
Proof.
  revert es'. induction es as [|[k v] es IH]; intros [|[k' v'] es'] E Hv Hv'; try done.
  apply list.Forall_cons in Hv as [[x Hx] Hv], Hv' as [[x' Hx'] Hv']. cbn in *. subst v v'.
  apply andb_true_iff in E as [[Ek Ex]%andb_true_iff E]. apply bool_decide_eq_true in Ek, Ex. cbn in Ex.
  subst. f_equal. by apply IH.
Qed.

(** ** Drafts and signatures *)

(** A draft does not depend on the order in which the state was read. *)
Lemma draft_order_free act h g b w es es' : NoDup (e_Key <$> es) -> es ≡ₚ es' ->
  NewQuorumCheckpointDraft act h g b w es = NewQuorumCheckpointDraft act h g b w es'.
Proof.
  intros Hnd Hp. unfold NewQuorumCheckpointDraft, canonicalCheckpointEntries.
  assert (E : merge_sort entry_le es = merge_sort entry_le es'); [|by rewrite E].
  symmetry. apply (sort_of_ascending e_Key); [done|by apply sort_ascending|]. by rewrite merge_sort_Permutation.
Qed.

(** A draft of a state passes the check a witness makes before signing. *)
Lemma draft_valid act h g b w es d : NewQuorumCheckpointDraft act h g b w es = Ok d ->
  ValidateQuorumCheckpointDraft (Some d) act = Ok () /\ Entries d = merge_sort entry_le es.
Proof.
  unfold NewQuorumCheckpointDraft. intros (Ha & E)%reject_ok. apply reject_ok in E as (Hz & E).
  apply bind_ok in E as (es' & Hes & E). apply bind_ok in E as (sc & Hsc & E). apply Ok_inj in E as <-.
  unfold canonicalCheckpointEntries in Hes. apply bind_ok in Hes as (h' & _ & Hes). apply Ok_inj in Hes as <-.
  split; [|done]. apply draft_ok. cbn -[check_snapshot]. split; [done|].
  apply orb_false_iff in Ha as [Ha0 Ha1], Hz as [Hg Hb]. unfold check_binding. cbn. rewrite Z.eqb_refl, Ha0, Ha1, Hg, Hb.
  split_and!; try done. by apply check_snapshot_ok.
Qed.

Lemma with_signatures_message ss c : checkpointQuorumMessage (with_signatures ss c) = checkpointQuorumMessage c.
Proof. done. Qed.

(** The conditions under which collected signatures make a checkpoint. *)
Definition quorum_set (auths : list ValidatorPubKey) (threshold : Z) (message : Hash32) (ss : list CheckpointWitnessSignature) : Prop :=
  threshold <= Z.of_nat (length ss) /\ NoDup (w_PublicKey <$> ss) /\ Forall (authentic auths message) ss.

Lemma quorum_set_perm auths threshold message ss ss' : ss ≡ₚ ss' ->
  quorum_set auths threshold message ss -> quorum_set auths threshold message ss'.
Proof. unfold quorum_set. by intros ->. Qed.

(** Signatures that the witnesses return for a draft. *)
Lemma signed_authentic d act auths s w : SignCheckpointDraft (Some d) act (Some s) = Ok w -> Public s ∈ auths ->
  w_PublicKey w = Public s /\ authentic auths (checkpointQuorumMessage d) w.
Proof.
  unfold SignCheckpointDraft. intros E Hin. apply bind_ok in E as ([] & _ & E). apply reject_ok in E as (_ & E).
  destruct (SignHash s _) as [sg|]; [|done]. apply reject_ok in E as (Hv & E). apply Ok_inj in E as <-.
  split; [done|]. split; [done|]. by apply negb_false_iff in Hv.
Qed.

Lemma attach_ok d ss act auths threshold c :
  ValidateQuorumCheckpointDraft (Some d) act = Ok () -> validateCheckpointAuthorities auths threshold = Ok () ->
  AttachCheckpointSignatures (Some d) ss act auths threshold = Ok c <->
  quorum_set auths threshold (checkpointQuorumMessage d) ss /\ c = with_signatures (merge_sort witness_le ss) d.
Proof.
  intros Hd Ha. unfold AttachCheckpointSignatures. rewrite Hd, Ha. cbn [mbind result_bind].
  apply draft_ok in Hd as (Hv & Hb & Hk & Hs & _ & Hc).
  assert (Hq : VerifyCheckpointQuorum (Some (with_signatures (merge_sort witness_le ss) d)) act auths threshold = Ok () <->
               quorum_set auths threshold (checkpointQuorumMessage d) ss).
  { rewrite quorum_ok, with_signatures_message. cbn [Version WitnessPublicKey WitnessSignature WitnessSignatures with_signatures].
    assert (Hp := merge_sort_Permutation witness_le ss). split.
    - intros (_ & _ & _ & _ & _ & _ & Ht & Hasc & Hall). apply (quorum_set_perm _ _ _ _ _ Hp).
      split_and!; [done|by apply ascending_NoDup|done].
    - intros Hqs. assert (Hasc : ascending w_PublicKey (merge_sort witness_le ss)) by (apply sort_ascending; [done|apply Hqs]).
      symmetry in Hp. apply (quorum_set_perm _ _ _ _ _ Hp) in Hqs as (Ht & _ & Hall). by split_and!. }
  destruct (VerifyCheckpointQuorum _ act auths threshold) as [[]|e]; cbn [mbind result_bind].
  - split; [intros <-%Ok_inj; split; [by apply Hq|done]|]. by intros (_ & ->).
  - split; [done|]. intros (Hqs & _). by apply Hq in Hqs.
Qed.

(** ** The file *)

Definition wire_ok (c : AVMCheckpoint) : Prop :=
  Z.of_nat (length (Entries c)) <= maxAVMCheckpointEntries /\
  ((WitnessPublicKey c = [] /\ WitnessSignature c = []) \/ (length (WitnessPublicKey c) = 32%nat /\ length (WitnessSignature c) = 64%nat)) /\
  Forall (fun s => length (w_PublicKey s) = 32%nat /\ length (w_Signature s) = 64%nat) (WitnessSignatures c).

Lemma decodeHash_encode (h : Hash32) : decodeHash (hex_encode (arr_list h)) = Ok h.
Proof.
  unfold decodeHash. rewrite hex_decode_encode, bool_decide_eq_true_2 by apply arr_length. cbn. by rewrite copy_arr_list.
Qed.

Lemma decode_key_encode k : length k = 32%nat -> decode_public_key (hex_encode k) = Ok k.
Proof. intros Hk. unfold decode_public_key, ValidatorPubKeyFromBytes. by rewrite hex_decode_encode, bool_decide_eq_true_2. Qed.

Lemma decode_signature_encode k : length k = 64%nat -> decode_signature (hex_encode k) = Ok k.
Proof. intros Hk. unfold decode_signature. by rewrite hex_decode_encode, bool_decide_eq_true_2. Qed.

Lemma hex_encode_nonempty k : k <> [] -> hex_encode k <> EmptyString.
Proof. by destruct k. Qed.

Lemma decode_witnesses ss : forall acc, Forall (fun s => length (w_PublicKey s) = 32%nat /\ length (w_Signature s) = 64%nat) ss ->
  foldM decode_witness acc ((fun s => mkWitnessWire (hex_encode (w_PublicKey s)) (hex_encode (w_Signature s))) <$> ss) = Ok (acc ++ ss).
Proof.
  induction ss as [|[k g] ss IH]; intros acc Hall; cbn [fmap list_fmap foldM]; [by rewrite app_nil_r|].
  apply list.Forall_cons in Hall as [[Hk Hg] Hall]. cbn [w_PublicKey w_Signature] in *.
  assert (E : decode_witness acc (mkWitnessWire (hex_encode k) (hex_encode g)) = Ok (acc ++ [mkWitness k g])).
  { unfold decode_witness. cbn [ww_PublicKey ww_Signature]. by rewrite decode_key_encode, decode_signature_encode. }
  rewrite E. cbn [mbind result_bind]. rewrite IH by done. by rewrite <- app_assoc.
Qed.

Lemma wire_round_trip c : wire_ok c -> checkpointFromWire (checkpointToWire c) = Ok c.
Proof.
  intros (Hm & Hl & Hs). unfold checkpointFromWire, checkpointToWire.
  cbn [wr_GenesisHash wr_BlockHash wr_StateCommitment wr_WriteSetCommitment wr_Entries wr_WitnessPublicKey wr_WitnessSignature
       wr_WitnessSignatures wr_Version wr_ActivationHeight wr_Height].
  rewrite !decodeHash_encode. cbn [mbind result_bind].
  assert (Ht : (maxAVMCheckpointEntries <? Z.of_nat (length (Entries c))) = false) by lia.
  destruct Hl as [[Ek Es]|[Hk Hg]].
  - rewrite Ek, Es. cbn [hex_encode]. rewrite !bool_decide_eq_true_2 by done. cbn [negb orb mbind result_bind].
    rewrite Ht, decode_witnesses by done. cbn [mbind result_bind app fst snd]. destruct c; cbn in *. by rewrite Ek, Es.
  - rewrite (bool_decide_eq_false_2 (hex_encode (WitnessPublicKey c) = EmptyString)) by (apply hex_encode_nonempty; by destruct (WitnessPublicKey c)).
    cbn [negb orb]. rewrite decode_key_encode, decode_signature_encode by done. cbn [mbind result_bind].
    rewrite Ht, decode_witnesses by done. cbn [mbind result_bind app fst snd]. by destruct c.
Qed.

Lemma verify_length k m g : pub_verify k m g = true -> length g = 64%nat.
Proof. unfold pub_verify. destruct (bool_decide (length g = 64%nat)) eqn:E; [by apply bool_decide_eq_true in E|done]. Qed.

Lemma snapshot_bounded c : check_snapshot c = Ok () -> Z.of_nat (length (Entries c)) <= maxAVMCheckpointEntries.
Proof. intros Hc%check_snapshot_ok. by apply snapshot_commitment_ok in Hc as (? & _). Qed.

Lemma quorum_wire_ok c act auths threshold : VerifyCheckpointQuorum (Some c) act auths threshold = Ok () -> wire_ok c.
Proof.
  intros (Ha & _ & _ & Hk & Hs & Hc & _ & _ & Hall)%quorum_ok. apply authorities_ok in Ha as (_ & _ & Hlen).
  split; [by apply snapshot_bounded|]. split; [by left|]. eapply list.Forall_impl; [exact Hall|].
  intros s [Hin Hv]. split; [|by apply verify_length in Hv]. rewrite list.Forall_forall in Hlen. by apply Hlen.
Qed.

Lemma operator_wire_ok c act auths : VerifyCheckpoint (Some c) act auths = Ok () -> wire_ok c.
Proof.
  cbn [VerifyCheckpoint]. intros (_ & E)%reject_ok. apply reject_ok in E as (Hs & E). apply bind_ok in E as ([] & _ & E).
  apply reject_ok in E as (_ & E). apply reject_ok in E as (Hl & E). apply bind_ok in E as ([] & Hc & E). apply reject_ok in E as (Hv & _).
  apply nonempty_false in Hs. apply negb_false_iff, bool_decide_eq_true in Hl. apply negb_false_iff, verify_length in Hv.
  split; [by apply snapshot_bounded|]. split; [by right|]. by rewrite Hs.
Qed.

(** ** The signed message *)

Definition message_bytes (c : AVMCheckpoint) : list byte := concat (avmQuorumCheckpointDomain :: message_parts c).

Lemma message_bytes_inj c c' : is_u32 (Version c) -> is_u32 (Version c') -> is_u64 (ActivationHeight c) -> is_u64 (ActivationHeight c') ->
  is_u64 (cp_Height c) -> is_u64 (cp_Height c') -> message_bytes c = message_bytes c' ->
  Version c = Version c' /\ ActivationHeight c = ActivationHeight c' /\ cp_Height c = cp_Height c' /\ GenesisHash c = GenesisHash c' /\
  BlockHash c = BlockHash c' /\ StateCommitment c = StateCommitment c' /\ WriteSetCommitment c = WriteSetCommitment c'.
Proof.
  intros Hv Hv' Ha Ha' Hh Hh' E. unfold message_bytes, message_parts in E. cbn [concat] in E.
  apply app_inj_prefix in E as [_ E]; [|done].
  apply app_inj_prefix in E as [Ev E]; [|by rewrite !length_be_encode]. rewrite <- !app_assoc in E.
  apply app_inj_prefix in E as [Ea E]; [|by rewrite !length_be_encode].
  apply app_inj_prefix in E as [Eh E]; [|by rewrite !length_be_encode].
  do 4 (apply app_inj_prefix in E as [?E0 E]; [|by rewrite !arr_length]).
  apply (f_equal be_decode) in Ev, Ea, Eh. rewrite !be_decode_encode4 in Ev by done. rewrite !be_decode_encode8 in Ea, Eh by done.
  split_and!; try done; by apply arr_ext.
Qed.

Lemma entries_equal_refl es : entries_equal es es = true.
Proof. induction es as [|e es IH]; [done|]. cbn. by rewrite !bool_decide_eq_true_2. Qed.

Lemma payload_of_signed ss d : CheckpointPayloadEqual (Some (with_signatures ss d)) (Some d) = true.
Proof. cbn. by rewrite !Z.eqb_refl, !bool_decide_eq_true_2, entries_equal_refl. Qed.

Lemma check_binding_act c act : check_binding c act = Ok () -> ActivationHeight c = act.
Proof. unfold check_binding. intros (Ha & _)%reject_ok. apply orb_false_iff in Ha as [Ha _]. by zbool. Qed.

(** One message of two accepted checkpoints means one payload, up to collisions. *)
Lemma same_message act threshold auths c c' :
  VerifyCheckpointQuorum (Some c) act auths threshold = Ok () -> VerifyCheckpointQuorum (Some c') act auths threshold = Ok () ->
  is_u64 act -> is_u64 (cp_Height c) -> is_u64 (cp_Height c') ->
  Forall sized_entry (Entries c) -> Forall sized_entry (Entries c') ->
  checkpointQuorumMessage c = checkpointQuorumMessage c' ->
  CheckpointPayloadEqual (Some c) (Some c') = true \/
  (message_bytes c <> message_bytes c' /\ sha256 (message_bytes c) = sha256 (message_bytes c')) \/
  (snapshot_bytes (Entries c) <> snapshot_bytes (Entries c') /\ sha256 (snapshot_bytes (Entries c)) = sha256 (snapshot_bytes (Entries c'))).
Proof.
  intros (_ & Hv & Hb & _ & _ & Hc & _)%quorum_ok (_ & Hv' & Hb' & _ & _ & Hc' & _)%quorum_ok Hact Hh Hh' Hs Hs' E.
  apply check_binding_act in Hb, Hb'. apply check_snapshot_ok in Hc, Hc'.
  destruct (decide (message_bytes c = message_bytes c')) as [Eb|Eb]; [|by right; left].
  apply message_bytes_inj in Eb as (Ev & Ea & Eh & Eg & Ebh & Es & Ew); [|by rewrite ?Hv, ?Hv', ?Hb, ?Hb'..].
  rewrite <- Es in Hc'. destruct (commitment_binds _ _ _ Hs Hs' Hc Hc') as [Ee|Ee]; [left|by right; right].
  cbn. by rewrite Ev, Ea, Eh, Eg, Ebh, Es, Ew, !Z.eqb_refl, !bool_decide_eq_true_2.
Qed.

Lemma authentic_keys auths message ss : Forall (authentic auths message) ss -> w_PublicKey <$> ss ⊆ auths.
Proof. intros Hall k (s & -> & Hs)%list_elem_of_fmap. rewrite list.Forall_forall in Hall. by apply Hall. Qed.

Lemma size_list_to_set_le (l : list (list byte)) : (size (list_to_set l : gset (list byte)) <= length l)%nat.
Proof.
  induction l as [|k l IH]; [done|]. cbn [list_to_set length]. rewrite size_union_alt, size_singleton.
  assert (Hle : (size ((list_to_set l : gset (list byte)) ∖ {[k]}) <= size (list_to_set l : gset (list byte)))%nat)
    by (apply subseteq_size; set_solver). lia.
Qed.

(** Two sets of authorities that together outnumber all of them and the faulty ones
    have an honest key in common. *)
Lemma common_key (auths faulty ks ks' : list ValidatorPubKey) : NoDup ks -> NoDup ks' -> ks ⊆ auths -> ks' ⊆ auths ->
  (length auths + length faulty < length ks + length ks')%nat -> exists k, k ∈ ks /\ k ∈ ks' /\ k ∉ faulty.
Proof.
  intros Hnd Hnd' Hs Hs' Hlt. set (A := list_to_set ks : gset (list byte)). set (B := list_to_set ks' : gset (list byte)).
  assert (HA : size A = length ks) by by apply size_list_to_set. assert (HB : size B = length ks') by by apply size_list_to_set.
  assert (HU : (size (A ∪ B) <= length auths)%nat).
  { transitivity (size (list_to_set auths : gset (list byte))); [apply subseteq_size; set_solver|apply size_list_to_set_le]. }
  assert (HF : (size (list_to_set faulty : gset (list byte)) <= length faulty)%nat) by apply size_list_to_set_le.
  rewrite size_union_alt in HU. assert (HD : size (B ∖ A) = (size B - size (B ∩ A))%nat) by apply size_difference_alt.
  assert (Hle : (size (B ∩ A) <= size B)%nat) by (apply subseteq_size; set_solver).
  destruct (decide ((B ∩ A) ∖ (list_to_set faulty : gset (list byte)) ≡ ∅)) as [He|He].
  - assert (Hsub : (size (B ∩ A) <= size (list_to_set faulty : gset (list byte)))%nat) by (apply subseteq_size; set_solver). lia.
  - apply set_choose in He as [k Hk]. exists k. set_solver.
Qed.

(** ** Correctness *)

(** C27: The path from a draft to a node works: when enough distinct configured witnesses sign
    the same draft, the signatures assemble, in whatever order they are collected, into
    one checkpoint with the payload of the draft, which the quorum check accepts and
    which survives the file. *)
Theorem quorum_checkpoint_complete (act threshold : Z) (d : AVMCheckpoint) (auths : list ValidatorPubKey)
    (signers : list CheckpointSigner) (ws : list CheckpointWitnessSignature) :
  validateCheckpointAuthorities auths threshold = Ok () -> threshold <= Z.of_nat (length signers) ->
  NoDup (Public <$> signers) -> Forall (fun s => Public s ∈ auths) signers ->
  Forall2 (fun s w => SignCheckpointDraft (Some d) act (Some s) = Ok w) signers ws ->
  exists c, (forall ws', ws' ≡ₚ ws -> AttachCheckpointSignatures (Some d) ws' act auths threshold = Ok c) /\
    VerifyCheckpointQuorum (Some c) act auths threshold = Ok () /\ CheckpointPayloadEqual (Some c) (Some d) = true /\
    checkpointFromWire (checkpointToWire c) = Ok c.
Proof.
  intros Ha Ht Hnd Hin Hws.
  assert (Hd : ValidateQuorumCheckpointDraft (Some d) act = Ok ()).
  { apply authorities_ok in Ha as (? & _). destruct Hws as [|s w ss ws Hw _]; [cbn in Ht; lia|].
    unfold SignCheckpointDraft in Hw. by apply bind_ok in Hw as ([] & ? & _). }
  assert (Hkeys : w_PublicKey <$> ws = Public <$> signers /\ Forall (authentic auths (checkpointQuorumMessage d)) ws).
  { clear Ht Hnd. induction Hws as [|s w ss ws Hw _ IH]; [done|]. apply list.Forall_cons in Hin as [Hs Hin].
    destruct (signed_authentic _ _ _ _ _ Hw Hs) as [Ek Hau], (IH Hin) as [Eks Hall]. cbn. rewrite Ek, Eks.
    split; [done|]. by apply list.Forall_cons. }
  destruct Hkeys as [Ekeys Hall].
  assert (Hq : quorum_set auths threshold (checkpointQuorumMessage d) ws).
  { rewrite <- Ekeys in Hnd. split_and!; [|done..]. apply Forall2_length in Hws. by rewrite <- Hws. }
  set (c := with_signatures (merge_sort witness_le ws) d).
  assert (Hc : AttachCheckpointSignatures (Some d) ws act auths threshold = Ok c) by by apply attach_ok.
  assert (Hv : VerifyCheckpointQuorum (Some c) act auths threshold = Ok ()).
  { revert Hc. unfold AttachCheckpointSignatures. rewrite Hd, Ha. cbn [mbind result_bind]. fold c.
    by destruct (VerifyCheckpointQuorum (Some c) act auths threshold) as [[]|]. }
  exists c. split_and!; [|done|by apply payload_of_signed|by eapply wire_round_trip, quorum_wire_ok].
  intros ws' Hp. apply attach_ok; [done..|]. split; [by symmetry in Hp; apply (quorum_set_perm _ _ _ _ _ Hp)|].
  unfold c. f_equal. symmetry. apply (sort_of_ascending w_PublicKey); [done| |by rewrite Hp, merge_sort_Permutation].
  apply sort_ascending; [done|]. apply Hq.
Qed.

(** C26: two quorum checkpoints accepted under one configuration, with fields of 64
    bits, share a witness outside any set of faulty ones that is small against the
    threshold (configured witnesses and faulty ones together fewer than twice the
    threshold), and both carry a verifying signature of it.  When the messages it
    signed are one, both bind the same block, heights, commitments and state entries
    (a null value compared as the empty bytes, and exactly when no value is null),
    unless SHA-256 collides on the two messages or the two snapshots. *)
Theorem quorum_checkpoints_agree (act threshold : Z) (auths faulty : list ValidatorPubKey) (c c' : AVMCheckpoint) :
  VerifyCheckpointQuorum (Some c) act auths threshold = Ok () -> VerifyCheckpointQuorum (Some c') act auths threshold = Ok () ->
  Z.of_nat (length auths) + Z.of_nat (length faulty) < 2 * threshold ->
  is_u64 act -> is_u64 (cp_Height c) -> is_u64 (cp_Height c') ->
  Forall sized_entry (Entries c) -> Forall sized_entry (Entries c') ->
  exists s s', s ∈ WitnessSignatures c /\ s' ∈ WitnessSignatures c' /\ w_PublicKey s = w_PublicKey s' /\
    (w_PublicKey s ∈ auths) /\ (w_PublicKey s ∉ faulty) /\
    pub_verify (w_PublicKey s) (checkpointQuorumMessage c) (w_Signature s) = true /\
    pub_verify (w_PublicKey s') (checkpointQuorumMessage c') (w_Signature s') = true /\
    (checkpointQuorumMessage c = checkpointQuorumMessage c' ->
       (CheckpointPayloadEqual (Some c) (Some c') = true /\
        (valued (Entries c) -> valued (Entries c') -> Entries c = Entries c')) \/
       (message_bytes c <> message_bytes c' /\ sha256 (message_bytes c) = sha256 (message_bytes c')) \/
       (snapshot_bytes (Entries c) <> snapshot_bytes (Entries c') /\
        sha256 (snapshot_bytes (Entries c)) = sha256 (snapshot_bytes (Entries c')))).
Proof.
  intros Hc Hc' Hf Hact Hh Hh' Hsz Hsz'. assert (Hm := same_message act threshold auths c c' Hc Hc' Hact Hh Hh' Hsz Hsz').
  apply quorum_ok in Hc as (Ha & _ & _ & _ & _ & _ & Ht & Hs & Hall), Hc' as (_ & _ & _ & _ & _ & _ & Ht' & Hs' & Hall').
  apply authorities_ok in Ha as (_ & Hnd & _).
  destruct (common_key auths faulty (w_PublicKey <$> WitnessSignatures c) (w_PublicKey <$> WitnessSignatures c'))
    as (k & Hk & Hk' & Hkf); [by apply ascending_NoDup|by apply ascending_NoDup|by eapply authentic_keys|by eapply authentic_keys| |].
  { rewrite !length_fmap. lia. }
  apply list_elem_of_fmap in Hk as (s & -> & Hin), Hk' as (s' & E & Hin'). exists s, s'.
  rewrite list.Forall_forall in Hall, Hall'. destruct (Hall s Hin) as [Hau Hv], (Hall' s' Hin') as [_ Hv']. split_and!; try done.
  intros E'. destruct (Hm E') as [He|Hcol]; [left|by right]. split; [done|]. apply entries_equal_eq.
  cbn in He. by apply andb_true_iff in He as [_ He].
Qed.

End Commitment.

(** A nil value and an empty one have one commitment, although a store told to write
    the first deletes the key and told to write the second keeps it. *)
Example null_value_same_commitment `{Crypto} k es :
  StateSnapshotCommitment (mkEntry k None :: es) = StateSnapshotCommitment (mkEntry k (Some []) :: es).
Proof. done. Qed.

(** ** Witnesses *)

Section Example.
#[local] Existing Instance toy_crypto | 0.

Definition ex_pub (n : byte) : ValidatorPubKey := n :: replicate 31 x00.
Definition ex_auths : list ValidatorPubKey := [ex_pub x01; ex_pub x02; ex_pub x03].
Definition ex_witness (n : byte) : CheckpointSigner := mkSigner (ex_pub n) (ed25519_sign (ex_pub n)).
Definition ex_hash (n : byte) : Hash32 := copy_arr 32 [n].

Definition ex_entries : list CheckpointEntry := [mkEntry [x62] (Some [x02; x03]); mkEntry [x61] (Some [])].
Definition ex_draft : AVMCheckpoint := Eval vm_compute in
  match NewQuorumCheckpointDraft 5 7 (ex_hash x09) (ex_hash x08) (ex_hash x07) ex_entries with
  | Ok d => d
  | Err _ => mkCheckpoint 0 0 0 (ex_hash x00) (ex_hash x00) (ex_hash x00) (ex_hash x00) [] [] [] []
  end.

Example ex_draft_ok : NewQuorumCheckpointDraft 5 7 (ex_hash x09) (ex_hash x08) (ex_hash x07) ex_entries = Ok ex_draft.
Proof. vm_compute. reflexivity. Qed.

Definition ex_collected : list CheckpointWitnessSignature :=
  [mkWitness (ex_pub x03) (x03 :: replicate 63 x00); mkWitness (ex_pub x01) (x01 :: replicate 63 x00)].
Definition ex_checkpoint : AVMCheckpoint := with_signatures (rev ex_collected) ex_draft.

Example ex_attach : AttachCheckpointSignatures (Some ex_draft) ex_collected 5 ex_auths 2 = Ok ex_checkpoint.
Proof. vm_compute. reflexivity. Qed.

Lemma quorum_checkpoint_complete_witness :
  exists c, (forall ws', ws' ≡ₚ ex_collected -> AttachCheckpointSignatures (Some ex_draft) ws' 5 ex_auths 2 = Ok c) /\
    VerifyCheckpointQuorum (Some c) 5 ex_auths 2 = Ok () /\ CheckpointPayloadEqual (Some c) (Some ex_draft) = true /\
    checkpointFromWire (checkpointToWire c) = Ok c.
Proof.
  apply (quorum_checkpoint_complete 5 2 ex_draft ex_auths [ex_witness x03; ex_witness x01] ex_collected).
  - vm_compute. reflexivity.
  - vm_compute. discriminate.
  - apply (bool_decide_unpack _). vm_compute. exact I.
  - apply (bool_decide_unpack _). vm_compute. exact I.
  - repeat constructor; vm_compute; reflexivity.
Defined.

(** The same draft, signed by another set of witnesses. *)
Definition ex_other : AVMCheckpoint :=
  with_signatures [mkWitness (ex_pub x02) (x02 :: replicate 63 x00); mkWitness (ex_pub x03) (x03 :: replicate 63 x00)] ex_draft.

Lemma quorum_checkpoints_agree_witness : WitnessSignatures ex_checkpoint <> WitnessSignatures ex_other /\
  exists s s', s ∈ WitnessSignatures ex_checkpoint /\ s' ∈ WitnessSignatures ex_other /\ w_PublicKey s = w_PublicKey s'.
Proof.
  split; [by intros [=]|].
  destruct (quorum_checkpoints_agree 5 2 ex_auths [] ex_checkpoint ex_other) as (s & s' & Hs & Hs' & E & _);
    [vm_compute; reflexivity..| | | | | |].
  - split; vm_compute; [discriminate|reflexivity].
  - split; vm_compute; [discriminate|reflexivity].
  - split; vm_compute; [discriminate|reflexivity].
  - repeat constructor; vm_compute; try discriminate; reflexivity.
  - repeat constructor; vm_compute; try discriminate; reflexivity.
  - by exists s, s'.
Defined.

End Example.

End AvmCheckpoint.
