(* ===== verification/AvmRecovery.v ===== *)
(** Recovery of the contract state when a node starts: [avm/recovery.go].

    The replay of the canonical blocks, the start from a verified checkpoint, the
    comparison with what the database holds, and the drafts and checkpoints built from
    it.  The content of the checkpoint file is an argument, the outcome of reading and
    decoding it, and the file to write is part of the result.  Cancellation of the
    context is not modelled. *)

From stdpp Require Import base gmap list strings sorting.
From S2P Require Import Prelude Bytes Crypto Avm StakePayload Transaction Block KeyValue BlockStore BlockStoreProofs.
From S2P Require Import Wasm AvmState AvmEngine AvmBlock AvmCheckpoint.
Import StakePayload Transaction Block KeyValue Wasm AvmState AvmEngine AvmBlock AvmCheckpoint.

Module AvmRecovery.

Section Recovery.
Context `{Crypto} `{WasmDecoder} `{WasmRuntime} `{J : BlockStore.BlockJson}.

(** ** Replay *)

(** The replayed state, the hash the next block must name, when there is one, and the
    write-set commitment of the last block. *)
Record Replay := mkReplay { rp_Store : MemoryStore; rp_Previous : option Hash32; rp_Commitment : Hash32 }.

(** A marker that names another block or another write set. *)
Definition marker_conflict (marker : option (Hash32 * Hash32)) (hash commitment : Hash32) : bool :=
  match marker with
  | Some (h, c) => negb (bool_decide (h = hash)) || negb (bool_decide (c = commitment))
  | None => false
  end.

(** The canonical block at a height, as its index and its body give it. *)
Definition canonical_block (m : KV) (height : Z) : result (Hash32 * Block) :=
  indexed ← BlockStore.GetCanonicalHash m height;
  need hash from indexed else "avm startup: canonical block missing" ;;
  need raw from BlockStore.GetRawBlock m hash else "avm startup: canonical block body missing" ;;
  need b from BlockStore.unmarshal_block raw else "avm startup: corrupt block" ;;
  reject negb (Height (Header b) =? height) || negb (bool_decide (block_Hash b = hash))
    with "avm startup: canonical block/index mismatch" ;;
  reject negb (bool_decide (MerkleRoot (Txs b) = Some (MerkleRootField (Header b))))
    with "avm startup: corrupt transaction merkle root" ;;
  Ok (hash, b).

(** One turn of the loop. *)
Definition replay_block (m : KV) (tipHeight : Z) (tipHash : Hash32) (verifySignatures : bool) (r : Replay) (height : Z) : result Replay :=
  hb ← canonical_block m height;
  let '(hash, b) := hb in
  reject match rp_Previous r with Some p => negb (bool_decide (PrevHash (Header b) = p)) | None => false end
    with "avm startup: broken canonical linkage" ;;
  reject verifySignatures && negb (VerifySignature (Header b) []) with "avm startup: invalid validator signature" ;;
  reject (height =? tipHeight) && negb (bool_decide (hash = tipHash)) with "avm startup: supplied tip does not match canonical block" ;;
  prepared ← PrepareBlock (rp_Store r) b;
  marker ← BlockStore.GetAVMCommitment m height;
  reject marker_conflict marker hash (AvmBlock.WriteSetCommitment prepared) with "avm startup: commitment marker mismatch" ;;
  st ← Apply (p_Writes prepared) (rp_Store r);
  Ok (mkReplay st (Some hash) (AvmBlock.WriteSetCommitment prepared)).

(** The loop runs up to the tip, and past the last height when the tip is below its start. *)
Definition replayCanonicalRange (m : KV) (replay : MemoryStore) (startHeight tipHeight : Z) (tipHash : Hash32)
    (previous : option Hash32) (verifySignatures : bool) : result Replay :=
  let last := if startHeight <=? tipHeight then tipHeight else MaxUint64 in
  r ← foldM (replay_block m tipHeight tipHash verifySignatures) (mkReplay replay previous zeroHash) (seqZ startHeight (last - startHeight + 1));
  reject tipHeight <? startHeight with "avm startup: replay height overflow" ;;
  Ok r.

(** ** The starting point *)

Record checkpointRecovery := mkRecovery {
  authorities : list ValidatorPubKey; signer : option CheckpointSigner; witnessThreshold : Z; maxReplayBlocks : Z
}.

(** Where the replay starts and with what; [pl_Tip] is set when the checkpoint is at the
    tip and nothing is left to replay. *)
Record Plan := mkPlan { pl_Store : MemoryStore; pl_Start : Z; pl_Previous : option Hash32; pl_Strict : bool; pl_Genesis : Hash32; pl_Tip : option Hash32 }.

Definition canonical_genesis (m : KV) : result Hash32 :=
  indexed ← BlockStore.GetCanonicalHash m 0;
  need g from indexed else "avm startup: canonical genesis hash is missing" ;;
  reject bool_decide (g = zeroHash) with "avm startup: canonical genesis hash is missing" ;;
  Ok g.

Definition snapshot_writes (entries : list CheckpointEntry) : list Write :=
  (fun e => mkWrite (e_Key e) (e_Value e)) <$> entries.

(** A checkpoint read from the file, against the chain. *)
Definition plan_from_snapshot (m : KV) (activationHeight tipHeight : Z) (cp : checkpointRecovery) (genesis : Hash32) (c : AVMCheckpoint)
    : result Plan :=
  _ ← (if 0 <? witnessThreshold cp then VerifyCheckpointQuorum (Some c) activationHeight (authorities cp) (witnessThreshold cp)
       else VerifyCheckpoint (Some c) activationHeight (authorities cp));
  reject tipHeight <? cp_Height c with "avm startup: checkpoint is ahead of the canonical tip" ;;
  reject negb (bool_decide (GenesisHash c = genesis)) with "avm startup: checkpoint belongs to a different genesis" ;;
  indexed ← BlockStore.GetCanonicalHash m (cp_Height c);
  reject negb (bool_decide (indexed = Some (BlockHash c))) with "avm startup: checkpoint block is not canonical" ;;
  marker ← BlockStore.GetAVMCommitment m (cp_Height c);
  reject negb (bool_decide (marker = Some (BlockHash c, AvmCheckpoint.WriteSetCommitment c))) with "avm startup: checkpoint write-set marker mismatch" ;;
  st ← Apply (snapshot_writes (Entries c)) NewMemoryStore;
  let at_tip := cp_Height c =? tipHeight in
  Ok (mkPlan st (if at_tip then tipHeight else cp_Height c + 1) (Some (BlockHash c)) true genesis
        (if at_tip then Some (AvmCheckpoint.WriteSetCommitment c) else None)).

(** No file: a replay from the activation. *)
Definition plan_full (m : KV) (activationHeight tipHeight : Z) (cp : checkpointRecovery) (genesis : Hash32) : result Plan :=
  reject maxReplayBlocks cp <? tipHeight - activationHeight + 1 with "avm startup: trusted checkpoint is missing" ;;
  parent ← BlockStore.GetCanonicalHash m (activationHeight - 1);
  need p from parent else "avm startup: canonical parent missing" ;;
  Ok (mkPlan NewMemoryStore activationHeight (Some p) true genesis None).

Definition plan_recovery (m : KV) (activationHeight tipHeight : Z) (file : result (option CheckpointWire)) (checkpoint : option checkpointRecovery)
    : result Plan :=
  match checkpoint with
  | Some cp =>
      genesis ← canonical_genesis m;
      content ← file;
      plan ← match content with
             | Some w => c ← checkpointFromWire w; plan_from_snapshot m activationHeight tipHeight cp genesis c
             | None => plan_full m activationHeight tipHeight cp genesis
             end;
      reject negb (bool_decide (is_Some (pl_Tip plan))) && (pl_Start plan <=? tipHeight) && (maxReplayBlocks cp <? tipHeight - pl_Start plan + 1)
        with "avm startup: checkpoint is too old" ;;
      Ok plan
  | None =>
      let previous := match BlockStore.GetCanonicalHash m (activationHeight - 1) with Ok (Some p) => Some p | _ => None end in
      Ok (mkPlan NewMemoryStore activationHeight previous false zeroHash None)
  end.

(** The state at the tip and the commitment of the tip. *)
Definition run_plan (m : KV) (tipHeight : Z) (tipHash : Hash32) (plan : Plan) : result (MemoryStore * Hash32) :=
  match pl_Tip plan with
  | Some commitment => Ok (pl_Store plan, commitment)
  | None =>
      reject tipHeight <? pl_Start plan with "avm startup: checkpoint does not cover the canonical tip" ;;
      r ← replayCanonicalRange m (pl_Store plan) (pl_Start plan) tipHeight tipHash (pl_Previous plan) (pl_Strict plan);
      Ok (rp_Store r, rp_Commitment r)
  end.

(** ** The database *)

(** Every stored entry is expected. *)
Definition check_state (m : KV) (st : MemoryStore) : result () :=
  foldM (fun _ kv =>
    match data st !! kv.1 with
    | Some v => reject negb (bool_decide (kv.2 = v)) with "avm startup: persisted state corruption: AVM state value mismatch" ;; Ok ()
    | None => Err "avm startup: persisted state corruption: unexpected AVM state key"
    end) () (BlockStore.IterAVMState m).

(** Whether the state was rebuilt, and the database. *)
Definition reconcile (m : KV) (tipHeight : Z) (tipHash tipCommitment : Hash32) (st : MemoryStore) : result (bool * KV) :=
  marker ← BlockStore.GetAVMCommitment m tipHeight;
  reject marker_conflict marker tipHash tipCommitment with "avm startup: canonical tip commitment marker mismatch" ;;
  let replace := m' ← BlockStore.ReplaceAVMStateAndCommitment (toStoreWrites (memory_Writes st)) tipHeight tipHash tipCommitment m;
                 Ok (true, m') in
  match marker with
  | None => replace
  | Some _ =>
      _ ← check_state m st;
      if bool_decide (length (BlockStore.IterAVMState m) = size (data st)) then Ok (false, m) else replace
  end.

Definition checkpoint_entries (st : MemoryStore) : list CheckpointEntry :=
  (fun w => mkEntry (Key w) (Value w)) <$> memory_Writes st.

(** The file an operator's node writes after a verified start. *)
Definition refresh (activationHeight tipHeight : Z) (genesis tipHash tipCommitment : Hash32) (st : MemoryStore) (checkpoint : option checkpointRecovery)
    : result (option CheckpointWire) :=
  match checkpoint with
  | Some cp =>
      if witnessThreshold cp =? 0 then
        fresh ← SignCheckpoint activationHeight tipHeight genesis tipHash tipCommitment (checkpoint_entries st) (signer cp) (authorities cp);
        Ok (Some (checkpointToWire fresh))
      else Ok None
  | None => Ok None
  end.

(** The database after the call, and what it returns: whether the state was rebuilt,
    and the file written. *)
Definition ensureCanonicalState (m : KV) (activationHeight tipHeight : Z) (tipHash : Hash32) (file : result (option CheckpointWire))
    (checkpoint : option checkpointRecovery) : KV * result (bool * option CheckpointWire) :=
  if (activationHeight =? 0) || (tipHeight <? activationHeight) then (m, Ok (false, None))
  else
    let verified :=
      plan ← plan_recovery m activationHeight tipHeight file checkpoint;
      s ← run_plan m tipHeight tipHash plan;
      done ← reconcile m tipHeight tipHash s.2 s.1;
      Ok (plan, s, done) in
    match verified with
    | Err e => (m, Err e)
    | Ok (plan, s, done) =>
        (done.2, written ← refresh activationHeight tipHeight (pl_Genesis plan) tipHash s.2 s.1 checkpoint; Ok (done.1, written))
    end.

(** ** Entry points *)

Definition EnsureCanonicalState (m : KV) (activationHeight tipHeight : Z) (tipHash : Hash32) : KV * result (bool * option CheckpointWire) :=
  if (0 <? activationHeight) && (activationHeight <=? tipHeight) && (MaxAVMCheckpointReplay <? tipHeight - activationHeight + 1)
  then (m, Err "avm startup: full replay exceeds limit; an authenticated checkpoint is required")
  else ensureCanonicalState m activationHeight tipHeight tipHash (Ok None) None.

Definition replay_limit (maxReplay : Z) : Z := if maxReplay =? 0 then MaxAVMCheckpointReplay else maxReplay.

Definition EnsureCanonicalStateWithCheckpoint (m : KV) (activationHeight tipHeight : Z) (tipHash : Hash32) (checkpointPath : string)
    (file : result (option CheckpointWire)) (auths : list ValidatorPubKey) (s : option CheckpointSigner) (maxReplay : Z)
    : KV * result (bool * option CheckpointWire) :=
  if (activationHeight =? 0) || (tipHeight <? activationHeight) then (m, Ok (false, None))
  else if bool_decide (checkpointPath = EmptyString) then (m, Err "avm startup: checkpoint path is required")
  else if bool_decide (auths = []) then (m, Err "avm startup: trusted checkpoint witness is required")
  else if match s with Some s => negb (checkpointAuthorityAllowed auths (Public s)) | None => true end
       then (m, Err "avm startup: local checkpoint signer must be a pinned witness")
  else ensureCanonicalState m activationHeight tipHeight tipHash file (Some (mkRecovery auths s 0 (replay_limit maxReplay))).

Definition EnsureCanonicalStateWithQuorumCheckpoint (m : KV) (activationHeight tipHeight : Z) (tipHash : Hash32) (checkpointPath : string)
    (file : result (option CheckpointWire)) (auths : list ValidatorPubKey) (threshold maxReplay : Z)
    : KV * result (bool * option CheckpointWire) :=
  if (activationHeight =? 0) || (tipHeight <? activationHeight) then (m, Ok (false, None))
  else if bool_decide (checkpointPath = EmptyString) then (m, Err "avm startup: checkpoint path is required")
  else match validateCheckpointAuthorities auths threshold with
  | Err e => (m, Err e)
  | Ok _ => ensureCanonicalState m activationHeight tipHeight tipHash file (Some (mkRecovery auths None threshold (replay_limit maxReplay)))
  end.

(** ** Building checkpoints *)

Definition valid_heights (activationHeight height : Z) : result () :=
  reject (activationHeight =? 0) || (height <? activationHeight) with "avm checkpoint: invalid activation or checkpoint height" ;; Ok ().

(** The full replay of the builders. *)
Definition replay_from_activation (m : KV) (activationHeight tipHeight : Z) (tipHash : Hash32) : result Replay :=
  parent ← BlockStore.GetCanonicalHash m (activationHeight - 1);
  need p from parent else "avm checkpoint: canonical activation parent missing" ;;
  replayCanonicalRange m NewMemoryStore activationHeight tipHeight tipHash (Some p) true.

Definition BuildCheckpointDraftFromCanonical (m : KV) (activationHeight tipHeight : Z) (tipHash : Hash32) : result AVMCheckpoint :=
  _ ← valid_heights activationHeight tipHeight;
  genesis ← canonical_genesis m;
  reject (BlockStore.GetTip m).2 <? tipHeight with "avm checkpoint: supplied tip is above the stored canonical tip" ;;
  indexed ← BlockStore.GetCanonicalHash m tipHeight;
  reject negb (bool_decide (indexed = Some tipHash)) with "avm checkpoint: supplied tip is not canonical" ;;
  r ← replay_from_activation m activationHeight tipHeight tipHash;
  NewQuorumCheckpointDraft activationHeight tipHeight genesis tipHash (rp_Commitment r) (checkpoint_entries (rp_Store r)).

Definition BuildVerifiedCheckpointFromCanonical (m : KV) (activationHeight tipHeight : Z) (tipHash : Hash32)
    (s : option CheckpointSigner) (auths : list ValidatorPubKey) : result AVMCheckpoint :=
  _ ← valid_heights activationHeight tipHeight;
  reject match s with Some s => negb (checkpointAuthorityAllowed auths (Public s)) | None => true end
    with "avm checkpoint: builder signer must be a pinned witness" ;;
  genesis ← canonical_genesis m;
  reject negb (bool_decide (BlockStore.GetTip m = (tipHash, tipHeight))) with "avm checkpoint: supplied tip differs from stored tip" ;;
  r ← replay_from_activation m activationHeight tipHeight tipHash;
  SignCheckpoint activationHeight tipHeight genesis tipHash (rp_Commitment r) (checkpoint_entries (rp_Store r)) s auths.

(** The state the database holds, bound to its tip: the genesis, the write-set
    commitment and the entries. *)
Definition stored_snapshot (m : KV) (activationHeight height : Z) (blockHash : Hash32) : result (Hash32 * Hash32 * list CheckpointEntry) :=
  _ ← valid_heights activationHeight height;
  reject negb (bool_decide (BlockStore.GetTip m = (blockHash, height))) with "avm checkpoint: requested block is not the current canonical tip" ;;
  indexed ← BlockStore.GetCanonicalHash m height;
  reject negb (bool_decide (indexed = Some blockHash)) with "avm checkpoint: checkpoint block is not canonical" ;;
  genesis ← canonical_genesis m;
  marker ← BlockStore.GetAVMCommitment m height;
  match marker with
  | Some (h, commitment) =>
      reject negb (bool_decide (h = blockHash)) with "avm checkpoint: canonical tip write-set marker is missing or mismatched" ;;
      let entries := (fun kv => mkEntry kv.1 (Some kv.2)) <$> BlockStore.IterAVMState m in
      reject maxAVMCheckpointEntries <? Z.of_nat (length entries) with "avm checkpoint: too many state entries" ;;
      Ok (genesis, commitment, entries)
  | None => Err "avm checkpoint: canonical tip write-set marker is missing or mismatched"
  end.

Definition CreateQuorumCheckpointDraftFromCanonicalState (m : KV) (activationHeight height : Z) (blockHash : Hash32) : result AVMCheckpoint :=
  snapshot ← stored_snapshot m activationHeight height blockHash;
  let '(genesis, commitment, entries) := snapshot in
  NewQuorumCheckpointDraft activationHeight height genesis blockHash commitment entries.

Definition CreateCheckpointFromCanonicalState (m : KV) (activationHeight height : Z) (blockHash : Hash32)
    (s : option CheckpointSigner) (auths : list ValidatorPubKey) : result AVMCheckpoint :=
  snapshot ← stored_snapshot m activationHeight height blockHash;
  let '(genesis, commitment, entries) := snapshot in
  SignCheckpoint activationHeight height genesis blockHash commitment entries s auths.

(** ** Stores without an empty key *)

Definition proper_store (st : MemoryStore) : Prop := data st !! [] = None.

Lemma upds_empty_key ws f : no_empty ws = true -> upds f ws [] = f [].
Proof. intros Hw%no_empty_spec. by apply upds_other. Qed.

Lemma memory_apply_ok ws st st' : Apply ws st = Ok st' ->
  no_empty ws = true /\ (proper_store st -> proper_store st') /\ forall k, data st' !! k = upds (fun k => data st !! k) ws k.
Proof.
  cbn. intros (Hw & E)%reject_ok. apply Ok_inj in E as <-. apply negb_false_iff in Hw. split; [done|].
  assert (Hv : forall k, fold_left memory_write ws (data st) !! k = upds (fun k => data st !! k) ws k) by (intros k; apply memory_writes_view).
  split; [|done]. unfold proper_store. cbn. by rewrite Hv, upds_empty_key.
Qed.

Lemma memory_Writes_lookup st w : w ∈ memory_Writes st <-> exists v, data st !! Key w = Some v /\ Value w = Some v.
Proof.
  unfold memory_Writes. rewrite elem_of_ordered, lookup_fmap. destruct (data st !! Key w) as [v|]; cbn.
  - split; [intros [= E]; by exists v|]. intros (x & [= <-] & ->). done.
  - split; [done|]. by intros (x & ? & _).
Qed.

Lemma memory_Writes_NoDup st : NoDup (Key <$> memory_Writes st).
Proof. apply ordered_NoDup. Qed.

Lemma memory_Writes_no_empty st : proper_store st -> no_empty (memory_Writes st) = true.
Proof. intros Hp. apply no_empty_ordered. by rewrite lookup_fmap, Hp. Qed.

(** Writing the listing of a store over anything that holds none of its other keys. *)
Lemma upds_memory_Writes f st k : (forall k, data st !! k = None -> f k = None) -> upds f (memory_Writes st) k = data st !! k.
Proof.
  intros Hf. unfold memory_Writes. rewrite upds_ordered, lookup_fmap. destruct (data st !! k) as [v|] eqn:E; [done|]. by apply Hf.
Qed.

(** Loading the entries of a store into an empty one, in any order, restores it. *)
Lemma load_snapshot st ws : proper_store st -> ws ≡ₚ memory_Writes st -> Apply ws NewMemoryStore = Ok st.
Proof.
  intros Hp Hws. assert (Hw : no_empty ws = true).
  { apply no_empty_spec. rewrite Hws. by apply no_empty_spec, memory_Writes_no_empty. }
  destruct (Apply_view ws NewMemoryStore Hw) as (st' & E & _). rewrite E. f_equal. apply memory_apply_ok in E as (_ & _ & Hv).
  destruct st as [d], st' as [d']. f_equal. apply map_eq. intros k. cbn [data] in *. rewrite Hv.
  assert (Hnd : NoDup (Key <$> ws)) by (rewrite Hws; apply memory_Writes_NoDup).
  destruct (d !! k) as [v|] eqn:Ek.
  - apply (upds_once _ ws (mkWrite k (Some v))); [done|]. rewrite Hws. apply memory_Writes_lookup. by exists v.
  - rewrite upds_other; [apply lookup_empty|]. apply list.Forall_forall. intros w Hin <-. rewrite Hws in Hin.
    apply memory_Writes_lookup in Hin as (v & Hv' & _). cbn [data] in Hv'. congruence.
Qed.

Lemma snapshot_of_entries st : snapshot_writes (checkpoint_entries st) = memory_Writes st.
Proof. unfold snapshot_writes, checkpoint_entries. rewrite <- list_fmap_compose. rewrite <- (list_fmap_id (memory_Writes st)) at 2. apply list_fmap_ext. by intros ? [] ?. Qed.

(** ** The database *)

Lemma elem_of_IterAVMState m k v : (k, v) ∈ BlockStore.IterAVMState m <-> m !! avmKey k = Some v.
Proof.
  unfold BlockStore.IterAVMState. rewrite list_elem_of_fmap. split.
  - intros ([k' v'] & [= -> ->] & Hin). apply elem_of_scan in Hin as (Hp & Hin). apply has_prefix_spec in Hp as (s & ->).
    exact Hin.
  - intros Hm. exists (avmKey k, v). split; [done|].
    apply elem_of_scan. split; [by apply (has_prefix_app prefixAVM)|done].
Qed.

Lemma IterAVMState_NoDup m : NoDup (BlockStore.IterAVMState m).*1.
Proof.
  assert (Hnd := scan_NoDup prefixAVM m).
  assert (Hp : Forall (fun k => has_prefix prefixAVM k = true) (scan prefixAVM m).*1).
  { apply list.Forall_forall. intros k ([k' v] & -> & Hin)%list_elem_of_fmap. by apply elem_of_scan in Hin as [? _]. }
  assert (E : (BlockStore.IterAVMState m).*1 = drop (length prefixAVM) <$> (scan prefixAVM m).*1)
    by (unfold BlockStore.IterAVMState; by rewrite <- !list_fmap_compose).
  rewrite E. clear E. revert Hnd Hp. generalize (scan prefixAVM m).*1.
  induction l as [|k l IH]; cbn [fmap list_fmap]; intros Hnd Hp; [constructor|].
  apply list.NoDup_cons in Hnd as [Hk Hnd]. apply list.Forall_cons in Hp as [Hpk Hp]. apply list.NoDup_cons. split; [|by apply IH].
  intros (k' & E & Hk')%list_elem_of_fmap. rewrite list.Forall_forall in Hp. specialize (Hp k' Hk').
  apply has_prefix_spec in Hpk as (s & ->), Hp as (s' & ->). rewrite !drop_app_length in E. apply Hk. by rewrite E.
Qed.

(** The database passes the comparison exactly when it holds the state. *)
Lemma check_state_ok m st : check_state m st = Ok () <-> forall k v, m !! avmKey k = Some v -> data st !! k = Some v.
Proof.
  unfold check_state. setoid_rewrite <- elem_of_IterAVMState. generalize (BlockStore.IterAVMState m) as l.
  induction l as [|[k v] l IH]; cbn [foldM fst snd]; [split; [intros _ k v Hin; by apply elem_of_nil in Hin|done]|].
  destruct (data st !! k) as [v'|] eqn:E.
  - destruct (bool_decide (v = v')) eqn:Ev; cbn [negb mbind result_bind].
    + apply bool_decide_eq_true in Ev as <-. rewrite IH. split.
      * intros Hl k' v'' [[= -> ->]|Hin]%elem_of_cons; [done|by apply Hl].
      * intros Hl k' v'' Hin. apply Hl. by right.
    + apply bool_decide_eq_false in Ev. split; [done|]. intros Hl. specialize (Hl k v (list_elem_of_here _ _)). congruence.
  - split; [done|]. intros Hl. specialize (Hl k v (list_elem_of_here _ _)). congruence.
Qed.

Lemma complete_state m st : check_state m st = Ok () -> length (BlockStore.IterAVMState m) = size (data st) ->
  forall k, m !! avmKey k = data st !! k.
Proof.
  rewrite check_state_ok. intros Hs Hl. set (d := list_to_map (BlockStore.IterAVMState m) : gmap (list byte) (list byte)).
  assert (Hd : forall k v, d !! k = Some v <-> m !! avmKey k = Some v).
  { intros k v. rewrite <- elem_of_IterAVMState. symmetry. apply elem_of_list_to_map, IterAVMState_NoDup. }
  assert (E : d = data st).
  { apply map_subseteq_size_eq; [apply map_subseteq_spec; intros k v Hk; by apply Hs, Hd|].
    rewrite <- Hl. unfold d. rewrite map_size_list_to_map by apply IterAVMState_NoDup. lia. }
  intros k. rewrite <- E. apply option_eq. intros v. by rewrite Hd.
Qed.

Lemma replacement_ops ws : forall acc ops,
  foldM (fun b w =>
    match BlockStore.aw_Value w with
    | Some v => reject bool_decide (BlockStore.aw_Key w = []) with "store: invalid AVM replacement entry" ;;
                Ok (b ++ [Put (avmKey (BlockStore.aw_Key w)) v])
    | None => Err "store: invalid AVM replacement entry"
    end) acc ws = Ok ops -> ops = acc ++ (BlockStore.avm_op <$> ws).
Proof.
  induction ws as [|w ws IH]; intros acc ops; cbn [foldM]; [intros <-%Ok_inj; by rewrite app_nil_r|].
  intros E. apply bind_ok in E as (acc' & Ha & E). apply IH in E as ->. cbn [fmap list_fmap]. unfold BlockStore.avm_op at 2.
  destruct (BlockStore.aw_Value w) as [v|]; [|done]. apply reject_ok in Ha as (_ & Ha). apply Ok_inj in Ha as <-. by rewrite <- app_assoc.
Qed.

Lemma write_deletes ks k m : write ((fun e : list byte * list byte => Delete e.1) <$> ks) m !! k = if bool_decide (k ∈ ks.*1) then None else m !! k.
Proof.
  unfold write. revert m. induction ks as [|[k' v] ks IH]; intros m; [done|]. cbn [fmap list_fmap foldl]. rewrite IH. cbn [apply_op fst].
  destruct (decide (k = k')) as [->|Hne].
  - rewrite (bool_decide_eq_true_2 (k' ∈ k' :: _)) by (left; done). case_bool_decide; [done|]. apply lookup_delete_eq.
  - rewrite lookup_delete_ne by done. destruct (decide (k ∈ ks.*1)) as [Hin|Hin].
    + rewrite !bool_decide_eq_true_2; [done|by right|done].
    + rewrite !bool_decide_eq_false_2; [done| |done]. intros [?|?]%elem_of_cons; done.
Qed.

(** Replacing the contract state: what the database holds afterwards. *)
Lemma replace_ok m m' st tip hash commitment :
  BlockStore.ReplaceAVMStateAndCommitment (toStoreWrites (memory_Writes st)) tip hash commitment m = Ok m' ->
  (forall k, m' !! avmKey k = data st !! k) /\ BlockStore.GetAVMCommitment m' tip = Ok (Some (hash, commitment)).
Proof.
  unfold BlockStore.ReplaceAVMStateAndCommitment. intros E. apply bind_ok in E as (puts & Hputs & E). apply Ok_inj in E as <-.
  apply replacement_ops in Hputs as ->. cbn [app]. rewrite !write_app. split.
  - intros k. rewrite write_other by (constructor; [cbn [BlockStore.commitment_op op_key]; unfold BlockStore.avm_commit_key; key_ne|constructor]).
    rewrite BlockStoreProofs.write_avm. set (before := write _ m).
    rewrite (last_write_upds (memory_Writes st) (fun k => before !! avmKey k)). apply upds_memory_Writes.
    intros k' _. unfold before. rewrite write_deletes. destruct (m !! avmKey k') as [v|] eqn:E; [|by case_bool_decide].
    rewrite bool_decide_eq_true_2; [done|]. apply list_elem_of_fmap. exists (avmKey k', v). split; [done|].
    apply elem_of_scan. split; [apply has_prefix_app|done].
  - unfold BlockStore.GetAVMCommitment. set (before := write _ (write _ m)).
    assert (El : write [BlockStore.commitment_op tip hash commitment] before !! BlockStore.avm_commit_key tip =
      Some (arr_list hash ++ arr_list commitment)) by apply lookup_insert_eq.
    rewrite El. clear El. assert (Hl : length (arr_list hash) = 32%nat) by apply arr_length.
    rewrite bool_decide_eq_true_2 by (rewrite length_app, !arr_length; done). cbn [negb].
    rewrite (take_app_length' (arr_list hash)), (drop_app_length' (arr_list hash)) by done. by rewrite !copy_arr_list.
Qed.

(** After a successful comparison the database holds the state and the marker. *)
Lemma reconcile_ok m tip hash commitment st rebuilt m' : reconcile m tip hash commitment st = Ok (rebuilt, m') ->
  (forall k, m' !! avmKey k = data st !! k) /\ BlockStore.GetAVMCommitment m' tip = Ok (Some (hash, commitment)) /\
  (rebuilt = false -> m' = m).
Proof.
  unfold reconcile. intros E. apply bind_ok in E as (marker & Hm & E). apply reject_ok in E as (Hc & E).
  assert (Hrep : (m' ← BlockStore.ReplaceAVMStateAndCommitment (toStoreWrites (memory_Writes st)) tip hash commitment m; Ok (true, m')) = Ok (rebuilt, m') ->
    (forall k, m' !! avmKey k = data st !! k) /\ BlockStore.GetAVMCommitment m' tip = Ok (Some (hash, commitment)) /\ (rebuilt = false -> m' = m)).
  { intros Er. apply bind_ok in Er as (m1 & Hr & Er). apply Ok_inj in Er. injection Er as <- <-.
    apply replace_ok in Hr as [Hs Hg]. done. }
  destruct marker as [[h c]|]; [|by apply Hrep]. apply bind_ok in E as ([] & Hcs & E).
  revert E. case_bool_decide as Hlen; [|apply Hrep]. intros E%Ok_inj. injection E as <- <-.
  split; [by apply complete_state|]. split; [|done]. rewrite Hm. cbn in Hc. apply orb_false_iff in Hc as [Hh Hcc]. zbool. by subst.
Qed.

(** ** Replay *)

Lemma execute_txs_receipts {S} `{Store S} txs : forall (st st' : S) rs rs', execute_txs (st, []) txs = Ok (st', rs') ->
  execute_txs (st, rs) txs = Ok (st', rs ++ rs').
Proof.
  assert (Hg : forall txs (st st' : S) acc rs rs', execute_txs (st, acc) txs = Ok (st', rs') ->
    exists new, rs' = acc ++ new /\ execute_txs (st, rs) txs = Ok (st', rs ++ new)).
  { unfold execute_txs. clear. induction txs as [|tx txs IH]; intros st st' acc rs rs'; cbn [foldM].
    - intros [= <- <-]%Ok_inj. exists []. by rewrite !app_nil_r.
    - cbn [fst snd]. intros E. apply bind_ok in E as (s & Hs & E). apply bind_ok in Hs as ([st1 r] & Ht & Hs). apply Ok_inj in Hs as <-.
      cbn [fst snd] in E. rewrite Ht. cbn [mbind result_bind fst snd].
      apply (IH _ _ _ (rs ++ match r with Some x => [x] | None => [] end)) in E as (new & -> & E).
      eexists. rewrite <- app_assoc. split; [done|]. by rewrite <- app_assoc in E. }
  intros st st' rs rs' E. apply (Hg _ _ _ _ rs) in E as (new & -> & E). done.
Qed.

Lemma execute_txs_app {S} `{Store S} (st : S) rs a b : execute_txs (st, rs) (a ++ b) = s ← execute_txs (st, rs) a; execute_txs s b.
Proof. unfold execute_txs. apply foldM_app. Qed.

(** Blocks that follow one another from a given hash. *)
Fixpoint linked (previous : option Hash32) (blocks : list Block) : Prop :=
  match blocks with
  | [] => True
  | b :: blocks' => match previous with Some p => PrevHash (Header b) = p | None => True end /\ linked (Some (block_Hash b)) blocks'
  end.

Lemma canonical_block_ok m h hash b : canonical_block m h = Ok (hash, b) ->
  BlockStore.GetCanonicalHash m h = Ok (Some hash) /\ Height (Header b) = h /\ block_Hash b = hash.
Proof.
  unfold canonical_block. intros E. apply bind_ok in E as (i & Hi & E). destruct i as [hash'|]; [|done].
  destruct (BlockStore.GetRawBlock m hash') as [raw|]; [|done]. destruct (BlockStore.unmarshal_block raw) as [b'|]; [|done].
  apply reject_ok in E as (Hh & E). apply reject_ok in E as (_ & E). apply Ok_inj in E. injection E as <- <-.
  apply orb_false_iff in Hh as [Hh1 Hh2]. zbool. done.
Qed.

Lemma replay_block_ok m tip tipHash v r h r' : replay_block m tip tipHash v r h = Ok r' ->
  exists b p, canonical_block m h = Ok (block_Hash b, b) /\ PrepareBlock (rp_Store r) b = Ok p /\
    Apply (p_Writes p) (rp_Store r) = Ok (rp_Store r') /\
    r' = mkReplay (rp_Store r') (Some (block_Hash b)) (AvmBlock.WriteSetCommitment p) /\
    linked (rp_Previous r) [b] /\ (v = true -> VerifySignature (Header b) [] = true) /\ (h = tip -> block_Hash b = tipHash).
Proof.
  unfold replay_block. intros E. apply bind_ok in E as ([hash b] & Hb & E). destruct (canonical_block_ok _ _ _ _ Hb) as (_ & _ & <-).
  apply reject_ok in E as (Hl & E). apply reject_ok in E as (Hv & E). apply reject_ok in E as (Ht & E).
  apply bind_ok in E as (p & Hp & E). apply bind_ok in E as (marker & _ & E). apply reject_ok in E as (_ & E).
  apply bind_ok in E as (st & Ha & E). apply Ok_inj in E as <-. exists b, p. cbn [rp_Store]. split_and!; try done.
  - cbn. split; [|done]. destruct (rp_Previous r); [|done]. by zbool.
  - intros ->. cbn [andb] in Hv. by apply negb_false_iff in Hv.
  - intros ->. rewrite Z.eqb_refl in Ht. cbn [andb] in Ht. by zbool.
Qed.

(** The replay executes the canonical blocks of its heights, linked, in order. *)
Lemma replay_executes m tip tipHash v hs : forall r r' (direct : MemoryStore) rs,
  foldM (replay_block m tip tipHash v) r hs = Ok r' -> equiv_stores (rp_Store r) direct ->
  exists blocks direct' rs', Forall2 (fun h b => canonical_block m h = Ok (block_Hash b, b) /\ (h = tip -> block_Hash b = tipHash)) hs blocks /\
    linked (rp_Previous r) blocks /\ (v = true -> Forall (fun b => VerifySignature (Header b) [] = true) blocks) /\
    execute_txs (direct, rs) (concat (Txs <$> blocks)) = Ok (direct', rs') /\ equiv_stores (rp_Store r') direct'.
Proof.
  induction hs as [|h hs IH]; intros r r' direct rs; cbn [foldM].
  - intros <-%Ok_inj Hv. exists [], direct, rs. split_and!; try done; constructor.
  - intros E Hd. apply bind_ok in E as (r1 & H1' & E).
    apply replay_block_ok in H1' as (b & p & Hb & Hp & Ha & Er & Hl & Hs & Ht).
    assert (Hx := prepare_effect (rp_Store r) b). rewrite Hp in Hx. destruct Hx as (committed & d1 & Ha' & Hd1 & Hv1).
    rewrite Ha in Ha'. apply Ok_inj in Ha' as <-.
    assert (He := execute_txs_equiv (Txs b) (rp_Store r) direct [] Hd). rewrite Hd1 in He.
    destruct (execute_txs (direct, []) (Txs b)) as [[d2 rs2]|] eqn:E2; [|done].
    destruct He as (<- & ws & [Hw1 Hw2] & _). assert (Hd2 : equiv_stores d1 d2) by by apply (apply_all_equiv ws (rp_Store r) direct).
    apply (execute_txs_receipts _ _ _ rs) in E2.
    destruct (IH r1 r' d2 (rs ++ p_Receipts p) E) as (blocks & d3 & rs3 & Hbs & Hls & Hss & Hx3 & Hv3).
    { intros k Hk. rewrite (Hv1 k Hk). by apply Hd2. }
    exists (b :: blocks), d3, rs3. rewrite Er in Hls. cbn [rp_Previous] in Hls. split_and!.
    + by constructor.
    + cbn [linked] in *. destruct Hl as [Hl _]. by split.
    + intros Ev. constructor; [by apply Hs|by apply Hss].
    + cbn [fmap list_fmap concat]. rewrite execute_txs_app, E2. exact Hx3.
    + done.
Qed.

Lemma range_ok m st start tip tipHash previous v r : start <= tip ->
  replayCanonicalRange m st start tip tipHash previous v = Ok r <->
  foldM (replay_block m tip tipHash v) (mkReplay st previous zeroHash) (seqZ start (tip - start + 1)) = Ok r.
Proof.
  intros Hle. unfold replayCanonicalRange. rewrite (proj2 (Z.leb_le _ _) Hle), (proj2 (Z.ltb_ge _ _) Hle).
  by destruct (foldM _ _ _).
Qed.

(** ** Resuming from a checkpoint *)

Lemma replay_proper m tip tipHash v hs : forall r r', foldM (replay_block m tip tipHash v) r hs = Ok r' ->
  proper_store (rp_Store r) -> proper_store (rp_Store r').
Proof.
  induction hs as [|h hs IH]; intros r r'; cbn [foldM]; [by intros <-%Ok_inj|]. intros E Hp.
  apply bind_ok in E as (r1 & H1' & E). apply (IH r1 r' E). apply replay_block_ok in H1' as (b & p & _ & _ & Ha & _).
  apply memory_apply_ok in Ha as (_ & Hpp & _). by apply Hpp.
Qed.

(** A replay up to one tip is a part of the replay up to any canonical tip. *)
Lemma replay_block_retarget m h hh tip tipHash v r x r' : BlockStore.GetCanonicalHash m tip = Ok (Some tipHash) ->
  replay_block m h hh v r x = Ok r' -> replay_block m tip tipHash v r x = Ok r'.
Proof.
  intros Ht. unfold replay_block. intros E. apply bind_ok in E as ([hash b] & Hb & E). rewrite Hb. cbn [mbind result_bind].
  apply canonical_block_ok in Hb as (Hi & _ & _). apply reject_ok in E as (-> & E). apply reject_ok in E as (-> & E).
  apply reject_ok in E as (_ & E). assert (Hx : (x =? tip) && negb (bool_decide (hash = tipHash)) = false).
  { destruct (x =? tip) eqn:Ex; [|done]. zbool. subst x. rewrite Ht in Hi. injection Hi as ->. by rewrite bool_decide_eq_true_2. }
  by rewrite Hx.
Qed.

Lemma replay_retarget m h hh tip tipHash v hs : BlockStore.GetCanonicalHash m tip = Ok (Some tipHash) -> forall r r',
  foldM (replay_block m h hh v) r hs = Ok r' -> foldM (replay_block m tip tipHash v) r hs = Ok r'.
Proof.
  intros Ht. induction hs as [|x hs IH]; intros r r'; cbn [foldM]; [done|]. intros E. apply bind_ok in E as (r1 & H1' & E).
  rewrite (replay_block_retarget _ _ _ _ _ _ _ _ _ Ht H1'). cbn [mbind result_bind]. by apply IH.
Qed.

(** The replay does not read the commitment it carries. *)
Lemma replay_forgets m tip tipHash v st previous c c' h hs :
  foldM (replay_block m tip tipHash v) (mkReplay st previous c) (h :: hs) =
  foldM (replay_block m tip tipHash v) (mkReplay st previous c') (h :: hs).
Proof. reflexivity. Qed.

Lemma replay_last m tip tipHash v r start r' : start <= tip ->
  foldM (replay_block m tip tipHash v) r (seqZ start (tip - start + 1)) = Ok r' -> rp_Previous r' = Some tipHash.
Proof.
  intros Hle E. rewrite seqZ_app, foldM_app in E by lia. rewrite (seqZ_cons (start + _)), seqZ_nil in E by lia.
  apply bind_ok in E as (r1 & _ & E). cbn [foldM] in E. apply bind_ok in E as (r2 & H2' & E). apply Ok_inj in E as <-.
  apply replay_block_ok in H2' as (b & p & _ & _ & _ & -> & _ & _ & Ht). cbn. f_equal. apply Ht. lia.
Qed.

Lemma snapshot_order st : snapshot_writes (merge_sort entry_le (checkpoint_entries st)) ≡ₚ memory_Writes st.
Proof. rewrite <- snapshot_of_entries. unfold snapshot_writes. apply fmap_Permutation, merge_sort_Permutation. Qed.

Lemma with_signatures_fields ss d :
  GenesisHash (with_signatures ss d) = GenesisHash d /\ cp_Height (with_signatures ss d) = cp_Height d /\
  BlockHash (with_signatures ss d) = BlockHash d /\ Entries (with_signatures ss d) = Entries d /\
  AvmCheckpoint.WriteSetCommitment (with_signatures ss d) = AvmCheckpoint.WriteSetCommitment d.
Proof. done. Qed.

Lemma new_draft_fields act h g b w es d : NewQuorumCheckpointDraft act h g b w es = Ok d ->
  cp_Height d = h /\ GenesisHash d = g /\ BlockHash d = b /\ AvmCheckpoint.WriteSetCommitment d = w /\ Entries d = merge_sort entry_le es.
Proof.
  intros E. assert (He := draft_valid _ _ _ _ _ _ _ E). destruct He as [_ He]. unfold NewQuorumCheckpointDraft in E.
  apply reject_ok in E as (_ & E). apply reject_ok in E as (_ & E). apply bind_ok in E as (es' & _ & E).
  apply bind_ok in E as (sc & _ & E). by apply Ok_inj in E as <-.
Qed.

(** What a draft built from the chain records. *)
Lemma built_draft m act h hh d : 0 <= act -> BuildCheckpointDraftFromCanonical m act h hh = Ok d ->
  0 < act <= h /\ cp_Height d = h /\ BlockHash d = hh /\ canonical_genesis m = Ok (GenesisHash d) /\
  BlockStore.GetCanonicalHash m h = Ok (Some hh) /\
  exists p r, BlockStore.GetCanonicalHash m (act - 1) = Ok (Some p) /\
    foldM (replay_block m h hh true) (mkReplay NewMemoryStore (Some p) zeroHash) (seqZ act (h - act + 1)) = Ok r /\
    r = mkReplay (rp_Store r) (Some hh) (AvmCheckpoint.WriteSetCommitment d) /\
    Apply (snapshot_writes (Entries d)) NewMemoryStore = Ok (rp_Store r).
Proof.
  intros H0' E. unfold BuildCheckpointDraftFromCanonical in E. apply bind_ok in E as ([] & Hv & E).
  unfold valid_heights in Hv. apply reject_ok in Hv as (Hv & _). apply bind_ok in E as (g & Hg & E). apply reject_ok in E as (_ & E).
  apply bind_ok in E as (i & Hi & E). apply reject_ok in E as (Hii & E). apply bind_ok in E as (r & Hr & E).
  apply new_draft_fields in E as (Eh & Eg & Eb & Ew & Ee). apply orb_false_iff in Hv as [Hv1 Hv2]. zbool. subst i. split; [lia|]. rewrite Eg, Ee, Ew.
  split_and!; try done. unfold replay_from_activation in Hr. apply bind_ok in Hr as (parent & Hp & Hr).
  destruct parent as [p|]; [|done]. apply range_ok in Hr; [|lia]. exists p, r. split_and!; try done.
  - rewrite <- (replay_last m h hh true _ act r ltac:(lia) Hr). by destruct r.
  - apply load_snapshot; [|apply snapshot_order]. by apply (replay_proper _ _ _ _ _ _ _ Hr).
Qed.

(** The run from the checkpoint is the end of the full run. *)
Lemma resumed_run m act h hh tip tipHash g p r commitment : 0 < act <= h -> h <= tip ->
  BlockStore.GetCanonicalHash m h = Ok (Some hh) -> BlockStore.GetCanonicalHash m tip = Ok (Some tipHash) ->
  foldM (replay_block m h hh true) (mkReplay NewMemoryStore (Some p) zeroHash) (seqZ act (h - act + 1)) = Ok r ->
  r = mkReplay (rp_Store r) (Some hh) commitment ->
  run_plan m tip tipHash (mkPlan (rp_Store r) (if h =? tip then tip else h + 1) (Some hh) true g (if h =? tip then Some commitment else None)) =
  run_plan m tip tipHash (mkPlan NewMemoryStore act (Some p) true g None).
Proof.
  intros Hle Htip Hi Hti Hr Er. apply (replay_retarget m h hh tip tipHash) in Hr; [|done].
  unfold run_plan at 2. cbn [pl_Tip pl_Start pl_Store pl_Previous pl_Strict]. rewrite (proj2 (Z.ltb_ge _ _)) by lia.
  unfold replayCanonicalRange at 1. rewrite (proj2 (Z.leb_le _ _)), (proj2 (Z.ltb_ge _ _)) by lia.
  replace (tip - act + 1) with ((h - act + 1) + (tip - h)) by lia. rewrite seqZ_app, foldM_app, Hr by lia. cbn [mbind result_bind].
  replace (act + (h - act + 1)) with (h + 1) by lia. unfold run_plan. cbn [pl_Tip pl_Start pl_Store pl_Previous pl_Strict].
  destruct (h =? tip) eqn:E; zbool.
  - subst tip. rewrite Z.sub_diag. cbn [seqZ foldM fmap list_fmap mbind result_bind]. by rewrite Er.
  - rewrite (proj2 (Z.ltb_ge _ _)) by lia. unfold replayCanonicalRange. rewrite (proj2 (Z.leb_le _ _)), (proj2 (Z.ltb_ge _ _)) by lia.
    replace (tip - (h + 1) + 1) with (tip - h) by lia. rewrite Er at 2. rewrite (seqZ_cons (h + 1)) by lia.
    rewrite (replay_forgets m tip tipHash true (rp_Store r) (Some hh) zeroHash commitment). done.
Qed.

(** ** Correctness *)

(** C24: after a start without checkpoints (EnsureCanonicalState, with an activation
    height from 1 up to the tip) that succeeds, the database holds exactly the contract
    state that executing the canonical blocks from the activation height on, linked and
    ending in the given tip, leaves; it carries the marker of the tip, and it is
    untouched when nothing had to be rebuilt. A start from a quorum checkpoint is the
    subject of [resume_equals_replay]. *)
Theorem recovery_restores (m m' : KV) (act tip : Z) (tipHash : Hash32) (rebuilt : bool) (written : option CheckpointWire) :
  0 < act <= tip -> EnsureCanonicalState m act tip tipHash = (m', Ok (rebuilt, written)) ->
  exists blocks st rs commitment,
    Forall2 (fun h b => canonical_block m h = Ok (block_Hash b, b) /\ (h = tip -> block_Hash b = tipHash)) (seqZ act (tip - act + 1)) blocks /\
    linked None blocks /\
    execute_txs (NewMemoryStore, []) (concat (Txs <$> blocks)) = Ok (st, rs) /\
    same_view (view (mkLevel m')) (view st) /\ BlockStore.GetAVMCommitment m' tip = Ok (Some (tipHash, commitment)) /\
    (rebuilt = false -> m' = m).
Proof.
  intros Hle. unfold EnsureCanonicalState. destruct (_ && _); [done|]. unfold ensureCanonicalState.
  rewrite (proj2 (Z.eqb_neq _ _)), (proj2 (Z.ltb_ge _ _)) by lia. cbn [orb plan_recovery mbind result_bind run_plan pl_Tip pl_Start pl_Previous pl_Strict pl_Store].
  rewrite (proj2 (Z.ltb_ge _ _)) by lia.
  set (previous := match BlockStore.GetCanonicalHash m (act - 1) with Ok (Some p) => Some p | _ => None end).
  destruct (replayCanonicalRange m NewMemoryStore act tip tipHash previous false) as [r|] eqn:Er; [|done].
  cbn [mbind result_bind fst snd]. destruct (reconcile m tip tipHash (rp_Commitment r) (rp_Store r)) as [[re mm]|] eqn:Ec; [|done].
  cbn [mbind result_bind fst snd refresh]. intros [= <- <- <-]. apply range_ok in Er; [|lia].
  destruct (replay_executes _ _ _ _ _ _ _ NewMemoryStore [] Er (fun k _ => eq_refl)) as (blocks & st & rs & Hb & Hl & _ & Hx & Hv).
  apply reconcile_ok in Ec as (Hs & Hm & Hre). exists blocks, st, rs, (rp_Commitment r). split_and!; try done.
  - destruct blocks as [|b blocks]; [done|]. by destruct Hl.
  - intros k Hk. rewrite <- (Hv k Hk). apply Hs.
Qed.

(** C25: starting from a checkpoint is the same as replaying the whole chain while the
    replay is within its limit: a node given a quorum-signed checkpoint of the state a
    full replay reached at a height ends with the same database and the same result,
    success or error, as a node without one, for every canonical tip from that height on
    such that the blocks from the activation height to the tip do not exceed the replay
    limit, and when the database carries at the height of the checkpoint the marker of
    its block with its write-set commitment. (Beyond the limit only the node with the
    checkpoint can start.) *)
Theorem resume_equals_replay (m : KV) (act h tip threshold limit : Z) (hh tipHash : Hash32) (d : AVMCheckpoint)
    (auths : list ValidatorPubKey) (ss : list CheckpointWitnessSignature) (path : string) :
  0 <= act -> BuildCheckpointDraftFromCanonical m act h hh = Ok d ->
  VerifyCheckpointQuorum (Some (with_signatures ss d)) act auths threshold = Ok () ->
  BlockStore.GetAVMCommitment m h = Ok (Some (hh, AvmCheckpoint.WriteSetCommitment d)) ->
  h <= tip -> BlockStore.GetCanonicalHash m tip = Ok (Some tipHash) -> tip - act + 1 <= replay_limit limit ->
  EnsureCanonicalStateWithQuorumCheckpoint m act tip tipHash path (Ok (Some (checkpointToWire (with_signatures ss d)))) auths threshold limit =
  EnsureCanonicalStateWithQuorumCheckpoint m act tip tipHash path (Ok None) auths threshold limit.
Proof.
  intros H0' Hd Hq Hm Htip Hti Hlim. set (c := with_signatures ss d) in *. unfold EnsureCanonicalStateWithQuorumCheckpoint.
  destruct ((act =? 0) || (tip <? act)); [done|]. destruct (bool_decide (path = EmptyString)); [done|].
  assert (Ha := proj1 (proj1 (quorum_ok _ _ _ _) Hq)). rewrite Ha. assert (Hth := proj1 (authorities_ok _ _ Ha)).
  apply built_draft in Hd as (Hle & Eh & Eb & Hg & Hi & p & r & Hp & Hr & Er & Hload); [|done].
  set (cp := mkRecovery auths None threshold (replay_limit limit)).
  set (full := mkPlan NewMemoryStore act (Some p) true (GenesisHash d) None).
  set (resumed := mkPlan (rp_Store r) (if h =? tip then tip else h + 1) (Some hh) true (GenesisHash d)
                    (if h =? tip then Some (AvmCheckpoint.WriteSetCommitment d) else None)).
  assert (Hfull : plan_recovery m act tip (Ok None) (Some cp) = Ok full).
  { cbn [plan_recovery]. rewrite Hg. cbn [mbind result_bind]. unfold plan_full. cbn [maxReplayBlocks cp].
    rewrite (proj2 (Z.ltb_ge _ _)) by lia. rewrite Hp. cbn [mbind result_bind]. fold full. cbn [pl_Tip pl_Start full].
    by rewrite (proj2 (Z.ltb_ge (replay_limit limit) _)), andb_false_r by lia. }
  assert (Hres : plan_recovery m act tip (Ok (Some (checkpointToWire c))) (Some cp) = Ok resumed).
  { cbn [plan_recovery]. rewrite Hg. cbn [mbind result_bind]. rewrite (wire_round_trip c) by by eapply quorum_wire_ok.
    cbn [mbind result_bind]. unfold plan_from_snapshot. cbn [witnessThreshold authorities cp]. rewrite (proj2 (Z.ltb_lt 0 threshold)) by lia.
    rewrite Hq. cbn [mbind result_bind]. unfold c. cbn [cp_Height GenesisHash BlockHash Entries AvmCheckpoint.WriteSetCommitment with_signatures].
    rewrite Eh, Eb, (proj2 (Z.ltb_ge tip h)) by lia. rewrite bool_decide_eq_true_2 by done. cbn [negb]. rewrite Hi. cbn [mbind result_bind].
    rewrite bool_decide_eq_true_2 by done. cbn [negb]. rewrite Hm. cbn [mbind result_bind]. rewrite bool_decide_eq_true_2 by done.
    cbn [negb]. rewrite Hload. cbn [mbind result_bind]. fold resumed. cbn [pl_Start resumed maxReplayBlocks].
    rewrite (proj2 (Z.ltb_ge (replay_limit limit) _)), andb_false_r by (destruct (h =? tip); lia). done. }
  assert (Hrun : run_plan m tip tipHash resumed = run_plan m tip tipHash full).
  { apply (resumed_run m act h hh); done. }
  unfold ensureCanonicalState. destruct ((act =? 0) || (tip <? act)); [done|]. rewrite Hfull, Hres. cbn [mbind result_bind].
  rewrite Hrun. destruct (run_plan m tip tipHash full) as [s|]; [|done]. cbn [mbind result_bind].
  destruct (reconcile m tip tipHash s.2 s.1); done.
Qed.

End Recovery.

(** ** Witnesses *)

Section Example.
#[local] Existing Instance toy_crypto | 0.
#[local] Existing Instance toy_memory | 0.
#[local] Existing Instance toy_decoder | 0.
#[local] Existing Instance toy_runtime | 0.

(** A block that deploys the counter and one that calls it twice. *)
Definition ex_block (height : Z) (parent : Hash32) (txs : list Transaction) : Block :=
  mkBlock (mkHeader height parent (default zeroHash (MerkleRoot txs)) 1000 0 (ex_pub x01) 0 0 (x01 :: replicate 63 x00)) txs.
Definition ex_first : Block := Eval vm_compute in ex_block 7 (AvmCheckpoint.ex_hash x06) [ex_avm_tx true 0].
Definition ex_second : Block := Eval vm_compute in ex_block 8 (block_Hash ex_first) [ex_avm_tx false 1; ex_avm_tx false 2].

#[local] Instance ex_json : BlockStore.BlockJson := {|
  BlockStore.marshal_stored := fun _ => []; BlockStore.unmarshal_stored := fun _ => None;
  BlockStore.unmarshal_block := fun d => if bool_decide (d = [x01]) then Some ex_first else if bool_decide (d = [x02]) then Some ex_second else None;
  BlockStore.unmarshal_heights := fun _ => None
|}.

Definition ex_first_commitment : Hash32 := Eval vm_compute in
  match PrepareBlock NewMemoryStore ex_first with Ok p => AvmBlock.WriteSetCommitment p | Err _ => zeroHash end.

(** The chain of the two blocks above height 6, the first with its marker, and no
    contract state. *)
Definition ex_db : KV :=
  write ([Put (heightKey 0) (arr_list (AvmCheckpoint.ex_hash x05)); Put (heightKey 6) (arr_list (AvmCheckpoint.ex_hash x06));
          Put (heightKey 7) (arr_list (block_Hash ex_first)); Put (heightKey 8) (arr_list (block_Hash ex_second));
          Put (blockKey (block_Hash ex_first)) [x01]; Put (blockKey (block_Hash ex_second)) [x02];
          BlockStore.commitment_op 7 (block_Hash ex_first) ex_first_commitment] ++ BlockStore.tip_ops (block_Hash ex_second) 8) ∅.

Definition ex_recovered : KV := fst (EnsureCanonicalState ex_db 7 8 (block_Hash ex_second)).

Lemma ex_recovered_ok : EnsureCanonicalState ex_db 7 8 (block_Hash ex_second) = (ex_recovered, Ok (true, None)).
Proof.
  assert (E : snd (EnsureCanonicalState ex_db 7 8 (block_Hash ex_second)) = Ok (true, None)) by (vm_compute; reflexivity).
  rewrite <- E. apply surjective_pairing.
Qed.

(** The counter the calls left. *)
Example ex_recovered_counter :
  BlockStore.GetAVMState ex_recovered (contract_prefix (Avm.ContractID (ex_payload true 0)) ++ [x6b]) = Ok (Some [x03]).
Proof. vm_compute. reflexivity. Qed.

Definition is_block (r : result (Hash32 * Block)) (b : Block) : bool := match r with Ok (_, b') => bool_decide (b' = b) | Err _ => false end.

Lemma recovery_restores_witness : exists st rs, execute_txs (NewMemoryStore, []) (concat (Txs <$> [ex_first; ex_second])) = Ok (st, rs) /\
  same_view (view (mkLevel ex_recovered)) (view st).
Proof.
  destruct (recovery_restores ex_db ex_recovered 7 8 (block_Hash ex_second) true None ltac:(lia) ex_recovered_ok)
    as (blocks & st & rs & c & Hb & _ & Hx & Hv & _).
  assert (E : blocks = [ex_first; ex_second]).
  { change (seqZ 7 (8 - 7 + 1)) with [7; 8] in Hb. apply Forall2_cons_inv_l in Hb as (b1 & bs & [H1 _] & Hb & ->).
    apply Forall2_cons_inv_l in Hb as (b2 & bs2 & [H2 _] & Hb & ->). apply Forall2_nil_inv_l in Hb as ->.
    f_equal; [|f_equal].
    - assert (E1 : is_block (canonical_block ex_db 7) ex_first = true) by (vm_compute; reflexivity).
      rewrite H1 in E1. by apply bool_decide_eq_true in E1.
    - assert (E2 : is_block (canonical_block ex_db 8) ex_second = true) by (vm_compute; reflexivity).
      rewrite H2 in E2. by apply bool_decide_eq_true in E2. }
  subst blocks. exists st, rs. exact (conj Hx Hv).
Defined.

Definition ex_built : AVMCheckpoint := Eval vm_compute in
  match BuildCheckpointDraftFromCanonical ex_db 7 7 (block_Hash ex_first) with Ok d => d | Err _ => ex_draft end.

Lemma ex_built_ok : BuildCheckpointDraftFromCanonical ex_db 7 7 (block_Hash ex_first) = Ok ex_built.
Proof. vm_compute. reflexivity. Qed.

Lemma resume_equals_replay_witness :
  EnsureCanonicalStateWithQuorumCheckpoint ex_db 7 8 (block_Hash ex_second) "checkpoint"
    (Ok (Some (checkpointToWire (with_signatures (rev ex_collected) ex_built)))) ex_auths 2 5 =
  EnsureCanonicalStateWithQuorumCheckpoint ex_db 7 8 (block_Hash ex_second) "checkpoint" (Ok None) ex_auths 2 5.
Proof.
  apply (resume_equals_replay ex_db 7 7 8 2 5 (block_Hash ex_first) (block_Hash ex_second) ex_built ex_auths (rev ex_collected) "checkpoint").
  - lia.
  - exact ex_built_ok.
  - vm_compute. reflexivity.
  - apply (bool_decide_unpack _). vm_compute. exact I.
  - lia.
  - apply (bool_decide_unpack _). vm_compute. exact I.
  - vm_compute. discriminate.
Defined.

Example resume_succeeds :
  snd (EnsureCanonicalStateWithQuorumCheckpoint ex_db 7 8 (block_Hash ex_second) "checkpoint"
    (Ok (Some (checkpointToWire (with_signatures (rev ex_collected) ex_built)))) ex_auths 2 5) = Ok (true, None).
Proof. vm_compute. reflexivity. Qed.

End Example.

End AvmRecovery.
