(* ===== verification/Engine.v ===== *)
(** The consensus engine of [consensus/poa.go]: the transition a block received from
    a peer or produced in the node's own slot makes in the whole node.

    [Engine] holds what [Engine] keeps and the components it drives: the chain, the
    registry, the UTXO set, the pool, the base fee, the double-sign detector of
    [consensus/slashing.go] and the finality state of [Finality].  The node wires one
    UTXO set into the engine, the registry and the verifier; here it is the field
    [utxos] alone, which [deref] lends to the registry for the time of a call.

    What one call reaches outside ([World]) are the clock, the oracle, the durable
    store behind the callbacks, and the orders in which Go visits maps.  LPoD
    settlement and the sale ledger enter through it as well: the engine only asks
    them to accept a block.  A call that can fail after it has changed state returns
    the engine next to its result. *)

From stdpp Require Import base gmap list strings.
From S2P Require Import Prelude Bytes Crypto Avm Transaction Block Chain Reward Utxo TxVerifier Mempool StakePayload.
From S2P Require Import Vesting Staking StakingBlock StakingEpoch Quorum FinalityStore Finality Economics Wasm AvmState AvmEngine AvmBlock.
Import Transaction Block Chain Reward Staking Quorum FinalityStore.

Module Engine.

(** ** Double signing: [consensus/slashing.go] *)

(** [ValidatorPubKey.ID]: the first eight hexadecimal digits. *)
Definition pub_ID (k : ValidatorPubKey) : string :=
  let h := pub_hex k in
  if (String.length h <? 8)%nat then h else String.substring 0 8 h.

Record signedSlot := mkSlot { ss_hash : Hash32; ss_sig : list byte; ss_round : Z }.

Record DoubleSignEvidence := mkEvidence {
  ev_Height : Z; ev_Round1 : Z; ev_Validator : ValidatorPubKey; ev_Hash1 : Hash32; ev_Sig1 : list byte;
  ev_Round2 : Z; ev_Hash2 : Hash32; ev_Sig2 : list byte
}.

(** The map [seen]: the key is a height and an ID. *)
Definition Detector : Type := gmap (Z * string) signedSlot.

Definition PruneBelow (height : Z) (d : Detector) : Detector :=
  filter (fun e : (Z * string) * signedSlot => (e.1.1 <? height) = false) d.

Definition CheckBlock (height round : Z) (pub : ValidatorPubKey) (hash : Hash32) (sig : list byte) (d : Detector)
    : Detector * option DoubleSignEvidence :=
  match d !! (height, pub_ID pub) with
  | None =>
      let d1 := <[(height, pub_ID pub) := mkSlot hash sig round]> d in
      (if 2048 <? height then PruneBelow (height -w 2048) d1 else d1, None)
  | Some prev =>
      if bool_decide (ss_hash prev = hash) then (d, None)
      else (d, Some (mkEvidence height (ss_round prev) pub (ss_hash prev) (ss_sig prev) round hash sig))
  end.

(** ** Configuration and state *)

Record Config := mkConfig {
  econ : Economics.Config;
  bootstrap : list ValidatorPubKey;
  authorityFork : option ValidatorAuthorityFork;
  BFTThreshold : float64;
  (** [MyKey]: the private key bytes. *)
  MyKey : option (list byte);
  RewardAddress : string;
  StopProducingAtHeight : Z;
  (** Both the threshold and [OnTimestampBan] are set. *)
  banThreshold : option Z;
  (** [OracleURL] is set. *)
  hasOracle : bool;
  OracleMaxDeviation : float64;
  GenesisVestingActivationHeight : Z;
  StakedCollateralRingExclusionActivationHeight : Z;
  (** The verifier of [SetTxVerifier], with its vesting lock. *)
  verifier : option (option Vesting.VestingLock)
}.

Record Engine := mkEngine {
  chain : Chain;
  registry : option Registry;
  utxos : option Utxo.UTXOSet;
  pool : Mempool.Mempool;
  baseFee : Z;
  slashing : Detector;
  fin : Finality.Fin;
  stakingPool : Economics.Pool;
  timestampRejected : Z;
  tsPerValidator : gmap string Z
}.

Definition set_chain (c : Chain) (e : Engine) : Engine :=
  mkEngine c (registry e) (utxos e) (pool e) (baseFee e) (slashing e) (fin e) (stakingPool e) (timestampRejected e) (tsPerValidator e).
Definition set_utxos (s : option Utxo.UTXOSet) (e : Engine) : Engine :=
  mkEngine (chain e) (registry e) s (pool e) (baseFee e) (slashing e) (fin e) (stakingPool e) (timestampRejected e) (tsPerValidator e).
Definition set_pool (m : Mempool.Mempool) (e : Engine) : Engine :=
  mkEngine (chain e) (registry e) (utxos e) m (baseFee e) (slashing e) (fin e) (stakingPool e) (timestampRejected e) (tsPerValidator e).
Definition set_baseFee (f : Z) (e : Engine) : Engine :=
  mkEngine (chain e) (registry e) (utxos e) (pool e) f (slashing e) (fin e) (stakingPool e) (timestampRejected e) (tsPerValidator e).
Definition set_slashing (d : Detector) (e : Engine) : Engine :=
  mkEngine (chain e) (registry e) (utxos e) (pool e) (baseFee e) d (fin e) (stakingPool e) (timestampRejected e) (tsPerValidator e).
Definition set_fin (f : Finality.Fin) (e : Engine) : Engine :=
  mkEngine (chain e) (registry e) (utxos e) (pool e) (baseFee e) (slashing e) f (stakingPool e) (timestampRejected e) (tsPerValidator e).
Definition set_stakingPool (p : Economics.Pool) (e : Engine) : Engine :=
  mkEngine (chain e) (registry e) (utxos e) (pool e) (baseFee e) (slashing e) (fin e) p (timestampRejected e) (tsPerValidator e).
Definition set_times (n : Z) (ts : gmap string Z) (e : Engine) : Engine :=
  mkEngine (chain e) (registry e) (utxos e) (pool e) (baseFee e) (slashing e) (fin e) (stakingPool e) n ts.

Definition halted (e : Engine) : bool := Finality.halted (fin e).
Definition halt (e : Engine) : Engine := set_fin (Finality.halt (fin e)) e.

(** The registry with the shared UTXO set, and back. *)
Definition deref (e : Engine) (r : Registry) : Registry := SetUTXOSet (utxos e) r.
Definition put_registry (r : Registry) (e : Engine) : Engine :=
  mkEngine (chain e) (Some (SetUTXOSet None r)) (r_utxos r) (pool e) (baseFee e) (slashing e) (fin e) (stakingPool e)
    (timestampRejected e) (tsPerValidator e).

(** ** The world of one call *)

(** [L] and [S] are the settlements the LPoD store and the sale store prepare. *)
Record Prepared (L S : Type) := mkPrepared {
  pb_AVM : AvmBlock.PreparedBlock; pb_LPoD : option L; pb_Sale : option S
}.
Arguments mkPrepared {L S}.
Arguments pb_AVM {L S}. Arguments pb_LPoD {L S}. Arguments pb_Sale {L S}.

Record World (L S A : Type) := mkWorld {
  (** [time.Now]: in nanoseconds, and as the verifier reads it. *)
  w_now : Z;
  w_clock : Z;
  (** [fetchOraclePrice] and [cachedOraclePrice]. *)
  w_fetched : Z;
  w_cached : Z;
  (** The fingerprint of the registry snapshot's JSON. *)
  w_fingerprint : gmap string ValidatorEntry -> Z -> option Hash32;
  (** The persistent ring-member index behind the UTXO set. *)
  w_ring : option (Point32 -> option Utxo.UTXO);
  (** [OnUTXORestored] and [OnUTXODeleted] over the keys of one rollback. *)
  w_reindex : list Utxo.UTXOKey -> list Utxo.UTXOKey -> result ();
  (** [AVMExecutor]: its canonical store. *)
  w_avm : option A;
  (** [validateLPoD] and [prepareLPoD] in the LPoD era; the two protocol
      transactions of a draft; the balance its checkpoint holds. *)
  w_validateLPoD : Block -> result ();
  w_prepareLPoD : Block -> result (option L);
  w_draftLPoD : Block -> string -> result (Transaction * Transaction);
  w_filterLPoD : list Transaction -> result (list Transaction * list Hash32);
  w_lpodRemaining : option Z;
  (** [Store.PrepareSaleBlock]; [None] is a nil store. *)
  w_prepareSale : option (Block -> result (option S));
  w_sales : option (Z -> Hash32 -> result (list Transaction));
  (** [OnCanonicalBlock] and [OnBlockProduced]; [None] is a nil callback. *)
  w_canonical : option (Block -> Prepared L S -> result ());
  w_produced : option (Block -> result ());
  (** The store of [Finality] and the orders of map iterations. *)
  w_io : io;
  w_iter : gmap Hash32 Mempool.mempoolEntry -> list Mempool.mempoolEntry;
  w_ord : list Mempool.mempoolEntry -> list Mempool.mempoolEntry;
  w_epoch : list StakingEpoch.keyed -> list StakingEpoch.keyed;
  w_votes : gmap string (list byte) -> list (string * list byte);
  w_replay : gmap Finality.futureVoteKey Finality.FinalizeMsg -> list (Finality.futureVoteKey * Finality.FinalizeMsg)
}.
Arguments w_now {L S A}. Arguments w_clock {L S A}. Arguments w_fetched {L S A}. Arguments w_cached {L S A}.
Arguments w_fingerprint {L S A}. Arguments w_ring {L S A}. Arguments w_reindex {L S A}. Arguments w_avm {L S A}.
Arguments w_validateLPoD {L S A}. Arguments w_prepareLPoD {L S A}. Arguments w_draftLPoD {L S A}.
Arguments w_filterLPoD {L S A}. Arguments w_lpodRemaining {L S A}. Arguments w_prepareSale {L S A}.
Arguments w_sales {L S A}. Arguments w_canonical {L S A}. Arguments w_produced {L S A}. Arguments w_io {L S A}.
Arguments w_iter {L S A}. Arguments w_ord {L S A}. Arguments w_epoch {L S A}. Arguments w_votes {L S A}.
Arguments w_replay {L S A}.

Section Engine.
Context `{Crypto} `{Json} `{TxVerifier.RingCrypto} `{Wasm.WasmDecoder} `{AvmEngine.WasmRuntime}.
Context {L S A : Type} `{AvmState.Store A}.
Variable c : Config.
Variable w : World L S A.

Abbreviation height_active h := (Economics.lpodActive (econ c) h).

(** ** What the engine reads *)

Definition authority (identity : ValidatorPubKey) (height : Z) : ValidatorPubKey :=
  Authority (authorityFork c) identity height.

(** [localIdentity]; [[]] is the nil key. *)
Definition localIdentity (height : Z) : ValidatorPubKey :=
  match MyKey c with
  | Some key => LocalIdentity (authorityFork c) (Finality.key_Public key) height
  | None => []
  end.

Definition committee (e : Engine) : list ValidatorPubKey := activeValidators (registry e) (bootstrap c).

Definition fin_env (e : Engine) : Finality.Env := Finality.mkEnv (authorityFork c) (committee e) (BFTThreshold c).

(** [checkAuthorityParent], on the height and the parent of a header. *)
Definition checkAuthorityParent (e : Engine) (header : BlockHeader) : result () :=
  match authorityFork c with
  | None => Ok ()
  | Some f =>
      _ ← CheckParent (Some f) header;
      if Height header =? fk_Height f then
        need r from registry e else "panic: nil registry" ;;
        reject negb (bool_decide (w_fingerprint w (validators r) (dynamicMinNAPR r) = Some (fk_RegistrySHA256 f)))
          with "validator authority fork activation registry mismatch" ;; Ok ()
      else Ok ()
  end.

(** The verifier over the engine's set. *)
Definition tx_verifier (e : Engine) : option TxVerifier.TxVerifier :=
  (fun vl => TxVerifier.mkVerifier (utxos e) (w_ring w) vl (w_clock w) (StakedCollateralRingExclusionActivationHeight c))
    <$> verifier c.

(** [checkOraclePriceDeviation] *)
Definition f64_abs : float64 -> float64 := SpecFloat.SFabs.
Definition f64_zero : float64 := f64_of_Z 0.

Definition checkOraclePriceDeviation (blockPrice : Z) : result () :=
  if negb (hasOracle c) || SpecFloat.SFleb (OracleMaxDeviation c) f64_zero || (blockPrice =? 0) then Ok ()
  else
    let localPrice := w_fetched w in
    if localPrice =? 0 then Ok ()
    else
      let deviation := f64_div (f64_abs (f64_sub (f64_of_Z blockPrice) (f64_of_Z localPrice))) (f64_of_Z localPrice) in
      reject f64_lt (OracleMaxDeviation c) deviation with "oracle price deviation too large" ;; Ok ().

(** ** Policies *)

Definition validateLPoD (b : Block) : result () :=
  if negb (height_active (height_of b)) then
    reject existsb (fun tx => IsLPoD tx || IsLPoDPosition tx || IsLPoDPayout tx) (Txs b)
      with "lpod: transaction before activation" ;; Ok ()
  else w_validateLPoD w b.

Definition validateCoinbasePolicy (e : Engine) (b : Block) : result () :=
  Economics.validateCoinbasePolicy (econ c) (chain e) (baseFee e) validateLPoD b.
Definition validateBlockEconomics (e : Engine) (b : Block) : result () :=
  Economics.validateBlockEconomics (econ c) (chain e) (baseFee e) b.
Definition validateRingCTV4Activation (e : Engine) (b : Block) : result () :=
  Economics.validateRingCTV4Activation (econ c) (chain e) validateLPoD b.

(** The three policies a block obeys, in the order of both callers. *)
Definition policies (e : Engine) (b : Block) : result () :=
  _ ← validateCoinbasePolicy e b;
  _ ← validateBlockEconomics e b;
  validateRingCTV4Activation e b.

Definition validate_stakes (e : Engine) (b : Block) : result () :=
  match registry e with
  | Some r => StakingBlock.ValidateBlockStakeTxs (Txs b) (height_of b) (deref e r)
  | None => Ok ()
  end.

(** [consensus/sale.go] *)
Definition prepareSale (b : Block) : result (option S) :=
  reject match Economics.SaleHeight (econ c) with
         | Some h => negb (GenesisVestingActivationHeight c =? 0) && (h <=? GenesisVestingActivationHeight c)
         | None => false
         end with "sale: scheduled new genesis reserve overlaps the sale allocation" ;;
  match w_prepareSale w with
  | None =>
      reject existsb IsSale (Txs b) with "sale: durable store missing" ;;
      reject match Economics.SaleHeight (econ c) with Some h => h <=? height_of b | None => false end
        with "sale: durable store missing" ;;
      Ok None
  | Some prepare => prepare b
  end.

Definition without_sales (b : Block) : Block := mkBlock (Header b) (filter (fun tx => IsSale tx = false) (Txs b)).

Definition verifyBlockWithSales (v : TxVerifier.TxVerifier) (b : Block) : result () :=
  prepared ← prepareSale b;
  match prepared with
  | None => TxVerifier.VerifyBlock v (Some b)
  | Some _ => TxVerifier.VerifyBlock v (Some (without_sales b))
  end.

(** ** Contracts and settlements *)

Definition prepareAVMOnly (b : Block) : result AvmBlock.PreparedBlock :=
  let activation := Economics.AVMActivationHeight (econ c) in
  if (activation =? 0) || (height_of b <? activation) then
    reject existsb IsAVM (Txs b) with "AVM is not active at height" ;;
    Ok (AvmBlock.mkPrepared (height_of b) (block_Hash b) [] [] zeroHash)
  else
    need st from w_avm w else "AVM executor is not configured at active height" ;;
    AvmBlock.PrepareBlock st b.

Definition prepareAVMBlock (b : Block) : result (Prepared L S) :=
  prepared ← prepareAVMOnly b;
  l ← (if height_active (height_of b) then w_prepareLPoD w b else Ok None);
  s ← prepareSale b;
  Ok (mkPrepared prepared l s).

(** ** Applying a block *)

(** Why the state was left, or restored to what it was. *)
Inductive refusal :=
  | UtxoRefused (why : string) | StakeRefused (why : string) | ChainRefused (why : string)
  | RollbackFailed (why : string).

(** [e.utxos.RollbackBlock]: the set is rolled back whatever the callbacks answer. *)
Definition rollback_utxos (b : Block) (e : Engine) : Engine * result () :=
  match utxos e with
  | None => (e, Ok ())
  | Some s =>
      let '(s', restored, deleted) := Utxo.RollbackBlock b s in
      (set_utxos (Some s') e, w_reindex w restored deleted)
  end.

Definition apply_utxos (b : Block) (e : Engine) : result Engine :=
  match utxos e with
  | None => Ok e
  | Some s => s' ← Utxo.ApplyBlock b s; Ok (set_utxos (Some s') e)
  end.

(** The closure is [stakeRollback]; [None] is the nil closure of a node without registry. *)
Definition apply_stakes (b : Block) (e : Engine) : Engine * result (option (Registry -> Registry)) :=
  match registry e with
  | None => (e, Ok None)
  | Some r =>
      let '(r', res) := ApplyBlockStakeTxs (Txs b) (height_of b) (deref e r) in
      (put_registry r' e, k ← res; Ok (Some k))
  end.

Definition undo_stakes (k : option (Registry -> Registry)) (e : Engine) : Engine :=
  match k, registry e with
  | Some k, Some r => put_registry (k (deref e r)) e
  | _, _ => e
  end.

Definition apply_block (b : Block) (e : Engine) : Engine * (refusal + option (Registry -> Registry)) :=
  match apply_utxos b e with
  | Err x => (e, inl (UtxoRefused x))
  | Ok e1 =>
      match apply_stakes b e1 with
      | (e2, Err x) =>
          match rollback_utxos b e2 with
          | (e3, Err y) => (halt e3, inl (RollbackFailed y))
          | (e3, Ok _) => (e3, inl (StakeRefused x))
          end
      | (e2, Ok k) =>
          match AddBlock b (chain e2) with
          | Err x =>
              let '(e3, rolled) := rollback_utxos b e2 in
              let e4 := undo_stakes k e3 in
              match rolled with
              | Err y => (halt e4, inl (RollbackFailed y))
              | Ok _ => (e4, inl (ChainRefused x))
              end
          | Ok ch => (set_chain ch e2, inr k)
          end
      end
  end.

(** [rollbackUnpersistedBlock]; the errors are joined. *)
Definition rollbackUnpersistedBlock (b : Block) (k : option (Registry -> Registry)) (e : Engine) : Engine * result () :=
  let '(e1, r1) := match RollbackLastBlock (Some b) (chain e) with
                   | Ok ch => (set_chain ch e, Ok ())
                   | Err x => (e, Err x)
                   end in
  let '(e2, r2) := rollback_utxos b e1 in
  (undo_stakes k e2, _ ← r1; r2).

(** Admin mints cannot be scheduled, so none is in flight. *)
Definition failCanonicalPersistence (b : Block) (k : option (Registry -> Registry)) (err : string) (e : Engine)
    : Engine * result () :=
  let '(e1, rolled) := rollbackUnpersistedBlock b k e in
  (halt e1, Err (match rolled with Ok _ => err | Err x => String.append err x end)).

(** The canonical block becomes durable, or the transition is undone. *)
Definition persist_block (b : Block) (p : Prepared L S) (k : option (Registry -> Registry)) (e : Engine)
    : Engine * result () :=
  match w_canonical w with
  | Some save =>
      match save b p with
      | Ok _ => (e, Ok ())
      | Err x => failCanonicalPersistence b k (String.append "persist canonical block: " x) e
      end
  | None => failCanonicalPersistence b k "persist canonical block: OnCanonicalBlock is required" e
  end.

(** ** After the commit *)

Definition admit_height (height : Z) (e : Engine) : Engine :=
  match registry e with
  | Some r => put_registry (SetSignatureAdmissionHeight height (deref e r)) e
  | None => e
  end.

Definition advance_fee (fee : Z) (e : Engine) : Engine := set_pool (Mempool.SetBaseFee fee (pool e)) (set_baseFee fee e).

Definition advance_epoch (height : Z) (e : Engine) : Engine :=
  match registry e with
  | Some r =>
      if height mod StakePayload.EpochLength =? 0
      then put_registry (StakingEpoch.UpdateEpoch (w_epoch w) height (deref e r)).1 e
      else e
  | None => e
  end.

(** [OnBlockAccepted] as [cmd/node] wires it: the draw from the staking pool. *)
Definition block_accepted (b : Block) (e : Engine) : Engine :=
  if height_active (height_of b) then
    match w_lpodRemaining w with
    | Some rem => let p := stakingPool e in
        set_stakingPool (Economics.mkPool (Economics.stakingPoolInit p) (wrapS64 rem) (Economics.tailRewardNAPR p)) e
    | None => e
    end
  else set_stakingPool (Economics.DecrementPool (econ c) (height_of b) (stakingPool e)).1 e.

Definition remove_included (b : Block) (e : Engine) : Engine := set_pool (Mempool.RemoveBlock b (pool e)) e.

Definition replay_votes (b : Block) (e : Engine) : Engine :=
  set_fin (Finality.replayFutureVotes (w_votes w) (w_replay w) (fin_env e) (w_io w) (chain e) (Some b) (fin e)) e.

(** The vote is broadcast when it is cast. *)
Definition cast_vote (b : Block) (e : Engine) : Engine :=
  match MyKey c with
  | Some key => set_fin (Finality.castVote (w_votes w) (fin_env e) (w_io w) (chain e) key b (fin e)).1 e
  | None => e
  end.

(** ** [handleIncomingBlock] *)

Definition maxClockSkewNs : Z := 15 * 1000000000.

(** The rejection of a block from the future, and the count of its signer. *)
Definition reject_timestamp (b : Block) (e : Engine) : Engine :=
  let n := wrapS64 (timestampRejected e + 1) in
  let id := pub_ID (ValidatorPub (Header b)) in
  set_times n (match banThreshold c with
               | Some _ => <[id := default 0 (tsPerValidator e !! id) + 1]> (tsPerValidator e)
               | None => tsPerValidator e
               end) e.

(** [OnTimestampBan] is called on this rejection. *)
Definition ban_due (b : Block) (e : Engine) : bool :=
  match banThreshold c with
  | Some t => t <=? default 0 (tsPerValidator e !! pub_ID (ValidatorPub (Header b))) + 1
  | None => false
  end.

Definition check_structure (b : Block) (e : Engine) : result () :=
  reject halted e with "consensus engine halted after persistent rollback failure" ;;
  _ ← checkAuthorityParent e (Header b);
  Block.Validate b [authority (ValidatorPub (Header b)) (height_of b)].

(** The candidate extends the tip and comes from the proposer of its round. *)
Definition check_slot (b : Block) (e : Engine) : result () :=
  need t from tip (chain e) else "no genesis block" ;;
  reject (height_of t =? MaxUint64) || negb (height_of b =? height_of t +w 1) with "block height doesn't extend tip" ;;
  reject (Round (Header t) =? U32 - 1) || negb (Round (Header b) =? wrap32 (Round (Header t) + 1))
    with "block round doesn't extend tip round" ;;
  reject negb (isKnownValidator (committee e) (ValidatorPub (Header b))) with "block from unknown validator" ;;
  match proposerAt (committee e) (Round (Header b)) with
  | Some expected => reject negb (pub_equals expected (ValidatorPub (Header b))) with "not the scheduled proposer" ;; Ok ()
  | None => Ok ()
  end.

(** Everything between the double-sign check and the first change of state. *)
Definition check_body (b : Block) (e : Engine) : result (Prepared L S) :=
  _ ← checkOraclePriceDeviation (OraclePrice (Header b));
  _ ← Economics.blockKeyImageCheck b;
  _ ← policies e b;
  _ ← validate_stakes e b;
  need v from tx_verifier e else "tx verifier not configured" ;;
  _ ← verifyBlockWithSales v b;
  prepareAVMBlock b.

(** The tail of the handler, once the block is durable. *)
Definition settle_incoming (b : Block) (e : Engine) : Engine :=
  let e1 := admit_height (height_of b +w 1) e in
  let blockBaseFee := if BaseFee (Header b) =? 0 then Economics.expectedBaseFee (baseFee e1) else BaseFee (Header b) in
  let e2 := advance_fee (Economics.nextBaseFee blockBaseFee (block_Size b)) e1 in
  let e3 := advance_epoch (height_of b) e2 in
  let e4 := block_accepted b (remove_included b e3) in
  replay_votes b (cast_vote b e4).

Definition refusal_message (x : refusal) : string :=
  match x with UtxoRefused s | StakeRefused s | ChainRefused s | RollbackFailed s => s end.

Definition handleIncomingBlock (b : Block) (e : Engine) : Engine * result () :=
  match check_structure b e with
  | Err x => (e, Err x)
  | Ok _ =>
      if maxClockSkewNs <? wrapS64 (Timestamp (Header b) - w_now w)
      then (reject_timestamp b e, Err "timestamp too far from local clock")
      else
        match check_slot b e with
        | Err x => (e, Err x)
        | Ok _ =>
            let h := Header b in
            match CheckBlock (Height h) (Round h) (ValidatorPub h) (block_Hash b) (HeaderSignature h) (slashing e) with
            | (_, Some _) => (e, Err "double-sign")
            | (d, None) =>
                let e0 := set_slashing d e in
                match check_body b e0 with
                | Err x => (e0, Err x)
                | Ok p =>
                    match apply_block b e0 with
                    | (e1, inl x) => (e1, Err (refusal_message x))
                    | (e1, inr k) =>
                        match persist_block b p k e1 with
                        | (e2, Err x) => (e2, Err x)
                        | (e2, Ok _) => (settle_incoming b e2, Ok ())
                        end
                    end
                end
            end
        end
  end.

(** ** [produceBlock] *)

(** There is no configuration that makes it true. *)
Definition legacyAdminMintAuthorizationAvailable : bool := false.

(** The loop over the selected transactions: the pool, the gas and what is kept. *)
Definition select_step (rewardActive : bool) (s : Mempool.Mempool * Z * list Transaction) (tx : Transaction)
    : Mempool.Mempool * Z * list Transaction :=
  let '(m, gas, kept) := s in
  let keep (m : Mempool.Mempool) :=
    if IsAVM tx then
      let gasLimit := match AVM tx with Some a => Avm.GasLimit a | None => 0 end in
      if Avm.AVMMaxBlockGas -w gas <? gasLimit then (m, gas, kept) else (m, gas +w gasLimit, kept ++ [tx])
    else (m, gas, kept ++ [tx]) in
  if IsCoinbase tx && negb (IsStake tx) then
    let h := Hash tx in
    if negb (Mempool.IsPrivileged m h) then s
    else if negb legacyAdminMintAuthorizationAvailable then (Mempool.Remove h m, gas, kept)
    else if rewardActive then (Mempool.Remove h m, gas, kept)
    else keep m
  else keep m.

Definition selected (rewardActive : bool) (m : Mempool.Mempool) : Mempool.Mempool * list Transaction :=
  let '(m1, _, txs) := foldl (select_step rewardActive) (m, 0, []) (Mempool.SelectTxs (w_iter w) (w_ord w) 2000 m) in
  (m1, txs).

(** The approved sales of this height. *)
Definition sale_intents (height : Z) (parentHash : Hash32) : result (list Transaction) :=
  match Economics.SaleHeight (econ c), w_sales w with
  | Some h, Some provider =>
      if h <=? height then
        match provider height parentHash with
        | Err _ => Err "sale: approved intent construction failed"
        | Ok sales =>
            reject bool_decide (128 < length sales)%nat with "sale: approved intent block limit exceeded" ;;
            reject existsb (fun tx => negb (IsSale tx)) sales with "sale: intent provider returned a non-sale transaction" ;;
            Ok sales
        end
      else Ok []
  | _, _ => Ok []
  end.

(** Re-verification: what fails is banned. *)
Definition screen_step (v : TxVerifier.TxVerifier) (height : Z) (s : Mempool.Mempool * list Transaction)
    (tx : Transaction) : Mempool.Mempool * list Transaction :=
  let '(m, kept) := s in
  if IsCoinbase tx || IsStake tx then (m, kept ++ [tx])
  else if negb (is_ok (Economics.validateVersionWithSales (econ c) tx height (Economics.RingCTV4ActivationHeight (econ c))))
  then (Mempool.BanTx (w_now w) (Hash tx) m, kept)
  else if IsSale tx then (m, kept ++ [tx])
  else if negb (is_ok (TxVerifier.VerifyTxAtHeight v tx height)) then (Mempool.BanTx (w_now w) (Hash tx) m, kept)
  else (m, kept ++ [tx]).

Definition screened (e : Engine) (height : Z) (m : Mempool.Mempool) (txs : list Transaction)
    : Mempool.Mempool * list Transaction :=
  match tx_verifier e with
  | Some v => foldl (screen_step v height) (m, []) txs
  | None => (m, txs)
  end.

(** Stake transactions are probed against the ones already kept. *)
Definition stake_step (r : Registry) (height : Z) (s : Mempool.Mempool * list Transaction * list Transaction)
    (tx : Transaction) : Mempool.Mempool * list Transaction * list Transaction :=
  let '(m, stakePrefix, kept) := s in
  if IsStake tx then
    if is_ok (StakingBlock.ValidateBlockStakeTxs (stakePrefix ++ [tx]) height r)
    then (m, stakePrefix ++ [tx], kept ++ [tx])
    else (Mempool.Remove (Hash tx) m, stakePrefix, kept)
  else (m, stakePrefix, kept ++ [tx]).

Definition stake_screened (e : Engine) (height : Z) (m : Mempool.Mempool) (txs : list Transaction)
    : Mempool.Mempool * list Transaction :=
  match registry e with
  | Some r => let '(m1, _, kept) := foldl (stake_step (deref e r) height) (m, [], []) txs in (m1, kept)
  | None => (m, txs)
  end.

(** [filterLPoDPositions]: before the LPoD era every position request is evicted. *)
Definition filterLPoDPositions (height : Z) (m : Mempool.Mempool) (txs : list Transaction)
    : result (Mempool.Mempool * list Transaction) :=
  '(kept, evicted) ← (if height_active height then w_filterLPoD w txs
    else Ok (filter (fun tx => IsLPoDPosition tx = false) txs, Hash <$> filter (fun tx => IsLPoDPosition tx = true) txs));
  Ok (foldl (fun m h => Mempool.Remove h m) m evicted, kept).

(** The reward of the era without authorizations. *)
Definition legacy_reward (e : Engine) (height : Z) : Z :=
  let p := stakingPool e in
  let base := if Economics.BlockRewardNAPR (econ c) =? 0 then
                if 0 <? Economics.stakingPoolInit p then Economics.DefaultPoolBlockRewardNAPR
                else Economics.DefaultBlockRewardNAPR
              else Economics.BlockRewardNAPR (econ c) in
  if 0 <? Economics.stakingPoolInit p then
    let remaining := Economics.stakingPoolRemaining p in
    if 0 <? remaining then (if wrap64 remaining <? base then wrap64 remaining else base)
    else Economics.tailRewardNAPR p
  else Economics.blockRewardAtHeight base height.

Definition with_reward (e : Engine) (key : list byte) (height : Z) (parentHash : Hash32) (txs : list Transaction)
    : result (list Transaction) :=
  let activation := Economics.RewardAuthorizationActivationHeight (econ c) in
  let rewardActive := (0 <? activation) && (activation <=? height) in
  if rewardActive && negb (height_active height) then
    reject bool_decide (RewardAddress c = EmptyString) with "reward_address is required" ;;
    totalReward ← Economics.authorizedRewardAmount (econ c) (chain e) (baseFee e) height txs;
    if 0 <? totalReward then
      tx ← BuildAuthorizedRewardTx (RewardAddress c) totalReward height parentHash key;
      Ok (tx :: txs)
    else Ok txs
  else if negb (bool_decide (RewardAddress c = EmptyString)) && negb (height_active height) then
    match BuildMintTx (RewardAddress c) (legacy_reward e height) height with
    | Ok tx => Ok (tx :: txs)
    | Err _ => Ok txs
    end
  else Ok txs.

(** The guardian transaction goes right after a coinbase. *)
Definition with_guardian (height : Z) (txs : list Transaction) : result (list Transaction) :=
  let active := Economics.GuardianFundActivationHeight (econ c) in
  if (0 <? active) && (height =? active) then
    guardian ← BuildGuardianFundTx (Economics.GuardianFundChainAnchor (econ c)) height;
    Ok (match txs with
        | t0 :: rest => if IsCoinbase t0 then t0 :: guardian :: rest else guardian :: txs
        | [] => [guardian]
        end)
  else Ok txs.

Definition with_lpod (header : BlockHeader) (txs : list Transaction) : result (list Transaction) :=
  if height_active (Height header) then
    '(payout, checkpoint) ← w_draftLPoD w (mkBlock header txs) (RewardAddress c);
    Ok (payout :: checkpoint :: txs)
  else Ok txs.

Definition draft_header (e : Engine) (height round : Z) (parent : Block) (txs : list Transaction) : BlockHeader :=
  mkHeader height (block_Hash parent) (default zeroHash (MerkleRoot txs)) (w_now w) (wrap32 round)
    (localIdentity height) (w_cached w) (Economics.expectedBaseFeeAt (econ c) (chain e) (baseFee e) height) [].

(** The transactions the pool and the sales contribute, and the pool afterwards. *)
Definition collect (e : Engine) (height : Z) (parentHash : Hash32) : Mempool.Mempool * result (list Transaction) :=
  let activation := Economics.RewardAuthorizationActivationHeight (econ c) in
  let '(m1, raw) := selected ((0 <? activation) && (activation <=? height)) (pool e) in
  match sale_intents height parentHash with
  | Err x => (m1, Err x)
  | Ok sales =>
      let '(m2, txs2) := screened e height m1 (raw ++ sales) in
      let '(m3, txs3) := stake_screened e height m2 txs2 in
      match filterLPoDPositions height m3 txs3 with
      | Err x => (m3, Err x)
      | Ok (m4, txs4) => (m4, Ok txs4)
      end
  end.

(** The block over the collected transactions. *)
Definition assemble (e : Engine) (key : list byte) (height round : Z) (parent : Block) (txs : list Transaction)
    : result Block :=
  txs1 ← with_reward e key height (block_Hash parent) txs;
  txs2 ← with_guardian height txs1;
  let draft := draft_header e height round parent txs2 in
  txs3 ← with_lpod draft txs2;
  header ← Block.Sign (draft_header e height round parent txs3) key;
  Ok (mkBlock header txs3).

Definition produceBlock (height round : Z) (parent : Block) (e : Engine) : Engine * result Block :=
  match MyKey c with
  | None => (e, Err "configured key is not the signing authority at height")
  | Some key =>
      if negb (pub_equals (authority (localIdentity height) height) (Finality.key_Public key))
      then (e, Err "configured key is not the signing authority at height")
      else
        match (_ ← checkAuthorityParent e (mkHeader height (block_Hash parent) zeroHash 0 0 [] 0 0 []);
               Economics.validateGuardianConfig (econ c) (chain e)) with
        | Err x => (e, Err x)
        | Ok _ =>
            let '(m, txs) := collect e height (block_Hash parent) in
            (set_pool m e, ts ← txs; assemble e key height round parent ts)
        end
  end.

(** ** [tick] *)

Definition evict_stakes (b : Block) (e : Engine) : Engine :=
  set_pool (foldl (fun m tx => if IsStake tx then Mempool.Remove (Hash tx) m else m) (pool e) (Txs b)) e.
Definition ban_contracts (b : Block) (e : Engine) : Engine :=
  set_pool (foldl (fun m tx => if IsAVM tx then Mempool.BanTx (w_now w) (Hash tx) m else m) (pool e) (Txs b)) e.

(** The tail of the slot, once the block is durable; the pool of admin mints is empty. *)
Definition settle_produced (b : Block) (e : Engine) : Engine :=
  let blockBaseFee := if BaseFee (Header b) =? 0
                      then Economics.expectedBaseFeeAt (econ c) (chain e) (baseFee e) (height_of b) else BaseFee (Header b) in
  let e1 := advance_fee (Economics.nextBaseFee blockBaseFee (block_Size b)) e in
  let e2 := admit_height (height_of b +w 1) e1 in
  let e3 := advance_epoch (height_of b) e2 in
  let e4 := block_accepted b (remove_included b e3) in
  cast_vote b (replay_votes b e4).

(** A block produced in this slot, from its checks to its broadcast. *)
Definition commit_produced (b : Block) (e : Engine) : Engine * result (option Block) :=
  match policies e b with
  | Err x => (e, Err x)
  | Ok _ =>
      match validate_stakes e b with
      | Err x => (evict_stakes b e, Err x)
      | Ok _ =>
          match prepareAVMBlock b with
          | Err x => (ban_contracts b e, Err x)
          | Ok p =>
              match apply_block b e with
              | (e1, inl (StakeRefused x)) => (evict_stakes b e1, Err x)
              | (e1, inl x) => (e1, Err (refusal_message x))
              | (e1, inr k) =>
                  match persist_block b p k e1 with
                  | (e2, Err x) => (e2, Err x)
                  | (e2, Ok _) =>
                      match (match w_produced w with Some f => f b | None => Ok () end) with
                      | Err x => (halt e2, Err (String.append "persist produced block: " x))
                      | Ok _ => (settle_produced b e2, Ok (Some b))
                      end
                  end
              end
          end
      end
  end.

(** This node proposes the next block. *)
Definition our_slot (e : Engine) (nextHeight nextRound : Z) : bool :=
  match MyKey c with
  | None => false
  | Some key =>
      let proposer := default [] (proposerAt (committee e) nextRound) in
      pub_equals proposer (localIdentity nextHeight) && pub_equals (authority proposer nextHeight) (Finality.key_Public key)
  end.

(** The block that is broadcast; [None] when the slot is not ours. *)
Definition tick (e : Engine) : Engine * result (option Block) :=
  if halted e then (e, Err "consensus engine halted after persistent rollback failure")
  else match tip (chain e) with
       | None => (e, Err "no genesis block")
       | Some t =>
           let nextHeight := height_of t +w 1 in
           let nextRound := wrap32 (Round (Header t) + 1) in
           if (0 <? StopProducingAtHeight c) && (StopProducingAtHeight c <=? nextHeight) then (e, Ok None)
           else
             let e1 := admit_height nextHeight e in
             if negb (our_slot e1 nextHeight nextRound) then (e1, Ok None)
             else
               match checkAuthorityParent e1 (mkHeader nextHeight (block_Hash t) zeroHash 0 0 [] 0 0 []) with
               | Err x => (halt e1, Err x)
               | Ok _ =>
                   match produceBlock nextHeight nextRound t e1 with
                   | (e2, Err x) => (e2, Err x)
                   | (e2, Ok b) => commit_produced b e2
                   end
               end
       end.

End Engine.

End Engine.
