(* ===== verification/EngineSafety.v ===== *)
(** What a refused block leaves behind: the engine undoes the UTXO set, the staking
    burns, the registry and the chain in an order of its own, and the theorems here
    show that the order is right. *)

From stdpp Require Import base gmap list strings.
From S2P Require Import Prelude Bytes Undo Crypto Avm StakePayload Transaction Block Chain Utxo UtxoRollback.
From S2P Require Import TxVerifier Staking StakingAtomic StakingBlock StakingEpoch Quorum Finality Economics Mempool.
From S2P Require Import Wasm AvmState AvmEngine AvmBlock Engine.
Import Engine Undo Transaction Block Chain StakePayload Utxo UtxoRollback Staking StakingAtomic StakingBlock Quorum.

Module EngineSafety.

(** ** Undo logs *)

Lemma put_all_lookup_inv `{Countable K} {A : Type} (l : list (K * A)) (m : gmap K A) k a :
  put_all l m !! k = Some a -> k ∈ l.*1 -> (k, a) ∈ l.
Proof.
  revert m. induction l as [|[k' a'] l IH]; intros m Hp Hin; [by apply elem_of_nil in Hin|].
  change (put_all ((k', a') :: l) m) with (put_all l (<[k' := a']> m)) in Hp. simpl in Hin.
  destruct (decide (k ∈ l.*1)) as [Hl|Hl]; [right; by eapply IH|].
  rewrite put_all_ne in Hp by done. apply elem_of_cons in Hin as [->|]; [|done].
  rewrite lookup_insert_eq in Hp. simplify_eq. left.
Qed.

(** Bindings put back commute with an undo log on other keys. *)
Lemma put_all_swap `{Countable K} {A} (L J : list (K * A)) (ks : list K) (m : gmap K A) :
  (forall k, (k ∈ L.*1) -> (k ∉ J.*1) /\ k ∉ ks) ->
  put_all L (del_all ks (put_all J m)) = del_all ks (put_all J (put_all L m)).
Proof.
  revert m. induction L as [|[k a] L IH]; intros m Hd; [done|].
  change (put_all ((k, a) :: L) ?x) with (put_all L (<[k := a]> x)).
  destruct (Hd k) as [HJ Hks]; [left|]. rewrite <- IH by (intros k' Hk'; apply Hd; by right). f_equal.
  rewrite put_all_insert by done. apply map_eq. intros k'. destruct (decide (k' ∈ ks)) as [Hin|Hn].
  - rewrite (del_all_in ks _ k') by done. rewrite lookup_insert_ne by (intros ->; done). by apply del_all_in.
  - rewrite (del_all_lookup ks _ k') by done. destruct (decide (k' = k)) as [->|].
    + by rewrite !lookup_insert_eq.
    + rewrite !lookup_insert_ne by done. by apply del_all_lookup.
Qed.

(** What a log undoes to a binding is in the log, untouched, or nowhere. *)
Lemma undoes_kept `{Countable K} {A} (m0 m : gmap K A) J ks k a :
  undoes m0 J ks m -> m0 !! k = Some a -> m !! k = Some a \/ (k, a) ∈ J.
Proof.
  intros [<- _] Hk. destruct (decide (k ∈ ks)) as [Hin|Hn]; [by rewrite del_all_in in Hk|].
  rewrite del_all_lookup in Hk by done. destruct (decide (k ∈ J.*1)); [right; by eapply put_all_lookup_inv|left].
  by rewrite put_all_ne in Hk.
Qed.

Lemma undoes_active `{Countable K} {A} (m0 m : gmap K A) J ks k a :
  undoes m0 J ks m -> k ∉ ks -> m !! k = Some a -> m0 !! k = Some a /\ k ∉ J.*1.
Proof.
  intros [<- Hd] Hn Hk. assert (HJ : k ∉ J.*1) by (intros Hin; apply Hd in Hin; congruence).
  by rewrite del_all_lookup, put_all_ne.
Qed.

(** ** Rolling back under a burn *)

(** Two sets no operation tells apart: the log of recent outputs and the pool of
    decoys, which only sampling reads, may differ. *)
Record same_set `{Crypto} (s s' : UTXOSet) : Prop := {
  ss_utxos : utxos s' = utxos s;
  ss_pubs : byPubKey s' = byPubKey s;
  ss_staked : stakedUTXOs s' = stakedUTXOs s;
  ss_journal : rollbackJournal s' = rollbackJournal s;
  ss_images : forall ki, contains (keyImages s') ki = contains (keyImages s) ki
}.

Section Burns.
Context `{Crypto}.

Lemma same_set_refl s : same_set s s.
Proof. by constructor. Qed.

(** Collateral that was active before the block stays filed while it is applied. *)
Lemma filed_applied (b : Block) (s s' : UTXOSet) k :
  undoable b s -> ApplyBlock b s = Ok s' -> is_Some (utxos s !! k) -> filed s k -> filed s' k.
Proof.
  intros Hu Hap [u0 H0] Hf u Hk. destruct (undoable_applying b s Hu) as [_ Hun Hup _ _ _].
  unfold ApplyBlock in Hap. apply bind_ok in Hap as (r & _ & [= <-]).
  destruct (ud_fresh _ _ Hu) as (_ & _ & Hfr).
  destruct (undoes_active _ _ _ _ k u Hun) as [Hk0 HJ]; [|done|].
  { intros Hin. apply list_elem_of_fmap in Hin as (o & -> & Ho). destruct (Hfr o Ho). congruence. }
  destruct (Hf u Hk0) as [Hkey Hpub]. split; [done|].
  destruct (undoes_kept _ _ _ _ _ _ Hup Hpub) as [|Hin]; [done|]. exfalso. apply HJ.
  unfold by_member in Hin. apply list_elem_of_fmap in Hin as (e & He & Hin).
  injection He as _ ->. rewrite <- Hkey. unfold by_key. rewrite <- list_fmap_compose. apply list_elem_of_fmap. by exists e.
Qed.

(** The engine's order: the block is rolled back first, the burns are undone after. *)
Lemma rollback_under_burn (b : Block) (s s' s1 : UTXOSet) (L : list (UTXOKey * UTXO)) :
  undoable b s -> ApplyBlock b s = Ok s' -> burned s' L s1 ->
  (forall k, k ∈ L.*1 -> is_Some (utxos s !! k) /\ filed s k) ->
  let '(s2, _, _) := RollbackBlock b s1 in
  same_set s (foldl (fun s k => UnmarkStaked (fst k) (snd k) s) s2 L.*1).
Proof.
  intros Hu Hap Hb HL. destruct Hb as [[Bu _] [Bp _] Bf [Bn Bs] Bst (Bk & Bsp & Bj & _)].
  assert (Hfr := rollback_frame b s s' s1 Hu Hap Bk Bsp Bj). cbv zeta in Hfr.
  destruct (RollbackBlock b s1) as [[s2 restored] deleted].
  destruct Hfr as (E1 & E2 & E3 & E4 & E5 & _).
  change (put_all L (utxos s1) = utxos s') in Bu. change (put_all (by_pub L) (byPubKey s1) = byPubKey s') in Bp.
  destruct (undoable_applying b s Hu) as [_ Hun Hup _ _ _].
  destruct (ud_fresh _ _ Hu) as (_ & _ & Hfresh).
  assert (Hst : stakedUTXOs s' = stakedUTXOs s).
  { unfold ApplyBlock in Hap. apply bind_ok in Hap as (r & _ & [= <-]). exact (proj2 (apply_keyImages b s)). }
  unfold ApplyBlock in Hap. apply bind_ok in Hap as (r & _ & [= <-]).
  set (J := entries_at (Height (Header b)) (applyTxsLocked b s)) in *.
  set (outs := outputs_of (Height (Header b)) (Txs b)) in *.
  assert (Hact : forall k u, (k, u) ∈ L -> utxos s !! k = Some u /\ (k ∉ (by_key J).*1) /\ k ∉ key_of <$> outs).
  { intros k u Hin. assert (Hk1 : k ∈ L.*1) by (apply list_elem_of_fmap; by exists (k, u)).
    assert (Hs' : utxos (applyTxsLocked b s) !! k = Some u) by (rewrite <- Bu; by apply put_all_lookup).
    destruct (HL k Hk1) as [[u0 H0] _].
    assert (Ho : k ∉ key_of <$> outs).
    { intros Ho. apply list_elem_of_fmap in Ho as (o & -> & Ho). destruct (Hfresh o Ho). congruence. }
    by destruct (undoes_active _ _ _ _ k u Hun Ho Hs'). }
  rewrite (unmark_list L (stakedUTXOs s)).
  - constructor; simpl; [| |done|done|done].
    + rewrite E1, put_all_swap, Bu; [exact (proj1 Hun)|].
      intros k Hk. apply list_elem_of_fmap in Hk as ([k' u] & -> & Hin). by destruct (Hact k' u Hin).
    + rewrite E2, put_all_swap.
      * rewrite Bp. exact (proj1 Hup).
      * intros p Hp. unfold by_pub in Hp. rewrite <- list_fmap_compose in Hp.
        apply list_elem_of_fmap in Hp as ([k u] & -> & Hin). simpl. destruct (Hact k u Hin) as (Hk & _ & _).
        destruct (HL k) as [_ Hf]; [apply list_elem_of_fmap; by exists (k, u)|]. destruct (Hf u Hk) as [_ Hpub].
        assert (Ho : u_OneTimePub u ∉ u_OneTimePub <$> outs).
        { intros Ho. apply list_elem_of_fmap in Ho as (o & He & Ho). destruct (Hfresh o Ho) as [_ Hn]. congruence. }
        split; [|done]. destruct (Bf k u Hin) as [_ Hp']. by destruct (undoes_active _ _ _ _ _ _ Hup Ho Hp').
  - rewrite E3, Bst. congruence.
  - done.
  - intros k Hk. rewrite <- Hst. by apply Bs.
Qed.

End Burns.

(** ** The staking half of the transition *)

Section Stakes.
Context `{Crypto}.

(** The stake transactions of a block and the outputs they burn. *)
Definition burns (txs : list Transaction) (k : UTXOKey) : Prop :=
  exists tx, tx ∈ txs /\ IsStake tx = true /\ collateral tx = Some k.

Lemma apply_one_key height r r' tx k :
  applyOneTxLocked height r tx = (r', Ok (Some k)) -> IsStake tx = true /\ collateral tx = Some k.
Proof.
  unfold applyOneTxLocked, collateral. destruct (IsStake tx); [|done]. cbn [negb]. intros Ha. split; [done|].
  assert (Hplain : forall m, plain r m <> (r', Ok (Some k))) by (intros [?|?]; done).
  assert (Hburn : forall A (m : result A) d, guarded r m (burn_and_deposit d height r) = (r', Ok (Some k)) ->
    k = (burnTxHash d, burnOutIdx d)).
  { intros A m d. unfold guarded, burn_and_deposit. destruct m; [|done]. destruct (reg_MarkStaked _ _ _) as [r1|]; [|done].
    destruct (applyDeposit _ _ _ _ _); [|done]. by intros [= _ <-]. }
  destruct (len_is (Extra tx) StakePayloadSize) eqn:E1; [by apply Hplain in Ha|].
  destruct (len_is (Extra tx) StakeWithdrawalPayloadSizeV2) eqn:E2; [by apply Hplain in Ha|].
  destruct (len_is (Extra tx) StakePayloadSizeV2).
  { destruct (DecodeStakeExtraV2 _) as [d|]; [|done]. by apply Hburn in Ha as ->. }
  destruct (len_is (Extra tx) StakePayloadSizeV3).
  { destruct (DecodeStakeExtraV3 _) as [[d ots]|]; [|done]. by apply Hburn in Ha as ->. }
  destruct (len_is (Extra tx) StakePayloadSizeV4); [|done].
  destruct (DecodeStakeExtraV4 _) as [[[d ki] proof]|]; [|done]. by apply Hburn in Ha as ->.
Qed.

Lemma apply_loop_keys height txs : forall r keys r' keys' res k,
  apply_loop height txs r keys = (r', keys', res) -> k ∈ keys' -> k ∈ keys \/ burns txs k.
Proof.
  induction txs as [|tx txs IH]; intros r keys r' keys' res k Hl Hk; simpl in Hl; [simplify_eq; by left|].
  assert (Hrest : burns txs k -> burns (tx :: txs) k) by (intros (x & ? & ?); exists x; split; [by right|done]).
  destruct (IsStake tx); cbn [negb] in Hl; [|destruct (IH _ _ _ _ _ _ Hl Hk); auto].
  destruct (applyOneTxLocked height r tx) as [r1 [[k1|]|e]] eqn:Eo.
  - destruct (IH _ _ _ _ _ _ Hl Hk) as [Hin|]; [|auto]. apply elem_of_app in Hin as [|Hin]; [by left|].
    apply list_elem_of_singleton in Hin as ->. right. exists tx. split; [left|]. by eapply apply_one_key.
  - destruct (IH _ _ _ _ _ _ Hl Hk); auto.
  - simplify_eq. by left.
Qed.

Lemma apply_loop_stakes height txs : forall r keys,
  apply_loop height txs r keys = apply_loop height (filter (fun tx => IsStake tx = true) txs) r keys.
Proof.
  induction txs as [|tx txs IH]; intros r keys; [done|]. simpl. destruct (IsStake tx) eqn:E; cbn [negb].
  - rewrite filter_cons_True by done. simpl. rewrite E. cbn [negb].
    destruct (applyOneTxLocked height r tx) as [r1 [[k|]|e]]; done.
  - rewrite filter_cons_False by by rewrite E. apply IH.
Qed.

(** What [ApplyBlockStakeTxs] leaves: nothing on an error; otherwise a list of burned
    outputs and a closure that takes exactly them back. *)
Lemma apply_stakes_outcome txs height r r' res :
  (forall k, burns txs k -> filed_reg r k) -> ApplyBlockStakeTxs txs height r = (r', res) ->
  match res with
  | Err _ => r' = r
  | Ok rollback => exists L, burned_reg r L r' /\ (forall k, k ∈ L.*1 -> burns txs k) /\
      (forall o, rollback (SetUTXOSet o r') = stake_rollback (validators r) L.*1 (SetUTXOSet o r'))
  end.
Proof.
  intros Hf Ha. unfold ApplyBlockStakeTxs in Ha. destruct (negb (existsb IsStake txs)).
  { simplify_eq. exists []. split; [apply burned_reg_init|]. split; [intros k Hk; by apply elem_of_nil in Hk|].
    intros o. unfold stake_rollback. simpl. by destruct r'. }
  destruct (apply_loop height txs r []) as [[r1 keys] out] eqn:El. assert (El' := El).
  rewrite apply_loop_stakes in El'.
  destruct (apply_loop_outcome r height (filter (fun tx => IsStake tx = true) txs) [] r r1 keys out)
    as (L & -> & Hb); [apply burned_reg_init| |done|].
  { intros tx k Hin Hk. apply list_elem_of_filter in Hin as [Hst Hin]. apply Hf. by exists tx. }
  destruct out; simplify_eq; [|by apply rollback_burned].
  exists L. split; [done|]. split; [|done]. intros k Hk.
  destruct (apply_loop_keys _ _ _ _ _ _ _ _ El Hk) as [Hin|]; [by apply elem_of_nil in Hin|done].
Qed.

(** The dry run asks every collateral to be active. *)
Lemma dry_tx_collateral r height inputs st st' tx k :
  dry_tx r height inputs st tx = Ok st' -> IsStake tx = true -> collateral tx = Some k ->
  exists s, r_utxos r = Some s /\ is_Some (utxos s !! k).
Proof.
  unfold dry_tx, collateral. intros Hd Hst. rewrite Hst in Hd. cbn [negb] in Hd.
  destruct (len_is (Extra tx) StakePayloadSize) eqn:E1.
  { unfold len_is in *. zbool. rewrite E1. done. }
  destruct (len_is (Extra tx) StakeWithdrawalPayloadSizeV2) eqn:E2.
  { unfold len_is in *. zbool. rewrite E2. done. }
  destruct (len_is (Extra tx) StakePayloadSizeV2).
  { apply bind_ok in Hd as (d & -> & Hd). intros [= <-].
    apply bind_ok in Hd as ([] & _ & Hd). apply bind_ok in Hd as ([] & _ & Hd). apply bind_ok in Hd as ([] & Hu & _).
    unfold deposit_utxo_v2, Utxo.Get in Hu. destruct (r_utxos r) as [s|]; [|done]. exists s. split; [done|].
    by destruct (utxos s !! _). }
  destruct (len_is (Extra tx) StakePayloadSizeV3).
  { apply bind_ok in Hd as ([d ots] & -> & Hd). intros [= <-].
    apply bind_ok in Hd as ([] & _ & Hd). apply bind_ok in Hd as ([] & _ & Hd). apply bind_ok in Hd as ([] & Hu & _).
    unfold deposit_utxo_v3, Utxo.Get in Hu. destruct (r_utxos r) as [s|]; [|done]. exists s. split; [done|].
    by destruct (utxos s !! _). }
  destruct (len_is (Extra tx) StakePayloadSizeV4); [|done].
  apply bind_ok in Hd as ([[d ki] proof] & -> & Hd). intros [= <-].
  unfold dry_v4 in Hd. apply bind_ok in Hd as (u & Hv & _). unfold validateStakeDepositV4, Utxo.Get in Hv.
  do 3 apply reject_ok in Hv as [_ Hv]. destruct (r_utxos r) as [s|]; [|done]. exists s. split; [done|].
  by destruct (utxos s !! _).
Qed.

Lemma validated_collateral txs height r k :
  ValidateBlockStakeTxs txs height r = Ok () -> burns txs k -> exists s, r_utxos r = Some s /\ is_Some (utxos s !! k).
Proof.
  unfold ValidateBlockStakeTxs, dry_run. intros Hv (tx & Hin & Hst & Hc). apply bind_ok in Hv as (st' & Hv & _).
  revert Hv. generalize (dry_start r). generalize (blockInputKeyImages txs). intros inputs.
  induction txs as [|x txs IH]; intros st Hv; [by apply elem_of_nil in Hin|]. cbn [foldM] in Hv.
  apply bind_ok in Hv as (st1 & Hx & Hv). apply elem_of_cons in Hin as [->|Hin]; [|by eapply IH].
  by eapply dry_tx_collateral.
Qed.

End Stakes.

(** ** The engine *)

(** The registry of a wired engine has no UTXO set of its own. *)
Definition wired (e : Engine) : Prop := forall r, registry e = Some r -> r_utxos r = None.

Definition same_outputs `{Crypto} (o o' : option UTXOSet) : Prop :=
  match o, o' with Some s, Some s' => same_set s s' | None, None => True | _, _ => False end.

(** [e'] holds the ledger of [e]: what a block may change is as it was, but for the
    undo record of the chain and the halt of the engine. *)
Record restored `{Crypto} (e e' : Engine) : Prop := {
  rs_chain : set_lastAdd None (chain e') = set_lastAdd None (chain e);
  rs_registry : registry e' = registry e;
  rs_utxos : same_outputs (Engine.utxos e) (Engine.utxos e');
  rs_pool : pool e' = pool e;
  rs_fee : baseFee e' = baseFee e;
  rs_rewards : stakingPool e' = stakingPool e;
  rs_fin : Finality.halt (fin e') = Finality.halt (fin e)
}.

(** What the engine relies on to undo a block: the set can be rolled back, and the
    collateral outputs of its deposits are filed. *)
Record undoable_block `{Crypto} (b : Block) (e : Engine) : Prop := {
  ub_wired : wired e;
  ub_utxos : forall s, Engine.utxos e = Some s -> undoable b s;
  ub_filed : forall s k, Engine.utxos e = Some s -> burns (Txs b) k -> filed s k
}.

Lemma same_outputs_refl `{Crypto} o : same_outputs o o.
Proof. destruct o; [apply same_set_refl|done]. Qed.

Lemma restored_refl `{Crypto} e : restored e e.
Proof. constructor; try done. apply same_outputs_refl. Qed.

Lemma restored_halt `{Crypto} e e' : restored e e' -> restored e (halt e').
Proof. intros []. by constructor. Qed.

Lemma restored_chain `{Crypto} e e' ch :
  restored e e' -> set_lastAdd None ch = set_lastAdd None (chain e) -> restored e (set_chain ch e').
Proof. intros [] Hc. by constructor. Qed.

Section Transition.
Context `{Crypto} `{Json} `{TxVerifier.RingCrypto} `{Wasm.WasmDecoder} `{AvmEngine.WasmRuntime}.
Context {L S A : Type} `{AvmState.Store A}.
Variable c : Config.
Variable w : World L S A.

Lemma rollback_utxos_chain b ch e :
  rollback_utxos w b (set_chain ch e) = (set_chain ch (rollback_utxos w b e).1, (rollback_utxos w b e).2).
Proof. unfold rollback_utxos. simpl. destruct (Engine.utxos e) as [s|]; [|done]. by destruct (RollbackBlock b s) as [[? ?] ?]. Qed.

Lemma undo_stakes_chain k ch e : undo_stakes k (set_chain ch e) = set_chain ch (undo_stakes k e).
Proof. unfold undo_stakes. destruct k; [|done]. simpl. by destruct (registry e). Qed.

(** The collateral of a block the dry run accepted. *)
Lemma validated_burns b e s k :
  validate_stakes e b = Ok () -> is_Some (registry e) -> Engine.utxos e = Some s -> burns (Txs b) k ->
  is_Some (utxos s !! k).
Proof.
  unfold validate_stakes. intros Hv [r Hr] Hs Hb. rewrite Hr in Hv.
  destruct (validated_collateral _ _ _ _ Hv Hb) as (s' & Hs' & Hk). simpl in Hs'. congruence.
Qed.

(** Rolling the set back and then undoing the stakes undoes both halves: with a set
    and a registry. *)
Lemma unapply_full b e r s s' r2 rollback :
  undoable_block b e -> validate_stakes e b = Ok () -> registry e = Some r -> Engine.utxos e = Some s ->
  ApplyBlock b s = Ok s' -> ApplyBlockStakeTxs (Txs b) (height_of b) (SetUTXOSet (Some s') r) = (r2, Ok rollback) ->
  restored e (undo_stakes (Some rollback) (rollback_utxos w b (put_registry r2 (set_utxos (Some s') e))).1).
Proof.
  intros [Hw Hu Hf] Hv Er Es Hap Ea. specialize (Hu s Es).
  assert (Hact : forall k, burns (Txs b) k -> is_Some (utxos s !! k) /\ filed s k).
  { intros k Hb. split; [eapply validated_burns; eauto|by apply Hf]. }
  assert (Hfile : forall k, burns (Txs b) k -> filed_reg (SetUTXOSet (Some s') r) k).
  { intros k Hb. destruct (Hact k Hb). by apply (filed_applied b s s'). }
  destruct (apply_stakes_outcome _ _ _ _ _ Hfile Ea) as (Lb & [Hb Hfr] & Hkeys & Hroll). simpl in Hb, Hfr.
  destruct (r_utxos r2) as [s2|] eqn:E2; [|done].
  assert (Hrb := rollback_under_burn b s s' s2 Lb Hu Hap Hb (fun k Hk => Hact k (Hkeys k Hk))).
  unfold rollback_utxos, put_registry. cbn [Engine.utxos]. rewrite E2.
  destruct (RollbackBlock b s2) as [[s3 rs] dl]. cbn [fst undo_stakes set_utxos registry].
  unfold deref. cbn [Engine.utxos set_utxos].
  change (SetUTXOSet (Some s3) (SetUTXOSet None r2)) with (SetUTXOSet (Some s3) r2). rewrite Hroll.
  unfold stake_rollback. rewrite unmark_all_reg. constructor; simpl; try done.
  - rewrite Er. f_equal. assert (Hn := f_equal (SetUTXOSet None) Hfr). simpl in Hn.
    etransitivity; [exact Hn|]. specialize (Hw r Er). destruct r. simpl in Hw. by subst.
  - by rewrite Es.
Qed.

(** A registry on a node without UTXO set burns nothing. *)
Lemma unapply_registry b e r r2 rollback :
  wired e -> registry e = Some r -> Engine.utxos e = None ->
  ApplyBlockStakeTxs (Txs b) (height_of b) r = (r2, Ok rollback) ->
  restored e (undo_stakes (Some rollback) (rollback_utxos w b (put_registry r2 e)).1).
Proof.
  intros Hw Er Es Ea. specialize (Hw r Er).
  assert (Hfile : forall k, burns (Txs b) k -> filed_reg r k) by (intros k _; unfold filed_reg; by rewrite Hw).
  destruct (apply_stakes_outcome _ _ _ _ _ Hfile Ea) as (Lb & Hb & _ & Hroll). assert (Hb' := Hb).
  destruct Hb' as [Hs2 _]. rewrite Hw in Hs2. destruct (r_utxos r2) as [s2|] eqn:E2; [done|].
  unfold rollback_utxos, put_registry. cbn [Engine.utxos]. rewrite E2. cbn [fst undo_stakes registry].
  unfold deref. cbn [Engine.utxos]. change (SetUTXOSet None (SetUTXOSet None r2)) with (SetUTXOSet None r2).
  rewrite Hroll. assert (Hr2 : SetUTXOSet None r2 = r2) by (rewrite <- E2; by destruct r2).
  rewrite Hr2, (rollback_burned r r2 Lb Hb). constructor; simpl; try done.
  - rewrite Er. f_equal. destruct r. simpl in Hw. by subst.
  - by rewrite Es, Hw.
Qed.

(** A set without stakes. *)
Lemma unapply_utxos b e e1 :
  undoable_block b e -> apply_utxos b e = Ok e1 -> restored e (rollback_utxos w b e1).1.
Proof.
  intros Hub. unfold apply_utxos, rollback_utxos. destruct (Engine.utxos e) as [s|] eqn:Es.
  - intros (s' & Hap & <-%Ok_inj)%bind_ok. simpl.
    assert (Hrb := rollback_under_burn b s s' s' [] (ub_utxos _ _ Hub s Es) Hap (burned_init s')
      ltac:(intros k Hk; by apply elem_of_nil in Hk)).
    destruct (RollbackBlock b s') as [[s3 rs] dl]. simpl in *. constructor; simpl; try done. by rewrite Es.
  - intros <-%Ok_inj. rewrite Es. apply restored_refl.
Qed.

Lemma unapply b e e1 e2 k :
  undoable_block b e -> validate_stakes e b = Ok () ->
  apply_utxos b e = Ok e1 -> apply_stakes b e1 = (e2, Ok k) ->
  restored e (undo_stakes k (rollback_utxos w b e2).1).
Proof.
  intros Hub Hv He1 He2. unfold apply_utxos in He1. unfold apply_stakes in He2.
  destruct (Engine.utxos e) as [s|] eqn:Es.
  - apply bind_ok in He1 as (s' & Hap & <-%Ok_inj). simpl in He2. destruct (registry e) as [r|] eqn:Er.
    + destruct (ApplyBlockStakeTxs _ _ _) as [r2 [rollback|]] eqn:Ea; [|done].
      injection He2 as <- <-. by eapply unapply_full.
    + injection He2 as <- <-. eapply unapply_utxos; [done|]. unfold apply_utxos. by rewrite Es, Hap.
  - apply Ok_inj in He1 as <-. destruct (registry e) as [r|] eqn:Er.
    + destruct (ApplyBlockStakeTxs _ _ _) as [r2 [rollback|]] eqn:Ea; [|done].
      injection He2 as <- <-. assert (Hn : deref e r = r).
      { unfold deref. rewrite Es. assert (Hr := ub_wired _ _ Hub r Er). destruct r. simpl in Hr. by subst. }
      rewrite Hn in Ea. eapply unapply_registry; eauto. apply Hub.
    + injection He2 as <- <-. unfold rollback_utxos. rewrite Es. simpl. apply restored_refl.
Qed.

(** A registry that refuses the stakes leaves the engine as it was. *)
Lemma refused_stakes b e e' x :
  wired e -> (forall s k, Engine.utxos e = Some s -> burns (Txs b) k -> filed s k) ->
  apply_stakes b e = (e', Err x) -> e' = e.
Proof.
  unfold apply_stakes. intros Hw Hf Ha. destruct (registry e) as [r|] eqn:Er; [|done].
  destruct (ApplyBlockStakeTxs _ _ _) as [r2 res] eqn:Ea. injection Ha as <- Hx.
  destruct res as [|y]; [done|]. assert (Hr2 := apply_stakes_outcome (Txs b) (height_of b) (deref e r) r2 (Err y)).
  cbv beta iota in Hr2. rewrite Hr2; [| |exact Ea].
  - unfold put_registry, deref. specialize (Hw r Er). destruct e, r. simpl in *. by subst.
  - intros k Hk. unfold filed_reg, deref. simpl. destruct (Engine.utxos e) as [s|]; [|done]. by apply Hf.
Qed.

Lemma apply_utxos_frame b e e1 :
  apply_utxos b e = Ok e1 -> chain e1 = chain e /\ registry e1 = registry e /\ fin e1 = fin e.
Proof.
  unfold apply_utxos. destruct (Engine.utxos e); [|by intros <-%Ok_inj]. by intros (s' & _ & <-%Ok_inj)%bind_ok.
Qed.

Lemma apply_stakes_frame b e e' res : apply_stakes b e = (e', res) -> chain e' = chain e /\ fin e' = fin e.
Proof.
  unfold apply_stakes. destruct (registry e) as [r|]; [|by intros [= <- _]].
  destruct (ApplyBlockStakeTxs _ _ _). by intros [= <- _].
Qed.

(** A block that is refused on the way in leaves the ledger as it was. *)
Lemma apply_block_refused b e e' x :
  undoable_block b e -> validate_stakes e b = Ok () -> apply_block w b e = (e', inl x) -> restored e e'.
Proof.
  intros Hub Hv. unfold apply_block. destruct (apply_utxos b e) as [e1|y] eqn:E1.
  2:{ intros [= <- _]. apply restored_refl. }
  destruct (apply_utxos_frame _ _ _ E1) as (_ & Fr & _).
  destruct (apply_stakes b e1) as [e2 [k|y]] eqn:E2.
  - destruct (AddBlock b (chain e2)) as [ch|z] eqn:Ec; [done|].
    assert (Hre := unapply b e e1 e2 k Hub Hv E1 E2). destruct (rollback_utxos w b e2) as [e3 [|z']].
    + by intros [= <- _].
    + intros [= <- _]. by apply restored_halt.
  - assert (Hre := unapply_utxos b e e1 Hub E1). apply refused_stakes in E2 as ->.
    + destruct (rollback_utxos w b e1) as [e3 [|z']]; intros [= <- _]; [done|by apply restored_halt].
    + unfold wired. rewrite Fr. apply Hub.
    + intros s' k Hs' Hb. unfold apply_utxos in E1. destruct (Engine.utxos e) as [s|] eqn:Es.
      * apply bind_ok in E1 as (s'' & Hap & <-%Ok_inj). simpl in Hs'. injection Hs' as <-.
        assert (Hf := ub_filed _ _ Hub s k Es Hb). unfold apply_stakes in E2. simpl in E2.
        destruct (registry e) as [r|] eqn:Er; [|done].
        eapply filed_applied; [by apply (ub_utxos _ _ Hub)|done|eapply validated_burns; eauto|done].
      * apply Ok_inj in E1 as <-. congruence.
Qed.

(** A block the durable store refuses is taken back, and the engine stops. *)
Lemma unpersisted_restored b p k e e1 e2 x :
  undoable_block b e -> validate_stakes e b = Ok () ->
  reachable (chain e) -> fresh b (chain e) -> height_of b < MaxUint64 ->
  apply_block w b e = (e1, inr k) -> persist_block w b p k e1 = (e2, Err x) ->
  restored e e2 /\ halted e2 = true.
Proof.
  intros Hub Hv Hreach Hfresh Hmax. unfold apply_block. destruct (apply_utxos b e) as [e01|y] eqn:E1; [|done].
  destruct (apply_utxos_frame _ _ _ E1) as (F1 & _). destruct (apply_stakes b e01) as [e02 [k'|y]] eqn:E2.
  2:{ by destruct (rollback_utxos w b e02) as [e3 []]. }
  destruct (apply_stakes_frame _ _ _ _ E2) as (F2 & _).
  destruct (AddBlock b (chain e02)) as [ch|z] eqn:Ec.
  2:{ by destruct (rollback_utxos w b e02) as [e3 []]. }
  intros [= <- <-] Hp. rewrite F2, F1 in Ec. assert (Hre := unapply b e e01 e02 k' Hub Hv E1 E2).
  destruct (reachable_wf _ Hreach) as (t & lo & Hwf & Ht).
  assert (Hroll := rollback_exact t b lo (chain e) ch Hwf Ht Hfresh Hmax Ec).
  assert (Hfail : forall err, failCanonicalPersistence w b k' err (set_chain ch e02) = (e2, Err x) ->
    restored e e2 /\ halted e2 = true).
  { intros err. unfold failCanonicalPersistence, rollbackUnpersistedBlock. cbn [chain set_chain]. rewrite Hroll.
    change (set_chain ?a (set_chain ch e02)) with (set_chain a e02). rewrite rollback_utxos_chain.
    destruct (rollback_utxos w b e02) as [e3 r3] eqn:E3. simpl in Hre |- *. rewrite undo_stakes_chain.
    intros [= <- _]. split; [|done]. apply restored_halt, restored_chain; [done|]. by destruct (chain e). }
  unfold persist_block in Hp. destruct (w_canonical w) as [save|]; [|by eapply Hfail].
  destruct (save b p); [done|by eapply Hfail].
Qed.

(** ** The handler *)

Lemma undoable_block_slashing b e d : undoable_block b e -> undoable_block b (set_slashing d e).
Proof. by intros []. Qed.

Lemma check_body_stakes b e p : check_body c w b e = Ok p -> validate_stakes e b = Ok ().
Proof.
  unfold check_body. intros Hc. do 3 apply bind_ok in Hc as ([] & _ & Hc). by apply bind_ok in Hc as ([] & Hv & _).
Qed.

(** C3: a block a node does not accept, wherever the handler fails, leaves the ledger as
    it was: the chain (but for its undo record), the registry, both output indexes, the
    staked outputs, the journal and the spent status of every key image, the pool, the
    base fee and the rewards. The pool of decoys and the log of recent outputs are not
    compared. It holds when the chain is a reachable one, the block is new to it
    (unknown hash and height, below the last one, and distinct transactions not indexed
    yet), and the engine can undo the block: its registry and output set are wired as at
    start, the set of spent key images is well formed, the two output indexes agree, the
    outputs of the block are new to them, the journal has no entry at the height and
    room for one, the log of recent outputs has room, no pooled decoy in the ring of an
    input has its commitment, the stake transactions have no inputs, and the collateral
    of its deposits is filed under its outpoint and its key; without the condition on
    decoys it fails, see [rollback_revives_decoy]. *)
Theorem rejected_block_restores b e e' x :
  undoable_block b e -> reachable (chain e) -> fresh b (chain e) -> height_of b < MaxUint64 ->
  handleIncomingBlock c w b e = (e', Err x) -> restored e e'.
Proof.
  intros Hub Hr Hf Hm. unfold handleIncomingBlock. destruct (check_structure c w b e) as [[]|y]; cycle 1.
  { intros [= <- _]. apply restored_refl. }
  destruct (maxClockSkewNs <? _).
  { intros [= <- _]. constructor; try done. apply same_outputs_refl. }
  destruct (check_slot c b e) as [[]|y]; [|intros [= <- _]; apply restored_refl].
  destruct (CheckBlock _ _ _ _ _ _) as [d [ev|]]; [intros [= <- _]; apply restored_refl|].
  assert (H0e : forall e2, restored (set_slashing d e) e2 -> restored e e2) by (intros e2 []; by constructor).
  destruct (check_body c w b (set_slashing d e)) as [p|y] eqn:Eb.
  2:{ intros [= <- _]. apply H0e, restored_refl. }
  assert (Hv := check_body_stakes _ _ _ Eb). assert (Hub' := undoable_block_slashing _ _ d Hub).
  destruct (apply_block w b (set_slashing d e)) as [e1 [y|k]] eqn:Ea.
  { intros [= <- _]. apply H0e. by eapply apply_block_refused. }
  destruct (persist_block w b p k e1) as [e2 [[]|y]] eqn:Ep; [done|]. intros [= <- _]. apply H0e.
  by eapply unpersisted_restored.
Qed.

(** C5: when a canonical block, from a peer or from this node, passed the dry run of its
    stakes and was applied but cannot be made durable, the engine takes the ledger back
    (in the sense of [restored]: not the pool of decoys and the log of recent outputs)
    and stops: it handles no block and produces none from then on, whatever the world.
    The ledger is taken back when the chain is a reachable one, the block is new to it
    (unknown hash and height, below the last one, and distinct transactions not indexed
    yet), and the engine can undo the block: its registry and output set are wired as at
    start, the set of spent key images is well formed, the two output indexes agree, the
    outputs of the block are new to them, the journal has no entry at the height and
    room for one, the log of recent outputs has room, no pooled decoy in the ring of an
    input has its commitment, the stake transactions have no inputs, and the collateral
    of its deposits is filed under its outpoint and its key. *)
Theorem persistence_failure_stops b p k e e1 e2 x :
  undoable_block b e -> validate_stakes e b = Ok () ->
  reachable (chain e) -> fresh b (chain e) -> height_of b < MaxUint64 ->
  apply_block w b e = (e1, inr k) -> persist_block w b p k e1 = (e2, Err x) ->
  restored e e2 /\
  (forall c' (w' : World L S A), (forall b', exists y, handleIncomingBlock c' w' b' e2 = (e2, Err y)) /\
     exists y, tick c' w' e2 = (e2, Err y)).
Proof.
  intros Hub Hv Hr Hf Hm Ha Hp. destruct (unpersisted_restored _ _ _ _ _ _ _ Hub Hv Hr Hf Hm Ha Hp) as [Hre Hh].
  split; [done|]. intros c' w'. split.
  - intros b'. unfold handleIncomingBlock, check_structure. rewrite Hh. by eexists.
  - unfold tick. rewrite Hh. by eexists.
Qed.

(** ** An accepted block *)

Definition effective_fee (b : Block) (fee : Z) : Z :=
  Economics.nextBaseFee (if BaseFee (Header b) =? 0 then Economics.expectedBaseFee fee else BaseFee (Header b)) (block_Size b).

Lemma admit_frame h e : chain (admit_height h e) = chain e /\ baseFee (admit_height h e) = baseFee e /\
  pool (admit_height h e) = pool e /\ Engine.utxos (admit_height h e) = Engine.utxos e.
Proof. unfold admit_height. by destruct (registry e). Qed.

Lemma epoch_frame h e : chain (advance_epoch w h e) = chain e /\ baseFee (advance_epoch w h e) = baseFee e /\
  pool (advance_epoch w h e) = pool e.
Proof. unfold advance_epoch. destruct (registry e); [|done]. by destruct (_ =? 0). Qed.

Lemma accepted_frame b e : chain (block_accepted c w b e) = chain e /\ baseFee (block_accepted c w b e) = baseFee e /\
  pool (block_accepted c w b e) = pool e.
Proof. unfold block_accepted. destruct (Economics.lpodActive _ _); [|done]. by destruct (w_lpodRemaining w). Qed.

Lemma votes_frame b e : chain (replay_votes c w b e) = chain e /\ baseFee (replay_votes c w b e) = baseFee e /\
  pool (replay_votes c w b e) = pool e /\ chain (cast_vote c w b e) = chain e /\
  baseFee (cast_vote c w b e) = baseFee e /\ pool (cast_vote c w b e) = pool e.
Proof. unfold cast_vote. by destruct (MyKey c). Qed.

Lemma settle_incoming_frame b e :
  chain (settle_incoming c w b e) = chain e /\ baseFee (settle_incoming c w b e) = effective_fee b (baseFee e) /\
  pool (settle_incoming c w b e) = Mempool.RemoveBlock b (Mempool.SetBaseFee (effective_fee b (baseFee e)) (pool e)).
Proof.
  unfold settle_incoming, effective_fee.
  match goal with |- context [replay_votes c w b (cast_vote c w b ?x)] => set (e4 := x) end.
  destruct (votes_frame b (cast_vote c w b e4)) as (-> & -> & -> & _). destruct (votes_frame b e4) as (_ & _ & _ & -> & -> & ->).
  subst e4. match goal with |- context [block_accepted c w b ?x] => destruct (accepted_frame b x) as (-> & -> & ->) end.
  unfold remove_included. cbn [chain baseFee pool set_pool].
  match goal with |- context [advance_epoch w ?h ?x] => destruct (epoch_frame h x) as (-> & -> & ->) end.
  unfold advance_fee. cbn [chain baseFee pool set_pool set_baseFee].
  destruct (admit_frame (height_of b +w 1) e) as (-> & -> & -> & _). done.
Qed.

(** What one block in front of a tip must be to be taken. *)
Record extends (b : Block) (e : Engine) (t : Block) : Prop := {
  ex_tip : tip (chain e) = Some t;
  ex_height : height_of b = height_of t +w 1;
  ex_round : Round (Header b) = wrap32 (Round (Header t) + 1);
  ex_parent : PrevHash (Header b) = block_Hash t;
  ex_proposer : proposerAt (committee c e) (Round (Header b)) = Some (ValidatorPub (Header b));
  ex_signed : VerifySignature (Header b) [authority c (ValidatorPub (Header b)) (height_of b)] = true;
  ex_clock : wrapS64 (Timestamp (Header b) - w_now w) <= maxClockSkewNs
}.

Lemma check_slot_ok b e :
  check_slot c b e = Ok () -> exists t, tip (chain e) = Some t /\ height_of b = height_of t +w 1 /\
    Round (Header b) = wrap32 (Round (Header t) + 1) /\
    proposerAt (committee c e) (Round (Header b)) = Some (ValidatorPub (Header b)).
Proof.
  unfold check_slot. destruct (tip (chain e)) as [t|]; [|done]. intros [Ch Hc]%reject_ok.
  apply reject_ok in Hc as [Cr Hc]. apply reject_ok in Hc as [Hk Hc]. exists t.
  apply orb_false_iff in Ch as [_ Ch]. apply orb_false_iff in Cr as [_ Cr]. zbool. split_and!; try done.
  assert (Hin := proj1 (isKnownValidator_spec _ _) Hk).
  assert (Hp : exists p, proposerAt (committee c e) (Round (Header b)) = Some p).
  { unfold proposerAt. destruct (committee c e) as [|v vs] eqn:Ev; [by apply elem_of_nil in Hin|].
    apply lookup_lt_is_Some. assert (Hm := Z.mod_pos_bound (Round (Header b)) (Z.of_nat (length (v :: vs))) ltac:(simpl; lia)). lia. }
  destruct Hp as [p Hp]. rewrite Hp in Hc |- *. apply reject_ok in Hc as [Hc _]. unfold pub_equals in Hc. zbool. by subst.
Qed.

Lemma check_structure_ok b e :
  check_structure c w b e = Ok () -> halted e = false /\
  VerifySignature (Header b) [authority c (ValidatorPub (Header b)) (height_of b)] = true.
Proof.
  unfold check_structure. intros [Hh Hs]%reject_ok. apply bind_ok in Hs as ([] & _ & Hs). split; [done|].
  unfold Block.Validate in Hs. do 2 apply reject_ok in Hs as [_ Hs]. apply reject_ok in Hs as [Hs _]. by zbool.
Qed.

Lemma apply_block_chain b e e1 k : apply_block w b e = (e1, inr k) -> AddBlock b (chain e) = Ok (chain e1) /\
  baseFee e1 = baseFee e /\ pool e1 = pool e.
Proof.
  unfold apply_block. destruct (apply_utxos b e) as [e01|] eqn:E1; [|done].
  destruct (apply_stakes b e01) as [e02 [k'|]] eqn:E2; [|by destruct (rollback_utxos w b e02) as [? []]].
  destruct (AddBlock b (chain e02)) as [ch|] eqn:Ec; [|by destruct (rollback_utxos w b e02) as [? []]].
  intros [= <- _]. simpl.
  assert (Hf1 : chain e01 = chain e /\ baseFee e01 = baseFee e /\ pool e01 = pool e).
  { unfold apply_utxos in E1. destruct (Engine.utxos e); [|by apply Ok_inj in E1 as <-].
    by apply bind_ok in E1 as (? & _ & <-%Ok_inj). }
  assert (Hf2 : chain e02 = chain e01 /\ baseFee e02 = baseFee e01 /\ pool e02 = pool e01).
  { unfold apply_stakes in E2. destruct (registry e01); [|by injection E2 as <- _].
    destruct (ApplyBlockStakeTxs _ _ _). by injection E2 as <- _. }
  destruct Hf1 as (F1 & F2 & F3), Hf2 as (G1 & G2 & G3). rewrite G1, F1 in Ec. split_and!; congruence.
Qed.

(** C4: a node that takes a block extends its tip by exactly this block, of the next
    height and round, signed by the authority of the scheduled proposer and not from
    the future; the block was durable before, with the contract state prepared for it;
    and the base fee of the next block is the one its size determines. *)
Theorem accepted_block_extends b e e' :
  handleIncomingBlock c w b e = (e', Ok ()) ->
  halted e = false /\ (exists t, extends b e t) /\
  AddBlock b (chain e) = Ok (chain e') /\ tip (chain e') = Some b /\
  (exists p save, prepareAVMBlock c w b = Ok p /\ w_canonical w = Some save /\ save b p = Ok ()) /\
  baseFee e' = effective_fee b (baseFee e) /\
  pool e' = Mempool.RemoveBlock b (Mempool.SetBaseFee (baseFee e') (pool e)).
Proof.
  unfold handleIncomingBlock. destruct (check_structure c w b e) as [[]|y] eqn:Es; [|done].
  destruct (Z.ltb_spec maxClockSkewNs (wrapS64 (Timestamp (Header b) - w_now w))) as [|Hclock]; [done|].
  destruct (check_slot c b e) as [[]|y] eqn:El; [|done].
  destruct (CheckBlock _ _ _ _ _ _) as [d [ev|]]; [done|].
  destruct (check_body c w b (set_slashing d e)) as [p|y] eqn:Eb; [|done].
  destruct (apply_block w b (set_slashing d e)) as [e1 [y|k]] eqn:Ea; [done|].
  destruct (persist_block w b p k e1) as [e2 [[]|y]] eqn:Ep; [|done]. intros [= <-].
  destruct (apply_block_chain _ _ _ _ Ea) as (Hadd & Hfee & Hpool). simpl in Hadd, Hfee, Hpool.
  destruct (settle_incoming_frame b e2) as (-> & -> & ->).
  assert (He2 : e2 = e1 /\ exists save, w_canonical w = Some save /\ save b p = Ok ()).
  { unfold persist_block, failCanonicalPersistence in Ep. destruct (w_canonical w) as [save|].
    - destruct (save b p) as [[]|] eqn:Esv; [injection Ep as <-; eauto|].
      by destruct (rollbackUnpersistedBlock _ _ _ _).
    - by destruct (rollbackUnpersistedBlock _ _ _ _). }
  destruct He2 as [-> (save & Hsave & Hok)]. rewrite Hfee, Hpool.
  destruct (check_structure_ok _ _ Es) as [Hh Hsig]. destruct (check_slot_ok _ _ El) as (t & Ht & Hht & Hrd & Hpr).
  assert (Hpar := Hadd). apply add_block_inv in Hpar as (t' & Ht' & _ & Hprev & Hch).
  assert (t' = t) as -> by congruence. split_and!; try done.
  - exists t. by constructor.
  - rewrite Hch. unfold evict. by repeat (case_match; simpl).
  - exists p, save. split; [|done]. unfold check_body in Eb. do 4 apply bind_ok in Eb as ([] & _ & Eb).
    destruct (tx_verifier c w _); [|done]. by apply bind_ok in Eb as ([] & _ & Eb).
Qed.

End Transition.

End EngineSafety.
