(* ===== verification/EngineLive.v ===== *)
(** What becomes of the block a node produces: the peers that are in the same state
    take it.  The cases in which they do not, or in which no block is produced, are in
    [EngineExample]. *)

From stdpp Require Import base gmap list strings.
From S2P Require Import Prelude Bytes Undo Crypto Avm StakePayload Transaction Block Chain Reward Utxo UtxoRollback.
From S2P Require Import TxVerifier Staking StakingAtomic StakingBlock StakingEpoch Quorum Finality Economics Mempool.
From S2P Require Import Wasm AvmState AvmEngine AvmBlock Engine EngineSafety.
Import Engine Undo Transaction Block Chain StakePayload Utxo UtxoRollback Staking StakingAtomic StakingBlock Quorum EngineSafety.

Module EngineLive.

(** ** Key images *)

Section Images.
Context `{Crypto}.





End Images.

(** ** The transactions of a produced block *)



Section Produced.
Context `{Crypto} `{Json} `{TxVerifier.RingCrypto} `{Wasm.WasmDecoder} `{AvmEngine.WasmRuntime}.
Context {L S A : Type} `{AvmState.Store A}.
Variable c : Config.
Variable w : World L S A.























End Produced.

(** ** Two nodes in the same state *)

Section Peers.
Context `{Crypto} `{Json} `{TxVerifier.RingCrypto} `{Wasm.WasmDecoder} `{AvmEngine.WasmRuntime}.
Context {L S A : Type} `{AvmState.Store A}.

(** Two nodes of one network: the rules are the same, the keys, the addresses and the
    bounds of a node are its own. *)
Record same_rules (c c' : Config) : Prop := {
  sr_econ : econ c' = econ c;
  sr_bootstrap : bootstrap c' = bootstrap c;
  sr_fork : authorityFork c' = authorityFork c;
  sr_vesting : GenesisVestingActivationHeight c' = GenesisVestingActivationHeight c;
  sr_exclusion : StakedCollateralRingExclusionActivationHeight c' = StakedCollateralRingExclusionActivationHeight c;
  sr_verifier : verifier c' = verifier c
}.

(** The parts of the world that are functions of the shared history. *)
Record same_history (w w' : World L S A) : Prop := {
  sh_clock : w_clock w' = w_clock w;
  sh_fingerprint : w_fingerprint w' = w_fingerprint w;
  sh_ring : w_ring w' = w_ring w;
  sh_avm : w_avm w' = w_avm w;
  sh_lpod : w_validateLPoD w' = w_validateLPoD w /\ w_prepareLPoD w' = w_prepareLPoD w;
  sh_sale : w_prepareSale w' = w_prepareSale w
}.


Variables (c c' : Config) (w w' : World L S A).
Hypotheses (Hc : same_rules c c') (Hw : same_history w w').











(** ** After the commit *)










(** ** The theorem *)













End Peers.

End EngineLive.
