(* ===== verification/EngineExample.v ===== *)
(** Two nodes of a small network: the witnesses of [EngineSafety] and [EngineLive],
    and the blocks a producer commits that its peers refuse, or cannot produce. *)

From stdpp Require Import base gmap list sorting strings.
From S2P Require Import Prelude Bytes Undo Crypto Avm StakePayload Transaction Block Chain Reward Utxo UtxoRollback.
From S2P Require Import TxVerifier Staking StakingAtomic StakingBlock StakingEpoch Quorum FinalityStore Finality FinalitySafety.
From S2P Require Import Economics Mempool MempoolInvariant Wasm AvmState AvmEngine AvmBlock Engine EngineSafety EngineLive.
Import Engine Undo Transaction Block Chain StakePayload Utxo UtxoRollback Staking StakingAtomic StakingBlock Quorum EngineSafety EngineLive.

Module EngineExample.
#[local] Existing Instance toy_crypto | 0.
#[local] Existing Instance toy_json | 0.
#[local] Existing Instance TxVerifier.plain_ring | 0.
#[local] Existing Instance AvmEngine.toy_memory | 0.
#[local] Existing Instance AvmEngine.toy_decoder | 0.
#[local] Existing Instance AvmEngine.toy_runtime | 0.
#[local] Existing Instance AvmState.level_store | 0.

(** ** The network *)

Abbreviation key := FinalitySafety.ex_key (only parsing).
Abbreviation pub := FinalitySafety.ex_pub (only parsing).

(** A world without contracts, LPoD and sales; its store answers [save]. *)
Definition ex_world (save : result ()) : World () () AvmState.LevelStore := {|
  w_now := 5000; w_clock := 5000; w_fetched := 0; w_cached := 0;
  w_fingerprint := fun _ _ => Some (copy_arr 32 [x01]); w_ring := None; w_reindex := fun _ _ => Ok ();
  w_avm := None; w_validateLPoD := fun _ => Ok (); w_prepareLPoD := fun _ => Ok None;
  w_draftLPoD := fun _ _ => Err "no LPoD"; w_filterLPoD := fun txs => Ok (txs, []); w_lpodRemaining := None;
  w_prepareSale := None; w_sales := None;
  w_canonical := Some (fun _ _ => save); w_produced := None;
  w_io := FinalitySafety.ex_io;
  w_iter := MempoolInvariant.ex_iter; w_ord := @merge_sort _ MempoolInvariant.higher_rate MempoolInvariant.higher_rate_dec;
  w_epoch := fun l => l; w_votes := map_to_list; w_replay := map_to_list
|}.
Definition ex_up : World () () AvmState.LevelStore := ex_world (Ok ()).
Definition ex_down : World () () AvmState.LevelStore := ex_world (Err "disk full").

(** One validator; [exclusion] is the height from which collateral leaves the rings. *)
Definition ex_config (exclusion : Z) (my : option (list byte)) : Config := {|
  econ := Economics.mkConfig 0 0 0 0 0 zeroHash 1 1 0 0 None None;
  bootstrap := [pub]; authorityFork := None; BFTThreshold := two_thirds;
  MyKey := my; RewardAddress := EmptyString; StopProducingAtHeight := 0; banThreshold := None; hasOracle := false;
  OracleMaxDeviation := f64_of_Z 0; GenesisVestingActivationHeight := 0;
  StakedCollateralRingExclusionActivationHeight := exclusion; verifier := Some None |}.

(** The outputs 1 and 2, each of the minimum stake. *)
Definition ex_outputs : UTXOSet := Add (StakingAtomic.ex_out x01) (Add (StakingAtomic.ex_out x02) NewUTXOSet).

(** After the genesis block, with the transactions of [m] pending. *)
Definition ex_node (m : Mempool.Mempool) : Engine := {|
  chain := ex_c0; registry := Some (SetSignatureAdmissionHeight 1 NewValidatorRegistry);
  Engine.utxos := Some ex_outputs; pool := m; baseFee := 100;
  slashing := ∅; fin := Finality.fresh_fin None; stakingPool := Economics.mkPool 0 0 0; timestampRejected := 0;
  tsPerValidator := ∅ |}.

(** A version 5 spend of output [n]; the ring of the small instance names it alone. *)
Definition ex_spend_out (n : byte) (fee : Z) : Transaction :=
  let c := TxVerifier.ex_commit (MinStakeNAPR - fee) in
  let o := StakingAtomic.ex_out n in
  let proof := {| rp_V := zero_arr 32; rp_A := zero_arr 32; rp_S := zero_arr 32; rp_T1 := zero_arr 32;
     rp_T2 := zero_arr 32; rp_Taux := zero_arr 32; rp_Mu := zero_arr 32; rp_Tx := zero_arr 32; rp_Ls := [];
     rp_Rs := []; rp_AFin := zero_arr 32; rp_BFin := zero_arr 32; ValueCommit := c |} in
  mkTx TxVersionCLSAG
    [mkInput (copy_arr 32 [x07]) (replicate RingSize (u_OneTimePub o)) (zero_arr 32)
       (replicate RingSize (u_AmountCommit o)) (u_AmountCommit o) x00]
    [mkOutput (copy_arr 32 [x30]) (copy_arr 32 [x31]) c (copy_arr 8 [])] fee (TxVerifier.ex_commit fee) [Some proof] []
    [Some {| C1 := zero_arr 32; S_ := replicate RingSize (zero_arr 32); CLSAGKeyImage := copy_arr 32 [x07]; D_ := zero_arr 32 |}]
    [] None.
(** A deposit that burns output 1. *)
Definition ex_deposit : Transaction := StakingAtomic.ex_stake_tx xaa x01 x01.

(** What the pool lets in at a base fee of 100. *)
Definition ex_admission : Mempool.Env :=
  Mempool.mkEnv (Some 100) (Some (TxVerifier.mkVerifier (Some ex_outputs) None None 5000 1)) None None
    (Some (fun tx h => ValidateBlockStakeTxs [tx] h (SetUTXOSet (Some ex_outputs) NewValidatorRegistry))).
Definition ex_pool (txs : list Transaction) : Mempool.Mempool * bool :=
  foldl (fun s tx => let '(m, r) := Mempool.Add MempoolInvariant.ex_iter ex_admission 5 tx s.1 in (m, s.2 && is_ok r))
    (Mempool.NewMempool (Mempool.mkConfig 10 0 100000 1000 100 10 50 0), true) txs.



(** A block over [txs] that names [parent], signed by the validator. *)
Definition ex_signed (parent : Hash32) (txs : list Transaction) : Block :=
  match Block.Sign (mkHeader 1 parent (default zeroHash (MerkleRoot txs)) 5000 1 pub 0 200 []) key with
  | Ok h => mkBlock h txs | Err _ => ex_g
  end.
Definition ex_stray : Block := ex_signed (zero_arr 32) [ex_deposit].
Definition ex_peer : Engine := ex_node (ex_pool []).1.


(** ** What the theorems ask *)

Lemma ex_outputs_lookup k u :
  utxos ex_outputs !! k = Some u -> u = StakingAtomic.ex_out x01 /\ key_of u = k \/ u = StakingAtomic.ex_out x02 /\ key_of u = k.
Proof.
  change (utxos ex_outputs) with (<[key_of (StakingAtomic.ex_out x01) := StakingAtomic.ex_out x01]>
    (<[key_of (StakingAtomic.ex_out x02) := StakingAtomic.ex_out x02]> (∅ : gmap UTXOKey UTXO))).
  rewrite !lookup_insert_Some, lookup_empty. naive_solver.
Qed.

Lemma ex_index : idx_ok ex_outputs.
Proof.
  split.
  - intros m u Hm. change (byPubKey ex_outputs) with (<[u_OneTimePub (StakingAtomic.ex_out x01) := StakingAtomic.ex_out x01]>
      (<[u_OneTimePub (StakingAtomic.ex_out x02) := StakingAtomic.ex_out x02]> (∅ : gmap Point32 UTXO))) in Hm.
    rewrite !lookup_insert_Some, lookup_empty in Hm.
    destruct Hm as [[<- <-]|[_ [[<- <-]|[_ Hm]]]]; [| |done];
      (split; [reflexivity|apply (bool_decide_unpack _); vm_compute; exact I]).
  - intros k u Hk. by apply ex_outputs_lookup in Hk as [[_ ?]|[_ ?]].
Qed.

Lemma ex_block_undoable b : height_of b = 1 -> Txs b = [ex_deposit] -> undoable b ex_outputs.
Proof.
  intros Hh Ht. constructor; unfold height_of in Hh; rewrite ?Hh, ?Ht.
  - split_and!; [constructor..|]. intros _ x Hx. by apply not_elem_of_empty in Hx.
  - exact ex_index.
  - split_and!; [apply (bool_decide_unpack _); vm_compute; exact I..|].
    intros u Hu. vm_compute in Hu. by apply elem_of_nil in Hu.
  - split; vm_compute; reflexivity.
  - by left.
  - intros tx inp m u _ _ _ Hs. vm_compute in Hs. discriminate Hs.
  - constructor; [|constructor]; intros _; reflexivity.
Qed.

Lemma ex_node_utxos m s : Engine.utxos (ex_node m) = Some s -> s = ex_outputs.
Proof. intros Hs. by apply (inj Some) in Hs. Qed.

Lemma ex_undoable_block b m : height_of b = 1 -> Txs b = [ex_deposit] -> undoable_block b (ex_node m).
Proof.
  intros Hh Ht. constructor.
  - by intros r [= <-].
  - intros s ->%ex_node_utxos. by apply ex_block_undoable.
  - intros s k ->%ex_node_utxos _ u Hu. apply ex_outputs_lookup in Hu as [[-> <-]|[-> <-]];
      (split; [done|apply (bool_decide_unpack _); vm_compute; exact I]).
Qed.

Lemma ex_chain_reachable : reachable ex_c0.
Proof. eapply (reach_genesis ex_g [2]); [apply ok_value; vm_compute; reflexivity|apply NoDup_singleton]. Qed.

Lemma ex_block_fresh b : height_of b = 1 -> block_Hash b <> block_Hash ex_g -> Txs b = [ex_deposit] -> fresh b ex_c0.
Proof.
  intros Hh Hn Ht. constructor; rewrite ?Hh, ?Ht.
  - vm_compute. reflexivity.
  - change (blocks ex_c0) with (<[block_Hash ex_g := ex_g]> (∅ : gmap Hash32 Block)). by rewrite lookup_insert_ne.
  - apply (bool_decide_unpack _). vm_compute. exact I.
  - intros x Hx. change (Hash <$> [ex_deposit]) with [Hash ex_deposit] in Hx.
    apply list_elem_of_singleton in Hx as ->. vm_compute. reflexivity.
Qed.

(** ** Witnesses *)

(** The stray block passes every check but the last: the deposit is applied and
    taken back. *)
Lemma snd_value {X Y} (p : X * Y) y : p.2 = y -> p = (p.1, y).
Proof. destruct p. by intros <-. Qed.

Abbreviation ex_refused := (handleIncomingBlock (ex_config 0 None) ex_up ex_stray ex_peer) (only parsing).

Lemma rejected_block_restores_witness :
  ex_refused.2 = Err "prev hash mismatch" /\ registry ex_refused.1 = registry ex_peer /\ baseFee ex_refused.1 = 100.
Proof.
  assert (He : ex_refused.2 = Err "prev hash mismatch") by (vm_compute; reflexivity).
  destruct (rejected_block_restores (ex_config 0 None) ex_up ex_stray ex_peer ex_refused.1 "prev hash mismatch") as [_ Hr _ _ Hf _ _].
  - apply ex_undoable_block; vm_compute; reflexivity.
  - exact ex_chain_reachable.
  - apply ex_block_fresh; [vm_compute; reflexivity|intros Hf; vm_compute in Hf; discriminate Hf|vm_compute; reflexivity].
  - vm_compute. reflexivity.
  - by apply snd_value.
  - exact (conj He (conj Hr Hf)).
Defined.

Definition ex_good : Block := ex_signed (block_Hash ex_g) [ex_deposit].
Lemma ex_good_facts : height_of ex_good = 1 /\ block_Hash ex_good <> block_Hash ex_g /\ Txs ex_good = [ex_deposit].
Proof. split_and!; [vm_compute; reflexivity|intros Hf; vm_compute in Hf; discriminate Hf|vm_compute; reflexivity]. Qed.

Abbreviation ex_applied := (apply_block ex_down ex_good ex_peer) (only parsing).
Definition ex_undo : option (Registry -> Registry) := match ex_applied.2 with inr k => k | inl _ => None end.
Definition ex_settlement : Prepared () () := mkPrepared (AvmBlock.mkPrepared 1 zeroHash [] [] zeroHash) None None.
Abbreviation ex_persisted := (persist_block ex_down ex_good ex_settlement ex_undo ex_applied.1) (only parsing).

Lemma inr_value {X Y Z} (p : X * (Y + Z)) z :
  (match p.2 with inr _ => true | inl _ => false end) = true -> (match p.2 with inr k => k | inl _ => z end) = z ->
  p = (p.1, inr z).
Proof. destruct p as [x [y|k]]; [done|]. by intros _ <-. Qed.

Lemma persistence_failure_stops_witness :
  restored ex_peer ex_persisted.1 /\ exists y, tick (ex_config 0 (Some key)) ex_up ex_persisted.1 = (ex_persisted.1, Err y).
Proof.
  destruct ex_good_facts as (Hh & Hn & Ht).
  destruct (persistence_failure_stops ex_down ex_good ex_settlement ex_undo ex_peer ex_applied.1 ex_persisted.1
    "persist canonical block: disk full") as [Hre Hstop].
  - by apply ex_undoable_block.
  - vm_compute. reflexivity.
  - exact ex_chain_reachable.
  - by apply ex_block_fresh.
  - vm_compute. reflexivity.
  - apply inr_value; [vm_compute; reflexivity|]. unfold ex_undo. destruct (ex_applied.2); reflexivity.
  - apply snd_value. vm_compute. reflexivity.
  - exact (conj Hre (proj2 (Hstop _ _))).
Defined.

Abbreviation ex_taken := (handleIncomingBlock (ex_config 0 None) ex_up ex_good ex_peer) (only parsing).

Lemma accepted_block_extends_witness : tip (chain ex_taken.1) = Some ex_good /\ baseFee ex_taken.1 = effective_fee ex_good 100.
Proof.
  destruct (accepted_block_extends (ex_config 0 None) ex_up ex_good ex_peer ex_taken.1) as (_ & _ & _ & Ht & _ & Hf & _).
  - apply snd_value. vm_compute. reflexivity.
  - exact (conj Ht Hf).
Defined.





(** ** Blocks that are not taken, or not made *)

(** The collateral of a deposit leaves the rings with the block that burns it, but the
    producer screens its pool without the burns of the block it builds: it commits a
    spend with this output in its ring, and every peer refuses the block. *)
Definition ex_clash : Engine * result (option Block) :=
  tick (ex_config 1 (Some key)) ex_up (ex_node (ex_pool [ex_deposit; ex_spend_out x01 900000]).1).

Theorem committed_block_refused :
  (ex_pool [ex_deposit; ex_spend_out x01 900000]).2 = true /\
  (match ex_clash.2 with
   | Ok (Some b) => (default 0 (height_of <$> tip (chain ex_clash.1)) =? height_of b) &&
       match (handleIncomingBlock (ex_config 1 None) ex_up b ex_peer).2 with
       | Err x => String.eqb x "ring member is staked collateral" | Ok _ => false
       end
   | _ => false
   end) = true.
Proof. split; vm_compute; reflexivity. Qed.

(** The pool admits at the base fee of its time and [SetBaseFee] evicts nothing; the
    producer selects without looking at the fee, and the block it builds fails its own
    policy.  The transaction stays, and so does the chain, slot after slot. *)
Definition ex_cheap : Transaction := ex_spend_out x02 300000.
Definition ex_stalled : Engine * result (option Block) :=
  tick (ex_config 0 (Some key)) ex_up (ex_node (ex_pool [ex_cheap]).1).

Theorem underpriced_transaction_stalls :
  (ex_pool [ex_cheap]).2 = true /\
  (match ex_stalled.2 with Err x => String.eqb x "fee below consensus minimum" | _ => false end) = true /\
  bool_decide (is_Some (Mempool.entries (pool ex_stalled.1) !! Hash ex_cheap)) = true /\
  default 1 (height_of <$> tip (chain ex_stalled.1)) = 0.
Proof. split_and!; vm_compute; reflexivity. Qed.

(** A replaced validator signs its reward with the replacement, and the policy verifies
    it under the identity of the header: in the era of the authorizations it cannot
    produce a block. *)
Definition ex_fork : ValidatorAuthorityFork :=
  mkFork 1 (block_Hash ex_g) 2 (block_Hash ex_b1) (replicate 32 x08) pub (copy_arr 32 [x01]) zeroHash [].
Definition ex_rewarded : Config := {|
  econ := Economics.mkConfig 0 0 0 1 0 zeroHash 1 1 0 0 None None;
  bootstrap := [replicate 32 x08]; authorityFork := Some ex_fork; BFTThreshold := two_thirds;
  MyKey := Some key; RewardAddress := "addr"; StopProducingAtHeight := 0; banThreshold := None; hasOracle := false;
  OracleMaxDeviation := f64_of_Z 0; GenesisVestingActivationHeight := 0;
  StakedCollateralRingExclusionActivationHeight := 0; verifier := Some None |}.
Definition ex_replaced : Engine := set_chain ex_c1 ex_peer.

Theorem replaced_validator_unrewarded :
  our_slot ex_rewarded ex_replaced 2 1 = true /\
  (match (tick ex_rewarded ex_up ex_replaced).2 with
   | Err x => String.eqb x "invalid reward authorization signature" | _ => false end) = true.
Proof. split; vm_compute; reflexivity. Qed.

End EngineExample.
